(* ===== verification/_CoqProject ===== *)
-Q . S2P
Prelude.v
Types.v
Permissions.v
VideoQueue.v
Subtitles.v
RoomModel.v
RoomPlayback.v
RoomRequests.v
RoomLifecycle.v
Connection.v
ConnectionFacts.v
ConnectionTheorems.v
ClientRoom.v
RoomInvariants.v
RoomSync.v
RoomReach.v
RoomMembers.v
RoomSamples.v
RoomSyncTheorems.v
RoomTheorems.v
RoomAuthority.v
RoomHistory.v
RoomQueueing.v
EdgeModel.v
EdgeSteps.v
EdgeSync.v
EdgeTheorems.v
Async.v
PlaybackSync.v
PlaybackSyncFacts.v
PlaybackSyncTheorems.v
Danmaku.v
DanmakuTheorems.v
Preparation.v
PreparationTheorems.v
RoomStorage.v
RoomManager.v
RoomManagerFacts.v
RoomManagerTheorems.v
RoomStorageTheorems.v
Voice.v
VoiceBudget.v
VoiceRelay.v
VoiceTheorems.v
VoiceCredentials.v
ClientManager.v
RoomManagerMembers.v
ClientManagerFacts.v
ClientManagerSteps.v
ClientManagerOutputs.v
ClientManagerTheorems.v
Accounts.v
AccountsTheorems.v
RoomPassword.v
RoomPasswordTheorems.v
InfoExtractor.v
InfoExtractorTheorems.v
RoomApi.v
RoomApiTheorems.v
MediaRecovery.v
MediaRecoveryTheorems.v
