(* ===== verification/Prelude.v ===== *)
(** * OpenTogetherTube: verification development

    ** The program

    OpenTogetherTube lets several people watch the same video in step.  A _room_ holds
    the queue, the video that is on, the playback clock, the settings, the permission
    table and the people in it.  Clients send requests over a websocket (or HTTP); the
    room checks the requester's permission, changes its state and marks the changed
    properties dirty; a sync sends exactly the dirty properties to every client.  There are
    two backends with this behaviour.  [src/server] is a Node server: [room.ts] is the room,
    [videoqueue.ts] its queue, [common/permissions.ts] the permission table, and a room
    manager calls [update] and [sync] on each room about once a second.
    [src/packages/ott-edge] is a second implementation as a Cloudflare durable object, one
    object per room, woken by messages and by an alarm ([room-state.ts] is the state
    machine, [room-object.ts] the object around it).

    ** The files

    - this file: the record-update notation ([r <| f := v |>]), the state-and-error monad
      [M] of the request handlers with its lemmas and the tactics that step through it,
      and the generic lemmas on lists, masks and numbers;
    - [Types]: [common/models/types.ts], [video.ts], [messages.ts]: enumerations, videos,
      settings, and JavaScript's [number] ([jsnum]);
    - [Permissions]: [common/permissions.ts], [userutils.ts], [voteskip.ts]: masks, [Grants],
      the checks; refined against an abstract table (a role is granted a permission or not);
    - [VideoQueue]: [server/videoqueue.ts] with the dirty flag of [util/dirtyable.ts];
    - [Subtitles]: [common/subtitles.ts];
    - [RoomModel], [RoomPlayback], [RoomRequests], [RoomLifecycle]: [server/room.ts].  The
      record [Room] has the fields of the class; the playback methods that cannot throw
      are functions from rooms to rooms; a request handler is a computation in [M Env Room];
      the constructor, [update], [sync], the timers and the stored form are in the last.
      Settings, grants, queue and users are reached through the definitions of the files
      above, as the class reaches them through its members;
    - [RoomInvariants], [RoomReach]: the invariants and their preservation by every method,
      and [reachable], the states a room gets to by requests, ticks, syncs, timers, and the
      joining and leaving of clients;
    - [RoomSamples]: an environment and rooms on which the examples are evaluated;
    - [RoomTheorems], [RoomAuthority], [RoomHistory], [RoomQueueing]: the room's theorems;
    - [EdgeModel], [EdgeSteps], [EdgeSync], [EdgeTheorems]: [room-state.ts] and [commands.ts]
      of [ott-edge]; the calls [room-object.ts] makes as the relation [EdgeStep]; what
      a client that applies each sync message knows; the theorems;
    - [Async]: what the asynchronous engines of the client share: the ways a call into the
      player can end, the continuations waiting for it, and the class [Waiting] with the
      lemmas that at most one continuation owns the engine's ticket;
    - [PlaybackSync], [PlaybackSyncFacts], [PlaybackSyncTheorems]: [client/src/util/playback-sync.ts],
      the engine that keeps a viewer's player on the room's clock by bending its rate or
      seeking;
    - [Danmaku], [DanmakuTheorems]: [client/src/util/danmaku/engine.ts] and the items of
      [parse.ts]: the scheduler of the comments that fly over the video;
    - [Preparation], [PreparationTheorems]: [client/src/util/playback-preparation.ts], the viewer's
      side of a start round: position, freeze, and report ready;
    - [RoomStorage], [RoomStorageTheorems]: [server/storage/room.ts] and the row of
      [models/room.ts]: a room as a row, what a sync writes, and what a restart reads back;
    - [RoomManager], [RoomManagerFacts], [RoomManagerTheorems], [RoomManagerMembers]:
      [server/roommanager.ts]: the rooms of a server, their loading, sweeping and unloading;
    - [RoomMembers]: who is a member of a room, followed through every method;
    - [Connection], [ConnectionFacts], [ConnectionTheorems]: [client/src/plugins/connection.ts] and
      [client/src/util/connection-latency.ts]: the connection of a page to its room, its
      reconnects, probes and what a close means;
    - [ClientRoom]: [client/src/stores/room.ts], the room as a page keeps it, the action that
      takes a sync message in, and [roomPosition] of [client/src/views/Room.vue];
    - [RoomSync], [RoomSyncTheorems]: what the published messages make of such a page, followed
      through every method of a room;
    - [Voice], [ClientManager]: [server/voice.ts], [voice-budget.ts], [client.ts] and
      [clientmanager.ts]: the connections of a server, their joins, messages, voice and leaving,
      on top of the manager; [ClientManagerFacts], [ClientManagerSteps]: its invariant;
      [ClientManagerOutputs]: who is shown what; [ClientManagerTheorems]: its theorems;
    - [VoiceBudget], [VoiceRelay]: the rest of [voice.ts] and [voice-budget.ts]: the relay channels of
      the configuration, the account a room is charged to, the credentials Cloudflare mints and
      their cache; [VoiceTheorems], [VoiceCredentials]: their theorems;
    - [Accounts], [AccountsTheorems]: [server/usermanager.ts], [auth/tokens.ts], [api/user.ts] and
      the middleware that finds out who asks: users, sessions, recovery, rate limits;
    - [RoomPassword], [RoomPasswordTheorems]: [server/room-password.ts], the locks on rooms;
    - [InfoExtractor], [InfoExtractorTheorems]: [server/infoextractor.ts] with
      [storage/cachedvideo.ts] and [api/data.ts]: from a query to videos, over a cache;
    - [RoomApi], [RoomApiTheorems]: [server/api/room.ts]: the routes of a room, as programs over what
      they ask of the manager, the room, the storage and the files above;
    - [MediaRecovery], [MediaRecoveryTheorems]: [client/src/util/media-recovery.ts] and
      [media-seek.ts]: how a player gets over a failing source.

    ** What the theorems show

    - _Reachable states_: a gesture, a start round and the buffer gate exclude one
      another and leave the fields consistent; the queue and the event ring are bounded, and
      so are the notes, up to the requests that overlap; a room created fresh never plays
      with a stopped clock.
    - _The clock_: play, pause, the gate and speed changes leave the position where it was
      at that instant, and between events it advances by elapsed time times speed.
    - _Progress_: the buffer gate is released after its timeout, the first tick past the
      deadlines of a held start round starts it or fixes its start, and neither starts early.
    - _Authority_: a request without its permission changes nothing; promotion, kicking
      and settings obey the hierarchy; the table built from stored entries is the
      abstract table closed upwards, survives a round trip, and is migrated exactly.
    - _History_: undo inverts a removal (of an item that JSON carries unchanged),
      acts only on recorded events, and only once; a quick reconnect is silent; snapshots
      tell the truth.
    - _Sync_: a failed sync loses nothing; in the edge backend a client that applies the
      messages it is sent is never stale.
    - _The edge backend_: its invariant, promotion rule, alarm (the object wakes up for the
      earliest of everything it waits for), tick and restart.
    - _The client's engines_: the synchroniser's invariant, when it seeks, that a bend ends
      and gives the speed back, and that it converges; the flying comments never overlap
      under the conditions the code relies on, are repainted where they belong, and keep
      their limits; a viewer reports ready only when it is, and the viewer a
      round names does report.
    - _The room manager_: its invariant over all interleavings, that a room leaves memory only
      saved, that a sweep ends, and that what is stored comes back: the row, the queue, the
      password; two loads of one room at once split it, and nothing else does.
    - _Server and page_: a page that joined and took in every message shows the room in every
      property that is not dirty ([pages_up_to_date], a simulation kept by whatever happens to
      the room), and a message with the position makes its clock the room's ([page_clock_exact],
      for a message taken in when it was sent).  Not followed are the position as a stored
      number, [restoreQueueBehavior] and the start time of the item that plays.
    - _The page's connection_: it never gives up by itself, notices a half-open socket within
      a bounded number of probes, is stopped by a kick, and authenticates before anything else.
    - _Connections_: a member of a loaded room is a connection that is there or on its way out;
      a room is shown only to connections that were let into it, and they are let in by the
      password; a connection asks in its own name and within its budget; voice keeps its limits,
      up to the joins that are decided at the same time; an unload sends everybody away.
    - _Voice relays_: the account picked has quota and no other is used less, each tick charges
      the counters of the accounts the streams of their rooms, credentials handed out are live ones
      of the endpoint asked for, and an account that fails rests.
    - _Accounts_: a session is a user's only by a password, a registration, a Discord account or
      a mailed key; recovery works once; the table keeps its constraints when
      the database does; the slots of argon2 are never overdrawn.
    - _Videos_: a list is answered in its order, one video each; what was fetched once comes from
      the cache; links are bounded and paid for.
    - _Routes_: a room is shown, and acted on in the name of a token, only for who may enter it, while
      undoing and voting ask for no more than a connection; deleting, unloading, claiming and
      locking are its owner's; a request is answered once; rooms are created within the rules
      of the server, and the list of rooms shows public ones.
    - _Recovery of a player_: a recovery ends within five minutes, a source is fetched again a
      bounded number of times and once for each place where it stops, and a viewer who was past
      the start comes back where it was.
    A theorem about a failure of the code states it the way the code behaves
    ([restored_room_clock_freezes], [full_queue_cannot_be_restored],
    [slow_room_misses_the_deadline], [shorter_comment_overlaps], [later_viewer_never_reports],
    [overlapping_loads_split_the_room], [refused_client_acts], [unload_skips_balancer_clients],
    [late_join_stays_in_the_list], [voice_keeps_a_ghost], [recovery_ignores_the_limit],
    [old_password_opens_the_new_lock], [services_that_share_an_id_mix], [list_hangs_without_redis],
    [notes_limit_is_overrun], [voice_limit_is_overrun]).

    ** Conventions

    - A double is an exact rational [Q], with [NaN] and the infinities as constructors of
      [jsnum]; rounding is not modelled.  Millisecond instants are [Z] where the code
      only adds and compares them.
    - Role and permission masks are [Z] with [Z.land], [Z.lor] and shifts; roles are
      the enumeration's integers.  Strings are sequences of 8-bit code units.
    - A field that is absent and one that is [null] are both [None], except where the code
      tells them apart.  So is a key whose value is [undefined].  The one place where that
      shows is undo, which compares an event with its echo out of JSON: an event has a flag
      [ev_carried], whether JSON carries what is compared unchanged, which the environment
      gives ([env_carried]), and an event that it does not carry matches no echo.
    - One call reads the clock once ([now] is an argument or a field of the environment), and a
      request handler of a room runs without another interleaved at its awaits, but for
      [addNote], the one that decides by a number it has awaited and not looked at again: its
      second half is a step of its own ([StepStoreNote]), and [noting] are the runs in which
      it follows a first half.  Timers are due instants in the state; their firing is a step
      of the reachability relation.
    - The notes of a room are rows of a table.  Those that are there when the room is built, and
      the next id, are given by the environment ([env_storedNotes], [env_nextNoteId]).
    - The methods of the room manager, the client manager and the client's engines are cut at
      the awaits behind which there is I/O: what is to be done afterwards waits in the state
      ([pending], [tasks]) until an answer resumes it, in any order.  Room objects and client
      objects live in heaps, so that a handler keeps the object it looked up.  Awaits that only
      wait for the next microtask are not cut.  [makeRoomRequest] processes its request on the
      room object it found, later.
    - A run of the server ([ClientManagerSteps.reachable]) gives every connection a fresh id, puts
      nobody into a room but by its connection, and has no two loaded rooms of one name;
      [loads_apart_keep_names_unique] says when the last holds.  [admitted] and
      [voiceOverlap] are records of the model alone: whom [hasRoomAccess] let in, and how many
      joins of voice were being decided at a time.  The sets of voice participants are objects
      in a store, since a handler that waits for its decision keeps the one it found.
    - Code outside the repository, and the repository's services the room only asks, is
      an argument: video lookup, the accounts a room sees, the URL parser, JSON's
      parser and coercions, argon2, lodash's [cloneDeep] and [isEqual] (with the laws the code relies on in [LodashLaws]), the JSON byte length, the
      random source and clock of the edge backend ([EdgeEnv], [EdgeJsonLaws]).  [RoomSamples]
      and [EdgeTheorems] give instances of each.
    - A request to the account API ([Accounts]) and a call of the extractor ([InfoExtractor]) are
      handled in one piece, on a database and a Redis that answer; whether the constraints on
      names and addresses of the table of users work is a parameter ([db_unique]);
      [RoomPassword] is cut at its awaits, since its two slots are about overlap; the
      credentials of [VoiceRelay] are cut at the fetch.  A handler of [RoomApi] is a program over events whose answers are arbitrary, errors
      included, so that its theorems hold whatever runs in between.
    - Logging and metrics are dropped; the diagnostics a [RoomUser] reports are omitted.
    - Fuel: [applyPermissionAdditions] runs [ROOM_PERMISSIONS_REVISION] minus the stored
      revision steps, the number of iterations of the code's loop.  Everything else is
      structural, except [Danmaku.lowerBound], whose fuel is the length of the list plus one: every
      turn of its loop shortens the interval.
    - In the edge backend the snapshot objects are association lists in insertion order, and
      a member's [status] is changed through its id, as the code changes the object
      held by its map.

    ** Not modelled

    The upgrade of requests to sockets and the shapes of messages on them, the mounting of routers
    and static files, the comment and status routes, SQL and Redis as such, sending mail, the
    limiter library, and the adapters of the video services are input and output around the
    modelled parts and appear as arguments, events or answers.  The durable object around the
    room of the edge backend is left out, with its probes of media files.  The Vue client's views,
    players and shaders, its locales, the Rust balancer, generated code and build files are
    left out.  In [room.ts], the hash of a password is an answer. *)

From Stdlib Require Export QArith Lqa.
From stdpp Require Export base tactics option list gmap strings fin_maps sorting.
From Stdlib Require Export Lia.

#[global] Open Scope Z_scope.

(** ** Record update

    The program's objects are records with many fields that handlers update one
    at a time.  [r <| f := v |>] is the record [r] with the field [f] replaced.
    A record type opts in with one [Eta] instance (the constructor applied to all
    projections); the setter of a field is computed from it. *)

Class Eta (R : Type) := eta : R -> R.

Ltac setter_of proj :=
  let R := match type of proj with ?R -> _ => R end in
  unshelve refine (fun h x => _);
  lazymatch goal with
  | h : _ -> _, x : R |- _ =>
      let t := eval hnf in (eta x) in
      match eval pattern (proj x) in t with
      | ?g _ => let u := eval cbv beta in (g (h (proj x))) in exact u
      end
  end.

Class Setter {R A : Type} (proj : R -> A) := over : (A -> A) -> R -> R.
#[export] Hint Extern 1 (Setter ?proj) => setter_of proj : typeclass_instances.

Declare Scope ott_scope.
Delimit Scope ott_scope with ott.
#[global] Open Scope ott_scope.

Notation "r <| f ::= h |>" := (over (proj := f) h r)
  (at level 1, left associativity, f at level 0, h at level 200) : ott_scope.
Notation "r <| f := v |>" := (over (proj := f) (fun _ => v) r)
  (at level 1, left associativity, f at level 0, v at level 200) : ott_scope.

(** ** A state-and-error monad

    An asynchronous method of the program changes [this] and may throw part way
    through; what it changed before the throw stays changed.  [M S E A] is such a
    computation: from a state it gives either an error or a result, and in both
    cases the state it leaves behind. *)

Definition M (S E A : Type) : Type := S -> (E + A) * S.

Section Monad.
Context {S E : Type}.

Definition ret {A} (a : A) : M S E A := fun s => (inr a, s).
Definition throw {A} (e : E) : M S E A := fun s => (inl e, s).
Definition bind {A B} (m : M S E A) (k : A -> M S E B) : M S E B :=
  fun s => match m s with
           | (inl e, s') => (inl e, s')
           | (inr a, s') => k a s'
           end.
Definition get : M S E S := fun s => (inr s, s).
Definition gets {A} (f : S -> A) : M S E A := fun s => (inr (f s), s).
Definition modify (f : S -> S) : M S E unit := fun s => (inr tt, f s).
Definition when (b : bool) (m : M S E unit) : M S E unit := if b then m else ret tt.
Definition lift_res {A} (r : E + A) : M S E A := fun s => (r, s).

Fixpoint mapM_ {A} (f : A -> M S E unit) (l : list A) : M S E unit :=
  match l with
  | [] => ret tt
  | a :: l' => bind (f a) (fun _ => mapM_ f l')
  end.

(** [wp m Q X s]: run from [s], [m] either returns with [Q] or throws with [X]. *)
Definition wp {A} (m : M S E A) (Q : A -> S -> Prop) (X : E -> S -> Prop) (s : S) : Prop :=
  match m s with
  | (inl e, s') => X e s'
  | (inr a, s') => Q a s'
  end.

(** [keeps I m]: [m] leaves [I] true on every path, the throwing ones included. *)
Definition keeps {A} (I : S -> Prop) (m : M S E A) : Prop :=
  forall s, I s -> I (m s).2.
End Monad.

Notation "x <- m ;; k" := (bind m (fun x => k))
  (at level 100, m at next level, right associativity) : ott_scope.
Notation "m ;;; k" := (bind m (fun _ => k))
  (at level 100, right associativity) : ott_scope.

Section MonadLaws.
Context {S E : Type}.
Implicit Types (s : S).

Lemma wp_ret {A} (a : A) (Q : A -> S -> Prop) (X : E -> S -> Prop) s :
  Q a s -> wp (ret a) Q X s.
Proof. done. Qed.

Lemma wp_throw {A} (e : E) (Q : A -> S -> Prop) (X : E -> S -> Prop) s :
  X e s -> wp (throw e) Q X s.
Proof. done. Qed.

Lemma wp_bind {A B} (m : M S E A) (k : A -> M S E B) Q X s :
  wp m (fun a s' => wp (k a) Q X s') X s -> wp (bind m k) Q X s.
Proof. unfold wp, bind. by destruct (m s) as [[e|a] s']. Qed.

Lemma wp_conseq {A} (m : M S E A) (Q Q' : A -> S -> Prop) (X X' : E -> S -> Prop) s :
  wp m Q X s -> (forall a s', Q a s' -> Q' a s') -> (forall e s', X e s' -> X' e s') ->
  wp m Q' X' s.
Proof. unfold wp. destruct (m s) as [[e|a] s']; eauto. Qed.

Lemma bind_assoc {A B C} (m : M S E A) (k : A -> M S E B) (h : B -> M S E C) s :
  bind (bind m k) h s = bind m (fun a => bind (k a) h) s.
Proof. unfold bind. by destruct (m s) as [[e|a] s']. Qed.

(** One step of a computation whose first part is known. *)
Lemma bind_run {A B} (m : M S E A) (k : A -> M S E B) s a s' : m s = (inr a, s') -> bind m k s = k a s'.
Proof. intros H. unfold bind. by rewrite H. Qed.

Lemma bind_fail {A B} (m : M S E A) (k : A -> M S E B) s e s' : m s = (inl e, s') -> bind m k s = (inl e, s').
Proof. intros H. unfold bind. by rewrite H. Qed.

Lemma bind_get {B} (k : S -> M S E B) s : bind get k s = k s s.
Proof. done. Qed.

Lemma bind_modify {B} (f : S -> S) (k : unit -> M S E B) s : bind (modify f) k s = k tt (f s).
Proof. done. Qed.

Lemma bind_throw {A B} (e : E) (k : A -> M S E B) s : bind (throw e) k s = (inl e, s).
Proof. done. Qed.

Lemma keeps_wp {A} (I : S -> Prop) (m : M S E A) :
  keeps I m <-> forall s, I s -> wp m (fun _ => I) (fun _ => I) s.
Proof.
  unfold keeps, wp. split; intros H s Hs; specialize (H s Hs);
    by destruct (m s) as [[e|a] s'].
Qed.

Lemma keeps_ret {A} (I : S -> Prop) (a : A) : keeps (E := E) I (ret a).
Proof. by intros s. Qed.

Lemma keeps_throw {A} (I : S -> Prop) (e : E) : keeps (A := A) I (throw e).
Proof. by intros s. Qed.

Lemma keeps_gets {A} (I : S -> Prop) (f : S -> A) : keeps (E := E) I (gets f).
Proof. by intros s. Qed.

Lemma keeps_lift {A} (I : S -> Prop) (r : E + A) : keeps I (lift_res r).
Proof. by intros s. Qed.

Lemma keeps_get (I : S -> Prop) : keeps (E := E) I get.
Proof. by intros s. Qed.

Lemma keeps_modify (I : S -> Prop) (f : S -> S) :
  (forall s, I s -> I (f s)) -> keeps (E := E) I (modify f).
Proof. intros H s Hs. by apply H. Qed.

Lemma keeps_bind {A B} (I : S -> Prop) (m : M S E A) (k : A -> M S E B) :
  keeps I m -> (forall a, keeps I (k a)) -> keeps I (bind m k).
Proof.
  intros Hm Hk s Hs. specialize (Hm s Hs). unfold bind.
  destruct (m s) as [[e|a] s']; [done|]. by apply Hk.
Qed.

(** The same, with what the result of [m] can be. *)
Lemma keeps_bind_res {A B} (I : S -> Prop) (m : M S E A) (k : A -> M S E B) :
  keeps I m -> (forall s a s', m s = (inr a, s') -> keeps I (k a)) -> keeps I (bind m k).
Proof.
  intros Hm Hk s Hs. specialize (Hm s Hs). unfold bind.
  destruct (m s) as [[e|a] s'] eqn:Hr; [done|]. by apply (Hk _ _ _ Hr).
Qed.

Lemma keeps_when (I : S -> Prop) b (m : M S E unit) : keeps I m -> keeps I (when b m).
Proof. destruct b; [done|]. intros _. apply keeps_ret. Qed.

Lemma keeps_mapM {A} (I : S -> Prop) (f : A -> M S E unit) l :
  (forall a, keeps I (f a)) -> keeps I (mapM_ f l).
Proof. intros Hf. induction l; [apply keeps_ret|by apply keeps_bind]. Qed.
End MonadLaws.

(** The database of facts "this computation keeps that invariant". *)
Create HintDb keeps discriminated.
#[export] Hint Resolve keeps_ret keeps_throw keeps_gets keeps_get keeps_lift
  keeps_bind keeps_when keeps_mapM : keeps.

(** Break a computation into its parts and close each with the [keeps] database. *)
Ltac keeps_step :=
  match goal with
  | |- keeps _ (bind _ _) => apply keeps_bind; [|intros ?]
  | |- keeps _ (when _ _) => apply keeps_when
  | |- keeps _ (if ?b then _ else _) => destruct b
  | |- keeps _ (match ?x with _ => _ end) => destruct x
  | |- keeps _ (mapM_ _ _) => apply keeps_mapM; intros ?
  | |- keeps _ (modify _) => apply keeps_modify; intros ? ?
  | |- keeps _ _ => solve [eauto 3 with keeps]
  end.
Ltac keeps_tac := repeat keeps_step.

(** ** JavaScript values

    A [number] is a rational or one of the three values [Number.isFinite] rejects.
    Rounding of doubles is not modelled; every other rule of the arithmetic the
    program does (comparisons, [??], integer tests) is. *)

Inductive num := Fin (q : Q) | NaN | Inf (negative : bool).

Definition isFinite (n : num) : bool := match n with Fin _ => true | _ => false end.

(** [Number.isInteger]: a finite value with no fractional part. *)
Definition as_integer (n : num) : option Z :=
  match n with
  | Fin q => if Qnum q mod QDen q =? 0 then Some (Qnum q / QDen q) else None
  | _ => None
  end.

Definition Qlt_bool (x y : Q) : bool := negb (Qle_bool y x).
Definition Qgt_bool (x y : Q) : bool := Qlt_bool y x.
Definition Qge_bool (x y : Q) : bool := Qle_bool y x.
Definition Qabs' (x : Q) : Q := if Qle_bool 0 x then x else (- x)%Q.
Definition Qmax' (x y : Q) : Q := if Qle_bool x y then y else x.
Definition Qmin' (x y : Q) : Q := if Qle_bool x y then x else y.

(** A value received from a client: it has the declared type, or any other one. *)
Inductive wire (A : Type) := Typed (a : A) | IllTyped.
Arguments Typed {_}.
Arguments IllTyped {_}.

(** [undefined], [null], a number, or anything else. *)
Inductive jsval := JUndefined | JNull | JNumber (n : num) | JOther.

Lemma Qlt_bool_iff x y : Qlt_bool x y = true <-> (x < y)%Q.
Proof.
  unfold Qlt_bool. rewrite negb_true_iff, <- not_true_iff_false, Qle_bool_iff.
  split; [apply Qnot_le_lt|apply Qlt_not_le].
Qed.

Lemma Qlt_bool_false x y : Qlt_bool x y = false <-> (y <= x)%Q.
Proof. unfold Qlt_bool. by rewrite negb_false_iff, Qle_bool_iff. Qed.

(** ** Insertion-ordered maps

    A JavaScript [Map] (or an object used as one) iterates its keys in insertion
    order; setting a key that is there keeps its place. *)

Section JsMap.
Context {K V : Type} `{EqDecision K}.

Fixpoint map_get (k : K) (m : list (K * V)) : option V :=
  match m with
  | [] => None
  | (k', v) :: m' => if decide (k = k') then Some v else map_get k m'
  end.

Fixpoint map_set (k : K) (v : V) (m : list (K * V)) : list (K * V) :=
  match m with
  | [] => [(k, v)]
  | (k', v') :: m' => if decide (k = k') then (k', v) :: m' else (k', v') :: map_set k v m'
  end.

Definition map_delete (k : K) (m : list (K * V)) : list (K * V) :=
  filter (fun kv => kv.1 <> k) m.

Definition map_has (k : K) (m : list (K * V)) : bool :=
  match map_get k m with Some _ => true | None => false end.

Lemma map_get_set k k' v m :
  map_get k (map_set k' v m) = if decide (k = k') then Some v else map_get k m.
Proof.
  induction m as [|[k0 v0] m IH]; simpl.
  - by repeat case_decide.
  - destruct (decide (k' = k0)) as [->|]; simpl; repeat case_decide; congruence || done.
Qed.

Lemma map_get_set_eq k v m : map_get k (map_set k v m) = Some v.
Proof. rewrite map_get_set. by rewrite decide_True. Qed.

Lemma map_get_set_ne k k' v m : k <> k' -> map_get k (map_set k' v m) = map_get k m.
Proof. intros. rewrite map_get_set. by rewrite decide_False. Qed.

Lemma map_get_delete_eq k m : map_get k (map_delete k m) = None.
Proof.
  unfold map_delete. induction m as [|[k0 v0] m IH]; [done|].
  rewrite filter_cons. simpl. case_decide; [|done]. simpl. by case_decide.
Qed.

Lemma map_get_delete_ne k k' m : k <> k' -> map_get k (map_delete k' m) = map_get k m.
Proof.
  intros Hne. unfold map_delete. induction m as [|[k0 v0] m IH]; [done|].
  rewrite filter_cons. simpl. case_decide; simpl; repeat case_decide; naive_solver.
Qed.

Lemma map_get_In k v m : map_get k m = Some v -> (k, v) ∈ m.
Proof.
  induction m as [|[k0 v0] m IH]; [done|]. simpl.
  case_decide; intros; simplify_eq; set_solver.
Qed.

Lemma map_get_None k m : map_get k m = None <-> k ∉ m.*1.
Proof.
  induction m as [|[k0 v0] m IH]; simpl; [set_solver|].
  case_decide; rewrite ?not_elem_of_cons; naive_solver.
Qed.
End JsMap.

(** ** Lists

    [splice_out i l] is [l.splice(i, 1)]; [splice_in i x l] is [l.splice(i, 0, x)]. *)

Definition splice_out {A} (i : nat) (l : list A) : list A := take i l ++ drop (S i) l.
Definition splice_in {A} (i : nat) (x : A) (l : list A) : list A := take i l ++ x :: drop i l.

(** An element picked by a partial function with no repeated values sits in one place. *)
Lemma omap_once {A B} (f : A -> option B) (l : list A) i j x y b :
  NoDup (omap f l) -> l !! i = Some x -> l !! j = Some y -> f x = Some b -> f y = Some b -> i = j.
Proof.
  revert i j. induction l as [|a l IH]; intros i j Hnd Hi Hj Hx Hy; [done|].
  assert (Hin : forall k z, l !! k = Some z -> f z = Some b -> b ∈ omap f l).
  { intros k z Hk Hz. apply list_elem_of_omap. exists z. split; [by eapply list_elem_of_lookup_2|done]. }
  simpl in Hnd. destruct i as [|i], j as [|j]; simpl in Hi, Hj; [done| | |].
  - injection Hi as ->. rewrite Hx in Hnd. apply NoDup_cons in Hnd as [[] _]. by eapply Hin.
  - injection Hj as ->. rewrite Hy in Hnd. apply NoDup_cons in Hnd as [[] _]. by eapply Hin.
  - f_equal. eapply IH; try done. destruct (f a); [by apply NoDup_cons in Hnd as [_ ?]|done].
Qed.

Section Lists.
Context {A : Type}.
Implicit Types (l : list A) (x : A).

Lemma splice_out_middle l1 x l2 : splice_out (length l1) (l1 ++ x :: l2) = l1 ++ l2.
Proof.
  unfold splice_out. rewrite take_app_length. f_equal.
  rewrite (drop_app_ge _ _ (S (length l1))) by lia.
  by replace (S (length l1) - length l1)%nat with 1%nat by lia.
Qed.

Lemma splice_in_middle l1 x l2 : splice_in (length l1) x (l1 ++ l2) = l1 ++ x :: l2.
Proof. unfold splice_in. by rewrite take_app_length, drop_app_length. Qed.

Lemma length_splice_out i l : (i < length l)%nat -> length (splice_out i l) = (length l - 1)%nat.
Proof. intros. unfold splice_out. rewrite length_app, length_take, length_drop. lia. Qed.

Lemma length_splice_in i x l : length (splice_in i x l) = S (length l).
Proof. unfold splice_in. rewrite length_app. simpl. rewrite length_take, length_drop. lia. Qed.

Lemma splice_in_out i x l : l !! i = Some x -> splice_in i x (splice_out i l) = l.
Proof.
  intros Hx. pose proof (take_drop_middle l i x Hx) as Hl. rewrite <- Hl at 2.
  assert (Hi : (i < length l)%nat) by (apply lookup_lt_Some in Hx; lia).
  assert (Hlen : i = length (take i l)) by (rewrite length_take; lia).
  unfold splice_out. rewrite Hlen at 1. apply splice_in_middle.
Qed.

Lemma splice_out_in i x l : (i <= length l)%nat -> splice_out i (splice_in i x l) = l.
Proof.
  intros Hi. unfold splice_in.
  assert (Hlen : i = length (take i l)) by (rewrite length_take; lia).
  rewrite Hlen at 1. rewrite splice_out_middle. apply take_drop.
Qed.

Lemma lookup_splice_in i x l : (i <= length l)%nat -> splice_in i x l !! i = Some x.
Proof.
  intros. unfold splice_in. rewrite lookup_app_r; rewrite length_take; [|lia].
  by replace (i - (i `min` length l))%nat with 0%nat by lia.
Qed.

Lemma splice_out_Permutation i x l : l !! i = Some x -> l ≡ₚ x :: splice_out i l.
Proof.
  intros Hx. rewrite <- (take_drop_middle l i x Hx) at 1. unfold splice_out.
  by rewrite Permutation_middle.
Qed.

Lemma splice_in_Permutation i x l : splice_in i x l ≡ₚ x :: l.
Proof.
  unfold splice_in. rewrite <- Permutation_middle. by rewrite take_drop.
Qed.
End Lists.

Lemma testbit_fold_lor (l : list Z) (acc n : Z) :
  Z.testbit (fold_left Z.lor l acc) n = true <->
  Z.testbit acc n = true \/ exists m, m ∈ l /\ Z.testbit m n = true.
Proof.
  revert acc. induction l as [|m l IH]; intros acc; simpl.
  - set_solver.
  - rewrite IH, Z.lor_spec, orb_true_iff. setoid_rewrite elem_of_cons. naive_solver.
Qed.

(** ** Stable sorting by a key, largest first

    An insertion sort: an element is put before the first element whose key is not
    larger, so elements with equal keys keep their order. *)

Section StableSort.
Context {A : Type} (key : A -> nat).

Fixpoint insert_desc (x : A) (l : list A) : list A :=
  match l with
  | [] => [x]
  | y :: l' => if (key y <=? key x)%nat then x :: y :: l' else y :: insert_desc x l'
  end.

Definition sort_desc (l : list A) : list A := foldr insert_desc [] l.

(** What a stable descending sort promises. *)
Record stable_desc (l l' : list A) : Prop := {
  sd_perm : l' ≡ₚ l;
  sd_sorted : Sorted (fun x y => (key y <= key x)%nat) l';
  sd_stable : forall k, List.filter (fun x => (key x =? k)%nat) l' = List.filter (fun x => (key x =? k)%nat) l;
}.

Lemma insert_desc_perm x l : insert_desc x l ≡ₚ x :: l.
Proof.
  induction l as [|y l IH]; simpl; [done|]. case_match; [done|].
  rewrite IH. apply Permutation_swap.
Qed.

Lemma insert_desc_sorted x l :
  Sorted (fun x y => (key y <= key x)%nat) l ->
  Sorted (fun x y => (key y <= key x)%nat) (insert_desc x l).
Proof.
  induction 1 as [|y l Hs IH Hhd]; simpl; [by repeat constructor|].
  destruct (key y <=? key x)%nat eqn:Hle.
  - apply Nat.leb_le in Hle. by repeat constructor.
  - apply Nat.leb_gt in Hle. constructor; [done|].
    destruct l as [|z l]; simpl; [constructor; lia|].
    apply HdRel_inv in Hhd. case_match; constructor; lia.
Qed.

Lemma insert_desc_stable x l k :
  List.filter (fun x => (key x =? k)%nat) (insert_desc x l) =
  List.filter (fun x => (key x =? k)%nat) (x :: l).
Proof.
  induction l as [|y l IH]; [done|]. simpl insert_desc.
  destruct (key y <=? key x)%nat eqn:Hle; [done|]. apply Nat.leb_gt in Hle.
  cbn [List.filter] in *. rewrite IH.
  destruct (Nat.eqb_spec (key x) k), (Nat.eqb_spec (key y) k); done || lia.
Qed.

Lemma sort_desc_stable l : stable_desc l (sort_desc l).
Proof.
  induction l as [|x l [Hp Hs Hst]]; [by split|]. simpl. split.
  - rewrite insert_desc_perm. by rewrite Hp.
  - by apply insert_desc_sorted.
  - intros k. rewrite insert_desc_stable. cbn [List.filter]. by rewrite Hst.
Qed.
End StableSort.
