(* ===== verification/Types.v ===== *)
(** * Types: the shared vocabulary

    The data types and constants of [common/models/types.ts],
    [common/models/video.ts], [common/constants.ts] and the parts of
    [common/models/messages.ts] that every component uses.  A role is the number
    the TypeScript enum gives it, because the grants code compares roles. *)

From S2P Require Import Prelude.

(** ** Enumerations *)

Inductive Visibility := Public | Unlisted | Private.
Inductive QueueMode := Manual | Vote | Loop | Dj.
Inductive BehaviorOption := Never | Prompt | Always.
Inductive BufferGateMode := GateOff | GatePause.
Inductive PlayerStatus := StatusNone | StatusReady | StatusBuffering | StatusError.

#[global] Instance Visibility_eq_dec : EqDecision Visibility.
Proof. solve_decision. Defined.
#[global] Instance QueueMode_eq_dec : EqDecision QueueMode.
Proof. solve_decision. Defined.
#[global] Instance BehaviorOption_eq_dec : EqDecision BehaviorOption.
Proof. solve_decision. Defined.
#[global] Instance BufferGateMode_eq_dec : EqDecision BufferGateMode.
Proof. solve_decision. Defined.
#[global] Instance PlayerStatus_eq_dec : EqDecision PlayerStatus.
Proof. solve_decision. Defined.

(** The enum [Role]: the numbers are compared, so they are kept. *)
Notation Role := Z (only parsing).
Definition Administrator : Role := 4.
Definition Moderator : Role := 3.
Definition TrustedUser : Role := 2.
Definition RegisteredUser : Role := 1.
Definition UnregisteredUser : Role := 0.
Definition Owner : Role := -1.

Notation ClientId := string (only parsing).
Notation AuthToken := string (only parsing).

(** ** Videos *)

Record VideoId := MkVideoId { vid_service : string; vid_id : string }.
#[global] Instance VideoId_eq_dec : EqDecision VideoId.
Proof. solve_decision. Defined.

Record MediaAccess := MkMediaAccess {
  ma_noReferrer : bool;
  ma_requiresOriginReferer : bool;
  ma_containerMismatch : bool;
}.
#[global] Instance MediaAccess_eq_dec : EqDecision MediaAccess.
Proof. solve_decision. Defined.

(** A [QueueItem]: a [VideoId], the metadata an adapter found, and the extras
    ([startAt], [endAt], [subtitleUrl]) a queue entry may carry. *)
Record QueueItem := MkQueueItem {
  qi_service : string;
  qi_id : string;
  qi_title : option string;
  qi_description : option string;
  qi_length : option num;
  qi_isLive : bool;
  qi_thumbnail : option string;
  qi_mime : option string;
  qi_width : option Z;
  qi_height : option Z;
  qi_cors : option bool;
  qi_mediaAccess : option MediaAccess;
  qi_highlight : bool;
  qi_hls_url : option string;
  qi_dash_url : option string;
  qi_src_url : option string;
  qi_subtitleUrl : option string;
  qi_startAt : option Q;
  qi_endAt : option num;
}.
#[global] Instance eta_QueueItem : Eta QueueItem := fun v =>
  MkQueueItem (qi_service v) (qi_id v) (qi_title v) (qi_description v) (qi_length v) (qi_isLive v)
    (qi_thumbnail v) (qi_mime v) (qi_width v) (qi_height v) (qi_cors v) (qi_mediaAccess v) (qi_highlight v)
    (qi_hls_url v) (qi_dash_url v) (qi_src_url v) (qi_subtitleUrl v) (qi_startAt v) (qi_endAt v).

(** A [Video] is a queue item that carries no extras yet. *)
Notation Video := QueueItem (only parsing).

Definition video_id_of (v : QueueItem) : VideoId := MkVideoId (qi_service v) (qi_id v).

(** An item that is only a service and an id. *)
Definition bare_video (s i : string) : QueueItem :=
  MkQueueItem s i None None None false None None None None None None false
    None None None None None None.

(** What a client sends to add a video: an id and the extras. *)
Record VideoAdd := MkVideoAdd {
  va_service : string;
  va_id : string;
  va_startAt : option Q;
  va_endAt : option num;
  va_subtitleUrl : option string;
}.
Definition va_video_id (v : VideoAdd) : VideoId := MkVideoId (va_service v) (va_id v).

(** ** Users *)

Record User := MkUser {
  user_id : Z;
  user_username : string;
  user_email : option string;
  user_salt : option string;
  user_hash : option string;
  user_discordId : option string;
}.

Record ClientInfo := MkClientInfo {
  ci_id : ClientId;
  ci_username : option string;
  ci_user_id : option Z;
  ci_status : option PlayerStatus;
}.

Record RoomUserInfo := MkRoomUserInfo {
  ui_id : ClientId;
  ui_name : string;
  ui_isLoggedIn : bool;
  ui_status : PlayerStatus;
  ui_role : Role;
}.

Record RoomDanmakuSource := MkDanmakuSource {
  ds_videoUrl : string;
  ds_provider : string;
  ds_label : string;
  ds_page : option string;
  ds_episodeId : option string;
  ds_offset : Q;
}.

(** A sponsorblock segment, as far as the room reads it. *)
Record Segment := MkSegment {
  seg_category : string;
  seg_startTime : Q;
  seg_endTime : Q;
}.

(** A parsed URL, as the WHATWG parser of the platform gives it. *)
Record Url := MkUrl {
  url_protocol : string;
  url_hostname : string;
  url_username : string;
  url_password : string;
  url_pathname : string;
}.

(** ** Constants *)

Definition TEMPORARY_PLAYBACK_SPEED : Q := 2.
Definition TEMPORARY_PLAYBACK_SPEED_LEASE_MS : Z := 5000.
Definition BUFFER_GATE_MAX_WAIT_MS : Z := 15000.
Definition BUFFER_GATE_START_GRACE_MS : Z := 2000.
Definition BUFFER_GATE_COOLDOWN_MS : Z := 30000.
Definition PLAYBACK_READY_WAIT_MS : Z := 8000.
Definition PLAYBACK_HARD_FALLBACK_MS : Z := 20000.
Definition PLAYBACK_START_LEAD_MS : Z := 1000.
Definition PLAYBACK_READY_BUFFER_DIRECT_SECONDS : Q := 3.
Definition PLAYBACK_READY_BUFFER_STREAM_SECONDS : Q := 6.
Definition MAX_NOTES_PER_ROOM : nat := 200.
Definition MAX_NOTE_LENGTH : nat := 1000.
Definition MAX_CHAT_MESSAGE_LENGTH : nat := 300.
Definition MAX_QUEUE_ITEMS : nat := 200.
Definition MAX_VIDEO_ID_LENGTH : nat := 2048.
Definition MAX_SEEK_SECONDS : Q := 86400.

Definition playbackReadyBufferSeconds (svc : string) : Q :=
  if decide (svc = "hls") then PLAYBACK_READY_BUFFER_STREAM_SECONDS
  else if decide (svc = "dash") then PLAYBACK_READY_BUFFER_STREAM_SECONDS
  else PLAYBACK_READY_BUFFER_DIRECT_SECONDS.

Definition ALL_SKIP_CATEGORIES : list string :=
  ["sponsor"; "intro"; "outro"; "interaction"; "selfpromo"; "music_offtopic"; "preview"].

(** ** Errors

    The exceptions the modelled code throws.  Messages are dropped; the name, and
    the argument where a caller can tell two errors apart, are kept. *)
Inductive exn :=
  | BadApiArgument (arg : string)
  | PermissionDenied (permission : string)
  | InvalidRole (role : Z)
  | VideoAlreadyQueued
  | VideoNotFound
  | UnsupportedSubtitleType
  | UnsupportedSubtitleUrl
  | ClientNotFoundInRoom
  | ImpossiblePromotion
  | FeatureDisabled
  | NoteTooLong
  | TooManyNotes
  | NoteNotFound
  | UndoEventUnavailable
  | OttException (message : string)
  | Error (message : string).

#[global] Instance exn_eq_dec : EqDecision exn.
Proof. solve_decision. Defined.

(** ** Equality of values, as [_.isEqual] decides it *)

Definition num_eqb (a b : num) : bool :=
  match a, b with
  | Fin x, Fin y => Qeq_bool x y
  | NaN, NaN => true
  | Inf s, Inf t => Bool.eqb s t
  | _, _ => false
  end.

Definition option_eqb {A} (eqb : A -> A -> bool) (a b : option A) : bool :=
  match a, b with
  | Some x, Some y => eqb x y
  | None, None => true
  | _, _ => false
  end.

Definition item_eqb (a b : QueueItem) : bool :=
  bool_decide (qi_service a = qi_service b) && bool_decide (qi_id a = qi_id b) &&
  bool_decide (qi_title a = qi_title b) && bool_decide (qi_description a = qi_description b) &&
  option_eqb num_eqb (qi_length a) (qi_length b) && Bool.eqb (qi_isLive a) (qi_isLive b) &&
  bool_decide (qi_thumbnail a = qi_thumbnail b) && bool_decide (qi_mime a = qi_mime b) &&
  bool_decide (qi_width a = qi_width b) && bool_decide (qi_height a = qi_height b) &&
  bool_decide (qi_cors a = qi_cors b) && bool_decide (qi_mediaAccess a = qi_mediaAccess b) &&
  Bool.eqb (qi_highlight a) (qi_highlight b) && bool_decide (qi_hls_url a = qi_hls_url b) &&
  bool_decide (qi_dash_url a = qi_dash_url b) && bool_decide (qi_src_url a = qi_src_url b) &&
  bool_decide (qi_subtitleUrl a = qi_subtitleUrl b) &&
  option_eqb Qeq_bool (qi_startAt a) (qi_startAt b) &&
  option_eqb num_eqb (qi_endAt a) (qi_endAt b).

Lemma num_eqb_refl a : num_eqb a a = true.
Proof. destruct a; simpl; [by apply Qeq_bool_iff|done|by destruct negative]. Qed.

Lemma option_eqb_refl {A} (eqb : A -> A -> bool) a :
  (forall x, eqb x x = true) -> option_eqb eqb a a = true.
Proof. intros H. destruct a; simpl; auto. Qed.

Lemma item_eqb_refl v : item_eqb v v = true.
Proof.
  unfold item_eqb. repeat rewrite bool_decide_true by done.
  rewrite !option_eqb_refl by (apply num_eqb_refl || (intros; by apply Qeq_bool_iff)).
  by rewrite !Bool.eqb_reflx.
Qed.
