(* ===== verification/Permissions.v ===== *)
(** * Permissions: roles, grant masks and [Grants]

    [common/permissions.ts], with [common/userutils.ts] and [common/voteskip.ts].
    A grant mask is an integer; [|] and [&] are [Z.lor] and [Z.land], which agree
    with JavaScript's 32-bit operators because every mask is cut by a validation
    mask below [2^29].  [masks] is an insertion-ordered map from role to mask. *)

From S2P Require Import Prelude Types.

Notation GrantMask := Z (only parsing).

Record Permission := MkPermission {
  perm_name : string;
  perm_mask : GrantMask;
  minRole : Role;
}.

Definition PERMISSIONS : list Permission := [
  MkPermission "playback.play-pause" (Z.shiftl 1 0) UnregisteredUser;
  MkPermission "playback.skip" (Z.shiftl 1 1) UnregisteredUser;
  MkPermission "playback.seek" (Z.shiftl 1 2) UnregisteredUser;
  MkPermission "manage-queue.add" (Z.shiftl 1 3) UnregisteredUser;
  MkPermission "manage-queue.remove" (Z.shiftl 1 4) RegisteredUser;
  MkPermission "manage-queue.order" (Z.shiftl 1 5) UnregisteredUser;
  MkPermission "manage-queue.vote" (Z.shiftl 1 6) UnregisteredUser;
  MkPermission "chat" (Z.shiftl 1 7) UnregisteredUser;
  MkPermission "configure-room.set-title" (Z.shiftl 1 8) RegisteredUser;
  MkPermission "configure-room.set-description" (Z.shiftl 1 9) RegisteredUser;
  MkPermission "configure-room.set-visibility" (Z.shiftl 1 10) RegisteredUser;
  MkPermission "configure-room.set-queue-mode" (Z.shiftl 1 11) RegisteredUser;
  MkPermission "configure-room.set-permissions.for-moderator" (Z.shiftl 1 12) Administrator;
  MkPermission "configure-room.set-permissions.for-trusted-users" (Z.shiftl 1 13) Moderator;
  MkPermission "configure-room.set-permissions.for-all-registered-users" (Z.shiftl 1 14) TrustedUser;
  MkPermission "configure-room.set-permissions.for-all-unregistered-users" (Z.shiftl 1 15) RegisteredUser;
  MkPermission "manage-users.promote-admin" (Z.shiftl 1 16) Administrator;
  MkPermission "manage-users.demote-admin" (Z.shiftl 1 17) Administrator;
  MkPermission "manage-users.promote-moderator" (Z.shiftl 1 18) Moderator;
  MkPermission "manage-users.demote-moderator" (Z.shiftl 1 19) Moderator;
  MkPermission "manage-users.promote-trusted-user" (Z.shiftl 1 20) TrustedUser;
  MkPermission "manage-users.demote-trusted-user" (Z.shiftl 1 21) TrustedUser;
  MkPermission "configure-room.other" (Z.shiftl 1 22) RegisteredUser;
  MkPermission "playback.speed" (Z.shiftl 1 23) UnregisteredUser;
  MkPermission "manage-users.kick" (Z.shiftl 1 24) TrustedUser;
  MkPermission "manage-queue.play-now" (Z.shiftl 1 25) UnregisteredUser;
  MkPermission "manage-queue.edit" (Z.shiftl 1 26) UnregisteredUser;
  MkPermission "configure-room.set-notes" (Z.shiftl 1 27) UnregisteredUser;
  MkPermission "configure-room.set-danmaku-source" (Z.shiftl 1 28) UnregisteredUser
].

Definition permMaskMap : list (string * GrantMask) :=
  map (fun p => (perm_name p, perm_mask p)) PERMISSIONS.

(** [parseIntoGrantMask]: every permission whose name starts with one of the words. *)
Definition parseIntoGrantMask (perms : list string) : GrantMask :=
  fold_left (fun mask perm =>
    fold_left (fun mask kv =>
      if String.prefix perm kv.1 || bool_decide (perm = "*") then Z.lor mask kv.2 else mask)
      permMaskMap mask) perms 0.

Definition getValidationMask (role : Role) : GrantMask :=
  match map perm_mask (List.filter (fun p => minRole p <=? role) PERMISSIONS) with
  | [] => parseIntoGrantMask ["*"]
  | m :: masks => fold_left Z.lor masks m
  end.

Definition isRoleValid (role : Role) : bool := (-1 <=? role) && (role <=? 4).

(** ** The class [Grants] *)

Record Grants := MkGrants { masks : list (Role * GrantMask) }.

(** What [setRoleGrants] accepts: names to parse, or a mask. *)
Inductive PermInput := PNames (names : list string) | PMask (mask : GrantMask).

Module Grants.
Definition getMask (g : Grants) (role : Role) : option GrantMask := map_get role (masks g).

(** [undefined] behaves as [0] under [|] and [&]. *)
Definition mask_of (g : Grants) (role : Role) : GrantMask := default 0 (getMask g role).

Definition _normalizePermissionsInput (p : PermInput) : GrantMask :=
  match p with PNames l => parseIntoGrantMask l | PMask m => m end.

(** The roles the inheritance loop visits, in order. *)
Definition inheritance_order : list Role := [0; 1; 2; 3; 4].

Definition _processInheritance (g : Grants) : Grants :=
  (fold_left (fun (acc : GrantMask * Grants) i =>
     let fullmask := Z.lor acc.1 (mask_of acc.2 i) in
     (fullmask, MkGrants (map_set i fullmask (masks acc.2))))
    inheritance_order (0, g)).2.

Definition setRoleGrants (role : Role) (permissions : PermInput) : M Grants exn unit :=
  if isRoleValid role then
    modify (fun g =>
      _processInheritance
        (MkGrants (map_set role
           (Z.land (_normalizePermissionsInput permissions) (getValidationMask role))
           (masks g))))
  else throw (InvalidRole role).

(** [setAllGrants] on a [Map] (or on the entries array a [Map] is built from):
    zero masks are skipped. *)
Definition setAllGrants (entries : list (Role * GrantMask)) : M Grants exn unit :=
  modify (fun _ => MkGrants []) ;;;
  mapM_ (fun kv => if kv.2 =? 0 then ret tt else setRoleGrants kv.1 (PMask kv.2))
    (fold_left (fun m kv => map_set kv.1 kv.2 m) entries []).

(** [setAllGrants] on a plain object (the format [defaultPermissions] uses). *)
Definition setAllGrantsObject (entries : list (Role * GrantMask)) : M Grants exn unit :=
  modify (fun _ => MkGrants []) ;;;
  mapM_ (fun kv => setRoleGrants kv.1 (PMask kv.2)) entries.

Definition force_owner : M Grants exn unit :=
  setRoleGrants Administrator (PMask (parseIntoGrantMask ["*"])) ;;;
  setRoleGrants Owner (PMask (parseIntoGrantMask ["*"])).

(** [new Grants(entries)]. *)
Definition construct (entries : list (Role * GrantMask)) : exn + Grants :=
  match (setAllGrants entries ;;; force_owner) (MkGrants []) with
  | (inl e, _) => inl e
  | (inr _, g) => inr g
  end.

(** [defaultPermissions]: the object's integer-like keys come first in order, then
    the key "-1". *)
Definition default_entries : list (Role * GrantMask) := [
  (UnregisteredUser, parseIntoGrantMask
     ["playback"; "manage-queue.add"; "manage-queue.order"; "manage-queue.vote";
      "manage-queue.play-now"; "manage-queue.edit"; "chat"; "configure-room.set-notes";
      "configure-room.set-danmaku-source"]);
  (RegisteredUser, parseIntoGrantMask
     ["manage-queue.remove"; "configure-room.set-title"; "configure-room.set-description";
      "configure-room.set-visibility"; "configure-room.set-queue-mode";
      "configure-room.other"]);
  (TrustedUser, parseIntoGrantMask []);
  (Moderator, parseIntoGrantMask
     ["manage-users.promote-trusted-user"; "manage-users.demote-trusted-user";
      "manage-users.kick"]);
  (Administrator, parseIntoGrantMask ["*"]);
  (Owner, parseIntoGrantMask ["*"])
].

Definition defaultPermissions : Grants :=
  ((setAllGrantsObject default_entries ;;; force_owner) (MkGrants [])).2.

(** Checks that a role holds a permission, by name. *)
Definition granted (g : Grants) (role : Role) (permission : string) : bool :=
  let checkmask := parseIntoGrantMask [permission] in
  Z.land (mask_of g role) checkmask =? checkmask.

Definition check (g : Grants) (role : Role) (permission : string) : exn + unit :=
  if granted g role permission then inr tt else inl (PermissionDenied permission).

Definition deleteRole (role : Role) (g : Grants) : Grants :=
  MkGrants (map_delete role (masks g)).

Definition getRoles (g : Grants) : list Role := (masks g).*1.

Definition filterRoles (roles : list Role) (g : Grants) : Grants :=
  fold_left (fun g' role => if decide (role ∈ roles) then g' else deleteRole role g')
    (getRoles g) g.

Definition isEmpty (g : Grants) : bool := bool_decide (masks g = []).

Definition toJSON (g : Grants) : list (Role * GrantMask) := masks g.

(** [deserialize], past [JSON.parse]: the entries replace the masks. *)
Definition deserialize (entries : list (Role * GrantMask)) : M Grants exn unit :=
  setAllGrants entries ;;; setRoleGrants Owner (PMask (parseIntoGrantMask ["*"])).
End Grants.

(** ** Default permissions added after a room was saved *)

Definition ROOM_PERMISSIONS_REVISION : Z := 1.

Definition PERMISSION_ADDITIONS (revision : Z) : list string :=
  if revision =? 1 then ["configure-room.set-danmaku-source"] else [].

(** The loop counter runs from [fromRevision + 1]; [fuel] bounds the rounds. *)
Fixpoint apply_additions_from (fuel : nat) (revision : Z) : M Grants exn unit :=
  match fuel with
  | O => ret tt
  | S fuel' =>
      if revision <=? ROOM_PERMISSIONS_REVISION then
        (match PERMISSION_ADDITIONS revision with
         | [] => ret tt
         | added =>
             g <- get ;;
             Grants.setRoleGrants UnregisteredUser
               (PMask (Z.lor (Grants.mask_of g UnregisteredUser) (parseIntoGrantMask added)))
         end) ;;;
        apply_additions_from fuel' (revision + 1)
      else ret tt
  end.

Definition applyPermissionAdditions (fromRevision : Z) : M Grants exn unit :=
  apply_additions_from (Z.to_nat (ROOM_PERMISSIONS_REVISION - fromRevision)) (fromRevision + 1).

(** ** Helpers over roles *)

Definition canKickUser (yourRole targetRole : Role) : bool :=
  (yourRole =? Owner) || ((targetRole <? yourRole) && negb (targetRole =? Owner)).

(** [Math.ceil(users * 0.5)]. *)
Definition voteSkipThreshold (users : nat) : nat := Nat.div2 (S users).

Definition countEligibleVoters (users : list RoomUserInfo) (g : Grants) : nat :=
  fold_left (fun count u =>
    if Grants.granted g (ui_role u) "playback.skip" then S count else count) users 0%nat.

(** ** Masks as sets of bits *)

Definition ALL_PERMISSIONS : GrantMask := parseIntoGrantMask ["*"].

Definition mask_le (a b : Z) : Prop := forall n, Z.testbit a n = true -> Z.testbit b n = true.

#[global] Opaque ALL_PERMISSIONS getValidationMask parseIntoGrantMask.

Lemma mask_le_land a b : Z.land a b = a <-> mask_le a b.
Proof.
  unfold mask_le. split.
  - intros <- n. rewrite Z.land_spec, andb_true_iff. tauto.
  - intros H. apply Z.bits_inj'. intros n _. rewrite Z.land_spec.
    specialize (H n). destruct (Z.testbit a n); [by rewrite H|done].
Qed.

#[export] Instance mask_le_preorder : PreOrder mask_le.
Proof. split; [by intros a n|]. intros a b c Hab Hbc n Hn. by apply Hbc, Hab. Qed.

Lemma mask_le_lor_l a b : mask_le a (Z.lor a b).
Proof. intros n Hn. by rewrite Z.lor_spec, Hn. Qed.

Lemma granted_iff g role p :
  Grants.granted g role p = true <-> mask_le (parseIntoGrantMask [p]) (Grants.mask_of g role).
Proof.
  unfold Grants.granted. rewrite Z.eqb_eq, Z.land_comm. apply mask_le_land.
Qed.

(** The masks of the roles the loops visit. *)
Lemma role_cases r : 0 <= r <= 4 -> r = 0 \/ r = 1 \/ r = 2 \/ r = 3 \/ r = 4.
Proof. lia. Qed.

(** ** What the inheritance loop computes *)

Section Inheritance.
Implicit Types (g : Grants) (r i : Role).

Definition union_upto g r : Z :=
  fold_left Z.lor (map (Grants.mask_of g) (List.filter (fun i => i <=? r) Grants.inheritance_order)) 0.

Lemma mask_of_set g r m i :
  Grants.mask_of (MkGrants (map_set r m (masks g))) i = if decide (i = r) then m else Grants.mask_of g i.
Proof. unfold Grants.mask_of, Grants.getMask; simpl. rewrite map_get_set. by case_decide. Qed.

Ltac set_masks :=
  repeat (rewrite mask_of_set;
          first [rewrite decide_True by done | rewrite decide_False by done]).

Lemma mask_of_inherited g r :
  0 <= r <= 4 -> Grants.mask_of (Grants._processInheritance g) r = union_upto g r.
Proof.
  intros Hr. unfold Grants._processInheritance, Grants.inheritance_order.
  cbn [fold_left fst snd]. set_masks.
  destruct (role_cases r Hr) as [->|[->|[->|[->| ->]]]]; set_masks; reflexivity.
Qed.

Lemma mask_of_inherited_other g r :
  ~ (0 <= r <= 4) -> Grants.mask_of (Grants._processInheritance g) r = Grants.mask_of g r.
Proof.
  intros Hr. unfold Grants._processInheritance, Grants.inheritance_order.
  cbn [fold_left fst snd]. rewrite !mask_of_set. by repeat (rewrite decide_False by lia).
Qed.

Lemma testbit_union_upto g r n :
  Z.testbit (union_upto g r) n = true <->
  exists k, 0 <= k <= 4 /\ k <= r /\ Z.testbit (Grants.mask_of g k) n = true.
Proof.
  unfold union_upto. rewrite testbit_fold_lor, Z.bits_0. setoid_rewrite list_elem_of_fmap.
  setoid_rewrite list_elem_of_In. setoid_rewrite filter_In. setoid_rewrite Z.leb_le.
  split.
  - intros [?|(m & (k & -> & Hin & Hk) & Hb)]; [done|].
    exists k. split; [|done]. simpl in Hin. lia.
  - intros (k & Hk & Hkr & Hb). right. exists (Grants.mask_of g k). split; [|done].
    exists k. split; [done|]. split; [|done]. simpl. lia.
Qed.
End Inheritance.

(** ** The abstract specification of a grants table

    [entry_bit kv r n]: the entry [kv] gives bit [n] to role [r], either directly or
    by inheritance from a lower role, and only as far as the validation mask of the
    role it was written for allows. *)

Definition entry_bit (kv : Role * GrantMask) (r : Role) (n : Z) : Prop :=
  0 <= kv.1 <= r /\ Z.testbit kv.2 n = true /\ Z.testbit (getValidationMask kv.1) n = true.

Definition table_spec (entries : list (Role * GrantMask)) (g : Grants) : Prop :=
  forall r n, 0 <= r <= 4 ->
    Z.testbit (Grants.mask_of g r) n = true <-> exists kv, kv ∈ entries /\ entry_bit kv r n.

(** Where the loop writes a role that was not written before, its inherited bits are
    restored by the pass that follows. *)
Definition set_and_inherit (role : Role) (m : GrantMask) (g : Grants) : Grants :=
  Grants._processInheritance
    (MkGrants (map_set role (Z.land m (getValidationMask role)) (masks g))).

Lemma setRoleGrants_valid role p g :
  isRoleValid role = true ->
  Grants.setRoleGrants role p g =
    (inr tt, set_and_inherit role (Grants._normalizePermissionsInput p) g).
Proof. intros H. unfold Grants.setRoleGrants. by rewrite H. Qed.

Lemma setRoleGrants_invalid role p g :
  isRoleValid role = false -> Grants.setRoleGrants role p g = (inl (InvalidRole role), g).
Proof. intros H. unfold Grants.setRoleGrants. by rewrite H. Qed.

Lemma isRoleValid_iff r : isRoleValid r = true <-> -1 <= r <= 4.
Proof. unfold isRoleValid. rewrite andb_true_iff, !Z.leb_le. lia. Qed.

Lemma testbit_set_and_inherit role m g r n :
  0 <= r <= 4 ->
  Z.testbit (Grants.mask_of (set_and_inherit role m g) r) n = true <->
  (exists k, 0 <= k <= r /\ k <> role /\ Z.testbit (Grants.mask_of g k) n = true) \/
  entry_bit (role, m) r n.
Proof.
  intros Hr. unfold set_and_inherit, entry_bit. rewrite mask_of_inherited by done.
  rewrite testbit_union_upto. setoid_rewrite mask_of_set. simpl. split.
  - intros (k & Hk & Hkr & Hb). case_decide.
    + subst. rewrite Z.land_spec, andb_true_iff in Hb. right. split; [lia|tauto].
    + left. exists k. split; [lia|done].
  - intros [(k & Hk & Hne & Hb)|(Hk & Hb)].
    + exists k. split; [lia|]. split; [lia|]. by rewrite decide_False.
    + exists role. split; [lia|]. split; [lia|]. rewrite decide_True by done.
      rewrite Z.land_spec, andb_true_iff. done.
Qed.

Lemma table_spec_step entries g role m :
  role ∉ entries.*1 -> table_spec entries g ->
  table_spec (entries ++ [(role, m)]) (set_and_inherit role m g).
Proof.
  intros Hnew Hspec r n Hr. rewrite testbit_set_and_inherit by done.
  setoid_rewrite elem_of_app. setoid_rewrite list_elem_of_singleton. split.
  - intros [(k & Hk & Hne & Hb)|He]; [|by exists (role, m); auto].
    apply Hspec in Hb as (kv & Hin & Hkv & Hb); [|lia].
    exists kv. split; [by left|]. split; [lia|done].
  - intros (kv & [Hin| ->] & Hkv & Hb); [|by right].
    left. exists kv.1. split; [done|]. split.
    + intros <-. apply Hnew. apply list_elem_of_fmap. by exists kv.
    + apply Hspec; [lia|]. exists kv. split; [done|]. split; [lia|done].
Qed.

(** ** [new Grants(entries)] meets the specification *)

Definition dedup (entries : list (Role * GrantMask)) : list (Role * GrantMask) :=
  fold_left (fun m kv => map_set kv.1 kv.2 m) entries [].

Lemma map_set_keys {V} (k : Z) (v : V) (m : list (Z * V)) :
  (map_set k v m).*1 = if decide (k ∈ m.*1) then m.*1 else m.*1 ++ [k].
Proof.
  induction m as [|[k0 v0] m IH]; cbn [map_set fmap list_fmap fst].
  - by rewrite decide_False by apply not_elem_of_nil.
  - destruct (decide (k = k0)) as [->|Hne]; cbn [fmap list_fmap fst].
    + by rewrite decide_True by apply elem_of_cons, or_introl, eq_refl.
    + rewrite IH. destruct (decide (k ∈ m.*1)).
      * by rewrite decide_True by by apply elem_of_cons; right.
      * rewrite decide_False; [done|]. rewrite elem_of_cons. tauto.
Qed.

Lemma map_set_NoDup {V} (k : Z) (v : V) (m : list (Z * V)) :
  NoDup m.*1 -> NoDup (map_set k v m).*1.
Proof.
  intros Hm. rewrite map_set_keys. case_decide; [done|].
  apply NoDup_app. split; [done|]. split; [set_solver|]. apply NoDup_singleton.
Qed.

Lemma dedup_NoDup entries : NoDup (dedup entries).*1.
Proof.
  unfold dedup. assert (H : NoDup ([] : list (Role * GrantMask)).*1) by constructor.
  revert H. generalize ([] : list (Role * GrantMask)).
  induction entries as [|kv entries IH]; intros acc Hacc; simpl; [done|].
  by apply IH, map_set_NoDup.
Qed.

(** Entries a [Map]-based load keeps: those with a non-zero mask. *)
Definition nonzero (entries : list (Role * GrantMask)) : list (Role * GrantMask) :=
  List.filter (fun kv => negb (kv.2 =? 0)) entries.

Definition roles_valid (entries : list (Role * GrantMask)) : Prop :=
  forall kv, kv ∈ nonzero entries -> isRoleValid kv.1 = true.

Lemma nonzero_keys entries k : k ∉ entries.*1 -> k ∉ (nonzero entries).*1.
Proof.
  intros Hk Hin. apply Hk. apply list_elem_of_fmap in Hin as (kv & -> & Hin).
  apply list_elem_of_fmap. exists kv. split; [done|].
  apply list_elem_of_In, filter_In in Hin as [? _]. by apply list_elem_of_In.
Qed.

Lemma set_entries_spec entries : forall prefix g,
  NoDup (prefix ++ entries).*1 -> roles_valid entries -> table_spec (nonzero prefix) g ->
  exists g', mapM_ (fun kv => if kv.2 =? 0 then ret tt
                              else Grants.setRoleGrants kv.1 (PMask kv.2)) entries g
             = (inr tt, g') /\ table_spec (nonzero (prefix ++ entries)) g'.
Proof.
  induction entries as [|[r m] entries IH]; intros prefix g Hnd Hval Hspec; simpl.
  { exists g. by rewrite app_nil_r. }
  assert (Hr : r ∉ prefix.*1).
  { rewrite fmap_app in Hnd. apply NoDup_app in Hnd as (_ & Hnd & _). intros Hin.
    apply (Hnd _ Hin). simpl. by left. }
  rewrite cons_middle, app_assoc in Hnd |- *.
  unfold bind. destruct (m =? 0) eqn:Hm.
  - simpl. apply IH; [done| |].
    + intros kv Hkv. apply Hval. unfold nonzero. simpl. by rewrite Hm.
    + unfold nonzero in *. rewrite List.filter_app. simpl. rewrite Hm. simpl.
      by rewrite app_nil_r.
  - rewrite setRoleGrants_valid; simpl.
    + apply IH; [done| |].
      * intros kv Hkv. apply Hval. unfold nonzero. simpl. rewrite Hm. simpl. by right.
      * unfold nonzero. rewrite List.filter_app. simpl. rewrite Hm. simpl.
        apply table_spec_step; [by apply nonzero_keys|done].
    + apply (Hval (r, m)). unfold nonzero. simpl. rewrite Hm. by left.
Qed.

Lemma setAllGrants_spec entries g0 :
  roles_valid (dedup entries) ->
  exists g, Grants.setAllGrants entries g0 = (inr tt, g) /\ table_spec (nonzero (dedup entries)) g.
Proof.
  intros Hv. unfold Grants.setAllGrants, bind, modify. simpl.
  apply (set_entries_spec (dedup entries) []); [by apply dedup_NoDup|done|].
  intros r n Hr. split; [|intros (kv & Hin & _); set_solver].
  unfold Grants.mask_of, Grants.getMask. simpl. by rewrite Z.bits_0.
Qed.

Lemma set_entries_invalid entries : forall g,
  ~ roles_valid entries ->
  exists r g', isRoleValid r = false /\
    mapM_ (fun kv => if kv.2 =? 0 then ret tt else Grants.setRoleGrants kv.1 (PMask kv.2)) entries g
    = (inl (InvalidRole r), g').
Proof.
  induction entries as [|[r m] entries IH]; intros g Hbad; simpl.
  { exfalso. apply Hbad. intros kv Hkv. by apply elem_of_nil in Hkv. }
  unfold bind. destruct (m =? 0) eqn:Hm.
  - simpl. apply IH. intros Hv. apply Hbad. unfold roles_valid, nonzero. simpl. by rewrite Hm.
  - destruct (isRoleValid r) eqn:Hr.
    + rewrite setRoleGrants_valid by done. simpl. apply IH. intros Hv. apply Hbad.
      unfold roles_valid, nonzero. simpl. rewrite Hm. simpl.
      intros kv [-> |Hkv]%elem_of_cons; [done|by apply Hv].
    + rewrite setRoleGrants_invalid by done. eauto.
Qed.

Lemma table_spec_mono entries g k r n :
  table_spec entries g -> 0 <= k <= r -> r <= 4 ->
  Z.testbit (Grants.mask_of g k) n = true -> Z.testbit (Grants.mask_of g r) n = true.
Proof.
  intros Hs Hk Hr Hb. apply Hs; [lia|]. apply Hs in Hb as (kv & Hin & Hkv & Hb); [|lia].
  exists kv. split; [done|]. split; [lia|done].
Qed.

Lemma validation_le_ALL r : 0 <= r <= 4 -> mask_le (getValidationMask r) ALL_PERMISSIONS.
Proof.
  intros Hr. apply mask_le_land.
  destruct (role_cases r Hr) as [->|[->|[->|[->| ->]]]]; vm_compute; reflexivity.
Qed.

(** The table a room works with: the roles below administrator are as specified, and
    administrator and owner hold everything. *)
Definition grants_spec (entries : list (Role * GrantMask)) (g : Grants) : Prop :=
  (forall r n, 0 <= r <= 3 ->
     Z.testbit (Grants.mask_of g r) n = true <-> exists kv, kv ∈ entries /\ entry_bit kv r n) /\
  Grants.mask_of g Administrator = ALL_PERMISSIONS /\
  Grants.mask_of g Owner = ALL_PERMISSIONS.

Lemma force_owner_spec entries g :
  table_spec entries g ->
  exists g', Grants.force_owner g = (inr tt, g') /\ grants_spec entries g'.
Proof.
  intros Hs. set (g1 := set_and_inherit Administrator ALL_PERMISSIONS g).
  exists (set_and_inherit Owner ALL_PERMISSIONS g1). split.
  { unfold Grants.force_owner, bind.
    rewrite (setRoleGrants_valid Administrator) by reflexivity.
    rewrite (setRoleGrants_valid Owner) by reflexivity. reflexivity. }
  assert (H1 : forall r n, 0 <= r <= 3 ->
            Z.testbit (Grants.mask_of g1 r) n = true <-> Z.testbit (Grants.mask_of g r) n = true).
  { intros r n Hr. unfold g1. rewrite testbit_set_and_inherit by lia. split.
    - intros [(k & Hk & _ & Hb)|(Hk & _)]; [|simpl in Hk; unfold Administrator in Hk; lia].
      eapply table_spec_mono; [done| |lia|exact Hb]; lia.
    - intros Hb. left. exists r. split; [lia|]. unfold Administrator. split; [lia|done]. }
  assert (H2 : forall r n, 0 <= r <= 4 ->
            Z.testbit (Grants.mask_of (set_and_inherit Owner ALL_PERMISSIONS g1) r) n = true <->
            exists k, 0 <= k <= r /\ Z.testbit (Grants.mask_of g1 k) n = true).
  { intros r n Hr. rewrite testbit_set_and_inherit by lia. unfold entry_bit, Owner. simpl.
    split; [intros [(k & ? & _ & ?)|(? & _)]; [eauto|lia]|intros (k & ? & ?)].
    left. exists k. split; [lia|]. split; [lia|done]. }
  assert (H4 : forall n, Z.testbit (Grants.mask_of g1 4) n = true <-> Z.testbit ALL_PERMISSIONS n = true).
  { intros n. unfold g1. rewrite testbit_set_and_inherit by lia. unfold entry_bit, Administrator. simpl.
    split.
    - intros [(k & Hk & _ & Hb)|(_ & Hb & _)]; [|done].
      apply Hs in Hb as (kv & _ & Hkv & _ & Hb); [|lia].
      exact (validation_le_ALL kv.1 ltac:(lia) n Hb).
    - intros Hb. right. split; [lia|]. split; exact Hb. }
  split; [|split].
  - intros r n Hr. rewrite H2 by lia. rewrite <- (Hs r n ltac:(lia)). split.
    + intros (k & Hk & Hb). rewrite H1 in Hb by lia.
      eapply table_spec_mono; [done| |lia|exact Hb]; lia.
    + intros Hb. exists r. split; [lia|]. by apply H1.
  - apply Z.bits_inj'. intros n _. apply eq_true_iff_eq. rewrite H2 by (unfold Administrator; lia).
    split.
    + intros (k & Hk & Hb). unfold Administrator in Hk. destruct (decide (k = 4)) as [->|].
      * by apply H4.
      * rewrite H1 in Hb by lia. apply Hs in Hb as (kv & _ & Hkv & _ & Hb); [|lia].
        exact (validation_le_ALL kv.1 ltac:(lia) n Hb).
    + intros Hb. exists 4. split; [unfold Administrator; lia|]. by apply H4.
  - unfold set_and_inherit. rewrite mask_of_inherited_other by (unfold Owner; lia).
    rewrite mask_of_set, decide_True by done. reflexivity.
Qed.

Lemma construct_ok entries :
  roles_valid (dedup entries) ->
  exists g, Grants.construct entries = inr g /\ grants_spec (nonzero (dedup entries)) g.
Proof.
  intros Hv. destruct (setAllGrants_spec entries (MkGrants []) Hv) as (g & Hg & Hs).
  destruct (force_owner_spec _ g Hs) as (g' & Hg' & Hs').
  exists g'. split; [|done]. unfold Grants.construct, bind. by rewrite Hg, Hg'.
Qed.

Lemma construct_valid entries g : Grants.construct entries = inr g -> roles_valid (dedup entries).
Proof.
  intros Hc kv Hkv.
  destruct (isRoleValid kv.1) eqn:Hr; [done|exfalso].
  destruct (set_entries_invalid (dedup entries) (MkGrants [])) as (r & g' & _ & Hm).
  { intros Hv. apply Hv in Hkv. congruence. }
  unfold Grants.construct, Grants.setAllGrants, bind, modify in Hc. simpl in Hc.
  unfold dedup in Hm. by rewrite Hm in Hc.
Qed.

(** Any table the constructor returned: the hierarchy and the bounds, in one record. *)
Record grants_ok (g : Grants) : Prop := {
  ok_mono : forall r1 r2, 0 <= r1 <= r2 -> r2 <= 4 -> mask_le (Grants.mask_of g r1) (Grants.mask_of g r2);
  ok_valid : forall r, 0 <= r <= 4 -> mask_le (Grants.mask_of g r) (getValidationMask r);
  ok_admin : Grants.mask_of g Administrator = ALL_PERMISSIONS;
  ok_owner : Grants.mask_of g Owner = ALL_PERMISSIONS;
}.

Lemma validation_mono r1 r2 :
  0 <= r1 <= r2 -> r2 <= 4 -> mask_le (getValidationMask r1) (getValidationMask r2).
Proof.
  intros H1 H2. apply mask_le_land.
  destruct (role_cases r1 ltac:(lia)) as [->|[->|[->|[->| ->]]]];
    destruct (role_cases r2 ltac:(lia)) as [->|[->|[->|[->| ->]]]]; try lia; vm_compute; reflexivity.
Qed.

Lemma grants_spec_ok entries g : grants_spec entries g -> grants_ok g.
Proof.
  intros (Hs & Ha & Ho).
  assert (Hv : forall r, 0 <= r <= 4 -> mask_le (Grants.mask_of g r) (getValidationMask r)).
  { intros r Hr n Hb. destruct (decide (r = 4)) as [->|].
    - unfold Administrator in Ha. rewrite Ha in Hb. exact Hb.
    - apply Hs in Hb as (kv & _ & Hk & _ & Hb); [|lia].
      exact (validation_mono kv.1 r ltac:(lia) ltac:(lia) n Hb). }
  split; [|done..].
  intros r1 r2 Hr1 Hr2 n Hb. destruct (decide (r2 = 4)) as [->|].
  - unfold Administrator in Ha. rewrite Ha. apply (validation_le_ALL r1 ltac:(lia)).
    exact (Hv r1 ltac:(lia) n Hb).
  - apply Hs; [lia|]. apply Hs in Hb as (kv & Hin & Hk & Hb); [|lia].
    exists kv. split; [done|]. split; [lia|done].
Qed.

Lemma construct_grants_ok entries g : Grants.construct entries = inr g -> grants_ok g.
Proof.
  intros Hc. destruct (construct_ok entries (construct_valid _ _ Hc)) as (g' & Hc' & Hs).
  rewrite Hc in Hc'. injection Hc' as <-. by eapply grants_spec_ok.
Qed.

(** ** The stored form *)

Definition keys_ok (g : Grants) : Prop :=
  NoDup (masks g).*1 /\ forall k, k ∈ (masks g).*1 -> isRoleValid k = true.

Lemma keys_ok_set r m g :
  isRoleValid r = true -> keys_ok g -> keys_ok (MkGrants (map_set r m (masks g))).
Proof.
  intros Hr [Hnd Hk]. split; simpl; [by apply map_set_NoDup|].
  intros k. rewrite map_set_keys. case_decide; [by apply Hk|].
  rewrite elem_of_app, list_elem_of_singleton. intros [?| ->]; [by apply Hk|done].
Qed.

Lemma keys_ok_set_and_inherit r m g :
  isRoleValid r = true -> keys_ok g -> keys_ok (set_and_inherit r m g).
Proof.
  intros Hr Hg. unfold set_and_inherit, Grants._processInheritance, Grants.inheritance_order.
  cbn [fold_left fst snd]. by repeat apply keys_ok_set.
Qed.

Lemma keys_ok_setRoleGrants r p : keeps keys_ok (Grants.setRoleGrants r p).
Proof.
  intros g Hg. destruct (isRoleValid r) eqn:Hr.
  - rewrite setRoleGrants_valid by done. by apply keys_ok_set_and_inherit.
  - by rewrite setRoleGrants_invalid.
Qed.
#[export] Hint Resolve keys_ok_setRoleGrants : keeps.

Lemma construct_keys_ok entries g : Grants.construct entries = inr g -> keys_ok g.
Proof.
  assert (Hk : keeps keys_ok (Grants.setAllGrants entries ;;; Grants.force_owner)).
  { unfold Grants.setAllGrants, Grants.force_owner. keeps_tac. by split; [constructor|]; intros ? ?%elem_of_nil. }
  intros Hc. unfold Grants.construct in Hc.
  specialize (Hk (MkGrants [])).
  destruct ((Grants.setAllGrants entries ;;; Grants.force_owner) (MkGrants [])) as [[e|[]] g']; [done|].
  injection Hc as <-. apply Hk. split; [constructor|]. by intros ? ?%elem_of_nil.
Qed.

Lemma map_set_fresh {V} (k : Z) (v : V) m : k ∉ m.*1 -> map_set k v m = m ++ [(k, v)].
Proof.
  induction m as [|[k0 v0] m IH]; simpl; [done|]. rewrite not_elem_of_cons. intros [Hne Hk].
  rewrite decide_False by done. by rewrite IH.
Qed.

Lemma dedup_NoDup_id entries : NoDup entries.*1 -> dedup entries = entries.
Proof.
  unfold dedup. change entries with ([] ++ entries) at 1 3. generalize ([] : list (Role * GrantMask)).
  induction entries as [|[k v] entries IH]; intros acc Hnd; simpl; [by rewrite app_nil_r|].
  change (acc ++ (k, v) :: entries) with (acc ++ [(k, v)] ++ entries) in *.
  rewrite map_set_fresh.
  - rewrite (app_assoc acc [(k, v)] entries) in Hnd. rewrite IH by done. by rewrite <- app_assoc.
  - rewrite fmap_app in Hnd. apply NoDup_app in Hnd as (_ & Hnd & _).
    intros Hin. apply (Hnd _ Hin). by left.
Qed.

Lemma map_get_NoDup {V} (k : Z) (v : V) m : NoDup m.*1 -> (k, v) ∈ m -> map_get k m = Some v.
Proof.
  induction m as [|[k0 v0] m IH]; simpl; [by intros _ ?%elem_of_nil|].
  intros [Hk Hnd]%NoDup_cons [[= -> ->]|Hin]%elem_of_cons; [by rewrite decide_True|].
  rewrite decide_False; [by apply IH|]. intros ->. apply Hk, list_elem_of_fmap. by exists (k0, v).
Qed.

Lemma mask_of_invalid g r : keys_ok g -> isRoleValid r = false -> Grants.mask_of g r = 0.
Proof.
  intros [_ Hk] Hr. unfold Grants.mask_of, Grants.getMask.
  destruct (map_get r (masks g)) as [m|] eqn:Hg; [|done]. apply map_get_In in Hg.
  assert (isRoleValid r = true) by (apply Hk, list_elem_of_fmap; by exists (r, m)). congruence.
Qed.

Lemma stored_bits g r n :
  grants_ok g -> keys_ok g -> 0 <= r <= 4 ->
  (exists kv, kv ∈ nonzero (masks g) /\ entry_bit kv r n) <->
  Z.testbit (Grants.mask_of g r) n = true.
Proof.
  intros Hok [Hnd Hkeys] Hr. split.
  - intros ([k m] & Hin & Hk & Hm & _). simpl in *.
    unfold nonzero in Hin. apply list_elem_of_In, filter_In in Hin as [Hin _]. apply list_elem_of_In in Hin.
    apply (ok_mono g Hok k r); [lia|lia|].
    assert (Hget : Grants.getMask g k = Some m) by exact (map_get_NoDup _ _ _ Hnd Hin).
    unfold Grants.mask_of. by rewrite Hget.
  - intros Hb. exists (r, Grants.mask_of g r).
    unfold entry_bit. simpl. split; [|split; [lia|split; [done|by apply (ok_valid g Hok r Hr)]]].
    apply list_elem_of_In, filter_In. unfold Grants.mask_of, Grants.getMask in *. simpl.
    destruct (map_get r (masks g)) as [m|] eqn:Hg; simpl in *; [|by destruct n].
    split; [by apply list_elem_of_In, map_get_In|].
    apply negb_true_iff, Z.eqb_neq. intros ->. by destruct n.
Qed.

(** A word selects a subset of the permissions "*" selects. *)
Lemma parse_step_le (sel : string -> bool) l : forall a b,
  mask_le a b ->
  mask_le (fold_left (fun mask (kv : string * GrantMask) => if sel kv.1 then Z.lor mask kv.2 else mask) l a)
          (fold_left (fun mask (kv : string * GrantMask) => Z.lor mask kv.2) l b).
Proof.
  induction l as [|kv l IH]; intros a b Hab; simpl; [done|]. apply IH.
  destruct (sel kv.1); intros n; rewrite ?Z.lor_spec, ?orb_true_iff; [|by left; apply Hab].
  intros [?|?]; [by left; apply Hab|by right].
Qed.

#[local] Transparent ALL_PERMISSIONS parseIntoGrantMask.
Lemma parse_le_ALL p : mask_le (parseIntoGrantMask [p]) ALL_PERMISSIONS.
Proof.
  etransitivity; [apply (parse_step_le (fun k => String.prefix p k || bool_decide (p = "*")) permMaskMap 0 0); done|].
  apply mask_le_land. vm_compute. reflexivity.
Qed.
#[global] Opaque ALL_PERMISSIONS parseIntoGrantMask.

(** Every name in [PERMISSIONS] stands for its own bit and no other. *)
Lemma permission_names_exact :
  Forall (fun p => parseIntoGrantMask [perm_name p] = perm_mask p) PERMISSIONS.
Proof. repeat constructor; vm_compute; reflexivity. Qed.

Definition minRole_respected : bool :=
  forallb (fun p => forallb (fun r =>
    implb (Z.land (perm_mask p) (getValidationMask r) =? perm_mask p) (minRole p <=? r))
    Grants.inheritance_order) PERMISSIONS.

Lemma minRole_respected_true : minRole_respected = true.
Proof. vm_compute. reflexivity. Qed.

Lemma perm_mask_pos : Forall (fun p => 0 < perm_mask p) PERMISSIONS.
Proof. repeat constructor. Qed.

(** ** Theorems *)

(** C5: [new Grants(entries)] refines the abstract table: when the written roles are valid it
    returns a table in which each role below administrator holds exactly the validated bits
    written for it or for a lower role, and administrator and owner hold every permission. *)
Theorem construct_meets_spec entries :
  roles_valid (dedup entries) ->
  exists g, Grants.construct entries = inr g /\ grants_spec (nonzero (dedup entries)) g.
Proof. apply construct_ok. Qed.

Definition sample_entries : list (Role * GrantMask) := [(3, 2 ^ 24); (0, 7); (1, 16); (4, 0)].

Lemma construct_meets_spec_witness :
  exists g, Grants.construct sample_entries = inr g /\
            grants_spec (nonzero (dedup sample_entries)) g.
Proof.
  apply construct_meets_spec. intros kv Hkv.
  repeat (apply elem_of_cons in Hkv as [->|Hkv]; [reflexivity|]). by apply elem_of_nil in Hkv.
Defined.

(** The constructor fails exactly on an entry for a role that does not exist (a zero mask
    is skipped, so it never fails), and then with [InvalidRoleException]. *)
Theorem construct_fails_iff entries :
  (exists e, Grants.construct entries = inl e) <->
  (exists kv, kv ∈ nonzero (dedup entries) /\ isRoleValid kv.1 = false).
Proof.
  split.
  - intros [e He]. destruct (decide (Forall (fun kv => isRoleValid kv.1 = true) (nonzero (dedup entries)))) as [Hv|Hv].
    + destruct (construct_ok entries) as (g & Hg & _); [|congruence].
      intros kv Hin. rewrite Forall_forall in Hv. by apply Hv.
    + apply not_Forall_Exists in Hv; [|apply _]. apply Exists_exists in Hv as (kv & Hin & Hbad).
      exists kv. split; [done|]. by apply not_true_iff_false.
  - intros (kv & Hin & Hbad). destruct (Grants.construct entries) as [e|g] eqn:Hc; [eauto|].
    apply construct_valid in Hc. apply Hc in Hin. congruence.
Qed.

(** The role hierarchy: in any table the constructor returns, a permission granted to a
    role is granted to every higher role, and administrator and owner are granted every
    permission. *)
Theorem granted_hierarchy entries g p :
  Grants.construct entries = inr g ->
  (forall r1 r2, 0 <= r1 <= r2 -> r2 <= 4 ->
     Grants.granted g r1 p = true -> Grants.granted g r2 p = true) /\
  Grants.granted g Administrator p = true /\ Grants.granted g Owner p = true.
Proof.
  intros Hc. pose proof (construct_grants_ok _ _ Hc) as Hok.
  assert (Hall : mask_le (parseIntoGrantMask [p]) ALL_PERMISSIONS) by apply parse_le_ALL.
  rewrite !granted_iff, (ok_admin g Hok), (ok_owner g Hok). split; [|done].
  intros r1 r2 H1 H2. rewrite !granted_iff. intros H. etransitivity; [exact H|].
  by apply (ok_mono g Hok).
Qed.

Lemma granted_hierarchy_witness :
  exists g, Grants.construct sample_entries = inr g /\
            Grants.granted g RegisteredUser "playback.seek" = true /\
            Grants.granted g Owner "manage-users.demote-admin" = true.
Proof.
  destruct (Grants.construct sample_entries) as [e|g] eqn:Hg; [by vm_compute in Hg|].
  exists g. split; [done|]. split.
  - apply (proj1 (granted_hierarchy sample_entries g "playback.seek" Hg) 0 1); [lia|lia|].
    vm_compute in Hg. injection Hg as <-. vm_compute. reflexivity.
  - apply (granted_hierarchy sample_entries g "manage-users.demote-admin" Hg).
Defined.

(** No table gives a permission to a role below its [minRole]: whatever masks are loaded,
    a granted permission implies the role is high enough (or is the owner). *)
Theorem granted_respects_minRole entries g p r :
  Grants.construct entries = inr g -> p ∈ PERMISSIONS ->
  Grants.granted g r (perm_name p) = true -> minRole p <= r \/ r = Owner.
Proof.
  intros Hc Hp Hg. pose proof (construct_grants_ok _ _ Hc) as Hok.
  pose proof permission_names_exact as Hex. rewrite Forall_forall in Hex. specialize (Hex p Hp).
  pose proof perm_mask_pos as Hpos. rewrite Forall_forall in Hpos. specialize (Hpos p Hp).
  apply granted_iff in Hg. rewrite Hex in Hg.
  destruct (decide (r = Owner)) as [|Hne]; [by right|left].
  destruct (isRoleValid r) eqn:Hr; cycle 1.
  { rewrite (mask_of_invalid g r (construct_keys_ok _ _ Hc) Hr) in Hg.
    apply mask_le_land in Hg. rewrite Z.land_0_r in Hg. lia. }
  apply isRoleValid_iff in Hr. unfold Owner in Hne.
  assert (Hv : mask_le (perm_mask p) (getValidationMask r)).
  { etransitivity; [exact Hg|]. apply (ok_valid g Hok). lia. }
  pose proof minRole_respected_true as Ht. unfold minRole_respected in Ht.
  rewrite forallb_forall in Ht. apply list_elem_of_In in Hp. specialize (Ht p Hp).
  rewrite forallb_forall in Ht. specialize (Ht r).
  apply mask_le_land, Z.eqb_eq in Hv. rewrite Hv in Ht. apply Z.leb_le, Ht. simpl. lia.
Qed.

Lemma granted_respects_minRole_witness :
  minRole (MkPermission "manage-users.kick" (Z.shiftl 1 24) TrustedUser) <= 3 \/ 3 = Owner.
Proof.
  destruct (Grants.construct sample_entries) as [e|g] eqn:Hg; [by vm_compute in Hg|].
  apply (granted_respects_minRole sample_entries g); [done| |].
  - apply list_elem_of_In. vm_compute. tauto.
  - vm_compute in Hg. injection Hg as <-. vm_compute. reflexivity.
Defined.

(** Storing and reloading a table ([toJSON], then [new Grants(entries)]) gives every role
    the mask it had. *)
Theorem grants_roundtrip entries g :
  Grants.construct entries = inr g ->
  exists g', Grants.construct (Grants.toJSON g) = inr g' /\
             forall r, Grants.mask_of g' r = Grants.mask_of g r.
Proof.
  intros Hc. pose proof (construct_grants_ok _ _ Hc) as Hok.
  pose proof (construct_keys_ok _ _ Hc) as Hkeys. unfold Grants.toJSON.
  assert (Hdd : dedup (masks g) = masks g) by apply dedup_NoDup_id, Hkeys.
  destruct (construct_ok (masks g)) as (g' & Hg' & Hs).
  { rewrite Hdd. intros kv Hin. apply Hkeys, list_elem_of_fmap. exists kv. split; [done|].
    unfold nonzero in Hin. apply list_elem_of_In, filter_In in Hin as [Hin _]. by apply list_elem_of_In. }
  exists g'. split; [done|]. rewrite Hdd in Hs. destruct Hs as (Hs & Ha & Ho). intros r.
  destruct (isRoleValid r) eqn:Hr.
  - apply isRoleValid_iff in Hr.
    destruct (decide (r = -1)) as [->|]; [etransitivity; [exact Ho|symmetry; exact (ok_owner g Hok)]|].
    destruct (decide (r = 4)) as [->|]; [etransitivity; [exact Ha|symmetry; exact (ok_admin g Hok)]|].
    apply Z.bits_inj'. intros b _. apply eq_true_iff_eq. etransitivity; [exact (Hs r b ltac:(lia))|].
    apply stored_bits; [done..|lia].
  - rewrite !mask_of_invalid; [done|done|done|by eapply construct_keys_ok|done].
Qed.

Lemma grants_roundtrip_witness :
  exists g g', Grants.construct sample_entries = inr g /\
               Grants.construct (Grants.toJSON g) = inr g' /\
               Grants.mask_of g' Moderator = Grants.mask_of g Moderator.
Proof.
  destruct (Grants.construct sample_entries) as [e|g] eqn:Hg; [by vm_compute in Hg|].
  destruct (grants_roundtrip sample_entries g Hg) as (g' & Hg' & Hm).
  exists g, g'. split; [done|]. split; [done|apply Hm].
Defined.

Lemma applyPermissionAdditions_0 g :
  Grants.setRoleGrants UnregisteredUser
    (PMask (Z.lor (Grants.mask_of g UnregisteredUser)
                  (parseIntoGrantMask ["configure-room.set-danmaku-source"]))) g
  = applyPermissionAdditions 0 g.
Proof.
  unfold applyPermissionAdditions. change (Z.to_nat (ROOM_PERMISSIONS_REVISION - 0)) with 1%nat.
  change (0 + 1) with 1. unfold apply_additions_from. simpl. unfold bind, get.
  by destruct (Grants.setRoleGrants UnregisteredUser _ g) as [[e|[]] g'].
Qed.

Lemma danmaku_bit n : Z.testbit (parseIntoGrantMask ["configure-room.set-danmaku-source"]) n = true <-> n = 28.
Proof.
  replace (parseIntoGrantMask ["configure-room.set-danmaku-source"]) with (2 ^ 28) by (vm_compute; reflexivity).
  destruct (decide (0 <= n)); [|rewrite Z.testbit_neg_r by lia; split; [done|lia]].
  rewrite Z.pow2_bits_eqb by lia. rewrite Z.eqb_eq. lia.
Qed.

(** Loading a room saved before a default permission existed: from revision 0 every role
    gains exactly the danmaku permission and loses nothing; from the current revision nothing
    changes, so a later tightening of that permission is not undone by the next load. *)
Theorem permission_additions_exact entries g fromRevision :
  Grants.construct entries = inr g -> 0 <= fromRevision ->
  exists g', applyPermissionAdditions fromRevision g = (inr tt, g') /\
    (1 <= fromRevision -> g' = g) /\
    forall r n, 0 <= r <= 4 ->
      Z.testbit (Grants.mask_of g' r) n = true <->
      Z.testbit (Grants.mask_of g r) n = true \/ (fromRevision = 0 /\ n = 28).
Proof.
  intros Hc Hrev. pose proof (construct_grants_ok _ _ Hc) as Hok.
  destruct (decide (fromRevision = 0)) as [->|Hne].
  - rewrite <- applyPermissionAdditions_0, setRoleGrants_valid by done. simpl.
    eexists. split; [done|]. split; [lia|]. intros r n Hr.
    rewrite testbit_set_and_inherit by done. unfold entry_bit, UnregisteredUser. simpl.
    rewrite Z.lor_spec, orb_true_iff, danmaku_bit. split.
    + intros [(k & Hk & _ & Hb)|(_ & [Hb|Hn] & _)]; [| |by right].
      * left. exact (ok_mono g Hok k r ltac:(lia) ltac:(lia) n Hb).
      * left. exact (ok_mono g Hok 0 r ltac:(lia) ltac:(lia) n Hb).
    + intros [Hb|[_ ->]].
      * destruct (decide (r = 0)) as [->|]; [right|left; exists r; split_and!; [lia..|done]].
        split; [lia|]. split; [by left|]. exact (ok_valid g Hok 0 ltac:(lia) n Hb).
      * right. split; [lia|]. split; [by right|]. vm_compute. reflexivity.
  - exists g. split.
    + unfold applyPermissionAdditions, ROOM_PERMISSIONS_REVISION.
      by replace (Z.to_nat (1 - fromRevision)) with 0%nat by lia.
    + split; [done|]. intros r n _. split; [by left|]. by intros [?|[? _]].
Qed.

Lemma permission_additions_exact_witness :
  exists g g', Grants.construct sample_entries = inr g /\
    applyPermissionAdditions 0 g = (inr tt, g') /\
    Grants.granted g UnregisteredUser "configure-room.set-danmaku-source" = false /\
    Z.testbit (Grants.mask_of g' UnregisteredUser) 28 = true.
Proof.
  destruct (Grants.construct sample_entries) as [e|g] eqn:Hg; [by vm_compute in Hg|].
  destruct (permission_additions_exact sample_entries g 0 Hg) as (g' & Hg' & _ & Hb); [lia|].
  exists g, g'. split; [done|]. split; [done|]. split.
  - vm_compute in Hg. injection Hg as <-. vm_compute. reflexivity.
  - apply Hb; [unfold UnregisteredUser; lia|]. by right.
Defined.
