(* ===== verification/VideoQueue.v ===== *)
(** * VideoQueue: the room's queue

    The class [VideoQueue] of [server/videoqueue.ts] and the dirty flag it inherits
    from [server/util/dirtyable.ts].  Each operation runs under the queue's mutex, so
    it is one atomic computation here.  An absent video ([null] or [undefined], which
    [isAllVideos] rejects) is [None].  The two lodash functions the class calls are
    the interface [Lodash]; what the proofs use of them is [LodashLaws]. *)

From S2P Require Import Prelude Types.

(** ** The sorting functions of lodash *)

Class Lodash := {
  lodash_orderByDesc : (QueueItem -> nat) -> list QueueItem -> list QueueItem;
  lodash_shuffle : list QueueItem -> list QueueItem;
}.

Class LodashLaws (L : Lodash) : Prop := {
  orderByDesc_stable : forall key l, stable_desc key l (lodash_orderByDesc key l);
  shuffle_perm : forall l, lodash_shuffle l ≡ₚ l;
}.

(** A concrete instance: the stable sort of the prelude, and a shuffle that reverses. *)
Definition reference_lodash : Lodash := {|
  lodash_orderByDesc := sort_desc;
  lodash_shuffle := @rev QueueItem;
|}.

#[export] Instance reference_lodash_laws : LodashLaws reference_lodash.
Proof.
  split; simpl; [apply @sort_desc_stable|]. intros l. symmetry. apply Permutation_rev.
Qed.

(** ** State *)

Record VideoQueue := MkVideoQueue { items : list QueueItem; q_dirty : bool }.
#[global] Instance eta_VideoQueue : Eta VideoQueue := fun q => MkVideoQueue (items q) (q_dirty q).

(** The patch of [update]: an absent field is left alone, [Some v] is assigned. *)
Record QueuePatch := MkPatch {
  patch_startAt : option (option Q);
  patch_endAt : option (option num);
  patch_subtitleUrl : option (option string);
}.

Module VideoQueue.
Section Ops.
Context `{L : Lodash}.

Definition markDirty (q : VideoQueue) : VideoQueue := q <| q_dirty := true |>.
Definition clean (q : VideoQueue) : VideoQueue := q <| q_dirty := false |>.

Definition make (l : list (option QueueItem)) : VideoQueue := MkVideoQueue (omap (fun v => v) l) false.

(** [isAllVideos], giving the videos when there is no absent one. *)
Definition all_videos (videos : list (option QueueItem)) : option (list QueueItem) :=
  mapM (fun v => v) videos.

Definition set (l : list QueueItem) : M VideoQueue exn unit :=
  modify (fun q => markDirty (q <| items := l |>)).

Definition check_cap (n : nat) : M VideoQueue exn unit :=
  q <- get ;;
  if (MAX_QUEUE_ITEMS <? length (items q) + n)%nat then throw (BadApiArgument "queue") else ret tt.

Definition enqueue (videos : list (option QueueItem)) : M VideoQueue exn unit :=
  match videos with
  | [] => ret tt
  | _ =>
      match all_videos videos with
      | None => throw (Error "Cannot enqueue null or undefined items")
      | Some vs =>
          check_cap (length vs) ;;;
          modify (fun q => markDirty (q <| items ::= fun l => l ++ vs |>))
      end
  end.

Definition dequeue : M VideoQueue exn (option QueueItem) :=
  q <- get ;;
  modify (fun q => markDirty (q <| items ::= tail |>)) ;;;
  ret (head (items q)).

Definition enqueueOverflow (videos : list (option QueueItem)) : M VideoQueue exn unit :=
  match videos with
  | [] => ret tt
  | _ =>
      match all_videos videos with
      | None => throw (Error "Cannot enqueue null or undefined items")
      | Some vs => modify (fun q => markDirty (q <| items ::= fun l => l ++ vs |>))
      end
  end.

Definition pushTop (videos : list (option QueueItem)) : M VideoQueue exn unit :=
  match videos with
  | [] => ret tt
  | _ =>
      match all_videos videos with
      | None => throw (Error "Cannot enqueue null or undefined items")
      | Some vs =>
          check_cap (length vs) ;;;
          modify (fun q => markDirty (q <| items ::= fun l => vs ++ l |>))
      end
  end.

Definition insert (video : option QueueItem) (index : Z) : M VideoQueue exn unit :=
  q <- get ;;
  if (index <? 0) || (Z.of_nat (length (items q)) <? index)
  then throw (Error "Index out of bounds")
  else match video with
       | None => throw (Error "Cannot enqueue null or undefined items")
       | Some v =>
           check_cap 1 ;;;
           modify (fun q => markDirty (q <| items ::= splice_in (Z.to_nat index) v |>))
       end.

Definition move (fromIdx toIdx : Z) : M VideoQueue exn unit :=
  if fromIdx =? toIdx then ret tt
  else
    q <- get ;;
    let n := Z.of_nat (length (items q)) in
    if (fromIdx <? 0) || (n <=? fromIdx) then throw (Error "'fromIdx' out of bounds")
    else if (toIdx <? 0) || (n <=? toIdx) then throw (Error "'toIdx' out of bounds")
    else match items q !! Z.to_nat fromIdx with
         | Some item =>
             modify (fun q => markDirty (q <| items :=
               splice_in (Z.to_nat toIdx) item (splice_out (Z.to_nat fromIdx) (items q)) |>))
         | None => ret tt
         end.

Definition matches (video : VideoId) (item : QueueItem) : bool :=
  bool_decide (qi_service item = vid_service video) && bool_decide (qi_id item = vid_id video).

(** The index of the first match, if any; the source's [-1] is [None]. *)
Fixpoint find_index (p : QueueItem -> bool) (l : list QueueItem) : option nat :=
  match l with
  | [] => None
  | v :: l' => if p v then Some 0%nat else S <$> find_index p l'
  end.

Definition findIndex (video : VideoId) (q : VideoQueue) : option nat :=
  find_index (matches video) (items q).

Definition contains (video : VideoId) (q : VideoQueue) : bool :=
  bool_decide (is_Some (findIndex video q)).

Definition evict (video : VideoId) : M VideoQueue exn (nat * QueueItem) :=
  q <- get ;;
  match findIndex video q with
  | Some i =>
      match items q !! i with
      | Some removed =>
          modify (fun q => markDirty (q <| items ::= splice_out i |>)) ;;;
          ret (i, removed)
      | None => throw VideoNotFound
      end
  | None => throw VideoNotFound
  end.

Definition apply_patch (p : QueuePatch) (v : QueueItem) : QueueItem :=
  let v := match patch_startAt p with Some x => v <| qi_startAt := x |> | None => v end in
  let v := match patch_endAt p with Some x => v <| qi_endAt := x |> | None => v end in
  match patch_subtitleUrl p with Some x => v <| qi_subtitleUrl := x |> | None => v end.

Definition update (video : VideoId) (p : QueuePatch) : M VideoQueue exn unit :=
  q <- get ;;
  match findIndex video q with
  | Some i => modify (fun q => markDirty (q <| items ::= alter (apply_patch p) i |>))
  | None => throw VideoNotFound
  end.

Definition orderBy (key : QueueItem -> nat) : M VideoQueue exn unit :=
  modify (fun q =>
    let new := lodash_orderByDesc key (items q) in
    let q' := q <| items := new |> in
    if negb (bool_decide (new = [])) &&
       negb (forallb (fun p => item_eqb p.1 p.2) (combine new (items q)))
    then markDirty q' else q').

Definition shuffle : M VideoQueue exn unit :=
  modify (fun q => markDirty (q <| items ::= lodash_shuffle |>)).
End Ops.
End VideoQueue.

(** ** Lemmas *)

Section QueueLemmas.
Context `{L : Lodash}.
Implicit Types (q : VideoQueue) (v : QueueItem) (vid : VideoId).

Lemma all_videos_Some (l : list QueueItem) : VideoQueue.all_videos (Some <$> l) = Some l.
Proof. by apply mapM_fmap_Some. Qed.

Lemma find_index_Some p l i :
  VideoQueue.find_index p l = Some i ->
  exists v, l !! i = Some v /\ p v = true /\ forall j w, (j < i)%nat -> l !! j = Some w -> p w = false.
Proof.
  revert i. induction l as [|v l IH]; intros i; simpl; [done|].
  destruct (p v) eqn:Hp.
  - intros [= <-]. exists v. split; [done|]. split; [done|]. lia.
  - intros (j & Hj & ->)%fmap_Some. destruct (IH j Hj) as (w & Hw & Hpw & Hmin).
    exists w. split; [done|]. split; [done|].
    intros [|k] u Hk Hu; simpl in Hu; [by simplify_eq|]. apply (Hmin k u); [lia|done].
Qed.

Lemma find_index_None p l : VideoQueue.find_index p l = None <-> Forall (fun v => p v = false) l.
Proof.
  induction l as [|v l IH]; simpl; [done|]. rewrite Forall_cons, <- IH.
  destruct (p v); [by split; [|intros [? _]]|].
  destruct (VideoQueue.find_index p l); simpl; naive_solver.
Qed.

Lemma contains_iff vid q :
  VideoQueue.contains vid q = true <-> exists v, v ∈ items q /\ VideoQueue.matches vid v = true.
Proof.
  unfold VideoQueue.contains, VideoQueue.findIndex. rewrite bool_decide_eq_true. split.
  - intros [i Hi]. apply find_index_Some in Hi as (v & Hv & Hm & _).
    exists v. split; [by eapply list_elem_of_lookup_2|done].
  - intros (v & Hin & Hm). destruct (VideoQueue.find_index _ _) eqn:Hf; [eauto|].
    apply find_index_None in Hf. rewrite Forall_forall in Hf. apply Hf in Hin. congruence.
Qed.

Definition bounded q : Prop := (length (items q) <= MAX_QUEUE_ITEMS)%nat.

(** What a successful or failing capped append does. *)
Lemma enqueue_eq (l : list QueueItem) q :
  VideoQueue.enqueue (Some <$> l) q =
    if decide (l = []) then (inr tt, q)
    else if (MAX_QUEUE_ITEMS <? length (items q) + length l)%nat then (inl (BadApiArgument "queue"), q)
    else (inr tt, MkVideoQueue (items q ++ l) true).
Proof.
  unfold VideoQueue.enqueue. destruct l as [|v l]; [done|]. rewrite decide_False by done.
  rewrite (all_videos_Some (v :: l)). cbn [fmap list_fmap].
  unfold bind, VideoQueue.check_cap, get, bind. by destruct (MAX_QUEUE_ITEMS <? _)%nat.
Qed.

Lemma pushTop_eq (l : list QueueItem) q :
  VideoQueue.pushTop (Some <$> l) q =
    if decide (l = []) then (inr tt, q)
    else if (MAX_QUEUE_ITEMS <? length (items q) + length l)%nat then (inl (BadApiArgument "queue"), q)
    else (inr tt, MkVideoQueue (l ++ items q) true).
Proof.
  unfold VideoQueue.pushTop. destruct l as [|v l]; [done|]. rewrite decide_False by done.
  rewrite (all_videos_Some (v :: l)). cbn [fmap list_fmap].
  unfold bind, VideoQueue.check_cap, get, bind. by destruct (MAX_QUEUE_ITEMS <? _)%nat.
Qed.

Lemma insert_eq v i q :
  VideoQueue.insert (Some v) i q =
    if (i <? 0) || (Z.of_nat (length (items q)) <? i) then (inl (Error "Index out of bounds"), q)
    else if (MAX_QUEUE_ITEMS <? length (items q) + 1)%nat then (inl (BadApiArgument "queue"), q)
    else (inr tt, MkVideoQueue (splice_in (Z.to_nat i) v (items q)) true).
Proof.
  unfold VideoQueue.insert, VideoQueue.check_cap, bind, get.
  destruct (_ || _); [done|]. by destruct (MAX_QUEUE_ITEMS <? _)%nat.
Qed.

Lemma evict_eq vid q :
  VideoQueue.evict vid q =
    match VideoQueue.findIndex vid q with
    | Some i => match items q !! i with
                | Some v => (inr (i, v), MkVideoQueue (splice_out i (items q)) true)
                | None => (inl VideoNotFound, q)
                end
    | None => (inl VideoNotFound, q)
    end.
Proof.
  unfold VideoQueue.evict, bind, get. destruct (VideoQueue.findIndex vid q) as [i|]; [|done].
  by destruct (items q !! i).
Qed.

Lemma evict_found vid q :
  VideoQueue.contains vid q = true ->
  exists i v, VideoQueue.findIndex vid q = Some i /\ items q !! i = Some v /\
    VideoQueue.matches vid v = true /\
    VideoQueue.evict vid q = (inr (i, v), MkVideoQueue (splice_out i (items q)) true).
Proof.
  unfold VideoQueue.contains. rewrite bool_decide_eq_true. intros [i Hi].
  pose proof Hi as Hf. unfold VideoQueue.findIndex in Hf. apply find_index_Some in Hf as (v & Hv & Hm & _).
  exists i, v. split; [done|]. split; [done|]. split; [done|]. by rewrite evict_eq, Hi, Hv.
Qed.

Lemma move_eq from to q v :
  (from < length (items q))%nat -> (to < length (items q))%nat -> from <> to ->
  items q !! from = Some v ->
  VideoQueue.move (Z.of_nat from) (Z.of_nat to) q =
    (inr tt, MkVideoQueue (splice_in to v (splice_out from (items q))) true).
Proof.
  intros Hf Ht Hne Hv. unfold VideoQueue.move, bind, get.
  rewrite (proj2 (Z.eqb_neq _ _)) by lia.
  rewrite !(proj2 (Z.ltb_ge _ _)) by lia. rewrite !(proj2 (Z.leb_gt _ _)) by lia. simpl.
  by rewrite !Nat2Z.id, Hv.
Qed.
End QueueLemmas.

(** Two lists of one length differ somewhere exactly when the pairwise test fails. *)
Lemma combine_differs (l1 l2 : list QueueItem) :
  length l1 = length l2 ->
  forallb (fun p => item_eqb p.1 p.2) (combine l1 l2) = false <->
  exists i v w, l1 !! i = Some v /\ l2 !! i = Some w /\ item_eqb v w = false.
Proof.
  revert l2. induction l1 as [|x l1 IH]; intros [|y l2] Hlen; try discriminate Hlen;
    cbn [combine forallb fst snd length] in *.
  - split; [done|]. by intros (i & v & w & Hv & _).
  - injection Hlen as Hlen. rewrite andb_false_iff, IH by exact Hlen. split.
    + intros [Hxy|(i & v & w & Hv & Hw & Hd)]; [by exists 0%nat, x, y|by exists (S i), v, w].
    + intros ([|i] & v & w & Hv & Hw & Hd); simpl in *; simplify_eq; [by left|right; by exists i, v, w].
Qed.

(** ** The queue as a client sees it

    [QueueOp] is any operation a room request or the room's own tick performs on the
    queue; [run] performs it. *)

Inductive QueueOp :=
  | OpEnqueue (videos : list (option QueueItem))
  | OpPushTop (videos : list (option QueueItem))
  | OpDequeue
  | OpInsert (video : option QueueItem) (index : Z)
  | OpMove (fromIdx toIdx : Z)
  | OpEvict (video : VideoId)
  | OpUpdate (video : VideoId) (p : QueuePatch)
  | OpOrderBy (key : QueueItem -> nat)
  | OpShuffle.

Section QueueTheorems.
Context `{L : Lodash}.

Definition run (op : QueueOp) : M VideoQueue exn unit :=
  match op with
  | OpEnqueue l => VideoQueue.enqueue l
  | OpPushTop l => VideoQueue.pushTop l
  | OpDequeue => VideoQueue.dequeue ;;; ret tt
  | OpInsert v i => VideoQueue.insert v i
  | OpMove i j => VideoQueue.move i j
  | OpEvict v => VideoQueue.evict v ;;; ret tt
  | OpUpdate v p => VideoQueue.update v p
  | OpOrderBy key => VideoQueue.orderBy key
  | OpShuffle => VideoQueue.shuffle
  end.

Lemma run_atomic op q e q' : run op q = (inl e, q') -> q' = q.
Proof.
  destruct op; simpl; unfold VideoQueue.enqueue, VideoQueue.pushTop, VideoQueue.dequeue,
    VideoQueue.insert, VideoQueue.move, VideoQueue.evict, VideoQueue.update, VideoQueue.orderBy,
    VideoQueue.shuffle, VideoQueue.check_cap, bind, get, ret, throw, modify; intros H;
    repeat case_match; simplify_eq; done.
Qed.

(** Only a capped operation can fail for lack of room, and it then changes nothing. *)
Lemma run_bounded `{!LodashLaws L} op : keeps bounded (run op).
Proof.
  intros q Hq. unfold bounded in *.
  destruct op; simpl; unfold VideoQueue.enqueue, VideoQueue.pushTop, VideoQueue.dequeue,
    VideoQueue.insert, VideoQueue.move, VideoQueue.evict, VideoQueue.update, VideoQueue.orderBy,
    VideoQueue.shuffle, VideoQueue.check_cap, bind, get, ret, throw, modify;
    repeat (case_match; simplify_eq; simpl); try done;
    rewrite ?length_app, ?length_alter, ?length_splice_in, ?length_tail, ?Nat.ltb_ge in *; try lia.
  all: try (rewrite length_splice_out by (eapply lookup_lt_Some; eassumption); lia).
  all: first [destruct (items q); simpl in *; lia
             | by rewrite (Permutation_length (sd_perm _ _ _ (orderByDesc_stable _ _)))
             | by rewrite (Permutation_length (shuffle_perm _))].
Qed.
End QueueTheorems.

(** ** Theorems *)

Section Claims.
Context `{L : Lodash} `{!LodashLaws L}.

(** Every operation a request can perform keeps the queue within [MAX_QUEUE_ITEMS], and
    an operation that throws (queue full, absent video, index out of bounds, video not
    found) leaves the queue exactly as it was. *)
Theorem queue_operations_safe (op : QueueOp) (q : VideoQueue) :
  bounded q ->
  bounded (run op q).2 /\ (forall e q', run op q = (inl e, q') -> q' = q).
Proof. split; [by apply run_bounded|]. intros e q'. apply run_atomic. Qed.

(** [move(from, to)] puts the item at position [to], keeps the relative order of all the
    others, and is undone by [move(to, from)]. *)
Theorem move_correct (q : VideoQueue) (from to : nat) :
  (from < length (items q))%nat -> (to < length (items q))%nat ->
  exists q', VideoQueue.move (Z.of_nat from) (Z.of_nat to) q = (inr tt, q') /\
    items q' !! to = items q !! from /\
    splice_out to (items q') = splice_out from (items q) /\
    items q' ≡ₚ items q /\
    items ((VideoQueue.move (Z.of_nat to) (Z.of_nat from) q').2) = items q.
Proof.
  intros Hf Ht. destruct (lookup_lt_is_Some_2 _ _ Hf) as [v Hv].
  destruct (decide (from = to)) as [->|Hne].
  - exists q. unfold VideoQueue.move. rewrite Z.eqb_refl. done.
  - set (l := splice_in to v (splice_out from (items q))).
    assert (Hlen : length (splice_out from (items q)) = (length (items q) - 1)%nat)
      by by apply length_splice_out.
    assert (Hto : l !! to = Some v) by (apply lookup_splice_in; lia).
    assert (Hout : splice_out to l = splice_out from (items q)) by (apply splice_out_in; lia).
    assert (Hl : length l = length (items q)) by (unfold l; rewrite length_splice_in; lia).
    exists (MkVideoQueue l true). split; [by apply move_eq|].
    split; [by rewrite Hv|]. split; [done|]. split.
    + simpl. unfold l. rewrite splice_in_Permutation. symmetry. by apply splice_out_Permutation.
    + rewrite (move_eq to from _ v); simpl; [|lia|lia|lia|done].
      rewrite Hout. by apply splice_in_out.
Qed.

(** Removing a queued video finds its first occurrence, and inserting the removed item at
    the reported index restores the queue (this is what undoing a removal does). *)
Theorem evict_insert_roundtrip (q : VideoQueue) (vid : VideoId) :
  bounded q -> VideoQueue.contains vid q = true ->
  exists i v q', VideoQueue.evict vid q = (inr (i, v), q') /\
    items q !! i = Some v /\ VideoQueue.matches vid v = true /\
    (forall j w, (j < i)%nat -> items q !! j = Some w -> VideoQueue.matches vid w = false) /\
    exists q'', VideoQueue.insert (Some v) (Z.of_nat i) q' = (inr tt, q'') /\ items q'' = items q.
Proof.
  intros Hb Hc. destruct (evict_found vid q Hc) as (i & v & Hf & Hv & Hm & He).
  exists i, v, (MkVideoQueue (splice_out i (items q)) true). split; [done|].
  split; [done|]. split; [done|]. split.
  { unfold VideoQueue.findIndex in Hf. by apply find_index_Some in Hf as (w & _ & _ & Hmin). }
  assert (Hi : (i < length (items q))%nat) by (eapply lookup_lt_Some; exact Hv).
  rewrite insert_eq. simpl. rewrite length_splice_out by done. unfold bounded in Hb.
  rewrite !(proj2 (Z.ltb_ge _ _)) by lia. rewrite (proj2 (Nat.ltb_ge _ _)) by lia. simpl.
  eexists. split; [done|]. simpl. rewrite Nat2Z.id. by apply splice_in_out.
Qed.

(** Ordering by votes permutes the queue into descending vote order, keeps the order of
    equally voted videos, and marks the queue dirty only when it really changed. *)
Theorem orderBy_correct (key : QueueItem -> nat) (q : VideoQueue) :
  let q' := (VideoQueue.orderBy key q).2 in
  stable_desc key (items q) (items q') /\
  (q_dirty q' = true <-> q_dirty q = true \/
     exists i v w, items q' !! i = Some v /\ items q !! i = Some w /\ item_eqb v w = false).
Proof.
  simpl. set (new := lodash_orderByDesc key (items q)).
  pose proof (orderByDesc_stable key (items q)) as Hst. fold new in Hst.
  assert (Hlen : length new = length (items q)) by (apply Permutation_length, Hst).
  assert (Hch : forallb (fun p => item_eqb p.1 p.2) (combine new (items q)) = false <->
                exists i v w, new !! i = Some v /\ items q !! i = Some w /\ item_eqb v w = false).
  { apply combine_differs. done. }
  destruct (negb _ && negb _) eqn:Hc; simpl; (split; [done|]).
  - apply andb_true_iff in Hc as [_ Hc%negb_true_iff]. split; [|done]. intros _. right. by apply Hch.
  - split; [by left|]. intros [?|Hd]; [done|]. exfalso.
    apply andb_false_iff in Hc as [Hc|Hc]; apply negb_false_iff in Hc.
    + apply bool_decide_eq_true in Hc. destruct Hd as (i & v & w & Hv & _). by rewrite Hc in Hv.
    + apply Hch in Hd. congruence.
Qed.
End Claims.

(** ** Witnesses *)

Definition demo_item (i : string) : QueueItem := bare_video "youtube" i.
Definition demo_queue : VideoQueue :=
  MkVideoQueue [demo_item "a"; demo_item "b"; demo_item "c"] false.

Lemma queue_operations_safe_witness :
  bounded (run (L := reference_lodash) (OpEvict (MkVideoId "youtube" "b")) demo_queue).2.
Proof. apply (queue_operations_safe (L := reference_lodash)). unfold bounded. simpl. unfold MAX_QUEUE_ITEMS. lia. Defined.

Lemma move_correct_witness :
  exists q', VideoQueue.move 0 2 demo_queue = (inr tt, q') /\ items q' !! 2%nat = Some (demo_item "a").
Proof.
  destruct (move_correct demo_queue 0 2) as (q' & Hq & Hi & _); simpl; [lia|lia|].
  exists q'. split; [done|]. by rewrite Hi.
Defined.

Lemma evict_insert_roundtrip_witness :
  exists v, (VideoQueue.evict (MkVideoId "youtube" "b") demo_queue).1 = inr (1%nat, v).
Proof.
  destruct (evict_insert_roundtrip demo_queue (MkVideoId "youtube" "b")) as (i & v & q' & He & Hi & _).
  - unfold bounded, MAX_QUEUE_ITEMS. simpl. lia.
  - reflexivity.
  - exists v. rewrite He. vm_compute in He. injection He as <- <- _. reflexivity.
Defined.

Lemma orderBy_correct_witness :
  items (VideoQueue.orderBy (L := reference_lodash)
           (fun v => if decide (qi_id v = "c") then 1%nat else 0%nat) demo_queue).2
  = [demo_item "c"; demo_item "a"; demo_item "b"] /\
  q_dirty (VideoQueue.orderBy (L := reference_lodash)
           (fun v => if decide (qi_id v = "c") then 1%nat else 0%nat) demo_queue).2 = true.
Proof.
  split; [reflexivity|].
  apply (orderBy_correct (L := reference_lodash)). right.
  exists 0%nat, (demo_item "c"), (demo_item "a"). split_and!; reflexivity.
Defined.
