(* ===== verification/Subtitles.v ===== *)
(** * Subtitles: which subtitle links a room accepts

    [common/subtitles.ts].  The WHATWG URL parser is the parameter [parse]; the
    regular expressions are written out as tests on the host. *)

From Stdlib Require Import Ascii.
From S2P Require Import Prelude Types.

#[local] Open Scope string_scope.
#[local] Open Scope Z_scope.
#[local] Open Scope ott_scope.

(** ** Text helpers *)

Fixpoint str_forall (p : ascii -> bool) (s : string) : bool :=
  match s with
  | EmptyString => true
  | String c s' => p c && str_forall p s'
  end.

Definition str_contains (c : ascii) (s : string) : bool := negb (str_forall (fun d => negb (Ascii.eqb c d)) s).

(** [s.split(c)], which always has at least one piece. *)
Fixpoint split_on (c : ascii) (s : string) : list string :=
  match s with
  | EmptyString => [EmptyString]
  | String d s' =>
      match split_on c s' with
      | [] => [EmptyString]
      | piece :: rest =>
          if Ascii.eqb c d then EmptyString :: piece :: rest else String d piece :: rest
      end
  end.

Definition lower_char (c : ascii) : ascii :=
  let n := nat_of_ascii c in
  if ((65 <=? n) && (n <=? 90))%nat then ascii_of_nat (n + 32) else c.

Fixpoint toLowerCase (s : string) : string :=
  match s with
  | EmptyString => EmptyString
  | String c s' => String (lower_char c) (toLowerCase s')
  end.

(** The piece after the last [c]: [s.split(c).pop()]. *)
Definition last_piece (c : ascii) (s : string) : string := List.last (split_on c s) EmptyString.

(** ** Formats *)

(** What [SUBTITLE_EXTENSIONS[ext] ?? null] can be: a format of the table, or a
    property the object literal inherits from [Object.prototype]. *)
Inductive SubtitleFormat := Vtt | Ass | InheritedProperty.
#[global] Instance SubtitleFormat_eq_dec : EqDecision SubtitleFormat.
Proof. solve_decision. Defined.

Definition SUBTITLE_EXTENSIONS : list (string * SubtitleFormat) :=
  [("vtt", Vtt); ("ass", Ass); ("ssa", Ass)].

(** The inherited property names that have no upper-case letter. *)
Definition inherited_names : list string :=
  ["constructor"; "__proto__"].

Definition extension_format (ext : string) : option SubtitleFormat :=
  match map_get ext SUBTITLE_EXTENSIONS with
  | Some f => Some f
  | None => if decide (ext ∈ inherited_names) then Some InheritedProperty else None
  end.

Definition MAX_SUBTITLE_URL_LENGTH : nat := 2048.

Definition is_digit_or_dot (c : ascii) : bool :=
  let n := nat_of_ascii c in (((48 <=? n) && (n <=? 57)) || (n =? 46))%nat.

Definition local_labels : list string := ["localhost"; "local"; "internal"; "test"; "invalid"].

Section Subtitles.
Variable parse : string -> option Url.

Definition isPublicSubtitleUrl (value : string) : bool :=
  match parse value with
  | None => false
  | Some url =>
      let host := toLowerCase (url_hostname url) in
      bool_decide (url_protocol url ∈ ["http:"; "https:"]) &&
      bool_decide (url_username url = "") && bool_decide (url_password url = "") &&
      (String.length value <=? MAX_SUBTITLE_URL_LENGTH)%nat &&
      str_contains "."%char host &&
      negb (str_forall is_digit_or_dot host && negb (bool_decide (host = ""))) &&
      negb (str_contains ":"%char host) &&
      negb (String.prefix "[" host) &&
      negb (bool_decide (last_piece "."%char host ∈ local_labels))
  end.

Definition getSubtitleFormatFromUrl (value : string) : option SubtitleFormat :=
  match parse value with
  | None => None
  | Some url =>
      let ext := toLowerCase (last_piece "."%char (url_pathname url)) in
      if bool_decide (ext = "") then None else extension_format ext
  end.
End Subtitles.
