(* ===== verification/RoomModel.v ===== *)
(** * RoomModel: the state of a room and the messages around it

    The class [Room] of [server/room.ts] as a record, the requests of
    [common/models/messages.ts], and what the room reads from outside (clock, random
    ids, video lookups, configuration) as the interface [Env].

    A timer ([setTimeout]) is kept as the instant it is due.  What the room sends is
    appended to [outbox]; log lines and metrics are dropped.  The rows of the notes
    table that belong to the room are [db_notes]. *)

From S2P Require Import Prelude Types Permissions VideoQueue.

(** ** Requests *)

Record PlaybackPrepared := MkPrepared {
  pp_id : wire string;
  pp_position : num;
  pp_bufferAhead : option Q;
  pp_firstFrame : option bool;
  pp_visible : option bool;
  pp_failed : bool;
}.

Inductive GestureAction := GestureStart | GestureRenew | GestureStop | GestureOther.
#[global] Instance GestureAction_eq_dec : EqDecision GestureAction.
Proof. solve_decision. Defined.

(** One entry of the object [settings], in the order the object lists them. *)
Inductive SettingUpdate :=
  | STitle (v : string)
  | SDescription (v : string)
  | SVisibility (v : Visibility)
  | SQueueMode (v : QueueMode)
  | SAutoSkip (v : list string)
  | SRestoreQueue (v : BehaviorOption)
  | SEnableVoteSkip (v : bool)
  | SBufferGate (v : BufferGateMode)
  | SDanmaku (v : option RoomDanmakuSource)
  | SGrants (v : Grants).

(** The enum [RoomRequestType]. *)
Inductive RequestType :=
  | TJoin | TLeave | TPlayback | TSkip | TSeek | TAdd | TRemove | TOrder | TVote | TPromote
  | TUpdateUser | TChat | TUndo | TApplySettings | TPlayNow | TShuffle | TPlaybackSpeed
  | TRestoreQueue | TKick | TUpdateQueueItem | TTemporarySpeed | TAddNote | TDeleteNote.
#[global] Instance RequestType_eq_dec : EqDecision RequestType.
Proof. solve_decision. Defined.

(** [RoomEventContext]. *)
Record EventContext := MkEventContext {
  ec_video : option QueueItem;
  ec_videos : option (list QueueItem);
  ec_prevPosition : option Q;
  ec_queueIdx : option Z;
  ec_user : option RoomUserInfo;
}.
Definition no_context : EventContext := MkEventContext None None None None None.

(** The event a client echoes back to undo it: the fields the room compares. *)
Record UndoEcho := MkUndoEcho {
  echo_type : RequestType;
  echo_video : option VideoAdd;
  echo_addVideo : option QueueItem;
  echo_prevPosition : option Q;
  echo_queueIdx : option Z;
}.

Record AddRequest := MkAddRequest {
  add_video : option (wire VideoAdd);
  add_videos : option (wire (list (wire VideoAdd)));
  add_url : option (wire string);
}.

Inductive RoomRequest :=
  | JoinRequest (info : ClientInfo) (reconnect : bool)
  | LeaveRequest
  | PlaybackRequest (state : bool)
  | SkipRequest
  | SeekRequest (value : jsval)
  | ReqAdd (r : AddRequest)
  | RemoveRequest (video : VideoId)
  | OrderRequest (fromIdx toIdx : num)
  | VoteRequest (video : VideoId) (add : bool)
  | PromoteRequest (targetClientId : ClientId) (role : num)
  | UpdateUser (info : ClientInfo) (playbackPrepared : option PlaybackPrepared)
  | ChatRequest (text : wire string)
  | UndoRequest (event : option UndoEcho)
  | ApplySettingsRequest (settings : list SettingUpdate)
  | PlayNowRequest (video : wire VideoAdd)
  | ShuffleRequest
  | PlaybackSpeedRequest (speed : num)
  | RestoreQueueRequest (discard : bool)
  | KickRequest (clientId : ClientId)
  | UpdateQueueItemRequest (video : VideoId) (subtitleUrl : option (option string))
  | TemporaryPlaybackSpeedRequest (action : GestureAction) (gestureId : wire string)
      (video : option VideoId)
  | AddNoteRequest (text : wire string)
  | DeleteNoteRequest (noteId : num).

Definition request_type (r : RoomRequest) : RequestType :=
  match r with
  | JoinRequest _ _ => TJoin
  | LeaveRequest => TLeave
  | PlaybackRequest _ => TPlayback
  | SkipRequest => TSkip
  | SeekRequest _ => TSeek
  | ReqAdd _ => TAdd
  | RemoveRequest _ => TRemove
  | OrderRequest _ _ => TOrder
  | VoteRequest _ _ => TVote
  | PromoteRequest _ _ => TPromote
  | UpdateUser _ _ => TUpdateUser
  | ChatRequest _ => TChat
  | UndoRequest _ => TUndo
  | ApplySettingsRequest _ => TApplySettings
  | PlayNowRequest _ => TPlayNow
  | ShuffleRequest => TShuffle
  | PlaybackSpeedRequest _ => TPlaybackSpeed
  | RestoreQueueRequest _ => TRestoreQueue
  | KickRequest _ => TKick
  | UpdateQueueItemRequest _ _ => TUpdateQueueItem
  | TemporaryPlaybackSpeedRequest _ _ _ => TTemporarySpeed
  | AddNoteRequest _ => TAddNote
  | DeleteNoteRequest _ => TDeleteNote
  end.

(** [request.video], for the requests that have one. *)
Definition request_video (r : RoomRequest) : option VideoAdd :=
  let of_id v := Some (MkVideoAdd (vid_service v) (vid_id v) None None None) in
  match r with
  | ReqAdd a => match add_video a with Some (Typed v) => Some v | _ => None end
  | RemoveRequest v => of_id v
  | VoteRequest v _ => of_id v
  | PlayNowRequest (Typed v) => Some v
  | UpdateQueueItemRequest v _ => of_id v
  | TemporaryPlaybackSpeedRequest _ _ (Some v) => of_id v
  | _ => None
  end.

(** [RoomRequestContext]: who is asking, with the token when it is known. *)
Record RequestContext := MkContext {
  ctx_username : string;
  ctx_role : Role;
  ctx_clientId : option ClientId;
  ctx_token : option AuthToken;
}.

(** [ev_ref] is the identity of the event object ([indexOf] compares references).
    [ev_carried]: JSON carries what undo compares of it unchanged.  It does not when an object
    in it has a key whose value is [undefined] (the model's optional fields do not tell such a
    key from an absent one) or a number that is not finite. *)
Record ServerMessageEvent := MkEvent {
  ev_ref : Z;
  ev_request : RoomRequest;
  ev_user : RoomUserInfo;
  ev_additional : EventContext;
  ev_carried : bool;
}.

Record RoomNote := MkNote {
  note_id : Z;
  note_authorName : string;
  note_text : string;
  note_createdAt : Z;
}.

(** ** The state *)

(** [RoomUser]; the diagnostics snapshot, which is only ever logged, is left out. *)
Record RoomUser := MkRoomUser {
  ru_id : ClientId;
  ru_token : AuthToken;
  ru_user_id : option Z;
  ru_unregisteredUsername : string;
  ru_user : option User;
  ru_playerStatus : PlayerStatus;
}.
#[global] Instance eta_RoomUser : Eta RoomUser := fun u =>
  MkRoomUser (ru_id u) (ru_token u) (ru_user_id u) (ru_unregisteredUsername u) (ru_user u)
    (ru_playerStatus u).

Record PlaybackReadyInfo := MkReady {
  ready_clientId : ClientId;
  ready_firstFrame : bool;
  ready_bufferAhead : option Q;
  ready_at : Z;
}.

Inductive Fallback := FallbackPartial | FallbackNone | FallbackForced.
#[global] Instance Fallback_eq_dec : EqDecision Fallback.
Proof. solve_decision. Defined.

Record PlaybackPreparation := MkPreparation {
  prep_id : string;
  prep_clientId : ClientId;
  prep_video : VideoId;
  prep_position : Q;
  prep_eligible : list ClientId;
  prep_ready : list PlaybackReadyInfo;
  prep_deadlineAt : Z;
  prep_hardDeadlineAt : Z;
  prep_startAt : option Z;
  prep_fallback : option Fallback;
}.
#[global] Instance eta_PlaybackPreparation : Eta PlaybackPreparation := fun p =>
  MkPreparation (prep_id p) (prep_clientId p) (prep_video p) (prep_position p) (prep_eligible p)
    (prep_ready p) (prep_deadlineAt p) (prep_hardDeadlineAt p) (prep_startAt p) (prep_fallback p).

Record BufferGate := MkGate {
  gate_startedAt : Z;
  gate_waitingOn : list ClientId;
  gate_pausedByGate : bool;
}.

Record TemporarySpeed := MkTemporarySpeed {
  ts_clientId : ClientId;
  ts_gestureId : string;
  ts_speed : Q;
  ts_previousSpeed : Q;
}.

(** The keys of [RoomStateSyncable]: [syncableProps], which [markDirty] is given. *)
Inductive Prop_ :=
  | PName | PTitle | PDescription | PIsTemporary | PVisibility | PQueueMode | PCurrentSource
  | PQueue | PIsPlaying | PPlaybackPosition | PPlaybackSpeed | PTemporaryPlaybackSpeed
  | PPlaybackPreparation | PGrants | PHasOwner | PHasPassword | PVoteCounts | PVideoSegments
  | PAutoSkip | PPrevQueue | PRestoreQueueBehavior | PEnableVoteSkip | PBufferGateMode
  | PDanmakuSource | PVotesToSkip.
#[global] Instance Prop__eq_dec : EqDecision Prop_.
Proof. solve_decision. Defined.

(** A leave event waiting out its grace period. *)
Record PendingLeave := MkPendingLeave {
  pl_dueAt : Z;
  pl_context : RequestContext;
  pl_user : RoomUserInfo;
}.

(** What a synchronised property holds, as the message carries it. *)
Inductive value :=
  | VString (s : string)
  | VBool (b : bool)
  | VNumber (q : Q)
  | VVisibility (v : Visibility)
  | VQueueMode (m : QueueMode)
  | VItem (v : option QueueItem)
  | VItems (l : list QueueItem)
  | VSavedItems (l : option (list QueueItem))
  | VTemporarySpeed (t : option (ClientId * string * Q))
  | VPreparation (p : option PlaybackPreparation)
  | VGrants (l : list (Role * Z))
  | VCounts (l : list (string * nat))
  | VSegments (l : list Segment)
  | VCategories (l : list string)
  | VBehavior (b : BehaviorOption)
  | VGateMode (m : BufferGateMode)
  | VDanmaku (s : option RoomDanmakuSource)
  | VClients (s : gset ClientId).

(** A [ServerMessageSync] has some of the properties. *)
Record ServerMessageSync := MkSync { sync_values : list (Prop_ * value) }.

Inductive Effect :=
  | PublishEvent (e : ServerMessageEvent)
  | PublishEventCustom (text : string)
  | PublishUser (info : RoomUserInfo)
  | PublishChat (from : RoomUserInfo) (text : string)
  | PublishNotes (notes : list RoomNote)
  | PublishSync (m : ServerMessageSync)
  | CommandKick (clientId : ClientId).

Record Room := MkRoom {
  name : string;
  title : string;
  description : string;
  visibility : Visibility;
  queueMode : QueueMode;
  isTemporary : bool;
  owner : option User;
  grants : Grants;
  userRoles : list (Role * gset Z);
  autoSkipSegmentCategories : list string;
  restoreQueueBehavior : BehaviorOption;
  enableVoteSkip : bool;
  bufferGateMode : BufferGateMode;
  danmakuSource : option RoomDanmakuSource;
  bufferGateExhausted : gset ClientId;
  pendingLeaveEvents : list (AuthToken * PendingLeave);
  passwordHash : option string;
  permissionsRevision : Z;
  bufferGate : option BufferGate;
  lastPlayAt : option Z;
  bufferGateCooldownUntil : option Z;
  restoredFromStorage : bool;
  currentSource : option QueueItem;
  queue : VideoQueue;
  prevQueue : option (list QueueItem);
  isPlaying : bool;
  playbackPosition : Q;
  playbackSpeed : Q;
  temporarySpeed : option TemporarySpeed;
  temporarySpeedTimer : option Z;
  playbackStartTimer : option Z;
  playbackPreparation : option PlaybackPreparation;
  resumeOnNextJoin : bool;
  realusers : list RoomUser;
  votes : list (string * gset ClientId);
  videoSegments : list Segment;
  votesToSkip : gset ClientId;
  dirty : list Prop_;
  recentEvents : list ServerMessageEvent;
  nextEventRef : Z;
  playbackStart : option Z;
  keepAlivePing : Z;
  wantSponsorBlock : bool;
  dontSkipSegmentsUntil : option Q;
  db_notes : list RoomNote;
  db_nextNoteId : Z;
  outbox : list Effect;
}.
#[global] Instance eta_Room : Eta Room := fun r =>
  MkRoom (name r) (title r) (description r) (visibility r) (queueMode r) (isTemporary r)
    (owner r) (grants r) (userRoles r) (autoSkipSegmentCategories r)
    (restoreQueueBehavior r) (enableVoteSkip r) (bufferGateMode r) (danmakuSource r)
    (bufferGateExhausted r) (pendingLeaveEvents r) (passwordHash r) (permissionsRevision r)
    (bufferGate r) (lastPlayAt r) (bufferGateCooldownUntil r) (restoredFromStorage r)
    (currentSource r) (queue r) (prevQueue r) (isPlaying r) (playbackPosition r)
    (playbackSpeed r) (temporarySpeed r) (temporarySpeedTimer r) (playbackStartTimer r)
    (playbackPreparation r) (resumeOnNextJoin r) (realusers r) (votes r) (videoSegments r)
    (votesToSkip r) (dirty r) (recentEvents r) (nextEventRef r) (playbackStart r) (keepAlivePing r)
    (wantSponsorBlock r) (dontSkipSegmentsUntil r) (db_notes r) (db_nextNoteId r) (outbox r).

(** ** What clients are told *)

Definition hasOwner (r : Room) : bool := bool_decide (is_Some (owner r)).

(** [hasPassword]: [!!this.passwordHash]. *)
Definition hasPassword (r : Room) : bool :=
  match passwordHash r with Some h => negb (bool_decide (h = ""%string)) | None => false end.

Definition voteCounts (r : Room) : list (string * nat) := map (fun kv => (kv.1, size kv.2)) (votes r).

(** [get temporaryPlaybackSpeed]: the speed to return to is not shown. *)
Definition temporaryPlaybackSpeed (r : Room) : option (ClientId * string * Q) :=
  (fun t => (ts_clientId t, ts_gestureId t, ts_speed t)) <$> temporarySpeed r.

Definition syncableProps : list Prop_ :=
  [PName; PTitle; PDescription; PIsTemporary; PVisibility; PQueueMode; PCurrentSource; PQueue;
   PIsPlaying; PPlaybackPosition; PPlaybackSpeed; PTemporaryPlaybackSpeed; PPlaybackPreparation;
   PGrants; PHasOwner; PHasPassword; PVoteCounts; PVideoSegments; PAutoSkip; PPrevQueue;
   PRestoreQueueBehavior; PEnableVoteSkip; PBufferGateMode; PDanmakuSource; PVotesToSkip].

(** One property of [syncableState], the position being [position]. *)
Definition prop_value (position : Q) (p : Prop_) (r : Room) : value :=
  match p with
  | PName => VString (name r)
  | PTitle => VString (title r)
  | PDescription => VString (description r)
  | PIsTemporary => VBool (isTemporary r)
  | PVisibility => VVisibility (visibility r)
  | PQueueMode => VQueueMode (queueMode r)
  | PCurrentSource => VItem (currentSource r)
  | PQueue => VItems (items (queue r))
  | PIsPlaying => VBool (isPlaying r)
  | PPlaybackPosition => VNumber position
  | PPlaybackSpeed => VNumber (playbackSpeed r)
  | PTemporaryPlaybackSpeed => VTemporarySpeed (temporaryPlaybackSpeed r)
  | PPlaybackPreparation => VPreparation (playbackPreparation r)
  | PGrants => VGrants (Grants.toJSON (grants r))
  | PHasOwner => VBool (hasOwner r)
  | PHasPassword => VBool (hasPassword r)
  | PVoteCounts => VCounts (voteCounts r)
  | PVideoSegments => VSegments (videoSegments r)
  | PAutoSkip => VCategories (autoSkipSegmentCategories r)
  | PPrevQueue => VSavedItems (prevQueue r)
  | PRestoreQueueBehavior => VBehavior (restoreQueueBehavior r)
  | PEnableVoteSkip => VBool (enableVoteSkip r)
  | PBufferGateMode => VGateMode (bufferGateMode r)
  | PDanmakuSource => VDanmaku (danmakuSource r)
  | PVotesToSkip => VClients (votesToSkip r)
  end.

(** [_.pick(state, props)]. *)
Definition pick_state (position : Q) (props : list Prop_) (r : Room) : list (Prop_ * value) :=
  map (fun p => (p, prop_value position p r)) props.
