(* ===== verification/RoomPlayback.v ===== *)
(** * RoomPlayback: the clock, the buffer gate and the start handshake

    The methods of [server/room.ts] that cannot throw, as functions from room to room:
    the setters, the playback clock, the temporary speed, the buffer gate, playback
    preparation, [dequeueNext] and the publishing of events.  One method call reads one
    instant, [now]. *)

From S2P Require Import Prelude Types Permissions VideoQueue RoomModel.

(** ** What the room reads from outside *)

(** The outcome of a sponsorblock request. *)
Inductive SegmentFetch := Fetched (l : list Segment) | FetchFailed.

(** [SessionInfo] of [server/auth/tokens.ts]. *)
Inductive SessionInfo := SessionGuest (username : string) | SessionUser (uid : Z).

Class Env := {
  now : Z;
  random_uuid : string;
  env_lodash :: Lodash;
  env_getUser : Z -> exn + User;
  env_getSessionInfo : AuthToken -> exn + SessionInfo;
  env_adapterVideoId : string -> exn + VideoId;
  env_getVideoInfo : VideoId -> exn + option QueueItem;
  env_getManyVideoInfo : list VideoAdd -> exn + list (option QueueItem);
  env_parseUrl : string -> option Url;
  env_assertPublicMediaUrl : string -> bool;
  env_fetchSegments : string -> SegmentFetch;
  env_storageOk : bool;
  env_carried : RoomRequest -> EventContext -> bool;
  env_storedNotes : list RoomNote;
  env_nextNoteId : Z;
  conf_unload_after : Z;
  conf_sponsorblock_enabled : bool;
}.

Definition set_add {A} `{EqDecision A} (x : A) (l : list A) : list A :=
  if decide (x ∈ l) then l else l ++ [x].

Section Playback.
Context `{E : Env}.

Definition markDirty (p : Prop_) (r : Room) : Room := r <| dirty ::= set_add p |>.

(** ** Roles and users *)

Definition isLoggedIn (u : RoomUser) : bool :=
  match ru_user_id u with Some n => negb (n =? 0) | None => false end.

Definition username (u : RoomUser) : string :=
  match ru_user u with
  | Some us => if isLoggedIn u then user_username us else ru_unregisteredUsername u
  | None => ru_unregisteredUsername u
  end.

Definition truthy_string (s : option string) : option string :=
  match s with Some x => if bool_decide (x = "") then None else Some x | None => None end.

Definition truthy_number (n : option Z) : option Z :=
  match n with Some x => if x =? 0 then None else Some x | None => None end.

(** [RoomUser.updateInfo]; the account lookup can fail after the id was set. *)
Definition updateInfo (info : ClientInfo) : M RoomUser exn unit :=
  match truthy_number (ci_user_id info) with
  | Some n =>
      modify (fun u => u <| ru_user_id := Some n |>) ;;;
      us <- lift_res (env_getUser n) ;;
      modify (fun u => u <| ru_user := Some us |>)
  | None =>
      match truthy_string (ci_username info) with
      | Some nm =>
          modify (fun u => u <| ru_unregisteredUsername := nm |> <| ru_user_id := None |>
                             <| ru_user := None |>)
      | None => ret tt
      end
  end ;;;
  match ci_status info with
  | Some st => modify (fun u => u <| ru_playerStatus := st |>)
  | None => ret tt
  end.

Definition isOwner (r : Room) (u : RoomUser) : bool :=
  match ru_user u, owner r with
  | Some us, Some o => user_id us =? user_id o
  | _, _ => false
  end.

(** The first role, from administrator down to trusted user, whose set has the id. *)
Definition roleOf (r : Room) (uid : Z) : option Role :=
  find (fun i => match map_get i (userRoles r) with
                 | Some s => bool_decide (uid ∈ s)
                 | None => false
                 end) [Administrator; Moderator; TrustedUser].

Definition getRole (r : Room) (u : RoomUser) : Role :=
  if isOwner r u then Owner
  else
    match ru_user u ≫= fun us => roleOf r (user_id us) with
    | Some role => role
    | None => if isLoggedIn u then RegisteredUser else UnregisteredUser
    end.

Definition getUser (r : Room) (client : ClientId) : option RoomUser :=
  find (fun u => bool_decide (ru_id u = client)) (realusers r).

Definition userInfo (r : Room) (u : RoomUser) : RoomUserInfo :=
  MkRoomUserInfo (ru_id u) (username u) (isLoggedIn u) (ru_playerStatus u) (getRole r u).

Definition users (r : Room) : list RoomUserInfo := map (userInfo r) (realusers r).

(** [getUserInfo]; where the source throws, [None]. *)
Definition getUserInfo (r : Room) (client : ClientId) : option RoomUserInfo :=
  userInfo r <$> getUser r client.

(** ** Publishing *)

Definition publish (e : Effect) (r : Room) : Room := r <| outbox ::= fun l => l ++ [e] |>.

Definition RECENT_EVENTS_LIMIT : nat := 20.

Definition record_event (e : ServerMessageEvent) (r : Room) : Room :=
  r <| nextEventRef ::= Z.succ |>
    <| recentEvents ::= fun l =>
         let l' := l ++ [e] in
         if (RECENT_EVENTS_LIMIT <? length l')%nat then tail l' else l' |>.

Definition publishRoomEvent (request : RoomRequest) (ctx : RequestContext)
    (additional : EventContext) (knownUser : option RoomUserInfo) (r : Room) : Room :=
  match ctx_clientId ctx with
  | None => r
  | Some client =>
      match (match knownUser with Some u => Some u | None => getUserInfo r client end) with
      | None => r
      | Some u =>
          let e := MkEvent (nextEventRef r) request u additional (env_carried request additional) in
          publish (PublishEvent e) (record_event e r)
      end
  end.

Definition syncUser (info : RoomUserInfo) (r : Room) : Room := publish (PublishUser info) r.

(** ** The clock *)

(** [calculateCurrentPosition] of [common/timestamp.ts]. *)
Definition calculateCurrentPosition (start_time now_time : Z) (offset speed : Q) : Q :=
  (offset + (inject_Z (now_time - start_time) / 1000) * speed)%Q.

Definition calcDurationFromPlaybackStart (r : Room) : Q :=
  match playbackStart r with
  | Some s => calculateCurrentPosition s now 0 (playbackSpeed r)
  | None => 0%Q
  end.

Definition realPlaybackPosition (r : Room) : Q :=
  match playbackStart r with
  | Some _ => if isPlaying r
              then (playbackPosition r + calcDurationFromPlaybackStart r)%Q
              else playbackPosition r
  | None => playbackPosition r
  end.

Definition set_playbackPosition (v : Q) (r : Room) : Room :=
  markDirty PPlaybackPosition (r <| playbackPosition := v |>).

Definition set_playbackSpeed (v : Q) (r : Room) : Room :=
  markDirty PPlaybackSpeed (r <| playbackSpeed := v |>).

Definition set_videoSegments (v : list Segment) (r : Room) : Room :=
  markDirty PVideoSegments (r <| videoSegments := v |>).

Definition set_prevQueue (v : option (list QueueItem)) (r : Room) : Room :=
  match v, prevQueue r with
  | None, None => r
  | _, _ => markDirty PPrevQueue (r <| prevQueue := v |>)
  end.

Definition flushPlaybackPosition (r : Room) : Room :=
  (set_playbackPosition (realPlaybackPosition r) r) <| playbackStart := Some now |>.

Definition endTemporaryPlaybackSpeed (restore : bool) (r : Room) : Room :=
  let r := r <| temporarySpeedTimer := None |> in
  match temporarySpeed r with
  | None => r
  | Some previous =>
      let r := r <| temporarySpeed := None |> in
      let r := if restore
               then set_playbackSpeed (ts_previousSpeed previous) (flushPlaybackPosition r)
               else r in
      markDirty PTemporaryPlaybackSpeed r
  end.

Definition set_isPlaying (v : bool) (r : Room) : Room :=
  let r := if v then r else endTemporaryPlaybackSpeed true r in
  markDirty PIsPlaying (r <| isPlaying := v |>).

Definition clearPlaybackStartTimer (r : Room) : Room := r <| playbackStartTimer := None |>.

Definition cancelPlaybackPreparation (r : Room) : Room :=
  let r := clearPlaybackStartTimer r in
  let r := match playbackPreparation r with
           | Some _ => markDirty PPlaybackPreparation (r <| playbackPreparation := None |>)
           | None => r
           end in
  if resumeOnNextJoin r then markDirty PIsPlaying (r <| resumeOnNextJoin := false |>) else r.

Definition set_currentSource (v : option QueueItem) (r : Room) : Room :=
  let r := r <| bufferGate := None |> <| bufferGateExhausted := ∅ |> <| lastPlayAt := Some now |> in
  let r := endTemporaryPlaybackSpeed true r in
  let r := cancelPlaybackPreparation r in
  markDirty PCurrentSource (r <| currentSource := v |>).

Definition play (r : Room) : Room :=
  let r := match bufferGate r with
           | Some _ => r <| bufferGate := None |>
                         <| bufferGateCooldownUntil := Some (now + BUFFER_GATE_COOLDOWN_MS) |>
           | None => r
           end in
  let r := cancelPlaybackPreparation r in
  let r := r <| restoredFromStorage := false |> in
  if isPlaying r then r
  else
    let r := r <| lastPlayAt := Some now |> in
    (set_isPlaying true r) <| playbackStart := Some now |>.

Definition pausePlaybackClock (r : Room) : Room :=
  let r := endTemporaryPlaybackSpeed true r in
  if isPlaying r then
    let r := flushPlaybackPosition r in
    set_isPlaying false (r <| playbackStart := None |>)
  else r.

Definition pause (byBufferGate : bool) (r : Room) : Room :=
  let r := if byBufferGate then r else r <| bufferGate := None |> in
  pausePlaybackClock (cancelPlaybackPreparation r).

Definition seekRaw (value : Q) (r : Room) : Room :=
  let r := cancelPlaybackPreparation r in
  (set_playbackPosition value r) <| playbackStart := Some now |>.

Definition renewTemporaryPlaybackSpeed (r : Room) : Room :=
  r <| temporarySpeedTimer := Some (now + TEMPORARY_PLAYBACK_SPEED_LEASE_MS) |>.

(** ** The buffer gate *)

Definition bufferingGateHeld (r : Room) : bool :=
  match bufferGate r with Some g => gate_pausedByGate g | None => false end.

Definition is_solo (r : Room) : bool := (length (realusers r) =? 1)%nat.

Definition releaseBufferGate (timedOut : bool) (r : Room) : Room :=
  match bufferGate r with
  | None => r
  | Some gate =>
      let r := r <| bufferGate := None |> in
      let r := if timedOut then
                 let r := r <| bufferGateCooldownUntil := Some (now + BUFFER_GATE_COOLDOWN_MS) |> in
                 if is_solo r
                 then r <| bufferGateExhausted ::= fun s => s ∪ list_to_set (gate_waitingOn gate) |>
                 else r
               else r in
      if gate_pausedByGate gate && negb (isPlaying r) && negb (bool_decide (realusers r = [])) &&
         bool_decide (is_Some (currentSource r)) && bool_decide (playbackPreparation r = None)
      then play r else r
  end.

(** The viewers whose buffering counts: allowed to play and pause. *)
Definition eligiblePreparers (r : Room) : list RoomUser :=
  List.filter (fun u => Grants.granted (grants r) (getRole r u) "playback.play-pause") (realusers r).

Definition waitingViewers (r : Room) : list RoomUser :=
  List.filter (fun u => bool_decide (ru_playerStatus u = StatusBuffering) &&
                        negb (bool_decide (ru_id u ∈ bufferGateExhausted r)))
    (eligiblePreparers r).

(** [now < t] where [-Infinity] is [None]. *)
Definition before (t : option Z) : bool := match t with Some t => now <? t | None => false end.

Definition evaluateBufferGate (r : Room) : Room :=
  let expired := match bufferGate r with
                 | Some g => BUFFER_GATE_MAX_WAIT_MS <=? now - gate_startedAt g
                 | None => false
                 end in
  if expired then releaseBufferGate true r
  else if (negb (bool_decide (bufferGateMode r = GatePause)) && negb (is_solo r)) ||
          bool_decide (is_Some (temporarySpeed r)) || bool_decide (is_Some (playbackPreparation r)) ||
          bool_decide (currentSource r = None)
  then releaseBufferGate false r
  else
    match waitingViewers r with
    | [] => releaseBufferGate false r
    | waiting =>
        match bufferGate r with
        | Some g => r <| bufferGate := Some (MkGate (gate_startedAt g) (map ru_id waiting) (gate_pausedByGate g)) |>
        | None =>
            if negb (isPlaying r) ||
               match lastPlayAt r with Some t => now - t <? BUFFER_GATE_START_GRACE_MS | None => false end ||
               before (bufferGateCooldownUntil r)
            then r
            else pause true (r <| bufferGate := Some (MkGate now (map ru_id waiting) true) |>)
        end
    end.

(** ** Playback preparation *)

Definition may_play (r : Room) (client : ClientId) : bool :=
  match getUser r client with
  | Some u => Grants.granted (grants r) (getRole r u) "playback.play-pause"
  | None => false
  end.

Definition playbackEligibleIds (r : Room) (p : PlaybackPreparation) : list ClientId :=
  List.filter (may_play r) (prep_eligible p).

Definition is_ready (p : PlaybackPreparation) (client : ClientId) : bool :=
  bool_decide (client ∈ map ready_clientId (prep_ready p)).

Definition allEligibleReady (r : Room) (p : PlaybackPreparation) : bool :=
  match playbackEligibleIds r p with
  | [] => false
  | eligible => forallb (is_ready p) eligible
  end.

Definition readyBufferIsEnough (p : PlaybackPreparation) (prepared : PlaybackPrepared) : bool :=
  match pp_bufferAhead prepared with
  | None => true
  | Some b => Qge_bool b (playbackReadyBufferSeconds (vid_service (prep_video p)))
  end.

Definition startPreparedPlayback (r : Room) : Room :=
  match playbackPreparation r with
  | None => r
  | Some p =>
      match prep_startAt p with
      | None => r
      | Some startAt =>
          if now + 50 <? startAt then r
          else
            let r := clearPlaybackStartTimer r in
            let r := r <| playbackPreparation := None |> <| resumeOnNextJoin := false |> in
            let r := set_playbackPosition (prep_position p) r in
            let r := set_isPlaying true r in
            let r := r <| playbackStart := Some startAt |> in
            markDirty PPlaybackPosition (markDirty PIsPlaying (markDirty PPlaybackPreparation r))
      end
  end.

Definition schedulePlaybackStart (fallback : option Fallback) (r : Room) : Room :=
  match playbackPreparation r with
  | None => r
  | Some p =>
      match prep_startAt p with
      | Some _ => r
      | None =>
          let p := p <| prep_fallback := fallback |> in
          if (length (playbackEligibleIds r p) <=? 1)%nat then
            let r := r <| playbackPreparation := Some (p <| prep_startAt := Some now |>) |> in
            startPreparedPlayback (markDirty PPlaybackPreparation r)
          else
            let startAt := now + PLAYBACK_START_LEAD_MS in
            let r := r <| playbackPreparation := Some (p <| prep_startAt := Some startAt |>) |> in
            let r := clearPlaybackStartTimer (markDirty PPlaybackPreparation r) in
            r <| playbackStartTimer := Some startAt |>
      end
  end.

Definition set_preparation (p : PlaybackPreparation) (r : Room) : Room :=
  r <| playbackPreparation := Some p |>.

Definition dropPlaybackParticipant (client : ClientId) (r : Room) : Room :=
  match playbackPreparation r with
  | None => r
  | Some p =>
      if decide (client ∈ prep_eligible p) then
        let p := p <| prep_eligible ::= List.filter (fun i => negb (bool_decide (i = client))) |>
                   <| prep_ready ::= List.filter (fun x => negb (bool_decide (ready_clientId x = client))) |> in
        match prep_eligible p with
        | [] => markDirty PPlaybackPreparation (set_preparation (p <| prep_fallback := Some FallbackNone |>) r)
        | first :: _ =>
            let p := p <| prep_clientId := first |> in
            let r := markDirty PPlaybackPreparation (set_preparation p r) in
            if allEligibleReady r p then schedulePlaybackStart None r else r
        end
      else r
  end.

Definition refreshPlaybackPreparation (r : Room) : Room :=
  match playbackPreparation r with
  | None => r
  | Some p =>
      let eligible := playbackEligibleIds r p in
      if decide (eligible = prep_eligible p) then r
      else
        let p := p <| prep_eligible := eligible |>
                   <| prep_ready ::= List.filter (fun x => bool_decide (ready_clientId x ∈ eligible)) |> in
        let r := set_preparation p r in
        match eligible with
        | [] =>
            if bool_decide (eligiblePreparers r = []) then cancelPlaybackPreparation r
            else markDirty PPlaybackPreparation (set_preparation (p <| prep_fallback := Some FallbackNone |>) r)
        | first :: _ => markDirty PPlaybackPreparation (set_preparation (p <| prep_clientId := first |>) r)
        end
  end.

(** [NATIVE_ODYSEE_MIME_REGEX] is an unanchored alternation of three literals. *)
Definition native_odysee_mime (m : string) : bool :=
  existsb (fun needle => match String.index 0 needle m with Some _ => true | None => false end)
    ["video/mp4"; "application/vnd.apple.mpegurl"; "application/x-mpegURL"].

Definition finite_positive (n : option num) : bool :=
  match n with Some (Fin q) => Qlt_bool 0 q | _ => false end.

Definition canPreparePlayback (r : Room) : bool :=
  match currentSource r with
  | None => false
  | Some s =>
      negb (qi_isLive s) && finite_positive (qi_length s) &&
      (bool_decide (qi_service s ∈ ["direct"; "googledrive"; "hls"; "reddit"; "tubi"; "pluto"; "dash"]) ||
       (bool_decide (qi_service s = "odysee") &&
        match qi_mime s with Some m => native_odysee_mime m | None => false end))
  end.

Definition canHoldPlaybackForPreparation (r : Room) : bool :=
  canPreparePlayback r && negb (bool_decide (eligiblePreparers r = [])).

Definition prepareEmptyRoomPlayback (r : Room) : Room :=
  match currentSource r with
  | None => r
  | Some s =>
      if negb (resumeOnNextJoin r) || isPlaying r || bool_decide (is_Some (playbackPreparation r)) ||
         negb (canPreparePlayback r) || Qlt_bool (playbackPosition r) 0
      then r
      else
        match map ru_id (eligiblePreparers r) with
        | [] => r
        | first :: rest =>
            let p := MkPreparation random_uuid first (video_id_of s) (playbackPosition r)
                       (first :: rest) [] (now + PLAYBACK_READY_WAIT_MS)
                       (now + PLAYBACK_HARD_FALLBACK_MS) None None in
            markDirty PPlaybackPreparation
              (r <| playbackPreparation := Some p |> <| playbackStart := None |>)
        end
  end.

Definition holdPlaybackForPreparation (r : Room) : Room :=
  let r := endTemporaryPlaybackSpeed true r in
  let r := set_isPlaying false (r <| playbackStart := None |>) in
  let r := markDirty PIsPlaying (r <| resumeOnNextJoin := true |>) in
  prepareEmptyRoomPlayback r.

Definition restoreFromStorage (r : Room) : Room := r <| restoredFromStorage := true |>.

Definition holdEmptyPlaybackForJoin (skipForReconnect : bool) (r : Room) : Room :=
  if negb (bool_decide (realusers r = [])) || skipForReconnect ||
     (negb (isPlaying r) && negb (bufferingGateHeld r)) || negb (canPreparePlayback r)
  then r
  else
    let r := pausePlaybackClock (r <| bufferGate := None |>) in
    markDirty PIsPlaying (r <| resumeOnNextJoin := true |>).

Definition same_video (p : VideoId) (s : option QueueItem) : bool :=
  match s with Some s => VideoQueue.matches p s | None => false end.

(** [Math.abs(prepared.position - preparation.position) > 1], for a finite report. *)
Definition far_from (reported : num) (position : Q) : bool :=
  match reported with
  | Fin q => Qlt_bool q 0 || Qgt_bool (Qabs' (q - position)) 1
  | _ => true
  end.

Definition finishPlaybackPreparation (client : ClientId) (status : option PlayerStatus)
    (prepared : option PlaybackPrepared) (r : Room) : Room :=
  match playbackPreparation r, prepared with
  | Some p, Some rep =>
      if negb (match pp_id rep with Typed i => bool_decide (i = prep_id p) | IllTyped => false end) ||
         negb (bool_decide (client ∈ playbackEligibleIds r p)) ||
         negb (same_video (prep_video p) (currentSource r)) ||
         negb (Qeq_bool (playbackPosition r) (prep_position p)) || isPlaying r
      then r
      else if pp_failed rep || bool_decide (pp_visible rep = Some false)
      then dropPlaybackParticipant client r
      else if negb (bool_decide (status = Some StatusReady)) ||
              bool_decide (pp_firstFrame rep = Some false) ||
              far_from (pp_position rep) (prep_position p) || negb (readyBufferIsEnough p rep)
      then r
      else
        let p := p <| prep_ready ::= fun l =>
          List.filter (fun x => negb (bool_decide (ready_clientId x = client))) l ++
          [MkReady client true (pp_bufferAhead rep) now] |> in
        let r := markDirty PPlaybackPreparation (set_preparation p r) in
        if allEligibleReady r p then schedulePlaybackStart None r else r
  | _, _ => r
  end.

(** ** The queue, seen from the room: a dirty queue marks the room *)

Definition queue_op {A} (m : M VideoQueue exn A) : M Room exn A := fun r =>
  let '(res, q) := m (VideoQueue.clean (queue r)) in
  let r' := r <| queue := q <| q_dirty ::= orb (q_dirty (queue r)) |> |> in
  (res, if q_dirty q then markDirty PQueue r' else r').

(** The same for the two internal operations that cannot fail. *)
Definition queue_do {A} (m : M VideoQueue exn A) (r : Room) : Room := (queue_op m r).2.

Definition clearQueueItemTrim (v : QueueItem) : QueueItem :=
  v <| qi_startAt := None |> <| qi_endAt := None |>.

Definition votes_key (v : QueueItem) : string := qi_service v +:+ qi_id v.

(** The branch of [dequeueNext] that hands over the next queued item. *)
Definition dequeue_into_source (r : Room) : Room :=
  let next := head (items (queue r)) in
  let r := queue_do VideoQueue.dequeue r in
  let r := set_currentSource next r in
  let r := set_playbackPosition (default 0%Q (next ≫= qi_startAt)) r in
  let r := r <| playbackStart := Some now |> in
  let r := match videoSegments r with [] => r | _ => set_videoSegments [] r end in
  let r := match currentSource r with
           | Some s => markDirty PVoteCounts (r <| votes ::= map_delete (votes_key s) |>)
           | None => r
           end in
  if restoredFromStorage r then r <| playbackStart := None |>
  else if canHoldPlaybackForPreparation r then holdPlaybackForPreparation r
  else if negb (isPlaying r) then play r
  else r.

(** The branch that ends playback: the queue is empty. *)
Definition clear_source (r : Room) : Room :=
  match currentSource r with
  | None => r
  | Some _ =>
      let r := if isPlaying r then set_isPlaying false r else r in
      let r := set_playbackPosition 0 r in
      set_currentSource None (r <| playbackStart := Some now |>)
  end.

(** What follows the three branches: sponsorblock, segments, speed. *)
Definition dequeue_epilogue (r : Room) : Room :=
  let r := if conf_sponsorblock_enabled && negb (bool_decide (autoSkipSegmentCategories r = [])) &&
              bool_decide (is_Some (currentSource r))
           then r <| wantSponsorBlock := true |> else r in
  let r := match currentSource r, videoSegments r with
           | None, _ :: _ => set_videoSegments [] r
           | _, _ => r
           end in
  set_playbackSpeed 1 r.

(** Dj mode plays the current item again from its start. *)
Definition restart_current (v : QueueItem) (r : Room) : Room :=
  let r := set_currentSource (Some (clearQueueItemTrim v)) r in
  let r := set_playbackPosition 0 r in
  let r := r <| playbackStart := Some now |> in
  if negb (isPlaying r) then play r else r.

Definition dequeueNext (r : Room) : Room :=
  let r := releaseBufferGate false r in
  let r := if enableVoteSkip r then markDirty PVotesToSkip (r <| votesToSkip := ∅ |>) else r in
  match currentSource r, queueMode r with
  | Some v, Dj => restart_current v r
  | src, mode =>
      let r := match src, mode with
               | Some v, Loop => queue_do (VideoQueue.enqueueOverflow [Some (clearQueueItemTrim v)]) r
               | _, _ => r
               end in
      dequeue_epilogue
        (match items (queue r) with
         | [] => clear_source r
         | _ => dequeue_into_source r
         end)
  end.

(** ** Snapshots *)

(** [syncableState]: what a viewer gets on joining. *)
Definition syncableState (r : Room) : list (Prop_ * value) :=
  pick_state (realPlaybackPosition r) syncableProps r.

(** [queueSnapshot]: the current item with its position, then the queue. *)
Definition queueSnapshot (r : Room) : option (list QueueItem) :=
  let l := match currentSource r with
           | Some s => s <| qi_startAt := Some (realPlaybackPosition r) |> :: items (queue r)
           | None => items (queue r)
           end in
  match l with [] => prevQueue r | _ => Some l end.

Definition isVideoInQueue (vid : VideoId) (r : Room) : bool :=
  same_video vid (currentSource r) || VideoQueue.contains vid (queue r).

Definition getSegmentForTime (time : Q) (r : Room) : option Segment :=
  find (fun s => Qle_bool (seg_startTime s) time && Qle_bool time (seg_endTime s)) (videoSegments r).

End Playback.
