(* ===== verification/RoomRequests.v ===== *)
(** * RoomRequests: the request handlers and their dispatch

    Every request handler of the class [Room] ([server/room.ts]), [processRequest] and
    the two ways a request gets its context.  A handler runs as one computation; what
    it changed before a throw stays changed. *)

From Stdlib Require Import Ascii.
From S2P Require Import Prelude Types Permissions VideoQueue Subtitles RoomModel RoomPlayback.

Section Requests.
Context `{E : Env}.

Definition RM (A : Type) : Type := M Room exn A.

(** ** Shared steps *)

Definition check (role : Role) (permission : string) : RM unit :=
  r <- get ;; lift_res (Grants.check (grants r) role permission).

Definition need_info (client : ClientId) : RM RoomUserInfo :=
  r <- get ;;
  match getUserInfo r client with
  | Some info => ret info
  | None => throw (Error "Client not found")
  end.

Definition need_client (ctx : RequestContext) : RM ClientId :=
  match ctx_clientId ctx with
  | Some c => ret c
  | None => throw (Error "context.clientId was undefined")
  end.

Definition emit (request : RoomRequest) (ctx : RequestContext) (additional : EventContext) : RM unit :=
  modify (publishRoomEvent request ctx additional None).

Definition assertUsableSubtitleUrl (url : string) : RM unit :=
  match getSubtitleFormatFromUrl env_parseUrl url with
  | None => throw UnsupportedSubtitleType
  | Some _ =>
      if negb (isPublicSubtitleUrl env_parseUrl url) then throw UnsupportedSubtitleUrl
      else if env_assertPublicMediaUrl url then ret tt
      else throw UnsupportedSubtitleUrl
  end.

Definition usable_id (service_and_id : VideoId) : bool :=
  negb (bool_decide (vid_id service_and_id = "")) &&
  (String.length (vid_id service_and_id) <=? MAX_VIDEO_ID_LENGTH)%nat.

Definition assertUsableVideoId (video : wire VideoAdd) : RM VideoAdd :=
  match video with
  | Typed v => if usable_id (va_video_id v) then ret v else throw (BadApiArgument "video")
  | IllTyped => throw (BadApiArgument "video")
  end.

(** ** Playback *)

Definition playback (state : bool) (ctx : RequestContext) : RM unit :=
  modify (if state then play else pause false) ;;;
  emit (PlaybackRequest state) ctx no_context.

Definition toggle_skip_vote (client : ClientId) (r : Room) : Room :=
  let r := if decide (client ∈ votesToSkip r)
           then r <| votesToSkip ::= fun s => s ∖ {[client]} |>
           else r <| votesToSkip ::= fun s => {[client]} ∪ s |> in
  markDirty PVotesToSkip r.

Definition eligibleVoters (r : Room) : nat :=
  countEligibleVoters (omap (fun u => getUserInfo r (ru_id u)) (realusers r)) (grants r).

Definition skip (ctx : RequestContext) : RM unit :=
  r0 <- get ;;
  match currentSource r0 with
  | None => ret tt
  | Some current =>
      (if enableVoteSkip r0 then
         match truthy_string (ctx_clientId ctx) with
         | Some client => modify (toggle_skip_vote client)
         | None => ret tt
         end
       else ret tt) ;;;
      r <- get ;;
      let shouldSkip := if enableVoteSkip r
                        then (voteSkipThreshold (eligibleVoters r) <=? size (votesToSkip r))%nat
                        else true in
      when shouldSkip
        (let prevPosition := realPlaybackPosition r in
         modify dequeueNext ;;;
         emit SkipRequest ctx (MkEventContext (Some current) None (Some prevPosition) None None) ;;;
         modify (set_videoSegments []))
  end.

Definition seek (value : jsval) (ctx : RequestContext) : RM unit :=
  match value with
  | JUndefined | JNull => ret tt
  | JNumber (Fin q) =>
      if Qlt_bool q 0 || Qgt_bool q MAX_SEEK_SECONDS then throw (BadApiArgument "value")
      else
        prev <- gets realPlaybackPosition ;;
        modify (seekRaw q) ;;;
        emit (SeekRequest value) ctx (MkEventContext None None (Some prev) None None) ;;;
        modify (fun r => r <| dontSkipSegmentsUntil := seg_endTime <$> getSegmentForTime (playbackPosition r) r |>)
  | _ => throw (BadApiArgument "value")
  end.

Definition setPlaybackSpeed (speed : num) : RM unit :=
  match speed with
  | Fin q =>
      if Qlt_bool q (1 # 4) || Qgt_bool q 4 then throw (BadApiArgument "speed")
      else modify (fun r =>
             set_playbackSpeed q (flushPlaybackPosition (endTemporaryPlaybackSpeed false r)))
  | _ => throw (BadApiArgument "speed")
  end.

Definition gesture_char (c : ascii) : bool :=
  let n := nat_of_ascii c in
  (((97 <=? n) && (n <=? 122)) || ((65 <=? n) && (n <=? 90)) || ((48 <=? n) && (n <=? 57)) ||
   (n =? 95) || (n =? 45))%nat.

(** [TEMPORARY_PLAYBACK_GESTURE_ID_REGEX]. *)
Definition gesture_id_ok (s : string) : bool :=
  ((1 <=? String.length s) && (String.length s <=? 64))%nat && str_forall gesture_char s.

Definition owns_gesture (r : Room) (client : ClientId) (gesture : string) : bool :=
  match temporarySpeed r with
  | Some t => bool_decide (ts_clientId t = client) && bool_decide (ts_gestureId t = gesture)
  | None => false
  end.

Definition begin_temporary_speed (client : ClientId) (gesture : string) (r : Room) : Room :=
  let r := flushPlaybackPosition r in
  let r := r <| temporarySpeed :=
             Some (MkTemporarySpeed client gesture TEMPORARY_PLAYBACK_SPEED (playbackSpeed r)) |> in
  let r := set_playbackSpeed TEMPORARY_PLAYBACK_SPEED r in
  renewTemporaryPlaybackSpeed (markDirty PTemporaryPlaybackSpeed r).

Definition setTemporaryPlaybackSpeed (action : GestureAction) (gestureId : wire string)
    (video : option VideoId) (ctx : RequestContext) : RM unit :=
  match gestureId with
  | IllTyped => throw (BadApiArgument "gesture")
  | Typed gesture =>
      if negb (gesture_id_ok gesture) || bool_decide (action = GestureOther)
      then throw (BadApiArgument "gesture")
      else
        r <- get ;;
        match truthy_string (ctx_clientId ctx) with
        | None => throw ClientNotFoundInRoom
        | Some client =>
            if negb (bool_decide (is_Some (getUser r client))) then throw ClientNotFoundInRoom
            else
              let owns := owns_gesture r client gesture in
              match action with
              | GestureStop => modify (fun r => if owns then endTemporaryPlaybackSpeed true r else r)
              | GestureRenew =>
                  check (ctx_role ctx) "playback.speed" ;;;
                  modify (fun r => if owns then renewTemporaryPlaybackSpeed r else r)
              | _ =>
                  check (ctx_role ctx) "playback.speed" ;;;
                  if (negb (isPlaying r) && negb (bufferingGateHeld r)) ||
                     match currentSource r, video with
                     | Some s, Some v => negb (finite_positive (qi_length s)) || negb (VideoQueue.matches v s)
                     | _, _ => true
                     end ||
                     bool_decide (is_Some (temporarySpeed r))
                  then ret tt
                  else modify (fun r =>
                         let r := releaseBufferGate false r in
                         if isPlaying r then begin_temporary_speed client gesture r else r)
              end
        end
  end.

(** ** The queue *)

(** The loop over a batch: an absent video throws, a bad subtitle throws, a video that is
    already queued is dropped. *)
Fixpoint filter_batch (videos : list (option QueueItem)) : RM (list QueueItem) :=
  match videos with
  | [] => ret []
  | None :: _ => throw (Error "video was undefined")
  | Some v :: rest =>
      match truthy_string (qi_subtitleUrl v) with
      | Some url => assertUsableSubtitleUrl url
      | None => ret tt
      end ;;;
      dup <- gets (isVideoInQueue (video_id_of v)) ;;
      vs <- filter_batch rest ;;
      ret (if dup then vs else v :: vs)
  end.

Definition add_one (v : VideoAdd) (request : AddRequest) (ctx : RequestContext) : RM unit :=
  dup <- gets (isVideoInQueue (va_video_id v)) ;;
  if dup : bool then throw VideoAlreadyQueued
  else
    info <- lift_res (env_getVideoInfo (va_video_id v)) ;;
    match info with
    | None => throw (Error "video was undefined")
    | Some video =>
        video <- match truthy_string (va_subtitleUrl v) with
                 | Some url => assertUsableSubtitleUrl url ;;; ret (video <| qi_subtitleUrl := Some url |>)
                 | None => ret video
                 end ;;
        queue_op (VideoQueue.enqueue [Some video]) ;;;
        modify (set_prevQueue None) ;;;
        emit (ReqAdd (MkAddRequest (Some (Typed v)) (add_videos request) (add_url request))) ctx
          (MkEventContext (Some video) None None None None)
    end.

Fixpoint assert_batch (videos : list (wire VideoAdd)) : RM (list VideoAdd) :=
  match videos with
  | [] => ret []
  | w :: rest => v <- assertUsableVideoId w ;; vs <- assert_batch rest ;; ret (v :: vs)
  end.

Definition addToQueue (request : AddRequest) (ctx : RequestContext) : RM unit :=
  match add_url request with
  | Some IllTyped => throw (BadApiArgument "url")
  | Some (Typed u) => when (MAX_VIDEO_ID_LENGTH <? String.length u)%nat (throw (BadApiArgument "url"))
  | None => ret tt
  end ;;;
  video <- match add_video request with
           | Some w => v <- assertUsableVideoId w ;; ret (Some v)
           | None => ret None
           end ;;
  batch <- match add_videos request with
           | Some IllTyped => throw (BadApiArgument "videos")
           | Some (Typed l) => vs <- assert_batch l ;; ret (Some vs)
           | None => ret None
           end ;;
  let url := match add_url request with Some (Typed u) => truthy_string (Some u) | _ => None end in
  let requestedItems := match batch with
                        | Some l => length l
                        | None => match video, url with None, None => 0%nat | _, _ => 1%nat end
                        end in
  r <- get ;;
  when ((1 <=? requestedItems) && (MAX_QUEUE_ITEMS <? length (items (queue r)) + requestedItems))%nat
    (throw (BadApiArgument "queue")) ;;;
  video <- match url with
           | Some u =>
               vid <- lift_res (env_adapterVideoId u) ;;
               v <- assertUsableVideoId (Typed (MkVideoAdd (vid_service vid) (vid_id vid) None None None)) ;;
               ret (Some v)
           | None => ret video
           end ;;
  match video, batch with
  | Some v, _ => add_one v request ctx
  | None, Some l =>
      infos <- lift_res (env_getManyVideoInfo l) ;;
      videos <- filter_batch infos ;;
      match videos with
      | [] => throw VideoAlreadyQueued
      | _ =>
          queue_op (VideoQueue.enqueue (Some <$> videos)) ;;;
          emit (ReqAdd request) ctx (MkEventContext None (Some videos) None None None)
      end
  | None, None => ret tt
  end.

(** An absent [subtitleUrl] leaves the track, anything but a non-empty string clears it. *)
Definition updateQueueItem (video : VideoId) (subtitle : option (option string))
    (ctx : RequestContext) : RM unit :=
  patch <- match subtitle with
           | None => ret (MkPatch None None None)
           | Some s =>
               match truthy_string s with
               | Some url => assertUsableSubtitleUrl url ;;; ret (MkPatch None None (Some (Some url)))
               | None => ret (MkPatch None None (Some None))
               end
           end ;;
  queue_op (VideoQueue.update video patch) ;;;
  emit (UpdateQueueItemRequest video subtitle) ctx no_context.

Definition vid_key (v : VideoId) : string := vid_service v +:+ vid_id v.

Definition removeFromQueue (video : VideoId) (ctx : RequestContext) : RM unit :=
  present <- gets (fun r => VideoQueue.contains video (queue r)) ;;
  if negb present then throw VideoNotFound
  else
    removed <- queue_op (VideoQueue.evict video) ;;
    modify (fun r => markDirty PVoteCounts (r <| votes ::= map_delete (vid_key video) |>)) ;;;
    emit (RemoveRequest video) ctx
      (MkEventContext (Some (snd removed)) None None (Some (Z.of_nat (fst removed))) None).

Definition reorderQueue (fromIdx toIdx : num) : RM unit :=
  match as_integer fromIdx, as_integer toIdx with
  | Some i, Some j =>
      if (i <? 0) || (j <? 0) then throw (BadApiArgument "indices")
      else queue_op (VideoQueue.move i j)
  | _, _ => throw (BadApiArgument "indices")
  end.

Definition vote_set (r : Room) (key : string) : option (gset ClientId) := map_get key (votes r).

Definition vote (video : VideoId) (add : bool) (ctx : RequestContext) : RM unit :=
  match truthy_string (ctx_clientId ctx) with
  | None => throw (OttException "Can't vote if not connected to room.")
  | Some client =>
      present <- gets (fun r => VideoQueue.contains video (queue r)) ;;
      if negb present then throw VideoNotFound
      else
        modify (fun r =>
          let key := vid_key video in
          let r := match vote_set r key with
                   | Some s =>
                       r <| votes ::= map_set key (if add then {[client]} ∪ s else s ∖ {[client]}) |>
                   | None => if add then r <| votes ::= map_set key {[client]} |> else r
                   end in
          markDirty PVoteCounts r)
  end.

Definition shuffle (ctx : RequestContext) : RM unit :=
  check (ctx_role ctx) "manage-queue.order" ;;;
  queue_op VideoQueue.shuffle.

Definition restoreQueue (discard : bool) (ctx : RequestContext) : RM unit :=
  check (ctx_role ctx) (if discard then "manage-queue.remove" else "manage-queue.add") ;;;
  r <- get ;;
  match prevQueue r with
  | None => throw (Error "No previous queue to restore")
  | Some prev =>
      if discard then modify (set_prevQueue None)
      else if (MAX_QUEUE_ITEMS <? length (items (queue r)) + length prev)%nat
      then throw (BadApiArgument "queue")
      else
        queue_op (VideoQueue.enqueue (Some <$> prev)) ;;;
        modify (set_prevQueue None)
  end.

(** The current item's own [startAt] is overwritten in place; no setter runs. *)
Definition replace_current (cur : QueueItem) (r : Room) : Room := r <| currentSource := Some cur |>.

(** The part of [playNow] that puts the chosen video on. *)
Definition put_on (video : QueueItem) (r : Room) : Room :=
  let r := markDirty PQueue (set_currentSource (Some video) r) in
  let r := set_videoSegments [] ((set_playbackPosition 0 r) <| playbackStart := Some now |>) in
  let r := if canHoldPlaybackForPreparation r then holdPlaybackForPreparation r
           else if negb (isPlaying r) then play r else r in
  if bool_decide (autoSkipSegmentCategories r = []) then r else r <| wantSponsorBlock := true |>.

Definition playNow (video : wire VideoAdd) (ctx : RequestContext) : RM unit :=
  v <- assertUsableVideoId video ;;
  let vid := va_video_id v in
  r <- get ;;
  if same_video vid (currentSource r) then ret tt
  else
    let alreadyInQueue := isVideoInQueue vid r in
    (if alreadyInQueue then check (ctx_role ctx) "manage-queue.order"
     else check (ctx_role ctx) "manage-queue.add" ;;;
          when (MAX_QUEUE_ITEMS <=? length (items (queue r)))%nat (throw (BadApiArgument "queue"))) ;;;
    match truthy_string (va_subtitleUrl v) with
    | Some url => assertUsableSubtitleUrl url
    | None => ret tt
    end ;;;
    item <- (if alreadyInQueue
             then removed <- queue_op (VideoQueue.evict vid) ;; ret (snd removed)
             else info <- lift_res (env_getVideoInfo vid) ;;
                  match info with
                  | Some i => ret i
                  | None => throw (Error "Cannot read properties of undefined")
                  end) ;;
    let item := match truthy_string (va_subtitleUrl v) with
                | Some url => item <| qi_subtitleUrl := Some url |>
                | None => item
                end in
    r <- get ;;
    match currentSource r with
    | Some cur =>
        let cur := cur <| qi_startAt := Some (realPlaybackPosition r) |> in
        modify (replace_current cur) ;;;
        queue_op (VideoQueue.pushTop [Some cur])
    | None => ret tt
    end ;;;
    modify (put_on item).

(** ** People *)

Definition sessionInRoom (r : Room) (token : AuthToken) (except : option ClientId) : bool :=
  existsb (fun u => bool_decide (ru_token u = token) &&
                    negb (match except with Some c => bool_decide (ru_id u = c) | None => false end))
    (realusers r).

(** [noteJoin]: whether the join continues an earlier session; a waiting leave event of
    that session is cancelled. *)
Definition noteJoin (token : AuthToken) (client : ClientId) (r : Room) : bool * Room :=
  match map_get token (pendingLeaveEvents r) with
  | Some _ => (true, r <| pendingLeaveEvents ::= map_delete token |>)
  | None => (sessionInRoom r token (Some client), r)
  end.

Definition resume_for_join (reconnect : bool) (role : Role) (r : Room) : Room :=
  if reconnect && resumeOnNextJoin r && is_solo r &&
     Grants.granted (grants r) role "playback.play-pause" && canPreparePlayback r
  then
    let r := markDirty PIsPlaying (r <| resumeOnNextJoin := false |>) in
    markDirty PPlaybackPosition (play r)
  else prepareEmptyRoomPlayback r.

Definition announce_join (info : ClientInfo) (reconnect : bool) (ctx : RequestContext)
    (token : AuthToken) (r : Room) : Room :=
  let '(resumed, r) := noteJoin token (ci_id info) r in
  if resumed then r
  else publishRoomEvent (JoinRequest info reconnect) ctx no_context None r.

Definition joinRoom (info : ClientInfo) (reconnect : bool) (ctx : RequestContext) : RM unit :=
  match truthy_string (ctx_token ctx) with
  | None => throw (Error "No auth token")
  | Some token =>
      modify (holdEmptyPlaybackForJoin reconnect) ;;;
      user <- lift_res (match updateInfo info (MkRoomUser (ci_id info) token None "" None StatusNone) with
                        | (inr _, u) => inr u
                        | (inl e, _) => inl e
                        end) ;;
      modify (fun r => r <| realusers ::= fun l => l ++ [user] |>) ;;;
      modify (resume_for_join reconnect (ctx_role ctx)) ;;;
      modify (announce_join info reconnect ctx token) ;;;
      joined <- need_info (ci_id info) ;;
      modify (syncUser joined)
  end.

Definition LEAVE_EVENT_GRACE_MS : Z := 5000.

Definition publishLeaveEvent (ctx : RequestContext) (user : RoomUserInfo)
    (token : option AuthToken) (r : Room) : Room :=
  match truthy_string token with
  | None => publishRoomEvent LeaveRequest ctx (MkEventContext None None None None (Some user)) None r
  | Some t =>
      if sessionInRoom r t (ctx_clientId ctx) then r
      else r <| pendingLeaveEvents ::= map_set t (MkPendingLeave (now + LEAVE_EVENT_GRACE_MS) ctx user) |>
  end.

(** ** Background synchronisation *)

(** The dirty keys that put something into the row update of [syncDirty]. *)
Definition persistent (p : Prop_) : bool :=
  bool_decide (p ∈ [PTitle; PDescription; PVisibility; PQueueMode; PAutoSkip; PGrants; PPrevQueue;
    PRestoreQueueBehavior; PEnableVoteSkip; PBufferGateMode; PDanmakuSource; PHasOwner; PQueue;
    PCurrentSource; PIsPlaying; PPlaybackPosition]).

Definition cleanDirty (r : Room) : Room := r <| dirty := [] |> <| queue ::= VideoQueue.clean |>.

Definition sync : RM unit :=
  r <- get ;;
  match dirty r with
  | [] => ret tt
  | props =>
      modify cleanDirty ;;;
      modify (publish (PublishSync (MkSync (pick_state (realPlaybackPosition r) props r)))) ;;;
      if negb (isTemporary r) && existsb persistent props && negb env_storageOk
      then
        modify (fun r => r <| dirty ::= fun l => fold_left (fun acc p => set_add p acc) props l |>) ;;;
        throw (Error "Failed to persist permanent room state")
      else ret tt
  end.

(** What the last viewer's departure leaves behind, up to the checkpoint. *)
Definition settle_empty_room (r : Room) : Room :=
  let shouldResume := isPlaying r || bufferingGateHeld r ||
                      bool_decide (is_Some (playbackPreparation r)) || resumeOnNextJoin r in
  let r := releaseBufferGate false r in
  let r := cancelPlaybackPreparation (pausePlaybackClock r) in
  let r := r <| resumeOnNextJoin := shouldResume && canPreparePlayback r |> in
  (markDirty PIsPlaying r) <| keepAlivePing := now |>.

(** The round is rebuilt when one of its viewers leaves. *)
Definition rebuild_round (client : ClientId) (r : Room) : Room :=
  match playbackPreparation r with
  | Some p =>
      if decide (client ∈ prep_eligible p) then
        let r := cancelPlaybackPreparation r in
        prepareEmptyRoomPlayback (markDirty PIsPlaying (r <| resumeOnNextJoin := true |>))
      else r
  | None => r
  end.

Definition drop_votes (client : ClientId) (r : Room) : Room :=
  let r := if enableVoteSkip r
           then markDirty PVotesToSkip (r <| votesToSkip ::= fun s => s ∖ {[client]} |>)
           else r in
  if bool_decide (queueMode r = Vote) then
    let voted := existsb (fun kv => bool_decide (client ∈ kv.2)) (votes r) in
    let r := r <| votes ::= map (fun kv => (kv.1, kv.2 ∖ {[client]})) |> in
    if voted then markDirty PVoteCounts r else r
  else r.

Fixpoint remove_first (p : RoomUser -> bool) (l : list RoomUser) : list RoomUser :=
  match l with
  | [] => []
  | u :: l' => if p u then l' else u :: remove_first p l'
  end.

Definition remove_user (client : ClientId) (r : Room) : Room :=
  r <| realusers ::= remove_first (fun u => bool_decide (ru_id u = client)) |>.

Definition leaveRoom (ctx : RequestContext) : RM unit :=
  client <- need_client ctx ;;
  modify (fun r => match temporarySpeed r with
                   | Some t => if decide (ts_clientId t = client) then endTemporaryPlaybackSpeed true r else r
                   | None => r
                   end) ;;;
  removed <- need_info client ;;
  modify (fun r => publishLeaveEvent ctx removed (ru_token <$> getUser r client) r) ;;;
  modify (drop_votes client) ;;;
  modify (remove_user client) ;;;
  r <- get ;;
  (if bool_decide (realusers r = [])
   then modify settle_empty_room ;;; sync
   else modify (rebuild_round client)) ;;;
  modify evaluateBufferGate.

(** Replace the user found by id. *)
Definition set_user (client : ClientId) (u' : RoomUser) (r : Room) : Room :=
  r <| realusers ::= fun l =>
    match List.find (fun u => bool_decide (ru_id u = client)) l with
    | Some _ => (fix go l := match l with
                             | [] => []
                             | u :: rest => if decide (ru_id u = client) then u' :: rest else u :: go rest
                             end) l
    | None => l
    end |>.

Definition updateUser (info : ClientInfo) (prepared : option PlaybackPrepared) : RM unit :=
  r <- get ;;
  match getUser r (ci_id info) with
  | None => ret tt
  | Some u =>
      let '(res, u') := updateInfo info u in
      modify (set_user (ci_id info) u') ;;;
      lift_res res ;;;
      modify (fun r => match ci_status info with
                       | Some st => if decide (st = StatusBuffering) then r
                                    else r <| bufferGateExhausted ::= fun s => s ∖ {[ci_id info]} |>
                       | None => r
                       end) ;;;
      shown <- need_info (ci_id info) ;;
      modify (syncUser shown) ;;;
      modify (finishPlaybackPreparation (ci_id info) (ci_status info) prepared)
  end ;;;
  modify evaluateBufferGate.

Definition chat (text : wire string) (ctx : RequestContext) : RM unit :=
  client <- need_client ctx ;;
  match text with
  | IllTyped => throw (BadApiArgument "text")
  | Typed t =>
      if (MAX_CHAT_MESSAGE_LENGTH <? String.length t)%nat then throw (BadApiArgument "text")
      else user <- need_info client ;; modify (publish (PublishChat user t))
  end.

Definition kickUser (target : ClientId) (ctx : RequestContext) : RM unit :=
  r <- get ;;
  match getUser r target with
  | None => throw ClientNotFoundInRoom
  | Some u => if canKickUser (ctx_role ctx) (getRole r u) then modify (publish (CommandKick target)) else ret tt
  end.

(** ** Notes *)

Definition is_space (c : ascii) : bool :=
  let n := nat_of_ascii c in (((9 <=? n) && (n <=? 13)) || (n =? 32) || (n =? 160))%nat.

Fixpoint trim_left (s : string) : string :=
  match s with
  | String c s' => if is_space c then trim_left s' else s
  | EmptyString => EmptyString
  end.

Fixpoint trim_right (s : string) : string :=
  match s with
  | EmptyString => EmptyString
  | String c s' =>
      match trim_right s' with
      | EmptyString => if is_space c then EmptyString else String c EmptyString
      | t => String c t
      end
  end.

Definition trim (s : string) : string := trim_right (trim_left s).

Definition publishNotes : RM unit := modify (fun r => publish (PublishNotes (db_notes r)) r).

(** The row the notes table gets: the next id, the author's name, the instant. *)
Definition insert_note (author text : string) (r : Room) : Room :=
  r <| db_notes ::= fun l => l ++ [MkNote (db_nextNoteId r) author text now] |>
    <| db_nextNoteId ::= Z.succ |>.

Definition destroy_note (n : Z) (r : Room) : Room :=
  r <| db_notes ::= List.filter (fun x => negb (note_id x =? n)) |>.

(** [addNote] up to its count of the notes: what is to be stored, if anything. *)
Definition addNote_check (text : wire string) (ctx : RequestContext) : RM (option (ClientId * string)) :=
  r <- get ;;
  if isTemporary r then throw FeatureDisabled
  else
    client <- need_client ctx ;;
    let t := match text with Typed s => trim s | IllTyped => "" end in
    if (String.length t =? 0)%nat then ret None
    else if (MAX_NOTE_LENGTH <? String.length t)%nat then throw NoteTooLong
    else if (MAX_NOTES_PER_ROOM <=? length (db_notes r))%nat then throw TooManyNotes
    else ret (Some (client, t)).

(** The rest, after the wait for that count. *)
Definition addNote_store (note : ClientId * string) : RM unit :=
  user <- need_info note.1 ;;
  modify (insert_note (ui_name user) note.2) ;;;
  publishNotes.

Definition addNote (text : wire string) (ctx : RequestContext) : RM unit :=
  note <- addNote_check text ctx ;;
  match note with Some n => addNote_store n | None => ret tt end.

Definition deleteNote (noteId : num) : RM unit :=
  r <- get ;;
  if isTemporary r then throw FeatureDisabled
  else
    match as_integer noteId with
    | None => throw (BadApiArgument "noteId")
    | Some n =>
        if existsb (fun x => note_id x =? n) (db_notes r) then
          modify (destroy_note n) ;;;
          publishNotes
        else throw NoteNotFound
    end.

(** ** Roles *)

Definition promote_permission (role : Role) : option string :=
  if role =? Administrator then Some "manage-users.promote-admin"
  else if role =? Moderator then Some "manage-users.promote-moderator"
  else if role =? TrustedUser then Some "manage-users.promote-trusted-user"
  else None.

Definition demote_permission (role : Role) : option string :=
  if role =? Administrator then Some "manage-users.demote-admin"
  else if role =? Moderator then Some "manage-users.demote-moderator"
  else if role =? TrustedUser then Some "manage-users.demote-trusted-user"
  else None.

(** The id moves from every role set it is in to the set of the new role. *)
Definition set_role (uid : Z) (role : Role) (r : Room) : Room :=
  let r := r <| userRoles ::= map (fun kv => if (TrustedUser <=? kv.1) && (kv.1 <=? Administrator)
                                             then (kv.1, kv.2 ∖ {[uid]}) else kv) |> in
  match map_get role (userRoles r) with
  | Some s => if TrustedUser <=? role then r <| userRoles ::= map_set role ({[uid]} ∪ s) |> else r
  | None => r
  end.

Definition promoteUser (target : ClientId) (role : num) (ctx : RequestContext) : RM unit :=
  match as_integer role with
  | None => throw (BadApiArgument "role")
  | Some role =>
      if (role <? RegisteredUser) || (Administrator <? role) then throw (BadApiArgument "role")
      else
        r <- get ;;
        match getUser r target with
        | None => throw (OttException "Client not found.")
        | Some u =>
            match promote_permission role with
            | Some perm => check (ctx_role ctx) perm
            | None => ret tt
            end ;;;
            let current := getRole r u in
            (if role <? current then
               match demote_permission current with
               | Some perm => check (ctx_role ctx) perm
               | None => throw ImpossiblePromotion
               end
             else ret tt) ;;;
            if (current =? UnregisteredUser) || (current =? Owner) then throw ImpossiblePromotion
            else
              modify (fun r => match ru_user_id u with
                               | Some uid => set_role uid role r
                               | None => r
                               end) ;;;
              info <- need_info target ;;
              modify (syncUser info)
        end
  end.

(** ** Settings *)

Definition setting_permission (s : SettingUpdate) : option string :=
  match s with
  | STitle _ => Some "configure-room.set-title"
  | SDescription _ => Some "configure-room.set-description"
  | SVisibility _ => Some "configure-room.set-visibility"
  | SQueueMode _ => Some "configure-room.set-queue-mode"
  | SAutoSkip _ | SRestoreQueue _ | SEnableVoteSkip _ | SBufferGate _ => Some "configure-room.other"
  | SDanmaku _ => Some "configure-room.set-danmaku-source"
  | SGrants _ => None
  end.

Definition role_permission (role : Role) : option string :=
  if role =? UnregisteredUser then Some "configure-room.set-permissions.for-all-unregistered-users"
  else if role =? RegisteredUser then Some "configure-room.set-permissions.for-all-registered-users"
  else if role =? TrustedUser then Some "configure-room.set-permissions.for-trusted-users"
  else if role =? Moderator then Some "configure-room.set-permissions.for-moderator"
  else None.

(** [this[prop] === settings[prop]]: values by value, objects by identity (so only the
    two [null]s of [danmakuSource] can be equal). *)
Definition setting_unchanged (r : Room) (s : SettingUpdate) : bool :=
  match s with
  | STitle v => bool_decide (title r = v)
  | SDescription v => bool_decide (description r = v)
  | SVisibility v => bool_decide (visibility r = v)
  | SQueueMode v => bool_decide (queueMode r = v)
  | SRestoreQueue v => bool_decide (restoreQueueBehavior r = v)
  | SEnableVoteSkip v => bool_decide (enableVoteSkip r = v)
  | SBufferGate v => bool_decide (bufferGateMode r = v)
  | SDanmaku v => bool_decide (v = None) && bool_decide (danmakuSource r = None)
  | SAutoSkip _ | SGrants _ => false
  end.

(** The roles a grants patch really changes. *)
Definition trim_grants (r : Room) (g : Grants) : Grants :=
  fold_left (fun g' role =>
    match role_permission role with
    | Some _ => if bool_decide (Grants.getMask g' role = Grants.getMask (grants r) role)
                then Grants.deleteRole role g' else g'
    | None => Grants.deleteRole role g'
    end) (Grants.getRoles g) g.

Definition trim_settings (r : Room) (l : list SettingUpdate) : list SettingUpdate :=
  omap (fun s =>
    match s with
    | SGrants g => let g' := trim_grants r g in if Grants.isEmpty g' then None else Some (SGrants g')
    | _ => if setting_unchanged r s then None else Some s
    end) l.

Definition check_setting (role : Role) (s : SettingUpdate) : RM unit :=
  match setting_permission s with Some p => check role p | None => ret tt end.

Definition check_grants (role : Role) (s : SettingUpdate) : RM unit :=
  match s with
  | SGrants g => mapM_ (fun target => match role_permission target with
                                      | Some p => check role p
                                      | None => ret tt
                                      end) (Grants.getRoles g)
  | _ => ret tt
  end.

Definition same_categories (a b : list string) : bool :=
  forallb (fun x => bool_decide (x ∈ b)) a && forallb (fun x => bool_decide (x ∈ a)) b.

Definition normalize_setting (r : Room) (s : SettingUpdate) : SettingUpdate :=
  match s with
  | SAutoSkip v =>
      if same_categories v (autoSkipSegmentCategories r) then s
      else SAutoSkip (List.filter (fun c => bool_decide (c ∈ v)) ALL_SKIP_CATEGORIES)
  | _ => s
  end.

Definition auto_skip_changed (r : Room) (l : list SettingUpdate) : bool :=
  existsb (fun s => match s with
                    | SAutoSkip v => negb (same_categories v (autoSkipSegmentCategories r))
                    | _ => false
                    end) l.

Definition sets_private (l : list SettingUpdate) : bool :=
  existsb (fun s => match s with SVisibility Private => true | _ => false end) l.

(** [this[prop] = value]; [restoreQueueBehavior] is a plain field with no setter. *)
Definition apply_setting (s : SettingUpdate) (r : Room) : Room :=
  match s with
  | STitle v => markDirty PTitle (r <| title := v |>)
  | SDescription v => markDirty PDescription (r <| description := v |>)
  | SVisibility v => markDirty PVisibility (r <| visibility := v |>)
  | SQueueMode v => markDirty PQueueMode (r <| queueMode := v |>)
  | SAutoSkip v => markDirty PAutoSkip (r <| autoSkipSegmentCategories := v |>)
  | SRestoreQueue v => r <| restoreQueueBehavior := v |>
  | SEnableVoteSkip v => markDirty PEnableVoteSkip (r <| enableVoteSkip := v |>)
  | SBufferGate v => markDirty PBufferGateMode (r <| bufferGateMode := v |>)
  | SDanmaku v => markDirty PDanmakuSource (r <| danmakuSource := v |>)
  | SGrants _ => r
  end.

(** Run a computation on the room's [Grants] object. *)
Definition grants_op (m : M Grants exn unit) : RM unit := fun r =>
  let '(res, g) := m (grants r) in (res, r <| grants := g |>).

Definition apply_grants (s : SettingUpdate) : RM unit :=
  match s with
  | SGrants g =>
      mapM_ (fun role => match role_permission role with
                         | Some _ =>
                             grants_op (Grants.setRoleGrants role (PMask (Grants.mask_of g role))) ;;;
                             modify (markDirty PGrants)
                         | None => ret tt
                         end) (Grants.getRoles g)
  | _ => ret tt
  end.

Definition applySettings (settings : list SettingUpdate) (ctx : RequestContext) : RM unit :=
  r <- get ;;
  let settings := trim_settings r settings in
  mapM_ (check_setting (ctx_role ctx)) settings ;;;
  mapM_ (check_grants (ctx_role ctx)) settings ;;;
  let changed := auto_skip_changed r settings in
  let settings := map (normalize_setting r) settings in
  if sets_private settings && negb (bool_decide (is_Some (truthy_string (passwordHash r))))
  then throw (BadApiArgument "visibility")
  else
    modify (fun r => fold_left (fun r s => apply_setting s r) settings r) ;;;
    mapM_ apply_grants settings ;;;
    modify (fun r =>
      let r := if changed && negb (bool_decide (autoSkipSegmentCategories r = [])) &&
                  bool_decide (videoSegments r = []) && bool_decide (is_Some (currentSource r))
               then r <| wantSponsorBlock := true |> else r in
      evaluateBufferGate r).

Definition setGrants (entries : list (Role * Z)) : RM unit :=
  grants_op (Grants.setAllGrants entries) ;;;
  modify (fun r => evaluateBufferGate (markDirty PGrants r)).

(** ** Dispatch *)

Definition required_permission (t : RequestType) : option string :=
  match t with
  | TPlayback => Some "playback.play-pause"
  | TSkip => Some "playback.skip"
  | TSeek => Some "playback.seek"
  | TAdd => Some "manage-queue.add"
  | TUpdateQueueItem => Some "manage-queue.edit"
  | TRemove => Some "manage-queue.remove"
  | TOrder => Some "manage-queue.order"
  | TVote => Some "manage-queue.vote"
  | TChat => Some "chat"
  | TPlayNow => Some "manage-queue.play-now"
  | TShuffle => Some "manage-queue.order"
  | TPlaybackSpeed => Some "playback.speed"
  | TKick => Some "manage-users.kick"
  | TAddNote | TDeleteNote => Some "configure-room.set-notes"
  | TJoin | TLeave | TPromote | TUpdateUser | TUndo | TApplySettings | TRestoreQueue
  | TTemporarySpeed => None
  end.

(** The handlers; undo is passed in because it calls back into the dispatcher. *)
Definition handle (undo : option UndoEcho -> RequestContext -> RM unit)
    (request : RoomRequest) (ctx : RequestContext) : RM unit :=
  match request with
  | JoinRequest info reconnect => joinRoom info reconnect ctx
  | LeaveRequest => leaveRoom ctx
  | PlaybackRequest state => playback state ctx
  | SkipRequest => skip ctx
  | SeekRequest value => seek value ctx
  | ReqAdd a => addToQueue a ctx
  | RemoveRequest video => removeFromQueue video ctx
  | OrderRequest fromIdx toIdx => reorderQueue fromIdx toIdx
  | VoteRequest video add => vote video add ctx
  | PromoteRequest target role => promoteUser target role ctx
  | UpdateUser info prepared => updateUser info prepared
  | ChatRequest text => chat text ctx
  | UndoRequest event => undo event ctx
  | ApplySettingsRequest settings => applySettings settings ctx
  | PlayNowRequest video => playNow video ctx
  | ShuffleRequest => shuffle ctx
  | PlaybackSpeedRequest speed => setPlaybackSpeed speed
  | RestoreQueueRequest discard => restoreQueue discard ctx
  | KickRequest target => kickUser target ctx
  | UpdateQueueItemRequest video subtitle => updateQueueItem video subtitle ctx
  | TemporaryPlaybackSpeedRequest action gesture video => setTemporaryPlaybackSpeed action gesture video ctx
  | AddNoteRequest text => addNote text ctx
  | DeleteNoteRequest noteId => deleteNote noteId
  end.

Definition dispatch (undo : option UndoEcho -> RequestContext -> RM unit)
    (request : RoomRequest) (ctx : RequestContext) : RM unit :=
  match required_permission (request_type request) with
  | Some permission => check (ctx_role ctx) permission
  | None => ret tt
  end ;;;
  handle undo request ctx.

(** ** Undo *)

Definition video_add_eqb (a b : VideoAdd) : bool :=
  bool_decide (va_video_id a = va_video_id b) &&
  option_eqb Qeq_bool (va_startAt a) (va_startAt b) &&
  option_eqb num_eqb (va_endAt a) (va_endAt b) &&
  bool_decide (va_subtitleUrl a = va_subtitleUrl b).

(** The fields undo compares: the type, three fields of the context, the request's video.
    [isEqual] tells an own key that is [undefined] from an absent one, and an echo comes out of
    JSON: an event that JSON does not carry unchanged equals no echo. *)
Definition echoes (e : UndoEcho) (ev : ServerMessageEvent) : bool :=
  bool_decide (request_type (ev_request ev) = echo_type e) &&
  option_eqb item_eqb (ec_video (ev_additional ev)) (echo_addVideo e) &&
  option_eqb Qeq_bool (ec_prevPosition (ev_additional ev)) (echo_prevPosition e) &&
  bool_decide (ec_queueIdx (ev_additional ev) = echo_queueIdx e) &&
  option_eqb video_add_eqb (request_video (ev_request ev)) (echo_video e) &&
  ev_carried ev.

Definition findRecentEvent (e : UndoEcho) (r : Room) : option ServerMessageEvent :=
  find (echoes e) (recentEvents r).

Definition no_undo (e : option UndoEcho) (ctx : RequestContext) : RM unit := ret tt.

Definition undo_skip (ev : ServerMessageEvent) (ctx : RequestContext) : RM unit :=
  check (ctx_role ctx) "playback.skip" ;;;
  check (ctx_role ctx) "playback.seek" ;;;
  check (ctx_role ctx) "manage-queue.add" ;;;
  check (ctx_role ctx) "manage-queue.play-now" ;;;
  r <- get ;;
  match currentSource r with
  | Some cur => if VideoQueue.contains (video_id_of cur) (queue r) then ret tt
                else queue_op (VideoQueue.pushTop [Some cur])
  | None => ret tt
  end ;;;
  match ec_video (ev_additional ev), ec_prevPosition (ev_additional ev) with
  | Some v, Some p =>
      modify (fun r => (set_playbackPosition p (set_currentSource (Some v) r)) <| playbackStart := Some now |>)
  | _, _ => ret tt
  end.

Definition undo_add (ev : ServerMessageEvent) (ctx : RequestContext) : RM unit :=
  check (ctx_role ctx) "manage-queue.remove" ;;;
  r <- get ;;
  match items (queue r), request_video (ev_request ev) with
  | _ :: _, Some v => dispatch no_undo (RemoveRequest (va_video_id v)) ctx
  | _, _ => check (ctx_role ctx) "playback.skip" ;;; modify (set_currentSource None)
  end.

Definition undo_remove (ev : ServerMessageEvent) (ctx : RequestContext) : RM unit :=
  check (ctx_role ctx) "manage-queue.add" ;;;
  check (ctx_role ctx) "manage-queue.order" ;;;
  match ec_video (ev_additional ev), ec_queueIdx (ev_additional ev) with
  | Some v, Some i => queue_op (VideoQueue.insert (Some v) i)
  | _, _ => ret tt
  end.

Definition undo_event (ev : ServerMessageEvent) (ctx : RequestContext) : RM unit :=
  match request_type (ev_request ev) with
  | TSeek => match ec_prevPosition (ev_additional ev) with
             | Some p => dispatch no_undo (SeekRequest (JNumber (Fin p))) ctx
             | None => ret tt
             end
  | TSkip => undo_skip ev ctx
  | TAdd => undo_add ev ctx
  | TRemove => undo_remove ev ctx
  | _ => ret tt
  end.

(** The event is used up: it is taken out by identity. *)
Definition consume_event (ev : ServerMessageEvent) (r : Room) : Room :=
  r <| recentEvents ::= List.filter (fun x => negb (ev_ref x =? ev_ref ev)) |>.

Definition undo (event : option UndoEcho) (ctx : RequestContext) : RM unit :=
  match event with
  | None => throw (BadApiArgument "event")
  | Some e =>
      r <- get ;;
      match findRecentEvent e r with
      | None => throw UndoEventUnavailable
      | Some ev => undo_event ev ctx ;;; modify (consume_event ev)
      end
  end.

Definition processRequest (request : RoomRequest) (ctx : RequestContext) : RM unit :=
  dispatch undo request ctx.

(** ** Where the context comes from *)

Definition processRequestUnsafe (request : RoomRequest) (client : ClientId) : RM unit :=
  info <- need_info client ;;
  processRequest request (MkContext (ui_name info) (ui_role info) (Some client) None).

Definition getRoleFromSession (r : Room) (s : SessionInfo) : Role :=
  match s with
  | SessionGuest _ => UnregisteredUser
  | SessionUser uid =>
      if match owner r with Some o => user_id o =? uid | None => false end then Owner
      else default RegisteredUser (roleOf r uid)
  end.

Definition session_username (s : SessionInfo) : exn + string :=
  match s with
  | SessionGuest n => inr n
  | SessionUser uid => match env_getUser uid with
                       | inr u => inr (user_username u)
                       | inl e => inl e
                       end
  end.

Definition deriveRequestContext (token : AuthToken) (client : option ClientId) : RM RequestContext :=
  r <- get ;;
  match truthy_string client ≫= getUser r with
  | Some u => ret (MkContext (username u) (getRole r u) client (Some token))
  | None =>
      session <- lift_res (env_getSessionInfo token) ;;
      nm <- lift_res (session_username session) ;;
      ret (MkContext nm (getRoleFromSession r session) client (Some token))
  end.

Definition getClientIdFromToken (r : Room) (token : AuthToken) : option ClientId :=
  ru_id <$> find (fun u => bool_decide (ru_token u = token)) (realusers r).

Definition processUnauthorizedRequest (request : RoomRequest) (token : AuthToken)
    (client : option ClientId) : RM unit :=
  r <- get ;;
  let client := match truthy_string client with
                | Some c => Some c
                | None => match getClientIdFromToken r token with Some c => Some c | None => client end
                end in
  ctx <- deriveRequestContext token client ;;
  processRequest request ctx.

End Requests.
