(* ===== verification/RoomLifecycle.v ===== *)
(** * RoomLifecycle: construction, ticks, timers, snapshots

    The rest of [server/room.ts]: the constructor, [update] (called once a second by
    [server/roommanager.ts]), the timers, the Redis snapshot and unloading; and the
    relation [step] that puts every way a room can change together. *)

From S2P Require Import Prelude Types Permissions VideoQueue RoomModel RoomPlayback RoomRequests.

(** ** The Redis snapshot *)

(** [RoomStateStorable], in the order of [storableProps]. *)
Record StoredRoom := MkStored {
  st_name : string;
  st_title : string;
  st_description : string;
  st_isTemporary : bool;
  st_visibility : Visibility;
  st_queueMode : QueueMode;
  st_currentSource : option QueueItem;
  st_queue : list QueueItem;
  st_isPlaying : bool;
  st_playbackPosition : Q;
  st_playbackSpeed : Q;
  st_resumeOnNextJoin : bool;
  st_grants : list (Role * Z);
  st_userRoles : list (Role * gset Z);
  st_owner : option User;
  st_playbackStart : option Z;
  st_videoSegments : list Segment;
  st_autoSkipSegmentCategories : list string;
  st_prevQueue : option (list QueueItem);
  st_restoreQueueBehavior : BehaviorOption;
  st_enableVoteSkip : bool;
  st_bufferGateMode : BufferGateMode;
  st_danmakuSource : option RoomDanmakuSource;
  st_permissionsRevision : Z;
}.
#[global] Instance eta_StoredRoom : Eta StoredRoom := fun r =>
  MkStored (st_name r) (st_title r) (st_description r) (st_isTemporary r) (st_visibility r)
    (st_queueMode r) (st_currentSource r) (st_queue r) (st_isPlaying r) (st_playbackPosition r)
    (st_playbackSpeed r) (st_resumeOnNextJoin r) (st_grants r) (st_userRoles r) (st_owner r)
    (st_playbackStart r) (st_videoSegments r) (st_autoSkipSegmentCategories r) (st_prevQueue r)
    (st_restoreQueueBehavior r) (st_enableVoteSkip r) (st_bufferGateMode r) (st_danmakuSource r)
    (st_permissionsRevision r).

Section Lifecycle.
Context `{E : Env}.

(** [{ id: owner.id }]: nothing but the id is stored. *)
Definition owner_reference (u : User) : User := MkUser (user_id u) "" None None None None.

Definition pick_storable (r : Room) : StoredRoom :=
  MkStored (name r) (title r) (description r) (isTemporary r) (visibility r) (queueMode r)
    (currentSource r) (items (queue r)) (isPlaying r) (playbackPosition r) (playbackSpeed r)
    (resumeOnNextJoin r) (masks (grants r)) (userRoles r) (owner r) (playbackStart r)
    (videoSegments r) (autoSkipSegmentCategories r) (prevQueue r) (restoreQueueBehavior r)
    (enableVoteSkip r) (bufferGateMode r) (danmakuSource r) (permissionsRevision r).

(** [serializeState], up to [JSON.stringify]. *)
Definition serializeState (r : Room) : StoredRoom :=
  let state := pick_storable r in
  let state := if bufferingGateHeld r then state <| st_resumeOnNextJoin := true |> else state in
  let state := match temporarySpeed r with
               | Some t => state <| st_playbackSpeed := ts_previousSpeed t |>
                                 <| st_playbackPosition := realPlaybackPosition r |>
                                 <| st_playbackStart := if isPlaying r then Some now else None |>
               | None => state
               end in
  state <| st_owner ::= fmap owner_reference |>.

(** ** Construction *)

(** The options of the constructor: what a request, a database row or a snapshot gives. *)
Record RoomOptions := MkOptions {
  opt_name : string;
  opt_title : string;
  opt_description : string;
  opt_visibility : Visibility;
  opt_queueMode : QueueMode;
  opt_isTemporary : bool;
  opt_owner : option User;
  opt_currentSource : option QueueItem;
  opt_queue : list QueueItem;
  opt_playbackPosition : Q;
  opt_isPlaying : bool;
  opt_playbackSpeed : Q;
  opt_autoSkip : list string;
  opt_prevQueue : option (list QueueItem);
  opt_restoreQueueBehavior : BehaviorOption;
  opt_enableVoteSkip : bool;
  opt_bufferGateMode : BufferGateMode;
  opt_danmakuSource : option RoomDanmakuSource;
  opt_passwordHash : option string;
  opt_resumeOnNextJoin : bool;
  opt_grants : Grants;
  opt_permissionsRevision : option Z;
  opt_userRoles : list (Role * gset Z);
  opt_playbackStart : option Z;
}.

#[global] Instance eta_RoomOptions : Eta RoomOptions := fun o =>
  MkOptions (opt_name o) (opt_title o) (opt_description o) (opt_visibility o) (opt_queueMode o)
    (opt_isTemporary o) (opt_owner o) (opt_currentSource o) (opt_queue o) (opt_playbackPosition o)
    (opt_isPlaying o) (opt_playbackSpeed o) (opt_autoSkip o) (opt_prevQueue o)
    (opt_restoreQueueBehavior o) (opt_enableVoteSkip o) (opt_bufferGateMode o) (opt_danmakuSource o)
    (opt_passwordHash o) (opt_resumeOnNextJoin o) (opt_grants o) (opt_permissionsRevision o)
    (opt_userRoles o) (opt_playbackStart o).

(** The setters [Object.assign] runs mark their properties; every option is given. *)
Definition assigned_props (o : RoomOptions) : list Prop_ :=
  [PHasOwner; PName; PTitle; PDescription; PVisibility; PQueueMode; PCurrentSource;
   PPlaybackPosition; PIsPlaying; PPlaybackSpeed; PAutoSkip] ++
  (match opt_prevQueue o with Some _ => [PPrevQueue] | None => [] end) ++
  [PEnableVoteSkip; PBufferGateMode; PDanmakuSource].

(** The object after [Object.assign]. *)
Definition blank_room (o : RoomOptions) : Room :=
  MkRoom (opt_name o) (opt_title o) (opt_description o) (opt_visibility o) (opt_queueMode o)
    (opt_isTemporary o) (opt_owner o) (opt_grants o) (opt_userRoles o) (opt_autoSkip o)
    (opt_restoreQueueBehavior o) (opt_enableVoteSkip o) (opt_bufferGateMode o)
    (opt_danmakuSource o) ∅ [] (opt_passwordHash o) 0 None (Some now) None false
    (opt_currentSource o) (MkVideoQueue (opt_queue o) false) (opt_prevQueue o) (opt_isPlaying o)
    (opt_playbackPosition o) (opt_playbackSpeed o) None None None None (opt_resumeOnNextJoin o) []
    [] [] ∅ (assigned_props o) [] 0 (opt_playbackStart o) now false None env_storedNotes env_nextNoteId [].

(** The saved queue comes back into an empty room that restores automatically. *)
Definition restore_prev_queue (r : Room) : Room :=
  match currentSource r, items (queue r), restoreQueueBehavior r, prevQueue r with
  | None, [], Always, Some prev =>
      let r := r <| queue ::= fun q => q <| items ::= fun l => l ++ prev |> |> in
      let r := set_prevQueue None (markDirty PQueue r) in
      r <| restoredFromStorage := true |>
  | _, _, _, _ => r
  end.

Definition upgrade_permissions (o : RoomOptions) (r : Room) : Room :=
  let revision := default 0 (opt_permissionsRevision o) in
  if revision <? ROOM_PERMISSIONS_REVISION then
    r <| grants := (applyPermissionAdditions revision (grants r)).2 |>
      <| permissionsRevision := ROOM_PERMISSIONS_REVISION |>
  else r <| permissionsRevision := revision |>.

Definition construct_room (o : RoomOptions) : Room :=
  let r := blank_room o in
  let r := if bool_decide (restoreQueueBehavior r = Never) then set_prevQueue None r else r in
  upgrade_permissions o (restore_prev_queue r).

(** ** The tick *)

(** The deadlines of a held round, checked once per tick. *)
Definition tick_deadlines (r : Room) : Room :=
  match playbackPreparation r with
  | None => r
  | Some p =>
      match prep_startAt p with
      | Some _ => r
      | None =>
          if allEligibleReady r p then schedulePlaybackStart None r
          else if prep_deadlineAt p <=? now then
            if (0 <? length (prep_ready p))%nat then schedulePlaybackStart (Some FallbackPartial) r
            else if prep_hardDeadlineAt p <=? now then schedulePlaybackStart (Some FallbackForced) r
            else if decide (prep_fallback p = Some FallbackNone) then r
            else markDirty PPlaybackPreparation
                   (set_preparation (p <| prep_fallback := Some FallbackNone |>) r)
          else r
      end
  end.

Definition tick_due_start (r : Room) : Room :=
  match playbackPreparation r ≫= prep_startAt with
  | Some t => if t <=? now then startPreparedPlayback r else r
  | None => r
  end.

Definition tick_preparation (r : Room) : Room :=
  match playbackPreparation r with
  | None => r
  | Some _ => tick_due_start (tick_deadlines (refreshPlaybackPreparation r))
  end.

(** A gesture whose owner left or lost the permission ends. *)
Definition tick_temporary_speed (r : Room) : Room :=
  match temporarySpeed r with
  | None => r
  | Some t =>
      match getUser r (ts_clientId t) with
      | Some u => if Grants.granted (grants r) (getRole r u) "playback.speed" then r
                  else endTemporaryPlaybackSpeed true r
      | None => endTemporaryPlaybackSpeed true r
      end
  end.

(** [current.endAt ?? current.length], when it is a real end. *)
Definition current_end (v : QueueItem) : option Q :=
  if qi_isLive v then None
  else match (match qi_endAt v with Some n => Some n | None => qi_length v end) with
       | Some (Fin q) => if Qlt_bool 0 q then Some q else None
       | _ => None
       end.

Definition currentEnded (r : Room) : bool :=
  match currentSource r with
  | None => false
  | Some v => isPlaying r &&
              match current_end v with Some e => Qgt_bool (realPlaybackPosition r) e | None => false end
  end.

Definition tick_queue (r : Room) : Room :=
  if (bool_decide (currentSource r = None) && negb (bool_decide (items (queue r) = []))) || currentEnded r
  then dequeueNext r else r.

Definition tick_keepalive (r : Room) : Room :=
  if negb (bool_decide (realusers r = [])) &&
     Qlt_bool (inject_Z (keepAlivePing r) + inject_Z (conf_unload_after * 900))%Q (inject_Z now)
  then r <| keepAlivePing := now |> else r.

Definition votes_of (r : Room) (v : QueueItem) : nat :=
  match vote_set r (votes_key v) with Some s => size s | None => 0%nat end.

Definition tick_order (r : Room) : Room :=
  if decide (queueMode r = Vote) then queue_do (VideoQueue.orderBy (votes_of r)) r else r.

(** [fetchSponsorBlockSegments]; a failed request is logged and changes nothing. *)
Definition fetchSponsorBlockSegments (r : Room) : Room :=
  match currentSource r with
  | Some v =>
      if decide (qi_service v = "youtube") then
        match env_fetchSegments (qi_id v) with
        | Fetched l => set_videoSegments l r
        | FetchFailed => r
        end
      else match videoSegments r with [] => r | _ => set_videoSegments [] r end
  | None => match videoSegments r with [] => r | _ => set_videoSegments [] r end
  end.

Definition auto_skip (r : Room) : Room :=
  match videoSegments r, dontSkipSegmentsUntil r with
  | _ :: _, None =>
      if isPlaying r then
        match getSegmentForTime (realPlaybackPosition r) r with
        | Some seg =>
            if decide (seg_category seg ∈ autoSkipSegmentCategories r)
            then publish (PublishEventCustom ("Skipped " +:+ seg_category seg)) (seekRaw (seg_endTime seg) r)
            else r
        | None => r
        end
      else r
  | _, _ => r
  end.

(** [dontSkipSegmentsUntil && position >= dontSkipSegmentsUntil]: zero is falsy. *)
Definition pass_dont_skip (r : Room) : Room :=
  match dontSkipSegmentsUntil r with
  | Some t => if negb (Qeq_bool t 0) && Qle_bool t (realPlaybackPosition r)
              then r <| dontSkipSegmentsUntil := None |> else r
  | None => r
  end.

Definition tick_sponsorblock (r : Room) : Room :=
  if conf_sponsorblock_enabled && negb (bool_decide (autoSkipSegmentCategories r = [])) then
    let r := if wantSponsorBlock r
             then fetchSponsorBlockSegments (r <| wantSponsorBlock := false |>) else r in
    auto_skip (pass_dont_skip r)
  else r.

Definition update (r : Room) : Room :=
  let r := evaluateBufferGate r in
  let r := tick_preparation r in
  let r := tick_temporary_speed r in
  let r := tick_queue r in
  let r := tick_keepalive r in
  let r := tick_order r in
  tick_sponsorblock r.

(** ** Timers *)

Definition fire_temporary_speed_timer (r : Room) : Room :=
  match temporarySpeedTimer r with
  | Some t => if t <=? now then endTemporaryPlaybackSpeed true r else r
  | None => r
  end.

Definition fire_start_timer (r : Room) : Room :=
  match playbackStartTimer r with
  | Some t => if t <=? now then startPreparedPlayback (r <| playbackStartTimer := None |>) else r
  | None => r
  end.

Definition fire_leave_timer (token : AuthToken) (r : Room) : Room :=
  match map_get token (pendingLeaveEvents r) with
  | Some p =>
      if pl_dueAt p <=? now then
        let r := r <| pendingLeaveEvents ::= map_delete token |> in
        if sessionInRoom r token None then r
        else publishRoomEvent LeaveRequest (pl_context p)
               (MkEventContext None None None None (Some (pl_user p))) (Some (pl_user p)) r
      else r
  | None => r
  end.

(** ** Unloading *)

(** [onBeforeUnload] up to its last [sync]. *)
Definition prepare_unload (r : Room) : Room :=
  let r := endTemporaryPlaybackSpeed true (clearPlaybackStartTimer r) in
  let r := r <| pendingLeaveEvents := [] |> in
  if isTemporary r then r else markDirty PCurrentSource (pausePlaybackClock r).

Definition onBeforeUnload : RM unit := modify prepare_unload ;;; sync.

(** ** What the HTTP API and the room manager change *)

Definition setPasswordHash (hash : option string) (r : Room) : Room :=
  markDirty PHasPassword (r <| passwordHash := hash |>).

Definition set_owner (value : option User) (r : Room) : Room := markDirty PHasOwner (r <| owner := value |>).

Definition isStale (r : Room) : bool := conf_unload_after <? (now - keepAlivePing r) / 1000.

End Lifecycle.

(** ** Everything that can happen to a room

    An event of the room's life happens in some environment (its instant, and what the
    outside answered).  [StepStoreNote] is the second half of an [addNote] whose count of the
    notes came back while other requests were being served. *)

Inductive RoomStep :=
  | StepRequest (request : RoomRequest) (ctx : RequestContext)
  | StepUpdate
  | StepSync
  | StepTemporarySpeedTimer
  | StepStartTimer
  | StepLeaveTimer (token : AuthToken)
  | StepStoreNote (note : ClientId * string).

Definition perform `{Env} (s : RoomStep) (r : Room) : Room :=
  match s with
  | StepRequest request ctx => (processRequest request ctx r).2
  | StepUpdate => update r
  | StepSync => (sync r).2
  | StepTemporarySpeedTimer => fire_temporary_speed_timer r
  | StepStartTimer => fire_start_timer r
  | StepLeaveTimer token => fire_leave_timer token r
  | StepStoreNote note => (addNote_store note r).2
  end.

(** The states reachable from a room, in any number of steps in any environments. *)
Inductive reachable (r0 : Room) : Room -> Prop :=
  | reach_refl : reachable r0 r0
  | reach_step (E : Env) (s : RoomStep) (r : Room) :
      LodashLaws (@env_lodash E) -> reachable r0 r -> reachable r0 (perform s r).

Lemma reachable_ind_inv (I : Room -> Prop) (r0 r : Room) :
  I r0 ->
  (forall (E : Env) s r, LodashLaws (@env_lodash E) -> I r -> I (perform s r)) ->
  reachable r0 r -> I r.
Proof. intros H0 Hs. induction 1; [done|]. by apply Hs. Qed.
