(* ===== verification/Connection.v ===== *)
(** * Connection: the browser's link to a room

    The class [OttRoomConnectionReal] of [client/src/plugins/connection.ts] with the latency
    samples of [client/src/util/connection-latency.ts].  The sockets it ever opened are kept
    in [sockets], with the text sent on each; [socket] is the number of the one in use, so a
    late event of an old socket is an event of another number.  A timer that was cleared or
    has fired is [None], one that is set is the instant it is due.  The handlers the client
    registers are numbers: what they do is outside, and [throws] says which of them throw. *)

From Stdlib Require Import Qround.
From S2P Require Import Prelude.

Module Connection.

Definition MAX_UNKNOWN_RECONNECTS : Z := 2.
Definition LATENCY_PROBE_INTERVAL_MS : Z := 15000.
Definition MAX_UNANSWERED_PROBES : Z := 2.
Definition CONNECT_TIMEOUT_MS : Z := 15000.
Definition UNKNOWN : Z := 4000.
Definition reconnectDelay : Z := 1000.
Definition reconnectDelayIncrease : Z := 2000.

(** ** Latency samples *)

Definition MAX_SAMPLES : nat := 8.
Definition MAX_PLAUSIBLE_RTT_MS : Q := 5000.
Definition SAMPLE_MAX_AGE_MS : Z := 180000.

Record Latency := MkLatency { samples : list Q; lastSampleAt : Z }.

Definition resetLatencySamples : Latency := MkLatency [] 0.

(** [slice(-MAX_SAMPLES)] *)
Definition last_samples (l : list Q) : list Q :=
  if (MAX_SAMPLES <? length l)%nat then drop (length l - MAX_SAMPLES) l else l.

Definition noteLatencySample (rttMs : num) (now : Z) (l : Latency) : Latency :=
  match rttMs with
  | Fin q => if Qlt_bool q 0 || Qlt_bool MAX_PLAUSIBLE_RTT_MS q then l
             else MkLatency (last_samples (samples l ++ [q])) now
  | _ => l
  end.

(** [Math.min(...samples)] of a list that is not empty. *)
Definition smallest (l : list Q) : option Q :=
  match l with [] => None | x :: l => Some (fold_left Qmin' l x) end.

Definition getRttEstimateMs (now : Z) (l : Latency) : option Q :=
  if now - lastSampleAt l >? SAMPLE_MAX_AGE_MS then None else smallest (samples l).

Definition getOneWayDelayMs (now : Z) (l : Latency) : Q :=
  match samples l with
  | [] => 0%Q
  | x :: r => if now - lastSampleAt l >? SAMPLE_MAX_AGE_MS then 0%Q
              else (fold_left Qmin' r x / 2)%Q
  end.

(** ** Sockets and messages *)

Inductive ReadyState := CONNECTING | OPEN | CLOSING | CLOSED.
#[global] Instance ReadyState_eq : EqDecision ReadyState.
Proof. solve_decision. Defined.

(** What the client sends: the messages of the connection itself, and the text of others. *)
Inductive ClientMessage :=
| CAuth (token : option string)
| CReauthenticate (token : string)
| CPing (t0 : Z)
| CText (text : string).

(** What [JSON.parse] makes of a message: [m_t0] is the number a subtraction makes of [t0],
    [m_name] the [name] when it is a string. *)
Record ServerMessage := MkMessage {
  m_action : string;
  m_t0 : num;
  m_name : option string;
  m_body : string;
}.

Inductive MessageData := Binary | Unparsable | Parsed (msg : ServerMessage).

Record Sock := MkSock { k_url : string; k_state : ReadyState; k_sent : list ClientMessage }.
#[global] Instance eta_Sock : Eta Sock := fun k => MkSock (k_url k) (k_state k) (k_sent k).

Inductive Issue := Timeout | Network.
#[global] Instance Issue_eq : EqDecision Issue.
Proof. solve_decision. Defined.

Inductive ConnectionEvent := Connected | Disconnected | Kicked (reason : Z).
Definition kind (e : ConnectionEvent) : string :=
  match e with Connected => "connected" | Disconnected => "disconnected" | Kicked _ => "kicked" end.

(** What the handlers are called with. *)
Inductive call := CallMessage (handler : nat) (msg : ServerMessage) | CallEvent (handler : nat) (e : ConnectionEvent).

Record Conn := MkConn {
  active : bool;
  reconnecting : bool;
  connected : bool;
  roomName : string;
  reconnectAttempts : Z;
  kickReason : option Z;
  issue : option Issue;
  socket : option nat;
  reconnectTimeout : option Z;
  connectTimeout : option (Z * nat);
  latencyTimer : option Z;
  unansweredProbes : Z;
  listening : bool;
  messageHandlers : list (string * list nat);
  eventHandlers : list (string * list nat);
  latency : Latency;
  sockets : list Sock;
  calls : list call;
}.
#[global] Instance eta_Conn : Eta Conn := fun s =>
  MkConn (active s) (reconnecting s) (connected s) (roomName s) (reconnectAttempts s)
    (kickReason s) (issue s) (socket s) (reconnectTimeout s) (connectTimeout s) (latencyTimer s)
    (unansweredProbes s) (listening s) (messageHandlers s) (eventHandlers s) (latency s)
    (sockets s) (calls s).

Definition new_connection : Conn :=
  MkConn false false false "" 0 None None None None None None 0 false [] []
    resetLatencySamples [] [].

(** [Math.round], and the wait before the next attempt. *)
Definition round (q : Q) : Z := Qfloor (q + (1 # 2)).

Definition getReconnectDelayMs (attempts delay increase : Z) (random : Q) : Z :=
  Z.min 30000 (round (inject_Z (delay + increase * attempts) * ((1 # 2) + random))).

(** What a call finds: the clock, a random number, the token in the local storage. *)
Record World := MkWorld { now : Z; random : Q; token : option string }.

(** The page: where it was loaded from. *)
Record Page := MkPage { protocol : string; host : string; base_url : option string }.

Section Connection.
Context (page : Page).
(** Whether [new WebSocket(url)] throws, and whether a message handler does. *)
Context (blocked : string -> bool) (throws : nat -> ServerMessage -> bool).
Implicit Types (s : Conn) (w : World).

Definition connectionUrl s : string :=
  (if String.prefix "https" (protocol page) then "wss" else "ws") +:+ "://" +:+ host page
  +:+ default "" (base_url page) +:+ "/api/room/" +:+ roomName s.

(** ** Handlers *)

Definition addHandler (name : string) (h : nat) (m : list (string * list nat)) :=
  map_set name (default [] (map_get name m) ++ [h]) m.

Definition removeHandler (name : string) (h : nat) (m : list (string * list nat)) :=
  let handlers := default [] (map_get name m) in
  match list_find (eq h) handlers with
  | Some (index, _) => map_set name (splice_out index handlers) m
  | None => m
  end.

Definition dispatchEvent (e : ConnectionEvent) s : Conn :=
  s <| calls ::= fun c => c ++ map (fun h => CallEvent h e) (default [] (map_get (kind e) (eventHandlers s))) |>.

(** The handlers are called in order; one that throws is the last. *)
Fixpoint until_throw (msg : ServerMessage) (handlers : list nat) : list call :=
  match handlers with
  | [] => []
  | h :: rest => CallMessage h msg :: (if throws h msg then [] else until_throw msg rest)
  end.

Definition handleMessage (msg : ServerMessage) s : Conn :=
  s <| calls ::= fun c => c ++ until_throw msg (default [] (map_get (m_action msg) (messageHandlers s))) |>.

(** ** Timers and sockets *)

Definition clearTimers s : Conn := (s <| connectTimeout := None |>) <| reconnectTimeout := None |>.
Definition stopLatencyProbes s : Conn := s <| latencyTimer := None |>.

(** [WebSocket.close]: nothing happens to a socket that is closing or closed. *)
Definition close (k : Sock) : Sock :=
  match k_state k with CONNECTING | OPEN => k <| k_state := CLOSING |> | _ => k end.

Definition closeSocket s : Conn :=
  let s := stopLatencyProbes s in
  match socket s with
  | Some i => (s <| socket := None |>) <| sockets ::= alter close i |>
  | None => s
  end.

(** [WebSocket.send]: throws before the socket is open, and loses what is sent after. *)
Definition ws_send (i : nat) (m : ClientMessage) s : option Conn :=
  match sockets s !! i with
  | Some k =>
      match k_state k with
      | CONNECTING => None
      | OPEN => Some (s <| sockets ::= alter (fun k => k <| k_sent ::= fun l => l ++ [m] |>) i |>)
      | _ => Some s
      end
  | None => None
  end.

Definition readyState s : option ReadyState :=
  i ← socket s; k ← sockets s !! i; Some (k_state k).
Definition is_open s : bool := bool_decide (readyState s = Some OPEN).

Definition getReconnectDelay w s : Z :=
  getReconnectDelayMs (reconnectAttempts s) reconnectDelay reconnectDelayIncrease (random w).

Definition schedule_reconnect w s : Conn :=
  s <| reconnectTimeout := Some (now w + getReconnectDelay w s) |>.

Definition failConnection w (i : Issue) s : Conn :=
  let s := closeSocket (clearTimers s) in
  let s := s <| connected := false |> in
  if negb (active s) then s else
  let s := (s <| issue := Some i |>) <| reconnecting := true |> in
  schedule_reconnect w (dispatchEvent Disconnected s).

(** ** Connecting *)

Definition doConnect w (url : string) s : Conn :=
  let s := closeSocket (clearTimers s) in
  let s := s <| connected := false |> in
  if blocked url then failConnection w Network s else
  let i := length (sockets s) in
  let s := (s <| sockets ::= fun l => l ++ [MkSock url CONNECTING []] |>) <| socket := Some i |> in
  s <| connectTimeout := Some (now w + CONNECT_TIMEOUT_MS, i) |>.

Definition connect w (name : string) s : Conn :=
  if active s then s else
  let s := s <| latency := resetLatencySamples |> in
  let s := s <| roomName := name |> in
  let s := s <| active := true |> in
  let s := s <| kickReason := None |> in
  let s := s <| issue := None |> in
  let s := s <| reconnectAttempts := 0 |> in
  let s := s <| listening := true |> in
  doConnect w (connectionUrl s) s.

Definition reconnect w s : Conn :=
  if negb (active s) then s else
  let s := s <| reconnectAttempts ::= Z.add 1 |> in
  doConnect w (connectionUrl s +:+ "?reconnect=true") s.

Definition disconnect s : Conn :=
  let s := s <| active := false |> in
  let s := s <| connected := false |> in
  let s := s <| reconnecting := false |> in
  let s := s <| issue := None |> in
  let s := closeSocket (clearTimers s) in
  let s := s <| listening := false |> in
  s <| roomName := "" |>.

(** ** Sending *)

Inductive SendError := NotActive | NotConnected | SocketThrew.

Definition send (m : ClientMessage) s : SendError + Conn :=
  if negb (active s) then inl NotActive else
  match socket s with
  | Some i => if negb (connected s) || negb (is_open s) then inl NotConnected else
              match ws_send i m s with Some s' => inr s' | None => inl SocketThrew end
  | None => inl NotConnected
  end.

Definition reauthenticate w s : Conn :=
  if negb (active s) || negb (connected s) then s else
  match token w with
  | None | Some "" => s
  | Some t => match send (CReauthenticate t) s with inr s' => s' | inl _ => s end
  end.

(** ** Probes *)

Definition sendLatencyProbe w s : Conn :=
  if negb (active s) || negb (connected s) || negb (is_open s) then s else
  if MAX_UNANSWERED_PROBES <=? unansweredProbes s then failConnection w Network s else
  match socket s with
  | Some i => match ws_send i (CPing (now w)) s with
              | Some s' => s' <| unansweredProbes ::= Z.add 1 |>
              | None => s
              end
  | None => s
  end.

Definition startLatencyProbes w s : Conn :=
  let s := stopLatencyProbes s in
  let s := sendLatencyProbe w (s <| unansweredProbes := 0 |>) in
  s <| latencyTimer := Some (now w + LATENCY_PROBE_INTERVAL_MS) |>.

(** ** Events of the socket in use *)

Definition onOpen w s : Conn :=
  match socket s with
  | Some i => match ws_send i (CAuth (token w)) s with
              | Some s' => s'
              | None => failConnection w Network s
              end
  | None => failConnection w Network s
  end.

Definition onClose w (code : Z) s : Conn :=
  if 4000 <=? code then
    let s := closeSocket s in
    let s := s <| connected := false |> in
    if (code =? UNKNOWN) && (reconnectAttempts s <? MAX_UNKNOWN_RECONNECTS) then
      let s := clearTimers s in
      let s := (s <| issue := Some Network |>) <| reconnecting := true |> in
      schedule_reconnect w (dispatchEvent Disconnected s)
    else
      let s := clearTimers s in
      let s := s <| reconnecting := false |> in
      let s := s <| issue := None |> in
      let s := s <| kickReason := Some code |> in
      let s := s <| active := false |> in
      let s := s <| listening := false |> in
      dispatchEvent (Kicked code) (dispatchEvent Disconnected s)
  else if active s then failConnection w Network s else s.

(** The first full room message completes the join. *)
Definition joined w s : Conn :=
  let s := clearTimers s in
  let s := s <| connected := true |> in
  let s := s <| reconnecting := false |> in
  let s := s <| reconnectAttempts := 0 |> in
  let s := s <| issue := None |> in
  startLatencyProbes w (dispatchEvent Connected s).

(** [Date.now() - msg.t0] *)
Definition rtt (now : Z) (t0 : num) : num :=
  match t0 with Fin q => Fin (inject_Z now - q) | NaN => NaN | Inf n => Inf (negb n) end.

Definition completes_join (msg : ServerMessage) s : bool :=
  String.eqb (m_action msg) "sync" && bool_decide (is_Some (m_name msg)) && negb (connected s).

Definition onMessage w (data : MessageData) s : Conn :=
  match data with
  | Binary | Unparsable => s
  | Parsed msg =>
      if String.eqb (m_action msg) "pong" then
        (s <| unansweredProbes := 0 |>)
          <| latency ::= noteLatencySample (rtt (now w) (m_t0 msg)) (now w) |>
      else handleMessage msg (if completes_join msg s then joined w s else s)
  end.

(** ** The browser *)

Inductive input :=
| IConnect (name : string)
| IReconnect
| IReauthenticate
| IDisconnect
| ISend (m : string)
| IAddMessageHandler (action : string) (h : nat)
| IRemoveMessageHandler (action : string) (h : nat)
| IClearMessageHandlers
| IAddEventHandler (event : string) (h : nat)
| IRemoveEventHandler (event : string) (h : nat)
| IOnline
| IOffline
| IVisibility (hidden : bool)
| ISocketOpen (i : nat)
| ISocketClosing (i : nat)
| ISocketClose (i : nat) (code : Z)
| ISocketMessage (i : nat) (data : MessageData)
| ISocketError (i : nat)
| IReconnectTimer
| IConnectTimer
| ILatencyTimer.

(** The listeners ask whether the event comes from the socket in use. *)
Definition if_current (i : nat) (f : Conn -> Conn) s : Conn :=
  if decide (socket s = Some i) then f s else s.

Definition set_state (i : nat) (r : ReadyState) s : Conn :=
  s <| sockets ::= alter (fun k => k <| k_state := r |>) i |>.

Definition onOnline w s : Conn := if active s && negb (connected s) then reconnect w s else s.
Definition onOffline w s : Conn := if active s then failConnection w Network s else s.
Definition onVisibilityChange w (hidden : bool) s : Conn :=
  if negb hidden && active s && negb (connected s) && bool_decide (is_Some (issue s)) then reconnect w s else s.

Definition onReconnectTimer w s : Conn :=
  match reconnectTimeout s with
  | Some due => if due <=? now w then reconnect w (s <| reconnectTimeout := None |>) else s
  | None => s
  end.

Definition onConnectTimer w s : Conn :=
  match connectTimeout s with
  | Some (due, i) => if due <=? now w
                     then if_current i (failConnection w Timeout) (s <| connectTimeout := None |>)
                     else s
  | None => s
  end.

Definition onLatencyTimer w s : Conn :=
  match latencyTimer s with
  | Some due => if due <=? now w
                then sendLatencyProbe w (s <| latencyTimer := Some (now w + LATENCY_PROBE_INTERVAL_MS) |>)
                else s
  | None => s
  end.

Definition handle w (e : input) s : Conn :=
  match e with
  | IConnect name => connect w name s
  | IReconnect => reconnect w s
  | IReauthenticate => reauthenticate w s
  | IDisconnect => disconnect s
  | ISend m => match send (CText m) s with inr s' => s' | inl _ => s end
  | IAddMessageHandler a h => s <| messageHandlers ::= addHandler a h |>
  | IRemoveMessageHandler a h => s <| messageHandlers ::= removeHandler a h |>
  | IClearMessageHandlers => s <| messageHandlers := [] |>
  | IAddEventHandler k h => s <| eventHandlers ::= addHandler k h |>
  | IRemoveEventHandler k h => s <| eventHandlers ::= removeHandler k h |>
  | IOnline => if listening s then onOnline w s else s
  | IOffline => if listening s then onOffline w s else s
  | IVisibility hidden => if listening s then onVisibilityChange w hidden s else s
  | ISocketOpen i => if_current i (onOpen w) (set_state i OPEN s)
  | ISocketClosing i => set_state i CLOSING s
  | ISocketClose i code => if_current i (onClose w code) (set_state i CLOSED s)
  | ISocketMessage i data => if_current i (onMessage w data) s
  | ISocketError i => if_current i (failConnection w Network) s
  | IReconnectTimer => onReconnectTimer w s
  | IConnectTimer => onConnectTimer w s
  | ILatencyTimer => onLatencyTimer w s
  end.

(** What the WebSocket interface promises: a socket opens once, a message arrives on a socket
    that has opened, a socket that is closing does not open again. *)
Definition possible (e : input) s : bool :=
  let state i := k_state <$> sockets s !! i in
  match e with
  | ISocketOpen i => bool_decide (state i = Some CONNECTING)
  | ISocketClosing i => bool_decide (state i = Some CONNECTING) || bool_decide (state i = Some OPEN)
  | ISocketClose i _ | ISocketError i => bool_decide (is_Some (state i))
  | ISocketMessage i _ => bool_decide (state i = Some OPEN) || bool_decide (state i = Some CLOSING)
  | _ => true
  end.

End Connection.

End Connection.
