(* ===== verification/ConnectionFacts.v ===== *)
(** * ConnectionFacts: what always holds of a connection

    The invariant of [Connection.v] and its preservation by every method, and from there by
    every event the browser delivers. *)

From S2P Require Import Prelude Connection.
Import Connection.

Ltac conn_simpl :=
  cbn [active reconnecting connected roomName reconnectAttempts kickReason issue socket
    reconnectTimeout connectTimeout latencyTimer unansweredProbes listening messageHandlers
    eventHandlers latency sockets calls over] in *.

Definition is_auth (m : ClientMessage) : bool := match m with CAuth _ => true | _ => false end.

(** A socket says who is there before anything else, and says it once. *)
Definition introduced (l : list ClientMessage) : Prop :=
  match l with
  | [] => True
  | m :: rest => is_auth m = true /\ Forall (fun m => is_auth m = false) rest
  end.

Definition dead (k : Sock) : Prop := k_state k = CLOSING \/ k_state k = CLOSED.

(** The socket in use: it sent nothing while it connects, and nothing but the
    authentication before the room was there. *)
Record current_ok (up : bool) (k : Sock) : Prop := {
  cu_connecting : k_state k = CONNECTING -> up = false /\ k_sent k = [];
  cu_open : k_state k = OPEN -> k_sent k <> [];
  cu_alone : up = false -> (length (k_sent k) <= 1)%nat;
}.

(** The sockets [l], of which [cur] is in use. *)
Record socks_ok (cur : option nat) (up : bool) (l : list Sock) : Prop := {
  so_range : forall i, cur = Some i -> (i < length l)%nat;
  so_dead : forall j k, l !! j = Some k -> cur <> Some j -> dead k;
  so_sent : forall j k, l !! j = Some k -> introduced (k_sent k);
  so_current : forall j k, l !! j = Some k -> cur = Some j -> current_ok up k;
}.

(** What holds between any two assignments of a method. *)
Record base (s : Conn) : Prop := {
  b_listening : listening s = active s;
  b_kick : active s = true -> kickReason s = None;
  b_notice : reconnecting s = bool_decide (is_Some (issue s));
  b_idle : active s = false -> issue s = None;
  b_attempts : 0 <= reconnectAttempts s;
  b_probes : 0 <= unansweredProbes s <= MAX_UNANSWERED_PROBES;
  b_socks : socks_ok (socket s) (connected s) (sockets s);
}.

(** What the connection is waiting for, at time [t]. *)
Inductive waiting (t : Z) : Conn -> Prop :=
| Off s : active s = false -> connected s = false -> socket s = None ->
    reconnectTimeout s = None -> connectTimeout s = None -> latencyTimer s = None -> waiting t s
| Joining s i d : active s = true -> connected s = false -> socket s = Some i ->
    reconnectTimeout s = None -> connectTimeout s = Some (d, i) -> d <= t + CONNECT_TIMEOUT_MS ->
    latencyTimer s = None -> waiting t s
| Retrying s d : active s = true -> connected s = false -> socket s = None -> is_Some (issue s) ->
    reconnectTimeout s = Some d -> d <= t + 30000 -> connectTimeout s = None ->
    latencyTimer s = None -> waiting t s
| Up s i d : active s = true -> connected s = true -> socket s = Some i -> issue s = None ->
    reconnectTimeout s = None -> connectTimeout s = None ->
    latencyTimer s = Some d -> d <= t + LATENCY_PROBE_INTERVAL_MS -> waiting t s.

Record conn_ok (t : Z) (s : Conn) : Prop := { c_base : base s; c_waiting : waiting t s }.

Definition fair (w : World) : Prop := (0 <= random w < 1)%Q.

(** ** Delays *)

Lemma Qfloor_mono_Z q z : (inject_Z z <= q)%Q -> z <= Qround.Qfloor q.
Proof. intros H. rewrite <- (Qround.Qfloor_Z z). by apply Qround.Qfloor_resp_le. Qed.

Lemma delay_bounds attempts r :
  0 <= attempts -> (0 <= r < 1)%Q ->
  500 <= getReconnectDelayMs attempts reconnectDelay reconnectDelayIncrease r <= 30000.
Proof.
  intros Ha [Hr _]. unfold getReconnectDelayMs. split; [|lia].
  apply Z.min_glb; [lia|]. unfold round, reconnectDelay, reconnectDelayIncrease. apply Qfloor_mono_Z.
  assert (inject_Z 1000 <= inject_Z (1000 + 2000 * attempts))%Q as Hq by (rewrite <- Zle_Qle; lia).
  assert (inject_Z 1000 * ((1 # 2) + r) <= inject_Z (1000 + 2000 * attempts) * ((1 # 2) + r))%Q
    as Hm by (apply Qmult_le_compat_r; [done|lra]).
  change (inject_Z 500) with (500 # 1)%Q in *. change (inject_Z 1000) with (1000 # 1)%Q in *. lra.
Qed.

(** ** Sockets *)

Lemma introduced_app l m : introduced l -> is_auth m = false -> l <> [] -> introduced (l ++ [m]).
Proof.
  destruct l as [|m' l]; [done|]. simpl. intros [? H] Hm _. split; [done|].
  apply Forall_app. by repeat constructor.
Qed.

Lemma dead_close k : dead (close k).
Proof. unfold close, dead. destruct (k_state k) eqn:E; simpl; auto. Qed.
Lemma sent_close k : k_sent (close k) = k_sent k.
Proof. unfold close. by destruct (k_state k). Qed.

Lemma lookup_alter_Some {A} (f : A -> A) i j (l : list A) x :
  alter f i l !! j = Some x ->
  exists y, l !! j = Some y /\ x = if decide (i = j) then f y else y.
Proof.
  destruct (decide (i = j)) as [->|Hne].
  - rewrite list_lookup_alter_eq. intros (y & ? & ?)%fmap_Some. eauto.
  - rewrite list_lookup_alter_ne by done. eauto.
Qed.

(** Dropping the socket in use leaves only dead ones. *)
Lemma socks_closed i up up' l : socks_ok (Some i) up l -> socks_ok None up' (alter close i l).
Proof.
  intros [Hr Hd Hs Hc]. split; [done| | |done].
  - intros j k (k' & Hj & ->)%lookup_alter_Some _. destruct (decide (i = j)); [apply dead_close|].
    apply (Hd j k' Hj). congruence.
  - intros j k (k' & Hj & ->)%lookup_alter_Some. case_decide; rewrite ?sent_close; by eapply Hs.
Qed.

Lemma socks_none up up' l : socks_ok None up l -> socks_ok None up' l.
Proof. by intros [Hr Hd Hs Hc]. Qed.

Lemma lookup_snoc {A} (l : list A) x j k :
  (l ++ [x]) !! j = Some k -> l !! j = Some k \/ j = length l /\ k = x.
Proof.
  intros [?|[Hle [Hj Hk]%list_lookup_singleton_Some]]%lookup_app_Some; [by left|right].
  split; [lia|done].
Qed.

(** A new socket comes into use when none is. *)
Lemma socks_new url up l : socks_ok None up l ->
  socks_ok (Some (length l)) false (l ++ [MkSock url CONNECTING []]).
Proof.
  intros [Hr Hd Hs Hc]. split.
  - intros i [= <-]. rewrite length_app. simpl. lia.
  - intros j k [Hj|[-> ->]]%lookup_snoc Hne; [by eapply Hd|done].
  - intros j k [Hj|[-> ->]]%lookup_snoc; [by eapply Hs|done].
  - intros j k [Hj|[-> ->]]%lookup_snoc Hcur.
    + injection Hcur as <-. apply lookup_lt_Some in Hj. lia.
    + split; simpl; [done|done|lia].
Qed.

(** The socket in use changes, the others do not. *)
Lemma socks_alter f i up up' l :
  socks_ok (Some i) up l ->
  (forall k, l !! i = Some k -> introduced (k_sent (f k)) /\ current_ok up' (f k)) ->
  socks_ok (Some i) up' (alter f i l).
Proof.
  intros [Hr Hd Hs Hc] Hf. split.
  - intros j [= <-]. rewrite length_alter. by apply Hr.
  - intros j k (k' & Hj & ->)%lookup_alter_Some Hne. case_decide; [congruence|by eapply Hd].
  - intros j k (k' & Hj & ->)%lookup_alter_Some. case_decide; [subst; by apply Hf|by eapply Hs].
  - intros j k (k' & Hj & ->)%lookup_alter_Some [= <-]. rewrite decide_True by done. by apply Hf.
Qed.

Lemma socks_up i up up' l :
  socks_ok (Some i) up l -> (forall k, l !! i = Some k -> current_ok up' k) ->
  socks_ok (Some i) up' l.
Proof. intros [Hr Hd Hs Hc] Hf. split; try done. intros j k Hj [= <-]. by apply Hf. Qed.

(** Sending on the socket in use. *)
Lemma socks_send m i l :
  socks_ok (Some i) true l -> is_auth m = false ->
  (forall k, l !! i = Some k -> k_state k = OPEN) ->
  socks_ok (Some i) true (alter (fun k => k <| k_sent ::= fun l => l ++ [m] |>) i l).
Proof.
  intros Hl Hm Hopen. eapply socks_alter; [done|]. intros k Hk. specialize (Hopen k Hk).
  pose proof (so_sent _ _ _ Hl i k Hk) as Hs.
  destruct (so_current _ _ _ Hl i k Hk eq_refl) as [_ Ho _]. split.
  - apply introduced_app; auto.
  - split; cbn [k_state k_sent over]; rewrite ?Hopen; try done. intros _. by destruct (k_sent k).
Qed.

(** A socket opens and says who is there. *)
Lemma socks_open tok i l k :
  socks_ok (Some i) false l -> l !! i = Some k -> k_state k = CONNECTING ->
  socks_ok (Some i) false
    (alter (fun k => k <| k_sent ::= fun l => l ++ [CAuth tok] |>) i
       (alter (fun k => k <| k_state := OPEN |>) i l)).
Proof.
  intros Hl Hk Hc. destruct (so_current _ _ _ Hl i k Hk eq_refl) as [Hconn _ _].
  destruct (Hconn Hc) as [_ Hnil].
  assert (Heq : forall f g : Sock -> Sock, alter f i (alter g i l) = alter (fun k => f (g k)) i l).
  { intros f g. apply list_eq. intros j. rewrite !list_lookup_alter.
    case_decide; [subst|done]. rewrite !decide_True by done. by destruct (l !! j). }
  rewrite Heq. eapply socks_alter; [done|].
  intros k' Hk'. replace k' with k in * by congruence. simpl.
  split; [by rewrite Hnil; repeat constructor|]. split; simpl; rewrite ?Hnil; [done|by intros _ ?|simpl; lia].
Qed.

(** A socket dies by itself. *)
Lemma socks_set_dead r i cur up l :
  socks_ok cur up l -> r = CLOSING \/ r = CLOSED ->
  socks_ok cur up (alter (fun k => k <| k_state := r |>) i l).
Proof.
  intros [Hr Hd Hs Hc] Hdead. split.
  - intros j Hj. rewrite length_alter. by apply Hr.
  - intros j k (k' & Hj & ->)%lookup_alter_Some Hne. case_decide; [done|by eapply Hd].
  - intros j k (k' & Hj & ->)%lookup_alter_Some. case_decide; by eapply (Hs j k').
  - intros j k (k' & Hj & ->)%lookup_alter_Some Hcur. destruct (Hc j k' Hj Hcur) as [H1 H2 H3].
    case_decide; [|done]. by destruct Hdead as [-> | ->].
Qed.

(** ** Methods *)

Section Facts.
Context (page : Page) (blocked : string -> bool) (throws : nat -> ServerMessage -> bool).
Implicit Types (s : Conn) (w : World).

(** Hanging up touches the sockets and the probes only. *)
Lemma closeSocket_eq s : exists l,
  closeSocket s = ((s <| latencyTimer := None |>) <| socket := None |>) <| sockets := l |>
  /\ length l = length (sockets s)
  /\ forall up up', socks_ok (socket s) up (sockets s) -> socks_ok None up' l.
Proof.
  unfold closeSocket. destruct s as [? ? ? ? ? ? ? k ? ? ? ? ? ? ? ? l ?]. conn_simpl.
  destruct k as [i|]; [exists (alter close i l)|exists l]; (split; [done|]); split.
  - apply length_alter.
  - intros up up'. apply socks_closed.
  - done.
  - intros up up'. apply socks_none.
Qed.

(** Replace a call of [closeSocket] by what it leaves. *)
Ltac hang_up :=
  match goal with |- context [closeSocket ?s] =>
    let l := fresh "l" in let Hc := fresh "Hclose" in
    destruct (closeSocket_eq s) as (l & Hc & ? & ?); rewrite Hc; clear Hc end.

Ltac base_tac :=
  match goal with H : base _ |- base _ =>
    destruct H; split; conn_simpl; try done; try lia; eauto with lia end.

Lemma failConnection_ok w i s : fair w -> base s -> conn_ok (now w) (failConnection w i s).
Proof.
  intros Hf Hb. unfold failConnection, schedule_reconnect, dispatchEvent, clearTimers. hang_up.
  conn_simpl. destruct (active s) eqn:Ha; simpl.
  - pose proof (b_attempts _ Hb). pose proof (delay_bounds (reconnectAttempts s) (random w) ltac:(done) Hf).
    split; [base_tac; congruence|]. eapply Retrying; conn_simpl; try done.
    unfold getReconnectDelay. conn_simpl. lia.
  - split; [base_tac|]. by apply Off.
Qed.

Lemma doConnect_ok w url s : fair w -> base s -> active s = true ->
  conn_ok (now w) (doConnect blocked w url s).
Proof.
  intros Hf Hb Ha. unfold doConnect, clearTimers. hang_up. conn_simpl.
  destruct (blocked url).
  - apply failConnection_ok; [done|]. base_tac.
  - split; [base_tac; apply (socks_new _ false); eauto|]. eapply Joining; conn_simpl; done.
Qed.

(** A later clock. *)
Lemma waiting_later t t' s : t <= t' -> waiting t s -> waiting t' s.
Proof.
  intros Ht [? ? ? ? ? ? ?|? i d ? ? ? ? ? ? ?|? d ? ? ? ? ? ? ? ?|? i d ? ? ? ? ? ? ? ?].
  - by apply Off.
  - eapply Joining; try done. lia.
  - eapply Retrying; try done. lia.
  - eapply Up; try done. lia.
Qed.

Lemma conn_later t t' s : t <= t' -> conn_ok t s -> conn_ok t' s.
Proof. intros Ht [Hb Hw]. split; [done|by eapply waiting_later]. Qed.

(** An inactive connection has nothing left running. *)
Lemma idle_facts t s : conn_ok t s -> active s = false ->
  connected s = false /\ socket s = None /\ reconnectTimeout s = None /\ connectTimeout s = None
  /\ latencyTimer s = None.
Proof. intros [_ Hw] Ha. destruct Hw; try congruence. done. Qed.

Lemma connect_ok t w name s : fair w -> t <= now w ->
  conn_ok t s -> conn_ok (now w) (connect page blocked w name s).
Proof.
  intros Hf Ht Hs. unfold connect. destruct (active s) eqn:Ha; [by eapply conn_later|].
  apply doConnect_ok; [done| |done]. destruct Hs as [Hb _].
  pose proof (b_notice _ Hb) as Hn. rewrite (b_idle _ Hb Ha) in Hn. base_tac.
Qed.

Lemma reconnect_base w s : fair w -> base s -> active s = true ->
  conn_ok (now w) (reconnect page blocked w s).
Proof.
  intros Hf Hb Ha. unfold reconnect. rewrite Ha. simpl. apply doConnect_ok; [done|base_tac|done].
Qed.

Lemma disconnect_ok t s : conn_ok t s -> conn_ok t (disconnect s).
Proof.
  intros [Hb _]. unfold disconnect, clearTimers. hang_up. conn_simpl.
  split; [base_tac|by apply Off].
Qed.

Lemma onClose_ok w t code s : fair w -> t <= now w -> socket s <> None ->
  conn_ok t s -> conn_ok (now w) (onClose w code s).
Proof.
  intros Hf Ht Hsock [Hb Hw]. assert (Ha : active s = true) by (destruct Hw; congruence).
  unfold onClose. rewrite Ha. case_match; [|by apply failConnection_ok].
  unfold schedule_reconnect, dispatchEvent, clearTimers. hang_up. conn_simpl. case_match.
  - pose proof (delay_bounds (reconnectAttempts s) (random w) (b_attempts _ Hb) Hf).
    split; [base_tac; congruence|]. eapply Retrying; conn_simpl; try done.
    unfold getReconnectDelay. conn_simpl. lia.
  - split; [base_tac|by apply Off].
Qed.

(** ** Sending *)

(** A message over an open socket of a connection that is up. *)
Lemma ws_send_up i k m s :
  sockets s !! i = Some k -> k_state k = OPEN ->
  ws_send i m s = Some (s <| sockets ::= alter (fun k => k <| k_sent ::= fun l => l ++ [m] |>) i |>).
Proof. intros Hk Ho. unfold ws_send. by rewrite Hk, Ho. Qed.

Lemma is_open_true s i : socket s = Some i -> is_open s = true ->
  exists k, sockets s !! i = Some k /\ k_state k = OPEN.
Proof.
  intros Hi H%bool_decide_eq_true. unfold readyState in H. rewrite Hi in H. simpl in H.
  destruct (sockets s !! i) as [k|]; [|done]. exists k. simpl in H. split; [done|congruence].
Qed.

Lemma base_send i k m s : base s -> socket s = Some i -> connected s = true ->
  sockets s !! i = Some k -> k_state k = OPEN -> is_auth m = false ->
  base (s <| sockets ::= alter (fun k => k <| k_sent ::= fun l => l ++ [m] |>) i |>).
Proof.
  intros Hb Hi Hc Hk Ho Hm. pose proof (b_socks _ Hb) as Hl. rewrite Hi, Hc in Hl.
  base_tac. rewrite Hi, Hc. apply socks_send; [done|done|]. intros k' Hk'. congruence.
Qed.

Definition same_waiting s s' : Prop :=
  active s' = active s /\ connected s' = connected s /\ socket s' = socket s /\ issue s' = issue s
  /\ reconnectTimeout s' = reconnectTimeout s /\ connectTimeout s' = connectTimeout s
  /\ latencyTimer s' = latencyTimer s.

Lemma waiting_same t s s' : same_waiting s s' -> waiting t s -> waiting t s'.
Proof.
  intros (H1 & H2 & H3 & H4 & H5 & H6 & H7) Hw.
  destruct Hw as [|? i d|? d|? i d]; [apply Off|eapply Joining|eapply Retrying|eapply Up]; 
    rewrite ?H1, ?H2, ?H3, ?H4, ?H5, ?H6, ?H7; done.
Qed.

Lemma send_ok t m s s' : is_auth m = false -> conn_ok t s -> send m s = inr s' -> conn_ok t s'.
Proof.
  intros Hm [Hb Hw]. unfold send. destruct (active s) eqn:Ha; [|done]. simpl.
  destruct (socket s) as [i|] eqn:Hi; [|done].
  destruct (connected s) eqn:Hc; [|done]. destruct (is_open s) eqn:Hop; [|done]. simpl.
  destruct (is_open_true s i Hi Hop) as (k & Hk & Ho). rewrite (ws_send_up i k m s Hk Ho).
  intros [= <-]. split; [by eapply base_send|]. apply (waiting_same _ s); [by unfold same_waiting; conn_simpl|done].
Qed.

Lemma reauthenticate_ok t w s : conn_ok t s -> conn_ok t (reauthenticate w s).
Proof.
  intros Hs. unfold reauthenticate. case_match; [done|]. case_match; [|done].
  case_match; [done|]. destruct (send _ s) eqn:He; [done|].
  eapply (send_ok t (CReauthenticate _) s); [done|done|exact He].
Qed.

(** ** Probes and messages *)

Lemma same_waiting_refl s : same_waiting s s.
Proof. by unfold same_waiting. Qed.

(** While the other end answers, a probe is only one more message. *)
Lemma probe_sent w s : base s -> unansweredProbes s < MAX_UNANSWERED_PROBES ->
  base (sendLatencyProbe w s) /\ same_waiting s (sendLatencyProbe w s).
Proof.
  intros Hb Hn. unfold sendLatencyProbe.
  destruct (active s); [|by split; [|apply same_waiting_refl]].
  destruct (connected s) eqn:Hc; [|by split; [|apply same_waiting_refl]].
  destruct (is_open s) eqn:Hop; [|by split; [|apply same_waiting_refl]].
  simpl. case_match eqn:Hle; [lia|]. 
  destruct (socket s) as [i|] eqn:Hi; [|by split; [|apply same_waiting_refl]].
  destruct (is_open_true s i Hi Hop) as (k & Hk & Ho). rewrite (ws_send_up i k _ s Hk Ho).
  split; [|by unfold same_waiting; conn_simpl].
  assert (Hb' := base_send i k (CPing (now w)) s Hb Hi Hc Hk Ho eq_refl).
  pose proof (b_probes _ Hb). base_tac.
Qed.

Lemma sendLatencyProbe_ok w t s : fair w -> t <= now w ->
  conn_ok t s -> conn_ok (now w) (sendLatencyProbe w s).
Proof.
  intros Hf Ht Hs. pose proof (conn_later _ _ _ Ht Hs) as [Hb Hw].
  destruct (Z_lt_ge_dec (unansweredProbes s) MAX_UNANSWERED_PROBES) as [Hn|Hn].
  - destruct (probe_sent w s Hb Hn) as [Hb' Hsame]. split; [done|by eapply waiting_same].
  - unfold sendLatencyProbe. case_match; [done|]. case_match eqn:Hle; [by apply failConnection_ok|lia].
Qed.

Lemma joined_ok w i k s : base s -> active s = true -> socket s = Some i ->
  sockets s !! i = Some k -> k_state k <> CONNECTING -> connected s = false ->
  conn_ok (now w) (joined w s).
Proof.
  intros Hb Ha Hi Hk Hst Hc. unfold joined, startLatencyProbes.
  match goal with |- context [sendLatencyProbe w ?x] => set (s1 := x) end.
  assert (Hb1 : base s1).
  { subst s1. unfold dispatchEvent, clearTimers, stopLatencyProbes. pose proof (b_socks _ Hb) as Hl.
    rewrite Hi, Hc in Hl. base_tac. rewrite Hi. eapply socks_up; [done|].
    intros k' Hk'. replace k' with k by congruence.
    destruct (so_current _ _ _ Hl i k Hk eq_refl). split; done. }
  destruct (probe_sent w s1 Hb1) as [Hb2 (H1 & H2 & H3 & H4 & H5 & H6 & H7)]; [done|].
  split; [base_tac|]. eapply (Up _ _ i); conn_simpl; try done.
  - by rewrite H1.
  - by rewrite H3.
Qed.

Lemma base_calls f s : base s -> base (s <| calls ::= f |>).
Proof. intros Hb. base_tac. Qed.

Lemma handleMessage_ok t msg s : conn_ok t s -> conn_ok t (handleMessage throws msg s).
Proof.
  intros [Hb Hw]. split; [by apply base_calls|]. apply (waiting_same _ s); [by unfold same_waiting|done].
Qed.

Lemma onMessage_ok w t i k data s : t <= now w -> conn_ok t s ->
  socket s = Some i -> sockets s !! i = Some k -> k_state k <> CONNECTING ->
  conn_ok (now w) (onMessage throws w data s).
Proof.
  intros Ht Hs Hi Hk Hst. pose proof (conn_later _ _ _ Ht Hs) as Hs'.
  unfold onMessage. destruct data as [| |msg]; [done|done|]. case_match.
  - destruct Hs' as [Hb Hw]. split; [base_tac|]. apply (waiting_same _ s); [by unfold same_waiting|done].
  - apply handleMessage_ok. case_match eqn:Hj; [|done].
    apply andb_true_iff in Hj as [_ Hc%negb_true_iff].
    apply (joined_ok w i k); [apply Hs|destruct (c_waiting _ _ Hs); congruence|done..].
Qed.

(** ** Every event *)

Lemma set_state_dead_ok t i r s : r = CLOSING \/ r = CLOSED -> conn_ok t s -> conn_ok t (set_state i r s).
Proof.
  intros Hr [Hb Hw]. split; [|by apply (waiting_same _ s); [by unfold same_waiting|]].
  pose proof (b_socks _ Hb). base_tac. by apply socks_set_dead.
Qed.

Lemma opened_ok w t i k s : t <= now w -> conn_ok t s -> sockets s !! i = Some k ->
  k_state k = CONNECTING -> conn_ok (now w) (if_current i (onOpen w) (set_state i OPEN s)).
Proof.
  intros Ht Hs Hk Hst. destruct (conn_later _ _ _ Ht Hs) as [Hb Hw]. pose proof (b_socks _ Hb) as Hl.
  assert (Hi : socket s = Some i).
  { destruct (decide (socket s = Some i)) as [|Hne]; [done|].
    destruct (so_dead _ _ _ Hl i k Hk Hne); congruence. }
  assert (Hc : connected s = false).
  { destruct (so_current _ _ _ Hl i k Hk Hi) as [Hcon _ _]. by destruct (Hcon Hst). }
  unfold if_current. rewrite decide_True by done. unfold onOpen. conn_simpl. unfold set_state.
  conn_simpl. rewrite Hi. unfold ws_send. conn_simpl.
  rewrite list_lookup_alter_eq, Hk. simpl.
  split; [|by apply (waiting_same _ s); [by unfold same_waiting|]].
  rewrite Hi, Hc in Hl. base_tac. rewrite Hi, Hc. by eapply socks_open.
Qed.

Lemma reconnect_ok w t s : fair w -> t <= now w -> conn_ok t s ->
  conn_ok (now w) (reconnect page blocked w s).
Proof.
  intros Hf Ht Hs. destruct (active s) eqn:Ha; [apply reconnect_base; [done|apply Hs|done]|].
  unfold reconnect. rewrite Ha. by eapply conn_later.
Qed.

Lemma timers_ok w t e s : fair w -> t <= now w -> conn_ok t s ->
  e = IReconnectTimer \/ e = IConnectTimer \/ e = ILatencyTimer ->
  conn_ok (now w) (handle page blocked throws w e s).
Proof.
  intros Hf Ht Hs He. pose proof (conn_later _ _ _ Ht Hs) as Hs'. destruct Hs' as [Hb Hw].
  assert (Hs' : conn_ok (now w) s) by done.
  destruct He as [->|[->| ->]]; simpl.
  - unfold onReconnectTimer. destruct (reconnectTimeout s) as [d|] eqn:Hr; [|done].
    case_match; [|done]. apply reconnect_base; [done|base_tac|].
    destruct Hw; try congruence. conn_simpl. congruence.
  - unfold onConnectTimer. destruct (connectTimeout s) as [[d i]|] eqn:Hr; [|done].
    case_match; [|done]. assert (Hi : socket s = Some i) by (destruct Hw; congruence).
    unfold if_current. rewrite decide_True by done. apply failConnection_ok; [done|base_tac].
  - unfold onLatencyTimer. destruct (latencyTimer s) as [d|] eqn:Hr; [|done].
    case_match; [|done]. eapply sendLatencyProbe_ok; [done|reflexivity|].
    split; [base_tac|]. destruct Hw as [| | |? i d' ? ? ? ? ? ? Hd Hle]; try congruence.
    eapply (Up _ _ i); conn_simpl; done.
Qed.

Lemma if_current_ok t i f s : conn_ok t s ->
  (socket s = Some i -> conn_ok t (f s)) -> conn_ok t (if_current i f s).
Proof. unfold if_current. case_decide; auto. Qed.

Lemma handlers_ok t f g s : conn_ok t s ->
  conn_ok t ((s <| messageHandlers ::= f |>) <| eventHandlers ::= g |>).
Proof.
  intros [Hb Hw]. split; [base_tac|]. apply (waiting_same _ s); [by unfold same_waiting|done].
Qed.

Lemma handlers_ok' t s s' : conn_ok t s ->
  (forall f g, (s <| messageHandlers ::= f |>) <| eventHandlers ::= g |> = s' -> conn_ok t s').
Proof. intros Hs f g <-. by apply handlers_ok. Qed.

Theorem handle_ok w t e s : fair w -> t <= now w -> possible e s = true -> conn_ok t s ->
  conn_ok (now w) (handle page blocked throws w e s).
Proof.
  intros Hf Ht Hp Hs. pose proof (conn_later _ _ _ Ht Hs) as Hs'. pose proof (c_base _ _ Hs) as Hb.
  destruct e as [name| | | |m|a h|a h| |k h|k h| | |hid|i|i|i code|i data|i| | |];
    try (apply (timers_ok w t); tauto); cbn [handle].
  - by eapply connect_ok.
  - by eapply reconnect_ok.
  - by apply reauthenticate_ok.
  - by apply disconnect_ok.
  - destruct (send (CText m) s) eqn:He; [done|]. by eapply (send_ok _ (CText m) s).
  - by eapply (handlers_ok' _ s _ Hs' _ (fun x => x)).
  - by eapply (handlers_ok' _ s _ Hs' _ (fun x => x)).
  - by eapply (handlers_ok' _ s _ Hs' (fun _ => []) (fun x => x)).
  - by eapply (handlers_ok' _ s _ Hs' (fun x => x) _).
  - by eapply (handlers_ok' _ s _ Hs' (fun x => x) _).
  - case_match; [|done]. unfold onOnline. case_match; [|done]. by eapply reconnect_ok.
  - case_match; [|done]. unfold onOffline. case_match; [|done]. by apply failConnection_ok.
  - case_match; [|done]. unfold onVisibilityChange. case_match; [|done]. by eapply reconnect_ok.
  - simpl in Hp. apply bool_decide_eq_true in Hp. apply fmap_Some in Hp as (k & Hk & Hst).
    by eapply opened_ok.
  - apply set_state_dead_ok; auto.
  - apply if_current_ok; [apply set_state_dead_ok; auto|]. intros Hi.
    eapply onClose_ok; [done|reflexivity|congruence|]. apply set_state_dead_ok; auto.
  - apply if_current_ok; [done|]. intros Hi. simpl in Hp.
    apply orb_true_iff in Hp as [Hp|Hp]; apply bool_decide_eq_true in Hp;
      apply fmap_Some in Hp as (k & Hk & Hst); eapply onMessage_ok; try done; congruence.
  - apply if_current_ok; [done|]. intros _. by apply failConnection_ok.
Qed.

(** A retry is a new socket, when the browser lets it be made. *)
Lemma reconnect_opens w s s0 : active s = true -> roomName s = roomName s0 ->
  length (sockets s) = length (sockets s0) ->
  blocked (connectionUrl page s0 +:+ "?reconnect=true") = false ->
  let s' := reconnect page blocked w s in
  active s' = true /\ socket s' = Some (length (sockets s0)) /\
  sockets s' !! length (sockets s0)
    = Some (MkSock (connectionUrl page s0 +:+ "?reconnect=true") CONNECTING []).
Proof.
  intros Ha Hn Hl Hbl. unfold reconnect, doConnect, clearTimers. rewrite Ha. simpl negb. cbv iota.
  replace (connectionUrl page (s <| reconnectAttempts ::= Z.add 1 |>)) with (connectionUrl page s0)
    by (unfold connectionUrl; conn_simpl; by rewrite Hn).
  rewrite Hbl. hang_up. conn_simpl. replace (length l) with (length (sockets s0)) by congruence.
  split_and!; [done|done|]. rewrite lookup_app_r by lia.
  by replace (length (sockets s0) - length l)%nat with 0%nat by lia.
Qed.

(** A failure of an active connection is followed by a retry. *)
Lemma failConnection_retries w i s : fair w -> base s -> active s = true ->
  exists d, reconnectTimeout (failConnection w i s) = Some d /\ now w + 500 <= d <= now w + 30000
    /\ active (failConnection w i s) = true /\ connected (failConnection w i s) = false
    /\ roomName (failConnection w i s) = roomName s
    /\ length (sockets (failConnection w i s)) = length (sockets s).
Proof.
  intros Hf Hb Ha. unfold failConnection, schedule_reconnect, dispatchEvent, clearTimers. hang_up.
  conn_simpl. rewrite Ha. simpl. pose proof (delay_bounds (reconnectAttempts s) (random w) (b_attempts _ Hb) Hf).
  eexists. split; [done|]. unfold getReconnectDelay. conn_simpl. split_and!; try done; lia.
Qed.

(** ** Staying up *)

Definition probes s : bool * Z := (active s, unansweredProbes s).

Lemma failConnection_down w i s : connected (failConnection w i s) = false.
Proof.
  unfold failConnection, schedule_reconnect, dispatchEvent, clearTimers. hang_up. conn_simpl.
  by destruct (active s).
Qed.

Lemma doConnect_down w url s : connected (doConnect blocked w url s) = false.
Proof.
  unfold doConnect, clearTimers. hang_up. conn_simpl. destruct (blocked url); [|done].
  apply failConnection_down.
Qed.

Lemma reconnect_down w s : active s = true -> connected (reconnect page blocked w s) = false.
Proof. intros Ha. unfold reconnect. rewrite Ha. apply doConnect_down. Qed.

Lemma onClose_down w code s : active s = true -> connected (onClose w code s) = false.
Proof.
  intros Ha. unfold onClose. rewrite Ha. case_match; [|apply failConnection_down].
  unfold schedule_reconnect, dispatchEvent, clearTimers. hang_up. conn_simpl. by case_match.
Qed.

Lemma ws_send_probes i m s s' : ws_send i m s = Some s' ->
  probes s' = probes s /\ connected s' = connected s /\ socket s' = socket s.
Proof.
  unfold ws_send. destruct (sockets s !! i) as [k|]; [|done].
  destruct (k_state k); try done; by intros [= <-].
Qed.

Lemma send_probes m s s' : send m s = inr s' -> probes s' = probes s.
Proof.
  unfold send. case_match; [done|]. destruct (socket s) as [i|]; [|done]. case_match; [done|].
  destruct (ws_send i m s) eqn:Hw; [|done]. intros [= <-]. by eapply ws_send_probes.
Qed.

(** What an event that leaves the connection up does to the count of unanswered probes:
    nothing, unless it is an answer or the probe timer. *)
Lemma stays_up w e s :
  active s = true -> connected s = true -> connected (handle page blocked throws w e s) = true ->
  match e with
  | ILatencyTimer => True
  | ISocketMessage _ (Parsed m) => String.eqb (m_action m) "pong" = false ->
      probes (handle page blocked throws w e s) = probes s
  | _ => probes (handle page blocked throws w e s) = probes s
  end.
Proof.
  intros Ha Hc Hc'.
  destruct e as [name| | | |m|a h|a h| |k h|k h| | |hid|i|i|i code|i data|i| | |]; try done;
    cbn [handle] in *.
  - unfold connect. by rewrite Ha.
  - by rewrite reconnect_down in Hc'.
  - unfold reauthenticate. rewrite Ha, Hc. simpl. destruct (token w) as [[|c t]|]; try done.
    destruct (send _ s) eqn:He; [done|by eapply send_probes].
  - unfold disconnect in Hc'. destruct (closeSocket_eq (clearTimers
      ((((s <| active := false |>) <| connected := false |>) <| reconnecting := false |>) <| issue := None |>)))
      as (l & Hl & _). rewrite Hl in Hc'. done.
  - destruct (send _ s) eqn:He; [done|by eapply send_probes].
  - unfold onOnline. rewrite Hc, andb_false_r. by case_match.
  - unfold onOffline in *. rewrite Ha in *. case_match; [|done]. by rewrite failConnection_down in Hc'.
  - unfold onVisibilityChange. rewrite Hc, andb_false_r. by case_match.
  - unfold if_current in *. case_decide; [|done]. unfold onOpen in *.
    case_match; [|by rewrite failConnection_down in Hc'].
    case_match eqn:Hw; [|by rewrite failConnection_down in Hc'].
    by apply ws_send_probes in Hw as [-> _].
  - unfold if_current in *. case_decide; [|done]. by rewrite onClose_down in Hc'.
  - unfold if_current in *. case_decide; [|by destruct data]. unfold onMessage in *.
    destruct data as [| |msg]; [done|done|]. intros Hp. rewrite Hp. unfold completes_join.
    by rewrite Hc, andb_false_r.
  - unfold if_current in *. case_decide; [|done]. by rewrite failConnection_down in Hc'.
  - unfold onReconnectTimer in *. case_match; [|done]. case_match; [|done].
    by rewrite reconnect_down in Hc'.
  - unfold onConnectTimer in *. case_match; [|done]. case_match. case_match; [|done].
    unfold if_current in *. case_decide; [|done]. by rewrite failConnection_down in Hc'.
Qed.

(** The probe timer: one more probe, or the end of the connection. *)
Lemma probe_counts w s :
  active s = true -> connected s = true -> is_open s = true -> connected (sendLatencyProbe w s) = true ->
  active (sendLatencyProbe w s) = true /\
  unansweredProbes (sendLatencyProbe w s) = unansweredProbes s + 1 /\
  unansweredProbes s < MAX_UNANSWERED_PROBES.
Proof.
  intros Ha Hc Ho. unfold sendLatencyProbe. rewrite Ha, Hc, Ho. simpl.
  case_match eqn:Hn; [by rewrite failConnection_down|]. apply Z.leb_gt in Hn.
  destruct (socket s) as [i|] eqn:Hi; [|by unfold is_open, readyState in Ho; rewrite Hi in Ho].
  destruct (is_open_true s i Hi Ho) as (k & Hk & Hop). rewrite (ws_send_up i k _ s Hk Hop).
  conn_simpl. intros _. split_and!; [done|lia|lia].
Qed.

(** ** Being shown out *)

Definition is_connect (e : input) : bool := match e with IConnect _ => true | _ => false end.

Lemma onClose_spec w code s : base s -> fair w -> active s = true ->
  let s' := onClose w code s in
  let again := (code <? 4000) || (code =? UNKNOWN) && (reconnectAttempts s <? MAX_UNKNOWN_RECONNECTS) in
  socket s' = None /\ connected s' = false /\
  if again then
    active s' = true /\ issue s' = Some Network /\ kickReason s' = None /\
    exists d, reconnectTimeout s' = Some d /\ now w + 500 <= d <= now w + 30000
  else active s' = false /\ issue s' = None /\ kickReason s' = Some code /\ reconnectTimeout s' = None.
Proof.
  intros Hb Hf Ha. cbv zeta. pose proof (b_kick _ Hb Ha) as Hk.
  pose proof (delay_bounds (reconnectAttempts s) (random w) (b_attempts _ Hb) Hf).
  unfold onClose, failConnection. rewrite Ha.
  rewrite (Z.ltb_antisym 4000 code). destruct (4000 <=? code); simpl;
    unfold schedule_reconnect, dispatchEvent, clearTimers; hang_up; conn_simpl.
  - destruct ((code =? UNKNOWN) && (reconnectAttempts s <? MAX_UNKNOWN_RECONNECTS)); [|done].
    split_and!; try done. eexists. split; [done|]. unfold getReconnectDelay. conn_simpl. lia.
  - rewrite Ha. simpl. split_and!; try done. eexists. split; [done|].
    unfold getReconnectDelay. conn_simpl. lia.
Qed.

(** Shown out for the reason [r], with [n] sockets behind: nothing is left that could act. *)
Record shown_out (r : option Z) (n : nat) s : Prop := {
  out_active : active s = false;
  out_connected : connected s = false;
  out_socket : socket s = None;
  out_reason : kickReason s = r;
  out_sockets : length (sockets s) = n;
  out_retry : reconnectTimeout s = None;
  out_connect : connectTimeout s = None;
  out_listening : listening s = false;
}.

Lemma onClose_final w code s : 4000 <= code ->
  code <> UNKNOWN \/ MAX_UNKNOWN_RECONNECTS <= reconnectAttempts s ->
  shown_out (Some code) (length (sockets s)) (onClose w code s).
Proof.
  intros Hc Hu. unfold onClose. rewrite (proj2 (Z.leb_le _ _)) by done.
  unfold dispatchEvent, clearTimers, schedule_reconnect. hang_up. conn_simpl.
  case_match eqn:Hag; [|by split].
  apply andb_true_iff in Hag as [?%Z.eqb_eq ?%Z.ltb_lt]. lia.
Qed.

Lemma stays_out w e r n s : is_connect e = false -> shown_out r n s ->
  shown_out r n (handle page blocked throws w e s).
Proof.
  intros He Hs. pose proof Hs as [Ha Hc Hi Hk Hn Hr Hct Hl].
  destruct e as [name| | | |m|a h|a h| |k h|k h| | |hid|i|i|i code|i data|i| | |]; try done;
    cbn [handle];
    try (unfold if_current; rewrite decide_False by (unfold set_state; conn_simpl; congruence));
    try (rewrite Hl; exact Hs);
    try (split; unfold set_state; conn_simpl; rewrite ?length_alter; assumption);
    try exact Hs.
  - unfold reconnect. by rewrite Ha.
  - unfold reauthenticate. by rewrite Ha.
  - unfold disconnect, clearTimers, closeSocket, stopLatencyProbes. conn_simpl. rewrite Hi. by split.
  - unfold send. by rewrite Ha.
  - unfold onReconnectTimer. by rewrite Hr.
  - unfold onConnectTimer. by rewrite Hct.
  - unfold onLatencyTimer. case_match; [|done]. case_match; [|done]. unfold sendLatencyProbe.
    conn_simpl. rewrite Ha. simpl. by split.
Qed.

(** ** Latency *)

Record latency_ok (l : Latency) : Prop := {
  la_few : (length (samples l) <= MAX_SAMPLES)%nat;
  la_plausible : Forall (fun q => 0 <= q <= MAX_PLAUSIBLE_RTT_MS)%Q (samples l);
}.

Lemma note_ok r t l : latency_ok l -> latency_ok (noteLatencySample r t l).
Proof.
  intros Hl. pose proof Hl as [Hn Hp]. unfold noteLatencySample. destruct r as [q| |]; try done.
  destruct (Qlt_bool q 0) eqn:H0; [done|]. destruct (Qlt_bool MAX_PLAUSIBLE_RTT_MS q) eqn:H1; [done|].
  apply Qlt_bool_false in H0, H1. simpl.
  assert (Hall : Forall (fun q => 0 <= q <= MAX_PLAUSIBLE_RTT_MS)%Q (samples l ++ [q])).
  { apply Forall_app. by repeat constructor. }
  unfold last_samples. split; simpl; case_match eqn:Hlen.
  - rewrite length_drop. lia.
  - apply Nat.ltb_ge in Hlen. lia.
  - by apply Forall_drop.
  - done.
Qed.

Lemma Qmin'_le x y : (Qmin' x y <= x)%Q /\ (Qmin' x y <= y)%Q.
Proof.
  unfold Qmin'. destruct (Qle_bool x y) eqn:H; [apply Qle_bool_iff in H; split; lra|].
  assert (~ x <= y)%Q by (rewrite <- Qle_bool_iff; congruence). split; lra.
Qed.

Lemma fold_min_le l x : (fold_left Qmin' l x <= x)%Q /\ Forall (fun y => fold_left Qmin' l x <= y)%Q l.
Proof.
  revert x. induction l as [|y l IH]; intros x; simpl; [split; [lra|done]|].
  destruct (IH (Qmin' x y)) as [H1 H2], (Qmin'_le x y). split; [lra|]. constructor; [lra|done].
Qed.

Lemma fold_min_in l x : fold_left Qmin' l x ∈ x :: l.
Proof.
  revert x. induction l as [|y l IH]; intros x; simpl; [by left|].
  specialize (IH (Qmin' x y)). apply elem_of_cons in IH as [->|IH]; [|by do 2 right].
  unfold Qmin'. destruct (Qle_bool x y); [by left|right; by left].
Qed.

Lemma failConnection_latency w i s : latency (failConnection w i s) = latency s.
Proof.
  unfold failConnection, schedule_reconnect, dispatchEvent, clearTimers. hang_up. conn_simpl.
  by destruct (active s).
Qed.

Lemma doConnect_latency w url s : latency (doConnect blocked w url s) = latency s.
Proof.
  unfold doConnect, clearTimers. hang_up. conn_simpl. destruct (blocked url); [|done].
  by rewrite failConnection_latency.
Qed.

Lemma reconnect_latency w s : latency (reconnect page blocked w s) = latency s.
Proof. unfold reconnect. case_match; [done|]. by rewrite doConnect_latency. Qed.

Lemma ws_send_latency i m s s' : ws_send i m s = Some s' -> latency s' = latency s.
Proof.
  unfold ws_send. destruct (sockets s !! i) as [k|]; [|done].
  destruct (k_state k); try done; by intros [= <-].
Qed.

Lemma send_latency m s s' : send m s = inr s' -> latency s' = latency s.
Proof.
  unfold send. case_match; [done|]. destruct (socket s) as [i|]; [|done]. case_match; [done|].
  destruct (ws_send i m s) eqn:Hw; [|done]. intros [= <-]. by eapply ws_send_latency.
Qed.

Lemma probe_latency w s : latency (sendLatencyProbe w s) = latency s.
Proof.
  unfold sendLatencyProbe. case_match; [done|]. case_match; [apply failConnection_latency|].
  destruct (socket s) as [i|]; [|done]. destruct (ws_send i _ s) eqn:Hw; [|done].
  by apply ws_send_latency in Hw.
Qed.

Lemma onClose_latency w code s : latency (onClose w code s) = latency s.
Proof.
  unfold onClose. case_match; [|case_match; [apply failConnection_latency|done]].
  unfold schedule_reconnect, dispatchEvent, clearTimers. hang_up. conn_simpl. by case_match.
Qed.

Lemma latency_timer v s : latency (s <| latencyTimer := v |>) = latency s.
Proof. reflexivity. Qed.

Lemma startLatencyProbes_latency w s : latency (startLatencyProbes w s) = latency s.
Proof. unfold startLatencyProbes. by rewrite latency_timer, probe_latency. Qed.

Lemma joined_latency w s : latency (joined w s) = latency s.
Proof. unfold joined. by rewrite startLatencyProbes_latency. Qed.

Lemma handleMessage_latency msg s : latency (handleMessage throws msg s) = latency s.
Proof. reflexivity. Qed.

Lemma onMessage_latency w data s : latency_ok (latency s) -> latency_ok (latency (onMessage throws w data s)).
Proof.
  intros Hl. unfold onMessage. destruct data as [| |msg]; [done|done|].
  destruct (String.eqb (m_action msg) "pong"); [by apply note_ok|].
  rewrite handleMessage_latency. destruct (completes_join msg s); [by rewrite joined_latency|done].
Qed.

Lemma handle_latency w e s : latency_ok (latency s) -> latency_ok (latency (handle page blocked throws w e s)).
Proof.
  intros Hl.
  destruct e as [name| | | |m|a h|a h| |k h|k h| | |hid|i|i|i code|i data|i| | |]; try done;
    cbn [handle]; unfold if_current.
  - unfold connect. case_match; [done|]. rewrite doConnect_latency. by split; [simpl; lia|constructor].
  - by rewrite reconnect_latency.
  - unfold reauthenticate. case_match; [done|]. destruct (token w) as [[|c t]|]; try done.
    destruct (send _ s) eqn:He; [done|]. by rewrite (send_latency _ _ _ He).
  - unfold disconnect, clearTimers. hang_up. done.
  - destruct (send _ s) eqn:He; [done|]. by rewrite (send_latency _ _ _ He).
  - case_match; [|done]. unfold onOnline. case_match; [|done]. by rewrite reconnect_latency.
  - case_match; [|done]. unfold onOffline. case_match; [|done]. by rewrite failConnection_latency.
  - case_match; [|done]. unfold onVisibilityChange. case_match; [|done]. by rewrite reconnect_latency.
  - case_decide; [|done]. unfold onOpen. case_match; [|by rewrite failConnection_latency].
    case_match eqn:Hw; [|by rewrite failConnection_latency]. by rewrite (ws_send_latency _ _ _ _ Hw).
  - case_decide; [|done]. by rewrite onClose_latency.
  - case_decide; [|done]. by apply onMessage_latency.
  - case_decide; [|done]. by rewrite failConnection_latency.
  - unfold onReconnectTimer. do 2 (case_match; [|done]). by rewrite reconnect_latency.
  - unfold onConnectTimer. case_match; [|done]. case_match. case_match; [|done]. unfold if_current.
    case_decide; [|done]. by rewrite failConnection_latency.
  - unfold onLatencyTimer. do 2 (case_match; [|done]). by rewrite probe_latency.
Qed.

(** ** Reachable states *)

Inductive reachable : Z -> Conn -> Prop :=
| Start t : reachable t new_connection
| Step t s w e : reachable t s -> t <= now w -> fair w -> possible e s = true ->
    reachable (now w) (handle page blocked throws w e s).

Lemma new_ok t : conn_ok t new_connection.
Proof. split; [split; simpl; try done; lia|by apply Off]. Qed.

Lemma reachable_ok t s : reachable t s -> conn_ok t s.
Proof.
  induction 1 as [t|t s w e _ IH Ht Hf Hp]; [apply new_ok|by eapply handle_ok].
Qed.

Lemma reachable_latency t s : reachable t s -> latency_ok (latency s).
Proof.
  induction 1 as [t|t s w e _ IH _ _ _]; [by split; [simpl; lia|constructor]|by apply handle_latency].
Qed.

(** ** Runs *)

Definition run_events (s : Conn) (l : list (World * input)) : Conn :=
  fold_left (fun s we => handle page blocked throws we.1 we.2 s) l s.

(** A run the browser could deliver, the clock starting at [t]. *)
Fixpoint plausible (t : Z) (l : list (World * input)) s : bool :=
  match l with
  | [] => true
  | (w, e) :: rest =>
      (t <=? now w) && Qle_bool 0 (random w) && Qlt_bool (random w) 1 && possible e s
      && plausible (now w) rest (handle page blocked throws w e s)
  end.

Definition ends (t : Z) (l : list (World * input)) : Z := fold_left (fun _ we => now we.1) l t.

Lemma run_reachable t l s : reachable t s -> plausible t l s = true -> reachable (ends t l) (run_events s l).
Proof.
  revert t s. induction l as [|[w e] l IH]; intros t s Hr Hp; [done|].
  simpl in Hp. rewrite !andb_true_iff, Z.leb_le, Qle_bool_iff, Qlt_bool_iff in Hp.
  destruct Hp as ((((Ht & H0) & H1) & Hpos) & Hp).
  apply (IH (now w)); [|done]. by apply (Step t).
Qed.

End Facts.
