(* ===== verification/ConnectionTheorems.v ===== *)
(** * ConnectionTheorems: what the client's link to a room promises

    The properties of [Connection.v], over every state the browser's events can lead to. *)

From S2P Require Import Prelude Connection ConnectionFacts.
Import Connection.

Section Theorems.
Context (page : Page) (blocked : string -> bool) (throws : nat -> ServerMessage -> bool).
Implicit Types (s : Conn) (w : World).

Notation handle := (handle page blocked throws).
Notation reachable := (reachable page blocked throws).
Notation connectionUrl := (connectionUrl page).

Definition live (k : Sock) : Prop := k_state k = CONNECTING \/ k_state k = OPEN.

(** In every reachable state at most one socket is alive, and it is the one in use; an
    inactive connection has no socket, no timer and no listener on the window; a connected
    one is active, has no issue to show and has its probe timer set; an active connection
    that is not connected has exactly one of the two timers that end the wait; the
    reconnecting notice is shown exactly while there is an issue. *)
Theorem connection_consistent t s : reachable t s ->
  (forall i j k k', sockets s !! i = Some k -> sockets s !! j = Some k' -> live k -> live k' -> i = j)
  /\ (forall i k, sockets s !! i = Some k -> live k -> socket s = Some i)
  /\ (active s = false -> socket s = None /\ connected s = false /\ listening s = false /\
        reconnectTimeout s = None /\ connectTimeout s = None /\ latencyTimer s = None)
  /\ (connected s = true -> active s = true /\ is_Some (socket s) /\ issue s = None /\ is_Some (latencyTimer s))
  /\ (active s = true -> connected s = false ->
        (is_Some (connectTimeout s) <-> reconnectTimeout s = None) /\
        (is_Some (connectTimeout s) <-> is_Some (socket s)))
  /\ reconnecting s = bool_decide (is_Some (issue s)).
Proof.
  intros Hr. destruct (reachable_ok _ _ _ _ _ Hr) as [Hb Hw].
  assert (Huse : forall i k, sockets s !! i = Some k -> live k -> socket s = Some i).
  { intros i k Hi Hl. destruct (decide (socket s = Some i)) as [|Hne]; [done|].
    destruct (so_dead _ _ _ (b_socks _ Hb) i k Hi Hne), Hl; congruence. }
  split_and!; [|done|..].
  - intros i j k k' Hi Hj Hl Hl'. pose proof (Huse _ _ Hi Hl). pose proof (Huse _ _ Hj Hl'). congruence.
  - intros Ha. rewrite (b_listening _ Hb). destruct Hw; congruence || done.
  - intros Hc. destruct Hw; try congruence. rewrite H1, H5. eauto.
  - intros Ha Hc. destruct Hw as [|? i d ? ? Hs Hr' Hct|? d ? ? Hs ? Hr' ? Hct|]; try congruence;
      rewrite Hs, Hr', Hct; split; split; intros Hx; try done; try (by destruct Hx); eauto.
  - apply (b_notice _ Hb).
Qed.

(** C29: A connection never gives up by itself: from any reachable state in which it is active
    and not connected, whatever it is waiting for, once the connection timeout (fifteen
    seconds) and then the retry timer (at most thirty) have had their time, a fresh socket to
    the room is in use, opened as a reconnection. *)
Theorem never_gives_up t s w1 w2 :
  reachable t s -> active s = true -> connected s = false ->
  fair w1 -> fair w2 -> t + CONNECT_TIMEOUT_MS <= now w1 -> now w1 + 30000 <= now w2 ->
  blocked (connectionUrl s +:+ "?reconnect=true") = false ->
  let s' := handle w2 IReconnectTimer (handle w1 IConnectTimer s) in
  active s' = true /\ socket s' = Some (length (sockets s)) /\
  sockets s' !! length (sockets s) = Some (MkSock (connectionUrl s +:+ "?reconnect=true") CONNECTING []).
Proof.
  intros Hr Ha Hc Hf1 Hf2 Ht1 Ht2 Hbl. destruct (reachable_ok _ _ _ _ _ Hr) as [Hb Hw].
  assert (Hretry : forall s1 d, active s1 = true -> roomName s1 = roomName s ->
    length (sockets s1) = length (sockets s) -> reconnectTimeout s1 = Some d -> d <= now w2 ->
    let s' := handle w2 IReconnectTimer s1 in
    active s' = true /\ socket s' = Some (length (sockets s)) /\
    sockets s' !! length (sockets s) = Some (MkSock (connectionUrl s +:+ "?reconnect=true") CONNECTING [])).
  { intros s1 d Ha1 Hn1 Hl1 Hr1 Hd. simpl. unfold onReconnectTimer. rewrite Hr1.
    apply Z.leb_le in Hd. rewrite Hd. by apply reconnect_opens. }
  destruct Hw as [|s i d ? ? Hi ? Hct Hd|s d ? ? Hi ? Hrt Hd Hct|]; try congruence.
  - destruct (failConnection_retries w1 Timeout (s <| connectTimeout := None |>))
      as (d' & Hd' & Hle & Ha' & _ & Hn' & Hl'); [done|by destruct Hb|done|].
    simpl Connection.handle at 2. unfold onConnectTimer. rewrite Hct.
    rewrite (proj2 (Z.leb_le _ _)) by lia.
    unfold if_current. rewrite decide_True by done. apply (Hretry _ d'); try done. lia.
  - simpl Connection.handle at 2. unfold onConnectTimer. rewrite Hct.
    apply (Hretry _ d); try done. unfold CONNECT_TIMEOUT_MS in *. lia.
Qed.

(** ** A peer that has gone silent *)

Definition is_pong (e : input) : bool :=
  match e with ISocketMessage _ (Parsed m) => String.eqb (m_action m) "pong" | _ => false end.

(** The probe timer fires at this event. *)
Definition probe_due w (e : input) s : bool :=
  match e, latencyTimer s with ILatencyTimer, Some due => due <=? now w | _, _ => false end.

(** [silent s n s']: from [s] to [s'] the connection stayed up, on a socket that looks open,
    without an answer to a probe; its probe timer fired [n] times. *)
Inductive silent (s : Conn) : Z -> Conn -> Prop :=
| silent_none : silent s 0 s
| silent_more n s' w e : silent s n s' -> is_pong e = false -> connected s' = true -> is_open s' = true ->
    connected (handle w e s') = true ->
    silent s (n + if probe_due w e s' then 1 else 0) (handle w e s').

Lemma silent_counts w e s :
  active s = true -> is_pong e = false -> connected s = true -> is_open s = true ->
  connected (handle w e s) = true ->
  active (handle w e s) = true /\
  unansweredProbes (handle w e s) = unansweredProbes s + (if probe_due w e s then 1 else 0) /\
  (unansweredProbes s <= MAX_UNANSWERED_PROBES -> unansweredProbes (handle w e s) <= MAX_UNANSWERED_PROBES).
Proof.
  intros Ha Hp Hc Ho Hc'. pose proof (stays_up page blocked throws w e s Ha Hc Hc') as Hu.
  assert (Hsame : forall s', probes s' = probes s -> probe_due w e s = false ->
    active s' = true /\
    unansweredProbes s' = unansweredProbes s + (if probe_due w e s then 1 else 0) /\
    (unansweredProbes s <= MAX_UNANSWERED_PROBES -> unansweredProbes s' <= MAX_UNANSWERED_PROBES)).
  { intros s' Hs' ->. unfold probes in Hs'. injection Hs' as -> ->. by rewrite Z.add_0_r. }
  destruct e as [| | | | | | | | | | | | | | | |i [| |msg]| | | |];
    try (apply Hsame; [exact Hu|reflexivity]).
  - apply Hsame; [exact (Hu Hp)|reflexivity].
  - clear Hu. cbn [Connection.handle] in *. unfold probe_due, onLatencyTimer in *.
    destruct (latencyTimer s) as [d|]; [|by apply Hsame].
    destruct (d <=? now w); [|by apply Hsame].
    set (s1 := s <| latencyTimer := Some (now w + LATENCY_PROBE_INTERVAL_MS) |>) in *.
    assert (Ho1 : is_open s1 = true) by exact Ho.
    destruct (probe_counts w s1 Ha Hc Ho1 Hc') as (H1 & H2 & H3).
    change (unansweredProbes s1) with (unansweredProbes s) in *. split_and!; [done|done|]. lia.
Qed.

(** A half-open socket is noticed: while nothing answers the probes, the probe timer can
    fire only as often as probes may still go unanswered (at most twice) before the connection
    goes down, whatever else happens in between. *)
Theorem half_open_is_noticed t s n s' :
  reachable t s -> active s = true -> silent s n s' -> connected s' = true ->
  n <= MAX_UNANSWERED_PROBES - unansweredProbes s /\ unansweredProbes s' = unansweredProbes s + n.
Proof.
  intros Hr Ha Hs Hc. destruct (b_probes _ (c_base _ _ (reachable_ok _ _ _ _ _ Hr))) as [_ Hmax].
  assert (active s' = true /\ unansweredProbes s' = unansweredProbes s + n
          /\ unansweredProbes s' <= MAX_UNANSWERED_PROBES) as (_ & ? & ?); [|lia].
  clear Hc. induction Hs as [|n s' w e Hs IH Hp Hc Ho Hc']; [split_and!; [done|lia|done]|].
  destruct IH as (Ha' & Hn & Hle). destruct (silent_counts w e s' Ha' Hp Hc Ho Hc') as (H1 & H2 & H3).
  split_and!; [done|lia|auto].
Qed.

(** ** When the server closes *)

(** How a close of the socket in use is taken.  A code below 4000 (a lost link, a server
    going away), and an unknown error of the room (4000) that has not happened twice in a row,
    end in another attempt after half a second to thirty; any other code of the room is shown
    as the reason and ends the connection. *)
Theorem close_is_sorted w t i code s :
  reachable t s -> socket s = Some i -> fair w -> t <= now w ->
  let s' := handle w (ISocketClose i code) s in
  let again := (code <? 4000) || (code =? UNKNOWN) && (reconnectAttempts s <? MAX_UNKNOWN_RECONNECTS) in
  socket s' = None /\ connected s' = false /\
  if again then
    active s' = true /\ issue s' = Some Network /\ kickReason s' = None /\
    exists d, reconnectTimeout s' = Some d /\ now w + 500 <= d <= now w + 30000
  else active s' = false /\ issue s' = None /\ kickReason s' = Some code /\ reconnectTimeout s' = None.
Proof.
  intros Hr Hi Hf Ht s'. pose proof (reachable_ok _ _ _ _ _ Hr) as Hs.
  assert (Ha : active s = true) by (destruct Hs as [_ Hw]; destruct Hw; congruence).
  pose proof (set_state_dead_ok t i CLOSED s (or_intror eq_refl) Hs) as [Hb _].
  set (s1 := set_state i CLOSED s) in *.
  assert (Heq : s' = onClose w code s1).
  { subst s'. cbn [Connection.handle]. unfold if_current. by rewrite decide_True. }
  rewrite Heq. clear Heq s'. change (reconnectAttempts s) with (reconnectAttempts s1).
  by apply onClose_spec.
Qed.

(** C31: Whoever was shown out stays out: after a close that ends the connection, whatever the
    browser delivers (timers, network and visibility events, late events of sockets, calls of
    the client) opens no further socket and leaves the reason on show, until the client
    connects again. *)
Theorem kick_is_final w t i code s l :
  reachable t s -> socket s = Some i -> fair w -> t <= now w ->
  4000 <= code -> code <> UNKNOWN \/ MAX_UNKNOWN_RECONNECTS <= reconnectAttempts s ->
  Forall (fun we => is_connect we.2 = false) l ->
  let s' := fold_left (fun s we => handle we.1 we.2 s) l (handle w (ISocketClose i code) s) in
  active s' = false /\ connected s' = false /\ socket s' = None /\ kickReason s' = Some code /\
  length (sockets s') = length (sockets s).
Proof.
  intros Hr Hi Hf Ht Hcode Hagain Hl. pose proof (reachable_ok _ _ _ _ _ Hr) as Hs.
  pose proof (set_state_dead_ok t i CLOSED s (or_intror eq_refl) Hs) as Hs1.
  assert (Hout : shown_out (Some code) (length (sockets s)) (handle w (ISocketClose i code) s)).
  { cbn [Connection.handle]. unfold if_current. rewrite decide_True by done.
    replace (length (sockets s)) with (length (sockets (set_state i CLOSED s)))
      by apply length_alter.
    by apply onClose_final. }
  revert Hout. generalize (handle w (ISocketClose i code) s) as s0.
  induction Hl as [|[w' e] l He Hl IH]; intros s0 Hout; simpl.
  - by destruct Hout.
  - apply IH. simpl in He. by apply stays_out.
Qed.

(** ** Who speaks first *)

(** On every socket the client ever opened, the authentication is the first thing it says
    and it says it once; and until the room is there (the connection is not up), it has said
    nothing else on the socket in use. *)
Theorem authenticates_first t s : reachable t s ->
  (forall i k, sockets s !! i = Some k -> introduced (k_sent k)) /\
  (forall i k, connected s = false -> socket s = Some i -> sockets s !! i = Some k ->
     k_sent k = [] \/ exists tok, k_sent k = [CAuth tok]).
Proof.
  intros Hr. pose proof (b_socks _ (c_base _ _ (reachable_ok _ _ _ _ _ Hr))) as Hl. split.
  - intros i k Hk. by eapply so_sent.
  - intros i k Hc Hi Hk. pose proof (so_sent _ _ _ Hl i k Hk) as Hs.
    pose proof (cu_alone _ _ (so_current _ _ _ Hl i k Hk Hi) Hc) as Hn.
    destruct (k_sent k) as [|m [|m' r]]; [by left|right|simpl in Hn; lia].
    destruct Hs as [Hm _]. destruct m as [tok| | |]; try done. by exists tok.
Qed.

(** The delay the room clock is corrected by is never negative, never above two and a half
    seconds, at most half of each of the last eight round trips, and nothing at all once the
    last of them is three minutes old. *)
Theorem latency_is_plausible t s n : reachable t s ->
  (length (samples (latency s)) <= MAX_SAMPLES)%nat /\
  (0 <= getOneWayDelayMs n (latency s) <= 2500)%Q /\
  Forall (fun x => getOneWayDelayMs n (latency s) * 2 <= x)%Q (samples (latency s)) /\
  (SAMPLE_MAX_AGE_MS < n - lastSampleAt (latency s) -> getOneWayDelayMs n (latency s) = 0%Q).
Proof.
  intros Hr. destruct (reachable_latency _ _ _ _ _ Hr) as [Hn Hp].
  unfold getOneWayDelayMs. unfold MAX_PLAUSIBLE_RTT_MS in Hp.
  assert (Hz : Forall (fun x => 0 * 2 <= x)%Q (samples (latency s)))
    by (eapply Forall_impl; [exact Hp|]; intros q [? _]; lra).
  destruct (samples (latency s)) as [|x l] eqn:Hsam; [split_and!; [done|lra|lra|done|done]|].
  destruct (n - lastSampleAt (latency s) >? SAMPLE_MAX_AGE_MS) eqn:Hage;
    rewrite Z.gtb_ltb in Hage; [split_and!; [done|lra|lra|exact Hz|done]|].
  apply Z.ltb_ge in Hage. destruct (fold_min_le l x) as [Hx Hl].
  pose proof (proj1 (Forall_forall _ _) Hp _ (fold_min_in l x)) as [H0 H1].
  assert (Hd : (fold_left Qmin' l x / 2 * 2 == fold_left Qmin' l x)%Q) by field.
  split_and!; [done|lra|lra| |lia]. constructor; [lra|].
  eapply Forall_impl; [exact Hl|]. intros y Hy. simpl in Hy. lra.
Qed.

(** The late events of a socket that is not in use change nothing but its own state. *)
Theorem replaced_sockets_are_inert w e i code data s :
  socket s <> Some i ->
  e = ISocketOpen i \/ e = ISocketClose i code \/ e = ISocketMessage i data \/ e = ISocketError i ->
  exists f, handle w e s = s <| sockets ::= alter f i |>.
Proof.
  intros Hi He. assert (Hid : s = s <| sockets ::= alter (fun k => k) i |>).
  { destruct s. unfold over. f_equal. apply list_eq. intros j. rewrite list_lookup_alter.
    case_decide; [subst|done]. by destruct (_ !! j). }
  destruct He as [->|[->|[->| ->]]]; cbn [Connection.handle]; unfold if_current;
    rewrite decide_False by done; eauto.
  all: eexists; reflexivity.
Qed.

End Theorems.

(** ** At work *)

Definition home : Page := MkPage "https:" "ott.example" None.
Definition nothing_blocked : string -> bool := fun _ => false.
Definition nothing_throws : nat -> ServerMessage -> bool := fun _ _ => false.
Definition at_ (t : Z) : World := MkWorld t (1 # 2) (Some "tok").
Definition full_sync : MessageData := Parsed (MkMessage "sync" NaN (Some "den") "").

Notation handle' := (handle home nothing_blocked nothing_throws).
Notation run' := (run_events home nothing_blocked nothing_throws).
Notation reachable' := (reachable home nothing_blocked nothing_throws).

Definition joining : list (World * input) := [(at_ 0, IConnect "den"); (at_ 40, ISocketOpen 0)].
Definition joining_up : list (World * input) := joining ++ [(at_ 90, ISocketMessage 0 full_sync)].
Definition waiting_den : Conn := run' new_connection joining.
Definition up_den : Conn := run' new_connection joining_up.

Lemma waiting_den_reachable : reachable' 40 waiting_den.
Proof. apply (run_reachable home nothing_blocked nothing_throws 0 joining); [apply Start|by vm_compute]. Qed.

Lemma up_den_reachable : reachable' 90 up_den.
Proof. apply (run_reachable home nothing_blocked nothing_throws 0 joining_up); [apply Start|by vm_compute]. Qed.

Lemma at_fair t : fair (at_ t).
Proof. unfold fair, at_; simpl. lra. Qed.

(** The join: the address, what was said on the socket, and the probe of a joined client. *)
Example join_example :
  sockets up_den = [MkSock "wss://ott.example/api/room/den" OPEN [CAuth (Some "tok"); CPing 90]] /\
  connected up_den = true /\ latencyTimer up_den = Some 15090.
Proof. by vm_compute. Qed.

(** Three silent ticks of the probe timer end a connection that looks open. *)
Example silence_example :
  let s := run' up_den [(at_ 15090, ILatencyTimer); (at_ 30090, ILatencyTimer)] in
  (connected s, issue s, reconnectTimeout s) = (false, Some Network, Some 31090).
Proof. by vm_compute. Qed.

(** The two attempts an unknown error may have are counted together with those of an outage:
    after two failed attempts the first such close already ends the connection. *)
Example unknown_after_outage_is_final :
  let outage := [(at_ 100, ISocketError 0); (at_ 2000, IReconnectTimer); (at_ 2100, ISocketError 1);
                 (at_ 6000, IReconnectTimer); (at_ 6100, ISocketOpen 2)] in
  let s := run' up_den outage in
  active s = true /\ active (handle' (at_ 6200) (ISocketClose 2 UNKNOWN) s) = false
  /\ active (handle' (at_ 6200) (ISocketClose 0 UNKNOWN) up_den) = true.
Proof. by vm_compute. Qed.

Lemma connection_consistent_witness :
  reachable' 90 up_den /\ is_Some (latencyTimer up_den).
Proof.
  split; [exact up_den_reachable|].
  exact (proj2 (proj2 (proj2 (proj1 (proj2 (proj2 (proj2
    (connection_consistent home nothing_blocked nothing_throws 90 up_den up_den_reachable))))
    eq_refl)))).
Defined.

Lemma never_gives_up_witness :
  connected waiting_den = false /\
  active (handle' (at_ 50000) IReconnectTimer (handle' (at_ 16000) IConnectTimer waiting_den)) = true.
Proof.
  split; [reflexivity|].
  refine (proj1 (never_gives_up home nothing_blocked nothing_throws 40 waiting_den (at_ 16000) (at_ 50000)
    waiting_den_reachable eq_refl eq_refl (at_fair _) (at_fair _) _ _ eq_refl)); by vm_compute.
Defined.

Lemma half_open_is_noticed_witness :
  unansweredProbes (handle' (at_ 15090) ILatencyTimer up_den) = 2.
Proof.
  assert (Hs : silent home nothing_blocked nothing_throws up_den 1 (handle' (at_ 15090) ILatencyTimer up_den))
    by exact (silent_more home nothing_blocked nothing_throws up_den 0 up_den (at_ 15090) ILatencyTimer
      (silent_none _ _ _ _) eq_refl eq_refl eq_refl eq_refl).
  exact (proj2 (half_open_is_noticed home nothing_blocked nothing_throws 90 up_den 1 _
    up_den_reachable eq_refl Hs eq_refl)).
Defined.

(** The server restarts: the client tries again.  It is thrown out: it does not. *)
Lemma close_is_sorted_witness :
  active (handle' (at_ 100) (ISocketClose 0 1001) up_den) = true /\
  kickReason (handle' (at_ 100) (ISocketClose 0 4005) up_den) = Some 4005.
Proof.
  assert (Ht : 90 <= now (at_ 100)) by by vm_compute.
  split.
  - exact (proj1 (proj2 (proj2 (close_is_sorted home nothing_blocked nothing_throws (at_ 100) 90 0 1001
      up_den up_den_reachable eq_refl (at_fair _) Ht)))).
  - exact (proj1 (proj2 (proj2 (proj2 (proj2 (close_is_sorted home nothing_blocked nothing_throws (at_ 100)
      90 0 4005 up_den up_den_reachable eq_refl (at_fair _) Ht)))))).
Defined.

Lemma kick_is_final_witness :
  kickReason (run' (handle' (at_ 100) (ISocketClose 0 4005) up_den)
    [(at_ 200, IReconnect); (at_ 300, IOnline); (at_ 400, IReconnectTimer)]) = Some 4005.
Proof.
  assert (Ht : 90 <= now (at_ 100)) by by vm_compute.
  assert (Hc : 4000 <= 4005) by lia.
  exact (proj1 (proj2 (proj2 (proj2 (kick_is_final home nothing_blocked nothing_throws (at_ 100) 90 0 4005
    up_den [(at_ 200, IReconnect); (at_ 300, IOnline); (at_ 400, IReconnectTimer)] up_den_reachable
    eq_refl (at_fair _) Ht Hc (or_introl (fun H => match Z.eqb_neq 4005 UNKNOWN with conj f _ => f eq_refl H end))
    ltac:(by repeat constructor)))))).
Defined.

Lemma authenticates_first_witness :
  exists tok, k_sent <$> sockets waiting_den !! 0%nat = Some [CAuth tok].
Proof.
  assert (Hk : sockets waiting_den !! 0%nat
    = Some (MkSock "wss://ott.example/api/room/den" OPEN [CAuth (Some "tok")])) by by vm_compute.
  assert (Hc : connected waiting_den = false) by by vm_compute.
  assert (Hi : socket waiting_den = Some 0%nat) by by vm_compute.
  destruct (proj2 (authenticates_first home nothing_blocked nothing_throws 40 waiting_den
    waiting_den_reachable) 0%nat _ Hc Hi Hk) as [H|[tok H]]; [discriminate H|].
  exists tok. rewrite Hk. simpl in *. congruence.
Defined.
