(* ===== verification/ClientRoom.v ===== *)
(** * ClientRoom: the room as a client's page knows it

    The store module of [client/src/stores/room.ts]: what a page keeps of its room, and the
    action [sync] that takes a sync message into it; and [roomPosition] of [Room.vue], the
    position a viewer is brought to.  The store is an object with one entry for each property
    of the message, so it is a function here; a message is the list of the properties it has. *)

From Stdlib Require Import Qround.
From S2P Require Import Prelude Types Permissions VideoQueue RoomModel RoomPlayback Connection.

(** ** The store *)

Definition Store : Type := Prop_ -> value.

Record RoomState := MkRoomState { store : Store; playbackStartTime : option Z }.
#[global] Instance eta_RoomState : Eta RoomState := fun s => MkRoomState (store s) (playbackStartTime s).

(** The initial state.  The object without fields that stands for no current item is [None],
    absent vote counts are empty; the two properties the state does not name come with the
    first message. *)
Definition initial_store : Store := fun p =>
  match p with
  | PName | PTitle | PDescription => VString ""
  | PIsTemporary | PIsPlaying | PHasOwner | PHasPassword | PEnableVoteSkip => VBool false
  | PVisibility => VVisibility Unlisted
  | PQueueMode => VQueueMode Manual
  | PCurrentSource => VItem None
  | PQueue => VItems []
  | PPlaybackPosition => VNumber 0
  | PPlaybackSpeed => VNumber 1
  | PTemporaryPlaybackSpeed => VTemporarySpeed None
  | PPlaybackPreparation => VPreparation None
  | PGrants => VGrants (Grants.toJSON Grants.defaultPermissions)
  | PVoteCounts => VCounts []
  | PVideoSegments => VSegments []
  | PAutoSkip => VCategories []
  | PPrevQueue => VSavedItems None
  | PRestoreQueueBehavior => VBehavior Always
  | PBufferGateMode => VGateMode GateOff
  | PDanmakuSource => VDanmaku None
  | PVotesToSkip => VClients ∅
  end.

Definition initial_room_state : RoomState := MkRoomState initial_store None.

Section Sync.
Implicit Types (m : list (Prop_ * value)) (s : RoomState).

(** [message.isPlaying]: [None] when the message does not say. *)
Definition msg_isPlaying m : option bool :=
  match map_get PIsPlaying m with Some (VBool b) => Some b | _ => None end.

Definition is_full m : bool :=
  match map_get PName m with Some (VString _) => map_has PCurrentSource m | _ => false end.

(** The update the message becomes: the two properties older servers leave out are reset. *)
Definition stateupdate m : list (Prop_ * value) :=
  if is_full m then
    let u := map_set PPlaybackPreparation
               (default (VPreparation None) (map_get PPlaybackPreparation m)) m in
    map_set PBufferGateMode (default (VGateMode GateOff) (map_get PBufferGateMode m)) u
  else m.

(** [Object.assign(state, stateupdate)] *)
Definition assign (u : list (Prop_ * value)) (st : Store) : Store :=
  fun p => match map_get p u with Some v => v | None => st p end.

Definition apply_message m (st : Store) : Store := assign (stateupdate m) st.

Definition isPlaying_of (st : Store) : bool := match st PIsPlaying with VBool b => b | _ => false end.
Definition position_of (st : Store) : Q := match st PPlaybackPosition with VNumber q => q | _ => 0 end.
Definition speed_of (st : Store) : Q := match st PPlaybackSpeed with VNumber q => q | _ => 1 end.

(** [syncAnchorNow]: the instant the message is taken to describe, in whole milliseconds. *)
Definition syncAnchorNow (now : Z) (l : Connection.Latency) : Z :=
  Qfloor (inject_Z now - Connection.getOneWayDelayMs now l).

(** [message.currentSource || message.playbackPosition !== undefined] *)
Definition moves m : bool :=
  match map_get PCurrentSource m with Some (VItem (Some _)) => true | _ => false end
  || map_has PPlaybackPosition m.

(** The action [sync]; [anchor] is [syncAnchorNow] of the moment. *)
Definition sync_action (anchor : Z) m s : RoomState :=
  let s := match msg_isPlaying m with
           | Some b => if negb (Bool.eqb (isPlaying_of (store s)) b) && b
                       then s <| playbackStartTime := Some anchor |> else s
           | None => s
           end in
  let s := if moves m && isPlaying_of (store s) then s <| playbackStartTime := Some anchor |> else s in
  s <| store ::= apply_message m |>.

(** [roomPosition] at the instant [t], for a page that shows a video. *)
Definition roomPosition (t : Z) s : Q :=
  if isPlaying_of (store s) then
    match playbackStartTime s with
    | Some start => calculateCurrentPosition start t (position_of (store s)) (speed_of (store s))
    | None => position_of (store s)
    end
  else position_of (store s).
End Sync.

(** What a client makes of what the room published. *)
Definition apply_effect (e : Effect) (st : Store) : Store :=
  match e with PublishSync m => apply_message (sync_values m) st | _ => st end.

Definition replay (l : list Effect) (st : Store) : Store := fold_left (fun st e => apply_effect e st) l st.

(** ** Lemmas *)

Lemma replay_app l l' st : replay (l ++ l') st = replay l' (replay l st).
Proof. apply fold_left_app. Qed.

(** A message is a list of different properties. *)
Lemma map_get_pick position (l : list Prop_) p r :
  map_get p (pick_state position l r) = if decide (p ∈ l) then Some (prop_value position p r) else None.
Proof.
  unfold pick_state. induction l as [|q l IH]; [done|]. cbn [map map_get].
  destruct (decide (p = q)) as [->|Hne]; [by rewrite decide_True by by left|].
  rewrite IH. destruct (decide (p ∈ l)); [by rewrite decide_True by by right|].
  rewrite decide_False; [done|]. intros [?|?]%elem_of_cons; done.
Qed.
