(* ===== verification/RoomInvariants.v ===== *)
(** * RoomInvariants: what stays true of a room

    The playback invariant [pb_inv] and its preservation by every method, the cap on
    the queue, and the bounds on the room's logs; proved first for the methods, then
    for the handlers with the [keeps] rules, then for every reachable state. *)

From S2P Require Import Prelude Types Permissions VideoQueue RoomModel RoomPlayback RoomRequests.
From S2P Require Import RoomLifecycle.

(** ** The playback invariant

    [fresh] says the room was never loaded from a snapshot: only then is the clock's
    start known to be set while the room plays. *)

Record pb_inv (fresh : bool) (r : Room) : Prop := {
  inv_temp : is_Some (temporarySpeed r) -> isPlaying r = true;
  inv_gate : forall g, bufferGate r = Some g ->
      isPlaying r = false /\ gate_pausedByGate g = true /\ resumeOnNextJoin r = false;
  inv_prep : forall p, playbackPreparation r = Some p ->
      isPlaying r = false /\ resumeOnNextJoin r = true /\
      same_video (prep_video p) (currentSource r) = true /\
      (playbackPosition r == prep_position p)%Q;
  inv_clock : fresh = true ->
      restoredFromStorage r = false /\ (isPlaying r = true -> is_Some (playbackStart r));
}.

(** The fields the invariant reads. *)
Definition pb_view (r : Room) :=
  (temporarySpeed r, bufferGate r, playbackPreparation r, isPlaying r, resumeOnNextJoin r,
   currentSource r, playbackPosition r, restoredFromStorage r, playbackStart r).

Lemma pb_inv_view b r r' : pb_view r' = pb_view r -> pb_inv b r -> pb_inv b r'.
Proof. unfold pb_view. intros Hv []. injection Hv as H1 H2 H3 H4 H5 H6 H7 H8 H9.
  split; rewrite ?H1, ?H2, ?H3, ?H4, ?H5, ?H6, ?H7, ?H8, ?H9; done. Qed.

(** A change of other fields: the invariant transfers because the view is the same term. *)
Ltac pb_frame := apply pb_inv_view; reflexivity.

(** Compute the fields of a room given by updates of another, one projection at a time. *)
Ltac room_field f :=
  lazymatch f with
  | name => idtac | title => idtac | description => idtac | visibility => idtac
  | queueMode => idtac | isTemporary => idtac | owner => idtac | grants => idtac
  | userRoles => idtac | autoSkipSegmentCategories => idtac | restoreQueueBehavior => idtac
  | enableVoteSkip => idtac | bufferGateMode => idtac | danmakuSource => idtac
  | bufferGateExhausted => idtac | pendingLeaveEvents => idtac | passwordHash => idtac
  | permissionsRevision => idtac | bufferGate => idtac | lastPlayAt => idtac
  | bufferGateCooldownUntil => idtac | restoredFromStorage => idtac | currentSource => idtac
  | queue => idtac | prevQueue => idtac | isPlaying => idtac | playbackPosition => idtac
  | playbackSpeed => idtac | temporarySpeed => idtac | temporarySpeedTimer => idtac
  | playbackStartTimer => idtac | playbackPreparation => idtac | resumeOnNextJoin => idtac
  | realusers => idtac | votes => idtac | videoSegments => idtac | votesToSkip => idtac
  | dirty => idtac | recentEvents => idtac | nextEventRef => idtac | playbackStart => idtac
  | keepAlivePing => idtac | wantSponsorBlock => idtac | dontSkipSegmentsUntil => idtac
  | db_notes => idtac | db_nextNoteId => idtac | outbox => idtac
  end.
Ltac rproj :=
  repeat match goal with
  | |- context [?f (@over Room ?A ?g ?s ?h ?r)] =>
      room_field f;
      pattern (f (@over Room A g s h r));
      first
        [ constr_eq f g;
          refine (eq_ind_r _ _ ((fun x => eq_refl : f (@over Room A g s h x) = h (f x)) r))
        | refine (eq_ind_r _ _ ((fun x => eq_refl : f (@over Room A g s h x) = f x) r)) ];
      cbv beta
  end; cbv beta iota.
Ltac rsimpl := unfold flushPlaybackPosition, set_playbackPosition, set_playbackSpeed,
  set_videoSegments, set_preparation, clearPlaybackStartTimer, publish, markDirty;
  cbv beta iota zeta; rproj.

Section PlaybackInvariant.
Context `{E : Env} (b : bool).
Implicit Types (r : Room).

Lemma endTemp_none x r : temporarySpeed r = None ->
  endTemporaryPlaybackSpeed x r = r <| temporarySpeedTimer := None |>.
Proof. intros H. unfold endTemporaryPlaybackSpeed. simpl. by rewrite H. Qed.

Lemma endTemp_temp x r : temporarySpeed (endTemporaryPlaybackSpeed x r) = None.
Proof. unfold endTemporaryPlaybackSpeed. simpl. destruct (temporarySpeed r) eqn:Ht; [by destruct x|done]. Qed.

(** The fields [endTemporaryPlaybackSpeed] never touches. *)
Lemma endTemp_frame x r :
  let r' := endTemporaryPlaybackSpeed x r in
  isPlaying r' = isPlaying r /\ bufferGate r' = bufferGate r /\
  playbackPreparation r' = playbackPreparation r /\ resumeOnNextJoin r' = resumeOnNextJoin r /\
  currentSource r' = currentSource r /\ restoredFromStorage r' = restoredFromStorage r.
Proof. unfold endTemporaryPlaybackSpeed. simpl. destruct (temporarySpeed r); [by destruct x|done]. Qed.

Lemma pb_no_temp r : pb_inv b r -> isPlaying r = false -> temporarySpeed r = None.
Proof.
  intros [Ht _ _ _] Hp. destruct (temporarySpeed r); [|done].
  rewrite Ht in Hp by eauto. done.
Qed.

Lemma pb_no_prep r : pb_inv b r -> isPlaying r = true -> playbackPreparation r = None.
Proof.
  intros [_ _ Hp _] Hpl. destruct (playbackPreparation r) as [p|]; [|done].
  destruct (Hp p eq_refl). congruence.
Qed.

Lemma pb_no_gate r : pb_inv b r -> isPlaying r = true \/ resumeOnNextJoin r = true -> bufferGate r = None.
Proof.
  intros [_ Hg _ _] Hpl. destruct (bufferGate r) as [g|]; [|done].
  destruct (Hg g eq_refl) as (? & _ & ?). destruct Hpl; congruence.
Qed.

Lemma pb_endTemp x r : pb_inv b r -> pb_inv b (endTemporaryPlaybackSpeed x r).
Proof.
  intros Hi. destruct (temporarySpeed r) as [t|] eqn:Hts; cycle 1.
  { rewrite endTemp_none by done. revert Hi. pb_frame. }
  assert (Hplay : isPlaying r = true) by (apply (inv_temp b r Hi); eauto).
  pose proof (pb_no_prep r Hi Hplay) as Hnp. destruct Hi as [Ht Hg Hp Hc].
  unfold endTemporaryPlaybackSpeed. simpl. rewrite Hts.
  destruct x; split; rsimpl; rewrite ?Hnp; try done; try (by intros [? ?]).
  intros Hb. split; [by apply Hc|done].
Qed.

(** While paused the clock stands still. *)
Lemma real_paused r : isPlaying r = false -> realPlaybackPosition r = playbackPosition r.
Proof. intros H. unfold realPlaybackPosition. rewrite H. by destruct (playbackStart r). Qed.

Lemma pb_flush r : pb_inv b r -> pb_inv b (flushPlaybackPosition r).
Proof.
  intros [Ht Hg Hp Hc]. split; rsimpl; try done.
  - intros p Hpp. destruct (Hp p Hpp) as (Hpl & ? & ? & ?). by rewrite real_paused.
  - intros Hb. split; [by apply Hc|done].
Qed.

Lemma pb_cancel r : pb_inv b r -> pb_inv b (cancelPlaybackPreparation r).
Proof.
  intros [Ht Hg Hp Hc]. unfold cancelPlaybackPreparation.
  assert (Hg' : forall g, bufferGate r = Some g ->
    isPlaying r = false /\ gate_pausedByGate g = true /\ false = false)
    by (intros g HG; destruct (Hg g HG) as (? & ? & ?); done).
  rsimpl. destruct (playbackPreparation r) as [p|] eqn:Hpp; rsimpl; destruct (resumeOnNextJoin r) eqn:Hr;
    split; rsimpl; rewrite ?Hpp, ?Hr; done.
Qed.

(** What [cancelPlaybackPreparation] leaves, field by field. *)
Lemma cancel_frame r :
  let r' := cancelPlaybackPreparation r in
  playbackPreparation r' = None /\ resumeOnNextJoin r' = false /\
  isPlaying r' = isPlaying r /\ bufferGate r' = bufferGate r /\
  temporarySpeed r' = temporarySpeed r /\ currentSource r' = currentSource r /\
  playbackPosition r' = playbackPosition r /\ playbackStart r' = playbackStart r /\
  restoredFromStorage r' = restoredFromStorage r /\ playbackSpeed r' = playbackSpeed r.
Proof.
  unfold cancelPlaybackPreparation.
  rsimpl. destruct (playbackPreparation r) eqn:Hp; rsimpl; destruct (resumeOnNextJoin r) eqn:Hr; rsimpl;
    rewrite ?Hp, ?Hr; auto 20.
Qed.

Lemma pb_set_currentSource v r : pb_inv b r -> pb_inv b (set_currentSource v r).
Proof.
  intros Hi. unfold set_currentSource.
  match goal with |- context [endTemporaryPlaybackSpeed true ?x] => set (r0 := x) end.
  assert (Hi0 : pb_inv b r0) by (subst r0; destruct Hi; split; rsimpl; done).
  pose proof (pb_cancel _ (pb_endTemp true r0 Hi0)) as [Ht Hg Hp Hc].
  destruct (cancel_frame (endTemporaryPlaybackSpeed true r0)) as (Hnp & _).
  split; rsimpl; [done|done| |done]. intros p. by rewrite Hnp.
Qed.

(** What [set_currentSource] leaves. *)
Lemma set_source_frame v r :
  let r' := set_currentSource v r in
  playbackPreparation r' = None /\ resumeOnNextJoin r' = false /\ bufferGate r' = None /\
  temporarySpeed r' = None /\ currentSource r' = v /\ isPlaying r' = isPlaying r /\
  restoredFromStorage r' = restoredFromStorage r.
Proof.
  unfold set_currentSource.
  match goal with |- context [endTemporaryPlaybackSpeed true ?x] => set (r0 := x) end.
  destruct (cancel_frame (endTemporaryPlaybackSpeed true r0)) as (H1 & H2 & H3 & H4 & H5 & H6 & H7 & H8 & H9 & H10).
  destruct (endTemp_frame true r0) as (G1 & G2 & G3 & G4 & G5 & G6).
  pose proof (endTemp_temp true r0) as G7.
  rsimpl. rewrite H1, H2, H4, H5, H3, H9, G1, G2, G6, G7. subst r0. rsimpl. auto 10.
Qed.

(** Pausing, with nothing left running. *)
Lemma pb_set_paused r :
  playbackPreparation r = None ->
  (forall g, bufferGate r = Some g -> gate_pausedByGate g = true /\ resumeOnNextJoin r = false) ->
  (b = true -> restoredFromStorage r = false) ->
  pb_inv b (set_isPlaying false r).
Proof.
  intros Hp Hg Hc. unfold set_isPlaying.
  destruct (endTemp_frame true r) as (G1 & G2 & G3 & G4 & G5 & G6).
  pose proof (endTemp_temp true r) as G7.
  split; rsimpl; rewrite ?G7, ?G2, ?G3, ?G4, ?G6, ?Hp; try done; naive_solver.
Qed.

Lemma pb_pauseClock r : playbackPreparation r = None ->
  (temporarySpeed r = None \/ isPlaying r = true) ->
  (forall g, bufferGate r = Some g -> gate_pausedByGate g = true /\ resumeOnNextJoin r = false) ->
  (b = true -> restoredFromStorage r = false) ->
  pb_inv b (pausePlaybackClock r) /\ isPlaying (pausePlaybackClock r) = false.
Proof.
  intros Hp Ht Hg Hc. unfold pausePlaybackClock.
  destruct (endTemp_frame true r) as (G1 & G2 & G3 & G4 & G5 & G6).
  pose proof (endTemp_temp true r) as G7. rewrite G1. destruct (isPlaying r) eqn:Hpl.
  - split; [|done]. apply pb_set_paused; rsimpl; rewrite ?G3, ?G2, ?G4, ?G6; done.
  - split; [|by rewrite G1]. split; rewrite ?G7, ?G1, ?G2, ?G3, ?G4, ?G6, ?Hp, ?Hpl; try done;
      naive_solver.
Qed.

(** The fields [pausePlaybackClock] never touches. *)
Lemma pauseClock_frame r :
  let r' := pausePlaybackClock r in
  isPlaying r' = false /\ bufferGate r' = bufferGate r /\
  playbackPreparation r' = playbackPreparation r /\ resumeOnNextJoin r' = resumeOnNextJoin r /\
  currentSource r' = currentSource r /\ restoredFromStorage r' = restoredFromStorage r /\
  temporarySpeed r' = None.
Proof.
  unfold pausePlaybackClock.
  destruct (endTemp_frame true r) as (G1 & G2 & G3 & G4 & G5 & G6).
  pose proof (endTemp_temp true r) as G7. rewrite G1.
  destruct (isPlaying r) eqn:Hpl; [|rewrite G1; auto 10].
  match goal with |- context [set_isPlaying false ?x] => set (r0 := x) end.
  destruct (endTemp_frame true r0) as (K1 & K2 & K3 & K4 & K5 & K6).
  pose proof (endTemp_temp true r0) as K7.
  unfold set_isPlaying. rsimpl. rewrite K2, K3, K4, K5, K6, K7. subst r0. rsimpl.
  rewrite G2, G3, G4, G5, G6. auto 10.
Qed.

Lemma pb_play r : pb_inv b r -> pb_inv b (play r).
Proof.
  intros Hi. unfold play.
  match goal with |- context [cancelPlaybackPreparation ?x] => set (r0 := x) end.
  assert (Hi0 : pb_inv b r0 /\ bufferGate r0 = None).
  { subst r0. destruct (bufferGate r) eqn:Hb; [|done]. split; [|done].
    destruct Hi; split; rsimpl; done. }
  destruct Hi0 as [Hi0 Hg0]. pose proof (pb_cancel r0 Hi0) as [Ht Hg Hp Hc].
  destruct (cancel_frame r0) as (H1 & H2 & H3 & H4 & H5 & H6 & H7 & H8 & H9 & H10).
  rsimpl. destruct (isPlaying (cancelPlaybackPreparation r0)) eqn:Hpl.
  - split; rsimpl; rewrite ?H1, ?H4, ?Hg0; try done. intros Hb. split; [done|intros _; by apply Hc].
  - unfold set_isPlaying. split; rsimpl; rewrite ?H1, ?H4, ?Hg0; done.
Qed.

(** What [play] leaves. *)
Lemma play_frame r :
  let r' := play r in
  isPlaying r' = true /\ bufferGate r' = None /\ playbackPreparation r' = None /\
  resumeOnNextJoin r' = false /\ currentSource r' = currentSource r /\ restoredFromStorage r' = false.
Proof.
  unfold play.
  match goal with |- context [cancelPlaybackPreparation ?x] => set (r0 := x) end.
  assert (H0 : bufferGate r0 = None /\ currentSource r0 = currentSource r)
    by (subst r0; destruct (bufferGate r) eqn:Hb; rsimpl; done).
  destruct H0 as [G1 G2].
  destruct (cancel_frame r0) as (H1 & H2 & H3 & H4 & H5 & H6 & H7 & H8 & H9 & H10).
  unfold set_isPlaying. rsimpl. destruct (isPlaying (cancelPlaybackPreparation r0)) eqn:Hpl; rsimpl;
    rewrite H1, H2, H4, H6, G1, G2; auto 10.
Qed.

Lemma pb_pause x r : pb_inv b r -> pb_inv b (pause x r).
Proof.
  intros Hi. unfold pause.
  match goal with |- context [cancelPlaybackPreparation ?x] => set (r0 := x) end.
  assert (Hi0 : pb_inv b r0) by (subst r0; destruct x; [done|]; destruct Hi; split; rsimpl; done).
  destruct (cancel_frame r0) as (H1 & H2 & H3 & H4 & H5 & H6 & H7 & H8 & H9 & H10).
  pose proof (pb_cancel r0 Hi0) as Hi1.
  apply pb_pauseClock; [done| | |].
  - destruct (isPlaying (cancelPlaybackPreparation r0)) eqn:Hpl; [by right|left].
    by apply pb_no_temp.
  - intros g Hg. destruct (inv_gate b _ Hi1 g Hg) as (_ & ? & ?). done.
  - intros Hb. by apply (inv_clock b _ Hi1).
Qed.

Lemma pb_seekRaw q r : pb_inv b r -> pb_inv b (seekRaw q r).
Proof.
  intros Hi. unfold seekRaw. pose proof (pb_cancel r Hi) as [Ht Hg Hp Hc].
  destruct (cancel_frame r) as (H1 & _). split; rsimpl; rewrite ?H1; try done.
  intros Hb. split; [by apply Hc|done].
Qed.

Lemma pb_release t r : pb_inv b r -> pb_inv b (releaseBufferGate t r).
Proof.
  intros Hi. unfold releaseBufferGate. destruct (bufferGate r) as [g|] eqn:Hg; [|done].
  match goal with |- context [gate_pausedByGate g && negb (isPlaying ?x)] => set (r0 := x) end.
  assert (Hi0 : pb_inv b r0).
  { subst r0. destruct Hi. destruct t; [|split; rsimpl; done].
    match goal with |- pb_inv _ (if ?c then _ else _) => destruct c end; split; rsimpl; done. }
  destruct (_ && _); [by apply pb_play|done].
Qed.

Lemma release_gate t r : bufferGate (releaseBufferGate t r) = None.
Proof.
  unfold releaseBufferGate. destruct (bufferGate r) as [g|] eqn:Hg; [|done].
  match goal with |- context [gate_pausedByGate g && negb (isPlaying ?x)] => set (r0 := x) end.
  destruct (_ && _); [apply play_frame|]. subst r0. destruct t; [|done].
  by match goal with |- context [if ?c then _ else _] => destruct c end.
Qed.

Lemma pb_evaluate r : pb_inv b r -> pb_inv b (evaluateBufferGate r).
Proof.
  intros Hi. unfold evaluateBufferGate.
  destruct (match bufferGate r with Some _ => _ | None => _ end); [by apply pb_release|].
  destruct (_ || bool_decide (currentSource r = None)); [by apply pb_release|].
  destruct (waitingViewers r) as [|w ws]; [by apply pb_release|].
  destruct (bufferGate r) as [g|] eqn:Hg.
  - destruct Hi as [Ht HG Hp Hc]. split; rsimpl; try done. intros g' [= <-]. by apply (HG g).
  - destruct (negb (isPlaying r)) eqn:Hpl; [done|]. simpl.
    destruct (_ || before _); [done|]. apply negb_false_iff in Hpl.
    pose proof (pb_no_prep r Hi Hpl) as Hnp. unfold pause.
    match goal with |- context [cancelPlaybackPreparation ?x] => set (r0 := x) end.
    destruct (cancel_frame r0) as (H1 & H2 & H3 & H4 & H5 & H6 & H7 & H8 & H9 & H10).
    apply pb_pauseClock; [done| | |].
    + right. by rewrite H3.
    + intros g'. rewrite H4, H2. by intros [= <-].
    + rewrite H9. intros Hb. by apply (inv_clock b r Hi).
Qed.

(** *** The start handshake *)

Lemma pb_set_prep p p' r : pb_inv b r -> playbackPreparation r = Some p ->
  prep_video p' = prep_video p -> prep_position p' = prep_position p ->
  pb_inv b (r <| playbackPreparation := Some p' |>).
Proof.
  intros [Ht Hg Hp Hc] Hpp Hv Hq. destruct (Hp p Hpp) as (Hpl & Hr & Hs & Hpos).
  split; rsimpl; try done. intros p0 [= <-]. by rewrite Hv, Hq.
Qed.

(** A change of fields outside the invariant. *)
Lemma pb_dirty p r : pb_inv b r -> pb_inv b (markDirty p r).
Proof. intros [Ht Hg Hp Hc]. split; rsimpl; done. Qed.

Lemma pb_startPrepared r : pb_inv b r -> pb_inv b (startPreparedPlayback r).
Proof.
  intros Hi. unfold startPreparedPlayback. destruct (playbackPreparation r) as [p|] eqn:Hp; [|done].
  destruct (prep_startAt p) as [t|]; [|done]. destruct (_ <? _); [done|].
  destruct (inv_prep b r Hi p Hp) as (Hpl & Hr & _).
  assert (Hg : bufferGate r = None) by (apply pb_no_gate; auto).
  destruct Hi as [Ht _ _ Hc]. unfold set_isPlaying. split; rsimpl; rewrite ?Hg; try done.
  intros Hb. destruct (Hc Hb). eauto.
Qed.

Lemma pb_schedule f r : pb_inv b r -> pb_inv b (schedulePlaybackStart f r).
Proof.
  intros Hi. unfold schedulePlaybackStart. destruct (playbackPreparation r) as [p|] eqn:Hp; [|done].
  destruct (prep_startAt p); [done|]. destruct (_ <=? 1)%nat.
  - apply pb_startPrepared, pb_dirty, (pb_set_prep p); done.
  - refine (pb_inv_view b _ _ _ (pb_set_prep p _ r Hi Hp _ _));
      [unfold pb_view; rsimpl; reflexivity|done|done].
Qed.

Lemma pb_schedule_after p p' f r : pb_inv b r -> playbackPreparation r = Some p ->
  prep_video p' = prep_video p -> prep_position p' = prep_position p ->
  pb_inv b (let r := markDirty PPlaybackPreparation (set_preparation p' r) in
            if allEligibleReady r p' then schedulePlaybackStart f r else r).
Proof.
  intros Hi Hp Hv Hq. cbv zeta. destruct (allEligibleReady _ p');
    [apply pb_schedule|]; apply pb_dirty; by apply (pb_set_prep p).
Qed.

Lemma pb_drop client r : pb_inv b r -> pb_inv b (dropPlaybackParticipant client r).
Proof.
  intros Hi. unfold dropPlaybackParticipant. destruct (playbackPreparation r) as [p|] eqn:Hp; [|done].
  destruct (decide _); [|done]. cbv zeta.
  match goal with |- context [match ?l with [] => _ | _ :: _ => _ end] => destruct l as [|c cs] end.
  - apply pb_dirty. by apply (pb_set_prep p).
  - by apply (pb_schedule_after p).
Qed.

Lemma pb_refresh r : pb_inv b r -> pb_inv b (refreshPlaybackPreparation r).
Proof.
  intros Hi. unfold refreshPlaybackPreparation. destruct (playbackPreparation r) as [p|] eqn:Hp; [|done].
  destruct (decide _); [done|]. cbv zeta.
  match goal with |- context [set_preparation ?q r] => set (p1 := q) end.
  assert (H1 : pb_inv b (set_preparation p1 r)) by by apply (pb_set_prep p).
  assert (H2 : forall p', prep_video p' = prep_video p1 -> prep_position p' = prep_position p1 ->
    pb_inv b (set_preparation p' (set_preparation p1 r))).
  { intros p' Hv Hq. apply (pb_set_prep p1); rsimpl; done. }
  destruct (playbackEligibleIds r p) as [|c cs]; [|apply pb_dirty; by apply H2].
  destruct (bool_decide _); [by apply pb_cancel|apply pb_dirty; by apply H2].
Qed.

Lemma matches_self s : same_video (video_id_of s) (Some s) = true.
Proof. unfold same_video, VideoQueue.matches. simpl. by rewrite !bool_decide_true. Qed.

Lemma pb_prepareEmpty r : pb_inv b r -> pb_inv b (prepareEmptyRoomPlayback r).
Proof.
  intros Hi. unfold prepareEmptyRoomPlayback. destruct (currentSource r) as [s|] eqn:Hs; [|done].
  destruct (_ || Qlt_bool (playbackPosition r) 0) eqn:Hc; [done|].
  rewrite !orb_false_iff, !negb_false_iff, bool_decide_eq_false in Hc.
  destruct Hc as ((((Hr & Hpl) & Hnp) & _) & _).
  destruct (map ru_id (eligiblePreparers r)) as [|c cs]; [done|]. apply pb_dirty.
  destruct Hi as [Ht Hg Hp Hcl]. split; rsimpl; rewrite ?Hpl; try done.
  - intros Hsome. apply Ht in Hsome. congruence.
  - intros g HG. destruct (Hg g HG) as (_ & _ & ?). congruence.
  - intros p [= <-]. cbn [prep_video prep_position]. by rewrite Hs, matches_self.
  - intros Hb. split; [by apply Hcl|done].
Qed.

Lemma pb_hold r : pb_inv b r -> bufferGate r = None -> playbackPreparation r = None ->
  pb_inv b (holdPlaybackForPreparation r).
Proof.
  intros Hi Hg Hp. unfold holdPlaybackForPreparation. apply pb_prepareEmpty, pb_dirty.
  destruct (endTemp_frame true r) as (G1 & G2 & G3 & G4 & G5 & G6).
  match goal with |- context [set_isPlaying false ?x] => set (r0 := x) end.
  assert (Hi0 : pb_inv b (set_isPlaying false r0)).
  { apply pb_set_paused; subst r0; rsimpl; rewrite ?G2, ?G3, ?G6, ?Hg, ?Hp; try done.
    intros Hb. by apply (inv_clock b r Hi). }
  destruct (endTemp_frame true r0) as (K1 & K2 & K3 & K4 & K5 & K6).
  assert (Hg0 : bufferGate (set_isPlaying false r0) = None).
  { unfold set_isPlaying. rsimpl. rewrite K2. subst r0. rsimpl. by rewrite G2. }
  assert (Hp0 : playbackPreparation (set_isPlaying false r0) = None).
  { unfold set_isPlaying. rsimpl. rewrite K3. subst r0. rsimpl. by rewrite G3. }
  destruct Hi0 as [At Ag Ap Ac]. split; rsimpl; rewrite ?Hg0, ?Hp0; done.
Qed.

Lemma pb_holdEmpty x r : pb_inv b r -> pb_inv b (holdEmptyPlaybackForJoin x r).
Proof.
  intros Hi. unfold holdEmptyPlaybackForJoin.
  destruct (_ || negb (canPreparePlayback r)) eqn:Hc; [done|].
  rewrite !orb_false_iff, andb_false_iff, !negb_false_iff in Hc.
  destruct Hc as ((_ & Hpl) & _). apply pb_dirty.
  assert (Hp : playbackPreparation r = None).
  { destruct Hpl as [Hpl|Hg]; [by apply pb_no_prep|].
    unfold bufferingGateHeld in Hg. destruct (bufferGate r) as [g|] eqn:HG; [|done].
    destruct (inv_gate b r Hi g HG) as (_ & _ & Hr).
    destruct (playbackPreparation r) as [p|] eqn:Hp; [|done].
    destruct (inv_prep b r Hi p Hp) as (_ & ? & _). congruence. }
  match goal with |- context [pausePlaybackClock ?x] => set (r0 := x) end.
  destruct (pauseClock_frame r0) as (K1 & K2 & K3 & K4 & K5 & K6 & K7).
  destruct (pb_pauseClock r0) as [[At Ag Ap Ac] _]; try (by subst r0; rsimpl).
  - subst r0; rsimpl. destruct (isPlaying r) eqn:HP; [by right|left]. by apply pb_no_temp.
  - subst r0; rsimpl. intros Hb. by apply (inv_clock b r Hi).
  - split; rsimpl; rewrite ?K2, ?K3; subst r0; rsimpl; rewrite ?Hp; try done.
Qed.

Lemma pb_finish client st rep r : pb_inv b r -> pb_inv b (finishPlaybackPreparation client st rep r).
Proof.
  intros Hi. unfold finishPlaybackPreparation.
  destruct (playbackPreparation r) as [p|] eqn:Hp; [|done]. destruct rep as [rep|]; [|done].
  destruct (_ || isPlaying r); [done|]. destruct (_ || _); [by apply pb_drop|].
  destruct (_ || negb (readyBufferIsEnough p rep)); [done|]. by apply (pb_schedule_after p).
Qed.

(** *** Changing what is on *)

(** [set_currentSource] drops the gate, the gesture and the round, whatever they were. *)
Lemma pb_set_source v r :
  (b = true -> restoredFromStorage r = false /\ (isPlaying r = true -> is_Some (playbackStart r))) ->
  pb_inv b (set_currentSource v r).
Proof.
  intros Hc. destruct (set_source_frame v r) as (H1 & H2 & H3 & H4 & H5 & H6 & H7).
  split; rewrite ?H1, ?H2, ?H3, ?H4, ?H6, ?H7; try done.
  intros Hb. destruct (Hc Hb) as [Hr Hs]. split; [done|]. intros Hpl. specialize (Hs Hpl).
  unfold set_currentSource. rsimpl.
  match goal with |- context [cancelPlaybackPreparation ?x] =>
    destruct (cancel_frame x) as (_ & _ & _ & _ & _ & _ & _ & -> & _) end.
  unfold endTemporaryPlaybackSpeed. rsimpl. destruct (temporarySpeed r); rsimpl; eauto.
Qed.

(** The clock moved, with no round under way. *)
Lemma pb_move q r : pb_inv b r -> playbackPreparation r = None ->
  pb_inv b ((set_playbackPosition q r) <| playbackStart := Some now |>).
Proof.
  intros [Ht Hg Hp Hc] Hn. split; rsimpl; rewrite ?Hn; try done.
  intros Hb. split; [by apply Hc|done].
Qed.

Lemma pb_queue_op {A} (m : M VideoQueue exn A) r : pb_inv b r -> pb_inv b (queue_op m r).2.
Proof.
  intros Hi. unfold queue_op. destruct (m _) as [res q]. destruct (q_dirty q); simpl snd;
    refine (pb_inv_view b _ _ _ Hi); unfold pb_view; rsimpl; reflexivity.
Qed.

(** The fields no queue operation touches. *)
Lemma queue_op_frame {A} (m : M VideoQueue exn A) r :
  pb_view (queue_op m r).2 = pb_view r.
Proof.
  unfold queue_op. destruct (m _) as [res q]. destruct (q_dirty q); simpl snd;
    unfold pb_view; rsimpl; reflexivity.
Qed.

Lemma pb_epilogue r : pb_inv b r -> pb_inv b (dequeue_epilogue r).
Proof.
  intros Hi. unfold dequeue_epilogue. apply (pb_inv_view b r); [|done]. cbv zeta.
  match goal with |- context [if ?c then _ else r] => destruct c end; rsimpl;
    destruct (currentSource r) eqn:Hs; rsimpl; try destruct (videoSegments r);
    unfold pb_view; rsimpl; rewrite ?Hs; reflexivity.
Qed.

Lemma pb_set_start r : pb_inv b r -> playbackPreparation r = None ->
  pb_inv b (r <| playbackStart := Some now |>).
Proof.
  intros [Ht Hg Hp Hc] Hn. split; rsimpl; rewrite ?Hn; try done.
  intros Hb. split; [by apply Hc|done].
Qed.

Lemma pb_clear_source r : pb_inv b r -> pb_inv b (clear_source r).
Proof.
  intros Hi. unfold clear_source. destruct (currentSource r) eqn:Hs; [|done]. cbv zeta.
  apply pb_set_source. intros Hb. destruct (inv_clock b r Hi Hb) as [Hr _].
  destruct (isPlaying r) eqn:Hpl; rsimpl; [|by rewrite Hpl].
  unfold set_isPlaying. rsimpl.
  by destruct (endTemp_frame true r) as (_ & _ & _ & _ & _ & ->).
Qed.

(** The three ways a new item starts: it waits, it is held for a round, or it plays. *)
Lemma pb_start_item r : pb_inv b r -> bufferGate r = None -> playbackPreparation r = None ->
  pb_inv b (if canHoldPlaybackForPreparation r then holdPlaybackForPreparation r
            else if negb (isPlaying r) then play r else r).
Proof.
  intros Hi Hg Hp. destruct (canHoldPlaybackForPreparation r); [by apply pb_hold|].
  destruct (isPlaying r); simpl; [done|by apply pb_play].
Qed.

(** The item's trim and votes, up to the three branches. *)
Lemma pb_after_source q v (k : Room -> Room) r : pb_inv b r ->
  (forall r', pb_view (k r') = pb_view r') ->
  let r' := k ((set_playbackPosition q (set_currentSource v r)) <| playbackStart := Some now |>) in
  pb_inv b r' /\ bufferGate r' = None /\ playbackPreparation r' = None.
Proof.
  intros Hi Hk. cbv zeta. destruct (set_source_frame v r) as (H1 & H2 & H3 & H4 & H5 & H6 & H7).
  match goal with |- context [k ?x] => set (r0 := x); specialize (Hk r0) end.
  assert (H0 : pb_inv b r0).
  { apply pb_move; [|exact H1]. apply pb_set_source. by apply (inv_clock b r Hi). }
  assert (Hf : bufferGate r0 = None /\ playbackPreparation r0 = None)
    by (subst r0; rsimpl; by rewrite H3, H1).
  clearbody r0. split; [exact (pb_inv_view b r0 _ Hk H0)|].
  unfold pb_view in Hk. injection Hk as _ -> -> _ _ _ _ _ _. exact Hf.
Qed.

Lemma pb_dequeue_into r : pb_inv b r -> pb_inv b (dequeue_into_source r).
Proof.
  intros Hi. unfold dequeue_into_source. cbv zeta. unfold queue_do.
  assert (Hi1 : pb_inv b (queue_op VideoQueue.dequeue r).2) by by apply pb_queue_op.
  set (r1 := (queue_op VideoQueue.dequeue r).2) in *. clearbody r1.
  set (q := default 0%Q _). set (v := head _).
  pose (k1 := fun x => match videoSegments x with [] => x | _ => set_videoSegments [] x end).
  pose (k2 := fun x => match currentSource x with
                       | Some s => markDirty PVoteCounts (x <| votes ::= map_delete (votes_key s) |>)
                       | None => x end).
  destruct (pb_after_source q v (fun x => k2 (k1 x)) r1 Hi1) as (Hi2 & Hg2 & Hp2).
  { intros x. subst k1 k2. cbv beta. destruct (videoSegments x); rsimpl; destruct (currentSource x) eqn:Hs;
      unfold pb_view; rsimpl; rewrite ?Hs; reflexivity. }
  subst k1 k2. cbv beta in Hi2, Hg2, Hp2.
  match type of Hi2 with pb_inv b ?x => set (r2 := x) in * end. clearbody r2.
  destruct (restoredFromStorage r2) eqn:Hres; [|by apply pb_start_item].
  destruct Hi2 as [Ht Hg Hp Hc]. split; rsimpl; try done. intros Hb. destruct (Hc Hb). congruence.
Qed.

Lemma pb_restart v r : pb_inv b r -> pb_inv b (restart_current v r).
Proof.
  intros Hi. unfold restart_current. cbv zeta.
  destruct (pb_after_source 0 (Some (clearQueueItemTrim v)) id r Hi) as (Hi2 & Hg2 & Hp2); [done|].
  unfold id in *. match type of Hi2 with pb_inv b ?x => set (r2 := x) in * end. clearbody r2.
  destruct (isPlaying r2); simpl; [done|by apply pb_play].
Qed.

Lemma pb_dequeueNext r : pb_inv b r -> pb_inv b (dequeueNext r).
Proof.
  intros Hi. unfold dequeueNext. cbv zeta. apply (pb_release false) in Hi.
  set (r1 := releaseBufferGate false r) in *. clearbody r1.
  match goal with |- context [match currentSource ?x with _ => _ end] => set (r2 := x) end.
  assert (Hi2 : pb_inv b r2).
  { subst r2. destruct (enableVoteSkip r1); [|done]. refine (pb_inv_view b _ _ _ Hi).
    unfold pb_view; rsimpl; reflexivity. }
  clearbody r2.
  assert (Hend : forall r, pb_inv b r -> pb_inv b (dequeue_epilogue
      match items (queue r) with [] => clear_source r | _ => dequeue_into_source r end)).
  { intros x Hx. apply pb_epilogue. destruct (items (queue x));
      [by apply pb_clear_source|by apply pb_dequeue_into]. }
  destruct (currentSource r2) as [v|], (queueMode r2); cbv beta iota;
    first [by apply pb_restart|apply Hend; done|apply Hend; by apply pb_queue_op].
Qed.

Lemma pb_put_on v r : pb_inv b r -> pb_inv b (put_on v r).
Proof.
  intros Hi. unfold put_on. cbv zeta.
  assert (H : exists r0, pb_inv b r0 /\ bufferGate r0 = None /\ playbackPreparation r0 = None /\
    r0 = set_videoSegments [] ((set_playbackPosition 0 (markDirty PQueue (set_currentSource (Some v) r)))
           <| playbackStart := Some now |>)).
  { destruct (pb_after_source 0 (Some v) (fun x => set_videoSegments [] (markDirty PQueue x)) r Hi)
      as (Hi2 & Hg2 & Hp2); [intros; unfold pb_view; rsimpl; reflexivity|].
    eexists. split_and!; [| | |done]; [refine (pb_inv_view b _ _ _ Hi2)| |];
      [unfold pb_view; rsimpl; reflexivity|revert Hg2; rsimpl; done|revert Hp2; rsimpl; done]. }
  destruct H as (r0 & Hi0 & Hg0 & Hp0 & <-).
  pose proof (pb_start_item r0 Hi0 Hg0 Hp0) as Hi1.
  destruct (bool_decide _); [done|]. refine (pb_inv_view b _ _ _ Hi1).
  unfold pb_view; rsimpl; reflexivity.
Qed.
End PlaybackInvariant.
