(* ===== verification/RoomSync.v ===== *)
(** * RoomSync: what a viewer of the room is told

    [told r r']: whatever page agreed with the room [r] on everything that is not marked
    dirty, still agrees with [r'] after what was published on the way.  Every method that
    changes what viewers see marks it dirty or publishes it, so every method is [told].

    Three properties are not followed.  The position is a clock; [restoreQueueBehavior] has
    no setter that marks it; and of the item that plays, [startAt] is written in place. *)

From S2P Require Import Prelude Types Permissions VideoQueue RoomModel RoomPlayback RoomRequests.
From S2P Require Import RoomLifecycle RoomInvariants ClientRoom.

Definition tracked (p : Prop_) : bool :=
  match p with PPlaybackPosition | PRestoreQueueBehavior => false | _ => true end.

(** ** Equality of what is shown *)

Definition same_items (l l' : list QueueItem) : Prop := Forall2 (fun v w => item_eqb v w = true) l l'.

Definition untrim (v : QueueItem) : QueueItem := v <| qi_startAt := None |>.

(** Queues are compared item by item, as lodash does; the item that plays up to [startAt]. *)
Definition shows (v v' : value) : Prop :=
  match v, v' with
  | VItems l, VItems l' => same_items l l'
  | VItem a, VItem b => untrim <$> a = untrim <$> b
  | _, _ => v = v'
  end.

Lemma bool_decide_trans {A} `{EqDecision A} (x y z : A) :
  bool_decide (x = y) = true -> bool_decide (y = z) = true -> bool_decide (x = z) = true.
Proof. rewrite !bool_decide_eq_true. congruence. Qed.

Lemma num_eqb_trans a b c : num_eqb a b = true -> num_eqb b c = true -> num_eqb a c = true.
Proof.
  destruct a, b, c; simpl; try done.
  - rewrite !Qeq_bool_iff. intros ->. done.
  - rewrite !Bool.eqb_true_iff. congruence.
Qed.

Lemma option_eqb_trans {A} (eqb : A -> A -> bool) a b c :
  (forall x y z, eqb x y = true -> eqb y z = true -> eqb x z = true) ->
  option_eqb eqb a b = true -> option_eqb eqb b c = true -> option_eqb eqb a c = true.
Proof. intros H. destruct a, b, c; simpl; try done. apply H. Qed.

Lemma Qeq_bool_trans' x y z : Qeq_bool x y = true -> Qeq_bool y z = true -> Qeq_bool x z = true.
Proof. rewrite !Qeq_bool_iff. intros ->. done. Qed.

Lemma eqb_trans x y z : Bool.eqb x y = true -> Bool.eqb y z = true -> Bool.eqb x z = true.
Proof. rewrite !Bool.eqb_true_iff. congruence. Qed.

Lemma item_eqb_trans a b c : item_eqb a b = true -> item_eqb b c = true -> item_eqb a c = true.
Proof.
  unfold item_eqb. rewrite !andb_true_iff. intros Hab Hbc. destruct_and!.
  split_and!; first [eapply bool_decide_trans; eassumption|eapply eqb_trans; eassumption
    |eapply option_eqb_trans; [apply num_eqb_trans|eassumption|eassumption]
    |eapply option_eqb_trans; [apply Qeq_bool_trans'|eassumption|eassumption]].
Qed.

Lemma same_items_refl l : same_items l l.
Proof. unfold same_items. induction l; constructor; [apply item_eqb_refl|done]. Qed.

Lemma same_items_trans l1 l2 l3 : same_items l1 l2 -> same_items l2 l3 -> same_items l1 l3.
Proof.
  unfold same_items. intros H. revert l3. induction H; intros l3 H3; inversion H3; subst; constructor.
  - by eapply item_eqb_trans.
  - auto.
Qed.

Lemma item_eqb_sym a b : item_eqb a b = true -> item_eqb b a = true.
Proof.
  assert (Hn : forall x y, num_eqb x y = true -> num_eqb y x = true).
  { intros [] []; simpl; try done; [by rewrite !Qeq_bool_iff|by rewrite !Bool.eqb_true_iff]. }
  assert (Hq : forall x y, Qeq_bool x y = true -> Qeq_bool y x = true)
    by (intros x y; by rewrite !Qeq_bool_iff).
  assert (Ho : forall A (e : A -> A -> bool) x y, (forall x y, e x y = true -> e y x = true) ->
    option_eqb e x y = true -> option_eqb e y x = true) by (intros A e [] [] He; simpl; auto).
  unfold item_eqb. rewrite !andb_true_iff, !Bool.eqb_true_iff, !bool_decide_eq_true.
  intros Hab. destruct_and!. split_and!; auto.
Qed.

Lemma same_items_sym l l' : same_items l l' -> same_items l' l.
Proof. unfold same_items. induction 1; constructor; [by apply item_eqb_sym|done]. Qed.

Lemma shows_refl v : shows v v.
Proof. destruct v; simpl; try done. apply same_items_refl. Qed.

Lemma shows_trans a b c : shows a b -> shows b c -> shows a c.
Proof.
  destruct a, b; simpl; try done; destruct c; simpl; try done; try congruence.
  apply same_items_trans.
Qed.

(** ** Agreement

    A page whose store was [c] when the room had published [n] effects agrees with the room
    now, on everything that is neither dirty nor in [S], the properties a method has changed
    and not marked yet. *)
Record agrees (c : Store) (n : nat) (S : list Prop_) (r : Room) : Prop := {
  ag_shown : forall p, tracked p = true -> p ∉ dirty r -> p ∉ S ->
    shows (replay (drop n (outbox r)) c p) (prop_value 0 p r);
  ag_len : (n <= length (outbox r))%nat;
  (** A message with the name of the room resets the round of a page it does not mention. *)
  ag_round : PName ∈ dirty r ->
    PPlaybackPreparation ∈ dirty r \/ PPlaybackPreparation ∈ S \/ playbackPreparation r = None;
  ag_gate : PName ∈ dirty r -> PBufferGateMode ∈ dirty r;
}.

Definition told (r r' : Room) : Prop := forall c n, agrees c n [] r -> agrees c n [] r'.

(** The value of a property other than the position does not depend on it. *)
Lemma value_position q q' p r : tracked p = true -> prop_value q p r = prop_value q' p r.
Proof. by destruct p. Qed.

Section Told.
Context `{E : Env}.
Implicit Types (r : Room) (c : Store).

(** A change that leaves all but the properties in [S] as they are. *)
Lemma ag_change c n S r r' :
  (forall p, tracked p = true -> p ∉ S -> shows (prop_value 0 p r) (prop_value 0 p r')) ->
  dirty r' = dirty r -> outbox r' = outbox r ->
  agrees c n S r -> agrees c n S r'.
Proof.
  intros Hv Hd Ho [Hs Hl Hr Hg]. split; rewrite ?Hd, ?Ho; try done.
  - intros p Ht Hp HS. eapply shows_trans; [by apply Hs|by apply Hv].
  - intros Hn. destruct (Hr Hn) as [?|[?|He]]; [by left|by right; left|].
    destruct (decide (PPlaybackPreparation ∈ S)) as [HS|HS]; [by right; left|right; right].
    specialize (Hv PPlaybackPreparation eq_refl HS). simpl in Hv. congruence.
Qed.

Lemma ag_more c n S S' r : (forall p, p ∈ S -> p ∈ S') -> agrees c n S r -> agrees c n S' r.
Proof. intros HS [Hs Hl Hr Hg]. split; try done; [auto|naive_solver]. Qed.

Lemma ag_mark c n S p r : p <> PName -> agrees c n (p :: S) r -> agrees c n S (markDirty p r).
Proof.
  intros Hp [Hs Hl Hr Hg]. unfold markDirty.
  assert (Hd : forall q, q ∈ set_add p (dirty r) <-> q = p \/ q ∈ dirty r).
  { intros q. unfold set_add. case_decide; set_solver. }
  split; cbn [dirty outbox over playbackPreparation].
  - intros q Ht Hq HS. rewrite Hd in Hq.
    assert (Hv : prop_value 0 q (r <| dirty ::= set_add p |>) = prop_value 0 q r) by by destruct q.
    rewrite Hv. apply Hs; set_solver.
  - done.
  - rewrite !Hd. intros [?|Hn]; [congruence|]. destruct (Hr Hn) as [?|[[->|?]%elem_of_cons|?]]; tauto.
  - rewrite !Hd. intros [?|Hn]; [congruence|]. right. auto.
Qed.

Lemma drop_snoc_le {A} n (l : list A) x : (n <= length l)%nat -> drop n (l ++ [x]) = drop n l ++ [x].
Proof. intros Hn. rewrite drop_app. by replace (n - length l)%nat with 0%nat by lia. Qed.

(** Publishing something else than a sync message. *)
Lemma ag_publish c n S e r :
  match e with PublishSync _ => False | _ => True end ->
  agrees c n S r -> agrees c n S (publish e r).
Proof.
  intros He [Hs Hl Hr Hg]. unfold publish.
  split; cbn [dirty outbox over playbackPreparation]; try done.
  - intros p Ht Hp HS. rewrite drop_snoc_le by done. rewrite replay_app.
    replace (replay [e] (replay (drop n (outbox r)) c)) with (replay (drop n (outbox r)) c) by by destruct e.
    replace (prop_value 0 p _) with (prop_value 0 p r) by by destruct p. auto.
  - rewrite length_app. simpl. lia.
Qed.

(** A method that keeps every page as right as it was. *)
Class Honest (f : Room -> Room) : Prop :=
  honest : forall c n S r, agrees c n S r -> agrees c n S (f r).
End Told.

Ltac in_list := solve [repeat first [apply list_elem_of_here | apply list_elem_of_further]].

(** One assignment: nothing shown changes but what [S] allows. *)
Ltac ag_over :=
  let p := fresh in let Ht := fresh in let HS := fresh in
  intros p Ht HS; destruct p;
  first [ discriminate Ht
        | exfalso; apply HS; in_list
        | apply shows_refl ].

Ltac ag_step :=
  lazymatch goal with
  | H : agrees ?c ?n ?S ?r |- agrees ?c ?n ?S ?r => exact H
  | H : agrees ?c ?n ?S ?r |- agrees ?c ?n _ ?r =>
      apply (ag_more c n S _ r); [|exact H];
      let x := fresh in let Hx := fresh in intros x Hx;
      repeat (apply elem_of_cons in Hx as [->|Hx]; [in_list|]);
      repeat (first [exact Hx | apply list_elem_of_further])
  | |- agrees _ _ _ (let _ := _ in _) => cbv zeta
  | |- agrees _ _ _ (markDirty _ _) => apply ag_mark; [discriminate|]
  | |- agrees _ _ _ (publish _ _) => apply ag_publish; [exact I|]
  | |- agrees ?c ?n ?S (@over Room ?A ?g ?s ?h ?x) =>
      refine ((_ : forall y, agrees c n S y -> agrees c n S (@over Room A g s h y)) x _);
      [let y := fresh in intros y; apply (ag_change c n S y); [ag_over|reflexivity|reflexivity]|]
  | |- agrees _ _ _ (match ?x with _ => _ end) => destruct x
  | |- agrees ?c ?n ?S (?f ?x) => apply (honest (f := f))
  end.
Ltac ag_tac := unfold Honest; intros; cbv zeta; repeat ag_step.

Section Methods.
Context `{E : Env}.

#[global] Instance honest_position v : Honest (set_playbackPosition v).
Proof. unfold set_playbackPosition. ag_tac. Qed.
#[global] Instance honest_speed v : Honest (set_playbackSpeed v).
Proof. unfold set_playbackSpeed. ag_tac. Qed.
#[global] Instance honest_segments v : Honest (set_videoSegments v).
Proof. unfold set_videoSegments. ag_tac. Qed.
#[global] Instance honest_prevQueue v : Honest (set_prevQueue v).
Proof. unfold set_prevQueue. ag_tac. Qed.
#[global] Instance honest_clear_timer : Honest clearPlaybackStartTimer.
Proof. unfold clearPlaybackStartTimer. ag_tac. Qed.
#[global] Instance honest_flush : Honest flushPlaybackPosition.
Proof. unfold flushPlaybackPosition. ag_tac. Qed.
#[global] Instance honest_endTemp x : Honest (endTemporaryPlaybackSpeed x).
Proof. unfold endTemporaryPlaybackSpeed. ag_tac. Qed.
#[global] Instance honest_isPlaying v : Honest (set_isPlaying v).
Proof. unfold set_isPlaying. ag_tac. Qed.
#[global] Instance honest_cancel : Honest cancelPlaybackPreparation.
Proof. unfold cancelPlaybackPreparation. ag_tac. Qed.
#[global] Instance honest_source v : Honest (set_currentSource v).
Proof. unfold set_currentSource. ag_tac. Qed.
#[global] Instance honest_play : Honest play.
Proof. unfold play. ag_tac. Qed.
#[global] Instance honest_pauseClock : Honest pausePlaybackClock.
Proof. unfold pausePlaybackClock. ag_tac. Qed.
#[global] Instance honest_pause x : Honest (pause x).
Proof. unfold pause. ag_tac. Qed.
#[global] Instance honest_seekRaw q : Honest (seekRaw q).
Proof. unfold seekRaw. ag_tac. Qed.
#[global] Instance honest_renew : Honest renewTemporaryPlaybackSpeed.
Proof. unfold renewTemporaryPlaybackSpeed. ag_tac. Qed.
#[global] Instance honest_release x : Honest (releaseBufferGate x).
Proof. unfold releaseBufferGate. ag_tac. Qed.
#[global] Instance honest_evaluate : Honest evaluateBufferGate.
Proof. unfold evaluateBufferGate. ag_tac. Qed.
#[global] Instance honest_startPrepared : Honest startPreparedPlayback.
Proof. unfold startPreparedPlayback. ag_tac. Qed.
#[global] Instance honest_schedule x : Honest (schedulePlaybackStart x).
Proof. unfold schedulePlaybackStart. ag_tac. Qed.
#[global] Instance honest_drop x : Honest (dropPlaybackParticipant x).
Proof. unfold dropPlaybackParticipant, set_preparation. ag_tac. Qed.

(** Cancelling a round that is there marks it, whatever was done to it before. *)
Lemma ag_cancel c n S r p : playbackPreparation r = Some p ->
  agrees c n (PPlaybackPreparation :: S) r -> agrees c n S (cancelPlaybackPreparation r).
Proof.
  intros Hp H. unfold cancelPlaybackPreparation, clearPlaybackStartTimer. cbv zeta.
  change (playbackPreparation (r <| playbackStartTimer := None |>)) with (playbackPreparation r).
  rewrite Hp. ag_tac.
Qed.

#[global] Instance honest_refresh : Honest refreshPlaybackPreparation.
Proof.
  unfold refreshPlaybackPreparation, set_preparation. intros c n S r H. cbv zeta.
  destruct (playbackPreparation r) as [p|]; [|done]. destruct (decide _); [done|].
  destruct (playbackEligibleIds r p); [|ag_tac]. case_match; [|ag_tac].
  eapply ag_cancel; [reflexivity|]. ag_tac.
Qed.
#[global] Instance honest_prepareEmpty : Honest prepareEmptyRoomPlayback.
Proof. unfold prepareEmptyRoomPlayback. ag_tac. Qed.
#[global] Instance honest_hold : Honest holdPlaybackForPreparation.
Proof. unfold holdPlaybackForPreparation. ag_tac. Qed.
#[global] Instance honest_holdEmpty x : Honest (holdEmptyPlaybackForJoin x).
Proof. unfold holdEmptyPlaybackForJoin. ag_tac. Qed.
#[global] Instance honest_finish x st rep : Honest (finishPlaybackPreparation x st rep).
Proof. unfold finishPlaybackPreparation, set_preparation. ag_tac. Qed.
#[global] Instance honest_clear_source : Honest clear_source.
Proof. unfold clear_source. ag_tac. Qed.
#[global] Instance honest_epilogue : Honest dequeue_epilogue.
Proof. unfold dequeue_epilogue. ag_tac. Qed.
#[global] Instance honest_restart v : Honest (restart_current v).
Proof. unfold restart_current. ag_tac. Qed.
#[global] Instance honest_put_on v : Honest (put_on v).
Proof. unfold put_on. ag_tac. Qed.
#[global] Instance honest_resume x role : Honest (resume_for_join x role).
Proof. unfold resume_for_join. ag_tac. Qed.
#[global] Instance honest_settle : Honest settle_empty_room.
Proof. unfold settle_empty_room. ag_tac. Qed.
#[global] Instance honest_rebuild x : Honest (rebuild_round x).
Proof. unfold rebuild_round. ag_tac. Qed.
#[global] Instance honest_begin x g : Honest (begin_temporary_speed x g).
Proof. unfold begin_temporary_speed. ag_tac. Qed.
#[global] Instance honest_deadlines : Honest tick_deadlines.
Proof. unfold tick_deadlines, set_preparation. ag_tac. Qed.
#[global] Instance honest_due_start : Honest tick_due_start.
Proof. unfold tick_due_start. ag_tac. Qed.
#[global] Instance honest_tick_preparation : Honest tick_preparation.
Proof. unfold tick_preparation. ag_tac. Qed.
#[global] Instance honest_event req ctx add u : Honest (publishRoomEvent req ctx add u).
Proof. unfold publishRoomEvent, record_event. ag_tac. Qed.
#[global] Instance honest_consume ev : Honest (consume_event ev).
Proof. unfold consume_event. ag_tac. Qed.
#[global] Instance honest_insert_note a t : Honest (insert_note a t).
Proof. unfold insert_note. ag_tac. Qed.
#[global] Instance honest_destroy_note x : Honest (destroy_note x).
Proof. unfold destroy_note. ag_tac. Qed.
#[global] Instance honest_set_role uid role : Honest (set_role uid role).
Proof. unfold set_role. ag_tac. Qed.
#[global] Instance honest_remove x : Honest (remove_user x).
Proof. unfold remove_user. ag_tac. Qed.
#[global] Instance honest_set_user x u : Honest (set_user x u).
Proof. unfold set_user. ag_tac. Qed.
#[global] Instance honest_syncUser u : Honest (syncUser u).
Proof. unfold syncUser. ag_tac. Qed.
#[global] Instance honest_toggle x : Honest (toggle_skip_vote x).
Proof. unfold toggle_skip_vote. ag_tac. Qed.
#[global] Instance honest_announce info rc ctx t : Honest (announce_join info rc ctx t).
Proof. unfold announce_join, noteJoin. intros c n S r H. destruct (map_get _ _); ag_tac. Qed.
#[global] Instance honest_leave_event ctx u t : Honest (publishLeaveEvent ctx u t).
Proof. unfold publishLeaveEvent. ag_tac. Qed.
#[global] Instance honest_segments_fetched : Honest fetchSponsorBlockSegments.
Proof. unfold fetchSponsorBlockSegments. ag_tac. Qed.

(** *** The queue *)

(** A queue operation either raises the flag or shows the same list. *)
Definition flags {A} (m : M VideoQueue exn A) : Prop :=
  forall q, q_dirty (m q).2 = true \/ same_items (items q) (items (m q).2).

Lemma ag_queue_op {A} (m : M VideoQueue exn A) c n S r : flags m ->
  agrees c n S r -> agrees c n S (queue_op m r).2.
Proof.
  intros Hm H. unfold queue_op. specialize (Hm (VideoQueue.clean (queue r))).
  destruct (m (VideoQueue.clean (queue r))) as [res q]. cbn [snd] in *. destruct (q_dirty q).
  - ag_tac.
  - destruct Hm as [|Hm]; [done|].
    apply (ag_change c n S r); [|done..|done]. intros p Ht HS.
    destruct p; try discriminate Ht; try apply shows_refl. exact Hm.
Qed.

Lemma flags_ret {A} (a : A) : flags (ret a).
Proof. intros q. right. apply same_items_refl. Qed.
Lemma flags_throw {A} e : flags (A := A) (throw e).
Proof. intros q. right. apply same_items_refl. Qed.
Lemma flags_mark f : flags (modify (fun q => VideoQueue.markDirty (f q))).
Proof. intros q. by left. Qed.
Lemma flags_mark_ret {A} f (a : A) : flags (modify (fun q => VideoQueue.markDirty (f q)) ;;; ret a).
Proof. intros q. by left. Qed.
Lemma flags_get {A} (k : VideoQueue -> M VideoQueue exn A) :
  (forall q, flags (k q)) -> flags (bind get k).
Proof. intros Hk q. exact (Hk q q). Qed.
Lemma flags_cap {A} k (m : M VideoQueue exn A) : flags m -> flags (VideoQueue.check_cap k ;;; m).
Proof.
  intros Hm q. unfold VideoQueue.check_cap, bind, get. destruct (_ <? _)%nat; [|exact (Hm q)].
  right. apply same_items_refl.
Qed.

Ltac flags_tac := repeat lazymatch goal with
  | |- flags (ret _) => apply flags_ret
  | |- flags (throw _) => apply flags_throw
  | |- flags (modify _) => apply flags_mark
  | |- flags (bind (modify _) (fun _ => ret _)) => apply flags_mark_ret
  | |- flags (bind (VideoQueue.check_cap _) _) => apply flags_cap
  | |- flags (bind get _) => apply flags_get; intros ?
  | |- flags (match ?x with _ => _ end) => destruct x
  | |- _ => progress cbv zeta
  end.

Lemma flags_enqueue l : flags (VideoQueue.enqueue l).
Proof. unfold VideoQueue.enqueue. flags_tac. Qed.
Lemma flags_overflow l : flags (VideoQueue.enqueueOverflow l).
Proof. unfold VideoQueue.enqueueOverflow. flags_tac. Qed.
Lemma flags_pushTop l : flags (VideoQueue.pushTop l).
Proof. unfold VideoQueue.pushTop. flags_tac. Qed.
Lemma flags_insert v i : flags (VideoQueue.insert v i).
Proof. unfold VideoQueue.insert. flags_tac. Qed.
Lemma flags_move i j : flags (VideoQueue.move i j).
Proof. unfold VideoQueue.move. flags_tac. Qed.
Lemma flags_evict v : flags (VideoQueue.evict v).
Proof. unfold VideoQueue.evict. flags_tac. Qed.
Lemma flags_update v p : flags (VideoQueue.update v p).
Proof. unfold VideoQueue.update. flags_tac. Qed.
Lemma flags_shuffle : flags VideoQueue.shuffle.
Proof. unfold VideoQueue.shuffle. flags_tac. Qed.
Lemma flags_dequeue : flags VideoQueue.dequeue.
Proof. unfold VideoQueue.dequeue. flags_tac. Qed.

(** Sorting by votes raises the flag when an item really moved. *)
Lemma flags_orderBy {LL : LodashLaws env_lodash} key : flags (VideoQueue.orderBy key).
Proof.
  intros q. unfold VideoQueue.orderBy, modify. cbn [snd]. set (new := lodash_orderByDesc key (items q)).
  assert (Hlen : length new = length (items q))
    by (apply Permutation_length, (orderByDesc_stable key (items q))).
  destruct (negb (bool_decide (new = [])) && _) eqn:Hc; [by left|right]. cbn [items over].
  clearbody new. revert Hc Hlen. generalize (items q) as l. intros l.
  destruct new as [|v new]; [intros _ Hlen; destruct l; [apply same_items_refl|discriminate Hlen]|]. rewrite bool_decide_false by done. simpl negb at 1.
  intros Hc%negb_false_iff Hlen. apply same_items_sym. revert Hc Hlen. generalize (v :: new) as l'.
  intros l'. revert l. unfold same_items.
  induction l' as [|x l' IH]; intros [|y l] Hc Hlen; try discriminate Hlen; constructor;
    cbn [combine forallb fst snd] in Hc; apply andb_true_iff in Hc as [Hc1 Hc2]; [done|].
  apply IH; [done|by injection Hlen].
Qed.

#[global] Instance honest_queue_do {A} (m : M VideoQueue exn A) : flags m -> Honest (queue_do m).
Proof. intros Hm c n S r H. by apply ag_queue_op. Qed.

#[global] Instance honest_dequeue_into_source : Honest dequeue_into_source.
Proof.
  unfold dequeue_into_source. pose proof (honest_queue_do _ flags_dequeue). ag_tac.
Qed.

#[global] Instance honest_dequeueNext : Honest dequeueNext.
Proof.
  unfold dequeueNext. intros c n S r H. cbv zeta.
  match goal with |- agrees c n S (match currentSource ?x with _ => _ end) =>
    assert (H1 : agrees c n S x) by ag_tac; revert H1; generalize x; clear H r; intros r H end.
  assert (Hq : forall v, Honest (queue_do (VideoQueue.enqueueOverflow [Some (clearQueueItemTrim v)])))
    by (intros v; apply honest_queue_do, flags_overflow).
  ag_tac.
Qed.

(** The item's own [startAt] is not followed. *)
Lemma ag_relabel c n S v x r : currentSource r = Some v ->
  agrees c n S r -> agrees c n S (replace_current (v <| qi_startAt := x |>) r).
Proof.
  intros Hv. apply ag_change; [|done..]. intros p Ht HS. unfold replace_current.
  destruct p; try discriminate Ht; try apply shows_refl. simpl. by rewrite Hv.
Qed.

(** *** Votes and settings *)

#[global] Instance honest_drop_votes x : Honest (drop_votes x).
Proof.
  unfold drop_votes. intros c n S r H. cbv zeta.
  match goal with |- agrees c n S (if bool_decide (queueMode ?x = Vote) then _ else _) =>
    assert (H1 : agrees c n S x) by ag_tac; revert H1; generalize x; clear H r; intros r H end.
  case_bool_decide; [|done]. destruct (existsb _ (votes r)) eqn:Hv; [ag_tac|].
  apply (ag_change c n S r); [|done..|done]. intros p Ht HS.
  destruct p; try discriminate Ht; try apply shows_refl. cbn [prop_value]. unfold voteCounts. cbn [votes over].
  rewrite map_map. cbn [fst snd]. simpl. f_equal. clear -Hv. induction (votes r) as [|[k l] vs IH]; [done|].
  cbn [existsb snd] in Hv. apply orb_false_iff in Hv as [Hk Hv]. cbn [map]. rewrite (IH Hv).
  apply bool_decide_eq_false in Hk. cbn [fst snd]. f_equal. f_equal. f_equal. set_solver.
Qed.

#[global] Instance honest_apply_setting x : Honest (apply_setting x).
Proof. unfold apply_setting. intros c n S r H. destruct x; ag_tac. Qed.

End Methods.

(** A change of the room that is [told], by the same steps. *)
Ltac told_tac := intros ? ? ?; unfold apply_setting, pass_dont_skip; ag_tac.
