(* ===== verification/RoomReach.v ===== *)
(** * RoomReach: from the methods to every reachable state

    An invariant of the room is preserved by every request, tick and timer as soon as
    it is [Stable]: preserved by the methods the handlers are built from.  The
    playback invariant and the bounds on the queue, the logs and the roles are shown
    stable, and so hold in every reachable state. *)

From S2P Require Import Prelude Types Permissions VideoQueue RoomModel RoomPlayback RoomRequests.
From S2P Require Import RoomLifecycle RoomInvariants RoomSync.

(** ** The fields the playback methods leave alone *)

(** The clients in the room. *)
Definition member_ids (r : Room) : list ClientId := map ru_id (realusers r).

Definition aux_view (r : Room) :=
  (items (queue r), recentEvents r, nextEventRef r, db_notes r, db_nextNoteId r, userRoles r,
   name r, isTemporary r, member_ids r).

Create HintDb aux.

(** Push a view [V] of the room through updates, branches and the methods already done. *)
Ltac view_step V :=
  match goal with
  | |- ?x = ?x => reflexivity
  | |- context [V (@over Room ?A ?g ?s ?h ?r)] =>
      pattern (V (@over Room A g s h r));
      refine (eq_ind_r _ _ ((fun x => eq_refl : V (@over Room A g s h x) = V x) r));
      cbv beta
  | |- context [V (match ?x with _ => _ end)] => destruct x
  | |- _ => progress autorewrite with aux
  end.
Ltac aux_tac := cbv zeta; repeat view_step aux_view.

Section Aux.
Context `{E : Env}.
Implicit Types (r : Room).

Lemma aux_markDirty p r : aux_view (markDirty p r) = aux_view r.
Proof. unfold markDirty. aux_tac. Qed.
Hint Rewrite aux_markDirty : aux.

Lemma aux_set_position q r : aux_view (set_playbackPosition q r) = aux_view r.
Proof. unfold set_playbackPosition. aux_tac. Qed.
Lemma aux_set_speed q r : aux_view (set_playbackSpeed q r) = aux_view r.
Proof. unfold set_playbackSpeed. aux_tac. Qed.
Lemma aux_set_segments l r : aux_view (set_videoSegments l r) = aux_view r.
Proof. unfold set_videoSegments. aux_tac. Qed.
Lemma aux_set_prevQueue l r : aux_view (set_prevQueue l r) = aux_view r.
Proof. unfold set_prevQueue. aux_tac. Qed.
Lemma aux_set_prep p r : aux_view (set_preparation p r) = aux_view r.
Proof. unfold set_preparation. aux_tac. Qed.
Lemma aux_clear_timer r : aux_view (clearPlaybackStartTimer r) = aux_view r.
Proof. unfold clearPlaybackStartTimer. aux_tac. Qed.
Lemma aux_publish e r : aux_view (publish e r) = aux_view r.
Proof. unfold publish. aux_tac. Qed.
Hint Rewrite aux_set_position aux_set_speed aux_set_segments aux_set_prevQueue aux_set_prep
  aux_clear_timer aux_publish : aux.

Lemma aux_flush r : aux_view (flushPlaybackPosition r) = aux_view r.
Proof. unfold flushPlaybackPosition. aux_tac. Qed.
Hint Rewrite aux_flush : aux.
Lemma aux_endTemp x r : aux_view (endTemporaryPlaybackSpeed x r) = aux_view r.
Proof. unfold endTemporaryPlaybackSpeed. aux_tac. Qed.
Hint Rewrite aux_endTemp : aux.
Lemma aux_set_isPlaying x r : aux_view (set_isPlaying x r) = aux_view r.
Proof. unfold set_isPlaying. aux_tac. Qed.
Lemma aux_cancel r : aux_view (cancelPlaybackPreparation r) = aux_view r.
Proof. unfold cancelPlaybackPreparation. aux_tac. Qed.
Hint Rewrite aux_set_isPlaying aux_cancel : aux.
Lemma aux_set_source v r : aux_view (set_currentSource v r) = aux_view r.
Proof. unfold set_currentSource. aux_tac. Qed.
Lemma aux_play r : aux_view (play r) = aux_view r.
Proof. unfold play. aux_tac. Qed.
Lemma aux_pauseClock r : aux_view (pausePlaybackClock r) = aux_view r.
Proof. unfold pausePlaybackClock. aux_tac. Qed.
Lemma aux_seekRaw q r : aux_view (seekRaw q r) = aux_view r.
Proof. unfold seekRaw. aux_tac. Qed.
Hint Rewrite aux_set_source aux_play aux_pauseClock aux_seekRaw : aux.
Lemma aux_pause x r : aux_view (pause x r) = aux_view r.
Proof. unfold pause. aux_tac. Qed.
Lemma aux_release t r : aux_view (releaseBufferGate t r) = aux_view r.
Proof. unfold releaseBufferGate. aux_tac. Qed.
Hint Rewrite aux_pause aux_release : aux.
Lemma aux_evaluate r : aux_view (evaluateBufferGate r) = aux_view r.
Proof. unfold evaluateBufferGate. aux_tac. Qed.
Lemma aux_startPrepared r : aux_view (startPreparedPlayback r) = aux_view r.
Proof. unfold startPreparedPlayback. aux_tac. Qed.
Hint Rewrite aux_evaluate aux_startPrepared : aux.
Lemma aux_schedule f r : aux_view (schedulePlaybackStart f r) = aux_view r.
Proof. unfold schedulePlaybackStart. aux_tac. Qed.
Hint Rewrite aux_schedule : aux.
Lemma aux_drop c r : aux_view (dropPlaybackParticipant c r) = aux_view r.
Proof. unfold dropPlaybackParticipant. aux_tac. Qed.
Lemma aux_refresh r : aux_view (refreshPlaybackPreparation r) = aux_view r.
Proof. unfold refreshPlaybackPreparation. aux_tac. Qed.
Lemma aux_prepareEmpty r : aux_view (prepareEmptyRoomPlayback r) = aux_view r.
Proof. unfold prepareEmptyRoomPlayback. aux_tac. Qed.
Hint Rewrite aux_drop aux_refresh aux_prepareEmpty : aux.
Lemma aux_hold r : aux_view (holdPlaybackForPreparation r) = aux_view r.
Proof. unfold holdPlaybackForPreparation. aux_tac. Qed.
Lemma aux_holdEmpty x r : aux_view (holdEmptyPlaybackForJoin x r) = aux_view r.
Proof. unfold holdEmptyPlaybackForJoin. aux_tac. Qed.
Lemma aux_finish c st rep r : aux_view (finishPlaybackPreparation c st rep r) = aux_view r.
Proof. unfold finishPlaybackPreparation. aux_tac. Qed.
Hint Rewrite aux_hold aux_holdEmpty aux_finish : aux.
Lemma aux_restart v r : aux_view (restart_current v r) = aux_view r.
Proof. unfold restart_current. aux_tac. Qed.
Lemma aux_clear_source r : aux_view (clear_source r) = aux_view r.
Proof. unfold clear_source. aux_tac. Qed.
Lemma aux_epilogue r : aux_view (dequeue_epilogue r) = aux_view r.
Proof. unfold dequeue_epilogue. aux_tac. Qed.
Hint Rewrite aux_restart aux_clear_source aux_epilogue : aux.

Lemma aux_put_on v r : aux_view (put_on v r) = aux_view r.
Proof. unfold put_on. aux_tac. Qed.
Lemma aux_resume_for_join x role r : aux_view (resume_for_join x role r) = aux_view r.
Proof. unfold resume_for_join. aux_tac. Qed.
Lemma aux_settle r : aux_view (settle_empty_room r) = aux_view r.
Proof. unfold settle_empty_room. aux_tac. Qed.
Lemma aux_rebuild c r : aux_view (rebuild_round c r) = aux_view r.
Proof. unfold rebuild_round. aux_tac. Qed.
Lemma aux_begin c g r : aux_view (begin_temporary_speed c g r) = aux_view r.
Proof. unfold begin_temporary_speed, renewTemporaryPlaybackSpeed. aux_tac. Qed.
Lemma aux_tick_preparation r : aux_view (tick_preparation r) = aux_view r.
Proof. unfold tick_preparation, tick_due_start, tick_deadlines. aux_tac. Qed.
End Aux.

#[export] Hint Rewrite @aux_markDirty @aux_set_position @aux_set_speed @aux_set_segments
  @aux_set_prevQueue @aux_set_prep @aux_clear_timer @aux_publish @aux_flush @aux_endTemp
  @aux_set_isPlaying @aux_cancel @aux_set_source @aux_play @aux_pauseClock @aux_seekRaw
  @aux_pause @aux_release @aux_evaluate @aux_startPrepared @aux_schedule @aux_prepareEmpty
  @aux_hold @aux_holdEmpty @aux_finish @aux_restart @aux_clear_source @aux_epilogue
  @aux_put_on @aux_resume_for_join @aux_settle @aux_rebuild @aux_begin @aux_tick_preparation : aux.

(** ** A sync changes neither view *)

Lemma sync_run `{E : Env} r : dirty r <> [] ->
  (sync r).2 = let r1 := publish (PublishSync (MkSync (pick_state (realPlaybackPosition r) (dirty r) r))) (cleanDirty r) in
    if negb (isTemporary r) && existsb persistent (dirty r) && negb env_storageOk
    then r1 <| dirty ::= fun l => fold_left (fun acc p => set_add p acc) (dirty r) l |> else r1.
Proof.
  intros Hd. unfold sync. rewrite bind_get. destruct (dirty r) as [|p l] eqn:Hr; [done|].
  rewrite !bind_modify. cbv zeta. by destruct (_ && _).
Qed.

Lemma sync_clean `{E : Env} r : dirty r = [] -> (sync r).2 = r.
Proof. intros Hd. unfold sync. by rewrite bind_get, Hd. Qed.

Lemma sync_views `{E : Env} r :
  pb_view (sync r).2 = pb_view r /\ aux_view (sync r).2 = aux_view r.
Proof.
  destruct (decide (dirty r = [])) as [Hd|Hd]; [by rewrite sync_clean|]. rewrite sync_run by done.
  unfold publish, cleanDirty. cbv zeta. split; [repeat view_step pb_view|repeat view_step aux_view].
Qed.

(** ** Stable invariants *)

Definition start_clock `{Env} (r : Room) : Room := r <| playbackStart := Some now |>.

(** What a method may add to a room: a client, or a note. *)
Inductive addition := AClient (c : ClientId) | ANote.

(** [method adds r r']: one of the methods the handlers are built from takes [r] to [r'];
    it only adds what [adds] allows. *)
Inductive method `{Env} (adds : addition -> Prop) : Room -> Room -> Prop :=
  | m_frame r r' : pb_view r' = pb_view r -> aux_view r' = aux_view r -> told r r' -> method adds r r'
  | m_sync r : method adds r (sync r).2
  | m_play r : method adds r (play r)
  | m_pause r : method adds r (pause false r)
  | m_pauseClock r : method adds r (pausePlaybackClock r)
  | m_endTemp x r : method adds r (endTemporaryPlaybackSpeed x r)
  | m_flush r : method adds r (flushPlaybackPosition r)
  | m_begin c g r : isPlaying r = true -> method adds r (begin_temporary_speed c g r)
  | m_seek q r : method adds r (seekRaw q r)
  | m_release r : method adds r (releaseBufferGate false r)
  | m_evaluate r : method adds r (evaluateBufferGate r)
  | m_dequeueNext r : method adds r (dequeueNext r)
  | m_relabel v x r : currentSource r = Some v ->
      method adds r (replace_current (v <| qi_startAt := x |>) r)
  | m_source v r : method adds r (set_currentSource v r)
  | m_replace v q r : method adds r (start_clock (set_playbackPosition q (set_currentSource v r)))
  | m_put_on v r : method adds r (put_on v r)
  | m_holdEmpty x r : method adds r (holdEmptyPlaybackForJoin x r)
  | m_resume x role r : method adds r (resume_for_join x role r)
  | m_settle r : method adds r (settle_empty_room r)
  | m_rebuild c r : method adds r (rebuild_round c r)
  | m_finish c st rep r : method adds r (finishPlaybackPreparation c st rep r)
  | m_startPrepared r : method adds r (startPreparedPlayback r)
  | m_tick_preparation r : method adds r (tick_preparation r)
  | m_queue A (m : M VideoQueue exn A) r : keeps bounded m -> flags m -> method adds r (queue_op m r).2
  | m_event req ctx add u r : method adds r (publishRoomEvent req ctx add u r)
  | m_consume ev r : method adds r (consume_event ev r)
  | m_addNote a t r : adds ANote -> method adds r (insert_note a t r)
  | m_deleteNote n r : method adds r (destroy_note n r)
  | m_set_role uid role r : method adds r (set_role uid role r)
  | m_add u r : adds (AClient (ru_id u)) -> method adds r (r <| realusers ::= fun l => l ++ [u] |>)
  | m_remove c r : method adds r (remove_user c r)
  | m_set_user c u r : ru_id u = c -> method adds r (set_user c u r).

Definition StableFor `{Env} (adds : addition -> Prop) (I : Room -> Prop) : Prop :=
  forall r r', method adds r r' -> I r -> I r'.

(** Stable whoever joins. *)
Definition Stable `{Env} (I : Room -> Prop) : Prop := StableFor (fun _ => True) I.

(** A request that only adds what [adds] allows. *)
Definition request_adds (adds : addition -> Prop) (req : RoomRequest) : Prop :=
  match req with JoinRequest info _ => adds (AClient (ci_id info)) | AddNoteRequest _ => adds ANote | _ => True end.
Definition step_adds (adds : addition -> Prop) (s : RoomStep) : Prop :=
  match s with StepRequest req _ => request_adds adds req | StepStoreNote _ => adds ANote | _ => True end.

Lemma request_adds_all req : request_adds (fun _ => True) req.
Proof. by destruct req. Qed.
Lemma step_adds_all s : step_adds (fun _ => True) s.
Proof. destruct s; [apply request_adds_all|done..]. Qed.

Section Handlers.
Context `{E : Env} {LL : LodashLaws env_lodash} {adds : addition -> Prop} (I : Room -> Prop)
  (HI : StableFor adds I).
Implicit Types (r : Room).

Notation method := (method adds).

(** A change of fields outside both views, told to the viewers. *)
Lemma keeps_frame (f : Room -> Room) :
  (forall r, pb_view (f r) = pb_view r) -> (forall r, aux_view (f r) = aux_view r) ->
  (forall r, told r (f r)) -> keeps (E := exn) I (modify f).
Proof. intros Hp Ha Ht. apply keeps_modify. intros r Hr. apply (HI r); [by apply m_frame|done]. Qed.

Lemma keeps_get_bind {A} (k : Room -> RM A) :
  (forall r, I r -> I (k r r).2) -> keeps I (bind get k).
Proof. intros H r Hr. by apply H. Qed.

Lemma keeps_bind_at {A B} (m : RM A) (k : A -> RM B) r :
  I (m r).2 -> (forall a, keeps I (k a)) -> I (bind m k r).2.
Proof. intros Hm Hk. unfold bind. destruct (m r) as [[e|a] r']; [done|]. by apply Hk. Qed.

Lemma keeps_bind_value {A B} (a : A) (k : A -> RM B) : keeps I (k a) -> keeps I (bind (lift_res (inr a)) k).
Proof. intros H r Hr. by apply H. Qed.

Lemma keeps_check role p : keeps I (check role p).
Proof. unfold check. keeps_tac. Qed.
Lemma keeps_need_info c : keeps I (need_info c).
Proof. unfold need_info. keeps_tac. Qed.
Lemma keeps_need_client c : keeps I (need_client c).
Proof. unfold need_client. keeps_tac. Qed.
Lemma keeps_emit req ctx add : keeps I (emit req ctx add).
Proof. apply keeps_modify. intros r Hr. apply (HI r); [apply m_event|done]. Qed.
Lemma keeps_subtitle u : keeps I (assertUsableSubtitleUrl u).
Proof. unfold assertUsableSubtitleUrl. keeps_tac. Qed.
Lemma keeps_videoId v : keeps I (assertUsableVideoId v).
Proof. unfold assertUsableVideoId. keeps_tac. Qed.
Lemma keeps_queue {A} (m : M VideoQueue exn A) : keeps bounded m -> flags m -> keeps I (queue_op m).
Proof. intros Hm Hf r Hr. apply (HI r); [by apply m_queue|done]. Qed.
Hint Resolve keeps_check keeps_need_info keeps_need_client keeps_emit keeps_subtitle keeps_videoId
  keeps_queue : keeps.

(** A method used as one step of a handler. *)
Lemma keeps_method (f : Room -> Room) : (forall r, method r (f r)) -> keeps (E := exn) I (modify f).
Proof. intros Hf. apply keeps_modify. intros r Hr. by apply (HI r). Qed.

Lemma keeps_enqueue l : keeps I (queue_op (VideoQueue.enqueue l)).
Proof. apply keeps_queue; [exact (run_bounded (OpEnqueue l))|apply flags_enqueue]. Qed.
Lemma keeps_pushTop l : keeps I (queue_op (VideoQueue.pushTop l)).
Proof. apply keeps_queue; [exact (run_bounded (OpPushTop l))|apply flags_pushTop]. Qed.
Lemma keeps_insert v i : keeps I (queue_op (VideoQueue.insert v i)).
Proof. apply keeps_queue; [exact (run_bounded (OpInsert v i))|apply flags_insert]. Qed.
Lemma keeps_move i j : keeps I (queue_op (VideoQueue.move i j)).
Proof. apply keeps_queue; [exact (run_bounded (OpMove i j))|apply flags_move]. Qed.
Lemma keeps_update v p : keeps I (queue_op (VideoQueue.update v p)).
Proof. apply keeps_queue; [exact (run_bounded (OpUpdate v p))|apply flags_update]. Qed.
Lemma keeps_shuffle : keeps I (queue_op VideoQueue.shuffle).
Proof. apply keeps_queue; [exact (run_bounded OpShuffle)|apply flags_shuffle]. Qed.
Lemma keeps_evict v : keeps I (queue_op (VideoQueue.evict v)).
Proof.
  apply keeps_queue; [|apply flags_evict]. intros q Hq. pose proof (run_bounded (OpEvict v) q Hq) as H.
  simpl in H. unfold bind, ret in H. by destruct (VideoQueue.evict v q) as [[e|a] q'].
Qed.
Hint Resolve keeps_enqueue keeps_pushTop keeps_insert keeps_move keeps_update keeps_shuffle
  keeps_evict : keeps.

(** The goals left by [keeps_tac]: a method, or an update outside the views. *)
Ltac view_tac := intros; unfold replace_current, start_clock, syncUser, publish, set_prevQueue,
  set_videoSegments, set_playbackSpeed, renewTemporaryPlaybackSpeed, drop_votes, markDirty;
  cbv zeta; repeat first [view_step pb_view | view_step aux_view].
Ltac by_frame := apply m_frame; [view_tac|view_tac|told_tac].

(** A method by its name, or one of the frames. *)
Ltac by_method :=
  lazymatch goal with
  | |- method _ (play _) => apply m_play
  | |- method _ (pause false _) => apply m_pause
  | |- method _ (endTemporaryPlaybackSpeed _ _) => apply m_endTemp
  | |- method _ (seekRaw _ _) => apply m_seek
  | |- method _ (evaluateBufferGate _) => apply m_evaluate
  | |- method _ (dequeueNext _) => apply m_dequeueNext
  | |- method _ (set_currentSource _ _) => apply m_source
  | |- method _ (put_on _ _) => apply m_put_on
  | |- method _ (holdEmptyPlaybackForJoin _ _) => apply m_holdEmpty
  | |- method _ (resume_for_join _ _ _) => apply m_resume
  | |- method _ (settle_empty_room _) => apply m_settle
  | |- method _ (rebuild_round _ _) => apply m_rebuild
  | |- method _ (finishPlaybackPreparation _ _ _ _) => apply m_finish
  | |- method _ (consume_event _ _) => apply m_consume
  | |- method _ (destroy_note _ _) => apply m_deleteNote
  | |- method _ (set_role _ _ _) => apply m_set_role
  | |- method _ (remove_user _ _) => apply m_remove
  | |- method _ (publishRoomEvent _ _ _ _ _) => apply m_event
  | |- method _ _ => by_frame
  end.
Ltac handler_step :=
  lazymatch goal with
  | |- keeps _ (modify (announce_join _ _ _ _)) => eauto 2 with keeps
  | |- keeps _ (modify _) =>
      apply keeps_method; intros ?; repeat match goal with
        | |- method _ (if ?c then _ else _) => destruct c
        | |- method _ (match ?c with _ => _ end) => destruct c
        | |- method _ ((if ?c then _ else _) _) => destruct c
        end; solve [by_method]
  | |- _ => keeps_step
  end.
Ltac handler_tac := repeat handler_step.

Lemma keeps_playback st ctx : keeps I (playback st ctx).
Proof. unfold playback. handler_tac. Qed.

Lemma keeps_skip ctx : keeps I (skip ctx).
Proof. unfold skip, toggle_skip_vote. handler_tac. Qed.

Lemma keeps_seek v ctx : keeps I (seek v ctx).
Proof. unfold seek. handler_tac. Qed.

Lemma keeps_chat t ctx : keeps I (chat t ctx).
Proof. unfold chat. handler_tac. Qed.

Lemma keeps_kick t ctx : keeps I (kickUser t ctx).
Proof. unfold kickUser. handler_tac. Qed.

Lemma keeps_reorder i j : keeps I (reorderQueue i j).
Proof. unfold reorderQueue. handler_tac. Qed.

Lemma keeps_shuffleQueue ctx : keeps I (shuffle ctx).
Proof. unfold shuffle. handler_tac. Qed.

Lemma keeps_restore d ctx : keeps I (restoreQueue d ctx).
Proof. unfold restoreQueue. handler_tac. Qed.

Lemma keeps_updateItem v s ctx : keeps I (updateQueueItem v s ctx).
Proof. unfold updateQueueItem. handler_tac. Qed.

Lemma keeps_remove v ctx : keeps I (removeFromQueue v ctx).
Proof. unfold removeFromQueue. handler_tac. Qed.

Lemma keeps_vote v add ctx : keeps I (vote v add ctx).
Proof. unfold vote, vote_set. handler_tac. Qed.

Lemma I_frame r r' : pb_view r' = pb_view r -> aux_view r' = aux_view r -> told r r' -> I r -> I r'.
Proof. intros Hp Ha Ht Hr. apply (HI r); [by apply m_frame|done]. Qed.

Lemma keeps_setSpeed q : keeps I (setPlaybackSpeed q).
Proof.
  unfold setPlaybackSpeed. destruct q; [|handler_tac..]. destruct (_ || _); [handler_tac|].
  apply keeps_modify. intros r Hr.
  apply (I_frame (flushPlaybackPosition (endTemporaryPlaybackSpeed false r))); [view_tac|view_tac|told_tac|].
  eapply HI; [apply m_flush|]. by eapply HI; [apply m_endTemp|].
Qed.

Lemma keeps_tempSpeed a g v ctx : keeps I (setTemporaryPlaybackSpeed a g v ctx).
Proof.
  unfold setTemporaryPlaybackSpeed. destruct g as [g|]; [|handler_tac].
  destruct (_ || _); [handler_tac|]. apply keeps_bind; [handler_tac|]. intros r0.
  destruct (truthy_string _) as [c|]; [|handler_tac]. destruct (negb _); [handler_tac|].
  assert (Hstart : keeps I (modify (E := exn) (fun r =>
    let r := releaseBufferGate false r in if isPlaying r then begin_temporary_speed c g r else r))).
  { apply keeps_modify. intros r Hr. cbv zeta.
    assert (Hr' : I (releaseBufferGate false r)) by (by eapply HI; [apply m_release|]).
    destruct (isPlaying _) eqn:Hp; [|done]. by eapply HI; [apply m_begin|]. }
  destruct a; handler_tac; done.
Qed.

Lemma keeps_filter_batch l : keeps I (filter_batch l).
Proof. induction l as [|[v|] l IH]; simpl; handler_tac; done. Qed.

Lemma keeps_assert_batch l : keeps I (assert_batch l).
Proof. induction l as [|v l IH]; simpl; handler_tac; done. Qed.

Lemma keeps_add_one v req ctx : keeps I (add_one v req ctx).
Proof. unfold add_one. handler_tac. Qed.
Hint Resolve keeps_filter_batch keeps_assert_batch keeps_add_one : keeps.

Lemma keeps_add req ctx : keeps I (addToQueue req ctx).
Proof. unfold addToQueue. handler_tac. Qed.

Lemma keeps_playNow v ctx : keeps I (playNow v ctx).
Proof.
  unfold playNow. apply keeps_bind; [handler_tac|]. intros va. apply keeps_bind; [handler_tac|].
  intros r0. destruct (same_video _ _); [handler_tac|]. cbv zeta.
  apply keeps_bind; [handler_tac|]. intros _. apply keeps_bind; [handler_tac|]. intros _.
  apply keeps_bind; [handler_tac|]. intros item. apply keeps_get_bind. intros r Hr.
  apply keeps_bind_at; [|intros ?; handler_tac]. destruct (currentSource r) as [cur|] eqn:Hc; [|done].
  apply keeps_bind_at; [|intros ?; handler_tac]. eapply HI; [by apply m_relabel|done].
Qed.

Lemma keeps_announce info rc ctx t : keeps (E := exn) I (modify (announce_join info rc ctx t)).
Proof.
  apply keeps_modify. intros r Hr. unfold announce_join, noteJoin.
  assert (Hd : I (r <| pendingLeaveEvents ::= map_delete t |>)) by (apply (I_frame r); [view_tac|view_tac|told_tac|done]).
  destruct (map_get _ _); [done|]. destruct (sessionInRoom _ _ _); [done|].
  eapply HI; [apply m_event|done].
Qed.
Hint Resolve keeps_announce : keeps.

(** Fields of the user that are not its id. *)
Lemma updateInfo_id info u : ru_id (updateInfo info u).2 = ru_id u.
Proof.
  unfold updateInfo, bind, modify, ret, lift_res.
  destruct (truthy_number _) as [n|]; [destruct (env_getUser n)|destruct (truthy_string _)];
    destruct (ci_status info); reflexivity.
Qed.

Lemma keeps_join info rc ctx : adds (AClient (ci_id info)) -> keeps I (joinRoom info rc ctx).
Proof.
  intros Hadd. unfold joinRoom. destruct (truthy_string (ctx_token ctx)); [|handler_tac].
  apply keeps_bind; [handler_tac|]. intros _.
  match goal with |- context [updateInfo info ?u] => pose proof (updateInfo_id info u) as Hid end.
  cbn [ru_id] in Hid. destruct (updateInfo info _) as [[e|x] u]; [by intros r Hr|]. cbn [snd] in Hid.
  apply keeps_bind_value. apply keeps_bind; [|intros _; handler_tac]. apply keeps_method. intros r. apply m_add. by rewrite Hid.
Qed.

Lemma keeps_sync : keeps I sync.
Proof. intros r Hr. eapply HI; [apply m_sync|done]. Qed.
Hint Resolve keeps_sync : keeps.

Lemma keeps_leave ctx : keeps I (leaveRoom ctx).
Proof. unfold leaveRoom, publishLeaveEvent. handler_tac. Qed.

Lemma keeps_updateUser info p : keeps I (updateUser info p).
Proof.
  unfold updateUser. apply keeps_get_bind. intros r0 Hr0. apply keeps_bind_at; [|intros; handler_tac].
  destruct (getUser r0 (ci_id info)) as [u|] eqn:Hu; [|done].
  assert (Hid : ru_id (updateInfo info u).2 = ci_id info).
  { rewrite updateInfo_id. unfold getUser in Hu. apply find_some in Hu as [_ Hu].
    by apply bool_decide_eq_true in Hu. }
  destruct (updateInfo info u) as [res u']. revert r0 Hr0 Hu. cbn [snd] in Hid.
  enough (Hk : keeps I (modify (E := exn) (set_user (ci_id info) u') ;;;
      (lift_res res ;;; modify (fun r => match ci_status info with
                       | Some st => if decide (st = StatusBuffering) then r
                                    else r <| bufferGateExhausted ::= fun s => s ∖ {[ci_id info]} |>
                       | None => r
                       end) ;;;
      shown <- need_info (ci_id info) ;;
      modify (syncUser shown) ;;;
      modify (finishPlaybackPreparation (ci_id info) (ci_status info) p)))).
  { intros r0 Hr0 _. by apply Hk. }
  apply keeps_bind; [apply keeps_method; intros r; by apply m_set_user|]. intros _. handler_tac.
Qed.

Lemma keeps_addNote_store n : adds ANote -> keeps I (addNote_store n).
Proof.
  intros Ha. unfold addNote_store. apply keeps_bind; [apply keeps_need_info|]. intros u.
  apply keeps_bind; [apply keeps_method; intros r; by apply m_addNote|]. intros _. unfold publishNotes. handler_tac.
Qed.

Lemma addNote_check_same t ctx r : (addNote_check t ctx r).2 = r.
Proof.
  unfold addNote_check. rewrite bind_get. destruct (isTemporary r); [done|].
  unfold need_client. destruct (ctx_clientId ctx) as [c|]; [|done]. unfold bind, ret. cbv zeta.
  by repeat case_match.
Qed.

Lemma keeps_addNote t ctx : adds ANote -> keeps I (addNote t ctx).
Proof.
  intros Ha. unfold addNote. apply keeps_bind; [intros r Hr; by rewrite addNote_check_same|].
  intros [n|]; [by apply keeps_addNote_store|handler_tac].
Qed.

Lemma keeps_deleteNote n : keeps I (deleteNote n).
Proof. unfold deleteNote, publishNotes. handler_tac. Qed.

Lemma keeps_promote t role ctx : keeps I (promoteUser t role ctx).
Proof. unfold promoteUser. handler_tac. Qed.

(** One role's new mask, and the mark that follows it. *)
Lemma keeps_grant role p :
  keeps I (grants_op (Grants.setRoleGrants role p) ;;; modify (markDirty PGrants)).
Proof.
  intros r Hr. unfold bind, grants_op, Grants.setRoleGrants. destruct (isRoleValid role).
  - cbv beta iota zeta delta [modify]. cbn [snd]. apply (I_frame r); [view_tac|view_tac|told_tac|done].
  - cbv beta iota zeta delta [throw]. cbn [snd].
    by replace (r <| grants := grants r |>) with r by by destruct r.
Qed.

Lemma keeps_apply_grants x : keeps I (apply_grants x).
Proof.
  unfold apply_grants. destruct x; try apply keeps_ret. apply keeps_mapM. intros role.
  destruct (role_permission role); [apply keeps_grant|apply keeps_ret].
Qed.

Lemma keeps_apply_list l : keeps (E := exn) I (modify (fun r => fold_left (fun r s => apply_setting s r) l r)).
Proof.
  apply keeps_modify. induction l as [|s l IH]; intros r Hr; [done|]. simpl. apply IH.
  apply (I_frame r); [| | |done]; [unfold apply_setting; view_tac..|told_tac].
Qed.

Lemma keeps_settings l ctx : keeps I (applySettings l ctx).
Proof.
  unfold applySettings. apply keeps_bind; [handler_tac|]. intros r0. cbv zeta.
  apply keeps_bind; [unfold check_setting; handler_tac|]. intros _.
  apply keeps_bind; [unfold check_grants; handler_tac|]. intros _.
  destruct (_ && _); [handler_tac|].
  apply keeps_bind; [apply keeps_apply_list|]. intros _.
  apply keeps_bind; [apply keeps_mapM; intros; apply keeps_apply_grants|]. intros _.
  apply keeps_modify. intros r Hr. eapply HI; [apply m_evaluate|].
  apply (I_frame r); [view_tac|view_tac|told_tac|done].
Qed.

Hint Resolve keeps_playback keeps_skip keeps_seek keeps_chat keeps_kick keeps_reorder keeps_shuffleQueue
  keeps_restore keeps_updateItem keeps_remove keeps_vote keeps_setSpeed keeps_tempSpeed keeps_add
  keeps_playNow keeps_leave keeps_updateUser keeps_deleteNote keeps_promote
  keeps_settings : keeps.

Lemma keeps_dispatch u req ctx :
  request_adds adds req -> (forall e c, keeps I (u e c)) -> keeps I (dispatch u req ctx).
Proof.
  intros Ha Hu. unfold dispatch. apply keeps_bind; [handler_tac|]. intros _.
  destruct req; simpl; first [by apply keeps_join|by apply keeps_addNote|eauto with keeps].
Qed.

Lemma keeps_no_undo e ctx : keeps I (no_undo e ctx).
Proof. unfold no_undo. handler_tac. Qed.

Lemma keeps_undo_skip ev ctx : keeps I (undo_skip ev ctx).
Proof.
  unfold undo_skip. repeat (apply keeps_bind; [handler_tac|intros ?]).
  destruct (ec_video (ev_additional ev)), (ec_prevPosition (ev_additional ev)); try by handler_tac.
  apply keeps_method. intros r. apply m_replace.
Qed.

Lemma keeps_undo_event ev ctx : keeps I (undo_event ev ctx).
Proof.
  pose proof keeps_no_undo as Hn. pose proof keeps_undo_skip as Hs.
  unfold undo_event, undo_add, undo_remove.
  destruct (request_type (ev_request ev)); try by (handler_tac || apply Hs).
  - destruct (ec_prevPosition (ev_additional ev)); [by apply keeps_dispatch|handler_tac].
  - repeat (apply keeps_bind; [handler_tac|intros ?]).
    destruct (items (queue a0)); [handler_tac|]. destruct (request_video (ev_request ev)); [by apply keeps_dispatch|handler_tac].
Qed.

Lemma keeps_undo e ctx : keeps I (undo e ctx).
Proof.
  pose proof keeps_undo_event as H. unfold undo. destruct e as [e|]; [|handler_tac].
  apply keeps_bind; [handler_tac|]. intros r. destruct (findRecentEvent e r); [|handler_tac].
  apply keeps_bind; [apply H|]. intros _. handler_tac.
Qed.

Lemma keeps_processRequest_for req ctx : request_adds adds req -> keeps I (processRequest req ctx).
Proof. intros Ha. apply keeps_dispatch; [done|]. apply keeps_undo. Qed.

(** *** Ticks and timers *)

Lemma update_keeps r : I r -> I (update r).
Proof.
  intros Hr. unfold update. cbv zeta.
  assert (H1 : I (tick_preparation (evaluateBufferGate r)))
    by (eapply HI; [apply m_tick_preparation|]; eapply HI; [apply m_evaluate|done]).
  set (r1 := tick_preparation _) in *. clearbody r1.
  assert (H2 : I (tick_temporary_speed r1)).
  { unfold tick_temporary_speed. destruct (temporarySpeed r1); [|done].
    destruct (getUser _ _); [destruct (Grants.granted _ _ _); [done|]|]; (eapply HI; [apply m_endTemp|done]). }
  set (r2 := tick_temporary_speed r1) in *. clearbody r2.
  assert (H3 : I (tick_queue r2)).
  { unfold tick_queue. destruct (_ || _); [|done]. eapply HI; [apply m_dequeueNext|done]. }
  set (r3 := tick_queue r2) in *. clearbody r3.
  assert (H4 : I (tick_keepalive r3)).
  { unfold tick_keepalive. destruct (_ && _); [|done]. apply (I_frame r3); [view_tac|view_tac|told_tac|done]. }
  set (r4 := tick_keepalive r3) in *. clearbody r4.
  assert (H5 : I (tick_order r4)).
  { unfold tick_order, queue_do. destruct (decide _); [|done].
    eapply HI; [apply m_queue|done]; [exact (run_bounded (OpOrderBy _))|apply flags_orderBy]. }
  set (r5 := tick_order r4) in *. clearbody r5.
  unfold tick_sponsorblock. destruct (_ && _); [|done]. cbv zeta.
  assert (H6 : I (if wantSponsorBlock r5
                  then fetchSponsorBlockSegments (r5 <| wantSponsorBlock := false |>) else r5)).
  { apply (I_frame r5); [| | |done]; [unfold fetchSponsorBlockSegments; view_tac..|told_tac]. }
  match type of H6 with I ?x => set (r6 := x) in * end. clearbody r6.
  assert (H7 : I (pass_dont_skip r6)).
  { apply (I_frame r6); [| | |done]; [unfold pass_dont_skip; view_tac..|told_tac]. }
  set (r7 := pass_dont_skip r6) in *. clearbody r7.
  unfold auto_skip. destruct (videoSegments r7); [done|]. destruct (dontSkipSegmentsUntil r7); [done|].
  destruct (isPlaying r7); [|done]. destruct (getSegmentForTime _ _) as [sg|]; [|done].
  destruct (decide _); [|done].
  apply (I_frame (seekRaw (seg_endTime sg) r7)); [view_tac|view_tac|told_tac|].
  eapply HI; [apply m_seek|done].
Qed.

Lemma perform_keeps_for s r : step_adds adds s -> I r -> I (perform s r).
Proof.
  intros Ha Hr. destruct s; simpl.
  - by apply keeps_processRequest_for.
  - by apply update_keeps.
  - by apply keeps_sync.
  - unfold fire_temporary_speed_timer. destruct (temporarySpeedTimer r); [|done].
    destruct (_ <=? _); [|done]. eapply HI; [apply m_endTemp|done].
  - unfold fire_start_timer. destruct (playbackStartTimer r); [|done].
    destruct (_ <=? _); [|done]. eapply HI; [apply m_startPrepared|].
    apply (I_frame r); [view_tac|view_tac|told_tac|done].
  - unfold fire_leave_timer. destruct (map_get _ _) as [p|]; [|done]. destruct (_ <=? _); [|done]. cbv zeta.
    assert (Hd : I (r <| pendingLeaveEvents ::= map_delete token |>)) by (apply (I_frame r); [view_tac|view_tac|told_tac|done]).
    destruct (sessionInRoom _ _ _); [done|]. eapply HI; [apply m_event|done].
  - by apply keeps_addNote_store.
Qed.
(** Unloading a room is built from the same methods. *)
Lemma keeps_unload : keeps I onBeforeUnload.
Proof.
  unfold onBeforeUnload. apply keeps_bind; [|intros []; apply keeps_sync].
  apply keeps_modify. intros r Hr. unfold prepare_unload. cbv zeta.
  assert (H1 : I (endTemporaryPlaybackSpeed true (clearPlaybackStartTimer r))).
  { eapply HI; [apply m_endTemp|]. unfold clearPlaybackStartTimer. apply (I_frame r); [view_tac|view_tac|told_tac|done]. }
  set (r1 := endTemporaryPlaybackSpeed true _) in *. clearbody r1.
  assert (H2 : I (r1 <| pendingLeaveEvents := [] |>)) by (apply (I_frame r1); [view_tac|view_tac|told_tac|done]).
  set (r2 := r1 <| pendingLeaveEvents := [] |>) in *. clearbody r2.
  destruct (isTemporary r2); [done|].
  apply (I_frame (pausePlaybackClock r2)); [view_tac|view_tac|told_tac|].
  eapply HI; [apply m_pauseClock|done].
Qed.
End Handlers.

Section AnyJoin.
Context `{E : Env} {LL : LodashLaws env_lodash} (I : Room -> Prop) (HI : Stable I).

Lemma keeps_processRequest req ctx : keeps I (processRequest req ctx).
Proof. apply (keeps_processRequest_for _ HI), request_adds_all. Qed.

Lemma perform_keeps s r : I r -> I (perform s r).
Proof. apply (perform_keeps_for _ HI), step_adds_all. Qed.
End AnyJoin.

(** An invariant stable in every environment holds in every reachable state. *)
Lemma stable_reachable (I : Room -> Prop) (r0 r : Room) :
  (forall E : Env, LodashLaws (@env_lodash E) -> Stable I) -> I r0 -> reachable r0 r -> I r.
Proof.
  intros HS H0. apply reachable_ind_inv; [done|]. intros E s x LL Hx.
  exact (perform_keeps I (HS E LL) s x Hx).
Qed.

(** ** The playback invariant is stable *)

Section PlaybackStable.
Context `{E : Env} (b : bool).
Implicit Types (r : Room).

Lemma pb_begin c g r : isPlaying r = true -> pb_inv b r -> pb_inv b (begin_temporary_speed c g r).
Proof.
  intros Hpl Hi. pose proof (pb_no_prep b r Hi Hpl) as Hn. destruct Hi as [Ht Hg Hp Hc].
  unfold begin_temporary_speed, renewTemporaryPlaybackSpeed.
  split; rsimpl; rewrite ?Hpl, ?Hn; try done; [|by intros Hb; destruct (Hc Hb)].
  intros g0 HG. destruct (Hg g0 HG). congruence.
Qed.

Lemma same_video_relabel p v x : same_video p (Some (v <| qi_startAt := x |>)) = same_video p (Some v).
Proof. done. Qed.

Lemma pb_relabel v x r : currentSource r = Some v -> pb_inv b r ->
  pb_inv b (replace_current (v <| qi_startAt := x |>) r).
Proof.
  intros Hv [Ht Hg Hp Hc]. unfold replace_current. split; rsimpl; try done.
  intros p Hpp. rewrite same_video_relabel, <- Hv. by apply Hp.
Qed.

Lemma pb_replace v q r : pb_inv b r -> pb_inv b (start_clock (set_playbackPosition q (set_currentSource v r))).
Proof. intros Hi. exact (proj1 (pb_after_source b q v id r Hi (fun _ => eq_refl))). Qed.

Lemma pb_resume x role r : pb_inv b r -> pb_inv b (resume_for_join x role r).
Proof.
  intros Hi. unfold resume_for_join. destruct (_ && _) eqn:Hc; [|by apply pb_prepareEmpty].
  rewrite !andb_true_iff in Hc. destruct Hc as ((((_ & Hr) & _) & _) & _). cbv zeta. apply pb_dirty.
  (* the resume flag is dropped before play cancels the round; play only needs what is left *)
  assert (Hg : bufferGate r = None) by (apply (pb_no_gate b); auto).
  unfold play. rsimpl. rewrite Hg. cbv beta iota.
  match goal with |- context [cancelPlaybackPreparation ?x] => set (r0 := x) end.
  assert (H0 : isPlaying r0 = isPlaying r /\ bufferGate r0 = None /\ temporarySpeed r0 = temporarySpeed r /\
    restoredFromStorage r0 = restoredFromStorage r /\ playbackStart r0 = playbackStart r)
    by (subst r0; rsimpl; auto).
  clearbody r0. destruct H0 as (G1 & G2 & G3 & G4 & G5).
  destruct (cancel_frame r0) as (H1 & H2 & H3 & H4 & H5 & H6 & H7 & H8 & H9 & H10).
  destruct Hi as [Ht _ _ Hcl]. rsimpl. destruct (isPlaying (cancelPlaybackPreparation r0)) eqn:Hpl.
  - split; rsimpl; rewrite ?H1, ?H4, ?G2; try done. intros Hb. split; [done|].
    intros _. rewrite H8, G5. apply (Hcl Hb). congruence.
  - unfold set_isPlaying. split; rsimpl; rewrite ?H1, ?H4, ?G2; try done.
Qed.

Lemma pb_settle r : pb_inv b r -> pb_inv b (settle_empty_room r).
Proof.
  intros Hi. unfold settle_empty_room. cbv zeta.
  pose proof (pb_release b false r Hi) as Hi1. pose proof (release_gate false r) as Hg1.
  set (r1 := releaseBufferGate false r) in *. clearbody r1.
  destruct (pauseClock_frame r1) as (K1 & K2 & K3 & K4 & K5 & K6 & K7).
  set (r2 := pausePlaybackClock r1) in *. clearbody r2.
  destruct (cancel_frame r2) as (H1 & H2 & H3 & H4 & H5 & H6 & H7 & H8 & H9 & H10).
  split; rsimpl; rewrite ?H1, ?H3, ?H4, ?H5, ?H9, ?K1, ?K2, ?K6, ?K7, ?Hg1; try done.
  intros Hb. split; [by apply (inv_clock b r1 Hi1)|done].
Qed.

Lemma pb_rebuild c r : pb_inv b r -> pb_inv b (rebuild_round c r).
Proof.
  intros Hi. unfold rebuild_round. destruct (playbackPreparation r) as [p|] eqn:Hp; [|done].
  destruct (decide _); [|done]. cbv zeta. apply pb_prepareEmpty, pb_dirty.
  destruct (inv_prep b r Hi p Hp) as (Hpl & Hr & _).
  assert (Hg : bufferGate r = None) by (apply (pb_no_gate b); auto).
  destruct (cancel_frame r) as (H1 & H2 & H3 & H4 & H5 & H6 & H7 & H8 & H9 & H10).
  destruct Hi as [Ht _ _ Hc]. split; rsimpl; rewrite ?H1, ?H3, ?H4, ?H5, ?H8, ?H9, ?Hg; done.
Qed.

Lemma pb_tick_preparation r : pb_inv b r -> pb_inv b (tick_preparation r).
Proof.
  intros Hi. unfold tick_preparation. destruct (playbackPreparation r) as [p0|]; [|done].
  pose proof (pb_refresh b r Hi) as H1. set (r1 := refreshPlaybackPreparation r) in *. clearbody r1.
  assert (H2 : pb_inv b (tick_deadlines r1)).
  { unfold tick_deadlines. destruct (playbackPreparation r1) as [p|] eqn:Hp; [|done].
    destruct (prep_startAt p); [done|].
    destruct (allEligibleReady r1 p); [by apply pb_schedule|]. destruct (_ <=? _); [|done].
    destruct (_ <? _)%nat; [by apply pb_schedule|]. destruct (_ <=? _); [by apply pb_schedule|].
    destruct (decide _); [done|]. apply pb_dirty. by apply (pb_set_prep b p). }
  set (r2 := tick_deadlines r1) in *. clearbody r2. unfold tick_due_start.
  destruct (playbackPreparation r2 ≫= prep_startAt); [|done].
  destruct (_ <=? _); [by apply pb_startPrepared|done].
Qed.

Ltac pb_view_tac := unfold syncUser, publish, markDirty; cbv zeta; repeat view_step pb_view.

Lemma view_event req ctx add u r : pb_view (publishRoomEvent req ctx add u r) = pb_view r.
Proof. unfold publishRoomEvent, record_event. pb_view_tac. Qed.

Lemma view_set_role uid role r : pb_view (set_role uid role r) = pb_view r.
Proof. unfold set_role. pb_view_tac. Qed.

Lemma pb_pauseClock_any r : pb_inv b r -> pb_inv b (pausePlaybackClock r).
Proof.
  intros Hi. destruct (isPlaying r) eqn:Hpl.
  - apply pb_pauseClock; [by eapply pb_no_prep|by right| |].
    + intros g Hg. by destruct (inv_gate b _ Hi g Hg) as (_ & ? & ?).
    + intros Hb. by apply (inv_clock b _ Hi).
  - unfold pausePlaybackClock. destruct (endTemp_frame true r) as (G1 & _). rewrite G1, Hpl.
    by apply pb_endTemp.
Qed.

Lemma pb_stable : Stable (pb_inv b).
Proof.
  intros r r' Hm Hi. destruct Hm.
  - by apply (pb_inv_view b r).
  - apply (pb_inv_view b r); [apply sync_views|done].
  - by apply pb_play.
  - by apply pb_pause.
  - by apply pb_pauseClock_any.
  - by apply pb_endTemp.
  - by apply pb_flush.
  - by apply pb_begin.
  - by apply pb_seekRaw.
  - by apply pb_release.
  - by apply pb_evaluate.
  - by apply pb_dequeueNext.
  - by apply pb_relabel.
  - by apply pb_set_currentSource.
  - by apply pb_replace.
  - by apply pb_put_on.
  - by apply pb_holdEmpty.
  - by apply pb_resume.
  - by apply pb_settle.
  - by apply pb_rebuild.
  - by apply pb_finish.
  - by apply pb_startPrepared.
  - by apply pb_tick_preparation.
  - by apply pb_queue_op.
  - apply (pb_inv_view b r); [apply view_event|done].
  - apply (pb_inv_view b r); [|done]. unfold consume_event. pb_view_tac.
  - apply (pb_inv_view b r); [|done]. unfold insert_note. pb_view_tac.
  - apply (pb_inv_view b r); [|done]. unfold destroy_note. pb_view_tac.
  - apply (pb_inv_view b r); [apply view_set_role|done].
  - by apply (pb_inv_view b r).
  - by apply (pb_inv_view b r).
  - by apply (pb_inv_view b r).
Qed.
End PlaybackStable.

(** ** The bounds are stable *)

(** The room's logs: the queue's cap, the ring of recent events, the notes, the roles. *)
Record logs_inv (r : Room) : Prop := {
  inv_queue : (length (items (queue r)) <= MAX_QUEUE_ITEMS)%nat;
  inv_events : (length (recentEvents r) <= RECENT_EVENTS_LIMIT)%nat;
  inv_refs : NoDup (map ev_ref (recentEvents r)) /\
             Forall (fun e => ev_ref e < nextEventRef r) (recentEvents r);
  inv_notes : NoDup (map note_id (db_notes r)) /\
              Forall (fun n => note_id n < db_nextNoteId r) (db_notes r);
  inv_roles : forall uid role role' s s', TrustedUser <= role <= Administrator ->
              TrustedUser <= role' <= Administrator ->
              map_get role (userRoles r) = Some s -> map_get role' (userRoles r) = Some s' ->
              uid ∈ s -> uid ∈ s' -> role = role';
}.

Lemma logs_view r r' : aux_view r' = aux_view r -> logs_inv r -> logs_inv r'.
Proof.
  unfold aux_view. intros Hv []. injection Hv as H1 H2 H3 H4 H5 H6 _ _ _.
  split; rewrite ?H1, ?H2, ?H3, ?H4, ?H5, ?H6; done.
Qed.

Section LogsStable.
Context `{E : Env} {LL : LodashLaws env_lodash}.
Implicit Types (r : Room).

Lemma items_queue_op {A} (m : M VideoQueue exn A) r :
  items (queue (queue_op m r).2) = items (m (VideoQueue.clean (queue r))).2.
Proof.
  unfold queue_op. destruct (m _) as [res q]. destruct (q_dirty q); cbn [snd]; rsimpl; done.
Qed.

Lemma aux_queue_op {A} (m : M VideoQueue exn A) r :
  aux_view (queue_op m r).2 =
    (items (m (VideoQueue.clean (queue r))).2, recentEvents r, nextEventRef r, db_notes r, db_nextNoteId r, userRoles r,
     name r, isTemporary r, member_ids r).
Proof.
  unfold queue_op. destruct (m _) as [res q]. destruct (q_dirty q); cbn [snd]; unfold aux_view; rsimpl; done.
Qed.

Definition mode_view r := (currentSource r, queueMode r).

Lemma mode_cancel r : mode_view (cancelPlaybackPreparation r) = mode_view r.
Proof. unfold cancelPlaybackPreparation, clearPlaybackStartTimer, markDirty. cbv zeta. repeat view_step mode_view. Qed.

Lemma mode_release t r : mode_view (releaseBufferGate t r) = mode_view r.
Proof.
  unfold releaseBufferGate, play, set_isPlaying, markDirty. cbv zeta.
  repeat first [rewrite mode_cancel | view_step mode_view].
Qed.

(** What [dequeueNext] does to the queue, and to nothing else in the logs. *)
Lemma aux_dequeueNext r :
  let old := items (queue r) in
  let rotated := match currentSource r, queueMode r with
                 | Some v, Loop => old ++ [clearQueueItemTrim v]
                 | _, _ => old
                 end in
  aux_view (dequeueNext r) =
    (match currentSource r, queueMode r with Some _, Dj => old | _, _ => tail rotated end,
     recentEvents r, nextEventRef r, db_notes r, db_nextNoteId r, userRoles r, name r, isTemporary r,
     member_ids r).
Proof.
  cbv zeta. unfold dequeueNext. cbv zeta.
  pose proof (aux_release false r) as Ha. pose proof (mode_release false r) as Hm.
  set (r1 := releaseBufferGate false r) in *. clearbody r1.
  match goal with |- context [match currentSource ?x with Some _ => _ | None => _ end] => set (r2 := x) end.
  assert (H2 : aux_view r2 = aux_view r /\ mode_view r2 = mode_view r).
  { subst r2. rewrite <- Ha, <- Hm. split; [aux_tac|cbv zeta; unfold markDirty; repeat view_step mode_view]. }
  clearbody r2. clear Ha Hm r1. destruct H2 as [Ha Hm].
  unfold mode_view in Hm. injection Hm as Hs Hq. rewrite <- Hs, <- Hq.
  assert (Hend : forall x, aux_view (dequeue_epilogue
      match items (queue x) with [] => clear_source x | _ => dequeue_into_source x end) =
      (tail (items (queue x)), recentEvents x, nextEventRef x, db_notes x, db_nextNoteId x, userRoles x,
       name x, isTemporary x, member_ids x)).
  { intros x. rewrite aux_epilogue. destruct (items (queue x)) as [|i l] eqn:Hi.
    - rewrite aux_clear_source. unfold aux_view. by rewrite Hi.
    - unfold dequeue_into_source, queue_do. aux_tac; rewrite aux_queue_op; simpl; by rewrite Hi. }
  assert (Hfields : items (queue r2) = items (queue r) /\ recentEvents r2 = recentEvents r /\
    nextEventRef r2 = nextEventRef r /\ db_notes r2 = db_notes r /\ db_nextNoteId r2 = db_nextNoteId r /\
    userRoles r2 = userRoles r /\ name r2 = name r /\ isTemporary r2 = isTemporary r /\ member_ids r2 = member_ids r) by (unfold aux_view in Ha; by injection Ha).
  destruct Hfields as (F1 & F2 & F3 & F4 & F5 & F6 & F7 & F8 & F9).
  destruct (currentSource r2) as [v|] eqn:Hv, (queueMode r2) eqn:Hq2; cbv beta iota;
    rewrite ?Hend, ?aux_restart, ?Ha, ?F1, ?F2, ?F3, ?F4, ?F5, ?F6, ?F7, ?F8, ?F9; try reflexivity.
  unfold queue_do.
  pose proof (aux_queue_op (VideoQueue.enqueueOverflow [Some (clearQueueItemTrim v)]) r2) as Hx.
  set (r3 := (queue_op _ r2).2) in *. clearbody r3. unfold aux_view in Hx.
  injection Hx as -> -> -> -> -> -> -> -> ->. by rewrite F2, F3, F4, F5, F6, F7, F8, F9, <- F1.
Qed.

(** What [set_role] leaves in each role's set. *)
Definition ranked (role : Role) : bool := (TrustedUser <=? role) && (role <=? Administrator).

Lemma set_role_get uid role r k :
  map_get k (userRoles (set_role uid role r)) =
    (fun s : gset Z =>
       let s := if ranked k then s ∖ {[uid]} else s in
       if decide (k = role) then if TrustedUser <=? role then {[uid]} ∪ s else s else s)
    <$> map_get k (userRoles r).
Proof.
  set (strip := fun kv : Z * gset Z => if (TrustedUser <=? kv.1) && (kv.1 <=? Administrator)
                                       then (kv.1, kv.2 ∖ {[uid]}) else kv).
  assert (Hstrip : forall m k, map_get k (map strip m) =
            (fun s : gset Z => if ranked k then s ∖ {[uid]} else s) <$> map_get k m).
  { induction m as [|[k0 s0] m IH]; intros k1; [done|]. cbn [map].
    assert (Hs : strip (k0, s0) = (k0, if ranked k0 then s0 ∖ {[uid]} else s0))
      by (unfold strip, ranked; simpl; by destruct (_ && _)).
    rewrite Hs. cbn [map_get]. destruct (decide (k1 = k0)) as [->|]; [done|]. by rewrite IH. }
  unfold set_role. cbv zeta. fold strip.
  assert (H0 : userRoles (r <| userRoles ::= map strip |>) = map strip (userRoles r)) by (rsimpl; done).
  set (r0 := r <| userRoles ::= map strip |>) in *. clearbody r0. rewrite H0, Hstrip.
  destruct (map_get role (userRoles r)) as [s|] eqn:Hg; cbn [fmap option_fmap option_map]; cycle 1.
  - rewrite H0, Hstrip. destruct (decide (k = role)) as [->|]; [|done]. by rewrite Hg.
  - destruct (TrustedUser <=? role) eqn:Hr; rsimpl; rewrite ?H0; [rewrite map_get_set|];
      rewrite ?Hstrip; destruct (decide (k = role)) as [->|]; rewrite ?Hg; done.
Qed.

Lemma set_role_frame uid role r :
  items (queue (set_role uid role r)) = items (queue r) /\
  recentEvents (set_role uid role r) = recentEvents r /\
  nextEventRef (set_role uid role r) = nextEventRef r /\
  db_notes (set_role uid role r) = db_notes r /\ db_nextNoteId (set_role uid role r) = db_nextNoteId r.
Proof.
  unfold set_role. cbv zeta. destruct (map_get role _); [destruct (_ <=? _)|]; rsimpl; auto.
Qed.

Lemma NoDup_snoc {A} (l : list A) x : NoDup l -> x ∉ l -> NoDup (l ++ [x]).
Proof.
  intros Hl Hx. apply NoDup_app. split; [done|]. split; [|apply NoDup_singleton].
  intros y Hy Hy'%list_elem_of_singleton. by subst.
Qed.

Lemma Forall_lt_succ {A} (f : A -> Z) n l :
  Forall (fun x => f x < n) l -> Forall (fun x => f x < Z.succ n) l.
Proof. intros H. eapply Forall_impl; [exact H|]. simpl. lia. Qed.

Lemma lt_not_in {A} (f : A -> Z) n l : Forall (fun x => f x < n) l -> n ∉ map f l.
Proof.
  rewrite Forall_forall. intros H Hin. apply list_elem_of_fmap in Hin as (x & -> & Hx).
  specialize (H x Hx). lia.
Qed.

(** Dropping the oldest entries keeps a list's properties. *)
Lemma map_tail {A B} (f : A -> B) l : map f (tail l) = tail (map f l).
Proof. by destruct l. Qed.

Lemma NoDup_tail {A} (l : list A) : NoDup l -> NoDup (tail l).
Proof. destruct l; [done|]. by intros [_ ?]%NoDup_cons. Qed.

Lemma length_tail' {A} (l : list A) : length (tail l) = (length l - 1)%nat.
Proof. destruct l; simpl; lia. Qed.

Lemma Forall_tail {A} (P : A -> Prop) l : Forall P l -> Forall P (tail l).
Proof. destruct l; [done|]. by intros [_ ?]%Forall_cons. Qed.

Lemma NoDup_map_filter {A B} (f : A -> B) (p : A -> bool) l :
  NoDup (map f l) -> NoDup (map f (List.filter p l)).
Proof.
  induction l as [|x l IH]; [done|]. cbn [map List.filter]. intros [Hx Hl]%NoDup_cons.
  destruct (p x); [|auto]. cbn [map]. apply NoDup_cons. split; [|auto].
  intros Hin. apply Hx. apply list_elem_of_fmap in Hin as (y & -> & Hy). apply list_elem_of_fmap.
  exists y. split; [done|]. apply list_elem_of_In in Hy. apply filter_In in Hy as [Hy _].
  by apply list_elem_of_In.
Qed.

Lemma Forall_list_filter {A} (P : A -> Prop) (p : A -> bool) l : Forall P l -> Forall P (List.filter p l).
Proof. induction 1; simpl; [done|]. destruct (p x); auto. Qed.

Lemma logs_record ev r : ev_ref ev = nextEventRef r -> logs_inv r -> logs_inv (record_event ev r).
Proof.
  intros Hev [Hq He [Hn Hf] Hno Hro]. unfold record_event. cbv zeta.
  assert (Hn' : NoDup (map ev_ref (recentEvents r ++ [ev]))).
  { rewrite map_app. simpl. apply NoDup_snoc; [done|]. rewrite Hev. by apply lt_not_in. }
  assert (Hf' : Forall (fun e => ev_ref e < Z.succ (nextEventRef r)) (recentEvents r ++ [ev])).
  { apply Forall_app. split; [by apply Forall_lt_succ|]. apply Forall_singleton. lia. }
  split; rsimpl; try done.
  - destruct (_ <? _)%nat eqn:Hc; [|apply Nat.ltb_ge in Hc; lia].
    rewrite length_tail', length_app. simpl. lia.
  - destruct (_ <? _)%nat; [|done]. rewrite map_tail. split; [by apply NoDup_tail|by apply Forall_tail].
Qed.

Lemma logs_event req ctx add u r : logs_inv r -> logs_inv (publishRoomEvent req ctx add u r).
Proof.
  intros Hr. unfold publishRoomEvent. destruct (ctx_clientId ctx); [|done].
  destruct (match u with Some _ => _ | None => _ end); [|done]. cbv zeta.
  apply (logs_view (record_event (MkEvent (nextEventRef r) req r0 add (env_carried req add)) r)); [|by apply logs_record].
  unfold publish. aux_tac.
Qed.

Lemma logs_notes a t r : logs_inv r -> logs_inv (insert_note a t r).
Proof.
  intros [Hq He Hev (Hn2 & Hn3) Hro]. unfold insert_note. split; rsimpl; try done.
  split_and!.
  - rewrite map_app. simpl. apply NoDup_snoc; [done|]. by apply lt_not_in.
  - apply Forall_app. split; [by apply Forall_lt_succ|]. apply Forall_singleton. simpl. lia.
Qed.

Lemma logs_set_role uid role r : logs_inv r -> logs_inv (set_role uid role r).
Proof.
  intros [Hq He Hev Hno Hro]. destruct (set_role_frame uid role r) as (F1 & F2 & F3 & F4 & F5).
  split; rewrite ?F1, ?F2, ?F3, ?F4, ?F5; try done.
  intros u k k' s s' Hk Hk'. rewrite !set_role_get.
  assert (Hrk : forall k, TrustedUser <= k <= Administrator -> ranked k = true).
  { intros k0 ?. unfold ranked. rewrite andb_true_iff, !Z.leb_le. lia. }
  intros (s0 & Hs0 & ->)%fmap_Some (s0' & Hs0' & ->)%fmap_Some. cbv zeta. rewrite !Hrk by done.
  intros Hu Hu'. destruct (decide (k = k')) as [|Hne]; [done|].
  assert (Hsub : u ∈ s0 -> u ∈ s0' -> k = k') by (intros; by eapply Hro).
  destruct (decide (k = role)), (decide (k' = role)); destruct (TrustedUser <=? role); set_solver.
Qed.

(** Who is in the room is no part of the logs. *)
Lemma logs_users f r : logs_inv r -> logs_inv (r <| realusers ::= f |>).
Proof. by intros [Hq He Hev Hno Hro]. Qed.

Lemma logs_stable : Stable logs_inv.
Proof.
  intros r r' Hm Hi. destruct Hm;
    try (apply (logs_view r); [|exact Hi]; unfold replace_current, start_clock; aux_tac; fail).
  - by apply (logs_view r).
  - apply (logs_view r); [apply sync_views|done].
  - pose proof (aux_dequeueNext r) as Hx. cbv zeta in Hx. unfold aux_view in Hx.
    injection Hx as H1 H2 H3 H4 H5 H6 _ _ _. destruct Hi as [Hq He Hev Hno Hro].
    split; rewrite ?H1, ?H2, ?H3, ?H4, ?H5, ?H6; try done.
    destruct (currentSource r), (queueMode r); rewrite ?length_tail', ?length_app; simpl; lia.
  - pose proof (aux_queue_op m r) as Hx. unfold aux_view in Hx.
    injection Hx as H1 H2 H3 H4 H5 H6 _ _ _. destruct Hi as [Hq He Hev Hno Hro].
    split; rewrite ?H1, ?H2, ?H3, ?H4, ?H5, ?H6; try done. apply H. exact Hq.
  - by apply logs_event.
  - destruct Hi as [Hq He [Hn Hf] Hno Hro]. unfold consume_event. split; rsimpl; try done.
    + etransitivity; [apply filter_length_le|done].
    + split; [by apply NoDup_map_filter|by apply Forall_list_filter].
  - by apply logs_notes.
  - destruct Hi as [Hq He Hev (Hn2 & Hn3) Hro]. unfold destroy_note. split; rsimpl; try done.
    split; [by apply NoDup_map_filter|by apply Forall_list_filter].
  - by apply logs_set_role.
  - by apply logs_users.
  - by apply logs_users.
  - by apply logs_users.
Qed.
End LogsStable.

(** ** A room keeps its name *)

Section IdentityStable.
Context `{E : Env} {LL : LodashLaws env_lodash}.
Implicit Types (r : Room).

(** What a room is called, and whether it is temporary. *)
Definition identity r := (name r, isTemporary r).

Lemma identity_view r r' : aux_view r' = aux_view r -> identity r' = identity r.
Proof. unfold aux_view, identity. intros Hv. by injection Hv as _ _ _ _ _ _ -> -> _. Qed.

Lemma identity_queue_op {A} (m : M VideoQueue exn A) r : identity (queue_op m r).2 = identity r.
Proof.
  pose proof (aux_queue_op m r) as Hx. unfold aux_view in Hx. injection Hx as _ _ _ _ _ _ H1 H2 _.
  unfold identity. by rewrite H1, H2.
Qed.

Lemma identity_record ev r : identity (record_event ev r) = identity r.
Proof. done. Qed.

Lemma identity_event req ctx add u r : identity (publishRoomEvent req ctx add u r) = identity r.
Proof.
  unfold publishRoomEvent. destruct (ctx_clientId ctx); [|done].
  destruct (match u with Some _ => _ | None => _ end); [|done]. cbv zeta.
  match goal with |- identity (publish ?e (record_event ?ev r)) = _ =>
    transitivity (identity (record_event ev r)); [|apply identity_record];
    apply identity_view, aux_publish end.
Qed.

Lemma identity_set_role uid role r : identity (set_role uid role r) = identity r.
Proof. unfold set_role, identity. cbv zeta. destruct (map_get role _); [destruct (_ <=? _)|]; rsimpl; done. Qed.

Lemma identity_stable id : Stable (fun r => identity r = id).
Proof.
  intros r r' Hm Hi. rewrite <- Hi. destruct Hm;
    try (apply identity_view; unfold replace_current, start_clock; aux_tac; fail).
  - by apply identity_view.
  - apply identity_view, sync_views.
  - pose proof (aux_dequeueNext r) as Hx. cbv zeta in Hx. unfold aux_view in Hx.
    injection Hx as _ _ _ _ _ _ H1 H2 _. unfold identity. by rewrite H1, H2.
  - apply identity_queue_op.
  - apply identity_event.
  - done.
  - done.
  - done.
  - apply identity_set_role.
  - done.
  - done.
  - done.
Qed.
End IdentityStable.
