(* ===== verification/RoomMembers.v ===== *)
(** * RoomMembers: who is in a room

    Nobody enters a room but by a join request, and a leave request takes its client out. *)

From S2P Require Import Prelude Types Permissions VideoQueue RoomModel RoomPlayback RoomRequests.
From S2P Require Import RoomLifecycle RoomInvariants RoomSync RoomReach.

(** No client may be added. *)
Definition nobody (a : addition) : Prop := match a with AClient _ => False | ANote => True end.

(** The requests that add no member. *)
Definition is_join (req : RoomRequest) : bool := match req with JoinRequest _ _ => true | _ => false end.

Section Members.
Context `{E : Env} {LL : LodashLaws env_lodash}.
Implicit Types (r : Room).

Definition members_within (l : list ClientId) r : Prop := member_ids r `sublist_of` l.

Lemma members_view r r' : aux_view r' = aux_view r -> member_ids r' = member_ids r.
Proof. unfold aux_view. intros Hv. by injection Hv. Qed.

Lemma members_queue_op {A} (m : M VideoQueue exn A) r : member_ids (queue_op m r).2 = member_ids r.
Proof. pose proof (aux_queue_op m r) as Hx. unfold aux_view in Hx. by injection Hx. Qed.

Lemma members_event req ctx add u r : member_ids (publishRoomEvent req ctx add u r) = member_ids r.
Proof.
  unfold publishRoomEvent. destruct (ctx_clientId ctx); [|done].
  destruct (match u with Some _ => _ | None => _ end); [|done]. cbv zeta.
  match goal with |- member_ids (publish ?e ?x) = _ =>
    transitivity (member_ids x); [apply members_view, aux_publish|done] end.
Qed.

Lemma members_set_role uid role r : member_ids (set_role uid role r) = member_ids r.
Proof. unfold set_role, member_ids. cbv zeta. destruct (map_get role _); [destruct (_ <=? _)|]; rsimpl; done. Qed.

Lemma members_set_user c u r : ru_id u = c -> member_ids (set_user c u r) = member_ids r.
Proof.
  intros Hu. unfold set_user, member_ids. rsimpl. destruct (List.find _ _); [|done].
  induction (realusers r) as [|x l IH]; [done|]. cbn. destruct (decide (ru_id x = c)); cbn; [congruence|by rewrite IH].
Qed.

Lemma sublist_remove_first (p : RoomUser -> bool) (l : list RoomUser) :
  map ru_id (remove_first p l) `sublist_of` map ru_id l.
Proof.
  induction l as [|u l IH]; [done|]. cbn. destruct (p u); [by apply sublist_cons|by apply sublist_skip].
Qed.

Lemma members_stable l : StableFor nobody (members_within l).
Proof.
  intros r r' Hm Hi. unfold members_within in *.
  enough (H : member_ids r' `sublist_of` member_ids r) by by etransitivity. clear Hi.
  assert (Heq : member_ids r' = member_ids r -> member_ids r' `sublist_of` member_ids r) by by intros ->.
  destruct Hm; try (apply Heq, members_view; unfold replace_current, start_clock; aux_tac; fail);
    try (apply Heq; done).
  - by apply Heq, members_view.
  - apply Heq, members_view, sync_views.
  - apply Heq. pose proof (aux_dequeueNext r) as Hx. cbv zeta in Hx. unfold aux_view in Hx. by injection Hx.
  - apply Heq, members_queue_op.
  - apply Heq, members_event.
  - apply Heq, members_set_role.
  - apply sublist_remove_first.
  - by apply Heq, members_set_user.
Qed.

(** Nobody enters by another request, a tick, a timer or an unloading. *)
Lemma members_request req ctx r :
  is_join req = false -> member_ids (processRequest req ctx r).2 `sublist_of` member_ids r.
Proof.
  intros Hj. refine (keeps_processRequest_for _ (members_stable (member_ids r)) req ctx _ r _).
  - by destruct req.
  - by unfold members_within.
Qed.

Lemma members_unauthorized req token c r :
  is_join req = false -> member_ids (processUnauthorizedRequest req token c r).2 `sublist_of` member_ids r.
Proof.
  intros Hj. unfold processUnauthorizedRequest. rewrite bind_get. cbv zeta. unfold bind at 1.
  match goal with |- context [deriveRequestContext token ?x r] => set (c' := x) end.
  assert (Hd : (deriveRequestContext token c' r).2 = r).
  { unfold deriveRequestContext. rewrite bind_get. destruct (_ ≫= _); [done|].
    unfold bind, lift_res. destruct (env_getSessionInfo token) as [|se]; [done|].
    by destruct (session_username se). }
  destruct (deriveRequestContext token c' r) as [[e|ctx] r']; cbn [snd] in *; subst r'; [done|].
  by apply members_request.
Qed.

Lemma members_step s r :
  match s with StepRequest req _ => is_join req = false | _ => True end ->
  member_ids (perform s r) `sublist_of` member_ids r.
Proof.
  intros Hj. refine (perform_keeps_for _ (members_stable (member_ids r)) s r _ _).
  - destruct s; [by destruct request|done..].
  - by unfold members_within.
Qed.

Lemma members_update r : member_ids (update r) `sublist_of` member_ids r.
Proof. exact (members_step StepUpdate r I). Qed.
Lemma members_sync r : member_ids (sync r).2 `sublist_of` member_ids r.
Proof. exact (members_step StepSync r I). Qed.
Lemma members_unload r : member_ids (onBeforeUnload r).2 `sublist_of` member_ids r.
Proof.
  refine (keeps_unload _ (members_stable (member_ids r)) r _). by unfold members_within.
Qed.
Lemma members_holdEmpty x r : member_ids (holdEmptyPlaybackForJoin x r) = member_ids r.
Proof. apply members_view, aux_holdEmpty. Qed.

(** ** Joining *)

(** A handler that starts within [I] and, from one modification on, is within [J]. *)
Lemma keeps_from {A B} (I J : Room -> Prop) (m : RM A) (k : A -> RM B) r :
  (forall r, I r -> J r) -> I r -> I (m r).2 -> (forall a r', m r = (inr a, r') -> J (k a r').2) ->
  J (bind m k r).2.
Proof.
  intros Hij Hr Hm Hk. unfold bind. destruct (m r) as [[e|a] r'] eqn:Hmr; [by apply Hij|by apply Hk].
Qed.

Lemma members_join info rc ctx r :
  member_ids (joinRoom info rc ctx r).2 `sublist_of` member_ids r ++ [ci_id info].
Proof.
  unfold joinRoom. destruct (truthy_string (ctx_token ctx)) as [t|]; [|by apply sublist_inserts_r].
  rewrite bind_modify. set (r1 := holdEmptyPlaybackForJoin rc r).
  assert (H1 : member_ids r1 = member_ids r) by apply members_holdEmpty. clearbody r1. rewrite <- H1. clear H1 r.
  match goal with |- context [updateInfo info ?u] => pose proof (updateInfo_id info u) as Hid end.
  cbn [ru_id] in Hid. destruct (updateInfo info _) as [[e|x] u]; [by apply sublist_inserts_r|]. cbn [snd] in Hid.
  rewrite (bind_run _ _ r1 u r1) by done. rewrite bind_modify.
  set (r2 := r1 <| realusers ::= fun l => l ++ [u] |>).
  assert (H2 : member_ids r2 = member_ids r1 ++ [ci_id info]).
  { unfold member_ids, r2. rsimpl. rewrite map_app. cbn. by rewrite Hid. }
  clearbody r2. rewrite <- H2. clear H2 r1 Hid u x.
  assert (Hk : keeps (E := exn) (members_within (member_ids r2))
    (modify (resume_for_join rc (ctx_role ctx)) ;;; modify (announce_join info rc ctx t) ;;;
     joined <- need_info (ci_id info) ;; modify (syncUser joined))).
  { pose proof (members_stable (member_ids r2)) as HI. apply keeps_bind; [|intros _].
    { apply (keeps_method _ HI). intros r. apply m_resume. }
    apply keeps_bind; [by apply (keeps_announce _ HI)|intros _].
    apply keeps_bind; [by apply keeps_need_info|intros ?].
    apply (keeps_frame _ HI); intros r; [reflexivity..|told_tac]. }
  apply Hk. by unfold members_within.
Qed.

Lemma members_join_request info rc ctx r :
  member_ids (processRequest (JoinRequest info rc) ctx r).2 `sublist_of` member_ids r ++ [ci_id info].
Proof. exact (members_join info rc ctx r). Qed.

(** ** Leaving *)

Lemma remove_first_gone c (l : list RoomUser) :
  NoDup (map ru_id l) -> c ∉ map ru_id (remove_first (fun u => bool_decide (ru_id u = c)) l).
Proof.
  induction l as [|u l IH]; cbn; intros Hnd; [by intros ?%not_elem_of_nil|].
  apply NoDup_cons in Hnd as [Hu Hnd]. case_bool_decide as Hc; [by subst|].
  cbn. intros [->|Hin]%elem_of_cons; [done|]. by apply IH.
Qed.

Lemma member_iff r c : c ∈ member_ids r <-> is_Some (getUser r c).
Proof.
  unfold member_ids, getUser. split.
  - intros (u & -> & Hin)%list_elem_of_fmap. apply list_elem_of_In in Hin.
    destruct (List.find _ _) eqn:Hf; [by eexists|]. pose proof (List.find_none _ _ Hf u Hin) as H.
    cbn in H. by rewrite bool_decide_eq_false in H.
  - intros [u Hu]. apply find_some in Hu as [Hin Hu]. apply bool_decide_eq_true in Hu. subst c.
    apply list_elem_of_fmap. exists u. split; [done|]. by apply list_elem_of_In.
Qed.

Lemma need_info_member r c : c ∈ member_ids r -> exists info, need_info c r = (inr info, r).
Proof.
  intros [u Hu]%member_iff. unfold need_info. rewrite bind_get. unfold getUserInfo. rewrite Hu. by eexists.
Qed.

Lemma members_leave_event ctx info t r : member_ids (publishLeaveEvent ctx info t r) = member_ids r.
Proof.
  unfold publishLeaveEvent. destruct (truthy_string t); [|apply members_event].
  by destruct (sessionInRoom _ _ _).
Qed.

Lemma members_drop_votes c r : member_ids (RoomRequests.drop_votes c r) = member_ids r.
Proof. unfold RoomRequests.drop_votes, markDirty. cbv zeta. repeat case_match; done. Qed.

(** A leave request of a member takes it out, whatever else fails. *)
Lemma members_leave c r :
  NoDup (member_ids r) -> c ∈ member_ids r ->
  c ∉ member_ids (processRequestUnsafe LeaveRequest c r).2 /\
  member_ids (processRequestUnsafe LeaveRequest c r).2 `sublist_of` member_ids r.
Proof.
  intros Hnd Hc. destruct (need_info_member r c Hc) as [info Hi].
  unfold processRequestUnsafe. rewrite (bind_run _ _ r info r) by done.
  set (ctx := MkContext _ _ (Some c) None).
  change (processRequest LeaveRequest ctx r) with (leaveRoom ctx r). unfold leaveRoom, need_client.
  rewrite (bind_run _ _ r c r) by done. rewrite bind_modify.
  match goal with |- context [bind (need_info c) _ ?x] => set (r1 := x) end.
  assert (H1 : member_ids r1 = member_ids r).
  { subst r1. destruct (temporarySpeed r); [|done]. destruct (decide _); [|done].
    apply members_view, aux_endTemp. }
  clearbody r1. clear Hi. rewrite <- H1 in Hnd, Hc |- *. clear H1 r.
  destruct (need_info_member r1 c Hc) as [info1 Hi]. rewrite (bind_run _ _ r1 info1 r1) by done.
  rewrite !bind_modify.
  match goal with |- context [remove_user c ?x] => set (r2 := x) end.
  assert (H2 : member_ids r2 = member_ids r1) by (subst r2; by rewrite members_drop_votes, members_leave_event).
  clearbody r2. rewrite <- H2 in Hnd |- *. clear H2 Hc Hi info1 r1. set (r3 := remove_user c r2).
  assert (H3 : c ∉ member_ids r3) by by apply remove_first_gone.
  assert (H4 : member_ids r3 `sublist_of` member_ids r2) by apply sublist_remove_first.
  match goal with |- c ∉ member_ids (?m r3).2 /\ _ => assert (Hk : keeps (E := exn) (members_within (member_ids r3)) m) end.
  { pose proof (members_stable (member_ids r3)) as HI. apply keeps_get_bind. intros r Hr.
    apply keeps_bind_at; [|intros ?; apply (keeps_method _ HI); intros x; apply m_evaluate].
    case_bool_decide.
    - apply keeps_bind_at; [eapply HI; [apply m_settle|done]|]. intros _. by apply (keeps_sync _ HI).
    - by eapply HI; [apply m_rebuild|]. }
  specialize (Hk r3). unfold members_within in Hk. specialize (Hk ltac:(done)).
  split; [|by etransitivity]. intros Hin. apply H3. by eapply elem_of_sublist.
Qed.
End Members.
