(* ===== verification/RoomSamples.v ===== *)
(** * RoomSamples: concrete rooms for the examples

    An environment that answers every lookup, and rooms built and driven in it.  The
    witnesses of the room's theorems are evaluated on these. *)

From S2P Require Import Prelude Types Permissions VideoQueue RoomModel RoomPlayback RoomRequests.
From S2P Require Import RoomLifecycle.

Definition sample_user (n : Z) : User := MkUser n "alice" (Some "a@example.org") (Some "salt") (Some "hash") None.

(** A ten minute file of the [direct] service. *)
Definition sample_video (i : string) : QueueItem :=
  (bare_video "direct" i) <| qi_length := Some (Fin 600) |>.

(** The environment at instant [t]; [storage] says whether the database accepts writes. *)
Definition sample_env_with (storage : bool) (t : Z) : Env := {|
  now := t;
  random_uuid := "round-1";
  env_lodash := reference_lodash;
  env_getUser := fun n => inr (sample_user n);
  env_getSessionInfo := fun _ => inr (SessionGuest "guest");
  env_adapterVideoId := fun _ => inl (Error "unsupported");
  env_getVideoInfo := fun v => inr (Some (sample_video (vid_id v)));
  env_getManyVideoInfo := fun l => inr (map (fun v => Some (sample_video (va_id v))) l);
  env_parseUrl := fun _ => None;
  env_assertPublicMediaUrl := fun _ => true;
  env_fetchSegments := fun _ => FetchFailed;
  env_storageOk := storage;
  env_carried := fun _ _ => true;
  env_storedNotes := [];
  env_nextNoteId := 1;
  conf_unload_after := 240;
  conf_sponsorblock_enabled := true;
|}.
Definition sample_env : Z -> Env := sample_env_with true.

#[export] Instance sample_laws b t : LodashLaws (@env_lodash (sample_env_with b t)) := reference_lodash_laws.

Definition sample_options : RoomOptions := MkOptions
  "room" "Room" "" Public Manual true None None [] 0 false 1 [] None Prompt false GatePause None None
  false Grants.defaultPermissions (Some 1)
  [(TrustedUser, ∅); (Moderator, ∅); (Administrator, ∅)] None.

Definition sample_room : Room := construct_room (E := sample_env 0) sample_options.

(** Drive a room by steps, each with its environment. *)
Definition drive (l : list (Z * RoomStep)) (r : Room) : Room :=
  fold_left (fun r s => perform (H := sample_env s.1) s.2 r) l r.

Lemma drive_reachable l r0 r : reachable r0 r -> reachable r0 (drive l r).
Proof.
  revert r. induction l as [|[t s] l IH]; intros r Hr; [done|]. simpl. apply IH.
  apply reach_step; [apply (sample_laws true t)|done].
Qed.

Definition as_guest (c : ClientId) : RequestContext := MkContext c UnregisteredUser (Some c) (Some ("token-" +:+ c)).
Definition join (c : ClientId) : RoomStep :=
  StepRequest (JoinRequest (MkClientInfo c (Some c) None (Some StatusReady)) false) (as_guest c).
Definition play_now (i c : string) : RoomStep :=
  StepRequest (PlayNowRequest (Typed (MkVideoAdd "direct" i None None None))) (as_guest c).
Definition prepared (c : ClientId) : RoomStep :=
  StepRequest (UpdateUser (MkClientInfo c None None (Some StatusReady))
    (Some (MkPrepared (Typed "round-1") (Fin 0) (Some 10%Q) (Some true) (Some true) false))) (as_guest c).

(** Two guests, a file put on, both ready: the round starts one second later. *)
Definition held_room : Room :=
  drive [(0, join "c1"); (10, join "c2"); (1000, play_now "v1" "c1")] sample_room.
Definition playing_room : Room :=
  drive [(2000, prepared "c1"); (2500, prepared "c2"); (3500, StepStartTimer)] held_room.
