(* ===== verification/RoomSyncTheorems.v ===== *)
(** * RoomSyncTheorems: pages that take the sync messages know the room

    Everything that can happen to a room keeps every page right about what is not dirty. *)

From S2P Require Import Prelude Types Permissions VideoQueue RoomModel RoomPlayback RoomRequests.
From S2P Require Import RoomLifecycle RoomInvariants ClientRoom RoomSync RoomReach RoomSamples.

(** ** Taking in a message *)

(** What a message makes of a store: the properties it has, and for a full one the two that
    are reset when it does not have them. *)
Lemma apply_message_lookup m c p :
  apply_message m c p =
    match map_get p m with
    | Some v => v
    | None => if is_full m then
                match p with
                | PPlaybackPreparation => VPreparation None
                | PBufferGateMode => VGateMode GateOff
                | _ => c p
                end
              else c p
    end.
Proof.
  unfold apply_message, assign, stateupdate. destruct (is_full m); [|done].
  rewrite !map_get_set. destruct (decide (p = PBufferGateMode)) as [->|Hg]; [by destruct (map_get _ m)|].
  destruct (decide (p = PPlaybackPreparation)) as [->|Hp]; [by destruct (map_get _ m)|].
  destruct (map_get p m); [done|]. by destruct p.
Qed.

Lemma is_full_pick position l r : is_full (pick_state position l r) = true -> PName ∈ l.
Proof.
  unfold is_full. rewrite map_get_pick. by case_decide.
Qed.

Section Sync.
Context `{E : Env} {LL : LodashLaws env_lodash}.
Implicit Types (r : Room) (c : Store).

(** A message with what is dirty brings a page that agreed on the rest up to date. *)
Lemma sync_message_settles c n r p : agrees c n [] r -> tracked p = true ->
  shows (apply_message (pick_state (realPlaybackPosition r) (dirty r) r) (replay (drop n (outbox r)) c) p)
    (prop_value 0 p r).
Proof.
  intros [Hs Hl Hr Hg] Ht. rewrite apply_message_lookup, map_get_pick.
  destruct (decide (p ∈ dirty r)) as [Hp|Hp].
  { rewrite (value_position _ 0) by done. apply shows_refl. }
  assert (H0 : shows (replay (drop n (outbox r)) c p) (prop_value 0 p r)) by (apply Hs; [done..|set_solver]).
  destruct (is_full _) eqn:Hf; [|done]. apply is_full_pick in Hf. destruct p; try exact H0.
  - destruct (Hr Hf) as [?|[?%elem_of_nil|He]]; [done..|]. simpl. by rewrite He.
  - destruct Hp. by apply Hg.
Qed.

Lemma fold_set_add_elem' (l acc : list Prop_) (x : Prop_) :
  x ∈ fold_left (fun acc p => set_add p acc) l acc <-> x ∈ l \/ x ∈ acc.
Proof.
  revert acc. induction l as [|y l IH]; intros acc; simpl; [set_solver|].
  rewrite IH. unfold set_add. case_decide; set_solver.
Qed.

Lemma ag_sync c n r : agrees c n [] r -> agrees c n [] (sync r).2.
Proof.
  intros Ha. destruct (decide (dirty r = [])) as [Hd|Hd]; [by rewrite sync_clean|].
  rewrite sync_run by done. cbv zeta. pose proof (sync_message_settles c n r) as Hm.
  set (e := PublishSync _) in *. set (r1 := publish e (cleanDirty r)).
  assert (Ho : outbox r1 = outbox r ++ [e]) by done.
  assert (Hv : forall p, prop_value 0 p r1 = prop_value 0 p r) by (intros p; by destruct p).
  assert (Hp1 : playbackPreparation r1 = playbackPreparation r) by done.
  assert (Hd1 : dirty r1 = []) by done.
  assert (Hs : forall p, tracked p = true -> shows (replay (drop n (outbox r1)) c p) (prop_value 0 p r1)).
  { intros p Ht. rewrite Ho, Hv, drop_snoc_le by apply Ha. rewrite replay_app. simpl. by apply Hm. }
  assert (Hlen : (n <= length (outbox r1))%nat) by (rewrite Ho, length_app; pose proof (ag_len _ _ _ _ Ha); lia).
  clearbody r1. destruct (_ && negb env_storageOk).
  - split; cbn [dirty outbox over playbackPreparation].
    + intros p Ht _ _. replace (prop_value 0 p _) with (prop_value 0 p r1) by by destruct p. by apply Hs.
    + done.
    + rewrite !fold_set_add_elem', Hp1, Hd1. intros [Hn|?%elem_of_nil]; [|done].
      destruct (ag_round _ _ _ _ Ha Hn) as [?|[?|?]]; tauto.
    + rewrite !fold_set_add_elem', Hd1. intros [Hn|?%elem_of_nil]; [|done]. left. by apply (ag_gate _ _ _ _ Ha).
  - split; [by intros p Ht _ _; apply Hs|done|..]; rewrite Hd1; by intros ?%elem_of_nil.
Qed.

(** Agreement is kept by whatever a handler is built from. *)
Lemma agrees_stable c n : Stable (agrees c n []).
Proof.
  intros r r' Hm Ha. destruct Hm; try (unfold start_clock; ag_tac; fail).
  - by apply H1.
  - by apply ag_sync.
  - by apply ag_relabel.
  - by apply ag_queue_op.
Qed.
End Sync.

(** ** From the making of a room on *)

Lemma agrees_reachable c n r0 r : reachable r0 r -> agrees c n [] r0 -> agrees c n [] r.
Proof. intros Hr Ha. refine (stable_reachable _ r0 r _ Ha Hr). intros E LL. apply agrees_stable. Qed.

(** A room just made: what the name goes with is dirty like the name. *)
Lemma construct_marks `{E : Env} o :
  playbackPreparation (construct_room o) = None /\ PBufferGateMode ∈ dirty (construct_room o).
Proof.
  assert (Hm : forall p r, PBufferGateMode ∈ dirty r -> PBufferGateMode ∈ dirty (markDirty p r)).
  { intros p r Hr. unfold markDirty. cbn [dirty over]. unfold set_add. case_decide; set_solver. }
  assert (Hb : playbackPreparation (blank_room o) = None /\ PBufferGateMode ∈ dirty (blank_room o)).
  { split; [done|]. cbn [dirty blank_room]. unfold assigned_props. rewrite !elem_of_app. right. set_solver. }
  assert (Hp : forall v r, playbackPreparation (set_prevQueue v r) = playbackPreparation r).
  { intros v r. unfold set_prevQueue. by destruct v, (prevQueue r). }
  assert (Hq : forall v r, PBufferGateMode ∈ dirty r -> PBufferGateMode ∈ dirty (set_prevQueue v r)).
  { intros v r Hr. unfold set_prevQueue. destruct v, (prevQueue r); by try apply Hm. }
  unfold construct_room. cbv zeta.
  match goal with |- context [restore_prev_queue ?x] =>
    assert (H1 : playbackPreparation x = None /\ PBufferGateMode ∈ dirty x)
      by (destruct (bool_decide _); [rewrite Hp; split; [apply Hb|apply Hq, Hb]|done]);
    revert H1; generalize x; intros r [H1 H2] end.
  assert (H3 : playbackPreparation (restore_prev_queue r) = None /\ PBufferGateMode ∈ dirty (restore_prev_queue r)).
  { unfold restore_prev_queue. destruct (currentSource r), (items (queue r)), (restoreQueueBehavior r), (prevQueue r);
      try done. cbv zeta. cbn [playbackPreparation dirty over]. rewrite Hp.
    split; [done|]. apply Hq, Hm. done. }
  revert H3. generalize (restore_prev_queue r). intros r' [H3 H4]. unfold upgrade_permissions. cbv zeta.
  by case_match.
Qed.

(** What a page has in its store when it has taken the state of the room in. *)
Definition joined_store `{Env} (r : Room) (c : Store) : Store := apply_message (syncableState r) c.

Lemma joined_store_lookup `{E : Env} r c p : joined_store r c p = prop_value (realPlaybackPosition r) p r.
Proof.
  unfold joined_store, syncableState. rewrite apply_message_lookup, map_get_pick.
  rewrite decide_True; [done|]. unfold syncableProps. destruct p; set_solver.
Qed.

Lemma joined_agrees `{E : Env} o r c : reachable (construct_room o) r ->
  agrees (joined_store r c) (length (outbox r)) [] r.
Proof.
  intros Hr. destruct (construct_marks o) as [Hn Hg].
  assert (H0 : agrees (fun p => prop_value 0 p (construct_room o)) (length (outbox (construct_room o))) []
    (construct_room o)).
  { split; [|done|by intros _; right; right|done]. intros p Ht _ _. rewrite drop_all. apply shows_refl. }
  destruct (agrees_reachable _ _ _ _ Hr H0) as [_ _ H1 H2]. split; [|done|done|done].
  intros p Ht _ _. rewrite drop_all. simpl. rewrite joined_store_lookup, (value_position _ 0) by done.
  apply shows_refl.
Qed.

(** C16: A page that joined a room and took in every sync message the room published since
    shows the room as it is now, whatever happened to it (requests, ticks, timers, syncs that
    failed to store), in every property but those waiting for the next sync.  (Not followed:
    the position, which is a clock; [restoreQueueBehavior]; and the start time of the item
    that plays.  Queues are compared item by item.) *)
Theorem pages_up_to_date `{E : Env} o r0 c r p :
  reachable (construct_room o) r0 -> reachable r0 r ->
  tracked p = true -> p ∉ dirty r ->
  shows (replay (drop (length (outbox r0)) (outbox r)) (joined_store r0 c) p) (prop_value 0 p r).
Proof.
  intros H0 Hr Ht Hp. apply (agrees_reachable _ _ _ _ Hr (joined_agrees o r0 c H0)); [done..|].
  apply not_elem_of_nil.
Qed.

(** Once a sync went through, nothing is left out. *)
Corollary pages_up_to_date_after_sync `{E : Env} {LL : LodashLaws env_lodash} o r0 c r p :
  reachable (construct_room o) r0 -> reachable r0 r -> (sync r).1 = inr tt -> tracked p = true ->
  shows (replay (drop (length (outbox r0)) (outbox (sync r).2)) (joined_store r0 c) p)
    (prop_value 0 p (sync r).2).
Proof.
  intros H0 Hr Hok Ht. apply (pages_up_to_date o); [done| |done|].
  - exact (reach_step r0 E StepSync r LL Hr).
  - unfold sync in *. rewrite bind_get in *. destruct (dirty r) as [|q l] eqn:Hd.
    + cbn [snd ret]. rewrite Hd. apply not_elem_of_nil.
    + rewrite !bind_modify in *. destruct (_ && negb env_storageOk).
      * rewrite bind_modify in Hok. discriminate Hok.
      * cbn [snd ret]. apply not_elem_of_nil.
Qed.

(** ** The clock *)

Section Clock.
Context `{E : Env}.
Implicit Types (r : Room) (s : RoomState).

(** The page knows whether the room plays and how fast, but for what is dirty. *)
Record page_knows s r : Prop := {
  pk_playing : PIsPlaying ∉ dirty r -> isPlaying_of (store s) = isPlaying r;
  pk_speed : PPlaybackSpeed ∉ dirty r -> speed_of (store s) = playbackSpeed r;
}.

(** The message a sync publishes now. *)
Definition sync_message r : list (Prop_ * value) := pick_state (realPlaybackPosition r) (dirty r) r.

Lemma after_message s r anchor : page_knows s r -> PPlaybackPosition ∈ dirty r ->
  let s' := sync_action anchor (sync_message r) s in
  isPlaying_of (store s') = isPlaying r /\ speed_of (store s') = playbackSpeed r /\
  position_of (store s') = realPlaybackPosition r /\
  (isPlaying r = true -> playbackStartTime s' = Some anchor).
Proof.
  intros [Hp Hs] Hpos. cbv zeta. unfold sync_action, msg_isPlaying, moves, map_has, sync_message.
  rewrite !map_get_pick. rewrite (decide_True (P := PPlaybackPosition ∈ dirty r)) by done.
  rewrite orb_true_r. cbn [andb].
  assert (Hst : forall f t, store (t <| playbackStartTime := f |>) = store t) by done.
  assert (Hlook : forall t p, apply_message (pick_state (realPlaybackPosition r) (dirty r) r) (store t) p =
    match p with
    | PIsPlaying | PPlaybackSpeed | PPlaybackPosition =>
        if decide (p ∈ dirty r) then prop_value (realPlaybackPosition r) p r else store t p
    | _ => apply_message (pick_state (realPlaybackPosition r) (dirty r) r) (store t) p
    end).
  { intros t p. rewrite apply_message_lookup, map_get_pick.
    destruct p; try done; case_decide; try done; by case_match. }
  match goal with |- context [(?t <| store ::= apply_message _ |>)] =>
    assert (Ht : store t = store s /\ (isPlaying r = true -> playbackStartTime t = Some anchor)); [|set (s1 := t) in *; clearbody s1] end.
  { destruct (decide (PIsPlaying ∈ dirty r)) as [Hd|Hd]; cbn [prop_value].
    - destruct (isPlaying_of (store s)) eqn:Ho, (isPlaying r); cbn [Bool.eqb negb andb]; rewrite ?Hst, ?Ho; done.
    - rewrite (Hp Hd). by destruct (isPlaying r). }
  destruct Ht as [Hs1 Hstart]. unfold isPlaying_of, speed_of, position_of in *. cbn [store over playbackStartTime].
  rewrite !Hlook, !Hs1. rewrite (decide_True (P := PPlaybackPosition ∈ dirty r)) by done. split_and!; [..|done|done].
  - case_decide; [done|auto].
  - case_decide; [done|auto].
Qed.

(** A sync message that carries the position sets a page's clock exactly: a page that takes
    it in when it was sent is from then on, at every instant, where the room is (as long as the
    room's own clock runs when it plays, and until something happens to the room). *)
Theorem page_clock_exact s r (E' : Env) :
  page_knows s r -> PPlaybackPosition ∈ dirty r -> (isPlaying r = true -> playbackStart r <> None) ->
  (roomPosition (@now E') (sync_action (@now E) (sync_message r) s) == realPlaybackPosition (E := E') r)%Q.
Proof.
  intros Hk Hd Hclock. destruct (after_message s r (@now E) Hk Hd) as (Hp & Hs & Hq & Hst).
  unfold roomPosition. rewrite Hp, Hs, Hq. clear Hp Hs Hq. destruct (isPlaying r) eqn:Hpl.
  - rewrite Hst by done. unfold realPlaybackPosition, calcDurationFromPlaybackStart. rewrite Hpl.
    destruct (playbackStart r) as [t0|]; [|by destruct (Hclock eq_refl)].
    unfold calculateCurrentPosition. unfold Z.sub. rewrite !inject_Z_plus, !inject_Z_opp. unfold Qdiv. ring.
  - unfold realPlaybackPosition. rewrite Hpl. by destruct (playbackStart r).
Qed.
End Clock.

(** ** At work *)

Definition press (state : bool) (c : ClientId) : RoomStep := StepRequest (PlaybackRequest state) (as_guest c).

(** A page that takes in, at the instant [t], what the room published from its [n]th effect on. *)
Definition take_in (t : Z) (n : nat) (r : Room) (s : RoomState) : RoomState :=
  fold_left (fun s e => match e with PublishSync m => sync_action t (sync_values m) s | _ => s end)
    (drop n (outbox r)) s.

(** Two viewers watch; one page joined now and knows the room. *)
Definition watched : Room := drive [(3550, StepSync)] playing_room.
Definition watching : RoomState :=
  sync_action 3600 (syncableState (E := sample_env 3600) watched) initial_room_state.

(** A pause, and its sync fifty milliseconds later. *)
Definition paused_room : Room := drive [(5000, press false "c1"); (5050, StepSync)] watched.
Definition paused_page : RoomState := take_in 5050 (length (outbox watched)) paused_room watching.

(** Playing goes on at 6000, and the debounced sync leaves at 6050. *)
Definition resumed_room : Room := drive [(6000, press true "c1"); (6050, StepSync)] paused_room.
Definition resumed_page : RoomState := take_in 6050 (length (outbox paused_room)) resumed_room paused_page.

Lemma watched_reachable : reachable sample_room watched.
Proof. unfold watched, playing_room, held_room. repeat apply drive_reachable. apply reach_refl. Qed.

(** [play] restarts the clock of the room without marking the position, so the sync it causes
    says only that the room plays: the page starts its clock when the message arrives and stays
    behind the room by the time the message waited. *)
Example resumed_page_lags :
  roomPosition 9000 paused_page = realPlaybackPosition (E := sample_env 9000) paused_room
  /\ (realPlaybackPosition (E := sample_env 9000) resumed_room - roomPosition 9000 resumed_page == 50 # 1000)%Q.
Proof. by vm_compute. Qed.

Lemma pages_up_to_date_witness :
  shows (replay (drop (length (outbox watched)) (outbox resumed_room)) (joined_store (H := sample_env 0) watched initial_store) PIsPlaying)
    (VBool true).
Proof.
  assert (Hr : reachable watched resumed_room)
    by (unfold resumed_room, paused_room; apply drive_reachable, drive_reachable, reach_refl).
  exact (pages_up_to_date (E := sample_env 0) sample_options watched initial_store resumed_room PIsPlaying
    watched_reachable Hr eq_refl (proj1 (bool_decide_eq_false _) (eq_refl : bool_decide (PIsPlaying ∈ dirty resumed_room) = false))).
Defined.

(** The room as the pause leaves it, before its sync. *)
Definition pausing_room : Room := drive [(5000, press false "c1")] watched.

Lemma page_clock_exact_witness :
  (roomPosition 9000 (sync_action 5050 (sync_message (E := sample_env 5050)
     pausing_room) watching)
   == realPlaybackPosition (E := sample_env 9000) pausing_room)%Q.
Proof.
  assert (Hk : page_knows watching pausing_room).
  { split; intros Hd; [exfalso; apply Hd; apply (bool_decide_unpack _); by vm_compute|by vm_compute]. }
  assert (Hd : PPlaybackPosition ∈ dirty pausing_room)
    by (apply (bool_decide_unpack _); by vm_compute).
  assert (Hc : isPlaying pausing_room = true ->
    playbackStart pausing_room <> None) by (vm_compute; discriminate).
  exact (page_clock_exact (E := sample_env 5050) watching pausing_room
    (sample_env 9000) Hk Hd Hc).
Defined.
