(* ===== verification/RoomTheorems.v ===== *)
(** * RoomTheorems: playback

    What a room promises about playback: the invariants of every reachable state, the
    law of the clock, the buffer gate, the start handshake, the queue's hand-over. *)

From S2P Require Import Prelude Types Permissions VideoQueue RoomModel RoomPlayback RoomRequests.
From S2P Require Import RoomLifecycle RoomInvariants RoomReach RoomSamples.

(** ** Reachable states *)

(** The invariant of a room just built. *)
Definition never_restored (r : Room) : bool :=
  negb (restoredFromStorage r) && (negb (isPlaying r) || bool_decide (is_Some (playbackStart r))).

Lemma construct_frame `{E : Env} o :
  let r := construct_room o in
  temporarySpeed r = None /\ bufferGate r = None /\ playbackPreparation r = None /\
  recentEvents r = [] /\ (db_notes r, db_nextNoteId r) = (env_storedNotes, env_nextNoteId) /\ userRoles r = opt_userRoles o /\
  items (queue r) = opt_queue o ++
    match opt_currentSource o, opt_queue o, opt_restoreQueueBehavior o, opt_prevQueue o with
    | None, [], Always, Some prev => prev
    | _, _, _, _ => []
    end.
Proof.
  cbv zeta. unfold construct_room. cbv zeta.
  set (r0 := if bool_decide _ then set_prevQueue None (blank_room o) else blank_room o).
  assert (H0 : temporarySpeed r0 = None /\ bufferGate r0 = None /\ playbackPreparation r0 = None /\
    recentEvents r0 = [] /\ (db_notes r0, db_nextNoteId r0) = (env_storedNotes, env_nextNoteId) /\ userRoles r0 = opt_userRoles o /\
    items (queue r0) = opt_queue o /\ currentSource r0 = opt_currentSource o /\
    restoreQueueBehavior r0 = opt_restoreQueueBehavior o /\
    (opt_restoreQueueBehavior o = Always -> prevQueue r0 = opt_prevQueue o)).
  { subst r0. destruct (bool_decide _) eqn:Hn; [|simpl; auto 20].
    apply bool_decide_eq_true in Hn. simpl in Hn.
    unfold set_prevQueue. destruct (prevQueue (blank_room o)); rsimpl; simpl; rewrite ?Hn;
      split_and!; done. }
  clearbody r0. destruct H0 as (H1 & H2 & H3 & H4 & H5 & H6 & H7 & H8 & H9 & H10).
  unfold restore_prev_queue. rewrite H7, H8, H9.
  assert (Hup : forall r, temporarySpeed (upgrade_permissions o r) = temporarySpeed r /\
    bufferGate (upgrade_permissions o r) = bufferGate r /\
    playbackPreparation (upgrade_permissions o r) = playbackPreparation r /\
    recentEvents (upgrade_permissions o r) = recentEvents r /\
    (db_notes (upgrade_permissions o r), db_nextNoteId (upgrade_permissions o r)) = (db_notes r, db_nextNoteId r) /\
    userRoles (upgrade_permissions o r) = userRoles r /\ queue (upgrade_permissions o r) = queue r).
  { intros r. unfold upgrade_permissions. cbv zeta. destruct (_ <? _); rsimpl; split_and!; done. }
  match goal with |- context [upgrade_permissions o ?x] => destruct (Hup x) as (-> & -> & -> & -> & -> & -> & ->) end.
  clear Hup.
  destruct (opt_currentSource o), (opt_queue o) eqn:Hq, (opt_restoreQueueBehavior o) eqn:Hb;
    rewrite ?H1, ?H2, ?H3, ?H4, ?H5, ?H6, ?H7, ?app_nil_r; auto 10.
  rewrite (H10 eq_refl). destruct (opt_prevQueue o) as [prev|]; [|by rewrite H1, H2, H3, H4, H5, H6, H7].
  unfold set_prevQueue. rsimpl.
  destruct (prevQueue r0); rsimpl; simpl; rewrite ?H1, ?H2, ?H3, ?H4, ?H5, ?H6, ?H7; auto 10.
Qed.

Lemma pb_construct `{E : Env} o : pb_inv (never_restored (construct_room o)) (construct_room o).
Proof.
  destruct (construct_frame o) as (H1 & H2 & H3 & _).
  split; rewrite ?H1, ?H2, ?H3; [by intros [? ?]|done|done|].
  unfold never_restored. rewrite andb_true_iff, orb_true_iff, !negb_true_iff, bool_decide_eq_true.
  intros [Hr Hs]. split; [done|]. intros Hp. destruct Hs; [congruence|done].
Qed.

(** C1: In every state a room can reach, from any options, by any requests, ticks, syncs and
    timers: a temporary speed is in force only while the room plays; a buffer gate holds a
    paused room and never coexists with a pending resume; a start round holds a paused room
    that is to resume, for the video that is on and at the position the room stands at; the
    three never coexist. *)
Theorem reachable_playback_exclusive `{E0 : Env} (o : RoomOptions) (r : Room) :
  reachable (construct_room o) r ->
  (is_Some (temporarySpeed r) -> isPlaying r = true) /\
  (forall g, bufferGate r = Some g ->
     isPlaying r = false /\ gate_pausedByGate g = true /\ resumeOnNextJoin r = false) /\
  (forall p, playbackPreparation r = Some p ->
     isPlaying r = false /\ resumeOnNextJoin r = true /\
     same_video (prep_video p) (currentSource r) = true /\ (playbackPosition r == prep_position p)%Q) /\
  ~ (is_Some (bufferGate r) /\ is_Some (playbackPreparation r)).
Proof.
  intros Hr. assert (Hi : pb_inv (never_restored (construct_room o)) r).
  { revert Hr. apply stable_reachable; [intros; apply pb_stable|]. apply pb_construct. }
  destruct Hi as [Ht Hg Hp _]. split_and!; try done.
  intros [[g HG] [p HP]]. destruct (Hg g HG) as (_ & _ & ?), (Hp p HP) as (_ & ? & _). congruence.
Qed.

Lemma reachable_playback_exclusive_witness :
  reachable sample_room held_room /\ is_Some (playbackPreparation held_room) /\
  isPlaying held_room = false /\ resumeOnNextJoin held_room = true.
Proof.
  assert (Hr : reachable sample_room held_room) by (apply drive_reachable; apply reach_refl).
  destruct (reachable_playback_exclusive (E0 := sample_env 0) sample_options held_room Hr) as (_ & _ & Hp & _).
  destruct (playbackPreparation held_room) as [p|] eqn:Hpp; [|vm_compute in Hpp; discriminate].
  destruct (Hp p eq_refl) as (H1 & H2 & _). split; [exact Hr|]. split; [eauto|]. by split.
Defined.

(** A room that was not restored from a snapshot while playing never has a stopped clock:
    whenever it plays, the instant its clock started is known. *)
Theorem reachable_clock_runs `{E0 : Env} (o : RoomOptions) (r : Room) :
  never_restored (construct_room o) = true ->
  reachable (construct_room o) r ->
  isPlaying r = true -> is_Some (playbackStart r).
Proof.
  intros Hf Hr. assert (Hi : pb_inv (never_restored (construct_room o)) r).
  { revert Hr. apply stable_reachable; [intros; apply pb_stable|]. apply pb_construct. }
  by apply (inv_clock _ r Hi).
Qed.

Lemma reachable_clock_runs_witness :
  isPlaying playing_room = true /\ is_Some (playbackStart playing_room).
Proof.
  split; [reflexivity|].
  apply (reachable_clock_runs (E0 := sample_env 0) sample_options playing_room); [reflexivity| |reflexivity].
  apply drive_reachable, drive_reachable, reach_refl.
Defined.

(** ** Bounds *)

(** What an [addNote] request does before it waits for the count of the notes. *)
Definition note_request `{E : Env} (text : wire string) (ctx : RequestContext) : RM (option (ClientId * string)) :=
  check (ctx_role ctx) "configure-room.set-notes" ;;; addNote_check text ctx.

(** Handled without a pause, it goes on to store the note. *)
Lemma note_request_whole `{E : Env} text ctx :
  processRequest (AddNoteRequest text) ctx =
  bind (check (ctx_role ctx) "configure-room.set-notes") (fun _ =>
    bind (addNote_check text ctx) (fun n => match n with Some n => addNote_store n | None => ret tt end)).
Proof. done. Qed.

Lemma note_request_spec `{E : Env} text ctx r n r' :
  note_request text ctx r = (inr (Some n), r') -> r' = r /\ (length (db_notes r) < MAX_NOTES_PER_ROOM)%nat.
Proof.
  unfold note_request. assert (Hc : (check (ctx_role ctx) "configure-room.set-notes" r).2 = r)
    by (unfold check, bind, get, lift_res; by destruct (Grants.check (grants r) _ _)).
  unfold bind at 1. destruct (check _ _ r) as [[e|[]] r1]; [done|]. cbn [snd] in Hc. subst r1.
  unfold addNote_check. rewrite bind_get.
  destruct (isTemporary r); [done|]. unfold need_client. destruct (ctx_clientId ctx) as [c|]; [|done].
  unfold bind, ret. cbv zeta. destruct (_ =? 0)%nat; [done|]. destruct (_ <? _)%nat; [done|].
  destruct (_ <=? _)%nat eqn:Hn; [done|]. apply Nat.leb_gt in Hn. intros [= _ <-]. done.
Qed.

(** The notes of a room, with the requests that wait between the count and the insertion.  Any
    number of other events may happen meanwhile; at most [K] note requests wait at a time. *)
Definition stores_note (s : RoomStep) : bool :=
  match s with StepRequest (AddNoteRequest _) _ | StepStoreNote _ => true | _ => false end.

Inductive noting (K : nat) (r0 : Room) : list (ClientId * string) -> Room -> Prop :=
  | noting_start : noting K r0 [] r0
  | noting_other (E : Env) s waiting r : LodashLaws (@env_lodash E) -> stores_note s = false ->
      noting K r0 waiting r -> noting K r0 waiting (perform s r)
  | noting_asked (E : Env) text ctx note waiting r : (length waiting < K)%nat ->
      note_request text ctx r = (inr (Some note), r) -> noting K r0 waiting r -> noting K r0 (note :: waiting) r
  | noting_stored (E : Env) note waiting rest r : LodashLaws (@env_lodash E) -> waiting ≡ₚ note :: rest ->
      noting K r0 waiting r -> noting K r0 rest (perform (StepStoreNote note) r).

Lemma noting_reachable K r0 waiting r : noting K r0 waiting r -> reachable r0 r.
Proof. induction 1; [apply reach_refl|by apply reach_step|done|by apply reach_step]. Qed.

(** Whatever stores no note leaves no more notes than there were. *)
Definition no_note (a : addition) : Prop := a <> ANote.
Definition notes_within (n : nat) (r : Room) : Prop := (length (db_notes r) <= n)%nat.

Lemma notes_view r r' : aux_view r' = aux_view r -> db_notes r' = db_notes r.
Proof. unfold aux_view. congruence. Qed.

Lemma notes_stable `{E : Env} n : StableFor no_note (notes_within n).
Proof.
  intros r r' Hm Hi. unfold notes_within in *.
  assert (Heq : db_notes r' = db_notes r -> (length (db_notes r') <= n)%nat) by by intros ->.
  destruct Hm; try (apply Heq, notes_view; unfold replace_current, start_clock; aux_tac; fail);
    try (apply Heq; done).
  - by apply Heq, notes_view.
  - apply Heq, notes_view, sync_views.
  - apply Heq. pose proof (aux_dequeueNext r) as Hx. cbv zeta in Hx. unfold aux_view in Hx. by injection Hx.
  - apply Heq. pose proof (aux_queue_op m r) as Hx. unfold aux_view in Hx. by injection Hx.
  - apply Heq. unfold publishRoomEvent. destruct (ctx_clientId ctx); [|done].
    destruct (match u with Some _ => _ | None => _ end); [|done]. cbv zeta.
    match goal with |- db_notes (publish ?e ?x) = _ => transitivity (db_notes x); [apply notes_view, aux_publish|done] end.
  - unfold destroy_note. rsimpl. etransitivity; [apply filter_length_le|done].
  - by apply Heq, set_role_frame.
Qed.

Lemma notes_other `{E : Env} {LL : LodashLaws env_lodash} s r :
  stores_note s = false -> (length (db_notes (perform s r)) <= length (db_notes r))%nat.
Proof.
  intros Hs. apply (perform_keeps_for _ (notes_stable (length (db_notes r))) s r); [|unfold notes_within; lia].
  destruct s as [req ?| | | | | |]; try done. by destruct req.
Qed.

Lemma store_note_length `{E : Env} n r :
  (length (db_notes (perform (StepStoreNote n) r)) <= S (length (db_notes r)))%nat.
Proof.
  cbn [perform]. unfold addNote_store, need_info. destruct (getUserInfo r n.1) as [u|] eqn:Hu.
  - rewrite (bind_run _ _ r u r) by (rewrite bind_get, Hu; done). rewrite bind_modify.
    unfold publishNotes, modify. cbn [snd]. 
    match goal with |- context [publish ?e ?x] => rewrite (notes_view x (publish e x) (aux_publish e x)) end.
    unfold insert_note. rsimpl. rewrite length_app. simpl. lia.
  - unfold bind at 1. rewrite bind_get, Hu. cbn [snd]. simpl. lia.
Qed.

(** The notes stored and about to be stored. *)
Lemma noting_bound K r0 waiting r : (1 <= K)%nat -> (length (db_notes r0) <= 200)%nat ->
  noting K r0 waiting r -> (length waiting <= K)%nat /\ (length (db_notes r) + length waiting <= 199 + K)%nat.
Proof.
  intros HK H0. induction 1 as [|E s waiting r LL Hs Hn [IHw IH]|E text ctx note waiting r Hlt Hreq Hn [IHw IH]
      |E note waiting rest r LL Hp Hn [IHw IH]].
  - simpl. lia.
  - split; [done|]. pose proof (notes_other s r Hs). lia.
  - apply note_request_spec in Hreq as [_ Hlen]. unfold MAX_NOTES_PER_ROOM in Hlen. simpl. lia.
  - apply Permutation_length in Hp. simpl in Hp. pose proof (store_note_length note r). lia.
Qed.

(** C4: Nothing that grows is unbounded.  In every state of a room whose stored queue and notes
    fit, the queue has at most 200 items and the room keeps at most 20 recent events; event
    references and note ids are distinct, and an account has at most one role.  Counting the
    notes and storing the new one are two waits apart: as long as at most [K] requests stand
    between the two at a time, the room has at most [199 + K] notes, those about to be stored
    included; so at most 200 when note requests do not overlap. *)
Theorem reachable_bounds (E0 : Env) (o : RoomOptions) (K : nat) (waiting : list (ClientId * string)) (r : Room) :
  (length (items (queue (@construct_room E0 o))) <= MAX_QUEUE_ITEMS)%nat ->
  (length (@env_storedNotes E0) <= 200)%nat -> NoDup (map note_id (@env_storedNotes E0)) ->
  Forall (fun n => note_id n < @env_nextNoteId E0) (@env_storedNotes E0) ->
  (forall uid role role' s s', TrustedUser <= role <= Administrator ->
     TrustedUser <= role' <= Administrator -> map_get role (opt_userRoles o) = Some s ->
     map_get role' (opt_userRoles o) = Some s' -> uid ∈ s -> uid ∈ s' -> role = role') ->
  (1 <= K)%nat -> noting K (@construct_room E0 o) waiting r ->
  (length (items (queue r)) <= 200)%nat /\ (length (recentEvents r) <= 20)%nat /\
  (length (db_notes r) + length waiting <= 199 + K)%nat /\
  NoDup (map ev_ref (recentEvents r)) /\ NoDup (map note_id (db_notes r)) /\
  (forall uid role role' s s', TrustedUser <= role <= Administrator ->
     TrustedUser <= role' <= Administrator -> map_get role (userRoles r) = Some s ->
     map_get role' (userRoles r) = Some s' -> uid ∈ s -> uid ∈ s' -> role = role').
Proof.
  intros Hq Hn Hd Hf Hro HK Hr. destruct (@construct_frame E0 o) as (_ & _ & _ & H4 & H5 & H6 & _).
  injection H5 as H5 H5'.
  assert (Hi : logs_inv r).
  { apply (stable_reachable _ (@construct_room E0 o)); [intros; apply logs_stable| |by eapply noting_reachable].
    split; rewrite ?H4, ?H5, ?H5', ?H6; [exact Hq|simpl; lia|split; constructor|done|exact Hro]. }
  assert (Hb : (length (db_notes r) + length waiting <= 199 + K)%nat)
    by (apply (noting_bound K (@construct_room E0 o)); [done|by rewrite H5|done]).
  destruct Hi as [? ? [? ?] [? ?] ?]. done.
Qed.

(** Two members add a note to a permanent room at the same time. *)
Definition noted (n : nat) (t : Z) : Env := {|
  now := t; random_uuid := "round-1"; env_lodash := reference_lodash;
  env_getUser := @env_getUser (sample_env t); env_getSessionInfo := @env_getSessionInfo (sample_env t);
  env_adapterVideoId := @env_adapterVideoId (sample_env t); env_getVideoInfo := @env_getVideoInfo (sample_env t);
  env_getManyVideoInfo := @env_getManyVideoInfo (sample_env t); env_parseUrl := @env_parseUrl (sample_env t);
  env_assertPublicMediaUrl := @env_assertPublicMediaUrl (sample_env t);
  env_fetchSegments := @env_fetchSegments (sample_env t); env_storageOk := true; env_carried := fun _ _ => true;
  env_storedNotes := map (fun i => MkNote (Z.of_nat i) "a" "n" 0) (seq 0 n); env_nextNoteId := Z.of_nat n;
  conf_unload_after := 240; conf_sponsorblock_enabled := true;
|}.
Definition permanent : RoomOptions := sample_options <| opt_isTemporary := false |>.
Definition note_ctx (c : ClientId) : RequestContext := MkContext c Administrator (Some c) None.
Definition noted_room (n : nat) : Room :=
  drive [(0, join "c1"); (10, join "c2")] (construct_room (E := noted n 0) permanent).

Lemma noting_drive K r0 waiting l r : noting K r0 waiting r -> forallb (fun s => negb (stores_note s.2)) l = true ->
  noting K r0 waiting (drive l r).
Proof.
  revert r. induction l as [|[t s] l IH]; intros r Hn Hl; [done|]. simpl in *. apply andb_true_iff in Hl as [Hs Hl].
  apply IH; [|done]. apply noting_other; [apply (sample_laws true t)|by apply negb_true_iff|done].
Qed.

(** Both are asked for, and counted, before either is stored. *)
Definition overlapping (n : nat) : Room :=
  perform (H := sample_env 30) (StepStoreNote ("c2", "second"))
    (perform (H := sample_env 30) (StepStoreNote ("c1", "first")) (noted_room n)).

Lemma overlapping_noting n : (n < 200)%nat ->
  note_request (E := sample_env 20) (Typed "first") (note_ctx "c1") (noted_room n) = (inr (Some ("c1", "first")), noted_room n) ->
  note_request (E := sample_env 20) (Typed "second") (note_ctx "c2") (noted_room n) = (inr (Some ("c2", "second")), noted_room n) ->
  noting 2 (construct_room (E := noted n 0) permanent) [] (overlapping n).
Proof.
  intros Hn H1 H2. pose proof (sample_laws true 30) as LL. unfold overlapping.
  apply (noting_stored _ _ (sample_env 30) ("c2", "second") [("c2", "second")]); [done..|].
  apply (noting_stored _ _ (sample_env 30) ("c1", "first") [("c2", "second"); ("c1", "first")]);
    [done|by apply Permutation_swap|].
  apply (noting_asked _ _ (sample_env 20) (Typed "second") (note_ctx "c2")); [simpl; lia|done|].
  apply (noting_asked _ _ (sample_env 20) (Typed "first") (note_ctx "c1")); [simpl; lia|done|].
  apply noting_drive; [apply noting_start|done].
Qed.

Lemma reachable_bounds_witness : (length (items (queue (overlapping 199))) <= 200)%nat
  /\ (length (db_notes (overlapping 199)) <= 201)%nat.
Proof.
  destruct (reachable_bounds (noted 199 0) permanent 2 [] (overlapping 199)) as (H1 & _ & H2 & _).
  - vm_compute. lia.
  - vm_compute. lia.
  - apply (bool_decide_unpack _). vm_compute. exact I.
  - apply (bool_decide_unpack _). vm_compute. exact I.
  - intros uid role role' s s' Hr Hr' Hs Hs' Hu. exfalso. revert Hs Hu. unfold map_get. simpl.
    repeat case_decide; intros; simplify_eq; set_solver.
  - lia.
  - apply overlapping_noting; [lia|vm_compute; reflexivity..].
  - split; [exact H1|]. etransitivity; [apply Nat.le_add_r|exact H2].
Defined.

(** The bound is met: the limit of 200 is passed when two requests overlap at 199 notes. *)
Example notes_limit_is_overrun : length (db_notes (overlapping 199)) = 201%nat.
Proof. vm_compute. reflexivity. Qed.

(** The cap can be passed only at construction: a room that restores automatically takes
    its saved queue back whole, and the snapshot the room manager saves has one item more than
    the queue when something was on. *)
Theorem always_restore_exceeds_cap `{E0 : Env} (o : RoomOptions) (saved : list QueueItem) :
  opt_currentSource o = None -> opt_queue o = [] -> opt_restoreQueueBehavior o = Always ->
  opt_prevQueue o = Some saved ->
  items (queue (construct_room o)) = saved /\
  (forall r, is_Some (currentSource r) -> length (items (queue r)) = MAX_QUEUE_ITEMS ->
     length <$> queueSnapshot r = Some (S MAX_QUEUE_ITEMS)).
Proof.
  intros H1 H2 H3 H4. destruct (construct_frame o) as (_ & _ & _ & _ & _ & _ & Hi).
  split; [by rewrite Hi, H1, H2, H3, H4|]. intros r [v Hv] Hlen. unfold queueSnapshot. rewrite Hv.
  cbn [fmap option_fmap option_map length]. by rewrite Hlen.
Qed.

Definition saved_options : RoomOptions :=
  MkOptions "room" "Room" "" Public Manual true None None [] 0 false 1 []
    (Some (repeat (sample_video "v") 201)) Always false GatePause None None
    false Grants.defaultPermissions (Some 1) [] None.

Lemma always_restore_exceeds_cap_witness :
  length (items (queue (construct_room (E := sample_env 0) saved_options))) = 201%nat.
Proof.
  destruct (always_restore_exceeds_cap (E0 := sample_env 0) saved_options (repeat (sample_video "v") 201)
    eq_refl eq_refl eq_refl eq_refl) as [-> _]. reflexivity.
Defined.

(** ** The clock *)

Section Clock.
Context `{E : Env}.
Implicit Types (r : Room).

Lemma elapsed_zero t s : (inject_Z (t - t) / 1000 * s == 0)%Q.
Proof. rewrite Z.sub_diag. change (inject_Z 0) with 0%Q. unfold Qdiv. ring. Qed.

Lemma real_now r : playbackStart r = Some now -> (realPlaybackPosition r == playbackPosition r)%Q.
Proof.
  intros H. unfold realPlaybackPosition, calcDurationFromPlaybackStart, calculateCurrentPosition.
  rewrite H. destruct (isPlaying r); [|reflexivity]. rewrite elapsed_zero. ring.
Qed.

Lemma real_view r r' :
  playbackStart r' = playbackStart r -> isPlaying r' = isPlaying r ->
  playbackPosition r' = playbackPosition r -> playbackSpeed r' = playbackSpeed r ->
  realPlaybackPosition r' = realPlaybackPosition r.
Proof.
  intros H1 H2 H3 H4. unfold realPlaybackPosition, calcDurationFromPlaybackStart.
  by rewrite H1, H2, H3, H4.
Qed.

Lemma real_flush_speed q r :
  (realPlaybackPosition (set_playbackSpeed q (flushPlaybackPosition r)) == realPlaybackPosition r)%Q.
Proof. rewrite real_now; rsimpl; reflexivity. Qed.

Lemma real_endTemp r : (realPlaybackPosition (endTemporaryPlaybackSpeed true r) == realPlaybackPosition r)%Q.
Proof.
  unfold endTemporaryPlaybackSpeed. cbv zeta.
  assert (H0 : temporarySpeed (r <| temporarySpeedTimer := None |>) = temporarySpeed r) by (rsimpl; done).
  rewrite H0. destruct (temporarySpeed r) as [t|]; [|rewrite (real_view r); rsimpl; reflexivity].
  match goal with |- context [set_playbackSpeed ?q (flushPlaybackPosition ?x)] =>
    transitivity (realPlaybackPosition (set_playbackSpeed q (flushPlaybackPosition x))) end.
  - rewrite (real_view (set_playbackSpeed (ts_previousSpeed t) (flushPlaybackPosition
      ((r <| temporarySpeedTimer := None |>) <| temporarySpeed := None |>)))); rsimpl; reflexivity.
  - rewrite real_flush_speed. rewrite (real_view r); rsimpl; reflexivity.
Qed.

Lemma real_cancel r : realPlaybackPosition (cancelPlaybackPreparation r) = realPlaybackPosition r.
Proof.
  destruct (cancel_frame r) as (_ & _ & H1 & _ & _ & _ & H2 & H3 & _ & H4). by apply real_view.
Qed.

(** Where the clock stood is where it stands after stopping it. *)
Lemma real_pauseClock r : (realPlaybackPosition (pausePlaybackClock r) == realPlaybackPosition r)%Q.
Proof.
  unfold pausePlaybackClock. cbv zeta. rewrite <- (real_endTemp r).
  pose proof (endTemp_temp true r) as Ht.
  set (r1 := endTemporaryPlaybackSpeed true r) in *. clearbody r1.
  destruct (isPlaying r1) eqn:Hp; [|reflexivity]. unfold set_isPlaying.
  rewrite endTemp_none by (rsimpl; exact Ht).
  unfold realPlaybackPosition at 1. rsimpl. reflexivity.
Qed.

Lemma real_play r : (realPlaybackPosition (play r) == realPlaybackPosition r)%Q.
Proof.
  unfold play. cbv zeta.
  set (r0 := match bufferGate r with Some _ => _ | None => r end).
  assert (H0 : realPlaybackPosition r0 = realPlaybackPosition r).
  { subst r0. destruct (bufferGate r); [|done]. apply real_view; rsimpl; done. }
  rewrite <- H0, <- (real_cancel r0). set (r1 := cancelPlaybackPreparation r0). clearbody r1. clear H0 r0.
  rsimpl. destruct (isPlaying r1) eqn:Hp; [rewrite (real_view r1); rsimpl; reflexivity|].
  rewrite real_now; unfold set_isPlaying; rsimpl; [|done]. by rewrite real_paused.
Qed.
Lemma real_release timedOut r : (realPlaybackPosition (releaseBufferGate timedOut r) == realPlaybackPosition r)%Q.
Proof.
  unfold releaseBufferGate. destruct (bufferGate r) as [g|]; [|reflexivity]. cbv zeta.
  match goal with |- context [gate_pausedByGate g && negb (isPlaying ?x)] => set (r0 := x) end.
  assert (H0 : realPlaybackPosition r0 = realPlaybackPosition r).
  { subst r0. destruct timedOut; [match goal with |- context [if ?c then _ else _] => destruct c end|];
      apply real_view; rsimpl; done. }
  rewrite <- H0. clearbody r0. destruct (_ && _); [apply real_play|reflexivity].
Qed.
End Clock.

Lemma real_later (E1 E2 : Env) (r : Room) :
  (@realPlaybackPosition E2 r ==
   @realPlaybackPosition E1 r +
   (if isPlaying r && bool_decide (is_Some (playbackStart r))
    then inject_Z (@now E2 - @now E1) / 1000 * playbackSpeed r else 0))%Q.
Proof.
  unfold realPlaybackPosition, calcDurationFromPlaybackStart, calculateCurrentPosition.
  destruct (playbackStart r) as [s|]; destruct (isPlaying r); simpl; try ring.
  replace (@now E2 - s) with ((@now E2 - @now E1) + (@now E1 - s)) by lia.
  rewrite inject_Z_plus. unfold Qdiv. ring.
Qed.

(** The clock's law: between two instants with no event in between, the position advances by
    the elapsed seconds times the speed when the room plays (and its clock is running), and
    stands still when it is paused. *)
Theorem clock_advances (E1 E2 : Env) (r : Room) :
  (@realPlaybackPosition E2 r ==
   @realPlaybackPosition E1 r +
   (if isPlaying r && bool_decide (is_Some (playbackStart r))
    then inject_Z (@now E2 - @now E1) / 1000 * playbackSpeed r else 0))%Q.
Proof. apply real_later. Qed.

(** C2: No jump: playing, pausing (by hand or by the gate), releasing the gate, ending a
    temporary speed and changing the speed leave the position, at that instant, where it was;
    a seek puts it exactly where asked. *)
Theorem clock_continuous `{E : Env} (r : Room) (byGate timedOut : bool) (target : Q) :
  (realPlaybackPosition (play r) == realPlaybackPosition r)%Q /\
  (realPlaybackPosition (pause byGate r) == realPlaybackPosition r)%Q /\
  (realPlaybackPosition (releaseBufferGate timedOut r) == realPlaybackPosition r)%Q /\
  (realPlaybackPosition (endTemporaryPlaybackSpeed true r) == realPlaybackPosition r)%Q /\
  (realPlaybackPosition (setPlaybackSpeed (Fin target) r).2 == realPlaybackPosition r)%Q /\
  (realPlaybackPosition (seekRaw target r) == target)%Q.
Proof.
  split_and!.
  - apply real_play.
  - unfold pause. rewrite real_pauseClock, real_cancel. destruct byGate; [reflexivity|].
    rewrite (real_view r); rsimpl; reflexivity.
  - apply real_release.
  - apply real_endTemp.
  - unfold setPlaybackSpeed. destruct (_ || _); [reflexivity|]. unfold modify. cbn [snd].
    rewrite real_flush_speed. unfold endTemporaryPlaybackSpeed. cbv zeta.
    assert (H0 : temporarySpeed (r <| temporarySpeedTimer := None |>) = temporarySpeed r) by (rsimpl; done).
    rewrite H0. destruct (temporarySpeed r); rewrite (real_view r); rsimpl; reflexivity.
  - unfold seekRaw. cbv zeta. rewrite real_now; rsimpl; reflexivity.
Qed.

(** A held gesture is undone exactly: begun at one instant and ended at a later one, the
    temporary speed leaves the room at its own speed with no lease running, and the position
    has advanced by twice the time the gesture lasted. *)
Theorem temporary_speed_roundtrip (E1 E2 : Env) (c : ClientId) (g : string) (r : Room) :
  isPlaying r = true ->
  let held := @begin_temporary_speed E1 c g r in
  let r' := @endTemporaryPlaybackSpeed E2 true held in
  playbackSpeed held = 2%Q /\
  playbackSpeed r' = playbackSpeed r /\ temporarySpeed r' = None /\ temporarySpeedTimer r' = None /\
  isPlaying r' = true /\
  (@realPlaybackPosition E2 r' ==
   @realPlaybackPosition E1 r + inject_Z (@now E2 - @now E1) / 1000 * 2)%Q.
Proof.
  intros Hp held r'.
  assert (Hheld : playbackSpeed held = 2%Q /\ isPlaying held = true /\ playbackStart held = Some (@now E1) /\
    playbackPosition held = @realPlaybackPosition E1 r /\
    temporarySpeed held = Some (MkTemporarySpeed c g TEMPORARY_PLAYBACK_SPEED (playbackSpeed r))).
  { subst held. unfold begin_temporary_speed, renewTemporaryPlaybackSpeed. rsimpl. auto. }
  destruct Hheld as (H1 & H2 & H3 & H4 & H5). split; [done|].
  pose proof (@real_endTemp E2 held) as Hreal. pose proof (real_later E1 E2 held) as Hadv.
  assert (Hfields : playbackSpeed r' = playbackSpeed r /\ temporarySpeed r' = None /\
    temporarySpeedTimer r' = None /\ isPlaying r' = true).
  { subst r'. clearbody held. unfold endTemporaryPlaybackSpeed. cbv zeta.
    assert (H0 : temporarySpeed (held <| temporarySpeedTimer := None |>) = temporarySpeed held) by (rsimpl; done).
    rewrite H0, H5. rsimpl. auto. }
  destruct Hfields as (F1 & F2 & F3 & F4). split_and!; [exact F1|exact F2|exact F3|exact F4|].
  subst r'. clearbody held. rewrite Hreal, Hadv, H1, H2, H3. cbn [andb].
  rewrite bool_decide_true by eauto. rewrite (@real_now E1 held H3), H4. reflexivity.
Qed.

Lemma temporary_speed_roundtrip_witness :
  playbackSpeed (@endTemporaryPlaybackSpeed (sample_env 9000) true
    (@begin_temporary_speed (sample_env 5000) "c1" "g" playing_room)) = 1%Q.
Proof.
  destruct (temporary_speed_roundtrip (sample_env 5000) (sample_env 9000) "c1" "g" playing_room
    ltac:(reflexivity)) as (_ & -> & _). reflexivity.
Defined.

(** ** The buffer gate *)

(** When the gate may close on a playing room. *)
Definition gate_condition `{Env} (r : Room) : Prop :=
  isPlaying r = true /\ (bufferGateMode r = GatePause \/ is_solo r = true) /\
  temporarySpeed r = None /\ playbackPreparation r = None /\ is_Some (currentSource r) /\
  waitingViewers r <> [] /\
  (forall t, lastPlayAt r = Some t -> BUFFER_GATE_START_GRACE_MS <= now - t) /\
  (forall t, bufferGateCooldownUntil r = Some t -> t <= now).

Lemma release_no_gate `{Env} t r : bufferGate r = None -> releaseBufferGate t r = r.
Proof. intros H0. unfold releaseBufferGate. by rewrite H0. Qed.

Lemma evaluate_no_gate `{Env} r : bufferGate r = None ->
  (gate_condition r /\
   evaluateBufferGate r =
     pause true (r <| bufferGate := Some (MkGate now (map ru_id (waitingViewers r)) true) |>)) \/
  (~ gate_condition r /\ evaluateBufferGate r = r).
Proof.
  intros Hg. unfold evaluateBufferGate. rewrite Hg. cbv beta iota zeta.
  destruct (_ || bool_decide (currentSource r = None)) eqn:Hc.
  - right. split; [|by apply release_no_gate]. intros (H1 & H2 & H3 & H4 & H5 & _).
    rewrite !orb_true_iff, andb_true_iff, !negb_true_iff, !bool_decide_eq_true, bool_decide_eq_false in Hc.
    destruct Hc as [[[[? ?]|[? ?]]|[? ?]]|?]; [destruct H2|..]; try congruence.
    destruct H5; congruence.
  - rewrite !orb_false_iff, andb_false_iff, !negb_false_iff, !bool_decide_eq_false, bool_decide_eq_true in Hc.
    destruct Hc as (((Hm & Ht) & Hp) & Hs).
    apply eq_None_not_Some in Ht, Hp. apply not_eq_None_Some in Hs.
    destruct (waitingViewers r) as [|w ws] eqn:Hw.
    { right. split; [|by apply release_no_gate]. intros (_ & _ & _ & _ & _ & H6 & _). by rewrite Hw in H6. }
    destruct (negb (isPlaying r) || _ || before _) eqn:Hn.
    + right. split; [|done]. intros (H1 & _ & _ & _ & _ & _ & H7 & H8).
      rewrite H1 in Hn. simpl in Hn. apply orb_true_iff in Hn as [Hn|Hn].
      * destruct (lastPlayAt r) as [t|]; [|done]. apply Z.ltb_lt in Hn. specialize (H7 t eq_refl). lia.
      * unfold before in Hn. destruct (bufferGateCooldownUntil r) as [t|]; [|done].
        apply Z.ltb_lt in Hn. specialize (H8 t eq_refl). lia.
    + left. rewrite <- Hw in *. split; [|done].
      rewrite !orb_false_iff, negb_false_iff in Hn. destruct Hn as ((H1 & H7) & H8).
      split_and!; try done; [by rewrite Hw|..].
      * intros t Hl. rewrite Hl in H7. by apply Z.ltb_ge in H7.
      * intros t Hl. unfold before in H8. rewrite Hl in H8. by apply Z.ltb_ge in H8.
Qed.

(** C6: The gate closes exactly when it should: the room plays a video in pause mode (or has a
    single viewer), no gesture and no start round is on, somebody allowed to pause is buffering
    and has not used up a solo wait, and both the two-second start grace and the cooldown have
    passed.  It then pauses the room where it stands; otherwise the room is untouched. *)
Theorem gate_closes_iff `{E : Env} (r : Room) :
  bufferGate r = None ->
  (gate_condition r <-> is_Some (bufferGate (evaluateBufferGate r))) /\
  (gate_condition r -> isPlaying (evaluateBufferGate r) = false /\
     bufferingGateHeld (evaluateBufferGate r) = true /\
     (realPlaybackPosition (evaluateBufferGate r) == realPlaybackPosition r)%Q) /\
  (~ gate_condition r -> evaluateBufferGate r = r).
Proof.
  intros Hg. destruct (evaluate_no_gate r Hg) as [[Hc Heq]|[Hc Heq]]; rewrite Heq.
  - set (r0 := r <| bufferGate := _ |>).
    assert (Hf : bufferGate (pause true r0) = bufferGate r0 /\ isPlaying (pause true r0) = false).
    { unfold pause. destruct (pauseClock_frame (cancelPlaybackPreparation r0)) as (K1 & K2 & _).
      destruct (cancel_frame r0) as (_ & _ & _ & H4 & _). by rewrite K1, K2, H4. }
    destruct Hf as [Hf1 Hf2]. unfold bufferingGateHeld. rewrite Hf1, Hf2. subst r0. rsimpl.
    split; [split; eauto|]. split; [|done]. intros _. split; [done|]. split; [done|].
    unfold pause. rewrite real_pauseClock, real_cancel, (real_view r); rsimpl; reflexivity.
  - rewrite Hg. split; [|done]. split; [done|]. by intros [? ?].
Qed.

Definition buffering (c : ClientId) : RoomStep :=
  StepRequest (UpdateUser (MkClientInfo c None None (Some StatusBuffering)) None) (as_guest c).
(** Six seconds in, a viewer stalls. *)
Definition gated_room : Room := drive [(10000, buffering "c2")] playing_room.

Lemma gate_closes_iff_witness :
  let stalled := set_user "c2" (MkRoomUser "c2" "token-c2" None "c2" None StatusBuffering) playing_room in
  gate_condition (H := sample_env 10000) stalled.
Proof.
  intros stalled. apply (gate_closes_iff (E := sample_env 10000) stalled); [reflexivity|].
  vm_compute. eauto.
Defined.

Lemma cooldown_cancel `{Env} r : bufferGateCooldownUntil (cancelPlaybackPreparation r) = bufferGateCooldownUntil r.
Proof.
  unfold cancelPlaybackPreparation. rsimpl. destruct (playbackPreparation r); rsimpl;
    destruct (resumeOnNextJoin r); rsimpl; done.
Qed.

Lemma cooldown_play `{Env} r : bufferGate r = None -> bufferGateCooldownUntil (play r) = bufferGateCooldownUntil r.
Proof.
  intros Hg. unfold play. rewrite Hg. cbv zeta. rsimpl.
  destruct (isPlaying _); unfold set_isPlaying; rsimpl; apply cooldown_cancel.
Qed.

(** The gate cannot hold a room for good: the first evaluation fifteen seconds after it
    closed releases it, playback resumes (given viewers and a video), and no evaluation in the
    next thirty seconds, whatever anyone reports, closes it again. *)
Theorem gate_times_out (E1 E2 : Env) (r r' : Room) (g : BufferGate) :
  pb_inv false r -> bufferGate r = Some g ->
  BUFFER_GATE_MAX_WAIT_MS <= @now E1 - gate_startedAt g ->
  realusers r <> [] -> is_Some (currentSource r) ->
  let released := @evaluateBufferGate E1 r in
  bufferGate released = None /\ isPlaying released = true /\
  (bufferGate r' = None -> bufferGateCooldownUntil r' = bufferGateCooldownUntil released ->
   @now E2 < @now E1 + 30000 -> @evaluateBufferGate E2 r' = r').
Proof.
  intros Hi Hg Hwait Hu Hs released.
  destruct (inv_gate _ r Hi g Hg) as (Hpl & Hpb & Hres).
  assert (Hnp : playbackPreparation r = None).
  { destruct (playbackPreparation r) as [p|] eqn:Hp; [|done].
    destruct (inv_prep _ r Hi p Hp) as (_ & ? & _). congruence. }
  assert (Hrel : released = @releaseBufferGate E1 true r).
  { subst released. unfold evaluateBufferGate. rewrite Hg. rewrite (proj2 (Z.leb_le _ _) Hwait). done. }
  assert (Hout : bufferGate released = None /\ isPlaying released = true /\
            bufferGateCooldownUntil released = Some (@now E1 + BUFFER_GATE_COOLDOWN_MS)).
  { rewrite Hrel. unfold releaseBufferGate. rewrite Hg. cbv zeta beta iota.
    match goal with |- context [gate_pausedByGate g && negb (isPlaying ?x)] => set (r0 := x) end.
    assert (H0 : bufferGate r0 = None /\ isPlaying r0 = false /\ realusers r0 = realusers r /\
      currentSource r0 = currentSource r /\ playbackPreparation r0 = None /\
      bufferGateCooldownUntil r0 = Some (@now E1 + BUFFER_GATE_COOLDOWN_MS)).
    { subst r0. match goal with |- context [if ?c then _ else _] => destruct c end; rsimpl; auto 10. }
    clearbody r0. destruct H0 as (F1 & F2 & F3 & F4 & F5 & F6).
    rewrite Hpb, F2, F3, F4, F5. rewrite bool_decide_false by done. rewrite bool_decide_true by done.
    rewrite bool_decide_true by done. cbn [andb negb].
    destruct (@play_frame E1 r0) as (P1 & P2 & _). rewrite P1, P2, cooldown_play by done. done. }
  destruct Hout as (O1 & O2 & O3). split; [done|]. split; [done|].
  intros Hg' Hc' Hlt. destruct (@evaluate_no_gate E2 r' Hg') as [[Hc _]|[_ Heq]]; [|done].
  exfalso. destruct Hc as (_ & _ & _ & _ & _ & _ & _ & Hcool).
  specialize (Hcool (@now E1 + BUFFER_GATE_COOLDOWN_MS)). rewrite Hc', O3 in Hcool.
  specialize (Hcool eq_refl). unfold BUFFER_GATE_COOLDOWN_MS in Hcool. lia.
Qed.

Lemma pb_gated : pb_inv false gated_room.
Proof.
  assert (H : pb_inv (never_restored sample_room) gated_room).
  { apply (stable_reachable _ sample_room); [intros; apply pb_stable|apply (pb_construct (E := sample_env 0))|].
    repeat apply drive_reachable. apply reach_refl. }
  destruct H. by split.
Qed.

Lemma gate_times_out_witness :
  is_Some (bufferGate gated_room) /\
  bufferGate (@evaluateBufferGate (sample_env 25000) gated_room) = None.
Proof.
  destruct (bufferGate gated_room) as [g|] eqn:Hg; [|vm_compute in Hg; discriminate].
  assert (Hs : gate_startedAt g = 10000) by (vm_compute in Hg; by injection Hg as <-).
  split; [eauto|].
  apply (gate_times_out (sample_env 25000) (sample_env 25000) gated_room gated_room g pb_gated Hg).
  - rewrite Hs. vm_compute. discriminate.
  - vm_compute. discriminate.
  - vm_compute. eauto.
Defined.

(** ** The start handshake *)

(** Who is in the room and what they may do. *)
Definition who_view (r : Room) := (realusers r, grants r, owner r, userRoles r).

Section Round.
Context `{E : Env}.
Implicit Types (r : Room) (p : PlaybackPreparation).

Lemma may_play_view r r' c : who_view r = who_view r' -> may_play r c = may_play r' c.
Proof.
  unfold who_view. intros Hv. injection Hv as H1 H2 H3 H4.
  unfold may_play, getUser, getRole, isOwner, roleOf. by rewrite H1, H2, H3, H4.
Qed.

Lemma eligible_view r r' p : who_view r = who_view r' -> playbackEligibleIds r p = playbackEligibleIds r' p.
Proof.
  intros Hv. unfold playbackEligibleIds. apply filter_ext. intros c. by apply may_play_view.
Qed.

Lemma filter_idem {A} (f : A -> bool) l : List.filter f (List.filter f l) = List.filter f l.
Proof.
  induction l as [|x l IH]; simpl; [done|]. destruct (f x) eqn:Hf; simpl; [|done]. by rewrite Hf, IH.
Qed.

(** What a held round leaves alone. *)
Definition still_view (r : Room) :=
  (who_view r, currentSource r, temporarySpeed r, bufferGate r, playbackSpeed r, isPlaying r).

Lemma still_fields r r' : still_view r = still_view r' ->
  who_view r = who_view r' /\ currentSource r = currentSource r' /\ temporarySpeed r = temporarySpeed r'
  /\ playbackSpeed r = playbackSpeed r' /\ isPlaying r = isPlaying r' /\ bufferGate r = bufferGate r'.
Proof. unfold still_view. intros Hv. split_and!; congruence. Qed.

(** With somebody who may play, [refreshPlaybackPreparation] keeps the round. *)
Lemma refresh_spec r p :
  playbackPreparation r = Some p -> eligiblePreparers r <> [] ->
  exists p1, playbackPreparation (refreshPlaybackPreparation r) = Some p1 /\
    prep_startAt p1 = prep_startAt p /\ prep_deadlineAt p1 = prep_deadlineAt p /\
    prep_hardDeadlineAt p1 = prep_hardDeadlineAt p /\ prep_eligible p1 = playbackEligibleIds r p /\
    prep_position p1 = prep_position p /\
    still_view (refreshPlaybackPreparation r) = still_view r.
Proof.
  intros Hp He. unfold refreshPlaybackPreparation. rewrite Hp. cbv zeta.
  destruct (decide (playbackEligibleIds r p = prep_eligible p)) as [Heq|Hne];
    [rewrite Hp; eauto 10|].
  destruct (playbackEligibleIds r p) as [|c cs] eqn:Hel.
  - rewrite bool_decide_false by done.
    eexists. unfold still_view, who_view. rsimpl. split_and!; reflexivity.
  - eexists. unfold still_view, who_view. rsimpl. split_and!; reflexivity.
Qed.

(** Playback of the round [p] has begun at the instant [t]. *)
Record begun (t : Z) p r (q : Room) : Prop := {
  bn_playing : isPlaying q = true;
  bn_over : playbackPreparation q = None;
  bn_start : playbackStart q = Some t;
  bn_position : playbackPosition q = prep_position p;
  bn_source : currentSource q = currentSource r;
  bn_speed : playbackSpeed q = playbackSpeed r;
  bn_temporary : temporarySpeed q = temporarySpeed r;
}.

Lemma start_begins r p t :
  playbackPreparation r = Some p -> prep_startAt p = Some t -> t <= now + 50 ->
  begun t p r (startPreparedPlayback r).
Proof.
  intros Hp Hs Ht. unfold startPreparedPlayback. rewrite Hp, Hs, (proj2 (Z.ltb_ge _ _)) by lia.
  unfold set_isPlaying. split; rsimpl; done.
Qed.

Lemma begun_same t p p' r r' q : prep_position p' = prep_position p -> still_view r' = still_view r ->
  begun t p' r' q -> begun t p r q.
Proof. intros Hp (_ & ? & ? & ? & _)%still_fields [? ? ? ? ? ? ?]. split; congruence. Qed.

(** What scheduling does: an immediate start, or one at a known instant. *)
Lemma schedule_spec f r p :
  playbackPreparation r = Some p -> prep_startAt p = None ->
  begun now p r (schedulePlaybackStart f r) \/
  exists p1, playbackPreparation (schedulePlaybackStart f r) = Some p1 /\
    prep_startAt p1 = Some (now + PLAYBACK_START_LEAD_MS) /\ prep_eligible p1 = prep_eligible p /\
    prep_position p1 = prep_position p /\
    playbackStartTimer (schedulePlaybackStart f r) = Some (now + PLAYBACK_START_LEAD_MS) /\
    still_view (schedulePlaybackStart f r) = still_view r.
Proof.
  intros Hp Hs. unfold schedulePlaybackStart. rewrite Hp, Hs. cbv zeta.
  destruct (_ <=? 1)%nat.
  - left. match goal with |- begun _ _ _ (startPreparedPlayback ?x) => set (r1 := x) end.
    assert (H1 : exists p1, playbackPreparation r1 = Some p1 /\ prep_startAt p1 = Some now /\
              prep_position p1 = prep_position p /\ still_view r1 = still_view r).
    { subst r1. eexists. unfold still_view, who_view. rsimpl. split_and!; reflexivity. }
    clearbody r1. destruct H1 as (p1 & Hp1 & Hs1 & Hq1 & Hv1). eapply begun_same; [exact Hq1|exact Hv1|].
    apply start_begins; [done..|lia].
  - right. eexists. unfold still_view, who_view. rsimpl. split_and!; reflexivity.
Qed.

(** The start is fixed at [t], with everyone eligible still allowed to play. *)
Record scheduled (t : Z) p r (q : Room) : Prop := {
  sd_round : exists p1, playbackPreparation q = Some p1 /\ prep_startAt p1 = Some t
    /\ prep_position p1 = prep_position p /\ playbackEligibleIds q p1 = prep_eligible p1;
  sd_timer : playbackStartTimer q = Some t;
  sd_still : still_view q = still_view r;
}.

(** The part of a tick that looks at the round, once its deadlines have passed. *)
Lemma tick_round r p :
  playbackPreparation r = Some p -> prep_startAt p = None -> prep_deadlineAt p <= now -> prep_hardDeadlineAt p <= now ->
  eligiblePreparers r <> [] ->
  begun now p r (tick_preparation r) \/ scheduled (now + PLAYBACK_START_LEAD_MS) p r (tick_preparation r).
Proof.
  intros Hp Hs Hd Hh He.
  destruct (refresh_spec r p Hp He) as (p1 & Hp1 & Hs1 & Hd1 & Hh1 & He1 & Hq1 & Hv1).
  assert (Htick : exists f, tick_preparation r = tick_due_start (schedulePlaybackStart f (refreshPlaybackPreparation r))).
  { unfold tick_preparation. rewrite Hp. unfold tick_deadlines. rewrite Hp1, Hs1, Hs, Hd1, Hh1.
    destruct (allEligibleReady _ p1); [by eexists|].
    rewrite (proj2 (Z.leb_le _ _) Hd), (proj2 (Z.leb_le _ _) Hh).
    destruct (_ <? _)%nat; by eexists. }
  destruct Htick as [f ->]. rewrite Hs in Hs1.
  destruct (schedule_spec f _ p1 Hp1 Hs1) as [Hb|(p2 & Hp2 & Hs2 & He2 & Hq2 & Ht2 & Hv2)];
    set (q := schedulePlaybackStart f (refreshPlaybackPreparation r)) in *; clearbody q.
  - left. unfold tick_due_start. rewrite (bn_over _ _ _ _ Hb). by apply (begun_same now p p1 r (refreshPlaybackPreparation r) q).
  - right. assert (Hq : tick_due_start q = q).
    { unfold tick_due_start. rewrite Hp2. cbn [mbind option_bind]. rewrite Hs2.
      unfold PLAYBACK_START_LEAD_MS. rewrite (proj2 (Z.leb_gt _ _)) by lia. done. }
    rewrite Hq. split; [|done|congruence]. exists p2. do 2 (split; [done|]). split; [congruence|].
    unfold playbackEligibleIds. rewrite He2, He1. unfold playbackEligibleIds.
    rewrite (filter_ext (may_play q) (may_play r)); [apply filter_idem|].
    intros c. apply may_play_view. apply still_fields in Hv1 as (? & _), Hv2 as (? & _). congruence.
Qed.

(** A tick, or the timer, from the instant of the start on. *)
Lemma tick_scheduled t p r q : scheduled t p r q -> t <= now ->
  begun t p r (tick_preparation q) /\ begun t p r (fire_start_timer q).
Proof.
  intros [(p2 & Hp2 & Hs2 & Hq2 & Hel) Ht Hv] Hnow. split.
  - unfold tick_preparation. rewrite Hp2.
    assert (Href : refreshPlaybackPreparation q = q).
    { unfold refreshPlaybackPreparation. rewrite Hp2. cbv zeta. rewrite Hel. by rewrite decide_True. }
    rewrite Href. unfold tick_deadlines. rewrite Hp2, Hs2. unfold tick_due_start.
    rewrite Hp2. cbn [mbind option_bind]. rewrite Hs2. rewrite (proj2 (Z.leb_le _ _)) by exact Hnow.
    eapply begun_same; [exact Hq2|exact Hv|]. apply start_begins; [done..|lia].
  - unfold fire_start_timer. rewrite Ht. rewrite (proj2 (Z.leb_le _ _)) by exact Hnow.
    apply (begun_same t p p2 r (q <| playbackStartTimer := None |>)); [done|rewrite <- Hv; done|].
    apply start_begins; rsimpl; [done..|lia].
Qed.

(** ** The rest of the tick *)

Definition tick_rest (r : Room) : Room :=
  tick_sponsorblock (tick_order (tick_keepalive (tick_queue (tick_temporary_speed r)))).

Definition held_view (r : Room) := (still_view r, playbackPreparation r, playbackStartTimer r).

Lemma held_fields r r' : held_view r = held_view r' ->
  still_view r = still_view r' /\ playbackPreparation r = playbackPreparation r' /\ playbackStartTimer r = playbackStartTimer r'.
Proof. unfold held_view. intros Hv. split_and!; congruence. Qed.
Lemma held_playing r r' : held_view r = held_view r' -> isPlaying r = isPlaying r' /\ playbackPreparation r = playbackPreparation r'.
Proof. intros (Hw & ? & _)%held_fields. by apply still_fields in Hw as (_ & _ & _ & _ & ? & _). Qed.

Lemma scheduled_held t p r q q' : held_view q' = held_view q -> scheduled t p r q -> scheduled t p r q'.
Proof.
  intros (Hw & Hr & Htm)%held_fields [(p1 & ? & ? & ? & Hel) ? ?].
  split; [|congruence|congruence]. exists p1. do 2 (split; [congruence|]). split; [done|].
  rewrite <- Hel. apply eligible_view. by apply still_fields in Hw as (? & _).
Qed.

Lemma queue_do_held {A} (m : M VideoQueue exn A) r : held_view (queue_do m r) = held_view r.
Proof.
  unfold queue_do, queue_op. destruct (m _) as [res q]. destruct (q_dirty q); simpl snd;
    unfold held_view, still_view, who_view; rsimpl; done.
Qed.

Lemma segments_set_held l r : held_view (set_videoSegments l r) = held_view r.
Proof. done. Qed.

Lemma fetch_held r : held_view (fetchSponsorBlockSegments r) = held_view r.
Proof.
  assert (Hn : held_view (match videoSegments r with [] => r | _ => set_videoSegments [] r end) = held_view r).
  { destruct (videoSegments r); [done|apply segments_set_held]. }
  unfold fetchSponsorBlockSegments. destruct (currentSource r) as [v|]; [|exact Hn].
  destruct (decide _); [|exact Hn]. destruct (env_fetchSegments _); [apply segments_set_held|done].
Qed.

Lemma segments_held r : held_view (fetchSponsorBlockSegments (r <| wantSponsorBlock := false |>)) = held_view r.
Proof. rewrite fetch_held. unfold held_view, still_view, who_view. rsimpl. done. Qed.

Lemma pass_held r : held_view (pass_dont_skip r) = held_view r.
Proof. unfold pass_dont_skip, held_view, still_view, who_view. repeat case_match; rsimpl; done. Qed.

Lemma keepalive_held r : held_view (tick_keepalive r) = held_view r.
Proof. unfold tick_keepalive, held_view, still_view, who_view. case_match; rsimpl; done. Qed.

Lemma order_held r : held_view (tick_order r) = held_view r.
Proof. unfold tick_order. case_match; [apply queue_do_held|done]. Qed.

Lemma wanted_held r : held_view (if wantSponsorBlock r then fetchSponsorBlockSegments (r <| wantSponsorBlock := false |>) else r) = held_view r.
Proof. destruct (wantSponsorBlock r); [apply segments_held|done]. Qed.

(** A room that is held is left so. *)
Lemma tick_rest_held r : isPlaying r = false -> temporarySpeed r = None -> is_Some (currentSource r) ->
  held_view (tick_rest r) = held_view r.
Proof.
  intros Hp Ht [v Hv]. unfold tick_rest.
  assert (H1 : tick_temporary_speed r = r) by (unfold tick_temporary_speed; by rewrite Ht).
  assert (H2 : tick_queue r = r).
  { unfold tick_queue, currentEnded. rewrite Hv, Hp, bool_decide_eq_false_2 by done. done. }
  rewrite H1, H2. rewrite <- (keepalive_held r), <- (order_held (tick_keepalive r)).
  set (r1 := tick_order (tick_keepalive r)).
  assert (Hp1 : isPlaying r1 = false).
  { subst r1. pose proof (order_held (tick_keepalive r)) as Ho. rewrite keepalive_held in Ho.
    apply held_playing in Ho as [? _]. congruence. }
  clearbody r1. unfold tick_sponsorblock. destruct (_ && _); [|done]. cbv zeta.
  rewrite <- (wanted_held r1). set (r2 := if wantSponsorBlock r1 then _ else r1).
  assert (Hp2 : isPlaying r2 = false).
  { pose proof (wanted_held r1) as Hw. fold r2 in Hw. apply held_playing in Hw as [? _]. congruence. }
  clearbody r2. rewrite <- (pass_held r2).
  assert (Hp3 : isPlaying (pass_dont_skip r2) = false).
  { pose proof (pass_held r2) as Hw. apply held_playing in Hw as [? _]. congruence. }
  unfold auto_skip. rewrite Hp3. by repeat case_match.
Qed.

(** A room that plays goes on playing, unless its video has ended. *)
Lemma tick_rest_plays r : isPlaying r = true -> playbackPreparation r = None -> temporarySpeed r = None ->
  is_Some (currentSource r) -> currentEnded r = false ->
  isPlaying (tick_rest r) = true /\ playbackPreparation (tick_rest r) = None.
Proof.
  intros Hp Hr Ht [v Hv] He. unfold tick_rest.
  assert (H1 : tick_temporary_speed r = r) by (unfold tick_temporary_speed; by rewrite Ht).
  assert (H2 : tick_queue r = r).
  { unfold tick_queue. rewrite He, Hv, bool_decide_eq_false_2 by done. done. }
  rewrite H1, H2. set (r1 := tick_order (tick_keepalive r)).
  assert (Hk : forall q q', held_view q' = held_view q -> isPlaying q = true /\ playbackPreparation q = None ->
            isPlaying q' = true /\ playbackPreparation q' = None).
  { intros q q' [-> ->]%held_playing. done. }
  assert (Hr1 : isPlaying r1 = true /\ playbackPreparation r1 = None)
    by (eapply Hk; [apply order_held|]; eapply Hk; [apply keepalive_held|done]).
  clearbody r1. unfold tick_sponsorblock. destruct (_ && _); [|done]. cbv zeta.
  set (r2 := pass_dont_skip _).
  assert (Hr2 : isPlaying r2 = true /\ playbackPreparation r2 = None)
    by (eapply Hk; [apply pass_held|]; eapply Hk; [apply wanted_held|done]).
  clearbody r2. unfold auto_skip.
  destruct (videoSegments r2); [done|]. destruct (dontSkipSegmentsUntil r2); [done|]. rewrite (proj1 Hr2).
  destruct (getSegmentForTime _ r2) as [seg|]; [|done]. destruct (decide _); [|done].
  unfold seekRaw, publish, set_playbackPosition. rsimpl.
  destruct (cancel_frame r2) as (F1 & _ & F3 & _). rewrite F1, F3. by destruct Hr2.
Qed.

(** The video had a known end, and a clock that started at [t] at the round's position is past it. *)
Definition past_end (t : Z) p r : Prop :=
  exists v e, currentSource r = Some v /\ current_end v = Some e
    /\ (e < prep_position p + inject_Z (now - t) / 1000 * playbackSpeed r)%Q.

Lemma begun_goes_on t p r q : begun t p r q -> temporarySpeed r = None -> is_Some (currentSource r) ->
  (isPlaying (tick_rest q) = true /\ playbackPreparation (tick_rest q) = None) \/ past_end t p r.
Proof.
  intros [Hpl Hov Hst Hpos Hsrc Hsp Htm] Ht Hs. destruct (currentEnded q) eqn:He; [right|left].
  - unfold currentEnded in He. rewrite Hsrc in He. destruct (currentSource r) as [v|] eqn:Hv; [|done].
    apply andb_true_iff in He as [_ He]. destruct (current_end v) as [e|] eqn:Hve; [|done].
    exists v, e. do 2 (split; [done|]). unfold Qgt_bool in He. apply Qlt_bool_iff in He.
    unfold realPlaybackPosition, calcDurationFromPlaybackStart, calculateCurrentPosition in He.
    rewrite Hst, Hpl, Hpos, Hsp in He. rewrite Qplus_0_l in He. exact He.
  - apply tick_rest_plays; congruence.
Qed.

(** Without a gate, a room that is not playing goes straight to its round. *)
Lemma update_round r : bufferGate r = None -> isPlaying r = false -> update r = tick_rest (tick_preparation r).
Proof.
  intros Hg Hpl. unfold update, tick_rest. destruct (evaluate_no_gate r Hg) as [[(Hc & _) _]|[_ ->]]; [congruence|done].
Qed.

(** Before the round: nothing that goes with a playing room is there. *)
Lemma held_round b r p : pb_inv b r -> playbackPreparation r = Some p ->
  isPlaying r = false /\ temporarySpeed r = None /\ bufferGate r = None /\ is_Some (currentSource r).
Proof.
  intros Hi Hp. destruct (inv_prep _ r Hi p Hp) as (Hpl & Hres & Hv & _).
  split; [done|]. split; [by apply (pb_no_temp b)|]. split; [apply (pb_no_gate b); auto|].
  unfold same_video in Hv. by destruct (currentSource r).
Qed.
End Round.

(** C7: A held round always ends.  Take any state a room can reach in which a round is held, no
    start fixed yet, both its deadlines passed and somebody in the room who may play.  The next
    tick ends the round and starts playback at once, or fixes the start one second later and
    leaves the room waiting for it; in the second case both the start timer and the first tick
    from that instant on end the round and start playback.  (In a tick a video that is past its
    known end from the moment it starts gives way to the next one instead.) *)
Theorem round_starts_by_deadline (E0 E1 E2 : Env) (o : RoomOptions) (r : Room) (p : PlaybackPreparation) :
  reachable (@construct_room E0 o) r ->
  playbackPreparation r = Some p -> prep_startAt p = None ->
  prep_deadlineAt p <= @now E1 -> prep_hardDeadlineAt p <= @now E1 ->
  eligiblePreparers r <> [] ->
  let r1 := @update E1 r in
  let t := @now E1 + 1000 in
  ((isPlaying r1 = true /\ playbackPreparation r1 = None) \/ @past_end E1 (@now E1) p r)
  \/ ((exists p1, playbackPreparation r1 = Some p1 /\ prep_startAt p1 = Some t)
      /\ isPlaying r1 = false /\ playbackStartTimer r1 = Some t
      /\ (t <= @now E2 ->
          let r2 := @update E2 r1 in
          let r2' := @fire_start_timer E2 r1 in
          ((isPlaying r2 = true /\ playbackPreparation r2 = None) \/ @past_end E2 t p r)
          /\ isPlaying r2' = true /\ playbackPreparation r2' = None)).
Proof.
  intros Hr Hp Hs Hd Hh He r1 t.
  assert (Hi : pb_inv (never_restored (@construct_room E0 o)) r).
  { revert Hr. apply stable_reachable; [intros; apply pb_stable|]. apply pb_construct. }
  destruct (held_round _ r p Hi Hp) as (Hpl & Ht & Hg & Hsrc). pose proof (@update_round E1 r Hg Hpl) as Hu.
  destruct (@tick_round E1 r p Hp Hs Hd Hh He) as [Hb|Hsch].
  - left. subst r1. rewrite Hu. by apply (@begun_goes_on E1 _ _ r).
  - right. change (@now E1 + PLAYBACK_START_LEAD_MS) with t in Hsch.
    assert (Hsch1 : scheduled t p r r1).
    { subst r1. rewrite Hu. eapply scheduled_held; [|exact Hsch].
      destruct (still_fields _ _ (sd_still _ _ _ _ Hsch)) as (_ & Hv1 & Hv2 & _ & Hv3 & _).
      apply tick_rest_held; congruence. }
    pose proof Hsch1 as [(p1 & Hp1 & Hs1 & _) Htm Hv]. apply still_fields in Hv as (_ & Hv1 & Hv2 & _ & Hv3 & Hv4).
    split; [by exists p1|]. split; [congruence|]. split; [done|]. intros Hnow r2 r2'.
    destruct (@tick_scheduled E2 t p r r1 Hsch1 Hnow) as [Hb Hb']. split; [|by destruct Hb'].
    subst r2. rewrite (@update_round E2 r1) by congruence.
    by apply (@begun_goes_on E2 t p r).
Qed.

Lemma round_starts_by_deadline_witness :
  isPlaying (@fire_start_timer (sample_env 22000) (@update (sample_env 21000) held_room)) = true.
Proof.
  destruct (playbackPreparation held_room) as [p|] eqn:Hp; [|vm_compute in Hp; discriminate].
  assert (Hd : prep_startAt p = None /\ prep_deadlineAt p = 9000 /\ prep_hardDeadlineAt p = 21000)
    by (vm_compute in Hp; injection Hp as <-; done).
  destruct Hd as (H1 & H2 & H3).
  assert (Hr : reachable sample_room held_room) by (apply drive_reachable; apply reach_refl).
  destruct (round_starts_by_deadline (sample_env 0) (sample_env 21000) (sample_env 22000) sample_options held_room p Hr Hp H1)
    as [[[Hplay _]|Hend]|(_ & _ & _ & Hstart)].
  - rewrite H2. vm_compute. discriminate.
  - rewrite H3. vm_compute. discriminate.
  - vm_compute. discriminate.
  - vm_compute in Hplay. discriminate.
  - destruct Hend as (v & e & Hv & He & Hlt). vm_compute in Hv. injection Hv as <-. vm_compute in He. injection He as <-.
    vm_compute in Hp. injection Hp as <-. vm_compute in Hlt. discriminate.
  - apply Hstart. vm_compute. discriminate.
Defined.

(** A round that has been given a start, or has started. *)
Definition under_way (r : Room) : Prop :=
  isPlaying r = true \/ is_Some (playbackPreparation r ≫= prep_startAt).

Lemma all_ready_iff r p :
  allEligibleReady r p = true <->
  playbackEligibleIds r p <> [] /\
  forall c, c ∈ playbackEligibleIds r p -> c ∈ map ready_clientId (prep_ready p).
Proof.
  unfold allEligibleReady. destruct (playbackEligibleIds r p) as [|c cs] eqn:He; [naive_solver|].
  rewrite forallb_forall. unfold is_ready. split.
  - intros H. split; [done|]. intros x Hx. apply list_elem_of_In in Hx. specialize (H x Hx).
    by apply bool_decide_eq_true in H.
  - intros [_ H] x Hx. apply bool_decide_eq_true, H. by apply list_elem_of_In.
Qed.

(** A held round never starts early.  A tick lets a round go only when every viewer still in
    it and still allowed to play has reported ready (and there is one), or the first deadline
    has passed with at least one report, or the hard deadline has passed; and a report that
    names another round, comes from outside it, or arrives when its video is no longer on or
    the room plays changes nothing at all. *)
Theorem round_never_starts_early `{E : Env} (r : Room) (p : PlaybackPreparation) :
  isPlaying r = false -> playbackPreparation r = Some p -> prep_startAt p = None ->
  (under_way (tick_preparation r) ->
   exists p1, playbackPreparation (refreshPlaybackPreparation r) = Some p1 /\
     ((playbackEligibleIds (refreshPlaybackPreparation r) p1 <> [] /\
       forall c, c ∈ playbackEligibleIds (refreshPlaybackPreparation r) p1 ->
                 c ∈ map ready_clientId (prep_ready p1)) \/
      (prep_deadlineAt p1 <= now /\ prep_ready p1 <> []) \/
      (prep_deadlineAt p1 <= now /\ prep_hardDeadlineAt p1 <= now))) /\
  (forall client status rep,
     pp_id rep <> Typed (prep_id p) \/ client ∉ playbackEligibleIds r p \/
     same_video (prep_video p) (currentSource r) = false ->
     finishPlaybackPreparation client status (Some rep) r = r).
Proof.
  intros Hpl Hp Hs. split.
  - intros Hu. unfold tick_preparation in Hu. rewrite Hp in Hu.
    assert (H0 : isPlaying (refreshPlaybackPreparation r) = false /\
      forall p1, playbackPreparation (refreshPlaybackPreparation r) = Some p1 -> prep_startAt p1 = None).
    { unfold refreshPlaybackPreparation. rewrite Hp. cbv zeta. destruct (decide _); [naive_solver|].
      destruct (playbackEligibleIds r p); [destruct (bool_decide _)|].
      - match goal with |- context [cancelPlaybackPreparation ?x] =>
          destruct (cancel_frame x) as (-> & _ & -> & _) end. rsimpl. done.
      - rsimpl. split; [done|]. by intros p1 [= <-].
      - rsimpl. split; [done|]. by intros p1 [= <-]. }
    destruct H0 as [Hpl1 Hs1]. set (r1 := refreshPlaybackPreparation r) in *. clearbody r1.
    destruct (playbackPreparation r1) as [p1|] eqn:Hp1; cycle 1.
    { exfalso. assert (H1 : tick_due_start (tick_deadlines r1) = r1).
      { unfold tick_deadlines. rewrite Hp1. unfold tick_due_start. by rewrite Hp1. }
      rewrite H1 in Hu. destruct Hu as [Hu|[t Hu]]; [congruence|]. rewrite Hp1 in Hu. done. }
    exists p1. split; [done|]. specialize (Hs1 p1 eq_refl).
    unfold tick_deadlines in Hu. rewrite Hp1, Hs1 in Hu.
    destruct (allEligibleReady r1 p1) eqn:Hall; [left; by apply all_ready_iff|right].
    assert (Hidle : forall q, isPlaying q = false -> (playbackPreparation q ≫= prep_startAt) = None ->
              ~ under_way (tick_due_start q)).
    { intros q Hq1 Hq2 [Hq|[t Hq]]; unfold tick_due_start in Hq; rewrite Hq2 in Hq; congruence. }
    assert (Hr1 : (playbackPreparation r1 ≫= prep_startAt) = None) by (by rewrite Hp1).
    destruct (_ <=? now) eqn:Hd; [apply Z.leb_le in Hd|by apply Hidle in Hu].
    destruct (_ <? _)%nat eqn:Hn.
    + left. split; [done|]. apply Nat.ltb_lt in Hn. intros He. rewrite He in Hn. simpl in Hn. lia.
    + right. destruct (prep_hardDeadlineAt p1 <=? now) eqn:Hh; [apply Z.leb_le in Hh; done|].
      exfalso. destruct (decide _); [by apply Hidle in Hu|].
      eapply Hidle; [| |exact Hu]; rsimpl; [done|]. simpl. done.
  - intros client status rep Hbad. unfold finishPlaybackPreparation. rewrite Hp.
    assert (Hb : negb (match pp_id rep with Typed i => bool_decide (i = prep_id p) | IllTyped => false end) ||
         negb (bool_decide (client ∈ playbackEligibleIds r p)) ||
         negb (same_video (prep_video p) (currentSource r)) = true).
    { rewrite !orb_true_iff, !negb_true_iff, bool_decide_eq_false. destruct Hbad as [Hid|[Hc|Hv]]; auto.
      left. left. destruct (pp_id rep) as [i|]; [|done]. apply bool_decide_eq_false. congruence. }
    rewrite Hb. done.
Qed.

Lemma round_never_starts_early_witness :
  let e := sample_env 8000 in
  ~ under_way (@tick_preparation e held_room).
Proof.
  intros e. destruct (playbackPreparation held_room) as [p|] eqn:Hp; [|vm_compute in Hp; discriminate].
  assert (Hs : prep_startAt p = None) by (vm_compute in Hp; by injection Hp as <-).
  destruct (round_never_starts_early (E := e) held_room p ltac:(reflexivity) Hp Hs) as [Hu _].
  intros Hw. destruct (Hu Hw) as (p1 & Hp1 & Hcase). vm_compute in Hp1. injection Hp1 as <-.
  destruct Hcase as [[_ Hall]|[[Hd _]|[Hd _]]].
  - match type of Hall with forall c, c ∈ ?l -> _ =>
      assert (Hin : bool_decide ("c1" ∈ l) = true) by (vm_compute; reflexivity) end.
    apply bool_decide_eq_true, Hall in Hin. cbn [map prep_ready] in Hin.
    by apply not_elem_of_nil in Hin.
  - vm_compute in Hd. by apply Hd.
  - vm_compute in Hd. by apply Hd.
Defined.

(** ** What plays next *)

Section Next.
Context `{E : Env}.
Implicit Types (r : Room).

Lemma source_play r : currentSource (play r) = currentSource r.
Proof. apply play_frame. Qed.

Lemma source_release t r : currentSource (releaseBufferGate t r) = currentSource r.
Proof. pose proof (mode_release t r) as Hm. unfold mode_view in Hm. by injection Hm. Qed.

Lemma source_prepareEmpty r : currentSource (prepareEmptyRoomPlayback r) = currentSource r.
Proof.
  unfold prepareEmptyRoomPlayback. destruct (currentSource r) eqn:Hs; [|done].
  destruct (_ || Qlt_bool _ _); [done|]. destruct (map _ _); [done|]. rsimpl. done.
Qed.

Lemma source_hold r : currentSource (holdPlaybackForPreparation r) = currentSource r.
Proof.
  unfold holdPlaybackForPreparation. rewrite source_prepareEmpty. unfold set_isPlaying. rsimpl.
  destruct (endTemp_frame true r) as (_ & _ & _ & _ & G & _). rewrite <- G.
  match goal with |- context [endTemporaryPlaybackSpeed true (?y <| playbackStart := None |>)] =>
    destruct (endTemp_frame true (y <| playbackStart := None |>)) as (_ & _ & _ & _ & -> & _) end.
  rsimpl. done.
Qed.

Lemma source_dequeue_into r : currentSource (dequeue_into_source r) = head (items (queue r)).
Proof.
  unfold dequeue_into_source. cbv zeta. unfold queue_do.
  set (r1 := (queue_op VideoQueue.dequeue r).2). clearbody r1.
  set (q := default 0%Q _). set (v := head (items (queue r))). clearbody q v.
  match goal with |- context [restoredFromStorage ?x] => set (r2 := x) end.
  assert (H2 : currentSource r2 = v).
  { subst r2. destruct (set_source_frame v r1) as (_ & _ & _ & _ & Hs & _).
    set (r0 := set_currentSource v r1) in *. clearbody r0.
    destruct (videoSegments _); rsimpl; destruct (currentSource r0) eqn:Hc; rsimpl; congruence. }
  clearbody r2. destruct (restoredFromStorage r2); [rsimpl; done|].
  destruct (canHoldPlaybackForPreparation r2); [by rewrite source_hold|].
  destruct (isPlaying r2); simpl; [done|by rewrite source_play].
Qed.

Lemma source_clear r : currentSource (clear_source r) = None.
Proof.
  unfold clear_source. destruct (currentSource r) eqn:Hs; [|done]. cbv zeta.
  match goal with |- context [set_currentSource None ?x] =>
    destruct (set_source_frame None x) as (_ & _ & _ & _ & H & _) end. exact H.
Qed.

Lemma epilogue_frame r :
  currentSource (dequeue_epilogue r) = currentSource r /\ playbackSpeed (dequeue_epilogue r) = 1%Q.
Proof.
  unfold dequeue_epilogue. cbv zeta.
  destruct (conf_sponsorblock_enabled && _ && _); rsimpl;
    destruct (currentSource r) eqn:Hs; rsimpl; try (destruct (videoSegments r); rsimpl); by rewrite ?Hs.
Qed.
End Next.

(** C8: What [dequeueNext] puts on, by queue mode.  Dj plays the same item again without its
    trim and leaves the queue alone; Loop puts the finished item, without its trim, at the
    back first; every mode but Dj then takes the head of the queue, and the speed is normal
    again.  An empty queue leaves nothing on. *)
Theorem dequeueNext_correct `{E : Env} (r : Room) :
  let untrimmed (v : QueueItem) := v <| qi_startAt := None |> <| qi_endAt := None |> in
  match currentSource r, queueMode r with
  | Some v, Dj =>
      currentSource (dequeueNext r) = Some (untrimmed v) /\
      items (queue (dequeueNext r)) = items (queue r)
  | Some v, Loop =>
      let rotated := items (queue r) ++ [untrimmed v] in
      currentSource (dequeueNext r) = head rotated /\ items (queue (dequeueNext r)) = tail rotated /\
      playbackSpeed (dequeueNext r) = 1%Q
  | _, _ =>
      currentSource (dequeueNext r) = head (items (queue r)) /\
      items (queue (dequeueNext r)) = tail (items (queue r)) /\ playbackSpeed (dequeueNext r) = 1%Q
  end.
Proof.
  intros untrimmed. change untrimmed with clearQueueItemTrim. clear untrimmed.
  pose proof (aux_dequeueNext r) as Hx. cbv zeta in Hx. unfold aux_view in Hx. injection Hx as Hq _ _ _ _ _ _ _ _.
  assert (Hsrc : match currentSource r, queueMode r with
    | Some v, Dj => currentSource (dequeueNext r) = Some (clearQueueItemTrim v)
    | Some v, Loop => currentSource (dequeueNext r) = head (items (queue r) ++ [clearQueueItemTrim v]) /\
                      playbackSpeed (dequeueNext r) = 1%Q
    | _, _ => currentSource (dequeueNext r) = head (items (queue r)) /\ playbackSpeed (dequeueNext r) = 1%Q
    end).
  { clear Hq. unfold dequeueNext. cbv zeta.
    pose proof (mode_release false r) as Hm. pose proof (aux_release false r) as Ha.
    set (r1 := releaseBufferGate false r) in *. clearbody r1.
    match goal with |- context [match currentSource ?x with Some _ => _ | None => _ end] =>
      lazymatch x with r => fail | _ => set (r2 := x) end end.
    assert (H2 : currentSource r2 = currentSource r /\ queueMode r2 = queueMode r /\
                 items (queue r2) = items (queue r)).
    { unfold mode_view in Hm. injection Hm as <- <-. unfold aux_view in Ha. injection Ha as <- _ _ _ _ _ _ _ _.
      subst r2. destruct (enableVoteSkip r1); rsimpl; done. }
    clearbody r2. destruct H2 as (<- & <- & <-).
    assert (Hend : forall x, let y := dequeue_epilogue
        match items (queue x) with [] => clear_source x | _ => dequeue_into_source x end in
        currentSource y = head (items (queue x)) /\ playbackSpeed y = 1%Q).
    { intros x y. subst y. destruct (items (queue x)) eqn:Hi;
        [destruct (epilogue_frame (clear_source x)) as [-> ->]; by rewrite source_clear|].
      destruct (epilogue_frame (dequeue_into_source x)) as [-> ->]. rewrite source_dequeue_into. by rewrite Hi. }
    destruct (currentSource r2) as [v|] eqn:Hv, (queueMode r2); cbv beta iota; try apply Hend.
    - unfold restart_current. cbv zeta.
      match goal with |- context [negb (isPlaying ?x)] => set (r3 := x) end.
      assert (H3 : currentSource r3 = Some (clearQueueItemTrim v)).
      { subst r3. destruct (set_source_frame (Some (clearQueueItemTrim v)) r2) as (_ & _ & _ & _ & Hs & _).
        rsimpl. exact Hs. }
      clearbody r3. destruct (isPlaying r3); simpl; [done|by rewrite source_play]. }
  destruct (currentSource r), (queueMode r); naive_solver.
Qed.

(** A video ends only when it can: never while it is live, never when its end is unknown or
    not a positive number, never while paused; otherwise exactly when the position passes the
    trimmed end, or the length when there is no trim. *)
Theorem ends_only_past_a_known_end `{E : Env} (r : Room) (v : QueueItem) :
  currentSource r = Some v ->
  (qi_isLive v = true -> currentEnded r = false) /\
  (isPlaying r = false -> currentEnded r = false) /\
  (qi_endAt v = None -> qi_length v = None -> currentEnded r = false) /\
  (forall e, qi_isLive v = false -> isPlaying r = true ->
     (qi_endAt v = Some (Fin e) \/ qi_endAt v = None /\ qi_length v = Some (Fin e)) -> (0 < e)%Q ->
     (currentEnded r = true <-> (e < realPlaybackPosition r)%Q)).
Proof.
  intros Hv. unfold currentEnded. rewrite Hv. unfold current_end. split_and!.
  - intros ->. by rewrite andb_false_r.
  - by intros ->.
  - intros -> ->. destruct (qi_isLive v); by rewrite andb_false_r.
  - intros e -> -> He Hpos. rewrite andb_true_l.
    assert (Hsel : match qi_endAt v with Some n => Some n | None => qi_length v end = Some (Fin e)).
    { destruct He as [->|[-> ->]]; done. }
    rewrite Hsel. rewrite (proj2 (Qlt_bool_iff 0 e) Hpos). unfold Qgt_bool. apply Qlt_bool_iff.
Qed.

Lemma ends_only_past_a_known_end_witness :
  @currentEnded (sample_env 604000) playing_room = true.
Proof.
  destruct (currentSource playing_room) as [v|] eqn:Hv; [|vm_compute in Hv; discriminate].
  assert (Hf : qi_isLive v = false /\ qi_endAt v = None /\ qi_length v = Some (Fin 600))
    by (vm_compute in Hv; injection Hv as <-; done).
  destruct Hf as (H1 & H2 & H3).
  destruct (ends_only_past_a_known_end (E := sample_env 604000) playing_room v Hv) as (_ & _ & _ & He).
  apply (He 600%Q H1 ltac:(reflexivity) (or_intror (conj H2 H3))); vm_compute; reflexivity.
Defined.

(** ** The last viewer leaves; a room comes back *)

(** When the last viewer leaves, the room pauses exactly where it stood, nothing is left
    waiting (no gate, no round, no gesture), and it remembers that it should resume precisely
    when it was playing, gated, held for a round or already due to resume, and its video can be
    prepared at all. *)
Theorem last_leave_keeps_the_place `{E : Env} (r : Room) :
  let r' := settle_empty_room r in
  isPlaying r' = false /\ bufferGate r' = None /\ playbackPreparation r' = None /\
  temporarySpeed r' = None /\ currentSource r' = currentSource r /\
  (realPlaybackPosition r' == realPlaybackPosition r)%Q /\
  resumeOnNextJoin r' =
    (isPlaying r || bufferingGateHeld r || bool_decide (is_Some (playbackPreparation r)) ||
     resumeOnNextJoin r) && canPreparePlayback r.
Proof.
  cbv zeta. unfold settle_empty_room. cbv zeta.
  set (want := isPlaying r || bufferingGateHeld r || _ || resumeOnNextJoin r). clearbody want.
  pose proof (release_gate false r) as Hg. pose proof (source_release false r) as Hs.
  pose proof (real_release false r) as Hreal.
  set (r1 := releaseBufferGate false r) in *. clearbody r1.
  destruct (pauseClock_frame r1) as (K1 & K2 & K3 & K4 & K5 & K6 & K7).
  pose proof (real_pauseClock r1) as Hreal1.
  set (r2 := pausePlaybackClock r1) in *. clearbody r2.
  destruct (cancel_frame r2) as (C1 & C2 & C3 & C4 & C5 & C6 & C7 & C8 & C9 & C10).
  pose proof (real_cancel r2) as Hreal2.
  set (r3 := cancelPlaybackPreparation r2) in *. clearbody r3.
  assert (Hcan : canPreparePlayback r3 = canPreparePlayback r) by (unfold canPreparePlayback; by rewrite C6, K5, Hs).
  rewrite Hcan. split_and!; rsimpl; try congruence.
  rewrite (real_view r3); rsimpl; try reflexivity. by rewrite Hreal2, Hreal1, Hreal.
Qed.

(** A restored room can play with a frozen clock.  The flag set when a room is loaded is
    cleared only by [play]; a round that starts leaves it set, so when that video ends the next
    item is handed over "paused" while the room still counts as playing: from that instant the
    position never moves, at any later time. *)
Theorem restored_room_clock_freezes :
  exists r : Room,
    reachable (restoreFromStorage sample_room) r /\
    isPlaying r = true /\ playbackStart r = None /\ currentSource r = Some (sample_video "v2") /\
    forall E : Env, @realPlaybackPosition E r = 0%Q.
Proof.
  exists (drive [(0, join "c1"); (10, join "c2"); (1000, play_now "v1" "c1");
            (1500, StepRequest (ReqAdd (MkAddRequest (Some (Typed (MkVideoAdd "direct" "v2" None None None))) None None))
                     (as_guest "c1"));
            (2000, prepared "c1"); (2500, prepared "c2"); (3500, StepStartTimer); (604000, StepUpdate)]
           (restoreFromStorage sample_room)).
  split; [apply drive_reachable, reach_refl|].
  match goal with |- context [drive ?l ?x] => set (r := drive l x) end.
  assert (H : isPlaying r = true /\ playbackStart r = None /\ playbackPosition r = 0%Q /\
              currentSource r = Some (sample_video "v2")) by (vm_compute; done).
  clearbody r. destruct H as (H1 & H2 & H3 & H4). split_and!; try done.
  intros E. unfold realPlaybackPosition. by rewrite H2.
Qed.
