(* ===== verification/RoomAuthority.v ===== *)
(** * RoomAuthority: who may do what

    The requests seen from the outside: what each needs before it changes anything, what
    it changes when it succeeds, and what a failure leaves. *)

From S2P Require Import Prelude Types Permissions VideoQueue RoomModel RoomPlayback RoomRequests.
From S2P Require Import RoomLifecycle RoomInvariants RoomReach RoomSamples.

(** ** Monadic steps, evaluated *)

Section Steps.
Context `{E : Env}.
Implicit Types (r : Room).

Lemma check_granted role p r : Grants.granted (grants r) role p = true -> check role p r = (inr tt, r).
Proof. intros H. unfold check, bind, get, lift_res, Grants.check. by rewrite H. Qed.

Lemma check_denied role p r : Grants.granted (grants r) role p = false ->
  check role p r = (inl (PermissionDenied p), r).
Proof. intros H. unfold check, bind, get, lift_res, Grants.check. by rewrite H. Qed.

(** A request whose permission is granted runs its handler; the check changes nothing. *)
Lemma dispatch_granted u req ctx r :
  (forall p, required_permission (request_type req) = Some p -> Grants.granted (grants r) (ctx_role ctx) p = true) ->
  dispatch u req ctx r = handle u req ctx r.
Proof.
  intros H. unfold dispatch. destruct (required_permission _) as [p|]; [|done].
  rewrite (bind_run _ _ r tt r); [done|]. apply check_granted. by apply H.
Qed.
End Steps.

(** C3: No request gets past a missing permission: when the requester's role lacks the
    permission its kind of request needs, the answer is that permission denied and the room is
    exactly as before.  The requests that choose their permission inside the handler (restoring
    or discarding the saved queue, starting a temporary speed, putting a video on) do the same. *)
Theorem permission_required `{E : Env} (req : RoomRequest) (ctx : RequestContext) (r : Room) :
  (forall p, required_permission (request_type req) = Some p ->
     Grants.granted (grants r) (ctx_role ctx) p = false ->
     processRequest req ctx r = (inl (PermissionDenied p), r)) /\
  (forall discard, req = RestoreQueueRequest discard ->
     let p := if discard then "manage-queue.remove" else "manage-queue.add" in
     Grants.granted (grants r) (ctx_role ctx) p = false ->
     processRequest req ctx r = (inl (PermissionDenied p), r)) /\
  (forall g vid c, req = TemporaryPlaybackSpeedRequest GestureStart (Typed g) vid ->
     gesture_id_ok g = true -> truthy_string (ctx_clientId ctx) = Some c -> is_Some (getUser r c) ->
     Grants.granted (grants r) (ctx_role ctx) "playback.speed" = false ->
     processRequest req ctx r = (inl (PermissionDenied "playback.speed"), r)) /\
  (forall v, req = PlayNowRequest (Typed v) -> usable_id (va_video_id v) = true ->
     same_video (va_video_id v) (currentSource r) = false ->
     let p := if isVideoInQueue (va_video_id v) r then "manage-queue.order" else "manage-queue.add" in
     Grants.granted (grants r) (ctx_role ctx) "manage-queue.play-now" = true ->
     Grants.granted (grants r) (ctx_role ctx) p = false ->
     processRequest req ctx r = (inl (PermissionDenied p), r)).
Proof.
  unfold processRequest. split_and!.
  - intros p Hp Hg. unfold dispatch. rewrite Hp. by apply bind_fail, check_denied.
  - intros d ->. cbv zeta. intros Hg. rewrite dispatch_granted by done. simpl. unfold restoreQueue.
    by apply bind_fail, check_denied.
  - intros g vid c -> Hok Hc Hu Hg. rewrite dispatch_granted by done. simpl.
    unfold setTemporaryPlaybackSpeed. rewrite Hok. change (negb true || false) with false. cbv iota.
    rewrite bind_get, Hc, bool_decide_true by done. cbn [negb]. by apply bind_fail, check_denied.
  - intros v -> Hok Hs. cbv zeta. intros Hpn Hg. rewrite dispatch_granted; [|by intros p [= <-]].
    simpl. unfold playNow, assertUsableVideoId. rewrite Hok. rewrite (bind_run _ _ r v r) by done.
    rewrite bind_get, Hs. cbv zeta. apply bind_fail.
    destruct (isVideoInQueue _ r); [by apply check_denied|]. by apply bind_fail, check_denied.
Qed.

(** The same room, where guests have lost every permission. *)
Definition muted_room : Room := (setGrants [(UnregisteredUser, 0)] (E := sample_env 0) held_room).2.

Lemma permission_required_witness :
  processRequest (E := sample_env 5000) (SeekRequest (JNumber (Fin 10))) (as_guest "c1") muted_room =
    (inl (PermissionDenied "playback.seek"), muted_room).
Proof.
  destruct (permission_required (E := sample_env 5000) (SeekRequest (JNumber (Fin 10))) (as_guest "c1") muted_room)
    as [Hseek _].
  apply (Hseek "playback.seek"); [reflexivity|vm_compute; reflexivity].
Defined.

Lemma set_role_users uid role r : realusers (set_role uid role r) = realusers r.
Proof. unfold set_role. cbv zeta. destruct (map_get role _); [destruct (_ <=? _)|]; rsimpl; done. Qed.

(** C9: Promotion.  A promotion either fails and changes nothing, or all of this held: the role
    asked for is a real one, the target is in the room and is neither a guest nor the owner,
    the requester may promote to that role, and may demote from the target's present role when
    the change is downwards.  It then moves the target's account and no other: the account
    leaves every other ranked role and, for a ranked role the room has, joins the new one. *)
Theorem promotion_authority `{E : Env} (target : ClientId) (role : num) (ctx : RequestContext) (r : Room) :
  let '(res, r') := promoteUser target role ctx r in
  (exists e, res = inl e /\ r' = r) \/
  (res = inr tt /\ exists k u, as_integer role = Some k /\ RegisteredUser <= k <= Administrator /\
     getUser r target = Some u /\ getRole r u <> Owner /\ getRole r u <> UnregisteredUser /\
     (forall p, promote_permission k = Some p -> Grants.granted (grants r) (ctx_role ctx) p = true) /\
     (k < getRole r u -> exists p, demote_permission (getRole r u) = Some p /\
                                   Grants.granted (grants r) (ctx_role ctx) p = true) /\
     (forall uid k' s, ru_user_id u = Some uid -> map_get k' (userRoles r) = Some s ->
        exists s', map_get k' (userRoles r') = Some s' /\
          (forall other, other <> uid -> (other ∈ s' <-> other ∈ s)) /\
          (TrustedUser <= k' <= Administrator -> (uid ∈ s' <-> k' = k)))).
Proof.
  destruct (promoteUser target role ctx r) as [res r'] eqn:Hrun. unfold promoteUser in Hrun.
  destruct (as_integer role) as [k|] eqn:Hk; [|by injection Hrun as <- <-; eauto].
  destruct (_ || _) eqn:Hrange; [by injection Hrun as <- <-; eauto|].
  rewrite orb_false_iff, !Z.ltb_ge in Hrange. rewrite bind_get in Hrun.
  destruct (getUser r target) as [u|] eqn:Hu; [|by injection Hrun as <- <-; eauto].
  assert (Hprom : (exists p, promote_permission k = Some p /\ Grants.granted (grants r) (ctx_role ctx) p = false) \/
    (forall p, promote_permission k = Some p -> Grants.granted (grants r) (ctx_role ctx) p = true)).
  { destruct (promote_permission k) as [p|]; [|by right].
    destruct (Grants.granted (grants r) (ctx_role ctx) p) eqn:Hg; [right; by intros ? [= <-]|left; eauto]. }
  destruct Hprom as [(p & Hp & Hg)|Hprom].
  { rewrite Hp in Hrun. rewrite (bind_fail _ _ r _ r (check_denied _ _ _ Hg)) in Hrun.
    injection Hrun as <- <-. eauto. }
  rewrite (bind_run _ _ r tt r) in Hrun; cycle 1.
  { destruct (promote_permission k) as [p|]; [|done]. by apply check_granted, Hprom. }
  cbv zeta in Hrun.
  assert (Hdem : (exists e, (if k <? getRole r u then match demote_permission (getRole r u) with
                     | Some perm => check (ctx_role ctx) perm
                     | None => throw ImpossiblePromotion end else ret tt) r = (inl e, r)) \/
    ((if k <? getRole r u then match demote_permission (getRole r u) with
                     | Some perm => check (ctx_role ctx) perm
                     | None => throw ImpossiblePromotion end else ret tt) r = (inr tt, r) /\
     (k < getRole r u -> exists p, demote_permission (getRole r u) = Some p /\
                                   Grants.granted (grants r) (ctx_role ctx) p = true))).
  { destruct (k <? getRole r u) eqn:Hlt; [|right; split; [done|]; apply Z.ltb_ge in Hlt; lia].
    destruct (demote_permission (getRole r u)) as [p|]; [|left; by eexists].
    destruct (Grants.granted (grants r) (ctx_role ctx) p) eqn:Hg; [right|left].
    - split; [by apply check_granted|eauto].
    - eexists. by apply check_denied. }
  destruct Hdem as [[e He]|[Hok Hdem]].
  { rewrite (bind_fail _ _ r e r He) in Hrun. injection Hrun as <- <-. eauto. }
  rewrite (bind_run _ _ r tt r Hok) in Hrun.
  destruct (_ || _) eqn:Hro in Hrun; [injection Hrun as <- <-; eauto|].
  rewrite orb_false_iff, !Z.eqb_neq in Hro. destruct Hro as [Hro1 Hro2].
  rewrite bind_modify in Hrun.
  set (r1 := match ru_user_id u with Some uid => set_role uid k r | None => r end) in *.
  assert (Hu1 : getUser r1 target = Some u).
  { rewrite <- Hu. subst r1. unfold getUser. destruct (ru_user_id u); [|done]. by rewrite set_role_users. }
  unfold need_info, bind, get, getUserInfo in Hrun. rewrite Hu1 in Hrun. simpl in Hrun.
  injection Hrun as <- <-. right. split; [done|]. exists k, u. split_and!; try done; [lia..|].
  intros uid k' s Huid Hs. subst r1. rewrite Huid. unfold syncUser, publish. rsimpl.
  rewrite set_role_get, Hs. eexists. split; [reflexivity|]. cbv zeta.
  split.
  - intros other Hne. clear -Hne. destruct (ranked k'), (decide (k' = k)), (TrustedUser <=? k); set_solver.
  - intros Hk'. assert (Hr : ranked k' = true) by (unfold ranked; rewrite andb_true_iff, !Z.leb_le; lia).
    rewrite Hr. destruct (decide (k' = k)) as [->|Hne].
    + rewrite (proj2 (Z.leb_le TrustedUser k)) by lia. clear. set_solver.
    + clear -Hne. set_solver.
Qed.

(** A room with a moderator, and an administrator asking. *)
Definition staff_room : Room :=
  sample_room <| userRoles := [(TrustedUser, ∅); (Moderator, {[7]}); (Administrator, {[1]})] |>
    <| realusers := [MkRoomUser "c7" "t7" (Some 7) "seven" (Some (sample_user 7)) StatusReady] |>.

(** Voting to skip.  With vote skip on, a viewer's skip request toggles that viewer's vote and
    nothing else until the votes reach half of the viewers allowed to skip, rounded up; then,
    and only then, the next item is dequeued.  With vote skip off the
    request skips at once.  Without a current item it does nothing. *)
Theorem skip_needs_the_votes `{E : Env} (ctx : RequestContext) (r : Room) (c : ClientId) (v : QueueItem) :
  truthy_string (ctx_clientId ctx) = Some c -> currentSource r = Some v ->
  let voted := toggle_skip_vote c r in
  let r' := (skip ctx r).2 in
  (enableVoteSkip r = true -> (size (votesToSkip voted) < Nat.div2 (S (eligibleVoters r)))%nat -> r' = voted) /\
  (enableVoteSkip r = true -> (Nat.div2 (S (eligibleVoters r)) <= size (votesToSkip voted))%nat ->
     currentSource r' = currentSource (dequeueNext voted) /\ queue r' = queue (dequeueNext voted) /\
     votesToSkip r' = votesToSkip (dequeueNext voted)) /\
  (enableVoteSkip r = false -> currentSource r' = currentSource (dequeueNext r) /\ queue r' = queue (dequeueNext r)) /\
  (c ∈ votesToSkip voted <-> c ∉ votesToSkip r).
Proof.
  intros Hc Hv voted r'.
  assert (Hsame : enableVoteSkip voted = enableVoteSkip r /\ eligibleVoters voted = eligibleVoters r /\
                  (c ∈ votesToSkip voted <-> c ∉ votesToSkip r)).
  { subst voted. unfold toggle_skip_vote. cbv zeta.
    destruct (decide (c ∈ votesToSkip r)); rsimpl; (split; [done|]; split; [reflexivity|]); set_solver. }
  destruct Hsame as (Hen & Hel & Hmem).
  assert (Hfin : forall (y : Room) (prev : RM unit),
    (forall z, currentSource (prev z).2 = currentSource z /\ queue (prev z).2 = queue z /\
               votesToSkip (prev z).2 = votesToSkip z) ->
    let w := (prev ;;; modify (set_videoSegments [])) y in
    currentSource w.2 = currentSource y /\ queue w.2 = queue y /\ votesToSkip w.2 = votesToSkip y).
  { intros y prev Hprev. cbv zeta. unfold bind. specialize (Hprev y). destruct (prev y) as [[e|[]] z];
      cbn [snd] in *; [done|]. unfold modify. cbn [snd]. rsimpl. done. }
  assert (Hemit : forall req add z, currentSource (emit req ctx add z).2 = currentSource z /\
     queue (emit req ctx add z).2 = queue z /\ votesToSkip (emit req ctx add z).2 = votesToSkip z).
  { intros req add z. unfold emit, modify, publishRoomEvent, record_event. cbn [snd].
    destruct (ctx_clientId ctx); [|done]. destruct (getUserInfo z _); [|done]. cbv zeta. rsimpl. done. }
  subst r'. unfold skip. rewrite bind_get, Hv, Hc.
  destruct (enableVoteSkip r) eqn:Hvs.
  - rewrite bind_modify. fold voted. rewrite bind_get, Hen, Hel. unfold voteSkipThreshold.
    split_and!; try done.
    + intros _ Hlt. rewrite (proj2 (Nat.leb_gt _ _)) by done. done.
    + intros _ Hge. rewrite (proj2 (Nat.leb_le _ _)) by done. unfold when. rewrite bind_modify.
      by apply (Hfin (dequeueNext voted)).
  - rewrite (bind_run _ _ r tt r) by done. rewrite bind_get, Hvs. unfold when. rewrite bind_modify.
    split_and!; try done. intros _. destruct (Hfin (dequeueNext r) _ (Hemit SkipRequest
      (MkEventContext (Some v) None (Some (realPlaybackPosition r)) None None))) as (H1 & H2 & _).
    by split.
Qed.

Definition voting_room : Room := held_room <| enableVoteSkip := true |> <| grants := Grants.defaultPermissions |>.

Lemma skip_needs_the_votes_witness :
  eligibleVoters voting_room = 2%nat /\
  currentSource (skip (E := sample_env 5000) (as_guest "c1") voting_room).2 =
    currentSource (dequeueNext (E := sample_env 5000) (toggle_skip_vote "c1" voting_room)).
Proof.
  split; [vm_compute; reflexivity|].
  destruct (currentSource voting_room) as [v|] eqn:Hv; [|vm_compute in Hv; discriminate].
  destruct (skip_needs_the_votes (E := sample_env 5000) (as_guest "c1") voting_room "c1" v
    ltac:(reflexivity) Hv) as (_ & H & _).
  apply H; [reflexivity|vm_compute; lia].
Defined.

(** Seeking.  A seek to a finite position between 0 and a day is carried out exactly, and a
    round being held is given up; [undefined] and [null] are ignored; any other value (negative,
    beyond a day, infinite, not a number, not a number at all) is refused and changes nothing. *)
Theorem seek_validated `{E : Env} (value : jsval) (ctx : RequestContext) (r : Room) :
  match value with
  | JUndefined | JNull => seek value ctx r = (inr tt, r)
  | JNumber (Fin q) =>
      ((0 <= q /\ q <= 86400)%Q ->
        (seek value ctx r).1 = inr tt /\
        (realPlaybackPosition (seek value ctx r).2 == q)%Q /\
        playbackPreparation (seek value ctx r).2 = None /\
        isPlaying (seek value ctx r).2 = isPlaying r) /\
      (~ (0 <= q /\ q <= 86400)%Q -> seek value ctx r = (inl (BadApiArgument "value"), r))
  | _ => seek value ctx r = (inl (BadApiArgument "value"), r)
  end.
Proof.
  destruct value as [| |[q| |]|]; try done. unfold seek.
  assert (Hrange : Qlt_bool q 0 || Qgt_bool q MAX_SEEK_SECONDS = false <-> (0 <= q /\ q <= 86400)%Q).
  { unfold Qgt_bool. rewrite orb_false_iff, !Qlt_bool_false. done. }
  split; intros Hq; cycle 1.
  { destruct (Qlt_bool q 0 || Qgt_bool q MAX_SEEK_SECONDS); [done|]. exfalso. by apply Hq, Hrange. }
  rewrite (proj2 Hrange Hq). unfold bind, gets, emit, modify. cbn [fst snd].
  set (r1 := seekRaw q r).
  assert (H1 : playbackPosition r1 = q /\ playbackStart r1 = Some now /\ playbackPreparation r1 = None /\
               isPlaying r1 = isPlaying r).
  { subst r1. unfold seekRaw. cbv zeta. destruct (cancel_frame r) as (C1 & _ & C3 & _). rsimpl. done. }
  clearbody r1. destruct H1 as (H1 & H2 & H3 & H4).
  match goal with |- context [publishRoomEvent ?a ?b ?d ?e r1] => set (r2 := publishRoomEvent a b d e r1) end.
  assert (Hv : pb_view r2 = pb_view r1) by apply view_event.
  unfold pb_view in Hv. injection Hv as _ _ V3 V4 _ _ V7 _ V9. clearbody r2.
  split; [done|]. split_and!; rsimpl; [|congruence|congruence].
  unfold realPlaybackPosition, calcDurationFromPlaybackStart, calculateCurrentPosition. rsimpl.
  rewrite V4, V7, V9, H1, H2. destruct (isPlaying r1); [|reflexivity].
  rewrite Z.sub_diag. change (inject_Z 0) with 0%Q. unfold Qdiv. ring.
Qed.

(** Kicking.  Asking to kick a client sends the kick exactly when the requester outranks the
    target: the owner kicks anybody, anyone else only a strictly lower role and never the owner.
    Nothing else in the room changes, and an unknown client is refused. *)
Theorem kick_only_downwards `{E : Env} (target : ClientId) (ctx : RequestContext) (r : Room) :
  match getUser r target with
  | None => kickUser target ctx r = (inl ClientNotFoundInRoom, r)
  | Some u =>
      let may := ctx_role ctx = Owner \/ (getRole r u < ctx_role ctx /\ getRole r u <> Owner) in
      (may -> kickUser target ctx r = (inr tt, r <| outbox ::= fun l => l ++ [CommandKick target] |>)) /\
      (~ may -> kickUser target ctx r = (inr tt, r))
  end.
Proof.
  unfold kickUser. rewrite bind_get. destruct (getUser r target) as [u|]; [|done]. cbv zeta.
  assert (Hc : canKickUser (ctx_role ctx) (getRole r u) = true <->
    ctx_role ctx = Owner \/ (getRole r u < ctx_role ctx /\ getRole r u <> Owner)).
  { unfold canKickUser. by rewrite orb_true_iff, andb_true_iff, negb_true_iff, Z.eqb_eq, Z.ltb_lt, Z.eqb_neq. }
  destruct (canKickUser _ _); split; intros H; [done| |by apply Hc in H|done].
  exfalso. by apply H, Hc.
Qed.
