(* ===== verification/RoomHistory.v ===== *)
(** * RoomHistory: undo, departures, snapshots, settings

    What the room remembers and gives back: the recent events and undo, a departure's grace
    period, the saved queue, the Redis snapshot, the background sync, and the settings. *)

From S2P Require Import Prelude Types Permissions VideoQueue Subtitles RoomModel RoomPlayback.
From S2P Require Import RoomRequests RoomLifecycle RoomInvariants RoomReach RoomSamples.
From S2P Require Import RoomAuthority.

(** ** Undo *)

(** What a client holding the event sends back. *)
Definition echo_of (ev : ServerMessageEvent) : UndoEcho :=
  MkUndoEcho (request_type (ev_request ev)) (request_video (ev_request ev)) (ec_video (ev_additional ev))
    (ec_prevPosition (ev_additional ev)) (ec_queueIdx (ev_additional ev)).

Lemma Qeq_bool_refl q : Qeq_bool q q = true.
Proof. by apply Qeq_bool_iff. Qed.

Lemma video_add_eqb_refl v : video_add_eqb v v = true.
Proof.
  unfold video_add_eqb. rewrite !bool_decide_true by done.
  by rewrite (option_eqb_refl _ _ Qeq_bool_refl), (option_eqb_refl _ _ num_eqb_refl).
Qed.

Lemma echoes_own ev : echoes (echo_of ev) ev = ev_carried ev.
Proof.
  unfold echoes, echo_of. simpl. rewrite !bool_decide_true by done.
  by rewrite (option_eqb_refl _ _ item_eqb_refl), (option_eqb_refl _ _ Qeq_bool_refl),
    (option_eqb_refl _ _ video_add_eqb_refl).
Qed.

Lemma echoes_carried e ev : echoes e ev = true -> ev_carried ev = true.
Proof. unfold echoes. by intros [_ ?]%andb_true_iff. Qed.

Lemma find_snoc {A} (f : A -> bool) l x : List.find f l = None -> f x = true -> List.find f (l ++ [x]) = Some x.
Proof. intros Hn Hx. induction l as [|y l IH]; simpl in *; [by rewrite Hx|]. destruct (f y); [done|auto]. Qed.

Lemma find_tail {A} (f : A -> bool) l : List.find f l = None -> List.find f (tail l) = None.
Proof. destruct l; [done|]. simpl. by destruct (f a). Qed.

Lemma find_none_snoc {A} (f : A -> bool) l x : List.find f l = None -> f x = false -> List.find f (l ++ [x]) = None.
Proof. intros Hn Hx. induction l as [|y l IH]; simpl in *; [by rewrite Hx|]. destruct (f y); [done|auto]. Qed.

(** An event JSON does not carry is not found. *)
Lemma find_lost ev r : ev_carried ev = false -> findRecentEvent (echo_of ev) r = None ->
  findRecentEvent (echo_of ev) (record_event ev r) = None.
Proof.
  unfold findRecentEvent, record_event. rsimpl. intros Hc Hn.
  assert (He : echoes (echo_of ev) ev = false) by by rewrite echoes_own.
  destruct (RECENT_EVENTS_LIMIT <? _)%nat; [|by apply find_none_snoc]. by apply find_tail, find_none_snoc.
Qed.

(** The newest event is found, unless an older one looks the same. *)
Lemma find_recorded ev r : ev_carried ev = true -> findRecentEvent (echo_of ev) r = None ->
  findRecentEvent (echo_of ev) (record_event ev r) = Some ev.
Proof.
  unfold findRecentEvent, record_event. rsimpl. intros Hc Hn.
  assert (He : echoes (echo_of ev) ev = true) by by rewrite echoes_own.
  destruct (RECENT_EVENTS_LIMIT <? _)%nat eqn:Hl; [|by apply find_snoc].
  destruct (recentEvents r) as [|y l] eqn:Hr; [done|]. cbn [app tail].
  apply find_snoc; [|done]. by apply (find_tail _ (y :: l)).
Qed.

Section Undo.
Context `{E : Env}.
Implicit Types (r : Room).

Lemma emit_eq req ctx add r c u :
  ctx_clientId ctx = Some c -> getUserInfo r c = Some u ->
  let ev := MkEvent (nextEventRef r) req u add (env_carried req add) in
  emit req ctx add r = (inr tt, publish (PublishEvent ev) (record_event ev r)).
Proof. intros Hc Hu. unfold emit, modify, publishRoomEvent. by rewrite Hc, Hu. Qed.

(** The event the removal of the item [v] at [i] is told with. *)
Definition removed_event r (vid : VideoId) (u : RoomUserInfo) (v : QueueItem) (i : nat) : ServerMessageEvent :=
  let add := MkEventContext (Some v) None None (Some (Z.of_nat i)) None in
  MkEvent (nextEventRef r) (RemoveRequest vid) u add (env_carried (RemoveRequest vid) add).

Lemma removeFromQueue_eq vid ctx r c u :
  ctx_clientId ctx = Some c -> getUserInfo r c = Some u ->
  VideoQueue.contains vid (queue r) = true ->
  exists i v ev r0, items (queue r) !! i = Some v /\ VideoQueue.matches vid v = true /\
    ev = removed_event r vid u v i /\
    removeFromQueue vid ctx r = (inr tt, publish (PublishEvent ev) (record_event ev r0)) /\
    items (queue r0) = splice_out i (items (queue r)) /\ recentEvents r0 = recentEvents r /\
    grants r0 = grants r.
Proof.
  intros Hc Hu Hin.
  destruct (evict_found vid (VideoQueue.clean (queue r))) as (i & v & Hi & Hv & Hm & Hev); [done|].
  unfold removeFromQueue, bind, gets. rewrite Hin. cbn [negb].
  unfold queue_op. rewrite Hev. cbn [q_dirty snd fst].
  match goal with |- context [modify _ (markDirty PQueue ?x)] => set (r1 := markDirty PQueue x) end.
  unfold modify at 1. cbn [snd fst].
  match goal with |- context [emit _ _ _ ?x] => set (r2 := x) end.
  assert (H2 : getUserInfo r2 c = Some u /\ items (queue r2) = splice_out i (items (queue r)) /\
    recentEvents r2 = recentEvents r /\ grants r2 = grants r /\ nextEventRef r2 = nextEventRef r).
  { assert (Hw : realusers r2 = realusers r /\ grants r2 = grants r /\ owner r2 = owner r /\
      userRoles r2 = userRoles r /\ items (queue r2) = splice_out i (items (queue r)) /\
      recentEvents r2 = recentEvents r /\ nextEventRef r2 = nextEventRef r) by (subst r2 r1; rsimpl; done).
    destruct Hw as (W1 & W2 & W3 & W4 & W5 & W6 & W7). split_and!; done. }
  clearbody r2. destruct H2 as (H2 & H3 & H4 & H5 & H6).
  exists i, v, (removed_event r vid u v i), r2. unfold removed_event. rewrite <- H6.
  rewrite (emit_eq _ _ _ _ c u Hc H2). auto 10.
Qed.
End Undo.

(** C10: Undoing a removal puts the queue back as it was.  A viewer who may remove, add and order
    removes a queued video and sends back the event they got.  When JSON carries the event
    unchanged, that is, when the removed item holds no key whose value is [undefined] and no
    number that is not finite, every item is where it was; when it does not, the undo is
    refused and changes nothing.  (In both cases unless an older event in the ring looks
    exactly the same.) *)
Theorem remove_undo_roundtrip `{E : Env} (vid : VideoId) (ctx : RequestContext) (r : Room) (c : ClientId) :
  ctx_clientId ctx = Some c -> is_Some (getUser r c) ->
  Grants.granted (grants r) (ctx_role ctx) "manage-queue.remove" = true ->
  Grants.granted (grants r) (ctx_role ctx) "manage-queue.add" = true ->
  Grants.granted (grants r) (ctx_role ctx) "manage-queue.order" = true ->
  (length (items (queue r)) <= MAX_QUEUE_ITEMS)%nat ->
  VideoQueue.contains vid (queue r) = true ->
  let removed := processRequest (RemoveRequest vid) ctx r in
  exists i v u, items (queue r) !! i = Some v /\ VideoQueue.matches vid v = true /\
    let ev := removed_event r vid u v i in
    removed.1 = inr tt /\ items (queue removed.2) = splice_out i (items (queue r)) /\
    ev ∈ recentEvents removed.2 /\
    (findRecentEvent (echo_of ev) r = None ->
     let undone := processRequest (UndoRequest (Some (echo_of ev))) ctx removed.2 in
     if env_carried (RemoveRequest vid) (ev_additional ev)
     then undone.1 = inr tt /\ items (queue undone.2) = items (queue r)
     else undone = (inl UndoEventUnavailable, removed.2)).
Proof.
  intros Hc [u0 Hu0] Hrm Hadd Hord Hlen Hin.
  destruct (removeFromQueue_eq vid ctx r c (userInfo r u0)) as (i & v & ev & r0 & Hv & Hm & Hev & Hrun & Hq & Hre & Hg);
    [done|unfold getUserInfo; by rewrite Hu0|done|].
  assert (Hp : processRequest (RemoveRequest vid) ctx r = (inr tt, publish (PublishEvent ev) (record_event ev r0))).
  { unfold processRequest. rewrite dispatch_granted; [done|]. by intros p [= <-]. }
  intros removed. subst removed. exists i, v, (userInfo r u0). split; [done|]. split; [done|]. cbv zeta.
  rewrite <- Hev, Hp. cbn [fst snd]. split; [done|].
  set (r1 := publish (PublishEvent ev) (record_event ev r0)).
  assert (Hre1 : recentEvents r1 = recentEvents (record_event ev r0)) by (subst r1; rsimpl; done).
  assert (Hg1 : grants r1 = grants r) by (subst r1; unfold record_event; rsimpl; done).
  assert (Hq1 : items (queue r1) = splice_out i (items (queue r))) by (subst r1; unfold record_event; rsimpl; done).
  split; [done|]. split.
  { rewrite Hre1. unfold record_event. rsimpl.
    destruct (recentEvents r0) as [|e0 l]; [apply list_elem_of_singleton; done|].
    assert (Hin' : ev ∈ l ++ [ev]) by (apply elem_of_app; right; by apply list_elem_of_singleton).
    destruct (_ <? _)%nat; [exact Hin'|by apply list_elem_of_further]. }
  intros Hfresh. rewrite <- Hre in Hfresh || (unfold findRecentEvent in Hfresh; rewrite <- Hre in Hfresh).
  assert (Hcar : ev_carried ev = env_carried (RemoveRequest vid) (ev_additional ev)) by by rewrite Hev.
  clearbody r1. rewrite <- Hcar. unfold processRequest. rewrite dispatch_granted by done. simpl. unfold undo. rewrite bind_get.
  destruct (ev_carried ev) eqn:Hce.
  2: { assert (Hfind : findRecentEvent (echo_of ev) r1 = None)
         by (unfold findRecentEvent; rewrite Hre1; by apply find_lost).
       by rewrite Hfind. }
  assert (Hfind : findRecentEvent (echo_of ev) r1 = Some ev)
    by (unfold findRecentEvent; rewrite Hre1; by apply find_recorded).
  rewrite Hfind.
  assert (Hi : (i < length (items (queue r)))%nat) by (by apply lookup_lt_Some in Hv).
  assert (Hback : exists r2, undo_event ev ctx r1 = (inr tt, r2) /\ items (queue r2) = items (queue r)).
  { unfold undo_event, undo_remove. rewrite Hev. unfold removed_event. cbn [ev_request request_type].
    rewrite (bind_run _ _ r1 tt r1) by (apply check_granted; by rewrite Hg1).
    rewrite (bind_run _ _ r1 tt r1) by (apply check_granted; by rewrite Hg1).
    cbn [ev_additional ec_video ec_queueIdx]. unfold queue_op. rewrite insert_eq.
    assert (Hlen1 : length (items (VideoQueue.clean (queue r1))) = (length (items (queue r)) - 1)%nat).
    { change (items (VideoQueue.clean (queue r1))) with (items (queue r1)). rewrite Hq1. by apply length_splice_out. }
    rewrite Hlen1, (proj2 (Z.ltb_ge _ _)), (proj2 (Z.ltb_ge _ _)) by lia. cbn [orb].
    rewrite (proj2 (Nat.ltb_ge _ _)) by lia. rewrite Nat2Z.id. cbn [q_dirty].
    eexists. split; [reflexivity|]. rsimpl. simpl. change (items (VideoQueue.clean (queue r1))) with (items (queue r1)).
    rewrite Hq1. by apply splice_in_out. }
  destruct Hback as (r2 & Hr2 & Hq2). rewrite (bind_run _ _ r1 tt r2 Hr2). unfold modify. cbn [fst snd].
  split; [done|]. unfold consume_event. rsimpl. exact Hq2.
Qed.

Definition queued_room : Room :=
  drive [(1100, StepRequest (ReqAdd (MkAddRequest (Some (Typed (MkVideoAdd "direct" "v2" None None None))) None None)) (as_guest "c1"));
         (1200, StepRequest (ReqAdd (MkAddRequest (Some (Typed (MkVideoAdd "direct" "v3" None None None))) None None)) (as_guest "c1"))]
    (held_room <| grants := Grants.defaultPermissions |>).

Definition as_moderator : RequestContext := MkContext "c1" Moderator (Some "c1") None.

Lemma remove_undo_roundtrip_witness :
  map qi_id (items (queue queued_room)) = ["v2"; "v3"] /\
  exists ev, items (queue (processRequest (E := sample_env 1300) (UndoRequest (Some (echo_of ev))) as_moderator
    (processRequest (E := sample_env 1300) (RemoveRequest (MkVideoId "direct" "v2")) as_moderator queued_room).2).2)
    = items (queue queued_room).
Proof.
  split; [vm_compute; reflexivity|].
  assert (Hs : is_Some (getUser queued_room "c1")) by (vm_compute; eauto).
  assert (Hl : (length (items (queue queued_room)) <= MAX_QUEUE_ITEMS)%nat)
    by (apply Nat.leb_le; vm_compute; reflexivity).
  destruct (remove_undo_roundtrip (E := sample_env 1300) (MkVideoId "direct" "v2") as_moderator queued_room "c1"
    ltac:(reflexivity) Hs ltac:(vm_compute; reflexivity) ltac:(vm_compute; reflexivity)
    ltac:(vm_compute; reflexivity) Hl ltac:(vm_compute; reflexivity)) as (i & v & u & Hi & Hm & _ & _ & _ & H).
  assert (Hfresh : findRecentEvent (echo_of (removed_event (E := sample_env 1300) queued_room (MkVideoId "direct" "v2") u v i)) queued_room = None)
    by (vm_compute; reflexivity).
  exists (removed_event (E := sample_env 1300) queued_room (MkVideoId "direct" "v2") u v i).
  exact (proj2 (H Hfresh)).
Defined.

(** Undo acts only on what really happened, and once.  An echo that matches no event in the
    ring is refused and changes nothing; an undo that succeeds was for an event of the ring
    that matches the echo, and that event is no longer there to be undone again. *)
Theorem undo_only_real_events `{E : Env} (echo : option UndoEcho) (ctx : RequestContext) (r : Room) :
  (echo = None -> processRequest (UndoRequest echo) ctx r = (inl (BadApiArgument "event"), r)) /\
  (forall e, echo = Some e -> (forall ev, ev ∈ recentEvents r -> echoes e ev = false) ->
     processRequest (UndoRequest echo) ctx r = (inl UndoEventUnavailable, r)) /\
  (forall e r', echo = Some e -> processRequest (UndoRequest echo) ctx r = (inr tt, r') ->
     exists ev, ev ∈ recentEvents r /\ echoes e ev = true /\
       ev_ref ev ∉ map ev_ref (recentEvents r')).
Proof.
  assert (Hp : processRequest (UndoRequest echo) ctx r = undo echo ctx r)
    by (unfold processRequest; by rewrite dispatch_granted).
  rewrite Hp. clear Hp. split_and!.
  - by intros ->.
  - intros e -> Hno. unfold undo. rewrite bind_get.
    destruct (findRecentEvent e r) as [ev|] eqn:Hf; [|done].
    unfold findRecentEvent in Hf. apply find_some in Hf as [Hin He]. apply list_elem_of_In in Hin.
    rewrite Hno in He by done. done.
  - intros e r' -> Hrun. unfold undo in Hrun. rewrite bind_get in Hrun.
    destruct (findRecentEvent e r) as [ev|] eqn:Hf; [|done].
    unfold findRecentEvent in Hf. apply find_some in Hf as [Hin He]. apply list_elem_of_In in Hin.
    exists ev. split; [done|]. split; [done|]. unfold bind in Hrun.
    destruct (undo_event ev ctx r) as [[err|[]] r2]; [done|]. unfold modify in Hrun. injection Hrun as <-.
    unfold consume_event. rsimpl. intros Hbad. apply list_elem_of_fmap in Hbad as (x & Href & Hx).
    apply list_elem_of_In, filter_In in Hx as [_ Hx]. apply negb_true_iff, Z.eqb_neq in Hx. congruence.
Qed.

Definition forged : UndoEcho := MkUndoEcho TSkip None (Some (sample_video "secret")) (Some 0%Q) None.

Lemma undo_only_real_events_witness :
  processRequest (E := sample_env 1300) (UndoRequest (Some forged)) (as_guest "c1") queued_room =
    (inl UndoEventUnavailable, queued_room).
Proof.
  destruct (undo_only_real_events (E := sample_env 1300) (Some forged) (as_guest "c1") queued_room) as (_ & H & _).
  apply (H forged eq_refl). intros ev Hin.
  assert (Hall : forallb (fun ev => negb (echoes forged ev)) (recentEvents queued_room) = true)
    by (vm_compute; reflexivity).
  revert Hin Hall. generalize (recentEvents queued_room). intros l Hin Hall.
  rewrite forallb_forall in Hall. apply negb_true_iff, Hall. by apply list_elem_of_In.
Defined.

(** ** Leaving and coming back *)

(** A reconnect within the grace period is silent.  A session's last client leaving announces
    nothing yet; if the session is back before five seconds are up, the departure is forgotten,
    the join is not announced either, and the timer finds nothing; if it is not, the timer does
    nothing before the five seconds and announces the departure exactly once after them. *)
Theorem quick_rejoin_is_silent (E1 E2 E3 : Env) (ctx : RequestContext) (user : RoomUserInfo) (t c : string) (r : Room) :
  t <> "" -> ctx_clientId ctx = Some c -> sessionInRoom r t (ctx_clientId ctx) = false ->
  let left := @publishLeaveEvent E1 ctx user (Some t) r in
  outbox left = outbox r /\
  (forall info rc ctx', let back := announce_join info rc ctx' t left in
     outbox back = outbox r /\ @fire_leave_timer E3 t back = back) /\
  (@now E2 < @now E1 + 5000 -> @fire_leave_timer E2 t left = left) /\
  (@now E1 + 5000 <= @now E2 -> sessionInRoom r t None = false ->
     let gone := @fire_leave_timer E2 t left in
     (exists ev, outbox gone = outbox r ++ [PublishEvent ev] /\ ev_user ev = user /\ ev_request ev = LeaveRequest) /\
     @fire_leave_timer E3 t gone = gone).
Proof.
  intros Ht Hc Hs left.
  assert (Hl : left = r <| pendingLeaveEvents ::= map_set t (MkPendingLeave (@now E1 + LEAVE_EVENT_GRACE_MS) ctx user) |>).
  { subst left. unfold publishLeaveEvent, truthy_string. rewrite bool_decide_false by done. by rewrite Hs. }
  assert (Hp : map_get t (pendingLeaveEvents left) = Some (MkPendingLeave (@now E1 + LEAVE_EVENT_GRACE_MS) ctx user))
    by (rewrite Hl; rsimpl; apply map_get_set_eq).
  assert (Ho : outbox left = outbox r) by (rewrite Hl; rsimpl; done).
  assert (Hu : realusers left = realusers r) by (rewrite Hl; rsimpl; done).
  clearbody left. clear Hl. split_and!; [done|..].
  - intros info rc ctx'. cbv zeta. unfold announce_join, noteJoin. rewrite Hp. rsimpl. split; [done|].
    unfold fire_leave_timer. rsimpl. by rewrite map_get_delete_eq.
  - intros Hlt. unfold fire_leave_timer. rewrite Hp. cbn [pl_dueAt]. unfold LEAVE_EVENT_GRACE_MS.
    by rewrite (proj2 (Z.leb_gt _ _)) by lia.
  - intros Hle Hgone. cbv zeta.
    set (r1 := left <| pendingLeaveEvents ::= map_delete t |>).
    assert (H1 : sessionInRoom r1 t None = false /\ outbox r1 = outbox r /\ map_get t (pendingLeaveEvents r1) = None).
    { subst r1. unfold sessionInRoom in *. rsimpl. rewrite Hu. split_and!; [done|done|apply map_get_delete_eq]. }
    destruct H1 as (H1 & H2 & H3).
    assert (Hfire : exists ev, ev_user ev = user /\ ev_request ev = LeaveRequest /\
              @fire_leave_timer E2 t left = publish (PublishEvent ev) (record_event ev r1)).
    { unfold fire_leave_timer. rewrite Hp. cbn [pl_dueAt pl_context pl_user].
      unfold LEAVE_EVENT_GRACE_MS. rewrite (proj2 (Z.leb_le _ _)) by lia. cbv zeta. fold r1. rewrite H1.
      unfold publishRoomEvent. rewrite Hc. eexists. split_and!; [| |reflexivity]; done. }
    destruct Hfire as (ev & Hev1 & Hev2 & ->). clearbody r1. unfold publish, record_event. split.
    + exists ev. rsimpl. by rewrite H2.
    + unfold fire_leave_timer. rsimpl. by rewrite H3.
Qed.

Lemma quick_rejoin_is_silent_witness :
  outbox (publishLeaveEvent (E := sample_env 5000) (as_guest "c2")
    (MkRoomUserInfo "c2" "c2" false StatusReady 0) (Some "token-c2") held_room) = outbox held_room.
Proof.
  destruct (quick_rejoin_is_silent (sample_env 5000) (sample_env 11000) (sample_env 12000) (as_guest "c2")
    (MkRoomUserInfo "c2" "c2" false StatusReady 0) "token-c2" "c2" held_room
    ltac:(discriminate) ltac:(reflexivity) ltac:(vm_compute; reflexivity)) as [H _].
  exact H.
Defined.

(** ** Snapshots *)

(** Where a room loaded from the snapshot stands at instant [t]: the stored fields, read as
    the constructor reads them. *)
Definition stored_position (t : Z) (s : StoredRoom) : Q :=
  match st_playbackStart s with
  | Some start => if st_isPlaying s
                  then (st_playbackPosition s + inject_Z (t - start) / 1000 * st_playbackSpeed s)%Q
                  else st_playbackPosition s
  | None => st_playbackPosition s
  end.

(** The snapshot tells the truth without the transient.  It stands, at the instant it is
    taken, where the room stands; its speed is the room's own, a gesture's undone; a room paused
    by the buffer gate is stored as one that should resume; of the owner's account only the id
    is stored. *)
Theorem snapshot_faithful `{E : Env} (r : Room) :
  let s := serializeState r in
  (stored_position now s == realPlaybackPosition r)%Q /\
  st_playbackSpeed s = match temporarySpeed r with Some t => ts_previousSpeed t | None => playbackSpeed r end /\
  st_resumeOnNextJoin s = bufferingGateHeld r || resumeOnNextJoin r /\
  st_isPlaying s = isPlaying r /\ st_queue s = items (queue r) /\ st_currentSource s = currentSource r /\
  (forall o, owner r = Some o -> st_owner s = Some (MkUser (user_id o) "" None None None None)).
Proof.
  cbv zeta. unfold serializeState. cbv zeta.
  assert (H0 : exists s0, s0 = (if bufferingGateHeld r then (pick_storable r) <| st_resumeOnNextJoin := true |>
                                else pick_storable r) /\
    st_resumeOnNextJoin s0 = bufferingGateHeld r || resumeOnNextJoin r /\
    st_isPlaying s0 = isPlaying r /\ st_queue s0 = items (queue r) /\ st_currentSource s0 = currentSource r /\
    st_owner s0 = owner r /\ st_playbackPosition s0 = playbackPosition r /\ st_playbackSpeed s0 = playbackSpeed r /\
    st_playbackStart s0 = playbackStart r).
  { eexists. split; [reflexivity|]. by destruct (bufferingGateHeld r). }
  destruct H0 as (s0 & <- & H1 & H2 & H3 & H4 & H5 & H6 & H7 & H8).
  destruct (temporarySpeed r) as [t|]; simpl; rewrite ?H1, ?H2, ?H3, ?H4, ?H5; split_and!; try done;
    try (by intros o ->).
  - unfold stored_position. simpl. rewrite H2. destruct (isPlaying r) eqn:Hp; [|reflexivity].
    rewrite Z.sub_diag. change (inject_Z 0) with 0%Q. unfold Qdiv. ring.
  - unfold stored_position. simpl. rewrite H2, H6, H7, H8.
    unfold realPlaybackPosition, calcDurationFromPlaybackStart, calculateCurrentPosition.
    destruct (playbackStart r); [|reflexivity]. destruct (isPlaying r); [|reflexivity]. ring.
Qed.

(** A queue can be too full to come back.  A room unloaded with a full queue and something on
    saves one item more than the cap, and then no request, by anyone, into any room that offers
    that saved queue, can restore it: the answer is always "queue", and nothing changes. *)
Theorem full_queue_cannot_be_restored `{E : Env} (r fresh : Room) (ctx : RequestContext) :
  is_Some (currentSource r) -> length (items (queue r)) = MAX_QUEUE_ITEMS ->
  prevQueue fresh = queueSnapshot r ->
  Grants.granted (grants fresh) (ctx_role ctx) "manage-queue.add" = true ->
  processRequest (RestoreQueueRequest false) ctx fresh = (inl (BadApiArgument "queue"), fresh).
Proof.
  intros [v Hv] Hlen Hprev Hg. unfold processRequest. rewrite dispatch_granted by done. simpl.
  unfold restoreQueue. rewrite (bind_run _ _ fresh tt fresh) by by apply check_granted.
  rewrite bind_get, Hprev. unfold queueSnapshot. rewrite Hv. cbn [length].
  rewrite (proj2 (Nat.ltb_lt _ _)); [done|]. rewrite Hlen. lia.
Qed.

Lemma full_queue_cannot_be_restored_witness :
  let full := playing_room <| queue := MkVideoQueue (repeat (sample_video "v") 200) false |> in
  let fresh := sample_room <| prevQueue := queueSnapshot (E := sample_env 6000) full |> in
  (processRequest (E := sample_env 6000) (RestoreQueueRequest false) (as_guest "c1") fresh).1 =
    inl (BadApiArgument "queue").
Proof.
  intros full fresh.
  rewrite (full_queue_cannot_be_restored (E := sample_env 6000) full fresh (as_guest "c1"));
    [reflexivity|vm_compute; eauto|reflexivity|reflexivity|vm_compute; reflexivity].
Defined.

(** ** Background synchronisation *)

Lemma set_add_elem {A} `{EqDecision A} (x y : A) l : x ∈ set_add y l <-> x = y \/ x ∈ l.
Proof. unfold set_add. case_decide; set_solver. Qed.

Lemma fold_set_add_elem (l acc : list Prop_) (x : Prop_) :
  x ∈ fold_left (fun acc p => set_add p acc) l acc <-> x ∈ l \/ x ∈ acc.
Proof.
  revert acc. induction l as [|y l IH]; intros acc; simpl; [set_solver|].
  rewrite IH, set_add_elem. set_solver.
Qed.

(** Nothing dirty is lost.  A sync of a clean room does nothing; otherwise it sends one
    message with exactly the dirty properties, as they are at that instant.  If the
    permanent state cannot be stored, the sync fails and the same properties are dirty again,
    to be retried; if it can, none is left. *)
Theorem sync_loses_nothing `{E : Env} (r : Room) :
  let '(res, r') := sync r in
  (dirty r = [] -> res = inr tt /\ r' = r) /\
  (dirty r <> [] -> outbox r' = outbox r ++ [PublishSync (MkSync (pick_state (realPlaybackPosition r) (dirty r) r))] /\
     (res = inr tt -> dirty r' = []) /\
     (forall e, res = inl e -> isTemporary r = false /\ env_storageOk = false /\
        forall p, p ∈ dirty r' <-> p ∈ dirty r) /\
     (isTemporary r = true -> res = inr tt) /\ (env_storageOk = true -> res = inr tt)).
Proof.
  unfold sync. rewrite bind_get. destruct (dirty r) as [|p l] eqn:Hd; [done|].
  rewrite !bind_modify.
  match goal with |- context [publish ?e (cleanDirty r)] => set (msg := e); set (r1 := publish msg (cleanDirty r)) end.
  assert (H1 : outbox r1 = outbox r ++ [PublishSync (MkSync (pick_state (realPlaybackPosition r) (p :: l) r))] /\ dirty r1 = []).
  { subst r1 msg. unfold cleanDirty. rsimpl. done. }
  destruct H1 as [H1 H2]. clearbody r1.
  destruct (negb (isTemporary r) && _ && _) eqn:Hf.
  - rewrite bind_modify. cbn [throw]. rewrite !andb_true_iff, !negb_true_iff in Hf. destruct Hf as ((Ht & _) & Hs).
    split; [done|]. intros _. rsimpl. split_and!; try congruence; try done.
    intros e _. split; [done|]. split; [done|]. intros x. rewrite H2. rewrite fold_set_add_elem. set_solver.
  - split; [done|]. intros _. by split_and!.
Qed.

(** ** Settings *)

Section Settings.
Context `{E : Env}.
Implicit Types (r : Room).

Lemma mapM_check_all {A} (f : A -> RM unit) l r :
  (forall x, x ∈ l -> f x r = (inr tt, r)) -> mapM_ f l r = (inr tt, r).
Proof.
  induction l as [|x l IH]; intros H; [done|]. simpl. rewrite (bind_run _ _ r tt r) by (apply H; set_solver).
  apply IH. intros. apply H. set_solver.
Qed.

(** One failing check, the others passing or failing too, fails the whole and changes nothing. *)
Lemma mapM_check_some {A} (f : A -> RM unit) l r :
  (forall x, x ∈ l -> f x r = (inr tt, r) \/ exists p, f x r = (inl (PermissionDenied p), r)) ->
  mapM_ f l r = (inr tt, r) \/ exists p, mapM_ f l r = (inl (PermissionDenied p), r).
Proof.
  induction l as [|x l IH]; intros H; [by left|]. simpl.
  destruct (H x) as [Hx|[p Hx]]; [set_solver| |right; exists p; by apply bind_fail].
  rewrite (bind_run _ _ r tt r Hx). apply IH. intros. apply H. set_solver.
Qed.

Lemma mapM_check_denied {A} (f : A -> RM unit) l x r :
  (forall y, y ∈ l -> f y r = (inr tt, r) \/ exists p, f y r = (inl (PermissionDenied p), r)) ->
  x ∈ l -> (exists p, f x r = (inl (PermissionDenied p), r)) ->
  exists p, mapM_ f l r = (inl (PermissionDenied p), r).
Proof.
  intros H Hin [p Hx]. induction l as [|y l IH]; [set_solver|]. simpl.
  destruct (H y) as [Hy|[q Hy]]; [set_solver| |exists q; by apply bind_fail].
  rewrite (bind_run _ _ r tt r Hy). apply elem_of_cons in Hin as [->|Hin]; [congruence|].
  apply IH; [|done]. intros. apply H. set_solver.
Qed.

Lemma check_either role p r : check role p r = (inr tt, r) \/ exists q, check role p r = (inl (PermissionDenied q), r).
Proof.
  destruct (Grants.granted (grants r) role p) eqn:Hg; [left; by apply check_granted|right].
  eexists. by apply check_denied.
Qed.

Lemma check_setting_either role s r :
  check_setting role s r = (inr tt, r) \/ exists q, check_setting role s r = (inl (PermissionDenied q), r).
Proof. unfold check_setting. destruct (setting_permission s); [apply check_either|by left]. Qed.

Lemma check_grants_either role s r :
  check_grants role s r = (inr tt, r) \/ exists q, check_grants role s r = (inl (PermissionDenied q), r).
Proof.
  unfold check_grants. destruct s; try by left. apply mapM_check_some.
  intros x _. destruct (role_permission x); [apply check_either|by left].
Qed.
End Settings.

(** Settings need their permissions, and only the changes do.  A request that changes a
    setting without the permission for it, or the grants of a role without the permission for
    that role, is refused whole: no other setting of the request is applied.  A request that
    changes nothing needs no permission, and does nothing but look at the buffer gate again. *)
Theorem settings_need_permission `{E : Env} (l : list SettingUpdate) (ctx : RequestContext) (r : Room) :
  (forall s p, s ∈ l -> (forall g, s <> SGrants g) -> setting_unchanged r s = false ->
     setting_permission s = Some p -> Grants.granted (grants r) (ctx_role ctx) p = false ->
     exists q, processRequest (ApplySettingsRequest l) ctx r = (inl (PermissionDenied q), r)) /\
  (forall g role p, SGrants g ∈ l -> role ∈ Grants.getRoles (trim_grants r g) ->
     role_permission role = Some p -> Grants.granted (grants r) (ctx_role ctx) p = false ->
     exists q, processRequest (ApplySettingsRequest l) ctx r = (inl (PermissionDenied q), r)) /\
  (trim_settings r l = [] -> processRequest (ApplySettingsRequest l) ctx r = (inr tt, evaluateBufferGate r)).
Proof.
  unfold processRequest. rewrite dispatch_granted by done. simpl. unfold applySettings. rewrite bind_get. cbv zeta.
  split_and!.
  - intros s p Hin Hng Hch Hp Hg.
    assert (Htrim : s ∈ trim_settings r l).
    { unfold trim_settings. apply list_elem_of_omap. exists s. split; [done|].
      destruct s; try (by rewrite Hch). exfalso. by eapply Hng. }
    destruct (mapM_check_denied (check_setting (ctx_role ctx)) (trim_settings r l) s r) as [q Hq];
      [intros; apply check_setting_either|done| |exists q; by apply bind_fail].
    unfold check_setting. rewrite Hp. exists p. by apply check_denied.
  - intros g role p Hin Hrole Hp Hg.
    assert (Htrim : SGrants (trim_grants r g) ∈ trim_settings r l).
    { unfold trim_settings. apply list_elem_of_omap. exists (SGrants g). split; [done|]. cbv zeta.
      destruct (Grants.isEmpty (trim_grants r g)) eqn:He; [|done].
      unfold Grants.isEmpty in He. apply bool_decide_eq_true in He.
      unfold Grants.getRoles in Hrole. rewrite He in Hrole. by apply not_elem_of_nil in Hrole. }
    destruct (mapM_check_some (check_setting (ctx_role ctx)) (trim_settings r l) r) as [Hok|[q Hq]];
      [intros; apply check_setting_either| |exists q; by apply bind_fail].
    rewrite (bind_run _ _ r tt r Hok).
    destruct (mapM_check_denied (check_grants (ctx_role ctx)) (trim_settings r l) (SGrants (trim_grants r g)) r) as [q Hq];
      [intros; apply check_grants_either|done| |exists q; by apply bind_fail].
    unfold check_grants. apply (mapM_check_denied _ _ role); [|done|].
    + intros x _. destruct (role_permission x); [apply check_either|by left].
    + rewrite Hp. exists p. by apply check_denied.
  - intros ->. simpl. unfold bind, ret, modify. simpl. done.
Qed.

Lemma settings_need_permission_witness :
  exists q, processRequest (E := sample_env 5000)
    (ApplySettingsRequest [SDescription "changed"; SGrants Grants.defaultPermissions]) (as_guest "c1") muted_room =
    (inl (PermissionDenied q), muted_room).
Proof.
  destruct (settings_need_permission (E := sample_env 5000)
    [SDescription "changed"; SGrants Grants.defaultPermissions] (as_guest "c1") muted_room) as [H _].
  apply (H (SDescription "changed") "configure-room.set-description");
    [by apply list_elem_of_here|done|vm_compute; reflexivity|reflexivity|vm_compute; reflexivity].
Defined.
