(* ===== verification/RoomQueueing.v ===== *)
(** * RoomQueueing: adding videos and putting one on

    The requests that fill the queue and take from it, from the check of their arguments
    to the state they leave. *)

From S2P Require Import Prelude Types Permissions VideoQueue Subtitles RoomModel RoomPlayback.
From S2P Require Import RoomRequests RoomLifecycle RoomInvariants RoomReach RoomSamples.
From S2P Require Import RoomTheorems RoomAuthority.

Section Queueing.
Context `{E : Env}.
Implicit Types (r : Room).

(** A successful queue operation, seen from the room. *)
Lemma queue_op_run {A} (m : M VideoQueue exn A) r a q :
  m (VideoQueue.clean (queue r)) = (inr a, q) ->
  exists r', queue_op m r = (inr a, r') /\ items (queue r') = items q /\ pb_view r' = pb_view r /\
    realPlaybackPosition r' = realPlaybackPosition r.
Proof.
  intros Hm. pose proof (queue_op_frame m r) as Hf. unfold queue_op in *. rewrite Hm in *.
  eexists. split; [reflexivity|]. destruct (q_dirty q); cbn [snd] in *;
    (split; [rsimpl; done|]; split; [done|]; apply real_view; rsimpl; done).
Qed.

Lemma queue_op_fail {A} (m : M VideoQueue exn A) r e :
  m (VideoQueue.clean (queue r)) = (inl e, VideoQueue.clean (queue r)) ->
  exists r', queue_op m r = (inl e, r') /\ items (queue r') = items (queue r).
Proof. intros Hm. unfold queue_op. rewrite Hm. cbn. eexists. split; [reflexivity|]. rsimpl. done. Qed.

Lemma emit_view req ctx add r :
  exists r', emit req ctx add r = (inr tt, r') /\ items (queue r') = items (queue r) /\
    pb_view r' = pb_view r /\ prevQueue r' = prevQueue r.
Proof.
  unfold emit, modify. eexists. split; [reflexivity|]. rewrite view_event.
  unfold publishRoomEvent, record_event, publish. destruct (ctx_clientId ctx); [|done].
  destruct (getUserInfo r _); [|done]. cbv zeta. rsimpl. done.
Qed.
End Queueing.

(** Adding one video.  A full queue refuses it, and so does a queue (or a player) that has it
    already; both leave the room as it was, and so does a video the extractor cannot find.
    Otherwise the video goes to the end of the queue, what plays is not disturbed, and the
    saved queue is no longer offered. *)
Theorem add_video_correct `{E : Env} (v : VideoAdd) (ctx : RequestContext) (r : Room) :
  Grants.granted (grants r) (ctx_role ctx) "manage-queue.add" = true ->
  usable_id (va_video_id v) = true -> va_subtitleUrl v = None ->
  let '(res, r') := processRequest (ReqAdd (MkAddRequest (Some (Typed v)) None None)) ctx r in
  ((MAX_QUEUE_ITEMS <= length (items (queue r)))%nat -> res = inl (BadApiArgument "queue") /\ r' = r) /\
  ((length (items (queue r)) < MAX_QUEUE_ITEMS)%nat -> isVideoInQueue (va_video_id v) r = true ->
     res = inl VideoAlreadyQueued /\ r' = r) /\
  ((length (items (queue r)) < MAX_QUEUE_ITEMS)%nat -> isVideoInQueue (va_video_id v) r = false ->
     (forall e, env_getVideoInfo (va_video_id v) = inl e -> res = inl e /\ r' = r) /\
     (forall video, env_getVideoInfo (va_video_id v) = inr (Some video) ->
        res = inr tt /\ items (queue r') = items (queue r) ++ [video] /\
        currentSource r' = currentSource r /\ isPlaying r' = isPlaying r /\
        playbackPosition r' = playbackPosition r /\ prevQueue r' = None)).
Proof.
  intros Hg Hok Hsub.
  assert (Hrun : processRequest (ReqAdd (MkAddRequest (Some (Typed v)) None None)) ctx r =
    if (MAX_QUEUE_ITEMS <? length (items (queue r)) + 1)%nat then (inl (BadApiArgument "queue"), r)
    else add_one v (MkAddRequest (Some (Typed v)) None None) ctx r).
  { unfold processRequest. rewrite dispatch_granted by (by intros p [= <-]). simpl. unfold addToQueue.
    cbn [add_url add_video add_videos]. rewrite (bind_run _ _ r tt r) by done.
    rewrite (bind_run _ _ r (Some v) r); cycle 1.
    { unfold assertUsableVideoId. rewrite Hok. done. }
    rewrite (bind_run _ _ r None r) by done. cbv zeta. rewrite bind_get.
    change (1 <=? 1)%nat with true. cbn [andb].
    destruct (MAX_QUEUE_ITEMS <? _)%nat; [done|]. unfold when. rewrite (bind_run _ _ r tt r) by done.
    rewrite (bind_run _ _ r (Some v) r) by done. done. }
  rewrite Hrun. clear Hrun.
  destruct (MAX_QUEUE_ITEMS <? length (items (queue r)) + 1)%nat eqn:Hfull.
  { apply Nat.ltb_lt in Hfull. split_and!; [done|lia..]. }
  apply Nat.ltb_ge in Hfull.
  destruct (add_one _ _ ctx r) as [res r'] eqn:Hrun. unfold add_one in Hrun.
  unfold bind at 1, gets in Hrun. destruct (isVideoInQueue (va_video_id v) r) eqn:Hdup.
  { injection Hrun as <- <-. split_and!; [lia|done|done]. }
  split; [lia|]. split; [done|]. intros _ _.
  split.
  { intros e He. unfold bind at 1, lift_res in Hrun. rewrite He in Hrun. by injection Hrun as <- <-. }
  intros video He. unfold bind at 1, lift_res in Hrun. rewrite He in Hrun.
  rewrite (bind_run _ _ r video r) in Hrun by (by rewrite Hsub).
  destruct (queue_op_run (VideoQueue.enqueue [Some video]) r tt
    (MkVideoQueue (items (queue r) ++ [video]) true)) as (r1 & H1 & Hq1 & Hv1 & Hr1).
  { pose proof (enqueue_eq [video] (VideoQueue.clean (queue r))) as Henq. cbn [fmap list_fmap] in Henq.
    rewrite Henq, decide_False by done. cbn [length].
    change (items (VideoQueue.clean (queue r))) with (items (queue r)). by rewrite (proj2 (Nat.ltb_ge _ _)). }
  rewrite (bind_run _ _ r tt r1 H1), bind_modify in Hrun.
  match type of Hrun with emit ?a ?b ?d ?x = _ => destruct (emit_view a b d x) as (r3 & H3 & Hq3 & Hv3 & Hp3) end.
  rewrite H3 in Hrun. injection Hrun as <- <-. split; [done|].
  assert (Hset : items (queue (set_prevQueue None r1)) = items (queue r1) /\
                 pb_view (set_prevQueue None r1) = pb_view r1 /\ prevQueue (set_prevQueue None r1) = None).
  { unfold set_prevQueue. destruct (prevQueue r1) eqn:Hp; [|done]. unfold pb_view. rsimpl. done. }
  destruct Hset as (S1 & S2 & S3). rewrite S2, Hv1 in Hv3. unfold pb_view in Hv3.
  injection Hv3 as _ _ _ V4 _ V6 V7 _ _. rewrite Hq3, S1, Hq1, V4, V6, V7, Hp3, S3. done.
Qed.

Lemma add_video_correct_witness :
  items (queue (processRequest (E := sample_env 1100)
    (ReqAdd (MkAddRequest (Some (Typed (MkVideoAdd "direct" "v2" None None None))) None None))
    (as_guest "c1") held_room).2) = [sample_video "v2"].
Proof.
  pose proof (add_video_correct (E := sample_env 1100) (MkVideoAdd "direct" "v2" None None None) (as_guest "c1") held_room
    ltac:(vm_compute; reflexivity) ltac:(vm_compute; reflexivity) ltac:(reflexivity)) as H.
  destruct (processRequest _ _ held_room) as [res r'] eqn:Hrun.
  destruct H as (_ & _ & H). destruct H as [_ H]; [apply Nat.ltb_lt; vm_compute; reflexivity|vm_compute; reflexivity|].
  destruct (H (sample_video "v2")) as (_ & Hi & _); [reflexivity|]. simpl snd. rewrite Hi. vm_compute. reflexivity.
Defined.

Lemma source_put_on `{E : Env} v r : currentSource (put_on v r) = Some v.
Proof.
  unfold put_on. cbv zeta.
  match goal with |- context [canHoldPlaybackForPreparation ?x] => set (r1 := x) end.
  assert (H1 : currentSource r1 = Some v).
  { subst r1. rsimpl. by destruct (set_source_frame (Some v) r) as (_ & _ & _ & _ & H & _). }
  clearbody r1.
  assert (H2 : currentSource (if canHoldPlaybackForPreparation r1 then holdPlaybackForPreparation r1
                              else if negb (isPlaying r1) then play r1 else r1) = Some v).
  { destruct (canHoldPlaybackForPreparation r1); [by rewrite source_hold|].
    destruct (isPlaying r1); simpl; [done|by rewrite source_play]. }
  match type of H2 with currentSource ?x = _ => set (r2 := x) in * end. clearbody r2.
  destruct (bool_decide _); [done|]. rsimpl. done.
Qed.

(** What was on, marked to resume where it stood. *)
Definition resumed `{Env} (r : Room) : list QueueItem :=
  match currentSource r with
  | Some cur => [cur <| qi_startAt := Some (realPlaybackPosition r) |>]
  | None => []
  end.

(** What remains of [playNow] once the item is chosen. *)
Lemma put_item `{E : Env} item r : (length (items (queue r)) < MAX_QUEUE_ITEMS)%nat ->
  exists r2, (r <- get ;;
    match currentSource r with
    | Some cur =>
        modify (replace_current (cur <| qi_startAt := Some (realPlaybackPosition r) |>)) ;;;
        queue_op (VideoQueue.pushTop [Some (cur <| qi_startAt := Some (realPlaybackPosition r) |>)])
    | None => ret tt
    end ;;; modify (put_on item)) r = (inr tt, r2) /\ currentSource r2 = Some item /\
    items (queue r2) = resumed r ++ items (queue r).
Proof.
  intros Hcap. rewrite bind_get. unfold resumed.
  assert (Hmid : exists r2, (match currentSource r with
    | Some cur =>
        modify (replace_current (cur <| qi_startAt := Some (realPlaybackPosition r) |>)) ;;;
        queue_op (VideoQueue.pushTop [Some (cur <| qi_startAt := Some (realPlaybackPosition r) |>)])
    | None => ret tt
    end) r = (inr tt, r2) /\ items (queue r2) = resumed r ++ items (queue r)).
  { unfold resumed. destruct (currentSource r) as [cur|]; [|exists r; by split]. rewrite bind_modify.
    set (cur' := cur <| qi_startAt := _ |>). set (r1 := replace_current cur' r).
    assert (Hl : items (queue r1) = items (queue r)) by (subst r1; unfold replace_current; rsimpl; done).
    destruct (queue_op_run (VideoQueue.pushTop [Some cur']) r1 tt (MkVideoQueue (cur' :: items (queue r)) true))
      as (r2 & H2 & Hq2 & _); [|exists r2; by split].
    pose proof (pushTop_eq [cur'] (VideoQueue.clean (queue r1))) as Hpt. cbn [fmap list_fmap] in Hpt.
    rewrite Hpt, decide_False by done. cbn [length].
    change (items (VideoQueue.clean (queue r1))) with (items (queue r1)). rewrite Hl.
    by rewrite (proj2 (Nat.ltb_ge _ _)) by lia. }
  destruct Hmid as (r2 & H2 & Hq2). rewrite (bind_run _ _ r tt r2 H2). eexists. split; [reflexivity|].
  split; [apply source_put_on|]. pose proof (aux_put_on item r2) as Ha. unfold aux_view in Ha.
  injection Ha as -> _ _ _ _ _ _ _ _. exact Hq2.
Qed.

(** Putting a video on.  A video chosen from the queue leaves it; one from outside is looked
    up.  What was on goes to the front of the queue, marked to resume where it stood, the rest
    of the queue keeps its order, and the chosen video is on. *)
Theorem playNow_correct `{E : Env} (v : VideoAdd) (ctx : RequestContext) (r : Room) :
  Grants.granted (grants r) (ctx_role ctx) "manage-queue.play-now" = true ->
  Grants.granted (grants r) (ctx_role ctx) "manage-queue.order" = true ->
  Grants.granted (grants r) (ctx_role ctx) "manage-queue.add" = true ->
  usable_id (va_video_id v) = true -> va_subtitleUrl v = None ->
  same_video (va_video_id v) (currentSource r) = false ->
  (length (items (queue r)) <= MAX_QUEUE_ITEMS)%nat ->
  let '(res, r') := processRequest (PlayNowRequest (Typed v)) ctx r in
  (VideoQueue.contains (va_video_id v) (queue r) = true ->
     res = inr tt /\ exists i item, items (queue r) !! i = Some item /\
       VideoQueue.matches (va_video_id v) item = true /\
       currentSource r' = Some item /\ items (queue r') = resumed r ++ splice_out i (items (queue r))) /\
  (VideoQueue.contains (va_video_id v) (queue r) = false ->
     ((MAX_QUEUE_ITEMS <= length (items (queue r)))%nat -> res = inl (BadApiArgument "queue") /\ r' = r) /\
     (forall item, (length (items (queue r)) < MAX_QUEUE_ITEMS)%nat ->
        env_getVideoInfo (va_video_id v) = inr (Some item) ->
        res = inr tt /\ currentSource r' = Some item /\ items (queue r') = resumed r ++ items (queue r))).
Proof.
  intros Hpn Hord Hadd Hok Hsub Hdiff Hlen.
  assert (Hin : isVideoInQueue (va_video_id v) r = VideoQueue.contains (va_video_id v) (queue r))
    by (unfold isVideoInQueue; by rewrite Hdiff).
  destruct (processRequest _ ctx r) as [res r'] eqn:Hrun.
  unfold processRequest in Hrun. rewrite dispatch_granted in Hrun by (by intros p [= <-]). simpl in Hrun.
  unfold playNow, assertUsableVideoId in Hrun. rewrite Hok, (bind_run _ _ r v r), bind_get, Hdiff, Hin in Hrun by done.
  cbv zeta in Hrun. rewrite Hsub in Hrun. cbn [truthy_string] in Hrun.
  destruct (VideoQueue.contains (va_video_id v) (queue r)) eqn:Hc; (split; [intros Hc'|intros Hc']; try done).
  - rewrite (bind_run _ _ r tt r) in Hrun by (by apply check_granted).
    rewrite (bind_run _ _ r tt r) in Hrun by done.
    destruct (evict_found (va_video_id v) (VideoQueue.clean (queue r))) as (i & item & Hi & Hv & Hm & Hev); [done|].
    change (items (VideoQueue.clean (queue r))) with (items (queue r)) in *.
    destruct (queue_op_run _ r _ _ Hev) as (r1 & H1 & Hq1 & Hv1 & Hr1). cbn [items] in Hq1.
    rewrite (bind_run _ _ r item r1) in Hrun by (by rewrite (bind_run _ _ r (i, item) r1 H1)).
    assert (Hi' : (i < length (items (queue r)))%nat) by (by apply lookup_lt_Some in Hv).
    destruct (put_item item r1) as (r2 & H2 & Hs2 & Hq2); [rewrite Hq1, length_splice_out by done; lia|].
    rewrite H2 in Hrun. injection Hrun as <- <-. split; [done|]. exists i, item. split_and!; try done.
    unfold pb_view in Hv1. injection Hv1 as _ _ _ _ _ V6 _ _ _.
    rewrite Hq2, Hq1. unfold resumed. by rewrite V6, Hr1.
  - split.
    + intros Hfull. rewrite (bind_fail _ _ r (BadApiArgument "queue") r) in Hrun; [by injection Hrun as <- <-|].
      rewrite (bind_run _ _ r tt r) by (by apply check_granted).
      by rewrite (proj2 (Nat.leb_le _ _) Hfull).
    + intros item Hroom He. rewrite (bind_run _ _ r tt r) in Hrun; cycle 1.
      { rewrite (bind_run _ _ r tt r) by (by apply check_granted). by rewrite (proj2 (Nat.leb_gt _ _) Hroom). }
      rewrite (bind_run _ _ r tt r) in Hrun by done.
      rewrite (bind_run _ _ r item r) in Hrun by (unfold lift_res; unfold bind; by rewrite He).
      destruct (put_item item r Hroom) as (r2 & H2 & Hs2 & Hq2).
      rewrite H2 in Hrun. injection Hrun as <- <-. done.
Qed.

Lemma playNow_correct_witness :
  items (queue (processRequest (E := sample_env 9000)
    (PlayNowRequest (Typed (MkVideoAdd "direct" "v9" None None None))) (as_guest "c1") playing_room).2) =
    resumed (H := sample_env 9000) playing_room.
Proof.
  pose proof (playNow_correct (E := sample_env 9000) (MkVideoAdd "direct" "v9" None None None) (as_guest "c1") playing_room
    ltac:(vm_compute; reflexivity) ltac:(vm_compute; reflexivity) ltac:(vm_compute; reflexivity)
    ltac:(vm_compute; reflexivity) ltac:(reflexivity) ltac:(vm_compute; reflexivity)
    ltac:(apply Nat.leb_le; vm_compute; reflexivity)) as H.
  destruct (processRequest _ _ playing_room) as [res r'] eqn:Hrun.
  destruct H as [_ H]. destruct H as [_ H]; [vm_compute; reflexivity|].
  destruct (H (sample_video "v9")) as (_ & _ & Hi); [apply Nat.ltb_lt; vm_compute; reflexivity|reflexivity|].
  simpl snd. rewrite Hi. vm_compute. reflexivity.
Defined.
