(* ===== verification/EdgeModel.v ===== *)
(** * EdgeModel: the room of the preview backend

    The class [RoomState] of [packages/ott-edge/src/room-state.ts], a second
    implementation of a room that runs in a Cloudflare durable object
    ([room-object.ts] calls it), with the command table of [commands.ts].  It shares
    only the permission table ([Permissions]) and the message types with the Node
    server's room.

    A method is a computation over [State]; it throws where the source throws
    ([ApiError], or the exception of [new Grants]).  [Date.now()] is one instant per
    method call.  [member] arguments that alias an entry of [members] and are written
    through ([status]) are named by their id; the others are values.  Object keys that
    are identities or videos are never names that [Object.prototype] has, so plain
    objects used as maps are association lists in insertion order. *)

From Stdlib Require Import Ascii.
From S2P Require Import Prelude Types Permissions VideoQueue Subtitles RoomModel RoomPlayback.
From S2P Require Import RoomRequests.

(** ** Data *)

Record GuestSession := MkGuestSession { gs_identity : string; gs_username : string }.

Record Member := MkMember {
  m_id : string;
  m_session : GuestSession;
  m_status : PlayerStatus;
}.
#[global] Instance eta_Member : Eta Member := fun m => MkMember (m_id m) (m_session m) (m_status m).

Record SnapPreparation := MkSnapPreparation {
  sp_id : string;
  sp_clientId : string;
  sp_video : VideoId;
  sp_position : Q;
  sp_expiresAt : Z;
}.

Record SnapTempSpeed := MkSnapTempSpeed {
  st_client : string;
  st_gesture : string;
  st_previous : Q;
  st_expiresAt : Z;
}.
#[global] Instance eta_SnapTempSpeed : Eta SnapTempSpeed := fun t =>
  MkSnapTempSpeed (st_client t) (st_gesture t) (st_previous t) (st_expiresAt t).

(** The persisted part of a room. *)
Record Snapshot := MkSnapshot {
  s_name : string;
  s_title : string;
  s_description : string;
  s_isTemporary : bool;
  s_visibility : Visibility;
  s_queueMode : QueueMode;
  s_ownerId : string;
  s_roles : list (string * Role);
  s_grants : list (Role * Z);
  s_currentSource : option QueueItem;
  s_queue : list QueueItem;
  s_isPlaying : bool;
  s_position : Q;
  s_anchorAt : Z;
  s_playbackSpeed : Q;
  s_resumeOnNextJoin : bool;
  s_emptySince : option Z;
  s_preparation : option SnapPreparation;
  s_temporarySpeed : option SnapTempSpeed;
  s_votes : list (string * list string);
  s_votesToSkip : list string;
  s_enableVoteSkip : bool;
  s_createdAt : Z;
}.
#[global] Instance eta_Snapshot : Eta Snapshot := fun s =>
  MkSnapshot (s_name s) (s_title s) (s_description s) (s_isTemporary s) (s_visibility s)
    (s_queueMode s) (s_ownerId s) (s_roles s) (s_grants s) (s_currentSource s) (s_queue s)
    (s_isPlaying s) (s_position s) (s_anchorAt s) (s_playbackSpeed s) (s_resumeOnNextJoin s)
    (s_emptySince s) (s_preparation s) (s_temporarySpeed s) (s_votes s) (s_votesToSkip s)
    (s_enableVoteSkip s) (s_createdAt s).

(** The keys [ApplySettingsRequest] may carry, each present or not. *)
Record Settings := MkSettings {
  set_title : option string;
  set_description : option string;
  set_visibility : option Visibility;
  set_queueMode : option QueueMode;
  set_grants : option (list (Role * Z));
  set_autoSkip : option (list string);
  set_restoreQueue : option BehaviorOption;
  set_enableVoteSkip : option bool;
  set_bufferGateMode : option BufferGateMode;
  set_danmakuSource : option (option RoomDanmakuSource);
}.

(** [Command]: what [commandSchema] parses. *)
Inductive Command :=
  | CPlayback (state : bool)
  | CSkip
  | CSeek (value : Q)
  | CAdd (video : option VideoAdd) (videos : option (list VideoAdd)) (url : option string)
  | CRemove (video : VideoId)
  | COrder (fromIdx toIdx : nat)
  | CVote (video : VideoId) (add : bool)
  | CPromote (targetClientId : string) (role : Role)
  | CChat (text : string)
  | CApplySettings (settings : Settings)
  | CPlayNow (video : VideoAdd)
  | CShuffle
  | CPlaybackSpeed (speed : Q)
  | CRestoreQueue (discard : bool)
  | CKick (clientId : string)
  | CUpdateQueueItem (video : VideoId) (startAt : option Q) (endAt : option Q) (subtitleUrl : option string)
  | CTemporarySpeed (action : GestureAction) (gestureId : string) (video : VideoId).

Inductive EdgeRequest := RJoin (id username : string) | RLeave | RCommand (c : Command).

(** A value of the [sync] message. *)
Inductive SyncValue :=
  | VString (v : string) | VBool (v : bool) | VNum (v : Q) | VVisibility (v : Visibility)
  | VQueueMode (v : QueueMode) | VSource (v : option QueueItem) | VQueue (v : list QueueItem)
  | VNull | VGrants (v : list (Role * Z)) | VCounts (v : list (string * nat))
  | VIds (v : list string) | VEmpty | VBehavior (v : BehaviorOption)
  | VPreparation (v : option (string * string * VideoId * Q))
  | VTemporary (v : option (string * string * Q)).

Inductive EdgeMessage :=
  | MUserUpdate (info : RoomUserInfo)
  | MUserRemove (id : string)
  | MChat (from : RoomUserInfo) (text : string)
  | MEvent (request : EdgeRequest) (username : string) (additional : EventContext)
  | MSync (props : list (Prop_ * option SyncValue)).

(** [RoomState]. *)
Record State := MkState {
  e_snapshot : Snapshot;
  e_members : list (string * Member);
  e_dirty : list Prop_;
  e_messages : list EdgeMessage;
  e_kicks : list string;
}.
#[global] Instance eta_State : Eta State := fun s =>
  MkState (e_snapshot s) (e_members s) (e_dirty s) (e_messages s) (e_kicks s).

(** [ApiError] with its HTTP status and name, or an exception of [new Grants]. *)
Inductive edge_exn := ApiError (status : Z) (name : string) | GrantsThrew (e : exn).

(** The clock, the platform's randomness and its URL parser ([e_hrefNoHash] is [href]
    after [hash] was cleared). *)
Class EdgeEnv := {
  e_now : Z;
  e_uuid : string;
  e_randomInt : nat -> nat;
  e_parseUrl : string -> option Url;
  e_hrefNoHash : string -> string;
}.

(** The UTF-8 length of [JSON.stringify] of one array element ([null] for an absent
    source); an object with a service and an id is longer than [null]. *)
Class EdgeJson := { e_jsonBytes : option QueueItem -> nat }.
Class EdgeJsonLaws (J : EdgeJson) : Prop := {
  json_null : e_jsonBytes None = 4%nat;
  json_item : forall v, (4 <= e_jsonBytes (Some v))%nat;
}.

Definition PREPARATION_LEASE_MS : Z := 30000.
Definition TEMPORARY_LEASE_MS : Z := 5000.
Definition MAX_PENDING : nat := 200.
Definition MAX_QUEUE_BYTES : nat := Z.to_nat (512 * 1024).
Definition MAX_ROLES : nat := 500.
Definition OWNER_RANK : Z := 100.

(** ** Commands: schema bounds and permissions *)

Definition finitePosition (q : Q) : bool := Qle_bool 0 q && Qle_bool q (31 * 86400).

Definition videoId_ok (v : VideoId) : bool :=
  bool_decide (vid_service v ∈ ["direct"; "hls"; "dash"]) &&
  (1 <=? String.length (vid_id v))%nat && bool_decide (Z.of_nat (String.length (vid_id v)) <= 4096).

Definition videoAdd_ok (v : VideoAdd) : bool :=
  videoId_ok (va_video_id v) &&
  match va_startAt v with Some q => finitePosition q | None => true end &&
  match va_endAt v with Some (Fin q) => finitePosition q | Some _ => false | None => true end &&
  match va_subtitleUrl v with Some u => bool_decide (Z.of_nat (String.length u) <= 4096) | None => true end.

Definition settings_ok (s : Settings) : bool :=
  match set_title s with
  | Some t => bool_decide (Z.of_nat (String.length t) <= 254) &&
      bool_decide (~ (Ascii.ascii_of_nat 10 ∈ String.list_ascii_of_string t)) &&
      bool_decide (~ (Ascii.ascii_of_nat 13 ∈ String.list_ascii_of_string t))
  | None => true
  end &&
  match set_description s with
  | Some d => bool_decide (Z.of_nat (String.length d) <= 2000)
  | None => true
  end &&
  match set_grants s with
  | Some l => (length l <=? 6)%nat &&
      forallb (fun kv => isRoleValid kv.1 && (0 <=? kv.2) && (kv.2 <=? 0x7fffffff)) l
  | None => true
  end.

(** A resolved item, and whether the object has an own property [subtitleUrl] (which
    may be [undefined]): spreading it over an item then replaces the item's. *)
Record Resolved := MkResolved { rv_item : QueueItem; rv_ownSubtitle : bool }.

(** What [commandSchema.parse] guarantees of a command, as far as the room relies on it. *)
Definition command_ok (c : Command) : bool :=
  match c with
  | CSeek v => finitePosition v
  | CAdd video videos url =>
      match video with Some v => videoAdd_ok v | None => true end &&
      match videos with
      | Some l => (1 <=? length l)%nat && (length l <=? 10)%nat && forallb videoAdd_ok l
      | None => true
      end &&
      match url with Some u => bool_decide (Z.of_nat (String.length u) <= 4096) | None => true end
  | CRemove v | CVote v _ => videoId_ok v
  | CUpdateQueueItem v startAt endAt subtitle =>
      videoAdd_ok (MkVideoAdd (vid_service v) (vid_id v) startAt (Fin <$> endAt) subtitle)
  | CPromote target role => (String.length target <=? 128)%nat && isRoleValid role
  | CKick target => (String.length target <=? 128)%nat
  | CChat text => (1 <=? String.length text)%nat && bool_decide (Z.of_nat (String.length text) <= 1000)
  | CApplySettings s => settings_ok s
  | CPlayNow v => videoAdd_ok v
  | CPlaybackSpeed speed => Qle_bool (1 # 4) speed && Qle_bool speed 4
  | CTemporarySpeed action gesture v =>
      bool_decide (action <> GestureOther) && gesture_id_ok gesture && videoId_ok v
  | CPlayback _ | CSkip | COrder _ _ | CShuffle | CRestoreQueue _ => true
  end.

Definition commandPermissions (c : Command) : option string :=
  match c with
  | CPlayback _ => Some "playback.play-pause"
  | CSkip => Some "playback.skip"
  | CSeek _ => Some "playback.seek"
  | CAdd _ _ _ => Some "manage-queue.add"
  | CRemove _ => Some "manage-queue.remove"
  | COrder _ _ => Some "manage-queue.order"
  | CVote _ _ => Some "manage-queue.vote"
  | CChat _ => Some "chat"
  | CPlayNow _ => Some "manage-queue.play-now"
  | CShuffle => Some "manage-queue.order"
  | CPlaybackSpeed _ => Some "playback.speed"
  | CRestoreQueue _ => Some "manage-queue.add"
  | CKick _ => Some "manage-users.kick"
  | CUpdateQueueItem _ _ _ _ => Some "manage-queue.edit"
  | CTemporarySpeed _ _ _ => Some "playback.speed"
  | CPromote _ _ | CApplySettings _ => None
  end.

(** ** The room *)

Module Edge.

Definition EM (A : Type) : Type := M State edge_exn A.

Definition badRequest : edge_exn := ApiError 400 "OttException".
Definition notFound : edge_exn := ApiError 404 "OttException".
Definition forbidden : edge_exn := ApiError 403 "OttException".
Definition permissionDenied : edge_exn := ApiError 403 "PermissionDeniedException".

Record Options := MkEdgeOptions {
  o_name : string;
  o_title : option string;
  o_description : option string;
  o_isTemporary : option bool;
  o_visibility : option Visibility;
  o_queueMode : option QueueMode;
}.

(** [new Grants().toJSON()]: the constructor without arguments copies the default
    table, which it cannot refuse. *)
Definition fresh_grants : list (Role * Z) :=
  match Grants.construct (Grants.toJSON Grants.defaultPermissions) with
  | inr g => Grants.toJSON g
  | inl _ => []
  end.

Definition createSnapshot (now : Z) (o : Options) (owner : GuestSession) : Snapshot :=
  MkSnapshot (o_name o)
    (match o_title o with Some t => if bool_decide (t = "") then o_name o else t | None => o_name o end)
    (default "" (o_description o)) (default true (o_isTemporary o))
    (default Unlisted (o_visibility o)) (default Manual (o_queueMode o))
    (gs_identity owner) [] fresh_grants None [] false 0 now 1 false
    (Some now) None None [] [] false now.

Definition construct (s : Snapshot) : State := MkState s [] [] [] [].

Definition sameVideo (a b : option VideoId) : bool :=
  match a, b with Some x, Some y => bool_decide (x = y) | _, _ => false end.

Definition source_id (s : Snapshot) : option VideoId := video_id_of <$> s_currentSource s.

Definition keyFor (video : VideoId) : string := vid_service video +:+ vid_id video.

Definition rank (role : Role) : Z := if role =? Owner then OWNER_RANK else role.

Definition role_in (s : Snapshot) (session : GuestSession) : Role :=
  if bool_decide (gs_identity session = s_ownerId s) then Owner
  else default UnregisteredUser (map_get (gs_identity session) (s_roles s)).

Definition role (st : State) (session : GuestSession) : Role := role_in (e_snapshot st) session.

Definition info (st : State) (m : Member) : RoomUserInfo :=
  MkRoomUserInfo (m_id m) (gs_username (m_session m)) false (m_status m) (role st (m_session m)).

Definition users (st : State) : list RoomUserInfo := map (info st) (e_members st).*2.

(** The getter [grants] builds the table from the stored entries at every use. *)
Definition grants : EM Grants := fun st =>
  match Grants.construct (s_grants (e_snapshot st)) with
  | inl e => (inl (GrantsThrew e), st)
  | inr g => (inr g, st)
  end.

Definition can (session : GuestSession) (permission : string) : EM bool :=
  g <- grants ;;
  gets (fun st => Grants.granted g (role st session) permission).

Definition check (session : GuestSession) (permission : string) : EM unit :=
  ok <- can session permission ;;
  if ok : bool then ret tt else throw permissionDenied.

Definition checkCommand (c : Command) (m : Member) : EM unit :=
  match commandPermissions c with
  | Some permission => check (m_session m) permission
  | None => ret tt
  end.

Section Room.
Context {J : EdgeJson} {E : EdgeEnv}.

Definition position_of (s : Snapshot) : Q :=
  Qmax' 0 (s_position s +
    (if s_isPlaying s then inject_Z (Z.max 0 (e_now - s_anchorAt s)) / 1000 * s_playbackSpeed s else 0)).

Definition position (st : State) : Q := position_of (e_snapshot st).

Definition on_snapshot (f : Snapshot -> Snapshot) (st : State) : State := st <| e_snapshot ::= f |>.

Definition mark (keys : list Prop_) (st : State) : State :=
  st <| e_dirty ::= fun d => fold_left (fun d k => set_add k d) keys d |>.

Definition push (m : EdgeMessage) (st : State) : State := st <| e_messages ::= fun l => l ++ [m] |>.

Definition anchor_at (position : Q) (st : State) : State :=
  on_snapshot (fun s => s <| s_position := position |> <| s_anchorAt := e_now |>) st.

Definition anchor (st : State) : State := anchor_at (position st) st.

Definition playing (value : bool) (st : State) : State :=
  mark [PIsPlaying; PPlaybackPosition] (on_snapshot (fun s => s <| s_isPlaying := value |>) (anchor st)).

Definition clearPreparation (st : State) : State :=
  match s_preparation (e_snapshot st) with
  | Some _ => mark [PPlaybackPreparation] (on_snapshot (fun s => s <| s_preparation := None |>) st)
  | None => st
  end.

Definition clearTemporarySpeed (st : State) : State :=
  match s_temporarySpeed (e_snapshot st) with
  | None => st
  | Some previous =>
      mark [PTemporaryPlaybackSpeed; PPlaybackSpeed; PPlaybackPosition]
        (on_snapshot (fun s => s <| s_playbackSpeed := st_previous previous |> <| s_temporarySpeed := None |>)
           (anchor st))
  end.

(** [find] with the permission check as its predicate. *)
Fixpoint find_preparer (exclude : option string) (l : list Member) : EM (option Member) :=
  match l with
  | [] => ret None
  | m :: l' =>
      if bool_decide (Some (m_id m) = exclude) then find_preparer exclude l'
      else ok <- can (m_session m) "playback.play-pause" ;;
           if ok : bool then ret (Some m) else find_preparer exclude l'
  end.

Definition begin_preparation (m : Member) (source : QueueItem) (st : State) : State :=
  mark [PPlaybackPreparation; PPlaybackPosition; PIsPlaying]
    (on_snapshot (fun s => s <| s_preparation := Some (MkSnapPreparation e_uuid (m_id m)
       (video_id_of source) (position st) (e_now + PREPARATION_LEASE_MS)) |>) st).

Definition prepare (exclude : option string) : EM unit :=
  st <- get ;;
  let s := e_snapshot st in
  match s_currentSource s, s_preparation s with
  | Some source, None =>
      if negb (s_resumeOnNextJoin s) || s_isPlaying s then ret tt
      else m <- find_preparer exclude (e_members st).*2 ;;
           match m with
           | Some m => modify (begin_preparation m source)
           | None => ret tt
           end
  | _, _ => ret tt
  end.

Definition event (request : EdgeRequest) (m : Member) (additional : EventContext) (st : State) : State :=
  push (MEvent request (gs_username (m_session m)) additional) st.

Definition join (m : Member) : EM unit :=
  modify (fun st => on_snapshot (fun s => s <| s_emptySince := None |>)
                      (st <| e_members ::= map_set (m_id m) m |>)) ;;;
  modify (fun st => push (MUserUpdate (info st m)) st) ;;;
  modify (event (RJoin (m_id m) (gs_username (m_session m))) m no_context) ;;;
  prepare None.

Definition votes_for (s : Snapshot) (v : QueueItem) : nat :=
  length (default [] (map_get (keyFor (video_id_of v)) (s_votes s))).

(** [Array.prototype.sort] is stable; the comparator orders by votes, most first. *)
Definition orderVotes (st : State) : State :=
  if decide (s_queueMode (e_snapshot st) = Vote)
  then mark [PQueue] (on_snapshot (fun s => s <| s_queue := sort_desc (votes_for s) (s_queue s) |>) st)
  else st.

Definition without (id : string) (l : list string) : list string := filter (fun x => x <> id) l.

Definition drop_votes (id : string) (st : State) : State :=
  mark [PVoteCounts; PVotesToSkip]
    (on_snapshot (fun s => s <| s_votes ::= map (fun kv => (kv.1, without id kv.2)) |>
                             <| s_votesToSkip ::= without id |>) st).

(** The leaver's lease and round end with them. *)
Definition drop_client (id : string) (st : State) : State :=
  let st := match s_temporarySpeed (e_snapshot st) with
            | Some t => if bool_decide (st_client t = id) then clearTemporarySpeed st else st
            | None => st
            end in
  match s_preparation (e_snapshot st) with
  | Some p => if bool_decide (sp_clientId p = id) then clearPreparation st else st
  | None => st
  end.

Definition pause_empty (st : State) : State :=
  on_snapshot (fun s => s <| s_emptySince := Some e_now |>)
    (playing false
       (on_snapshot (fun s => s <| s_resumeOnNextJoin := s_resumeOnNextJoin s || s_isPlaying s |>) st)).

Definition leave (id : string) : EM unit :=
  st <- get ;;
  match map_get id (e_members st) with
  | None => ret tt
  | Some m =>
      modify (event RLeave m (MkEventContext None None None None (Some (info st m)))) ;;;
      modify (fun st => push (MUserRemove id) (st <| e_members ::= map_delete id |>)) ;;;
      modify (drop_votes id) ;;;
      modify orderVotes ;;;
      modify (drop_client id) ;;;
      st <- get ;;
      match e_members st with
      | [] => modify pause_empty
      | _ => prepare None
      end
  end.

Definition recover_empty (st : State) : State :=
  let st := on_snapshot (fun s =>
      s <| s_resumeOnNextJoin := s_resumeOnNextJoin s || (s_isPlaying s || bool_decide (is_Some (s_preparation s))) |>
        <| s_isPlaying := false |> <| s_anchorAt := e_now |>
        <| s_emptySince := Some (default e_now (s_emptySince s)) |>) st in
  let st := clearPreparation st in
  match s_temporarySpeed (e_snapshot st) with
  | Some t => on_snapshot (fun s => s <| s_playbackSpeed := st_previous t |> <| s_temporarySpeed := None |>) st
  | None => st
  end.

Definition recover : EM unit :=
  st <- get ;;
  match e_members st with
  | [] => modify recover_empty
  | _ =>
      match s_preparation (e_snapshot st) with
      | Some p =>
          if map_has (sp_clientId p) (e_members st) then ret tt
          else modify clearPreparation ;;; prepare None
      | None => ret tt
      end
  end.

(** A [PlaybackPrepared] report as [messageSchema] parses it. *)
Record Report := MkReport { rp_id : string; rp_position : num }.

Definition report_close (reported : num) (p : SnapPreparation) : bool :=
  match reported with
  | Fin q => Qle_bool (Qabs' (q - sp_position p)) (3 # 2)
  | _ => false
  end.

(** The conditions of the early return, negated, before the permission check. *)
Definition report_accepted (st : State) (id : string) (status : PlayerStatus)
    (prepared : option Report) : bool :=
  match s_preparation (e_snapshot st), prepared with
  | Some p, Some r =>
      bool_decide (sp_clientId p = id) && bool_decide (rp_id r = sp_id p) &&
      bool_decide (status = StatusReady) && (e_now <? sp_expiresAt p) &&
      report_close (rp_position r) p &&
      sameVideo (source_id (e_snapshot st)) (Some (sp_video p))
  | _, _ => false
  end.

(** The caller finds the member in [members] and returns when it is not there. *)
Definition status (id : string) (s : PlayerStatus) (prepared : option Report) : EM unit :=
  st <- get ;;
  match map_get id (e_members st) with
  | None => ret tt
  | Some m0 =>
      let m := m0 <| m_status := s |> in
      modify (fun st => st <| e_members ::= map_set id m |>) ;;;
      modify (fun st => push (MUserUpdate (info st m)) st) ;;;
      st <- get ;;
      if report_accepted st id s prepared then
        ok <- can (m_session m) "playback.play-pause" ;;
        when ok (modify (fun st =>
          playing true (on_snapshot (fun s => s <| s_resumeOnNextJoin := false |>) (clearPreparation st))))
      else ret tt
  end.

(** [this.members.size > 0]. *)
Definition occupied (st : State) : bool := match e_members st with [] => false | _ => true end.

Definition set_source (video : option QueueItem) (st : State) : State :=
  let here := occupied st in
  let some := bool_decide (is_Some video) in
  on_snapshot (fun s =>
    s <| s_currentSource := video |> <| s_playbackSpeed := 1%Q |>
      <| s_position := default 0%Q (video ≫= qi_startAt) |> <| s_anchorAt := e_now |>
      <| s_isPlaying := some && here |> <| s_resumeOnNextJoin := some && negb here |>
      <| s_votesToSkip := [] |>) st.

Definition start (video : option QueueItem) (st : State) : State :=
  mark [PCurrentSource; PPlaybackPosition; PIsPlaying; PPlaybackSpeed; PVotesToSkip; PPlaybackPreparation]
    (set_source video (clearPreparation (clearTemporarySpeed st))).

Definition looped (s : Snapshot) : list QueueItem :=
  match s_queueMode s, s_currentSource s with
  | Loop, Some v => s_queue s ++ [v]
  | _, _ => s_queue s
  end.

Definition next (st : State) : State :=
  let q := looped (e_snapshot st) in
  let st := on_snapshot (fun s => s <| s_queue := tail q |>) st in
  let st := match head q with
            | Some v => on_snapshot (fun s => s <| s_votes ::= map_delete (keyFor (video_id_of v)) |>) st
            | None => st
            end in
  mark [PQueue; PVoteCounts] (start (head q) st).

(** The UTF-8 length of [JSON.stringify([current, ...queue])]: brackets and commas. *)
Definition queue_bytes (current : option QueueItem) (queue : list QueueItem) : nat :=
  (2 + e_jsonBytes current + list_sum (map (fun v => 1 + e_jsonBytes (Some v)) queue))%nat.

Definition queue_fits (current : option QueueItem) (queue : list QueueItem) : bool :=
  ((length queue <=? MAX_PENDING) && (queue_bytes current queue <=? MAX_QUEUE_BYTES))%nat.

Definition checkQueueSize (queue : list QueueItem) (current : option QueueItem) : EM unit :=
  if queue_fits current queue then ret tt else throw badRequest.

(** *** Commands

    Each handler answers [None] where the source returns without publishing an event,
    and [Some additional] where it breaks out of the [switch] and publishes one. *)

Definition with_position (st : State) : EventContext :=
  MkEventContext None None (Some (position st)) None None.

Definition do_playback (value : bool) : EM (option EventContext) :=
  st <- get ;;
  match s_currentSource (e_snapshot st) with
  | None => ret None
  | Some _ =>
      modify clearPreparation ;;;
      modify (on_snapshot (fun s => s <| s_resumeOnNextJoin := false |>)) ;;;
      modify (playing value) ;;;
      ret (Some no_context)
  end.

(** [currentSource.endAt ?? currentSource.length]. *)
Definition source_end (v : QueueItem) : option num :=
  match qi_endAt v with Some e => Some e | None => qi_length v end.

(** [value > end] on JavaScript numbers. *)
Definition beyond (value : Q) (limit : option num) : bool :=
  match limit with
  | Some (Fin e) => Qgt_bool value e
  | Some (Inf true) => true
  | _ => false
  end.

Definition do_seek (value : Q) : EM (option EventContext) :=
  st <- get ;;
  match s_currentSource (e_snapshot st) with
  | None => throw badRequest
  | Some v =>
      if beyond value (source_end v) then throw badRequest
      else
        modify (fun st => mark [PPlaybackPosition] (anchor_at value st)) ;;;
        (match s_preparation (e_snapshot st) with
         | Some _ => modify clearPreparation ;;; prepare None
         | None => ret tt
         end) ;;;
        ret (Some (with_position st))
  end.

Definition add_skip_vote (id : string) (st : State) : State :=
  mark [PVotesToSkip]
    (on_snapshot (fun s => s <| s_votesToSkip ::= set_add id |>) st).

(** [votesToSkip.length <= members.size / 2]. *)
Definition skip_short (st : State) : bool :=
  (2 * length (s_votesToSkip (e_snapshot st)) <=? length (e_members st))%nat.

Definition do_skip (m : Member) : EM (option EventContext) :=
  st0 <- get ;;
  let voting := s_enableVoteSkip (e_snapshot st0) && (rank (role st0 (m_session m)) <? Moderator) in
  when voting (modify (add_skip_vote (m_id m))) ;;;
  st <- get ;;
  if voting && skip_short st then ret None
  else
    modify next ;;;
    ret (Some (MkEventContext (s_currentSource (e_snapshot st)) None (Some (position st)) None None)).

Definition do_add (resolved : list QueueItem) : EM (option EventContext) :=
  st <- get ;;
  let q := s_queue (e_snapshot st) in
  if bool_decide (resolved = []) || (MAX_PENDING <? length q + length resolved)%nat
  then throw badRequest
  else
    checkQueueSize (q ++ resolved) (s_currentSource (e_snapshot st)) ;;;
    modify (fun st => mark [PQueue] (on_snapshot (fun s => s <| s_queue := q ++ resolved |>) st)) ;;;
    modify orderVotes ;;;
    when (negb (bool_decide (is_Some (s_currentSource (e_snapshot st))))) (modify next) ;;;
    ret (Some (MkEventContext None (Some resolved) None None None)).

Definition index_of (video : VideoId) (q : list QueueItem) : option nat :=
  VideoQueue.find_index (VideoQueue.matches video) q.

Definition forget_votes (video : VideoId) (st : State) : State :=
  on_snapshot (fun s => s <| s_votes ::= map_delete (keyFor video) |>) st.

Definition do_remove (video : VideoId) : EM (option EventContext) :=
  st <- get ;;
  let q := s_queue (e_snapshot st) in
  match index_of video q with
  | None => throw notFound
  | Some i =>
      modify (fun st => mark [PQueue; PVoteCounts]
        (forget_votes video (on_snapshot (fun s => s <| s_queue := splice_out i q |>) st))) ;;;
      ret (Some (MkEventContext (q !! i) None None (Some (Z.of_nat i)) None))
  end.

Definition reorder (fromIdx toIdx : nat) (q : list QueueItem) : list QueueItem :=
  match q !! fromIdx with
  | Some v => splice_in toIdx v (splice_out fromIdx q)
  | None => q
  end.

Definition do_order (fromIdx toIdx : nat) : EM (option EventContext) :=
  st <- get ;;
  let q := s_queue (e_snapshot st) in
  if ((length q <=? fromIdx) || (length q <=? toIdx))%nat then throw badRequest
  else
    modify (fun st => mark [PQueue] (on_snapshot (fun s => s <| s_queue := reorder fromIdx toIdx q |>) st)) ;;;
    ret (Some no_context).

(** [new Set(ids)], spread again. *)
Definition unique (l : list string) : list string := fold_left (fun d x => set_add x d) l [].

Definition change_vote (video : VideoId) (add : bool) (id : string) (st : State) : State :=
  on_snapshot (fun s =>
    let ids := unique (default [] (map_get (keyFor video) (s_votes s))) in
    s <| s_votes ::= map_set (keyFor video) (if add then set_add id ids else without id ids) |>) st.

Definition do_vote (video : VideoId) (add : bool) (m : Member) : EM (option EventContext) :=
  st <- get ;;
  if existsb (VideoQueue.matches video) (s_queue (e_snapshot st)) then
    modify (fun st => orderVotes (mark [PVoteCounts] (change_vote video add (m_id m) st))) ;;;
    ret (Some no_context)
  else throw notFound.

Definition put_first (current : option QueueItem) (q : list QueueItem) : list QueueItem :=
  match current with Some v => v :: q | None => q end.

Definition do_play_now (video : VideoId) (resolved : list QueueItem) : EM (option EventContext) :=
  st <- get ;;
  let s := e_snapshot st in
  if sameVideo (source_id s) (Some video) then ret None
  else
    match resolved with
    | [] => throw badRequest
    | v :: _ =>
        let q := put_first (s_currentSource s)
                   (List.filter (fun i => negb (VideoQueue.matches video i)) (s_queue s)) in
        checkQueueSize q (Some v) ;;;
        modify (fun st => mark [PQueue; PVoteCounts] (start (Some v)
          (forget_votes video (on_snapshot (fun s => s <| s_queue := q |>) st)))) ;;;
        ret (Some no_context)
    end.

(** [\[q\[i\], q\[j\]\] = \[q\[j\], q\[i\]\]], for indices in range. *)
Definition swap (i j : nat) (q : list QueueItem) : list QueueItem :=
  match q !! i, q !! j with
  | Some x, Some y => <[i := y]> (<[j := x]> q)
  | _, _ => q
  end.

(** The loop counts [i] down from the last index to [1]. *)
Fixpoint shuffle_from (i : nat) (q : list QueueItem) : list QueueItem :=
  match i with
  | O => q
  | S i' => shuffle_from i' (swap i (e_randomInt (S i)) q)
  end.

Definition do_shuffle : EM (option EventContext) :=
  modify (fun st => mark [PQueue]
    (on_snapshot (fun s => s <| s_queue := shuffle_from (length (s_queue s) - 1) (s_queue s) |>) st)) ;;;
  ret (Some no_context).

Definition do_speed (speed : Q) : EM (option EventContext) :=
  modify (fun st => mark [PPlaybackSpeed; PPlaybackPosition]
    (on_snapshot (fun s => s <| s_playbackSpeed := speed |>) (anchor (clearTemporarySpeed st)))) ;;;
  ret (Some no_context).

Definition owns_lease (t : SnapTempSpeed) (id gesture : string) : bool :=
  bool_decide (st_client t = id) && bool_decide (st_gesture t = gesture).

Definition begin_lease (id gesture : string) (st : State) : State :=
  mark [PPlaybackPosition; PPlaybackSpeed; PTemporaryPlaybackSpeed]
    (on_snapshot (fun s =>
       s <| s_temporarySpeed := Some (MkSnapTempSpeed id gesture (s_playbackSpeed s) (e_now + TEMPORARY_LEASE_MS)) |>
         <| s_playbackSpeed := 2%Q |>) (anchor st)).

Definition renew_lease (t : SnapTempSpeed) (st : State) : State :=
  on_snapshot (fun s => s <| s_temporarySpeed := Some (t <| st_expiresAt := e_now + TEMPORARY_LEASE_MS |>) |>) st.

Definition temporary_speed (action : GestureAction) (gesture : string) (video : VideoId) (id : string)
    (st : State) : State :=
  let s := e_snapshot st in
  if negb (sameVideo (source_id s) (Some video)) then st
  else
    match action, s_temporarySpeed s with
    | GestureStop, Some t => if owns_lease t id gesture then clearTemporarySpeed st else st
    | GestureRenew, Some t => if owns_lease t id gesture then renew_lease t st else st
    | (GestureStart | GestureOther), None => if s_isPlaying s then begin_lease id gesture st else st
    | _, _ => st
    end.

(** [{...item, ...patch}]: an absent property of the patch keeps the item's value. *)
Definition over_item {A} (patch item : option A) : option A :=
  match patch with Some x => Some x | None => item end.

Definition merge_item (v : QueueItem) (r : Resolved) : QueueItem :=
  let p := rv_item r in
  MkQueueItem (qi_service p) (qi_id p) (over_item (qi_title p) (qi_title v))
    (over_item (qi_description p) (qi_description v)) (over_item (qi_length p) (qi_length v))
    (qi_isLive p || qi_isLive v)
    (over_item (qi_thumbnail p) (qi_thumbnail v)) (over_item (qi_mime p) (qi_mime v))
    (over_item (qi_width p) (qi_width v)) (over_item (qi_height p) (qi_height v))
    (over_item (qi_cors p) (qi_cors v)) (over_item (qi_mediaAccess p) (qi_mediaAccess v))
    (qi_highlight p || qi_highlight v)
    (over_item (qi_hls_url p) (qi_hls_url v)) (over_item (qi_dash_url p) (qi_dash_url v))
    (over_item (qi_src_url p) (qi_src_url v))
    (if rv_ownSubtitle r then qi_subtitleUrl p else over_item (qi_subtitleUrl p) (qi_subtitleUrl v))
    (over_item (qi_startAt p) (qi_startAt v)) (over_item (qi_endAt p) (qi_endAt v)).

Definition do_update_item (video : VideoId) (resolved : list Resolved) : EM (option EventContext) :=
  st <- get ;;
  let q := s_queue (e_snapshot st) in
  match index_of video q, head resolved with
  | Some i, Some p =>
      let q' := alter (fun v => merge_item v p) i q in
      checkQueueSize q' (s_currentSource (e_snapshot st)) ;;;
      modify (fun st => mark [PQueue] (on_snapshot (fun s => s <| s_queue := q' |>) st)) ;;;
      ret (Some no_context)
  | _, _ => throw notFound
  end.

(** *** Extras of a queue entry ([media.ts]) *)

Definition mediaUrl (value : string) : edge_exn + string :=
  match e_parseUrl value with
  | None => inl badRequest
  | Some url =>
      let host := toLowerCase (url_hostname url) in
      if negb (bool_decide (url_protocol url ∈ ["http:"; "https:"])) ||
         negb (bool_decide (url_username url = "")) || negb (bool_decide (url_password url = "")) ||
         bool_decide (4096 < Z.of_nat (String.length value)) ||
         negb (str_contains "."%char host) ||
         (str_forall is_digit_or_dot host && negb (bool_decide (host = ""))) ||
         str_contains ":"%char host || String.prefix "[" host ||
         bool_decide (last_piece "."%char host ∈ local_labels)
      then inl (ApiError 400 "UnsupportedServiceException")
      else inr (e_hrefNoHash value)
  end.

(** Not finite, negative, or past a known non-zero length. *)
Definition bad_offset (length : option num) (v : num) : bool :=
  match v with
  | Fin q =>
      Qlt_bool q 0 ||
      match length with
      | Some (Fin l) => negb (Qeq_bool l 0) && Qgt_bool q l
      | Some (Inf true) => true
      | _ => false
      end
  | _ => true
  end.

Definition end_after_start (v : QueueItem) : bool :=
  match qi_endAt v with
  | Some (Fin e) => Qgt_bool e (default 0%Q (qi_startAt v))
  | Some (Inf true) => false
  | _ => true
  end.

Definition applyExtras (video : QueueItem) (value : VideoAdd) : edge_exn + Resolved :=
  let bad o := match o with Some v => bad_offset (qi_length video) v | None => false end in
  if bad (Fin <$> va_startAt value) || bad (va_endAt value) then inl badRequest
  else
    let finish own subtitle :=
      let result := video <| qi_startAt := over_item (va_startAt value) (qi_startAt video) |>
                          <| qi_endAt := over_item (va_endAt value) (qi_endAt video) |>
                          <| qi_subtitleUrl := subtitle |> in
      if end_after_start result then inr (MkResolved result own) else inl badRequest in
    match va_subtitleUrl value with
    | None => finish (bool_decide (is_Some (qi_subtitleUrl video))) (qi_subtitleUrl video)
    | Some u =>
        if bool_decide (u = "") then finish true None
        else match mediaUrl u with
             | inl e => inl e
             | inr href => finish true (Some href)
             end
    end.

(** *** Roles and settings *)

Definition role_name (r : Role) : option string :=
  if r =? Administrator then Some "admin"
  else if r =? Moderator then Some "moderator"
  else if r =? TrustedUser then Some "trusted-user"
  else None.

Definition check_named (session : GuestSession) (prefix : string) (r : Role) : EM unit :=
  match role_name r with
  | Some n => check session (prefix +:+ n)
  | None => ret tt
  end.

Definition set_role (identity : string) (r : Role) (st : State) : State :=
  on_snapshot (fun s => s <| s_roles ::= map_set identity r |>) st.

(** Every connection of the identity is announced with its new role. *)
Definition announce_identity (identity : string) (st : State) : State :=
  fold_left (fun st peer =>
      if bool_decide (gs_identity (m_session peer) = identity)
      then push (MUserUpdate (info st peer)) st else st)
    (e_members st).*2 st.

Definition may_change_role (st : State) (m target : Member) (r : Role) : bool :=
  negb (r =? Owner) && negb (role st (m_session target) =? Owner) &&
  (Z.max (rank (role st (m_session target))) (rank r) <? rank (role st (m_session m))).

Definition do_promote (m : Member) (targetClientId : string) (r : Role) : EM (option EventContext) :=
  st <- get ;;
  match map_get targetClientId (e_members st) with
  | None => throw forbidden
  | Some target =>
      if negb (may_change_role st m target r) then throw forbidden
      else
        let identity := gs_identity (m_session target) in
        check_named (m_session m) "manage-users.demote-" (role st (m_session target)) ;;;
        check_named (m_session m) "manage-users.promote-" r ;;;
        if negb (map_has identity (s_roles (e_snapshot st))) &&
           (MAX_ROLES <=? length (s_roles (e_snapshot st)))%nat
        then throw badRequest
        else
          modify (set_role identity r) ;;;
          modify (announce_identity identity) ;;;
          (match s_preparation (e_snapshot st) with
           | Some p =>
               if bool_decide (sp_clientId p = m_id target) then
                 ok <- can (m_session target) "playback.play-pause" ;;
                 when (negb ok) (modify clearPreparation ;;; prepare None)
               else ret tt
           | None => ret tt
           end) ;;;
          ret (Some no_context)
  end.

Definition do_kick (m : Member) (target : string) : EM (option EventContext) :=
  st <- get ;;
  match map_get target (e_members st) with
  | None => throw forbidden
  | Some t =>
      if rank (role st (m_session m)) <=? rank (role st (m_session t)) then throw forbidden
      else
        modify (fun st => st <| e_kicks ::= fun l => l ++ [m_id t] |>) ;;;
        leave (m_id t) ;;;
        ret (Some no_context)
  end.

(** The permissions the keys of [settings] need, in the schema's order: the keys before
    [grants], and those after it. *)
Definition setting_checks (s : Settings) : list string :=
  let key (present : bool) p := if present then [p] else [] in
  key (bool_decide (is_Some (set_title s))) "configure-room.set-title" ++
  key (bool_decide (is_Some (set_description s))) "configure-room.set-description" ++
  key (bool_decide (is_Some (set_visibility s))) "configure-room.set-visibility" ++
  key (bool_decide (is_Some (set_queueMode s))) "configure-room.set-queue-mode".

Definition other_checks (s : Settings) : list string :=
  if bool_decide (is_Some (set_autoSkip s)) || bool_decide (is_Some (set_restoreQueue s)) ||
     bool_decide (is_Some (set_enableVoteSkip s)) || bool_decide (is_Some (set_bufferGateMode s)) ||
     bool_decide (is_Some (set_danmakuSource s))
  then ["configure-room.other"] else [].

Definition grants_differ (g current : Grants) : bool :=
  existsb (fun kv => negb (bool_decide (Grants.getMask current kv.1 = Some kv.2))) (Grants.toJSON g).

Definition parse_grants (o : option (list (Role * Z))) : EM (option Grants) :=
  match o with
  | None => ret None
  | Some l => match Grants.construct l with
              | inl e => throw (GrantsThrew e)
              | inr g => ret (Some g)
              end
  end.

Definition unsupported_setting (s : Settings) : bool :=
  bool_decide (set_visibility s = Some Private) || bool_decide (set_queueMode s = Some Dj) ||
  match set_autoSkip s with Some (_ :: _) => true | _ => false end ||
  match set_restoreQueue s with Some b => negb (bool_decide (b = Always)) | None => false end.

Definition assign_setting {A} (o : option A) (key : Prop_) (f : A -> Snapshot -> Snapshot) (st : State) : State :=
  match o with
  | Some v => mark [key] (on_snapshot (f v) st)
  | None => st
  end.

Definition assign_settings (s : Settings) (st : State) : State :=
  assign_setting (set_enableVoteSkip s) PEnableVoteSkip (fun v s => s <| s_enableVoteSkip := v |>)
  (assign_setting (set_queueMode s) PQueueMode (fun v s => s <| s_queueMode := v |>)
  (assign_setting (set_visibility s) PVisibility (fun v s => s <| s_visibility := v |>)
  (assign_setting (set_description s) PDescription (fun v s => s <| s_description := v |>)
  (assign_setting (set_title s) PTitle (fun v s => s <| s_title := v |>) st)))).

Definition store_grants (g : Grants) (st : State) : State :=
  mark [PGrants] (on_snapshot (fun s => s <| s_grants := Grants.toJSON g |>) st).

(** The member preparing playback, when the room has them. *)
Definition preparer (st : State) : option Member :=
  map_get (default "" (sp_clientId <$> s_preparation (e_snapshot st))) (e_members st).

Definition change_grants (g : Grants) : EM unit :=
  modify (store_grants g) ;;;
  st <- get ;;
  (match preparer st with
   | Some m => ok <- can (m_session m) "playback.play-pause" ;; when (negb ok) (modify clearPreparation)
   | None => ret tt
   end) ;;;
  prepare None.

Definition settings (s : Settings) (m : Member) : EM unit :=
  g <- parse_grants (set_grants s) ;;
  current <- (match g with Some _ => grants | None => ret (MkGrants []) end) ;;
  let changed := match g with Some g => grants_differ g current | None => false end in
  mapM_ (check (m_session m)) (setting_checks s) ;;;
  st <- get ;;
  (if changed && negb (role st (m_session m) =? Owner) then throw forbidden else ret tt) ;;;
  mapM_ (check (m_session m)) (other_checks s) ;;;
  (if unsupported_setting s then throw badRequest else ret tt) ;;;
  modify (assign_settings s) ;;;
  (match g with
   | Some g => when changed (change_grants g)
   | None => ret tt
   end) ;;;
  modify orderVotes.

(** *** [apply] *)

Definition handle (c : Command) (m : Member) (resolved : list Resolved) : EM (option EventContext) :=
  let quiet (x : EM unit) : EM (option EventContext) := x ;;; ret None in
  match c with
  | CChat text => quiet (modify (fun st => push (MChat (info st m) text) st))
  | CPlayback value => do_playback value
  | CSeek value => do_seek value
  | CSkip => do_skip m
  | CAdd _ _ _ => do_add (map rv_item resolved)
  | CRemove video => do_remove video
  | COrder a b => do_order a b
  | CVote video add => do_vote video add m
  | CPlayNow v => do_play_now (va_video_id v) (map rv_item resolved)
  | CShuffle => do_shuffle
  | CPlaybackSpeed speed => do_speed speed
  | CTemporarySpeed action gesture video => quiet (modify (temporary_speed action gesture video (m_id m)))
  | CUpdateQueueItem video _ _ _ => do_update_item video resolved
  | CPromote target r => do_promote m target r
  | CKick target => do_kick m target
  | CApplySettings s => settings s m ;;; ret (Some no_context)
  | CRestoreQueue _ => ret None
  end.

Definition apply (c : Command) (m : Member) (resolved : list Resolved) : EM unit :=
  checkCommand c m ;;;
  out <- handle c m resolved ;;
  match out with
  | Some additional => modify (event (RCommand c) m additional)
  | None => ret tt
  end.

(** *** Alarms, synchronisation, persistence *)

Definition expire_lease (st : State) : State :=
  match s_temporarySpeed (e_snapshot st) with
  | Some t => if st_expiresAt t <=? e_now then clearTemporarySpeed st else st
  | None => st
  end.

Definition expire_preparation : EM unit :=
  st <- get ;;
  match s_preparation (e_snapshot st) with
  | Some p =>
      when (sp_expiresAt p <=? e_now) (modify clearPreparation ;;; prepare (Some (sp_clientId p)))
  | None => ret tt
  end.

Definition reached (position : Q) (limit : option num) : bool :=
  match limit with
  | Some (Fin e) => Qge_bool position e
  | Some (Inf true) => true
  | _ => false
  end.

Definition finish_source (st : State) : State :=
  match s_currentSource (e_snapshot st) with
  | Some v =>
      if s_isPlaying (e_snapshot st) && reached (position st) (source_end v) then next st else st
  | None => st
  end.

Definition tick : EM unit :=
  modify expire_lease ;;; expire_preparation ;;; modify finish_source.

Definition fullSync (st : State) : list (Prop_ * SyncValue) :=
  let s := e_snapshot st in [
    (PName, VString (s_name s)); (PTitle, VString (s_title s));
    (PDescription, VString (s_description s)); (PIsTemporary, VBool (s_isTemporary s));
    (PVisibility, VVisibility (s_visibility s)); (PQueueMode, VQueueMode (s_queueMode s));
    (PIsPlaying, VBool (s_isPlaying s)); (PPlaybackPosition, VNum (position st));
    (PPlaybackSpeed, VNum (s_playbackSpeed s)); (PCurrentSource, VSource (s_currentSource s));
    (PQueue, VQueue (s_queue s)); (PPrevQueue, VNull); (PHasOwner, VBool true);
    (PGrants, VGrants (s_grants s));
    (PVoteCounts, VCounts (map (fun kv => (kv.1, length kv.2)) (s_votes s)));
    (PVotesToSkip, VIds (s_votesToSkip s)); (PEnableVoteSkip, VBool (s_enableVoteSkip s));
    (PAutoSkip, VEmpty); (PVideoSegments, VEmpty); (PRestoreQueueBehavior, VBehavior Always);
    (PPlaybackPreparation, VPreparation
       ((fun p => (sp_id p, sp_clientId p, sp_video p, sp_position p)) <$> s_preparation s));
    (PTemporaryPlaybackSpeed, VTemporary
       ((fun t => (st_client t, st_gesture t, 2%Q)) <$> s_temporarySpeed s))
  ].

(** The message lists [dirty] in the order the keys were marked. *)
Definition sync_message (st : State) : list EdgeMessage :=
  match e_dirty st with
  | [] => []
  | d => [MSync (map (fun k => (k, map_get k (fullSync st))) d)]
  end.

Definition drain (st : State) : (list EdgeMessage * list string) * State :=
  ((e_messages st ++ sync_message st, e_kicks st),
   st <| e_dirty := [] |> <| e_messages := [] |> <| e_kicks := [] |>).

Definition persisted (st : State) : Snapshot * State :=
  let st := anchor st in (e_snapshot st, st).

(** [Math.min] and [Math.max] on two numbers. *)
Definition num_min (a b : num) : num :=
  match a, b with
  | NaN, _ | _, NaN => NaN
  | Inf true, _ | _, Inf true => Inf true
  | Inf false, x | x, Inf false => x
  | Fin x, Fin y => Fin (if Qle_bool x y then x else y)
  end.

Definition num_max (q : Q) (b : num) : num :=
  match b with
  | Fin x => Fin (Qmax' q x)
  | Inf true => Fin q
  | Inf false => Inf false
  | NaN => NaN
  end.

(** [(end - position) / speed * 1000], with [speed] positive (an invariant). *)
Definition time_left (st : State) (limit : num) : num :=
  match limit with
  | Fin e => Fin ((e - position st) / s_playbackSpeed (e_snapshot st) * 1000)
  | other => other
  end.

Definition from_now (d : num) : num :=
  match d with Fin q => Fin (inject_Z e_now + q) | other => other end.

(** The instants [times] collects. *)
Definition alarm_times (idleMs checkpointMs : Z) (st : State) : list num :=
  let s := e_snapshot st in
  match s_emptySince s with
  | Some t => if s_isTemporary s then [Fin (inject_Z (t + idleMs))] else []
  | None => []
  end ++
  match s_temporarySpeed s with Some t => [Fin (inject_Z (st_expiresAt t))] | None => [] end ++
  match s_preparation s with Some p => [Fin (inject_Z (sp_expiresAt p))] | None => [] end ++
  (if s_isPlaying s && occupied st then
     Fin (inject_Z (s_anchorAt s + checkpointMs)) ::
     match s_currentSource s ≫= source_end with
     | Some limit => [from_now (num_max 1 (time_left st limit))]
     | None => []
     end
   else []).

Definition nextAlarm (idleMs checkpointMs : Z) (st : State) : option num :=
  match alarm_times idleMs checkpointMs st with
  | [] => None
  | t :: l => Some (num_max (inject_Z (e_now + 1)) (fold_left num_min l t))
  end.

End Room.
End Edge.
