(* ===== verification/EdgeSteps.v ===== *)
(** * EdgeSteps: the invariant of the preview backend's room

    The ways a [RoomState] changes as one relation, the invariant that ties its
    fields together, and the lemma that every method keeps it, the failing calls
    included.  [EdgeTheorems] draws the properties from it. *)

From S2P Require Import Prelude Types Permissions VideoQueue RoomModel RoomPlayback RoomRequests.
From S2P Require Import EdgeModel.

Import Edge.

(** ** Steps *)

(** The calls [room-object.ts] makes.  [StepRestart] is a durable object that wakes up
    with no sockets: a new [RoomState] of the stored snapshot, and [recover]. *)
Inductive EdgeStep :=
  | EJoin (m : Member)
  | ELeave (id : string)
  | EStatus (id : string) (s : PlayerStatus) (prepared : option Report)
  | EApply (c : Command) (m : Member) (resolved : list Resolved)
  | ETick
  | EDrain
  | EPersist
  | ERestart.

Definition edge_perform `{J : EdgeJson} `{E : EdgeEnv} (s : EdgeStep) (st : State) : State :=
  match s with
  | EJoin m => (join m st).2
  | ELeave id => (leave id st).2
  | EStatus id s p => (status id s p st).2
  | EApply c m r => (apply c m r st).2
  | ETick => (tick st).2
  | EDrain => (drain st).2
  | EPersist => (persisted st).2
  | ERestart => (recover (construct (persisted st).1)).2
  end.

(** What the callers guarantee: a parsed command, and dice inside their bounds. *)
Definition step_ok (s : EdgeStep) : Prop :=
  match s with EApply c _ _ => command_ok c = true | _ => True end.

Class FairRandom (E : EdgeEnv) : Prop := random_below : forall n, (0 < n)%nat -> (e_randomInt n < n)%nat.

Inductive edge_reachable `{J : EdgeJson} (st0 : State) : State -> Prop :=
  | edge_start : edge_reachable st0 st0
  | edge_next (E : EdgeEnv) s st :
      edge_reachable st0 st -> FairRandom E -> step_ok s ->
      edge_reachable st0 (edge_perform s st).

(** ** The invariant *)

Definition speed_ok (q : Q) : Prop := ((1 # 4) <= q <= 4)%Q.

Section Invariant.
Context {J : EdgeJson} {L : EdgeJsonLaws J}.

(** [gone] names a member already removed whose round has not been ended yet: the state
    [leave] passes through. *)
Record edge_inv_but (gone : option string) (st : State) : Prop := {
  inv_grants : exists g, Grants.construct (s_grants (e_snapshot st)) = inr g;
  inv_queue : (length (s_queue (e_snapshot st)) <= MAX_PENDING)%nat;
  inv_bytes : (queue_bytes (s_currentSource (e_snapshot st)) (s_queue (e_snapshot st)) <= MAX_QUEUE_BYTES)%nat;
  inv_speed : speed_ok (s_playbackSpeed (e_snapshot st));
  inv_lease : forall t, s_temporarySpeed (e_snapshot st) = Some t ->
    s_playbackSpeed (e_snapshot st) = 2%Q /\ speed_ok (st_previous t);
  inv_playing : s_isPlaying (e_snapshot st) = true -> is_Some (s_currentSource (e_snapshot st));
  inv_preparation : forall p, s_preparation (e_snapshot st) = Some p ->
    s_isPlaying (e_snapshot st) = false /\ source_id (e_snapshot st) = Some (sp_video p) /\
    (Some (sp_clientId p) = gone \/ map_has (sp_clientId p) (e_members st) = true);
  inv_roles : (length (s_roles (e_snapshot st)) <= MAX_ROLES)%nat /\
    Forall (fun kv => UnregisteredUser <= kv.2 <= Administrator) (s_roles (e_snapshot st));
  inv_members : Forall (fun kv => m_id kv.2 = kv.1) (e_members st);
}.
Notation edge_inv := (edge_inv_but None).

(** *** Methods that change one group of fields *)

Ltac edge_field :=
  first [ done | assumption | eassumption | solve [eauto 3] | by intros; simplify_eq
  | solve [let Hx := fresh in intros ? Hx;
           match goal with H : forall q, _ = Some q -> _ |- _ =>
             destruct (H _ Hx) as (? & ? & ?); auto end] ].

(** Take the state apart, so that every update computes, and rebuild the invariant. *)
Ltac edge_inv_tac st :=
  let H := fresh "H" in
  intros H; destruct st as [s0 ms ds msgs ks]; destruct s0; destruct H; cbn in *;
  constructor; cbn; try edge_field.

Lemma inv_mark gone keys st : edge_inv_but gone st -> edge_inv_but gone (mark keys st).
Proof. edge_inv_tac st. Qed.

Lemma inv_push gone m st : edge_inv_but gone st -> edge_inv_but gone (push m st).
Proof. edge_inv_tac st. Qed.

Lemma inv_event gone q m a st : edge_inv_but gone st -> edge_inv_but gone (event q m a st).
Proof. apply inv_push. Qed.

Lemma inv_anchor_at gone `{E : EdgeEnv} q st : edge_inv_but gone st -> edge_inv_but gone (anchor_at q st).
Proof. edge_inv_tac st. Qed.

Lemma inv_anchor gone `{E : EdgeEnv} st : edge_inv_but gone st -> edge_inv_but gone (anchor st).
Proof. apply inv_anchor_at. Qed.

Lemma inv_pause gone `{E : EdgeEnv} st : edge_inv_but gone st -> edge_inv_but gone (playing false st).
Proof.
  intros H. apply inv_mark. apply (inv_anchor gone) in H. unfold anchor in *.
  set (st' := anchor_at (position st) st) in *. clearbody st'. revert H. edge_inv_tac st'.
Qed.

Lemma inv_play `{E : EdgeEnv} st :
  s_preparation (e_snapshot st) = None -> is_Some (s_currentSource (e_snapshot st)) ->
  edge_inv st -> edge_inv (playing true st).
Proof.
  intros Hp Hs H. apply inv_mark. unfold anchor. generalize (position st). intros q.
  revert Hp Hs H. intros Hp Hs. edge_inv_tac st.
Qed.

Lemma clearPreparation_none st : s_preparation (e_snapshot (clearPreparation st)) = None.
Proof. destruct st as [s ? ? ? ?]. unfold clearPreparation. cbn. by destruct (s_preparation s) eqn:H. Qed.

Lemma inv_clearPreparation gone st : edge_inv_but gone st -> edge_inv (clearPreparation st).
Proof.
  unfold clearPreparation. destruct (s_preparation (e_snapshot st)) as [p|] eqn:Hp.
  - intros H. apply inv_mark. revert H. edge_inv_tac st.
  - revert Hp. intros Hp. edge_inv_tac st.
Qed.

Lemma inv_clearTemporarySpeed gone `{E : EdgeEnv} st :
  edge_inv_but gone st -> edge_inv_but gone (clearTemporarySpeed st).
Proof.
  unfold clearTemporarySpeed. destruct (s_temporarySpeed (e_snapshot st)) as [t|] eqn:Ht; [|done].
  intros H. apply inv_mark. unfold anchor. generalize (position st). intros q.
  revert Ht H. intros Ht. edge_inv_tac st.
  by destruct (inv_lease0 t Ht).
Qed.

(** *** Reading the permission table *)

Lemma grants_run st g : Grants.construct (s_grants (e_snapshot st)) = inr g -> grants st = (inr g, st).
Proof. unfold grants. by intros ->. Qed.

Lemma can_state session p st : (can session p st).2 = st.
Proof. unfold can, bind, grants, gets. by destruct (Grants.construct _). Qed.

Lemma can_run st g session p :
  Grants.construct (s_grants (e_snapshot st)) = inr g ->
  can session p st = (inr (Grants.granted g (role st session) p), st).
Proof. intros Hg. unfold can, bind. by rewrite (grants_run st g Hg). Qed.

Lemma check_state session p st : (check session p st).2 = st.
Proof.
  unfold check, bind. pose proof (can_state session p st) as H.
  destruct (can session p st) as [[e|[]] st']; exact H.
Qed.

Lemma check_run st g session p :
  Grants.construct (s_grants (e_snapshot st)) = inr g ->
  check session p st =
  (if Grants.granted g (role st session) p then inr tt else inl permissionDenied, st).
Proof. intros Hg. unfold check, bind. rewrite (can_run st g _ _ Hg). by destruct (Grants.granted _ _ _). Qed.

Lemma keeps_can I session p : keeps I (can session p).
Proof. intros st H. by rewrite can_state. Qed.

Lemma edge_keeps_check I session p : keeps I (check session p).
Proof. intros st H. by rewrite check_state. Qed.

Lemma find_preparer_run st g exclude l :
  Grants.construct (s_grants (e_snapshot st)) = inr g ->
  exists r, find_preparer exclude l st = (inr r, st) /\
    match r with
    | Some m => m ∈ l /\ Some (m_id m) <> exclude /\
        Grants.granted g (role st (m_session m)) "playback.play-pause" = true
    | None => forall m, m ∈ l -> Some (m_id m) <> exclude ->
        Grants.granted g (role st (m_session m)) "playback.play-pause" = false
    end.
Proof.
  intros Hg. induction l as [|m l (r & IH & Hr)]; simpl.
  { exists None. split; [done|]. intros m Hm. by apply not_elem_of_nil in Hm. }
  case_bool_decide as Hx.
  - exists r. split; [done|]. destruct r; [destruct Hr as (? & ? & ?); split; [by right|done]|].
    intros m' [->|Hm']%elem_of_cons ?; [done|by apply Hr].
  - unfold bind. rewrite (can_run st g _ _ Hg).
    destruct (Grants.granted g _ _) eqn:Hc.
    + exists (Some m). split; [done|]. split; [by left|done].
    + exists r. split; [done|]. destruct r; [destruct Hr as (? & ? & ?); split; [by right|done]|].
      intros m' [->|Hm']%elem_of_cons ?; [done|by apply Hr].
Qed.

(** *** Preparing playback *)

Lemma member_present (l : list (string * Member)) m :
  Forall (fun kv => m_id kv.2 = kv.1) l -> m ∈ l.*2 -> map_has (m_id m) l = true.
Proof.
  intros Hl (kv & -> & Hin)%list_elem_of_fmap. rewrite Forall_forall in Hl.
  rewrite (Hl kv Hin). unfold map_has. destruct (map_get kv.1 l) eqn:Hn; [done|].
  apply map_get_None in Hn. exfalso. apply Hn. apply list_elem_of_fmap. eauto.
Qed.

Lemma inv_begin_preparation `{E : EdgeEnv} m v st :
  s_currentSource (e_snapshot st) = Some v -> s_isPlaying (e_snapshot st) = false -> m ∈ (e_members st).*2 ->
  edge_inv st -> edge_inv (begin_preparation m v st).
Proof.
  intros Hv Hp Hm H. pose proof (member_present _ m (inv_members _ _ H) Hm) as Hin.
  apply inv_mark. generalize (position st). intros q. revert Hv Hp Hin H. intros Hv Hp Hin.
  edge_inv_tac st. intros p [= <-]. cbn. subst. split; [done|]. split; [done|by right].
Qed.

Lemma prepare_keeps `{E : EdgeEnv} exclude : keeps edge_inv (prepare exclude).
Proof.
  intros st H. unfold prepare, bind, get.
  destruct (s_currentSource (e_snapshot st)) as [v|] eqn:Hv; [|done].
  destruct (s_preparation (e_snapshot st)) eqn:Hp; [done|].
  destruct (negb (s_resumeOnNextJoin (e_snapshot st)) || s_isPlaying (e_snapshot st)) eqn:Hc; [done|].
  apply orb_false_iff in Hc as [_ Hc].
  destruct (inv_grants _ _ H) as [g Hg].
  destruct (find_preparer_run st g exclude (e_members st).*2 Hg) as (r & -> & Hr).
  destruct r as [m|]; [|done]. destruct Hr as [Hm _]. cbn. by apply inv_begin_preparation.
Qed.

Lemma map_set_members l k (m : Member) :
  Forall (fun kv => m_id kv.2 = kv.1) l -> m_id m = k ->
  Forall (fun kv => m_id kv.2 = kv.1) (map_set k m l).
Proof.
  intros Hl Hk. induction Hl as [|[k0 m0] l Hkv Hl IH]; simpl.
  - constructor; [done|constructor].
  - case_decide; constructor; simpl in *; congruence || done.
Qed.

Lemma map_has_set {V} (k k' : string) (v : V) l : map_has k l = true -> map_has k (map_set k' v l) = true.
Proof. unfold map_has. rewrite map_get_set. by case_decide. Qed.

Lemma inv_set_member id m st :
  m_id m = id -> edge_inv st -> edge_inv (st <| e_members ::= map_set id m |>).
Proof.
  intros Hm. edge_inv_tac st.
  - intros p Hp. destruct (inv_preparation0 p Hp) as (? & ? & [?|?]); [done|].
    split; [done|]. split; [done|]. right. by apply map_has_set.
  - by apply map_set_members.
Qed.

Lemma inv_emptySince gone v st :
  edge_inv_but gone st -> edge_inv_but gone (on_snapshot (fun s => s <| s_emptySince := v |>) st).
Proof. edge_inv_tac st. Qed.

Lemma inv_resume gone f st :
  edge_inv_but gone st ->
  edge_inv_but gone (on_snapshot (fun s => s <| s_resumeOnNextJoin := f s |>) st).
Proof. edge_inv_tac st. Qed.

Lemma join_keeps `{E : EdgeEnv} m : keeps edge_inv (join m).
Proof.
  unfold join. keeps_tac.
  - apply inv_emptySince. by apply inv_set_member.
  - by apply inv_push.
  - by apply inv_event.
  - apply prepare_keeps.
Qed.

(** *** The queue *)

Lemma queue_bytes_perm cur q q' : q ≡ₚ q' -> queue_bytes cur q = queue_bytes cur q'.
Proof. intros Hq. unfold queue_bytes. f_equal. by rewrite Hq. Qed.

Lemma queue_fits_perm cur q q' : q ≡ₚ q' -> queue_fits cur q = queue_fits cur q'.
Proof. intros Hq. unfold queue_fits. by rewrite (queue_bytes_perm cur q q' Hq), (Permutation_length Hq). Qed.

Lemma queue_fits_iff cur q :
  queue_fits cur q = true <->
  (length q <= MAX_PENDING)%nat /\ (queue_bytes cur q <= MAX_QUEUE_BYTES)%nat.
Proof. unfold queue_fits. by rewrite andb_true_iff, !Nat.leb_le. Qed.

(** Any write of the queue that fits. *)
Lemma inv_set_queue gone q st :
  queue_fits (s_currentSource (e_snapshot st)) q = true ->
  edge_inv_but gone st -> edge_inv_but gone (on_snapshot (fun s => s <| s_queue := q |>) st).
Proof. intros [Hl Hb]%queue_fits_iff. edge_inv_tac st. Qed.

Lemma inv_fits gone st :
  edge_inv_but gone st -> queue_fits (s_currentSource (e_snapshot st)) (s_queue (e_snapshot st)) = true.
Proof. intros H. apply queue_fits_iff. split; [apply (inv_queue _ _ H)|apply (inv_bytes _ _ H)]. Qed.

Lemma inv_permute gone f st :
  f (e_snapshot st) ≡ₚ s_queue (e_snapshot st) ->
  edge_inv_but gone st -> edge_inv_but gone (on_snapshot (fun s => s <| s_queue := f s |>) st).
Proof.
  intros Hp H. apply (inv_set_queue gone (f (e_snapshot st))); [|done].
  rewrite (queue_fits_perm _ _ _ Hp). by apply (inv_fits gone).
Qed.

Lemma inv_orderVotes gone st : edge_inv_but gone st -> edge_inv_but gone (orderVotes st).
Proof.
  intros H. unfold orderVotes. case_decide; [|done]. apply inv_mark, inv_permute; [|done].
  apply sort_desc_stable.
Qed.

Lemma inv_drop_votes gone id st : edge_inv_but gone st -> edge_inv_but gone (drop_votes id st).
Proof. intros H. apply inv_mark. revert H. edge_inv_tac st. Qed.

Lemma inv_forget_votes gone v st : edge_inv_but gone st -> edge_inv_but gone (forget_votes v st).
Proof. edge_inv_tac st. Qed.

Lemma inv_next_votes gone v st :
  edge_inv_but gone st ->
  edge_inv_but gone (on_snapshot (fun s => s <| s_votes ::= map_delete (keyFor (video_id_of v)) |>) st).
Proof. apply (inv_forget_votes gone (video_id_of v)). Qed.

(** What [start] leaves alone. *)
Definition start_frame (st : State) :=
  (s_grants (e_snapshot st), s_roles (e_snapshot st), e_members st, s_queue (e_snapshot st)).

Lemma start_frame_mark keys st : start_frame (mark keys st) = start_frame st.
Proof. by destruct st. Qed.

Lemma start_frame_clearTemporarySpeed `{E : EdgeEnv} st : start_frame (clearTemporarySpeed st) = start_frame st.
Proof.
  unfold clearTemporarySpeed. destruct (s_temporarySpeed (e_snapshot st)); [|done].
  unfold anchor. generalize (position st). intros q. rewrite start_frame_mark. by destruct st.
Qed.

Lemma start_frame_clearPreparation st : start_frame (clearPreparation st) = start_frame st.
Proof. unfold clearPreparation. destruct (s_preparation (e_snapshot st)); [|done]. by destruct st. Qed.

Lemma clearTemporarySpeed_none `{E : EdgeEnv} st : s_temporarySpeed (e_snapshot (clearTemporarySpeed st)) = None.
Proof.
  unfold clearTemporarySpeed. destruct (s_temporarySpeed (e_snapshot st)) eqn:H; [|done].
  unfold anchor. generalize (position st). intros q. by destruct st.
Qed.

Lemma clearPreparation_lease st :
  s_temporarySpeed (e_snapshot (clearPreparation st)) = s_temporarySpeed (e_snapshot st).
Proof. unfold clearPreparation. destruct (s_preparation (e_snapshot st)); [|done]. by destruct st. Qed.

(** [start] on a state that differs from a good one outside the frame. *)
Lemma inv_start `{E : EdgeEnv} v st0 st :
  edge_inv st0 ->
  s_grants (e_snapshot st) = s_grants (e_snapshot st0) -> s_roles (e_snapshot st) = s_roles (e_snapshot st0) ->
  e_members st = e_members st0 -> queue_fits v (s_queue (e_snapshot st)) = true ->
  edge_inv (start v st).
Proof.
  intros H Hg Hr Hm Hf. unfold start. apply inv_mark.
  set (st1 := clearPreparation (clearTemporarySpeed st)).
  assert (Hfr : start_frame st1 = start_frame st).
  { unfold st1. by rewrite start_frame_clearPreparation, start_frame_clearTemporarySpeed. }
  assert (Ht : s_temporarySpeed (e_snapshot st1) = None).
  { unfold st1. by rewrite clearPreparation_lease, clearTemporarySpeed_none. }
  assert (Hp : s_preparation (e_snapshot st1) = None) by apply clearPreparation_none.
  clearbody st1. unfold start_frame in Hfr. injection Hfr as H1 H2 H3 H4.
  apply queue_fits_iff in Hf as [Hl Hb]. rewrite <- H4 in Hl, Hb.
  rewrite Hg in H1. rewrite Hr in H2. rewrite Hm in H3. clear Hg Hr Hm H4 st.
  destruct st1 as [s1 ms ds msgs ks]. destruct s1. destruct H. cbn in *. subst.
  constructor; cbn; try edge_field.
  by intros [Hs%bool_decide_eq_true _]%andb_true_iff.
Qed.

Lemma list_sum_cons n l : list_sum (n :: l) = (n + list_sum l)%nat.
Proof. done. Qed.

(** Taking the next item never takes more room than the queue had. *)
Lemma next_fits s :
  queue_fits (s_currentSource s) (s_queue s) = true ->
  queue_fits (head (looped s)) (tail (looped s)) = true.
Proof.
  rewrite !queue_fits_iff. pose proof json_null as Hn. pose proof json_item as Hi.
  assert (Hcur : (4 <= e_jsonBytes (s_currentSource s))%nat).
  { destruct (s_currentSource s); [apply Hi|lia]. }
  unfold looped, queue_bytes. intros [Hl Hb].
  destruct (s_queue s) as [|x q] eqn:Hq; destruct (s_currentSource s) as [c|] eqn:Hc;
    destruct (s_queueMode s); cbn -[MAX_QUEUE_BYTES MAX_PENDING list_sum] in *; split;
    rewrite ?length_app, ?map_app, ?list_sum_app; rewrite ?list_sum_cons in *;
    cbn -[MAX_QUEUE_BYTES MAX_PENDING list_sum]; rewrite ?list_sum_cons; change (list_sum []) with 0%nat in *; lia.
Qed.

Lemma inv_next `{E : EdgeEnv} st : edge_inv st -> edge_inv (next st).
Proof.
  intros H. unfold next. apply inv_mark.
  pose proof (next_fits _ (inv_fits _ _ H)) as Hf.
  destruct (head (looped (e_snapshot st))) as [v|];
    (apply (inv_start _ st); [done|by destruct st as [[] ? ? ? ?]..|]);
    destruct st as [[] ? ? ? ?]; exact Hf.
Qed.

(** *** Leaving and recovering *)

Lemma map_has_delete (k k' : string) (l : list (string * Member)) :
  k <> k' -> map_has k l = true -> map_has k (map_delete k' l) = true.
Proof. unfold map_has. intros. by rewrite map_get_delete_ne. Qed.

Lemma inv_delete_member id st :
  edge_inv st -> edge_inv_but (Some id) (st <| e_members ::= map_delete id |>).
Proof.
  edge_inv_tac st.
  - intros p Hp. destruct (inv_preparation0 p Hp) as (? & ? & [?|Hin]); [done|].
    split; [done|]. split; [done|]. destruct (decide (sp_clientId p = id)) as [->|Hne]; [by left|right].
    exact (map_has_delete _ _ _ Hne Hin).
  - unfold map_delete. apply Forall_forall. intros kv [_ Hin]%list_elem_of_filter.
    rewrite Forall_forall in inv_members0. by apply inv_members0.
Qed.

Lemma inv_none_gone gone st : edge_inv st -> edge_inv_but gone st.
Proof.
  intros []. constructor; try done. intros p Hp. destruct (inv_preparation0 p Hp) as (? & ? & [?|?]); auto; done.
Qed.

Lemma inv_settle id st :
  (forall p, s_preparation (e_snapshot st) = Some p -> sp_clientId p <> id) ->
  edge_inv_but (Some id) st -> edge_inv st.
Proof.
  intros Hne []. constructor; try done. intros p Hp. specialize (Hne p Hp).
  destruct (inv_preparation0 p Hp) as (? & ? & [?|?]); [congruence|auto].
Qed.

Lemma inv_drop_client `{E : EdgeEnv} id st : edge_inv_but (Some id) st -> edge_inv (drop_client id st).
Proof.
  intros H. unfold drop_client.
  set (st1 := match s_temporarySpeed (e_snapshot st) with Some _ => _ | None => _ end).
  assert (H1 : edge_inv_but (Some id) st1).
  { unfold st1. destruct (s_temporarySpeed _); [|done]. case_bool_decide; [|done].
    by apply inv_clearTemporarySpeed. }
  clearbody st1. destruct (s_preparation (e_snapshot st1)) as [p|] eqn:Hp.
  - case_bool_decide as Hid; [by apply (inv_clearPreparation (Some id))|].
    apply (inv_settle id); [|done]. intros p' Hp'. congruence.
  - apply (inv_settle id); [|done]. intros p' Hp'. congruence.
Qed.

Lemma inv_pause_empty `{E : EdgeEnv} st : edge_inv st -> edge_inv (pause_empty st).
Proof. intros H. apply inv_emptySince, inv_pause. by apply inv_resume. Qed.

Lemma leave_keeps `{E : EdgeEnv} id : keeps edge_inv (leave id).
Proof.
  intros st H. unfold leave, bind, get. destruct (map_get id (e_members st)) as [m|]; [|done].
  cbv beta iota delta [modify].
  match goal with |- context [drop_client id ?x] =>
    assert (H1 : edge_inv (drop_client id x));
      [|set (st1 := drop_client id x) in *; clearbody st1] end.
  - apply inv_drop_client, inv_orderVotes, inv_drop_votes, inv_push, inv_delete_member. by apply inv_event.
  - destruct (e_members st1) eqn:Hm; [by apply inv_pause_empty|by apply prepare_keeps].
Qed.

Lemma inv_recover_empty gone `{E : EdgeEnv} st : edge_inv_but gone st -> edge_inv (recover_empty st).
Proof.
  intros H. unfold recover_empty.
  match goal with |- context [clearPreparation (on_snapshot ?f st)] =>
    set (st1 := clearPreparation (on_snapshot f st)) end.
  assert (H1 : edge_inv st1).
  { unfold st1, clearPreparation. destruct (s_preparation _) eqn:Hp; [apply inv_mark|].
    - clear Hp. revert H. edge_inv_tac st.
    - revert Hp H. intros Hp. edge_inv_tac st. }
  clearbody st1. destruct (s_temporarySpeed (e_snapshot st1)) as [t|] eqn:Ht; [|done].
  revert Ht H1. clear. intros Ht. edge_inv_tac st1. by destruct (inv_lease0 t Ht).
Qed.

(** A new object has no members yet: only the client of the stored round is missing. *)
Lemma inv_construct st :
  edge_inv st -> exists gone, edge_inv_but gone (construct (e_snapshot st)).
Proof.
  intros []. exists (sp_clientId <$> s_preparation (e_snapshot st)). constructor; try done; cbn.
  intros p Hp. destruct (inv_preparation0 p Hp) as (? & ? & _). rewrite Hp. auto.
Qed.

Lemma restart_keeps `{E : EdgeEnv} st : edge_inv st -> edge_inv (recover (construct (e_snapshot st))).2.
Proof.
  intros H. destruct (inv_construct st H) as [gone Hg]. unfold recover, bind, get.
  change (e_members (construct (e_snapshot st))) with (@nil (string * Member)).
  by apply (inv_recover_empty gone).
Qed.

(** *** Reports of readiness *)

Lemma inv_start_prepared `{E : EdgeEnv} st :
  is_Some (s_currentSource (e_snapshot st)) -> edge_inv st ->
  edge_inv (playing true (on_snapshot (fun s => s <| s_resumeOnNextJoin := false |>) (clearPreparation st))).
Proof.
  intros Hs H.
  assert (Hs' : s_currentSource (e_snapshot (clearPreparation st)) = s_currentSource (e_snapshot st)).
  { unfold clearPreparation. destruct (s_preparation _); [|done]. by destruct st as [[] ? ? ? ?]. }
  pose proof (clearPreparation_none st) as Hp. pose proof (inv_clearPreparation None st H) as H1.
  rewrite <- Hs' in Hs. set (st1 := clearPreparation st) in *. clearbody st1. clear H.
  apply inv_play.
  - by destruct st1 as [[] ? ? ? ?].
  - by destruct st1 as [[] ? ? ? ?].
  - by apply (inv_resume None (fun _ => false)).
Qed.

Lemma report_has_source `{E : EdgeEnv} st id s prepared :
  report_accepted st id s prepared = true -> is_Some (s_currentSource (e_snapshot st)).
Proof.
  unfold report_accepted. destruct (s_preparation _); [|done]. destruct prepared; [|done].
  intros [_ H]%andb_true_iff. unfold sameVideo, source_id in H.
  destruct (s_currentSource _); [eauto|done].
Qed.

Lemma status_keeps `{E : EdgeEnv} id s prepared : keeps edge_inv (status id s prepared).
Proof.
  intros st H. unfold status, bind at 1, get at 1. destruct (map_get id (e_members st)) as [m0|] eqn:Hm; [|done].
  assert (Hid : m_id (m0 <| m_status := s |>) = id).
  { pose proof (inv_members _ _ H) as Hms. rewrite Forall_forall in Hms.
    exact (Hms _ (map_get_In _ _ _ Hm)). }
  set (m := m0 <| m_status := s |>) in *. clearbody m. cbv zeta.
  revert st H Hm. intros st H _. revert st H. change (keeps edge_inv (
    modify (fun st => st <| e_members ::= map_set id m |>) ;;;
    modify (fun st => push (MUserUpdate (info st m)) st) ;;;
    st <- get ;;
    if report_accepted st id s prepared then
      ok <- can (m_session m) "playback.play-pause" ;;
      when ok (modify (fun st =>
        playing true (on_snapshot (fun s => s <| s_resumeOnNextJoin := false |>) (clearPreparation st))))
    else ret tt)).
  apply keeps_bind; [apply keeps_modify; intros; by apply inv_set_member|intros _].
  apply keeps_bind; [apply keeps_modify; intros; by apply inv_push|intros _].
  intros st H. unfold bind at 1, get at 1. destruct (report_accepted st id s prepared) eqn:Hr; [|done].
  apply report_has_source in Hr. destruct (inv_grants _ _ H) as [g Hg].
  unfold bind. rewrite (can_run st g _ _ Hg). destruct (Grants.granted _ _ _); [|done].
  by apply inv_start_prepared.
Qed.

(** *** Commands *)

Lemma inv_playback `{E : EdgeEnv} value : keeps edge_inv (do_playback value).
Proof.
  intros st H. unfold do_playback, bind, get. destruct (s_currentSource (e_snapshot st)) eqn:Hs; [|done].
  cbn -[playing clearPreparation on_snapshot]. destruct value.
  - apply inv_start_prepared; [by eexists|done].
  - apply inv_pause, (inv_resume None (fun _ => false)). by apply (inv_clearPreparation None).
Qed.

Lemma keeps_clear_prepare `{E : EdgeEnv} exclude :
  keeps edge_inv (modify clearPreparation ;;; prepare exclude).
Proof.
  apply keeps_bind; [|intros _; apply prepare_keeps].
  apply keeps_modify. intros. by apply (inv_clearPreparation None).
Qed.

Lemma inv_seek `{E : EdgeEnv} value : keeps edge_inv (do_seek value).
Proof.
  unfold do_seek. apply keeps_bind; [apply keeps_get|intros st].
  keeps_tac; first [by apply inv_mark, inv_anchor_at | by apply (inv_clearPreparation None)
                   | apply prepare_keeps].
Qed.

Lemma inv_add_skip_vote gone id st : edge_inv_but gone st -> edge_inv_but gone (add_skip_vote id st).
Proof. intros H. apply inv_mark. revert H. edge_inv_tac st. Qed.

Lemma inv_skip `{E : EdgeEnv} m : keeps edge_inv (do_skip m).
Proof. unfold do_skip. keeps_tac; [by apply inv_add_skip_vote|by apply inv_next]. Qed.

Lemma checkQueueSize_run q cur st :
  checkQueueSize q cur st = (if queue_fits cur q then inr tt else inl badRequest, st).
Proof. unfold checkQueueSize. by destruct (queue_fits cur q). Qed.

Lemma set_queue_keeps (q : list QueueItem) st :
  queue_fits (s_currentSource (e_snapshot st)) q = true -> edge_inv st ->
  edge_inv (mark [PQueue] (on_snapshot (fun s => s <| s_queue := q |>) st)).
Proof. intros Hf H. by apply inv_mark, inv_set_queue. Qed.

Lemma add_tail_keeps `{E : EdgeEnv} b (out : option EventContext) :
  keeps edge_inv ((modify orderVotes ;;; when b (modify next) ;;; ret out) : EM (option EventContext)).
Proof. keeps_tac; [by apply inv_orderVotes|by apply inv_next]. Qed.

Lemma inv_add `{E : EdgeEnv} resolved : keeps edge_inv (do_add resolved).
Proof.
  intros st H. unfold do_add, bind at 1, get. destruct (_ || _); [done|].
  unfold bind at 1. rewrite checkQueueSize_run. destruct (queue_fits _ _) eqn:Hf; [|done].
  exact (add_tail_keeps _ _ _ (set_queue_keeps _ st Hf H)).
Qed.

Lemma queue_fits_sub cur q q' :
  q' `sublist_of` q -> queue_fits cur q = true -> queue_fits cur q' = true.
Proof.
  rewrite !queue_fits_iff. intros Hs [Hl Hb].
  assert (Hsum : (list_sum (map (fun v => 1 + e_jsonBytes (Some v)) q') <=
                  list_sum (map (fun v => 1 + e_jsonBytes (Some v)) q))%nat).
  { clear Hl Hb. induction Hs; cbn [map]; rewrite ?list_sum_cons; lia. }
  apply sublist_length in Hs. unfold queue_bytes in *. split; lia.
Qed.

Lemma inv_remove video : keeps edge_inv (do_remove video).
Proof.
  intros st H. unfold do_remove, bind, get. destruct (index_of _ _) as [i|]; [|done].
  cbn -[mark forget_votes on_snapshot]. apply inv_mark, inv_forget_votes, inv_set_queue; [|done].
  apply (queue_fits_sub _ (s_queue (e_snapshot st))); [|by apply (inv_fits None)].
  unfold splice_out. rewrite <- delete_take_drop. apply sublist_delete.
Qed.

Lemma reorder_perm i j q : reorder i j q ≡ₚ q.
Proof.
  unfold reorder. destruct (q !! i) as [v|] eqn:Hv; [|done].
  by rewrite splice_in_Permutation, <- splice_out_Permutation.
Qed.

Lemma inv_order i j : keeps edge_inv (do_order i j).
Proof.
  intros st H. unfold do_order, bind, get. destruct (_ || _); [done|].
  apply set_queue_keeps; [|done]. rewrite (queue_fits_perm _ _ _ (reorder_perm i j _)).
  by apply (inv_fits None).
Qed.

Lemma inv_change_vote gone video add id st :
  edge_inv_but gone st -> edge_inv_but gone (change_vote video add id st).
Proof. edge_inv_tac st. Qed.

Lemma inv_vote video add m : keeps edge_inv (do_vote video add m).
Proof.
  unfold do_vote. keeps_tac. by apply inv_orderVotes, inv_mark, inv_change_vote.
Qed.

Lemma inv_play_now `{E : EdgeEnv} video resolved : keeps edge_inv (do_play_now video resolved).
Proof.
  intros st H. unfold do_play_now, bind at 1, get. destruct (sameVideo _ _); [done|].
  destruct resolved as [|v resolved]; [done|]. unfold bind at 1. rewrite checkQueueSize_run.
  destruct (queue_fits (Some v) _) eqn:Hf; [|done].
  apply inv_mark, (inv_start _ st); [done|by destruct st as [[] ? ? ? ?]..|].
  destruct st as [[] ? ? ? ?]. exact Hf.
Qed.

Lemma insert_Permutation (i : nat) (x y : QueueItem) q : q !! i = Some x -> <[i := y]> q ≡ₚ y :: delete i q.
Proof.
  intros Hx. assert (Hi : (i < length q)%nat) by (by apply lookup_lt_Some in Hx).
  rewrite insert_take_drop by done. rewrite delete_take_drop. by rewrite Permutation_middle.
Qed.

Lemma swap_perm i j q : swap i j q ≡ₚ q.
Proof.
  unfold swap. destruct (q !! i) as [x|] eqn:Hi; [|done]. destruct (q !! j) as [y|] eqn:Hj; [|done].
  destruct (decide (i = j)) as [<-|Hne].
  { rewrite Hi in Hj. injection Hj as <-. by rewrite list_insert_insert_eq, list_insert_id. }
  assert (Hi' : <[j := x]> q !! i = Some x) by (by rewrite list_lookup_insert_ne).
  rewrite (insert_Permutation i x y) by done.
  assert (Hd : delete i (<[j := x]> q) ≡ₚ delete j q).
  { apply (Permutation_cons_inv (a := x)). rewrite <- (delete_Permutation _ _ _ Hi').
    by rewrite (insert_Permutation j y x). }
  by rewrite Hd, <- (delete_Permutation _ _ _ Hj).
Qed.

Lemma shuffle_perm `{E : EdgeEnv} i : forall q, shuffle_from i q ≡ₚ q.
Proof. induction i as [|i IH]; intros q; simpl; [done|]. by rewrite IH, swap_perm. Qed.

Lemma inv_shuffle `{E : EdgeEnv} : keeps edge_inv do_shuffle.
Proof. unfold do_shuffle. keeps_tac. apply inv_mark, inv_permute; [apply shuffle_perm|done]. Qed.

Lemma inv_speed_cmd `{E : EdgeEnv} speed : speed_ok speed -> keeps edge_inv (do_speed speed).
Proof.
  intros Hq. unfold do_speed. keeps_tac. apply inv_mark.
  pose proof (clearTemporarySpeed_none s) as Ht.
  pose proof (inv_clearTemporarySpeed None s ltac:(done)) as H1.
  set (st1 := clearTemporarySpeed s) in *. clearbody st1. unfold anchor. generalize (position st1).
  intros q. revert Ht H1. clear -Hq. intros Ht. edge_inv_tac st1.
Qed.

Lemma inv_renew gone `{E : EdgeEnv} t st :
  s_temporarySpeed (e_snapshot st) = Some t -> edge_inv_but gone st -> edge_inv_but gone (renew_lease t st).
Proof.
  intros Ht. edge_inv_tac st. intros t' [= <-]. by destruct (inv_lease0 t Ht).
Qed.

Lemma inv_begin_lease gone `{E : EdgeEnv} id gesture st :
  edge_inv_but gone st -> edge_inv_but gone (begin_lease id gesture st).
Proof.
  intros H. apply inv_mark. unfold anchor. generalize (position st). intros q. revert H.
  edge_inv_tac st.
Qed.

Lemma inv_temporary_speed gone `{E : EdgeEnv} action gesture video id st :
  edge_inv_but gone st -> edge_inv_but gone (temporary_speed action gesture video id st).
Proof.
  intros H. unfold temporary_speed. destruct (negb _); [done|].
  destruct action, (s_temporarySpeed (e_snapshot st)) as [t|] eqn:Ht; try done;
    (destruct (owns_lease _ _ _) || destruct (s_isPlaying _)); try done;
    auto using inv_begin_lease, inv_renew, inv_clearTemporarySpeed.
Qed.

Lemma inv_update_item video resolved : keeps edge_inv (do_update_item video resolved).
Proof.
  intros st H. unfold do_update_item, bind at 1, get.
  destruct (index_of _ _) as [i|]; [|done]. destruct (head resolved) as [p|]; [|done].
  unfold bind. rewrite checkQueueSize_run. destruct (queue_fits _ _) eqn:Hf; [|done].
  by apply set_queue_keeps.
Qed.

(** *** Roles *)

Lemma map_set_length (k : string) (r : Role) l :
  length (map_set k r l) = if map_has k l then length l else S (length l).
Proof.
  unfold map_has. induction l as [|[k0 r0] l IH]; simpl; [done|].
  case_decide; simpl; [done|]. rewrite IH. by destruct (map_get k l).
Qed.

Lemma map_set_Forall (P : Role -> Prop) (k : string) (r : Role) l :
  P r -> Forall (fun kv => P kv.2) l -> Forall (fun kv => P kv.2) (map_set k r l).
Proof.
  intros Hr Hl. induction Hl as [|[k0 r0] l Hkv Hl IH]; simpl.
  - constructor; [done|constructor].
  - case_decide; constructor; done.
Qed.

Lemma inv_set_role gone identity r st :
  UnregisteredUser <= r <= Administrator ->
  negb (map_has identity (s_roles (e_snapshot st))) && (MAX_ROLES <=? length (s_roles (e_snapshot st)))%nat = false ->
  edge_inv_but gone st -> edge_inv_but gone (set_role identity r st).
Proof.
  intros Hr Hroom H. destruct (inv_roles _ _ H) as [Hl Hf].
  assert (Hl' : (length (map_set identity r (s_roles (e_snapshot st))) <= MAX_ROLES)%nat).
  { rewrite map_set_length. destruct (map_has _ _); [done|]. apply Nat.leb_gt in Hroom. lia. }
  assert (Hf' := map_set_Forall (fun r => UnregisteredUser <= r <= Administrator) identity r _ Hr Hf).
  clear Hroom Hl Hf. revert Hl' Hf' H. intros Hl' Hf'. edge_inv_tac st.
Qed.

Lemma announce_identity_keeps gone identity st :
  edge_inv_but gone st -> edge_inv_but gone (announce_identity identity st).
Proof.
  unfold announce_identity. generalize (e_members st).*2. intros l. revert st.
  induction l as [|m l IH]; intros st H; simpl; [done|]. apply IH. case_bool_decide; [by apply inv_push|done].
Qed.

Lemma keeps_check_named (I : State -> Prop) session prefix r : keeps I (check_named session prefix r).
Proof. unfold check_named. destruct (role_name r); [apply edge_keeps_check|apply keeps_ret]. Qed.

Lemma check_named_state session prefix r st : (check_named session prefix r st).2 = st.
Proof. unfold check_named. destruct (role_name r); [apply check_state|done]. Qed.

Definition after_promotion `{E : EdgeEnv} (st : State) (target : Member) : EM unit :=
  match s_preparation (e_snapshot st) with
  | Some p =>
      if bool_decide (sp_clientId p = m_id target) then
        ok <- can (m_session target) "playback.play-pause" ;;
        when (negb ok) (modify clearPreparation ;;; prepare None)
      else ret tt
  | None => ret tt
  end.

Lemma after_promotion_keeps `{E : EdgeEnv} st target : keeps edge_inv (after_promotion st target).
Proof.
  unfold after_promotion. destruct (s_preparation _); [|apply keeps_ret]. case_bool_decide; [|apply keeps_ret].
  apply keeps_bind; [apply keeps_can|intros ok]. apply keeps_when, keeps_clear_prepare.
Qed.

Lemma may_change_role_range st m target r :
  isRoleValid r = true -> may_change_role st m target r = true -> UnregisteredUser <= r <= Administrator.
Proof.
  intros Hr%isRoleValid_iff [[Ho _]%andb_true_iff _]%andb_true_iff.
  unfold Owner, UnregisteredUser, Administrator in *. apply negb_true_iff, Z.eqb_neq in Ho. lia.
Qed.

Lemma inv_promote `{E : EdgeEnv} m target r : isRoleValid r = true -> keeps edge_inv (do_promote m target r).
Proof.
  intros Hr st H. unfold do_promote, bind at 1, get. destruct (map_get target _) as [t|]; [|done].
  destruct (may_change_role st m t r) eqn:Hm; [|done]. cbn [negb].
  pose proof (may_change_role_range _ _ _ _ Hr Hm) as Hrange.
  unfold bind at 1. pose proof (check_named_state (m_session m) "manage-users.demote-" (role st (m_session t)) st) as H1.
  destruct (check_named _ "manage-users.demote-" _ st) as [[e|[]] st1]; cbn in H1; subst st1; [done|].
  unfold bind at 1. pose proof (check_named_state (m_session m) "manage-users.promote-" r st) as H1.
  destruct (check_named _ "manage-users.promote-" _ st) as [[e|[]] st1]; cbn in H1; subst st1; [done|].
  destruct (negb _ && _) eqn:Hroom; [done|]. fold (after_promotion st t).
  unfold bind at 1, modify at 1. pose proof (inv_set_role None _ r st Hrange Hroom H) as H2.
  set (st2 := set_role _ _ _) in *. clearbody st2. clear -H2 L. revert st2 H2.
  change (keeps edge_inv (modify (announce_identity (gs_identity (m_session t))) ;;;
    after_promotion st t ;;; ret (Some no_context))).
  apply keeps_bind; [apply keeps_modify; intros; by apply announce_identity_keeps|intros _].
  apply keeps_bind; [apply after_promotion_keeps|intros _]. apply keeps_ret.
Qed.

Lemma inv_kicks gone id st :
  edge_inv_but gone st -> edge_inv_but gone (st <| e_kicks ::= fun l => l ++ [id] |>).
Proof. edge_inv_tac st. Qed.

Lemma inv_kick `{E : EdgeEnv} m target : keeps edge_inv (do_kick m target).
Proof.
  unfold do_kick. apply keeps_bind; [apply keeps_get|intros st]. destruct (map_get _ _); [|apply keeps_throw].
  destruct (_ <=? _); [apply keeps_throw|].
  apply keeps_bind; [apply keeps_modify; intros; by apply inv_kicks|intros _].
  apply keeps_bind; [apply leave_keeps|intros _]. apply keeps_ret.
Qed.

(** *** Settings *)

(** What [toJSON] of a table gives, the constructor accepts again. *)
Lemma stored_again entries g :
  Grants.construct entries = inr g -> exists g', Grants.construct (Grants.toJSON g) = inr g'.
Proof.
  intros Hc. destruct (construct_keys_ok entries g Hc) as [Hnd Hk].
  destruct (construct_ok (Grants.toJSON g)) as (g' & Hg' & _); [|by exists g'].
  unfold Grants.toJSON. rewrite dedup_NoDup_id by done. intros kv Hkv. apply Hk.
  apply list_elem_of_fmap. exists kv. split; [done|].
  apply list_elem_of_In. apply list_elem_of_In, filter_In in Hkv. apply Hkv.
Qed.

Lemma inv_store_grants gone entries g st :
  Grants.construct entries = inr g -> edge_inv_but gone st -> edge_inv_but gone (store_grants g st).
Proof.
  intros Hc%stored_again H. apply inv_mark. revert Hc H. intros Hc. edge_inv_tac st.
Qed.

Lemma change_grants_keeps `{E : EdgeEnv} entries g :
  Grants.construct entries = inr g -> keeps edge_inv (change_grants g).
Proof.
  intros Hc. unfold change_grants.
  apply keeps_bind; [apply keeps_modify; intros; by apply (inv_store_grants None entries)|intros _].
  apply keeps_bind; [apply keeps_get|intros st]. apply keeps_bind; [|intros _; apply prepare_keeps].
  destruct (preparer st); [|apply keeps_ret]. apply keeps_bind; [apply keeps_can|intros ok].
  apply keeps_when, keeps_modify. intros. by apply (inv_clearPreparation None).
Qed.

Lemma inv_assign_settings gone s st : edge_inv_but gone st -> edge_inv_but gone (assign_settings s st).
Proof.
  assert (Hone : forall A (o : option A) key f st,
    (forall v st, edge_inv_but gone st -> edge_inv_but gone (on_snapshot (f v) st)) ->
    edge_inv_but gone st -> edge_inv_but gone (assign_setting o key f st)).
  { intros A o key f st1 Hf H1. unfold assign_setting. destruct o; [|done]. by apply inv_mark, Hf. }
  intros H. unfold assign_settings. repeat (apply Hone; [intros v st1; edge_inv_tac st1|]). done.
Qed.

Lemma parse_grants_res o st g st' :
  parse_grants o st = (inr (Some g), st') -> exists entries, Grants.construct entries = inr g.
Proof.
  unfold parse_grants. destruct o as [l|]; [|done]. destruct (Grants.construct l) eqn:Hc; [done|].
  intros [= -> _]. eauto.
Qed.

Lemma keeps_parse_grants (I : State -> Prop) o : keeps I (parse_grants o).
Proof. unfold parse_grants. destruct o as [l|]; [|apply keeps_ret]. destruct (Grants.construct l); [apply keeps_throw|apply keeps_ret]. Qed.

Lemma keeps_grants (I : State -> Prop) : keeps I grants.
Proof. intros st. unfold grants. by destruct (Grants.construct _). Qed.

Lemma inv_settings `{E : EdgeEnv} s m : keeps edge_inv (settings s m).
Proof.
  unfold settings. apply keeps_bind_res; [apply keeps_parse_grants|intros st g st' Hg].
  apply keeps_bind; [destruct g; [apply keeps_grants|apply keeps_ret]|intros current]. cbv zeta.
  apply keeps_bind; [apply keeps_mapM; intros; apply edge_keeps_check|intros _].
  apply keeps_bind; [apply keeps_get|intros st1].
  apply keeps_bind; [destruct (_ && _); [apply keeps_throw|apply keeps_ret]|intros _].
  apply keeps_bind; [apply keeps_mapM; intros; apply edge_keeps_check|intros _].
  apply keeps_bind; [destruct (unsupported_setting s); [apply keeps_throw|apply keeps_ret]|intros _].
  apply keeps_bind; [apply keeps_modify; intros; by apply inv_assign_settings|intros _].
  apply keeps_bind; [|intros _; apply keeps_modify; intros; by apply inv_orderVotes].
  destruct g as [g|]; [|apply keeps_ret]. apply keeps_when.
  apply parse_grants_res in Hg as [entries Hg]. by apply (change_grants_keeps entries).
Qed.

(** *** [apply], [tick] and the rest *)

Lemma handle_keeps `{E : EdgeEnv} c m resolved :
  command_ok c = true -> keeps edge_inv (handle c m resolved).
Proof.
  intros Hc. destruct c; simpl handle.
  - apply inv_playback.
  - apply inv_skip.
  - apply inv_seek.
  - apply inv_add.
  - apply inv_remove.
  - apply inv_order.
  - apply inv_vote.
  - apply inv_promote. unfold command_ok in Hc. by apply andb_true_iff in Hc as [_ Hc].
  - apply keeps_bind; [apply keeps_modify; intros; by apply inv_push|intros _; apply keeps_ret].
  - apply keeps_bind; [apply inv_settings|intros _; apply keeps_ret].
  - apply inv_play_now.
  - apply inv_shuffle.
  - apply inv_speed_cmd. unfold command_ok in Hc. apply andb_true_iff in Hc as [H1%Qle_bool_iff H2%Qle_bool_iff]. by split.
  - apply keeps_ret.
  - apply inv_kick.
  - apply inv_update_item.
  - apply keeps_bind; [apply keeps_modify; intros; by apply inv_temporary_speed|intros _; apply keeps_ret].
Qed.

Lemma keeps_checkCommand (I : State -> Prop) c m : keeps I (checkCommand c m).
Proof. unfold checkCommand. destruct (commandPermissions c); [apply edge_keeps_check|apply keeps_ret]. Qed.

Lemma apply_keeps `{E : EdgeEnv} c m resolved : command_ok c = true -> keeps edge_inv (apply c m resolved).
Proof.
  intros Hc. unfold apply. apply keeps_bind; [apply keeps_checkCommand|intros _].
  apply keeps_bind; [by apply handle_keeps|intros [a|]]; [|apply keeps_ret].
  apply keeps_modify. intros. by apply inv_event.
Qed.

Lemma inv_expire_lease `{E : EdgeEnv} st : edge_inv st -> edge_inv (expire_lease st).
Proof.
  intros H. unfold expire_lease. destruct (s_temporarySpeed _); [|done].
  destruct (_ <=? _); [|done]. by apply inv_clearTemporarySpeed.
Qed.

Lemma inv_expire_preparation `{E : EdgeEnv} : keeps edge_inv expire_preparation.
Proof.
  unfold expire_preparation. apply keeps_bind; [apply keeps_get|intros st].
  destruct (s_preparation _); [|apply keeps_ret]. apply keeps_when, keeps_clear_prepare.
Qed.

Lemma inv_finish_source `{E : EdgeEnv} st : edge_inv st -> edge_inv (finish_source st).
Proof.
  intros H. unfold finish_source. destruct (s_currentSource _); [|done].
  destruct (_ && _); [by apply inv_next|done].
Qed.

Lemma tick_keeps `{E : EdgeEnv} : keeps edge_inv tick.
Proof.
  unfold tick. apply keeps_bind; [apply keeps_modify; intros; by apply inv_expire_lease|intros _].
  apply keeps_bind; [apply inv_expire_preparation|intros _].
  apply keeps_modify. intros. by apply inv_finish_source.
Qed.

Lemma inv_drain `{E : EdgeEnv} st : edge_inv st -> edge_inv (drain st).2.
Proof. edge_inv_tac st. Qed.

Lemma edge_perform_keeps `{E : EdgeEnv} s st : step_ok s -> edge_inv st -> edge_inv (edge_perform s st).
Proof.
  intros Hs H. destruct s; unfold edge_perform.
  - by apply join_keeps.
  - by apply leave_keeps.
  - by apply status_keeps.
  - by apply apply_keeps.
  - by apply tick_keeps.
  - by apply inv_drain.
  - by apply inv_anchor.
  - apply (restart_keeps (anchor st)). by apply inv_anchor.
Qed.

Lemma fresh_grants_ok : exists g, Grants.construct fresh_grants = inr g.
Proof. eexists. vm_compute. reflexivity. Qed.

Lemma inv_created t o owner : edge_inv (construct (createSnapshot t o owner)).
Proof.
  constructor; try done; cbn -[fresh_grants queue_bytes MAX_QUEUE_BYTES MAX_PENDING MAX_ROLES].
  - exact fresh_grants_ok.
  - unfold MAX_PENDING. lia.
  - unfold queue_bytes. rewrite json_null. cbn -[MAX_QUEUE_BYTES]. unfold MAX_QUEUE_BYTES. lia.
  - split; [|constructor]. unfold MAX_ROLES. lia.
Qed.

Lemma inv_reachable t o owner st :
  edge_reachable (construct (createSnapshot t o owner)) st -> edge_inv st.
Proof. induction 1; [apply inv_created|by apply edge_perform_keeps]. Qed.

End Invariant.

Notation edge_inv := (edge_inv_but None).
