(* ===== verification/EdgeSync.v ===== *)
(** * EdgeSync: what the preview backend's clients are told

    A client of [packages/ott-edge] gets one full state when it joins and afterwards
    only the keys in [dirty].  [covers st st'] says that from [st] to [st'] no key was
    unmarked, and every key whose value changed is marked.  Every method of
    [RoomState] does so (a restart apart: it has no clients), so a client that applies
    the [sync] messages is never stale. *)

From S2P Require Import Prelude Types Permissions VideoQueue RoomModel RoomPlayback RoomRequests.
From S2P Require Import EdgeModel EdgeSteps.

Import Edge.

(** ** Values, with positions compared as numbers *)

Definition value_eq (a b : SyncValue) : Prop :=
  match a, b with VNum x, VNum y => (x == y)%Q | _, _ => a = b end.

#[export] Instance value_eq_equiv : Equivalence value_eq.
Proof.
  split.
  - intros a. by destruct a.
  - intros a b. destruct a; simpl; try (intros <-; done).
    destruct b; simpl; intros H; try discriminate H. by symmetry.
  - intros a b c. destruct a; simpl; try (intros <-; done).
    destruct b; simpl; intros H1; try discriminate H1.
    destruct c; simpl; intros H2; try discriminate H2. by rewrite H1.
Qed.

Definition told_eq (a b : option SyncValue) : Prop :=
  match a, b with Some x, Some y => value_eq x y | None, None => True | _, _ => False end.

#[export] Instance told_eq_equiv : Equivalence told_eq.
Proof.
  split.
  - intros [x|]; simpl; first [done | reflexivity].
  - intros [x|] [y|]; simpl; intros H; first [done | symmetry; exact H].
  - intros [x|] [y|] [z|]; simpl; intros H1 H2; first [done | etransitivity; [exact H1|exact H2]].
Qed.

Lemma told_trans a b c : told_eq a b -> told_eq b c -> told_eq a c.
Proof. apply told_eq_equiv. Qed.

Section Sync.
Context {J : EdgeJson} {E : EdgeEnv}.

Definition sync_value (k : Prop_) (st : State) : option SyncValue := map_get k (fullSync st).

Definition not_sync (m : EdgeMessage) : bool := match m with MSync _ => false | _ => true end.

(** Messages are only added, and a method never writes a [sync] message itself. *)
Definition talks (st st' : State) : Prop :=
  exists l, e_messages st' = e_messages st ++ l /\ forallb not_sync l = true.

#[local] Instance talks_preorder : PreOrder talks.
Proof.
  split.
  - intros st. exists []. by rewrite app_nil_r.
  - intros a b c (l1 & H1 & Hl1) (l2 & H2 & Hl2). exists (l1 ++ l2).
    by rewrite H2, H1, <- app_assoc, forallb_app, Hl1, Hl2.
Qed.

Lemma talks_same st st' : e_messages st' = e_messages st -> talks st st'.
Proof. intros H. exists []. by rewrite app_nil_r. Qed.

Record covers (st st' : State) : Prop := {
  covers_dirty : forall k, k ∈ e_dirty st -> k ∈ e_dirty st';
  covers_change : forall k, k ∈ e_dirty st' \/ told_eq (sync_value k st) (sync_value k st');
  covers_talks : talks st st';
}.

#[local] Instance covers_preorder : PreOrder covers.
Proof.
  split.
  - intros st. split; [done| |reflexivity]. intros k. by right.
  - intros a b c [H1 H2 T1] [H3 H4 T2]. split; [auto| |by etransitivity]. intros k.
    destruct (H4 k) as [?|Hbc]; [by left|].
    destruct (H2 k) as [?|Hab]; [left; auto|right; exact (told_trans _ _ _ Hab Hbc)].
Qed.

Lemma covers_refl st : covers st st.
Proof. reflexivity. Qed.

Lemma covers_trans a b c : covers a b -> covers b c -> covers a c.
Proof. intros; by etransitivity. Qed.

(** [st'] differs from [st] in the values of [keys] only. *)
Definition changes (keys : list Prop_) (st st' : State) : Prop :=
  (e_dirty st' = e_dirty st /\ talks st st') /\
  forall k, bool_decide (k ∈ keys) = false -> told_eq (sync_value k st) (sync_value k st').

Lemma elem_of_set_add {A} `{EqDecision A} (x y : A) l : x ∈ set_add y l <-> x = y \/ x ∈ l.
Proof.
  unfold set_add. case_decide; [naive_solver|].
  rewrite elem_of_app, list_elem_of_singleton. naive_solver.
Qed.

Lemma elem_of_marked (k : Prop_) keys : forall d, k ∈ fold_left (fun d k => set_add k d) keys d <-> k ∈ keys \/ k ∈ d.
Proof.
  induction keys as [|x keys IH]; intros d; simpl.
  - rewrite elem_of_nil. naive_solver.
  - rewrite IH, elem_of_set_add, elem_of_cons. naive_solver.
Qed.

Lemma covers_mark keys st st' : changes keys st st' -> covers st (mark keys st').
Proof.
  intros [[Hd Ht] Hv].
  assert (Hm : forall k, k ∈ e_dirty (mark keys st') <-> k ∈ keys \/ k ∈ e_dirty st).
  { intros k. rewrite <- Hd. apply elem_of_marked. }
  split; [intros k; rewrite Hm; by right|intros k; rewrite Hm|exact Ht].
  destruct (bool_decide (k ∈ keys)) eqn:Hk; [left; left; by apply bool_decide_eq_true in Hk|].
  right. exact (Hv k Hk).
Qed.

Lemma covers_quiet st st' : changes [] st st' -> covers st st'.
Proof. intros [[Hd Ht] Hv]. split; [by rewrite Hd|intros k; right; by apply Hv|done]. Qed.

(** A write of the snapshot, checked key by key. *)
Ltac changes_tac st :=
  split; [split; [by destruct st|apply talks_same; by destruct st]|
    let k := fresh in let Hk := fresh in
    intros k Hk; destruct st as [[] ? ? ? ?]; destruct k; first [discriminate Hk | reflexivity]].

(** A key both marked and not marked. *)
Ltac marked_key :=
  match goal with H : bool_decide ?P = true, H' : bool_decide ?P = false |- _ => by rewrite H in H' end.

Lemma covers_push m st : not_sync m = true -> covers st (push m st).
Proof.
  intros Hm. apply covers_quiet. split.
  - split; [by destruct st|]. exists [m]. split; [by destruct st|]. simpl. by rewrite Hm.
  - intros k _. destruct st as [[] ? ? ? ?]; destruct k; reflexivity.
Qed.

Lemma covers_user_update i st : covers st (push (MUserUpdate i) st).
Proof. by apply covers_push. Qed.

Lemma covers_user_remove i st : covers st (push (MUserRemove i) st).
Proof. by apply covers_push. Qed.

Lemma covers_chat i text st : covers st (push (MChat i text) st).
Proof. by apply covers_push. Qed.

Lemma covers_anchor_marked keys q v st :
  bool_decide (PPlaybackPosition ∈ keys) = true -> bool_decide (PIsPlaying ∈ keys) = true ->
  covers st (mark keys (on_snapshot (fun s => s <| s_isPlaying := v |>) (anchor_at q st))).
Proof.
  intros H1 H2. apply covers_mark. split; [split; [by destruct st|apply talks_same; by destruct st]|].
  intros k Hk. destruct st as [[] ? ? ? ?]; destruct k; first [marked_key | reflexivity].
Qed.

Lemma covers_playing v st : covers st (playing v st).
Proof. by apply covers_anchor_marked. Qed.

Lemma covers_clearPreparation st : covers st (clearPreparation st).
Proof.
  unfold clearPreparation. destruct (s_preparation _); [|reflexivity].
  apply covers_mark. changes_tac st.
Qed.

Lemma covers_clearTemporarySpeed st : covers st (clearTemporarySpeed st).
Proof.
  unfold clearTemporarySpeed. destruct (s_temporarySpeed _); [|reflexivity].
  apply covers_mark. unfold anchor. generalize (position st). intros q. changes_tac st.
Qed.

Lemma covers_begin_preparation m v st : covers st (begin_preparation m v st).
Proof. apply covers_mark. generalize (position st). intros q. changes_tac st. Qed.

Lemma covers_emptySince v st : covers st (on_snapshot (fun s => s <| s_emptySince := v |>) st).
Proof. apply covers_quiet. changes_tac st. Qed.

Lemma covers_resume f st : covers st (on_snapshot (fun s => s <| s_resumeOnNextJoin := f s |>) st).
Proof. apply covers_quiet. changes_tac st. Qed.

Lemma covers_members f st : covers st (st <| e_members ::= f |>).
Proof. apply covers_quiet. changes_tac st. Qed.

Lemma covers_kicks f st : covers st (st <| e_kicks ::= f |>).
Proof. apply covers_quiet. changes_tac st. Qed.

Lemma covers_set_role i r st : covers st (set_role i r st).
Proof. apply covers_quiet. changes_tac st. Qed.

Lemma covers_queue f st : covers st (mark [PQueue] (on_snapshot (fun s => s <| s_queue := f s |>) st)).
Proof. apply covers_mark. changes_tac st. Qed.

Lemma covers_orderVotes st : covers st (orderVotes st).
Proof. unfold orderVotes. case_decide; [apply covers_queue|reflexivity]. Qed.

Lemma covers_drop_votes id st : covers st (drop_votes id st).
Proof. apply covers_mark. changes_tac st. Qed.

Lemma covers_add_skip_vote id st : covers st (add_skip_vote id st).
Proof. apply covers_mark. changes_tac st. Qed.

Lemma covers_speed q v st :
  covers st (mark [PPlaybackSpeed; PPlaybackPosition]
    (on_snapshot (fun s => s <| s_playbackSpeed := v |>) (anchor_at q st))).
Proof. apply covers_mark. changes_tac st. Qed.

Lemma covers_begin_lease id gesture st : covers st (begin_lease id gesture st).
Proof. apply covers_mark. unfold anchor. generalize (position st). intros q. changes_tac st. Qed.

Lemma covers_seek value st : covers st (mark [PPlaybackPosition] (anchor_at value st)).
Proof. apply covers_mark. changes_tac st. Qed.

Lemma covers_store_grants g st : covers st (store_grants g st).
Proof. apply covers_mark. changes_tac st. Qed.

Lemma covers_votes f st : covers st (mark [PVoteCounts] (on_snapshot (fun s => s <| s_votes := f s |>) st)).
Proof. apply covers_mark. changes_tac st. Qed.

Lemma covers_votes_queue keys f g st :
  bool_decide (PVoteCounts ∈ keys) = true -> bool_decide (PQueue ∈ keys) = true ->
  covers st (mark keys (on_snapshot (fun s => s <| s_votes := f s |>)
    (on_snapshot (fun s => s <| s_queue := g s |>) st))).
Proof.
  intros H1 H2. apply covers_mark. split; [split; [by destruct st|apply talks_same; by destruct st]|].
  intros k Hk. destruct st as [[] ? ? ? ?]; destruct k; first [marked_key | reflexivity].
Qed.

Lemma covers_set_source v keys st :
  forallb (fun k => bool_decide (k ∈ keys))
    [PCurrentSource; PPlaybackPosition; PIsPlaying; PPlaybackSpeed; PVotesToSkip] = true ->
  covers st (mark keys (set_source v st)).
Proof.
  simpl. rewrite !andb_true_iff. intros (H1 & H2 & H3 & H4 & H5 & _). apply covers_mark.
  split; [split; [by destruct st|apply talks_same; by destruct st]|]. intros k Hk. destruct st as [[] ? ? ? ?]; destruct k; first [marked_key | reflexivity].
Qed.

Lemma covers_start v st : covers st (start v st).
Proof.
  unfold start. etransitivity; [apply covers_clearTemporarySpeed|].
  etransitivity; [apply covers_clearPreparation|]. by apply covers_set_source.
Qed.

(** [start] hides a write of the queue and the votes when both are marked afterwards. *)
Definition hides (keys : list Prop_) (st st' : State) : Prop :=
  ((forall k, k ∈ e_dirty st -> k ∈ e_dirty st') /\ talks st st') /\
  forall k, k ∈ keys \/ k ∈ e_dirty st' \/ told_eq (sync_value k st) (sync_value k st').

Lemma hides_covers keys st st' : hides keys st st' -> covers st (mark keys st').
Proof.
  intros [[Hd Ht] Hv]. assert (Hm : forall k, k ∈ e_dirty (mark keys st') <-> k ∈ keys \/ k ∈ e_dirty st').
  { intros k. apply elem_of_marked. }
  split; [intros k; rewrite Hm; intros Hk; right; by apply Hd|intros k; rewrite Hm|exact Ht].
  destruct (Hv k) as [?|[?|?]]; [by left; left|by left; right|by right].
Qed.

Lemma hides_then keys a b c : hides keys a b -> covers b c -> hides keys a c.
Proof.
  intros [[H1 T1] H2] [H3 H4 T2].
  split; [split; [intros k Hk; by apply H3, H1|by etransitivity]|]. intros k.
  destruct (H4 k) as [?|Hbc]; [by right; left|].
  destruct (H2 k) as [?|[?|Hab]]; [by left|right; left; by apply H3|]. right; right. exact (told_trans _ _ _ Hab Hbc).
Qed.

Lemma hides_write keys f st :
  (forall k, bool_decide (k ∈ keys) = false -> told_eq (sync_value k st) (sync_value k (on_snapshot f st))) ->
  hides keys st (on_snapshot f st).
Proof.
  intros H. split; [split; [done|by apply talks_same]|]. intros k. destruct (bool_decide (k ∈ keys)) eqn:Hk; [left|right; right; by apply H].
  by apply bool_decide_eq_true in Hk.
Qed.

Lemma hides_trans keys a b c : hides keys a b -> hides keys b c -> hides keys a c.
Proof.
  intros [[H1 T1] H2] [[H3 T2] H4].
  split; [split; [intros k Hk; by apply H3, H1|by etransitivity]|]. intros k.
  destruct (H4 k) as [?|[?|Hbc]]; [by left|by right; left|].
  destruct (H2 k) as [?|[?|Hab]]; [by left|right; left; by apply H3|]. right; right. exact (told_trans _ _ _ Hab Hbc).
Qed.

Lemma hides_queue q st : hides [PQueue; PVoteCounts] st (on_snapshot (fun s => s <| s_queue := q |>) st).
Proof.
  apply hides_write. intros k Hk. destruct st as [[] ? ? ? ?]; destruct k; first [discriminate Hk | reflexivity].
Qed.

Lemma hides_votes v st : hides [PQueue; PVoteCounts] st (forget_votes v st).
Proof.
  apply hides_write. intros k Hk. destruct st as [[] ? ? ? ?]; destruct k; first [discriminate Hk | reflexivity].
Qed.

Lemma covers_next st : covers st (next st).
Proof.
  unfold next. apply hides_covers.
  eapply hides_then; [|apply covers_start].
  destruct (head _) as [v|]; [|apply hides_queue].
  eapply hides_trans; [apply hides_queue|apply (hides_votes (video_id_of v))].
Qed.

Lemma covers_renew t st : s_temporarySpeed (e_snapshot st) = Some t -> covers st (renew_lease t st).
Proof.
  intros Ht. apply covers_quiet. split; [split; [by destruct st|apply talks_same; by destruct st]|]. intros k _.
  destruct st as [s ms ds msgs ks]. destruct s. cbn in Ht. subst. destruct k; reflexivity.
Qed.

Lemma covers_temporary_speed action gesture video id st : covers st (temporary_speed action gesture video id st).
Proof.
  unfold temporary_speed. destruct (negb _); [reflexivity|].
  destruct action, (s_temporarySpeed (e_snapshot st)) as [t|] eqn:Ht; try reflexivity;
    (destruct (owns_lease _ _ _) || destruct (s_isPlaying _)); try reflexivity;
    auto using covers_begin_lease, covers_renew, covers_clearTemporarySpeed.
Qed.

Lemma covers_announce identity st : covers st (announce_identity identity st).
Proof.
  unfold announce_identity. generalize (e_members st).*2. intros l. revert st.
  induction l as [|m l IH]; intros st; simpl; [reflexivity|]. etransitivity; [|apply IH].
  case_bool_decide; [apply covers_user_update|reflexivity].
Qed.

Lemma covers_assign {A} (o : option A) key f st :
  (forall v st k, bool_decide (k ∈ [key]) = false ->
     told_eq (sync_value k st) (sync_value k (on_snapshot (f v) st))) ->
  covers st (assign_setting o key f st).
Proof.
  intros Hf. unfold assign_setting. destruct o; [|reflexivity]. apply covers_mark.
  split; [split; [done|by apply talks_same]|]. intros k. apply Hf.
Qed.

Lemma covers_assign_settings s st : covers st (assign_settings s st).
Proof.
  unfold assign_settings.
  repeat (etransitivity; [|apply covers_assign; intros v st1 k Hk; destruct st1 as [[] ? ? ? ?];
    destruct k; first [discriminate Hk | reflexivity]]).
  reflexivity.
Qed.

(** *** Methods *)

Create HintDb covers discriminated.
#[local] Hint Resolve covers_user_update covers_user_remove covers_chat covers_playing covers_clearPreparation covers_clearTemporarySpeed
  covers_begin_preparation covers_emptySince covers_resume covers_members covers_kicks covers_set_role
  covers_orderVotes covers_drop_votes covers_add_skip_vote covers_speed covers_seek covers_store_grants
  covers_start covers_next covers_temporary_speed covers_announce covers_assign_settings : covers.

Lemma covers_event q m a st : covers st (event q m a st).
Proof. by apply covers_push. Qed.
#[local] Hint Resolve covers_event : covers.

Section Methods.
Variable st0 : State.
Notation told := (keeps (covers st0)).

Lemma told_modify f : (forall st, covers st (f st)) -> told (modify f : EM unit).
Proof. intros Hf. apply keeps_modify. intros st H. etransitivity; [exact H|apply Hf]. Qed.

Lemma told_can session p : told (can session p).
Proof. apply keeps_can. Qed.

Lemma told_check session p : told (check session p).
Proof. apply edge_keeps_check. Qed.

Lemma told_named session prefix r : told (check_named session prefix r).
Proof. apply keeps_check_named. Qed.

Lemma told_size q cur : told (checkQueueSize q cur).
Proof. unfold checkQueueSize. destruct (queue_fits cur q); [apply keeps_ret|apply keeps_throw]. Qed.

(** Break a method into its parts; each write is covered by its lemma. *)
Ltac told_step :=
  match goal with
  | |- keeps _ (bind _ _) => apply keeps_bind; [|intros ?]
  | |- keeps _ (modify _) => apply told_modify; intros ?; solve [auto 1 with covers]
  | |- keeps _ (when _ _) => apply keeps_when
  | |- keeps _ (ret _) => apply keeps_ret
  | |- keeps _ (throw _) => apply keeps_throw
  | |- keeps _ get => apply keeps_get
  | |- keeps _ (mapM_ _ _) => apply keeps_mapM; intros ?
  | |- keeps _ (can _ _) => apply told_can
  | |- keeps _ (check _ _) => apply told_check
  | |- keeps _ (check_named _ _ _) => apply told_named
  | |- keeps _ (checkQueueSize _ _) => apply told_size
  | |- keeps _ grants => apply keeps_grants
  | |- keeps _ (parse_grants _) => apply keeps_parse_grants
  | |- keeps _ (if ?b then _ else _) => destruct b
  | |- keeps _ (match ?x with _ => _ end) => destruct x
  | |- keeps _ (let _ := _ in _) => cbv zeta
  end.
Ltac told_tac := repeat told_step.

Lemma told_find exclude l : told (find_preparer exclude l).
Proof. induction l as [|m l IH]; simpl; told_tac; done. Qed.

Lemma told_prepare exclude : told (prepare exclude).
Proof. unfold prepare. told_tac. apply told_find. Qed.

Lemma told_join m : told (join m).
Proof.
  unfold join. apply keeps_bind; [apply told_modify; intros st|intros _].
  { etransitivity; [apply covers_members|apply covers_emptySince]. }
  told_tac. apply told_prepare.
Qed.

Lemma covers_drop_client id st : covers st (drop_client id st).
Proof.
  unfold drop_client.
  set (st1 := match s_temporarySpeed (e_snapshot st) with Some _ => _ | None => _ end).
  assert (H1 : covers st st1).
  { unfold st1. destruct (s_temporarySpeed _); [|reflexivity]. case_bool_decide; auto with covers. reflexivity. }
  etransitivity; [exact H1|]. destruct (s_preparation _); [|reflexivity].
  case_bool_decide; [apply covers_clearPreparation|reflexivity].
Qed.

Lemma covers_pause_empty st : covers st (pause_empty st).
Proof.
  unfold pause_empty. etransitivity; [|apply covers_emptySince]. etransitivity; [|apply covers_playing].
  apply covers_resume.
Qed.

Lemma told_leave id : told (leave id).
Proof.
  unfold leave. apply keeps_bind; [apply keeps_get|intros st]. destruct (map_get id _); [|apply keeps_ret].
  apply keeps_bind; [told_tac|intros _].
  apply keeps_bind; [apply told_modify; intros; etransitivity; [apply covers_members|apply covers_user_remove]|intros _].
  do 3 (apply keeps_bind; [apply told_modify; intros; auto using covers_drop_client with covers|intros _]).
  told_tac; [apply told_modify; intros; apply covers_pause_empty|apply told_prepare].
Qed.

Lemma covers_start_prepared st :
  covers st (playing true (on_snapshot (fun s => s <| s_resumeOnNextJoin := false |>) (clearPreparation st))).
Proof.
  etransitivity; [apply covers_clearPreparation|]. etransitivity; [|apply covers_playing].
  apply (covers_resume (fun _ => false)).
Qed.

Lemma told_status id s prepared : told (status id s prepared).
Proof.
  unfold status. told_tac. apply told_modify. intros. apply covers_start_prepared.
Qed.

Lemma told_playback value : told (do_playback value).
Proof.
  unfold do_playback. told_tac.
Qed.

Lemma told_seek value : told (do_seek value).
Proof. unfold do_seek. told_tac. apply told_prepare. Qed.

Lemma told_skip m : told (do_skip m).
Proof. unfold do_skip. told_tac. Qed.

Lemma covers_set_queue q st : covers st (mark [PQueue] (on_snapshot (fun s => s <| s_queue := q |>) st)).
Proof. apply (covers_queue (fun _ => q)). Qed.
#[local] Hint Resolve covers_set_queue covers_queue : covers.

Lemma told_add resolved : told (do_add resolved).
Proof. unfold do_add. told_tac. Qed.

Lemma told_remove video : told (do_remove video).
Proof.
  unfold do_remove. told_tac. apply told_modify. intros st. apply hides_covers.
  eapply hides_trans; [apply hides_queue|apply hides_votes].
Qed.

Lemma told_order i j : told (do_order i j).
Proof. unfold do_order. told_tac. Qed.

Lemma told_vote video add m : told (do_vote video add m).
Proof.
  unfold do_vote. told_tac. apply told_modify. intros st. etransitivity; [|apply covers_orderVotes].
  apply (covers_votes (fun s => _)).
Qed.

Lemma told_play_now video resolved : told (do_play_now video resolved).
Proof.
  unfold do_play_now. told_tac. apply told_modify. intros st. apply hides_covers.
  eapply hides_then; [|apply covers_start].
  eapply hides_trans; [apply hides_queue|apply hides_votes].
Qed.

Lemma told_shuffle : told do_shuffle.
Proof. unfold do_shuffle. told_tac. Qed.

Lemma told_speed speed : told (do_speed speed).
Proof.
  unfold do_speed. told_tac. apply told_modify. intros st.
  etransitivity; [apply covers_clearTemporarySpeed|apply covers_speed].
Qed.

Lemma told_update_item video resolved : told (do_update_item video resolved).
Proof. unfold do_update_item. told_tac. Qed.

Lemma told_promote m target r : told (do_promote m target r).
Proof. unfold do_promote. told_tac; apply told_prepare. Qed.

Lemma told_kick m target : told (do_kick m target).
Proof. unfold do_kick. told_tac. apply told_leave. Qed.

Lemma told_settings s m : told (settings s m).
Proof. unfold settings, change_grants. told_tac; apply told_prepare. Qed.

Lemma told_handle c m resolved : told (handle c m resolved).
Proof.
  destruct c; simpl handle; first
    [ apply told_playback | apply told_skip | apply told_seek | apply told_add | apply told_remove
    | apply told_order | apply told_vote | apply told_promote | apply told_play_now | apply told_shuffle
    | apply told_speed | apply told_kick | apply told_update_item | solve [told_tac] | told_tac; apply told_settings ].
Qed.

Lemma told_apply c m resolved : told (apply c m resolved).
Proof. unfold apply, checkCommand. told_tac. apply told_handle. Qed.

Lemma covers_expire_lease st : covers st (expire_lease st).
Proof.
  unfold expire_lease. destruct (s_temporarySpeed _); [|reflexivity].
  destruct (_ <=? _); [apply covers_clearTemporarySpeed|reflexivity].
Qed.

Lemma covers_finish_source st : covers st (finish_source st).
Proof.
  unfold finish_source. destruct (s_currentSource _); [|reflexivity].
  destruct (_ && _); [apply covers_next|reflexivity].
Qed.

Lemma told_tick : told tick.
Proof.
  unfold tick, expire_preparation. told_tac.
  - apply told_modify, covers_expire_lease.
  - apply told_prepare.
  - apply told_modify, covers_finish_source.
Qed.

End Methods.

(** Anchoring moves the position's reference point, not the position. *)
Lemma Qmax_zero x : (0 <= Qmax' 0 x)%Q.
Proof. unfold Qmax'. destruct (Qle_bool 0 x) eqn:H; [by apply Qle_bool_iff|apply Qle_refl]. Qed.

Lemma Qmax_pos x y : (0 <= y)%Q -> (x == y)%Q -> (Qmax' 0 x == y)%Q.
Proof.
  intros Hy Hx. unfold Qmax'. destruct (Qle_bool 0 x) eqn:H; [done|].
  rewrite <- Hx in Hy. apply Qle_bool_iff in Hy. congruence.
Qed.

Lemma position_nonneg st : (0 <= position st)%Q.
Proof. apply Qmax_zero. Qed.

Lemma position_anchor_at q st : (0 <= q)%Q -> (position (anchor_at q st) == q)%Q.
Proof.
  intros Hq. unfold position, position_of. apply Qmax_pos; [done|].
  destruct st as [s ? ? ? ?]. destruct s. cbn -[Qdiv Qmult Qplus inject_Z Z.max]. rewrite Z.sub_diag.
  destruct s_isPlaying; [|ring]. change (inject_Z (Z.max 0 0)) with 0%Q. unfold Qdiv. ring.
Qed.

Lemma covers_anchor st : covers st (anchor st).
Proof.
  pose proof (position_anchor_at (position st) st (position_nonneg st)) as Hp. apply covers_quiet.
  split; [split; [by destruct st|apply talks_same; by destruct st]|]. intros k _. destruct (decide (k = PPlaybackPosition)) as [->|Hk].
  { simpl. by symmetry. }
  clear Hp. unfold anchor. generalize (position st). intros q.
  destruct st as [[] ? ? ? ?]; destruct k; first [reflexivity | done].
Qed.

(** *** The clients *)

Lemma edge_tells s st : s <> EDrain -> s <> ERestart -> covers st (edge_perform s st).
Proof.
  intros Hd Hr. destruct s; unfold edge_perform; try done.
  - by apply told_join.
  - by apply told_leave.
  - by apply told_status.
  - by apply told_apply.
  - by apply told_tick.
  - apply covers_anchor.
Qed.

(** What a client knows: a value per key.  A [sync] message replaces the keys it has. *)
Definition View : Type := Prop_ -> option SyncValue.

Definition receive (v : View) (m : EdgeMessage) : View :=
  match m with
  | MSync props => fun k => match map_get k props with Some x => x | None => v k end
  | _ => v
  end.

Definition view_of (st : State) : View := fun k => sync_value k st.

(** Up to date: equal on every key, positions compared as numbers. *)
Definition up_to_date (v : View) (st : State) : Prop := forall k, told_eq (v k) (view_of st k).

Lemma receive_sync v st :
  fold_left receive (sync_message st) v =
  match e_dirty st with
  | [] => v
  | d => receive v (MSync (map (fun k => (k, sync_value k st)) d))
  end.
Proof. unfold sync_message. by destruct (e_dirty st). Qed.

Lemma map_get_map {B} (f : Prop_ -> B) k (l : list Prop_) :
  map_get k (map (fun x => (x, f x)) l) = if decide (k ∈ l) then Some (f k) else None.
Proof.
  induction l as [|x l IH]; cbn [map_get map]; [by rewrite decide_False by apply not_elem_of_nil|].
  destruct (decide (k = x)) as [->|Hne].
  - by rewrite decide_True by (by left).
  - rewrite IH. apply decide_ext. rewrite elem_of_cons. naive_solver.
Qed.

Lemma receive_dirty v st k :
  fold_left receive (sync_message st) v k = if decide (k ∈ e_dirty st) then sync_value k st else v k.
Proof.
  rewrite receive_sync. destruct (e_dirty st) as [|x d] eqn:Hd.
  - by rewrite decide_False by apply not_elem_of_nil.
  - cbn [receive]. rewrite map_get_map. by case_decide.
Qed.

Lemma receive_others v l : forallb not_sync l = true -> fold_left receive l v = v.
Proof.
  revert v. induction l as [|m l IH]; intros v; [done|]. simpl. intros [Hm Hl]%andb_true_iff.
  destruct m; try done; by apply IH.
Qed.

End Sync.
