(* ===== verification/EdgeTheorems.v ===== *)
(** * EdgeTheorems: the properties of the preview backend's room

    What holds of every reachable [RoomState], what its clients see, who may change
    whose role, when the durable object wakes up, and what a restart keeps. *)

From S2P Require Import Prelude Types Permissions VideoQueue RoomModel RoomPlayback RoomRequests.
From S2P Require Import EdgeModel EdgeSteps EdgeSync.

Import Edge.

(** ** A concrete environment *)

#[export] Instance sample_json : EdgeJson := {|
  e_jsonBytes := fun v => match v with Some v => 29 + String.length (qi_service v) + String.length (qi_id v) | None => 4 end%nat;
|}.
#[export] Instance sample_json_laws : EdgeJsonLaws sample_json.
Proof. split; [done|]. intros v. simpl. lia. Qed.

Definition edge_env (t : Z) : EdgeEnv := {|
  e_now := t;
  e_uuid := "round";
  e_randomInt := fun _ => 0%nat;
  e_parseUrl := fun _ => None;
  e_hrefNoHash := fun u => u;
|}.

#[export] Instance edge_env_fair t : FairRandom (edge_env t).
Proof. intros n Hn. exact Hn. Qed.

Definition host : GuestSession := MkGuestSession "host-id" "host".
Definition guest : GuestSession := MkGuestSession "guest-id" "guest".
Definition host_member : Member := MkMember "h" host StatusReady.
Definition guest_member : Member := MkMember "g" guest StatusReady.
Definition edge_options : Options := MkEdgeOptions "room" None None None None None.
Definition edge_video (i : string) : QueueItem := (bare_video "direct" i) <| qi_length := Some (Fin 60) |>.

Definition edge_drive (l : list (Z * EdgeStep)) (st : State) : State :=
  fold_left (fun st s => edge_perform (E := edge_env s.1) s.2 st) l st.

Definition fresh_edge : State := construct (createSnapshot 0 edge_options host).

Lemma edge_drive_reachable l : forall st,
  Forall (fun s => step_ok s.2) l -> edge_reachable fresh_edge st -> edge_reachable fresh_edge (edge_drive l st).
Proof.
  induction l as [|[t s] l IH]; intros st Hl Hr; [done|]. inversion Hl; subst. apply IH; [done|].
  apply edge_next; [done|apply edge_env_fair|done].
Qed.

(** Two viewers and a video that plays. *)
Definition edge_playing_steps : list (Z * EdgeStep) :=
  [(0, EJoin host_member); (0, EJoin guest_member);
   (1000, EApply (CAdd (Some (MkVideoAdd "direct" "a" None None None)) None None) host_member
            [MkResolved (edge_video "a") false])].
Definition edge_playing : State := edge_drive edge_playing_steps fresh_edge.

Lemma edge_playing_reachable : edge_reachable fresh_edge edge_playing.
Proof. apply edge_drive_reachable; [by repeat constructor|apply edge_start]. Qed.

(** ** The invariant, as the program's users would state it *)

Lemma queue_bytes_cap : Z.of_nat MAX_QUEUE_BYTES = 512 * 1024.
Proof. apply Z2Nat.id. lia. Qed.

(** C17: In every state the preview backend's room can reach, by any calls of the durable object
    at any instants (failing calls and restarts included): at most 200 videos and 512 KiB of
    JSON are pending; the speed is between a quarter and four; only a room with a video plays; a
    round waits in a paused room, for the video that is on and for somebody who is in the room;
    a held speed is 2 and remembers a legal one; at most 500 roles are stored and none of them
    is the owner's; and the stored permission table always loads, so no permission question
    throws. *)
Theorem edge_room_consistent `{J : EdgeJson} {L : EdgeJsonLaws J} t o owner st :
  edge_reachable (construct (createSnapshot t o owner)) st ->
  let s := e_snapshot st in
  ((length (s_queue s) <= 200)%nat /\ Z.of_nat (queue_bytes (s_currentSource s) (s_queue s)) <= 512 * 1024) /\
  ((1 # 4) <= s_playbackSpeed s <= 4)%Q /\
  (s_isPlaying s = true -> is_Some (s_currentSource s)) /\
  (forall p, s_preparation s = Some p ->
     s_isPlaying s = false /\ source_id s = Some (sp_video p) /\ is_Some (map_get (sp_clientId p) (e_members st))) /\
  (forall l, s_temporarySpeed s = Some l ->
     s_playbackSpeed s = 2%Q /\ ((1 # 4) <= st_previous l <= 4)%Q) /\
  ((length (s_roles s) <= 500)%nat /\ forall i r, (i, r) ∈ s_roles s -> 0 <= r <= 4) /\
  (forall session permission, exists b, can session permission st = (inr b, st)).
Proof.
  intros Hr s. apply inv_reachable in Hr as [[g Hg] Hq Hb Hs Hl Hp Hprep [Hn Hf] _]. fold s in Hq, Hb, Hs, Hl, Hp, Hprep, Hn, Hf.
  split_and!; try done; try apply Hs.
  - rewrite <- queue_bytes_cap. by apply inj_le.
  - intros p Hp'. destruct (Hprep p Hp') as (? & ? & [?|Hin]); [done|]. split_and!; try done.
    unfold map_has in Hin. by destruct (map_get _ _).
  - intros i r Hir. rewrite Forall_forall in Hf. exact (Hf _ Hir).
  - intros session permission. eexists. by apply (can_run st g).
Qed.

Lemma edge_room_consistent_witness :
  s_isPlaying (e_snapshot edge_playing) = true /\ is_Some (s_currentSource (e_snapshot edge_playing)).
Proof.
  split; [vm_compute; reflexivity|].
  destruct (edge_room_consistent 0 edge_options host edge_playing edge_playing_reachable) as (_ & _ & H & _).
  apply H. vm_compute. reflexivity.
Defined.

(** ** Clients *)

(** C18: No client is ever stale. Take a client whose picture of the room (one value per
    synchronised key, positions compared as numbers) is right when nothing is dirty. After
    any batch of calls of one instant, whichever succeed, the messages of the next drain bring
    the client's picture to the room's, every key included, and leave nothing dirty and
    nothing unsent. *)
Theorem edge_clients_up_to_date `{J : EdgeJson} `{E : EdgeEnv} (steps : list EdgeStep) st v :
  Forall (fun s => s <> EDrain /\ s <> ERestart) steps ->
  e_dirty st = [] -> e_messages st = [] -> up_to_date v st ->
  let out := drain (fold_left (fun st s => edge_perform s st) steps st) in
  up_to_date (fold_left receive out.1.1 v) out.2 /\ e_dirty out.2 = [] /\ e_messages out.2 = [].
Proof.
  intros Hs Hd Hm Hv. cbv zeta.
  assert (Hc : covers st (fold_left (fun st s => edge_perform s st) steps st)).
  { clear Hd Hm Hv v. revert st. induction Hs as [|s steps [H1 H2] Hs IH]; intros st; simpl; [apply covers_refl|].
    eapply covers_trans; [by apply edge_tells|apply IH]. }
  set (st1 := fold_left _ steps st) in *. clearbody st1. destruct Hc as [_ Hch (l & Hl & Hq)].
  split; [|by destruct st1]. rewrite Hm in Hl. unfold drain. cbn [fst snd].
  rewrite Hl. cbn [app]. rewrite fold_left_app, (receive_others v l Hq).
  intros k. rewrite receive_dirty.
  assert (Hview : forall a, told_eq a (sync_value k st1) ->
    told_eq a (view_of (st1 <| e_dirty := [] |> <| e_messages := [] |> <| e_kicks := [] |>) k)).
  { intros a Ha. unfold view_of. by destruct st1. }
  apply Hview. destruct (decide (k ∈ e_dirty st1)) as [Hk|Hk]; [reflexivity|].
  destruct (Hch k) as [?|Ht]; [contradiction|]. exact (told_trans _ _ _ (Hv k) Ht).
Qed.

Definition watched : State := (drain (E := edge_env 2000) edge_playing).2.

Definition skip_batch : list EdgeStep := [EApply CSkip host_member []].

Lemma edge_clients_up_to_date_witness :
  let out := drain (E := edge_env 5000)
    (fold_left (fun st s => edge_perform (E := edge_env 5000) s st) skip_batch watched) in
  up_to_date (E := edge_env 5000) (fold_left receive out.1.1 (view_of (E := edge_env 5000) watched)) out.2 /\
  s_isPlaying (e_snapshot out.2) = false.
Proof.
  cbv zeta. split; [|vm_compute; reflexivity].
  assert (H1 : Forall (fun s => s <> EDrain /\ s <> ERestart) skip_batch).
  { constructor; [by split|constructor]. }
  assert (H2 : e_dirty watched = []) by (vm_compute; reflexivity).
  assert (H3 : e_messages watched = []) by (vm_compute; reflexivity).
  assert (H4 : up_to_date (E := edge_env 5000) (view_of (E := edge_env 5000) watched) watched).
  { intros k. apply told_eq_equiv. }
  exact (proj1 (edge_clients_up_to_date (E := edge_env 5000) skip_batch watched _ H1 H2 H3 H4)).
Defined.

(** ** Permissions and roles *)

Section Roles.
Context {J : EdgeJson} {L : EdgeJsonLaws J} {E : EdgeEnv}.

(** The fields [role] reads. *)
Definition who (st : State) := (s_ownerId (e_snapshot st), s_roles (e_snapshot st)).

Lemma role_who st st' session : who st = who st' -> role st session = role st' session.
Proof. unfold who, role, role_in. by intros [= -> ->]. Qed.

Lemma who_clearPreparation st : who (clearPreparation st) = who st.
Proof. unfold clearPreparation. destruct (s_preparation _); [|done]. by destruct st as [[] ? ? ? ?]. Qed.

Lemma who_begin_preparation m v st : who (begin_preparation m v st) = who st.
Proof. unfold begin_preparation. generalize (position st). intros q. by destruct st as [[] ? ? ? ?]. Qed.

Lemma who_announce identity st : who (announce_identity identity st) = who st.
Proof.
  unfold announce_identity. generalize (e_members st).*2. intros l. revert st.
  induction l as [|m l IH]; intros st; simpl; [done|]. rewrite IH. case_bool_decide; [|done]. by destruct st.
Qed.

(** In a good state [prepare] cannot throw: it leaves the state or begins one round. *)
Lemma prepare_cases exclude st :
  edge_inv st -> exists st', prepare exclude st = (inr tt, st') /\
    (st' = st \/ exists m v, st' = begin_preparation m v st /\ Some (m_id m) <> exclude).
Proof.
  intros H. destruct (inv_grants _ _ H) as [g Hg]. unfold prepare, bind, get.
  destruct (s_currentSource _) as [v|]; [|eauto]. destruct (s_preparation _); [eauto|].
  destruct (_ || _); [eauto|]. destruct (find_preparer_run st g exclude (e_members st).*2 Hg) as (r & -> & Hr).
  destruct r as [m|]; [|eauto]. destruct Hr as (_ & Hne & _). eauto 10.
Qed.

Lemma prepare_runs exclude st :
  edge_inv st -> exists st', prepare exclude st = (inr tt, st') /\ who st' = who st.
Proof.
  intros (st' & Hp & [->|(m & v & -> & _)])%(prepare_cases exclude); eexists; split; [done|done|exact Hp|].
  apply who_begin_preparation.
Qed.

Lemma after_promotion_runs st0 target st :
  edge_inv st -> exists st', after_promotion st0 target st = (inr tt, st') /\ who st' = who st.
Proof.
  intros H. unfold after_promotion. destruct (s_preparation (e_snapshot st0)); [|by eexists].
  case_bool_decide; [|by eexists]. destruct (inv_grants _ _ H) as [g Hg]. unfold bind at 1.
  rewrite (can_run st g _ _ Hg). destruct (Grants.granted _ _ _); [by eexists|].
  unfold when, negb, bind, modify.
  destruct (prepare_runs None (clearPreparation st)) as (st' & -> & Hw).
  { by apply (inv_clearPreparation None). }
  eexists. split; [done|]. by rewrite Hw, who_clearPreparation.
Qed.

Lemma check_named_run st g session prefix r :
  Grants.construct (s_grants (e_snapshot st)) = inr g ->
  check_named session prefix r st =
  (match role_name r with
   | Some n => if Grants.granted g (role st session) (prefix +:+ n) then inr tt else inl permissionDenied
   | None => inr tt
   end, st).
Proof. intros Hg. unfold check_named. destruct (role_name r); [by apply check_run|done]. Qed.

(** What [do_promote] does when it answers, and that it changes nothing otherwise. *)
Lemma promote_spec m target r st :
  edge_inv st -> isRoleValid r = true ->
  match do_promote m target r st with
  | (inl _, st') => st' = st
  | (inr out, st') => out = Some no_context /\
      exists t, map_get target (e_members st) = Some t /\ may_change_role st m t r = true /\
        who st' = (s_ownerId (e_snapshot st), map_set (gs_identity (m_session t)) r (s_roles (e_snapshot st)))
  end.
Proof.
  intros H Hr. destruct (inv_grants _ _ H) as [g Hg]. unfold do_promote, bind at 1, get.
  destruct (map_get target (e_members st)) as [t|] eqn:Ht; [|done].
  destruct (may_change_role st m t r) eqn:Hm; [|done]. cbn [negb].
  pose proof (may_change_role_range _ _ _ _ Hr Hm) as Hrange.
  unfold bind at 1. rewrite (check_named_run st g _ _ _ Hg). destruct (match role_name _ with Some _ => _ | None => _ end) as [|[]]; [done|].
  unfold bind at 1. rewrite (check_named_run st g _ _ _ Hg). destruct (match role_name r with Some _ => _ | None => _ end) as [|[]]; [done|].
  destruct (negb _ && _) eqn:Hroom; [done|].
  unfold bind at 1, modify at 1. pose proof (inv_set_role None _ r st Hrange Hroom H) as H2.
  unfold bind at 1, modify at 1. apply (announce_identity_keeps None (gs_identity (m_session t))) in H2.
  assert (Hw : who (announce_identity (gs_identity (m_session t)) (set_role (gs_identity (m_session t)) r st)) =
    (s_ownerId (e_snapshot st), map_set (gs_identity (m_session t)) r (s_roles (e_snapshot st)))).
  { rewrite who_announce. by destruct st as [[] ? ? ? ?]. }
  destruct (after_promotion_runs st t _ H2) as (st' & Ha & Hw'). unfold after_promotion in Ha.
  rewrite (bind_run _ _ _ _ _ Ha).
  split; [done|]. exists t. split_and!; try done. by rewrite Hw', Hw.
Qed.

Lemma who_event q m a st : who (event q m a st) = who st.
Proof. by destruct st as [[] ? ? ? ?]. Qed.

Lemma apply_promote m target r resolved st :
  apply (CPromote target r) m resolved st =
  match do_promote m target r st with
  | (inl e, st') => (inl e, st')
  | (inr (Some a), st') => (inr tt, event (RCommand (CPromote target r)) m a st')
  | (inr None, st') => (inr tt, st')
  end.
Proof.
  unfold apply, checkCommand. simpl. unfold bind, ret, modify.
  by destruct (do_promote m target r st) as [[e|[a|]] st'].
Qed.
End Roles.

(** Who may change whose role in the preview backend. A promotion either throws and
    changes nothing, or: the target is in the room, the new role is not the owner's, and both
    the target's present role and the new one rank strictly below the requester's (the owner
    ranks highest). Then every session of the target's identity has the new role, and every
    other session, the owner's included, keeps the role it had. *)
Theorem edge_promotion_authority `{J : EdgeJson} {L : EdgeJsonLaws J} `{E : EdgeEnv} t o owner st m target r resolved :
  edge_reachable (construct (createSnapshot t o owner)) st -> isRoleValid r = true ->
  match apply (CPromote target r) m resolved st with
  | (inl _, st') => st' = st
  | (inr _, st') => exists u, map_get target (e_members st) = Some u /\ r <> Owner /\
      rank (role st (m_session u)) < rank (role st (m_session m)) /\ rank r < rank (role st (m_session m)) /\
      forall session, role st' session =
        if bool_decide (gs_identity session = gs_identity (m_session u)) then r else role st session
  end.
Proof.
  intros Hreach Hr. apply inv_reachable in Hreach as H. rewrite apply_promote.
  pose proof (promote_spec m target r st H Hr) as Hp.
  destruct (do_promote m target r st) as [[e|out] st']; [done|].
  destruct Hp as [-> (u & Hu & Hm & Hw)]. exists u. unfold may_change_role in Hm.
  apply andb_true_iff in Hm as [[Ho Hou]%andb_true_iff Hlt%Z.ltb_lt].
  apply negb_true_iff, Z.eqb_neq in Ho. apply negb_true_iff, Z.eqb_neq in Hou.
  split_and!; [done|done|lia|lia|]. intros session.
  rewrite (role_who (event _ _ _ st') st') by apply who_event.
  assert (Hn : gs_identity (m_session u) <> s_ownerId (e_snapshot st)).
  { intros Heq. apply Hou. unfold role, role_in. by rewrite bool_decide_true. }
  clear Hou Hlt. unfold role, role_in, who in *. injection Hw as -> ->. rewrite map_get_set.
  destruct (bool_decide (gs_identity session = s_ownerId (e_snapshot st))) eqn:Ho1.
  - apply bool_decide_eq_true in Ho1. rewrite bool_decide_false; [done|congruence].
  - destruct (decide (gs_identity session = gs_identity (m_session u))) as [Hi|Hi];
      [by rewrite (bool_decide_true _ Hi)|by rewrite (bool_decide_false _ Hi)].
Qed.

Lemma edge_promotion_authority_witness :
  isRoleValid Moderator = true /\
  role (apply (E := edge_env 2000) (CPromote "g" Moderator) host_member [] edge_playing).2 guest = Moderator.
Proof.
  split; [reflexivity|].
  pose proof (edge_promotion_authority (E := edge_env 2000) 0 edge_options host edge_playing host_member "g" Moderator []
    edge_playing_reachable eq_refl) as H.
  destruct (apply (E := edge_env 2000) (CPromote "g" Moderator) host_member [] edge_playing) as [[e|x] st'] eqn:Ha.
  - exfalso. vm_compute in Ha. discriminate Ha.
  - destruct H as (u & Hu & _ & _ & _ & Hs). cbn [snd]. rewrite (Hs guest).
    assert (Hu' : map_get "g" (e_members edge_playing) = Some guest_member) by (vm_compute; reflexivity).
    rewrite Hu in Hu'. injection Hu' as ->. reflexivity.
Defined.

(** ** Alarms *)

Section Alarms.
Context {J : EdgeJson} {L : EdgeJsonLaws J} {E : EdgeEnv}.

Lemma Qmin_le_l (x y : Q) : ((if Qle_bool x y then x else y) <= x)%Q.
Proof.
  destruct (Qle_bool x y) eqn:H; [apply Qle_refl|].
  apply Qlt_le_weak, Qnot_le_lt. intros Hle%Qle_bool_iff. congruence.
Qed.

Lemma Qmin_le_r (x y : Q) : ((if Qle_bool x y then x else y) <= y)%Q.
Proof. destruct (Qle_bool x y) eqn:H; [by apply Qle_bool_iff|apply Qle_refl]. Qed.

(** The minimum of finite times is finite and below each of them. *)
Lemma fold_min_spec l : forall t,
  Forall (fun n => isFinite n = true) l ->
  exists q, fold_left num_min l (Fin t) = Fin q /\ (q <= t)%Q /\ forall x, Fin x ∈ l -> (q <= x)%Q.
Proof.
  induction l as [|n l IH]; intros t Hl; simpl.
  { exists t. split; [done|]. split; [apply Qle_refl|]. by intros x Hx%not_elem_of_nil. }
  inversion Hl as [|? ? Hn Hl']; subst. destruct n as [y| |]; try done. simpl.
  destruct (IH (if Qle_bool t y then t else y) Hl') as (q & -> & Hq & Hall). exists q.
  split; [done|]. split; [eapply Qle_trans; [exact Hq|apply Qmin_le_l]|].
  intros x [[= ->]|Hx]%elem_of_cons; [eapply Qle_trans; [exact Hq|apply Qmin_le_r]|by apply Hall].
Qed.

Lemma Qmax_lub a b c : (b <= c)%Q -> (Qmax' a b <= Qmax' a c)%Q.
Proof.
  intros H. unfold Qmax'. destruct (Qle_bool a b) eqn:H1, (Qle_bool a c) eqn:H2; try apply Qle_refl.
  - done.
  - apply Qle_bool_iff in H1. assert (H3 : (a <= c)%Q) by (by eapply Qle_trans).
    apply Qle_bool_iff in H3. congruence.
  - by apply Qle_bool_iff in H2.
Qed.

Lemma Qmax_left a b : (a <= Qmax' a b)%Q.
Proof. unfold Qmax'. destruct (Qle_bool a b) eqn:H; [by apply Qle_bool_iff|apply Qle_refl]. Qed.

(** The alarm is finite, in the future, and no later than any time of the list (or the
    next millisecond). *)
Lemma nextAlarm_spec idle checkpoint st :
  Forall (fun n => isFinite n = true) (alarm_times idle checkpoint st) ->
  match nextAlarm idle checkpoint st with
  | None => alarm_times idle checkpoint st = []
  | Some n => exists q, n = Fin q /\ (inject_Z (e_now + 1) <= q)%Q /\
      forall x, Fin x ∈ alarm_times idle checkpoint st -> (q <= Qmax' (inject_Z (e_now + 1)) x)%Q
  end.
Proof.
  intros Hf. unfold nextAlarm. destruct (alarm_times idle checkpoint st) as [|n l]; [done|].
  inversion Hf as [|? ? Hn Hl]; subst. destruct n as [t| |]; try done.
  destruct (fold_min_spec l t Hl) as (q & -> & Hq & Hall). eexists. split; [done|].
  split; [apply Qmax_left|]. intros x [[= ->]|Hx]%elem_of_cons; apply Qmax_lub; auto.
Qed.

Lemma alarm_times_finite idle checkpoint st :
  (forall e, s_currentSource (e_snapshot st) ≫= source_end = Some e -> isFinite e = true) ->
  Forall (fun n => isFinite n = true) (alarm_times idle checkpoint st).
Proof.
  intros He. unfold alarm_times. repeat apply Forall_app_2.
  - destruct (s_emptySince _); [destruct (s_isTemporary _)|]; by repeat constructor.
  - destruct (s_temporarySpeed _); by repeat constructor.
  - destruct (s_preparation _); by repeat constructor.
  - destruct (_ && _); [|constructor]. constructor; [done|].
    destruct (s_currentSource _ ≫= source_end) as [e|] eqn:Hs; [|constructor].
    specialize (He e eq_refl). destruct e; try done. by repeat constructor.
Qed.
End Alarms.

(** C19: The durable object wakes up in time for everything it waits for. When the ends of
    videos are finite numbers, the alarm is set to an instant at least a millisecond ahead, no
    later than: the end of a held speed's lease, the end of a round's lease, the next
    checkpoint of a room that plays to somebody, the end of the video that plays, and the
    expiry of an empty temporary room, each as long as it is still ahead. No alarm is set only
    when none of these is waited for. *)
Theorem edge_alarm_covers `{J : EdgeJson} `{E : EdgeEnv} idle checkpoint st :
  (forall e, s_currentSource (e_snapshot st) ≫= source_end = Some e -> isFinite e = true) ->
  let s := e_snapshot st in
  let plays := s_isPlaying s && occupied st in
  match nextAlarm idle checkpoint st with
  | None => s_temporarySpeed s = None /\ s_preparation s = None /\ plays = false /\
      (s_isTemporary s = true -> s_emptySince s = None)
  | Some n => exists q, n = Fin q /\ (inject_Z (e_now + 1) <= q)%Q /\
      let by_then t := (q <= Qmax' (inject_Z (e_now + 1)) t)%Q in
      (forall l, s_temporarySpeed s = Some l -> by_then (inject_Z (st_expiresAt l))) /\
      (forall p, s_preparation s = Some p -> by_then (inject_Z (sp_expiresAt p))) /\
      (plays = true -> by_then (inject_Z (s_anchorAt s + checkpoint))) /\
      (forall e, plays = true -> s_currentSource s ≫= source_end = Some (Fin e) ->
         by_then (inject_Z e_now + Qmax' 1 ((e - position st) / s_playbackSpeed s * 1000))%Q) /\
      (forall t, s_isTemporary s = true -> s_emptySince s = Some t -> by_then (inject_Z (t + idle)))
  end.
Proof.
  intros He s plays. pose proof (nextAlarm_spec idle checkpoint st (alarm_times_finite _ _ _ He)) as Hn.
  clear He. destruct (nextAlarm idle checkpoint st) as [n|].
  - destruct Hn as (q & -> & Hq & Hall). exists q. split; [done|]. split; [done|]. cbv zeta.
    assert (Hin : forall x l1 l2 l3 l4, alarm_times idle checkpoint st = l1 ++ l2 ++ l3 ++ l4 ->
      Fin x ∈ l1 \/ Fin x ∈ l2 \/ Fin x ∈ l3 \/ Fin x ∈ l4 -> (q <= Qmax' (inject_Z (e_now + 1)) x)%Q).
    { intros x l1 l2 l3 l4 Heq Hx. apply Hall. rewrite Heq, !elem_of_app. exact Hx. }
    clear Hall. split_and!; intros;
      (eapply Hin; [unfold alarm_times; reflexivity|]); fold s.
    + right; left. rewrite H. by left.
    + right; right; left. rewrite H. by left.
    + right; right; right. fold plays. rewrite H. by left.
    + right; right; right. fold plays. rewrite H, H0. right; by left.
    + left. rewrite H, H0. by left.
  - unfold alarm_times in Hn. fold s plays in Hn.
    apply app_eq_nil in Hn as [H1 [H2 [H3 H4]%app_eq_nil]%app_eq_nil].
    split_and!.
    + by destruct (s_temporarySpeed s).
    + by destruct (s_preparation s).
    + by destruct plays.
    + intros Ht. rewrite Ht in H1. by destruct (s_emptySince s).
Qed.

Lemma edge_alarm_covers_witness :
  exists q, nextAlarm (E := edge_env 2000) 60000 30000 edge_playing = Some (Fin q) /\
    (q <= Qmax' 2001 (inject_Z 2000 + Qmax' 1 ((60 - position (E := edge_env 2000) edge_playing) / 1 * 1000)))%Q.
Proof.
  assert (He : forall e, s_currentSource (e_snapshot edge_playing) ≫= source_end = Some e -> isFinite e = true).
  { intros e H. vm_compute in H. injection H as <-. reflexivity. }
  pose proof (edge_alarm_covers (E := edge_env 2000) 60000 30000 edge_playing He) as H. cbv zeta in H.
  destruct (nextAlarm (E := edge_env 2000) 60000 30000 edge_playing) as [n|] eqn:Hn.
  - destruct H as (q & -> & _ & _ & _ & _ & H & _). exists q. split; [done|].
    exact (H 60%Q ltac:(vm_compute; reflexivity) ltac:(vm_compute; reflexivity)).
  - exfalso. vm_compute in Hn. discriminate Hn.
Defined.

(** ** Ticks and restarts *)

Section Ticks.
Context {J : EdgeJson} {L : EdgeJsonLaws J} {E : EdgeEnv}.

(** No lease of the state has run out. *)
Definition leases_ahead (st : State) : Prop :=
  (forall l, s_temporarySpeed (e_snapshot st) = Some l -> e_now < st_expiresAt l) /\
  (forall p, s_preparation (e_snapshot st) = Some p -> e_now < sp_expiresAt p).

Lemma clearTemporarySpeed_preparation st :
  s_preparation (e_snapshot (clearTemporarySpeed st)) = s_preparation (e_snapshot st).
Proof.
  unfold clearTemporarySpeed. destruct (s_temporarySpeed _); [|done].
  unfold anchor. generalize (position st). intros q. by destruct st as [[] ? ? ? ?].
Qed.

Lemma expire_lease_ahead st l :
  s_temporarySpeed (e_snapshot (expire_lease st)) = Some l -> e_now < st_expiresAt l.
Proof.
  unfold expire_lease. destruct (s_temporarySpeed (e_snapshot st)) as [t|] eqn:Ht; [|by rewrite Ht].
  destruct (st_expiresAt t <=? e_now) eqn:Hx; [by rewrite clearTemporarySpeed_none|].
  rewrite Ht. intros [= <-]. by apply Z.leb_gt.
Qed.

Lemma begin_preparation_fields m v st :
  s_temporarySpeed (e_snapshot (begin_preparation m v st)) = s_temporarySpeed (e_snapshot st) /\
  exists p, s_preparation (e_snapshot (begin_preparation m v st)) = Some p /\
    sp_clientId p = m_id m /\ sp_expiresAt p = e_now + PREPARATION_LEASE_MS.
Proof.
  unfold begin_preparation. generalize (position st). intros q. destruct st as [[] ? ? ? ?]. split; [done|].
  by eexists.
Qed.

(** [expire_preparation] cannot throw; what it leaves is not overdue, and a round that was
    overdue has not gone to the same client again. *)
Lemma expire_preparation_runs st :
  edge_inv st -> (forall l, s_temporarySpeed (e_snapshot st) = Some l -> e_now < st_expiresAt l) ->
  exists st', expire_preparation st = (inr tt, st') /\ leases_ahead st' /\ edge_inv st' /\
    forall p p', s_preparation (e_snapshot st) = Some p -> sp_expiresAt p <= e_now ->
      s_preparation (e_snapshot st') = Some p' -> sp_clientId p' <> sp_clientId p.
Proof.
  intros H Ht. pose proof (inv_expire_preparation st H) as Hk. unfold expire_preparation in *.
  rewrite bind_get in *.
  destruct (s_preparation (e_snapshot st)) as [p|] eqn:Hp.
  2: { exists st. split_and!; [done|split; [done|intros p' Hp'; congruence]|done|done]. }
  destruct (sp_expiresAt p <=? e_now) eqn:Hx; cbn [when] in *.
  2: { exists st. apply Z.leb_gt in Hx. split_and!; [done|split; [done|intros p' Hp'; congruence]|done|].
       intros p0 p' [= <-]. lia. }
  rewrite bind_modify in *.
  destruct (prepare_cases (Some (sp_clientId p)) (clearPreparation st)) as (st' & Hr & Hcase).
  { by apply (inv_clearPreparation None). }
  rewrite Hr in *. exists st'. split; [done|].
  assert (Hl : s_temporarySpeed (e_snapshot (clearPreparation st)) = s_temporarySpeed (e_snapshot st))
    by apply clearPreparation_lease.
  destruct Hcase as [->|(m & v & -> & Hne)].
  - split_and!; [split|exact Hk|].
    + rewrite Hl. exact Ht.
    + intros p'. by rewrite clearPreparation_none.
    + intros p0 p' _ _. by rewrite clearPreparation_none.
  - destruct (begin_preparation_fields m v (clearPreparation st)) as (Ht' & p1 & Hp1 & Hc & Hex).
    split_and!; [split|exact Hk|].
    + rewrite Ht', Hl. exact Ht.
    + intros p'. rewrite Hp1. intros [= <-]. rewrite Hex. unfold PREPARATION_LEASE_MS. lia.
    + intros p0 p' [= <-] _. rewrite Hp1. intros [= <-]. congruence.
Qed.

Lemma start_settled v st :
  s_temporarySpeed (e_snapshot (start v st)) = None /\ s_preparation (e_snapshot (start v st)) = None /\
  s_currentSource (e_snapshot (start v st)) = v /\
  s_position (e_snapshot (start v st)) = default 0%Q (v ≫= qi_startAt) /\ s_anchorAt (e_snapshot (start v st)) = e_now.
Proof.
  unfold start. set (st1 := clearPreparation (clearTemporarySpeed st)).
  assert (Ht : s_temporarySpeed (e_snapshot st1) = None).
  { unfold st1. by rewrite clearPreparation_lease, clearTemporarySpeed_none. }
  assert (Hp : s_preparation (e_snapshot st1) = None) by apply clearPreparation_none.
  clearbody st1. by destruct st1 as [[] ? ? ? ?].
Qed.

Lemma next_settled st :
  let v := head (looped (e_snapshot st)) in
  leases_ahead (next st) /\ s_currentSource (e_snapshot (next st)) = v /\
  s_position (e_snapshot (next st)) = default 0%Q (v ≫= qi_startAt) /\ s_anchorAt (e_snapshot (next st)) = e_now.
Proof.
  intros v. unfold next. fold v.
  match goal with |- context [start v ?x] => destruct (start_settled v x) as (Ht & Hp & Hs & Hq & Ha); set (st1 := start v x) in * end.
  clearbody st1. unfold leases_ahead. change (e_snapshot (mark [PQueue; PVoteCounts] st1)) with (e_snapshot st1).
  rewrite Ht, Hp. split_and!; done.
Qed.
End Ticks.

(** What a tick settles. A tick of a reachable room never throws. Afterwards no lease is
    overdue: a held speed that ran out is undone, and a round whose client stayed silent has
    been taken from that client. And a room that plays is short of the end of its video,
    unless that video was started by this very tick. *)
Theorem edge_tick_settles `{J : EdgeJson} {L : EdgeJsonLaws J} `{E : EdgeEnv} t o owner st :
  edge_reachable (construct (createSnapshot t o owner)) st ->
  exists st', tick st = (inr tt, st') /\
    (forall l, s_temporarySpeed (e_snapshot st') = Some l -> e_now < st_expiresAt l) /\
    (forall p, s_preparation (e_snapshot st') = Some p -> e_now < sp_expiresAt p) /\
    (forall p p', s_preparation (e_snapshot st) = Some p -> sp_expiresAt p <= e_now ->
       s_preparation (e_snapshot st') = Some p' -> sp_clientId p' <> sp_clientId p) /\
    (forall v e, s_currentSource (e_snapshot st') = Some v -> source_end v = Some (Fin e) ->
       s_isPlaying (e_snapshot st') = true ->
       (position st' < e)%Q \/
       s_anchorAt (e_snapshot st') = e_now /\ s_position (e_snapshot st') = default 0%Q (qi_startAt v)).
Proof.
  intros Hr. apply inv_reachable in Hr. unfold tick. rewrite bind_modify.
  pose proof (inv_expire_lease st Hr) as H1.
  destruct (expire_preparation_runs (expire_lease st) H1 (expire_lease_ahead st)) as (st1 & Hrun & Hl & H2 & Hsame).
  rewrite (bind_run _ _ _ _ _ Hrun). unfold modify. eexists. split; [done|].
  assert (Hprep : s_preparation (e_snapshot (expire_lease st)) = s_preparation (e_snapshot st)).
  { unfold expire_lease. destruct (s_temporarySpeed _); [|done].
    destruct (_ <=? _); [apply clearTemporarySpeed_preparation|done]. }
  rewrite Hprep in Hsame. unfold finish_source.
  destruct (s_currentSource (e_snapshot st1)) as [v|] eqn:Hs.
  2: { split_and!; [apply Hl|apply Hl|done|]. intros v e Hv. congruence. }
  destruct (s_isPlaying (e_snapshot st1) && reached (position st1) (source_end v)) eqn:Hend.
  - destruct (next_settled st1) as ([Ht Hp] & Hsrc & Hq & Ha). split_and!; [done|done| |].
    + intros p p' _ _ Hp'. exfalso. revert Hp'. unfold next.
      match goal with |- context [start ?v ?x] => destruct (start_settled v x) as (_ & Hn & _); set (y := start v x) in * end.
      clearbody y. change (e_snapshot (mark [PQueue; PVoteCounts] y)) with (e_snapshot y). congruence.
    + intros v' e Hv' _ _. right. split; [done|]. rewrite Hq. rewrite Hsrc in Hv'. by rewrite Hv'.
  - split_and!; [apply Hl|apply Hl|done|]. intros v' e [= <-]%(eq_trans (eq_sym Hs)) He Hplay. left.
    rewrite Hplay, He in Hend. simpl in Hend. unfold Qge_bool in Hend.
    apply Qnot_le_lt. intros Hle%Qle_bool_iff. congruence.
Qed.

Lemma edge_tick_settles_witness :
  edge_reachable fresh_edge edge_playing /\
  exists st', tick (E := edge_env 61000) edge_playing = (inr tt, st') /\
    s_temporarySpeed (e_snapshot st') = None.
Proof.
  split; [exact edge_playing_reachable|].
  destruct (edge_tick_settles (E := edge_env 61000) 0 edge_options host edge_playing edge_playing_reachable)
    as (st' & Ht & _). exists st'. split; [exact Ht|].
  assert (Hs : st' = (tick (E := edge_env 61000) edge_playing).2) by (by rewrite Ht).
  rewrite Hs. vm_compute. reflexivity.
Defined.

(** A restart keeps the room. A durable object that wakes up with no sockets, from the
    snapshot it last saved, is paused at the position it stood at, with nothing held: no round,
    no held speed, the speed the room had before one. It resumes for the next viewer exactly
    when it was playing, preparing to play, or already due to resume; its video, queue, votes,
    roles, permissions and settings are the stored ones. *)
Theorem edge_restart_resumes `{J : EdgeJson} `{E : EdgeEnv} st :
  let s := e_snapshot st in
  let st' := edge_perform ERestart st in
  let s' := e_snapshot st' in
  e_members st' = [] /\ s_isPlaying s' = false /\ s_preparation s' = None /\ s_temporarySpeed s' = None /\
  (position st' == position st)%Q /\
  s_playbackSpeed s' = match s_temporarySpeed s with Some l => st_previous l | None => s_playbackSpeed s end /\
  s_resumeOnNextJoin s' = s_resumeOnNextJoin s || s_isPlaying s || bool_decide (is_Some (s_preparation s)) /\
  is_Some (s_emptySince s') /\
  (s_currentSource s', s_queue s', s_votes s', s_roles s', s_grants s', s_ownerId s') =
  (s_currentSource s, s_queue s, s_votes s, s_roles s, s_grants s, s_ownerId s) /\
  (s_title s', s_description s', s_visibility s', s_queueMode s', s_enableVoteSkip s') =
  (s_title s, s_description s, s_visibility s, s_queueMode s, s_enableVoteSkip s).
Proof.
  cbv zeta. unfold edge_perform, persisted. cbn [fst snd]. unfold recover. rewrite bind_get.
  change (e_members (construct _)) with (@nil (string * Member)). unfold modify. cbn [snd].
  pose proof (position_nonneg st) as Hq. set (q := position st) in *. unfold anchor. fold q. clearbody q.
  assert (Hx : (Qmax' 0 (q + 0) == q)%Q) by (apply Qmax_pos; [done|ring]).
  destruct st as [[] ms ds msgs ks]. unfold recover_empty, clearPreparation, position, position_of.
  destruct s_preparation, s_temporarySpeed; cbn -[Qmax' Qplus]; split_and!; try done; try (by eexists);
    by destruct s_resumeOnNextJoin, s_isPlaying.
Qed.
