(* ===== verification/Async.v ===== *)
(** * Async: how a media player answers

    The client's engines are cut at their awaits.  These are the ways a call into the
    player ends before the engine goes on, and the ways a promise settles. *)

From S2P Require Import Prelude.

(** A command: it is done, it threw, or it gave a promise. *)
Inductive answer := Done | Threw | Promised.

(** [getPosition]: a number at once, an exception, or a promise of a number. *)
Inductive reading := ReadNow (p : num) | ReadThrew | ReadLater.

(** A promise of a number, or of nothing (the number is not looked at), settles. *)
Inductive outcome := Resolved (p : num) | Rejected.

(** The value a tick goes on with: the one that was there when it began to wait, or the
    one its promise settled with; [None] for a rejected promise. *)
Definition settled (known : option num) (o : outcome) : option num :=
  match known, o with
  | Some p, _ | None, Resolved p => Some p
  | None, Rejected => None
  end.

Definition rejected (o : outcome) : bool := match o with Rejected => true | _ => false end.

(** ** One reading at a time

    An engine that lets one tick at a time read marks it with a fresh symbol in
    [inFlight]; the continuations it leaves behind carry the symbol (and some the
    generation they belong to).  [Waiting] says where to find these, and [flight] that a
    mark is never left behind: every symbol in [inFlight] is that of exactly one suspended
    continuation. *)

Class Waiting (S K : Type) := {
  w_inFlight : S -> option nat;
  w_pending : S -> list K;
  w_symbols : S -> nat;
  w_generation : S -> Z;
  w_request : K -> option nat;
  w_stamp : K -> option Z;
}.

Section Flight.
Context {S K : Type} {W : Waiting S K}.
Implicit Types (s : S) (k : K) (q : option nat).

(** [flight_owed q s]: the same while the tick of request [q] is running. *)
Record flight_owed q s : Prop := {
  f_held : forall r, w_inFlight s = Some r ->
    q = Some r \/ exists k, k ∈ w_pending s /\ w_request k = Some r;
  f_fresh : forall k r, k ∈ w_pending s -> w_request k = Some r -> (r < w_symbols s)%nat;
  f_once : NoDup (omap w_request (w_pending s));
  f_owed : forall r, q = Some r -> (r < w_symbols s)%nat /\ r ∉ omap w_request (w_pending s);
  f_gen : forall k r g, k ∈ w_pending s -> w_request k = Some r -> w_stamp k = Some g ->
    w_inFlight s = Some r -> g = w_generation s;
}.

Definition flight_view s := (w_inFlight s, w_pending s, w_symbols s, w_generation s).

Lemma flight_same q s s' : flight_view s' = flight_view s -> flight_owed q s -> flight_owed q s'.
Proof. intros [= H1 H2 H3 H4] [?????]. split; rewrite ?H1, ?H2, ?H3, ?H4; assumption. Qed.

Lemma elem_of_requests k r (l : list K) : k ∈ l -> w_request k = Some r -> r ∈ omap w_request l.
Proof. intros. apply list_elem_of_omap. by exists k. Qed.

(** Nothing in flight: only freshness and uniqueness are left to say. *)
Lemma flight_none q s s' :
  w_inFlight s' = None -> w_pending s' = w_pending s -> w_symbols s' = w_symbols s ->
  flight_owed q s -> flight_owed None s'.
Proof. intros H1 H2 H3 [?????]. split; rewrite ?H1, ?H2, ?H3; done. Qed.

(** A new generation takes the mark away, whoever runs. *)
Lemma flight_reset q s s' :
  w_inFlight s' = None -> w_pending s' = w_pending s -> w_symbols s' = w_symbols s ->
  flight_owed q s -> flight_owed q s'.
Proof. intros H1 H2 H3 [?????]. split; rewrite ?H1, ?H2, ?H3; done. Qed.

(** Continuations nobody waits on may be added. *)
Lemma flight_detached q s s' ks :
  w_inFlight s' = w_inFlight s -> w_symbols s' = w_symbols s -> w_generation s' = w_generation s ->
  w_pending s' = w_pending s ++ ks -> Forall (fun k => w_request k = None) ks ->
  flight_owed q s -> flight_owed q s'.
Proof.
  intros Hin Hsy Hgen Hp Hks [Hh Hf Ho Hq Hg].
  assert (Hom : omap w_request (w_pending s') = omap w_request (w_pending s)).
  { rewrite Hp, omap_app. replace (omap w_request ks) with (@nil nat); [apply app_nil_r|].
    clear Hp. induction Hks as [|k ks Hk _ IH]; [done|]. simpl. by rewrite Hk. }
  assert (Hel : forall k r, k ∈ w_pending s' -> w_request k = Some r -> k ∈ w_pending s).
  { intros k r Hk Hr. rewrite Hp in Hk. apply elem_of_app in Hk as [|Hk]; [done|].
    rewrite Forall_forall in Hks. rewrite (Hks k Hk) in Hr. done. }
  split; rewrite ?Hom, ?Hsy, ?Hin, ?Hgen; try assumption.
  - intros r Hr. destruct (Hh r Hr) as [?|(k & Hk & Hkr)]; [by left|right; exists k].
    rewrite Hp. split; [by apply elem_of_app; left|done].
  - intros k r Hk Hr. eapply Hf; [by eapply Hel|done].
  - intros k r g Hk Hr Hst Hi. eapply Hg; [by eapply Hel|done..].
Qed.

(** The end of the running tick. *)
Lemma flight_end r s s' :
  w_inFlight s' = (if bool_decide (w_inFlight s = Some r) then None else w_inFlight s) ->
  w_pending s' = w_pending s -> w_symbols s' = w_symbols s -> w_generation s' = w_generation s ->
  flight_owed (Some r) s -> flight_owed None s'.
Proof.
  intros Hin Hp Hsy Hgen Hs. case_bool_decide as Hr; [by eapply flight_none|].
  destruct Hs as [Hh Hf Ho _ Hg]. split; rewrite ?Hin, ?Hp, ?Hsy, ?Hgen; try done.
  intros r' Hr'. destruct (Hh r' Hr') as [[= ->]|?]; [done|by right].
Qed.

(** The running tick waits again. *)
Lemma flight_wait r k s s' :
  w_inFlight s' = w_inFlight s -> w_symbols s' = w_symbols s -> w_generation s' = w_generation s ->
  w_pending s' = w_pending s ++ [k] -> w_request k = Some r ->
  (forall g, w_stamp k = Some g -> w_inFlight s = Some r -> g = w_generation s) ->
  flight_owed (Some r) s -> flight_owed None s'.
Proof.
  intros Hin Hsy Hgen Hp Hk Hst [Hh Hf Ho Hq Hg]. destruct (Hq r eq_refl) as [Hlt Hnew].
  split; [| | |done|]; rewrite ?Hp, ?Hin, ?Hsy, ?Hgen.
  - intros r' Hr'. right. destruct (Hh r' Hr') as [[= ->]|(k' & ? & ?)].
    + exists k. split; [apply elem_of_app; right; by left|done].
    + exists k'. split; [by apply elem_of_app; left|done].
  - intros k' r' [Hk'| ->%list_elem_of_singleton]%elem_of_app Hr'; [by eapply Hf|].
    rewrite Hk in Hr'. by injection Hr' as <-.
  - rewrite omap_app. simpl. rewrite Hk. apply NoDup_app. split; [done|].
    split; [|apply NoDup_singleton]. by intros r' Hr' ->%list_elem_of_singleton.
  - intros k' r' g [Hk'| ->%list_elem_of_singleton]%elem_of_app Hr' Hst' Hi; [by eapply Hg|].
    rewrite Hk in Hr'. injection Hr' as <-. by apply Hst.
Qed.

(** A tick begins, with a symbol nobody has. *)
Lemma flight_begin s s' :
  w_inFlight s' = Some (w_symbols s) -> w_symbols s' = Datatypes.S (w_symbols s) ->
  w_pending s' = w_pending s -> flight_owed None s -> flight_owed (Some (w_symbols s)) s'.
Proof.
  intros Hin Hsy Hp [_ Hf Ho _ _].
  assert (Hnew : w_symbols s ∉ omap w_request (w_pending s)).
  { intros (k & Hk & Hr)%list_elem_of_omap. specialize (Hf _ _ Hk Hr). lia. }
  split; rewrite ?Hp, ?Hsy, ?Hin; try done.
  - intros r [= <-]. by left.
  - intros k r Hk Hr. specialize (Hf _ _ Hk Hr). lia.
  - intros r [= <-]. split; [lia|done].
  - intros k r g Hk Hr _ [= <-]. destruct Hnew. by eapply elem_of_requests.
Qed.

(** Taking a continuation off the list leaves its request owed. *)
Lemma flight_take i k s s' :
  w_inFlight s' = w_inFlight s -> w_symbols s' = w_symbols s -> w_generation s' = w_generation s ->
  w_pending s' = delete i (w_pending s) -> w_pending s !! i = Some k ->
  flight_owed None s -> flight_owed (w_request k) s'.
Proof.
  intros Hin Hsy Hgen Hp Hi [Hh Hf Ho _ Hg]. pose proof (delete_Permutation _ _ _ Hi) as HP.
  assert (Hsub : forall k', k' ∈ delete i (w_pending s) -> k' ∈ w_pending s).
  { intros k' Hk'. rewrite HP. by right. }
  assert (Hom : omap w_request (w_pending s) ≡ₚ omap w_request (k :: delete i (w_pending s)))
    by by rewrite HP at 1.
  rewrite Hom in Ho. simpl in Ho.
  split; rewrite ?Hp, ?Hin, ?Hsy, ?Hgen.
  - intros r Hr. destruct (Hh r Hr) as [|(k' & Hk' & Hr')]; [done|].
    rewrite HP in Hk'. apply elem_of_cons in Hk' as [ ->|Hk']; [by left|right; by exists k'].
  - intros k' r Hk' Hr. by eapply Hf; [apply Hsub|].
  - destruct (w_request k); [by apply NoDup_cons in Ho as [_ Ho]|done].
  - intros r Hr. split.
    + eapply Hf; [|exact Hr]. by eapply list_elem_of_lookup_2.
    + rewrite Hr in Ho. by apply NoDup_cons in Ho as [Ho _].
  - intros k' r g Hk' Hr. by eapply Hg; [apply Hsub|].
Qed.

(** What [flight] says about a symbol in flight. *)
Lemma flight_unique s r :
  flight_owed None s -> w_inFlight s = Some r ->
  exists i k, w_pending s !! i = Some k /\ w_request k = Some r
    /\ forall j k', w_pending s !! j = Some k' -> w_request k' = Some r -> j = i.
Proof.
  intros Hs Hr. destruct (f_held _ _ Hs r Hr) as [?|(k & Hk & Hkr)]; [done|].
  apply list_elem_of_lookup in Hk as [i Hi]. exists i, k. split_and!; [done..|].
  intros j k' Hj Hk'. by eapply (omap_once w_request); [apply Hs|done..].
Qed.
End Flight.

Notation flight := (flight_owed None).
