(* ===== verification/PlaybackSync.v ===== *)
(** * PlaybackSync: how a client keeps its player on the room's clock

    [createPlaybackSync] of [client/src/util/playback-sync.ts].  The engine reads the
    player's position, and closes the distance to the room's position with a slightly
    different playback rate (a _bend_) or, past a limit, with a seek.  Reading and
    seeking are asynchronous, so a method of the engine is cut at its awaits: what runs
    up to the next await is one function, what is left is a continuation in [pending]
    that any later step may resume.  Everything the engine does to the player is
    recorded in [trace]. *)

From S2P Require Import Prelude Async.

Module PlaybackSync.

(** ** Constants *)

Definition BEND_START : Q := 3 # 10.
Definition BEND_STOP : Q := 15 # 100.
Definition MAX_BEND : Q := 8 # 100.
Definition HARD_SEEK_DRIFT : Q := 3.
Definition CATCHUP_FULL : Q := 1.
Definition CATCHUP_MAX_BEND : Q := 15 # 100.
Definition BEND_DEADLINE_MS : Q := 8000.
Definition MAX_BEND_DEADLINE_MS : Q := 30000.
Definition RATE_WRITE_THRESHOLD : Q := 2 # 1000.
Definition PLAYBACK_INITIAL_SYNC_COOLDOWN_MS : Z := 8000.
Definition PLAYBACK_INITIAL_MAX_DRIFT_SECONDS : Q := 10.
Definition PLAYBACK_MIN_SEEK_BUFFER_SECONDS : Q := 3 # 2.


(** [Math.sign] of a finite number. *)
Definition Qsign (x : Q) : Q := if Qlt_bool 0 x then 1 else if Qlt_bool x 0 then -1 else 0.

(** The rate ceiling for a drift. *)
Definition bendCeiling (magnitude : Q) : Q :=
  if Qle_bool magnitude CATCHUP_FULL then MAX_BEND
  else
    let progress := (Qmin' magnitude HARD_SEEK_DRIFT - CATCHUP_FULL)%Q in
    (MAX_BEND + progress / (HARD_SEEK_DRIFT - CATCHUP_FULL) * (CATCHUP_MAX_BEND - MAX_BEND))%Q.

(** How long the ceiling may take to converge. *)
Definition bendDeadlineMs (magnitude ceiling : Q) : Q :=
  let needed := (magnitude / ceiling * 1000 * (5 # 4))%Q in
  Qmin' MAX_BEND_DEADLINE_MS (Qmax' BEND_DEADLINE_MS needed).

(** ** The player as the engine sees it

    Sources and players are objects the engine compares by identity. *)

Record SyncState := MkSyncState {
  source : option nat;
  player : option nat;
  ready : bool;
  error : bool;
  blocked : bool;
  seeking : bool;
  recovering : bool;
  buffering : bool;
  bufferAhead : option num;
  live : bool;
  playing : bool;
  temporarySpeed : bool;
  position : num;
}.

(** The answers of the engine's [options] and of the clock while one piece of it runs. *)
Record World := MkWorld {
  now : Z;
  getState : SyncState;
  option_getBendBase : option num;
  allowRateBend : bool;
  getPosition : reading;
  setPosition : answer;
  setLocalRate : Q -> answer;
}.

(** ** The engine *)

Inductive effect :=
| ESetPosition (p : num)
| ESetRate (rate : Q)
| EError
| EUnhandled.

(** What is left to do after an await.  [request] is the symbol of the tick that waits;
    the continuations of requested seeks have none. *)
Inductive continuation :=
| AfterPosition (request : nat) (generation : Z) (state : SyncState) (known : option num)
| AfterLargePosition (reason : string)
| AfterSeek (generation : Z) (request : option nat)
| AfterRate (generation : Z) (request : option nat)
| Finally (request : nat).

Record Sync := MkSync {
  s_source : option nat;
  s_player : option nat;
  generation : Z;
  lastSeekAt : option Z;
  bufferedSinceLastSeek : bool;
  initialSyncUntil : Z;
  pendingSeek : bool;
  pendingSeekToleratesDrift : bool;
  pendingSeekReason : string;
  inFlight : option nat;
  disposed : bool;
  bendStartedAt : option Z;
  bendBase : option Q;
  bendOffset : option Q;
  appliedRate : option Q;
  bendPeak : Q;
  bendDeadlineAt : Q;
  rateWrites : Z;
  deadlineSeeks : Z;
  maxAbsDrift : num;
  (* [options.setLocalRate] is there *)
  has_setLocalRate : bool;
  (* the next fresh symbol, the suspended continuations, and what the player was told *)
  symbols : nat;
  pending : list continuation;
  trace : list effect;
}.

#[global] Instance eta_Sync : Eta Sync := fun s =>
  MkSync (s_source s) (s_player s) (generation s) (lastSeekAt s) (bufferedSinceLastSeek s)
    (initialSyncUntil s) (pendingSeek s) (pendingSeekToleratesDrift s) (pendingSeekReason s)
    (inFlight s) (disposed s) (bendStartedAt s) (bendBase s) (bendOffset s) (appliedRate s)
    (bendPeak s) (bendDeadlineAt s) (rateWrites s) (deadlineSeeks s) (maxAbsDrift s)
    (has_setLocalRate s) (symbols s) (pending s) (trace s).

Definition createPlaybackSync (has_setter : bool) : Sync :=
  MkSync None None 0 None false 0 false false "" None false None None None None 0 0 0 0 (Fin 0)
    has_setter 0 [] [].

Definition emit (e : effect) (s : Sync) : Sync := s <| trace ::= fun t => t ++ [e] |>.
Definition suspend (k : continuation) (s : Sync) : Sync := s <| pending ::= fun l => l ++ [k] |>.

Definition getBendBase (w : World) (s : Sync) : option Q :=
  if negb (allowRateBend w) then None
  else match option_getBendBase w with
       | Some (Fin base) => if has_setLocalRate s && Qlt_bool 0 base then Some base else None
       | _ => None
       end.

(** [failed] of [writeRate]: a rate the player refused is forgotten, unless the engine has
    moved on. *)
Definition rate_failed (currentGeneration : Z) (s : Sync) : Sync :=
  if negb (disposed s) && (currentGeneration =? generation s)
  then emit EError (s <| appliedRate := None |>)
  else s.

(** The part of [writeRate] that writes; with the state, whether there is a promise to
    wait for. *)
Definition send_rate (w : World) (rate : Q) (s : Sync) : Sync * bool :=
  let s := s <| appliedRate := Some rate |> <| rateWrites ::= Z.succ |> in
  if negb (has_setLocalRate s) then (s, false) else
  let s := emit (ESetRate rate) s in
  match setLocalRate w rate with
  | Done => (s, false)
  | Threw => (rate_failed (generation s) s, false)
  | Promised => (s, true)
  end.

Definition close_rates (rate applied : Q) : bool :=
  Qle_bool (Qabs' (rate - applied)) RATE_WRITE_THRESHOLD.

Definition writeRate (w : World) (rate : Q) (s : Sync) : Sync * bool :=
  match appliedRate s with
  | Some a => if close_rates rate a then (s, false) else send_rate w rate s
  | None => send_rate w rate s
  end.

(** [void writeRate(rate)] and [await writeRate(rate)]. *)
Definition writeRate_void (w : World) (rate : Q) (s : Sync) : Sync :=
  let (s, promised) := writeRate w rate s in
  if promised then suspend (AfterRate (generation s) None) s else s.

Definition writeRate_await (w : World) (rate : Q) (request : nat) (s : Sync) : Sync :=
  let (s, promised) := writeRate w rate s in
  if promised then suspend (AfterRate (generation s) (Some request)) s
  else suspend (Finally request) s.

(** The base [cancelBend] goes back to: [getBendBase() ?? bendBase]. *)
Definition cancel_base (w : World) (s : Sync) : option Q :=
  match getBendBase w s with Some b => Some b | None => bendBase s end.

Definition forget_bend (s : Sync) : Sync :=
  s <| bendStartedAt := None |> <| bendBase := None |> <| bendOffset := None |>
    <| bendPeak := 0%Q |> <| bendDeadlineAt := 0%Q |> <| appliedRate := None |>.

Definition cancelBend (w : World) (s : Sync) : Sync :=
  forget_bend
    match bendStartedAt s, cancel_base w s with
    | Some _, Some base => writeRate_void w base s
    | _, _ => s
    end.

Definition invalidateRate (w : World) (s : Sync) : Sync :=
  cancelBend w (s <| generation ::= Z.succ |> <| inFlight := None |>).

Definition resetMetrics (s : Sync) : Sync :=
  s <| rateWrites := 0 |> <| deadlineSeeks := 0 |> <| maxAbsDrift := Fin 0 |>.

Definition reset (w : World) (s : Sync) : Sync :=
  resetMetrics
    ((invalidateRate w s) <| lastSeekAt := None |> <| bufferedSinceLastSeek := false |>
      <| initialSyncUntil := now w + PLAYBACK_INITIAL_SYNC_COOLDOWN_MS |>
      <| pendingSeek := true |> <| pendingSeekToleratesDrift := false |>
      <| pendingSeekReason := "reset"%string |> <| inFlight := None |>).

(** ** The gates *)

Definition canSeek (s : Sync) (state : SyncState) : bool :=
  negb (disposed s) && bool_decide (source state <> None) && bool_decide (player state <> None)
  && ready state && negb (error state)
  && match position state with Fin q => Qle_bool 0 q | _ => false end.

Definition canObserve (s : Sync) (state : SyncState) : bool :=
  canSeek s state && negb (blocked state) && negb (seeking state) && negb (recovering state)
  && negb (buffering state).

(** [bufferAhead >= PLAYBACK_MIN_SEEK_BUFFER_SECONDS], where it is known. *)
Definition hasSeekBuffer (state : SyncState) : bool :=
  match bufferAhead state with
  | None => true
  | Some (Fin b) => Qle_bool PLAYBACK_MIN_SEEK_BUFFER_SECONDS b
  | Some (Inf negative) => negb negative
  | Some NaN => false
  end.

Definition seek_cooldown (s : Sync) : Z := if bufferedSinceLastSeek s then 8000 else 2000.

Definition canSeekNow (w : World) (s : Sync) (state : SyncState) : bool :=
  canObserve s state
  && match lastSeekAt s with
     | None => true
     | Some t => seek_cooldown s <=? now w - t
     end.

(** ** Seeking *)

(** An error met in [seek] or [tick], reported unless the engine has moved on. *)
Definition report (currentGeneration : Z) (s : Sync) : Sync :=
  if negb (disposed s) && (currentGeneration =? generation s) then emit EError s else s.

Definition finally (request : nat) (s : Sync) : Sync :=
  if bool_decide (inFlight s = Some request) then s <| inFlight := None |> else s.

(** Back from [await seek(...)]: a tick that waits goes on to its [finally]. *)
Definition resume_tick (request : option nat) (s : Sync) : Sync :=
  match request with Some r => suspend (Finally r) s | None => s end.

Definition seek (w : World) (state : SyncState) (reason : string) (request : option nat)
    (s : Sync) : Sync :=
  let s := if bool_decide (reason = "bend-deadline"%string)
           then s <| deadlineSeeks ::= Z.succ |> else s in
  let s := (cancelBend w s) <| lastSeekAt := Some (now w) |>
             <| bufferedSinceLastSeek := buffering state |> in
  let currentGeneration := generation s in
  let s := emit (ESetPosition (position state)) s in
  match setPosition w with
  | Threw => resume_tick request (report currentGeneration s)
  | Done | Promised => suspend (AfterSeek currentGeneration request) s
  end.

(** [Math.max] with [NaN]. *)
Definition jsmax (x y : num) : num :=
  match x, y with
  | NaN, _ | _, NaN => NaN
  | Inf false, _ | _, Inf false => Inf false
  | Inf true, z | z, Inf true => z
  | Fin a, Fin b => Fin (Qmax' a b)
  end.

(** [Math.abs(latest.position - position)] for a finite [latest.position]. *)
Definition drift_size (target : Q) (p : num) : num :=
  match p with
  | Fin q => Fin (Qabs' (target - q))
  | Inf _ => Inf false
  | NaN => NaN
  end.

Definition drift_exceeds (drift : num) (limit : Q) : bool :=
  match drift with Fin d => Qlt_bool limit d | _ => true end.

Definition bendable (w : World) (s : Sync) (state : SyncState) : bool :=
  playing state && negb (temporarySpeed state) && bool_decide (getBendBase w s <> None).

(** [seekIfDriftIsLarge] once it has the position. *)
Definition seekIfDriftIsLarge_after (w : World) (reason : string) (p : num) (s : Sync) : Sync :=
  let latest := getState w in
  if disposed s || live latest || bool_decide (s_source s <> source latest)
     || bool_decide (s_player s <> player latest) || negb (canSeek s latest) then s
  else match position latest with
  | Fin target =>
      let drift := drift_size target p in
      let s := s <| maxAbsDrift ::= fun m => jsmax m drift |> in
      let limit := if bendable w s latest then HARD_SEEK_DRIFT else BEND_START in
      if drift_exceeds drift limit && hasSeekBuffer latest
      then seek w latest reason None s else s
  | _ => s
  end.

(** A player that reports its position at once is answered in the same piece; the error
    of one that does not answer reaches nobody. *)
Definition seekIfDriftIsLarge (w : World) (reason : string) (s : Sync) : Sync :=
  match getPosition w with
  | ReadNow p => seekIfDriftIsLarge_after w reason p s
  | ReadThrew => emit EUnhandled s
  | ReadLater => suspend (AfterLargePosition reason) s
  end.

(** ** Drift correction *)

(** Take a rate offset and its deadline for a drift of this size and direction. *)
Definition aim (from : Z) (magnitude sign : Q) (s : Sync) : Sync :=
  let ceiling := bendCeiling magnitude in
  s <| bendPeak := magnitude |>
    <| bendDeadlineAt := (inject_Z from + bendDeadlineMs magnitude ceiling)%Q |>
    <| bendOffset := Some (sign * ceiling)%Q |>.

Definition rate_of (base offset : Q) : Q := (base * (1 + offset))%Q.

(** The end of [tick], when the drift is to be bent away: start a bend, turn it, widen
    it, or retry a rate the player refused. *)
Definition steer (w : World) (base drift magnitude : Q) (request : nat) (s : Sync) : Sync :=
  let sign := Qsign drift in
  let ceiling := bendCeiling magnitude in
  let s := s <| bendBase := Some base |> in
  match bendStartedAt s with
  | None =>
      writeRate_await w (rate_of base (sign * ceiling)) request
        (aim (now w) magnitude sign (s <| bendStartedAt := Some (now w) |>))
  | Some startedAt =>
      let turned := match bendOffset s with
                    | Some o => negb (Qeq_bool (Qsign o) sign) | None => false end in
      if turned then
        writeRate_await w (rate_of base (sign * ceiling)) request (aim (now w) magnitude sign s)
      else if Qlt_bool (bendPeak s) magnitude then
        let next := (sign * ceiling)%Q in
        let moved := match bendOffset s with
                     | Some o => Qlt_bool RATE_WRITE_THRESHOLD (Qabs' (next - o))
                     | None => true end in
        let s' := s <| bendPeak := magnitude |>
          <| bendDeadlineAt := (inject_Z startedAt + bendDeadlineMs magnitude ceiling)%Q |> in
        if moved
        then writeRate_await w (rate_of base next) request (s' <| bendOffset := Some next |>)
        else finally request s'
      else match appliedRate s, bendOffset s with
           | None, Some o => writeRate_await w (rate_of base o) request s
           | _, _ => finally request s
           end
  end.

(** The drift a bend still (or newly) has to work on. *)
Definition bend_done (s : Sync) (magnitude : Q) : bool :=
  match bendStartedAt s with
  | Some _ => Qle_bool magnitude (BEND_STOP + (1 # 1000000000))
  | None => Qlt_bool magnitude BEND_START
  end.

Definition seek_limit (w : World) (s : Sync) (canBend : bool) : Q :=
  if canBend then
    if now w <? initialSyncUntil s then PLAYBACK_INITIAL_MAX_DRIFT_SECONDS else HARD_SEEK_DRIFT
  else 1.

(** [tick] once it has a finite position of an observable player. *)
Definition correct (w : World) (latest : SyncState) (drift : Q) (request : nat) (s : Sync) : Sync :=
  let magnitude := Qabs' drift in
  let s := s <| maxAbsDrift ::= fun m => jsmax m (Fin magnitude) |> in
  let canBend := bendable w s latest in
  if Qlt_bool (seek_limit w s canBend) magnitude && canSeekNow w s latest && hasSeekBuffer latest
  then seek w latest "drift-large" (Some request) s
  else match getBendBase w s with
  | Some base =>
      if negb canBend then finally request (cancelBend w s) else
      let s := match bendBase s with
               | Some b => if Qeq_bool b base then s else cancelBend w s
               | None => s
               end in
      if bend_done s magnitude then finally request (cancelBend w s) else
      let expired := match bendStartedAt s with
                     | Some _ => Qle_bool (bendDeadlineAt s) (inject_Z (now w))
                     | None => false end in
      if expired then
        let s := cancelBend w s in
        if canSeekNow w s latest && hasSeekBuffer latest
        then seek w latest "bend-deadline" (Some request) s
        else finally request s
      else steer w base drift magnitude request s
  | None => finally request (cancelBend w s)
  end.

(** [tick] back from [await options.getPosition()]; [None] is a rejected promise. *)
Definition tick_after (w : World) (request : nat) (currentGeneration : Z) (state : SyncState)
    (p : option num) (s : Sync) : Sync :=
  match p with
  | None => finally request (report currentGeneration s)
  | Some p =>
      let latest := getState w in
      if bool_decide (inFlight s <> Some request) || negb (currentGeneration =? generation s)
         || bool_decide (source state <> source latest)
         || bool_decide (player state <> player latest)
      then finally request s
      else match p, position latest with
      | Fin here, Fin target =>
          if canObserve s latest then correct w latest (target - here)%Q request s
          else finally request (cancelBend w s)
      | _, _ => finally request (cancelBend w s)
      end
  end.

(** [tick] up to its first await. *)
Definition adopt_source (w : World) (s : Sync) : Sync :=
  let state := getState w in
  if bool_decide (s_source s <> source state) || bool_decide (s_player s <> player state)
  then reset w (s <| s_source := source state |> <| s_player := player state |>) else s.

Definition observe (w : World) (s : Sync) : Sync :=
  let state := getState w in
  let s := s <| bufferedSinceLastSeek ::= fun b => b || buffering state |> in
  if negb (canObserve s state) || negb (playing state) || temporarySpeed state
  then cancelBend w s else s.

Definition follow_request (w : World) (s : Sync) : Sync :=
  let reason := pendingSeekReason s in
  let tolerateDrift := pendingSeekToleratesDrift s in
  let s := s <| pendingSeek := false |> <| pendingSeekToleratesDrift := false |> in
  if tolerateDrift then seekIfDriftIsLarge w reason s else seek w (getState w) reason None s.

Definition read_position (w : World) (s : Sync) : Sync :=
  let request := symbols s in
  let s := s <| symbols ::= S |> <| inFlight := Some request |> in
  match getPosition w with
  | ReadNow p => suspend (AfterPosition request (generation s) (getState w) (Some p)) s
  | ReadLater => suspend (AfterPosition request (generation s) (getState w) None) s
  | ReadThrew => finally request (report (generation s) s)
  end.

Definition tick (w : World) (s : Sync) : Sync :=
  if disposed s then s else
  let state := getState w in
  let s := adopt_source w s in
  if live state then cancelBend w s else
  let s := observe w s in
  if negb (canSeek s state) then s
  else if pendingSeek s then follow_request w s
  else if bool_decide (inFlight s <> None) || negb (canObserve s state) then s
  else read_position w s.

Definition requestSeek (w : World) (reason : string) (tolerateSmallDrift : bool) (s : Sync) : Sync :=
  tick w ((invalidateRate w
    (s <| pendingSeek := true |> <| pendingSeekToleratesDrift := tolerateSmallDrift |>
       <| pendingSeekReason := reason |>)) <| inFlight := None |>).

Definition dispose (w : World) (s : Sync) : Sync :=
  (cancelBend w s) <| disposed := true |> <| generation ::= Z.succ |> <| inFlight := None |>.

Definition getMetrics (s : Sync) : Z * Z * num := (rateWrites s, deadlineSeeks s, maxAbsDrift s).

(** ** Steps

    Resume a continuation.  A value that was there when the tick began to wait is the
    value it goes on with. *)
Definition resume (w : World) (k : continuation) (o : outcome) (s : Sync) : Sync :=
  match k with
  | AfterPosition request g state (Some p) => tick_after w request g state (Some p) s
  | AfterPosition request g state None =>
      tick_after w request g state (match o with Resolved p => Some p | Rejected => None end) s
  | AfterLargePosition reason =>
      match o with
      | Resolved p => seekIfDriftIsLarge_after w reason p s
      | Rejected => emit EUnhandled s
      end
  | AfterSeek g request =>
      resume_tick request (match o with Resolved _ => s | Rejected => report g s end)
  | AfterRate g request =>
      resume_tick request (match o with Resolved _ => s | Rejected => rate_failed g s end)
  | Finally request => finally request s
  end.

Inductive call :=
| Tick
| RequestSeek (reason : string) (tolerateSmallDrift : bool)
| Reset
| InvalidateRate
| ResetMetrics
| Dispose
| Resume (i : nat) (o : outcome).

Definition run (w : World) (c : call) (s : Sync) : Sync :=
  match c with
  | Tick => tick w s
  | RequestSeek reason t => requestSeek w reason t s
  | Reset => reset w s
  | InvalidateRate => invalidateRate w s
  | ResetMetrics => resetMetrics s
  | Dispose => dispose w s
  | Resume i o =>
      match pending s !! i with
      | Some k => resume w k o (s <| pending ::= delete i |>)
      | None => s
      end
  end.

(** The states an engine gets to: any calls and any settling of its promises, in any
    order, as time goes on. *)
Inductive reachable : Z -> Sync -> Prop :=
| reach_new t setter : reachable t (createPlaybackSync setter)
| reach_run t w c s : reachable t s -> t <= now w -> reachable (now w) (run w c s).

End PlaybackSync.
