(* ===== verification/PlaybackSyncFacts.v ===== *)
(** * PlaybackSyncFacts: the invariant of the client's synchronisation engine

    A rate write and the end of a bend leave aside everything that decides whether a read
    of the position is under way ([aside]); on top of that, the two halves of the
    invariant, [flight] (a read in flight is always waited for) and [bend_inv] (a bend's
    fields go together and its rate is the last one the player was told), are preserved
    by every step. *)

From S2P Require Import Prelude Async PlaybackSync.

Import PlaybackSync.

(** ** Arithmetic of rates *)

Lemma Qle_bool_false (x y : Q) : Qle_bool x y = false <-> (y < x)%Q.
Proof.
  rewrite <- not_true_iff_false, Qle_bool_iff. split; [apply Qnot_le_lt|apply Qlt_not_le].
Qed.

Ltac qbool_step x y :=
  let H := fresh "Hq" in
  destruct (Qle_bool x y) eqn:H; [apply Qle_bool_iff in H|apply Qle_bool_false in H].
Ltac qbool :=
  repeat match goal with
  | H : context [Qle_bool ?x ?y] |- _ => qbool_step x y
  | |- context [Qle_bool ?x ?y] => qbool_step x y
  end.

Lemma Qabs'_le (x y : Q) : (Qabs' x <= y <-> - y <= x /\ x <= y)%Q.
Proof. unfold Qabs'. qbool; split; intros; try split; lra. Qed.

Lemma bendCeiling_bounds m : (MAX_BEND <= bendCeiling m <= CATCHUP_MAX_BEND)%Q.
Proof.
  unfold bendCeiling, Qmin', MAX_BEND, CATCHUP_MAX_BEND, CATCHUP_FULL, HARD_SEEK_DRIFT in *.
  unfold Qdiv. change (/ (3 - 1))%Q with (1 # 2)%Q. qbool; split; lra.
Qed.

Lemma bendDeadlineMs_bounds m c :
  (BEND_DEADLINE_MS <= bendDeadlineMs m c <= MAX_BEND_DEADLINE_MS)%Q.
Proof.
  unfold bendDeadlineMs, Qmin', Qmax', BEND_DEADLINE_MS, MAX_BEND_DEADLINE_MS.
  generalize (m / c * 1000 * (5 # 4))%Q. intros q. qbool; split; lra.
Qed.

Lemma close_rates_refl r : close_rates r r = true.
Proof. unfold close_rates, RATE_WRITE_THRESHOLD. apply Qle_bool_iff, Qabs'_le. split; lra. Qed.

(** ** The trace *)

Fixpoint last_rate (es : list effect) : option Q :=
  match es with
  | [] => None
  | e :: es' =>
      match last_rate es' with
      | Some r => Some r
      | None => match e with ESetRate r => Some r | _ => None end
      end
  end.

Definition is_seek (e : effect) : bool := match e with ESetPosition _ => true | _ => false end.

Lemma last_rate_app es es' :
  last_rate (es ++ es') = match last_rate es' with Some r => Some r | None => last_rate es end.
Proof. induction es as [|e es IH]; simpl; [by destruct (last_rate es')|]. rewrite IH. by destruct (last_rate es'). Qed.

(** ** What leaves the reading of positions alone *)

Definition request_of (k : continuation) : option nat :=
  match k with
  | AfterPosition r _ _ _ | Finally r => Some r
  | AfterSeek _ r | AfterRate _ r => r
  | AfterLargePosition _ => None
  end.

Definition is_read (k : continuation) : bool :=
  match k with AfterPosition _ _ _ _ => true | _ => false end.

(** What the reading of positions and the gates depend on. *)
Definition core (s : Sync) :=
  (s_source s, s_player s, generation s, lastSeekAt s, bufferedSinceLastSeek s,
   (initialSyncUntil s, pendingSeek s, pendingSeekToleratesDrift s, pendingSeekReason s),
   (inFlight s, disposed s, has_setLocalRate s, symbols s)).

Record aside (s s' : Sync) : Prop := {
  a_core : core s' = core s;
  a_pending : exists ks, pending s' = pending s ++ ks
    /\ Forall (fun k => request_of k = None /\ is_read k = false) ks;
  a_trace : exists es, trace s' = trace s ++ es /\ Forall (fun e => is_seek e = false) es;
}.

#[export] Instance aside_preorder : PreOrder aside.
Proof.
  split.
  - intros s. split; [done|exists []; by rewrite app_nil_r|exists []; by rewrite app_nil_r].
  - intros s1 s2 s3 [Hc1 (k1 & Hp1 & Hk1) (e1 & He1 & Ht1)] [Hc2 (k2 & Hp2 & Hk2) (e2 & He2 & Ht2)].
    split; [congruence|exists (k1 ++ k2)|exists (e1 ++ e2)].
    + rewrite Hp2, Hp1, app_assoc. by split; [|apply Forall_app].
    + rewrite He2, He1, app_assoc. by split; [|apply Forall_app].
Qed.

(** Close [aside s s'] when [s'] is [s] with some of the other fields set. *)
Ltac aside_same :=
  split; [reflexivity|exists []; by rewrite app_nil_r|exists []; by rewrite app_nil_r].

Lemma aside_emit e s : is_seek e = false -> aside s (emit e s).
Proof. intros He. split; [done|exists []; by rewrite app_nil_r|exists [e]; by repeat constructor]. Qed.

Lemma aside_suspend k s : request_of k = None -> is_read k = false -> aside s (suspend k s).
Proof. intros. split; [done|exists [k]; by repeat constructor|exists []; by rewrite app_nil_r]. Qed.

Lemma aside_rate_failed g s : aside s (rate_failed g s).
Proof.
  unfold rate_failed. case_match; [|done].
  transitivity (s <| appliedRate := None |>); [aside_same|by apply aside_emit].
Qed.

Lemma aside_send_rate w r s : aside s (send_rate w r s).1.
Proof.
  unfold send_rate. cbv zeta.
  set (s1 := s <| appliedRate := Some r |> <| rateWrites ::= Z.succ |>).
  assert (H1 : aside s s1) by aside_same. clearbody s1.
  assert (H2 : aside s (emit (ESetRate r) s1)) by (etransitivity; [exact H1|by apply aside_emit]).
  repeat case_match; simpl; try done. etransitivity; [exact H2|apply aside_rate_failed].
Qed.

Lemma aside_writeRate w r s : aside s (writeRate w r s).1.
Proof. unfold writeRate. repeat case_match; simpl; try done; apply aside_send_rate. Qed.

Lemma aside_writeRate_void w r s : aside s (writeRate_void w r s).
Proof.
  unfold writeRate_void. pose proof (aside_writeRate w r s) as H.
  destruct (writeRate w r s) as [s1 []]; [|done]. etransitivity; [exact H|by apply aside_suspend].
Qed.

Lemma aside_cancelBend w s : aside s (cancelBend w s).
Proof.
  unfold cancelBend.
  assert (Hf : forall s', aside s' (forget_bend s')) by (intros; aside_same).
  repeat case_match; try apply Hf.
  etransitivity; [apply aside_writeRate_void|apply Hf].
Qed.

Lemma aside_setter s s' : aside s s' -> has_setLocalRate s' = has_setLocalRate s.
Proof. by intros [[=] _ _]. Qed.

Lemma aside_disposed s s' : aside s s' -> disposed s' = disposed s.
Proof. by intros [[=] _ _]. Qed.

Lemma aside_pendingSeek s s' : aside s s' -> pendingSeek s' = pendingSeek s.
Proof. by intros [[=] _ _]. Qed.

Lemma cancelBend_ends w s : bendStartedAt (cancelBend w s) = None.
Proof. done. Qed.

(** ** A read in flight is waited for

    So no tick is ever turned away for a read nobody will finish. *)

#[export] Instance sync_waiting : Waiting Sync continuation := {|
  w_inFlight := inFlight;
  w_pending := pending;
  w_symbols := symbols;
  w_generation := generation;
  w_request := request_of;
  w_stamp k := match k with AfterPosition _ g _ _ => Some g | _ => None end;
|}.

Lemma flight_aside q s s' : aside s s' -> flight_owed q s -> flight_owed q s'.
Proof.
  intros [Hc (ks & Hp & Hks) _]. injection Hc as _ _ Hgen _ _ _ _ _ _ Hin _ _ Hsy.
  apply (flight_detached q s s' ks); try done. by eapply Forall_impl; [exact Hks|intros k [? _]].
Qed.

Lemma flight_clear q s : flight_owed q s -> flight (s <| inFlight := None |>).
Proof. by apply flight_none. Qed.

Lemma flight_finally r s : flight_owed (Some r) s -> flight (finally r s).
Proof. unfold finally. apply flight_end; cbn; by case_bool_decide. Qed.

Lemma flight_suspend r k s :
  request_of k = Some r -> is_read k = false -> flight_owed (Some r) s -> flight (suspend k s).
Proof. intros Hk Hr. apply (flight_wait r k); try done. by destruct k. Qed.

Lemma flight_resume_tick q s : flight_owed q s -> flight (resume_tick q s).
Proof. destruct q as [r|]; simpl; [by apply flight_suspend|done]. Qed.

Lemma aside_report g s : aside s (report g s).
Proof. unfold report. case_match; [by apply aside_emit|done]. Qed.

Lemma flight_seek w st reason q s : flight_owed q s -> flight (seek w st reason q s).
Proof.
  intros Hs. unfold seek. cbv zeta.
  set (s1 := if bool_decide _ then _ else s).
  assert (H1 : flight_owed q s1) by (subst s1; case_match; [by apply (flight_same q s)|done]).
  apply (flight_aside q _ _ (aside_cancelBend w s1)) in H1. clearbody s1.
  set (s2 := emit _ _). assert (H2 : flight_owed q s2) by exact (flight_same q (cancelBend w s1) s2 eq_refl H1).
  clearbody s2. clear H1.
  assert (H3 : forall g, flight (suspend (AfterSeek g q) s2)).
  { intros g. destruct q as [r|]; [by apply (flight_suspend r)|].
    by apply (flight_aside None s2); [apply aside_suspend|]. }
  case_match; try apply H3.
  apply flight_resume_tick. by apply (flight_aside q s2); [apply aside_report|].
Qed.

Lemma flight_writeRate_await w rate r s :
  flight_owed (Some r) s -> flight (writeRate_await w rate r s).
Proof.
  intros Hs. unfold writeRate_await. pose proof (aside_writeRate w rate s) as Ha.
  destruct (writeRate w rate s) as [s1 b]. apply (flight_aside _ _ _ Ha) in Hs.
  destruct b; by apply (flight_suspend r).
Qed.

Lemma flight_cancelBend q w s : flight_owed q s -> flight_owed q (cancelBend w s).
Proof. apply flight_aside, aside_cancelBend. Qed.

Lemma flight_steer w base drift m r s :
  flight_owed (Some r) s -> flight (steer w base drift m r s).
Proof.
  intros Hs. unfold steer. cbv zeta.
  set (s1 := s <| bendBase := Some base |>).
  assert (H1 : flight_owed (Some r) s1) by exact (flight_same _ s s1 eq_refl Hs).
  clearbody s1. clear Hs.
  repeat case_match;
    first [apply flight_writeRate_await|apply flight_finally];
    first [exact H1|apply (flight_same _ s1); [reflexivity|exact H1]].
Qed.

Lemma flight_correct w latest drift r s :
  flight_owed (Some r) s -> flight (correct w latest drift r s).
Proof.
  intros Hs. unfold correct. cbv zeta.
  set (s1 := s <| maxAbsDrift ::= _ |>).
  assert (H1 : flight_owed (Some r) s1) by exact (flight_same _ s s1 eq_refl Hs).
  clearbody s1. clear Hs.
  case_match; [by apply flight_seek|].
  destruct (getBendBase w s1) as [base|]; [|by apply flight_finally, flight_cancelBend].
  case_match; [by apply flight_finally, flight_cancelBend|].
  set (s2 := match bendBase s1 with Some _ => _ | None => _ end).
  assert (H2 : flight_owed (Some r) s2)
    by (subst s2; repeat case_match; try done; by apply flight_cancelBend).
  clearbody s2. clear H1.
  case_match; [by apply flight_finally, flight_cancelBend|].
  repeat case_match; try done; first
    [by apply flight_steer|by apply flight_seek, flight_cancelBend
    |by apply flight_finally, flight_cancelBend].
Qed.

Lemma flight_tick_after w r g st p s :
  flight_owed (Some r) s -> flight (tick_after w r g st p s).
Proof.
  intros Hs. unfold tick_after. cbv zeta.
  assert (Hc : flight (finally r (cancelBend w s))) by by apply flight_finally, flight_cancelBend.
  repeat case_match; try exact Hc; try by apply flight_finally.
  - by apply flight_correct.
  - apply flight_finally. by apply (flight_aside _ s); [apply aside_report|].
Qed.

Lemma flight_invalidate w s : flight s -> flight (invalidateRate w s).
Proof. intros Hs. apply flight_cancelBend. by apply (flight_none None s). Qed.

Lemma sync_flight_reset w s : flight s -> flight (reset w s).
Proof. intros Hs%(flight_invalidate w). by apply (flight_none None (invalidateRate w s)). Qed.

Lemma flight_adopt w s : flight s -> flight (adopt_source w s).
Proof.
  intros Hs. unfold adopt_source. cbv zeta. case_match; [|done].
  apply sync_flight_reset. by apply (flight_same None s).
Qed.

Lemma flight_observe w s : flight s -> flight (observe w s).
Proof.
  intros Hs. unfold observe. cbv zeta. set (s1 := s <| bufferedSinceLastSeek ::= _ |>).
  assert (H1 : flight s1) by exact (flight_same None s s1 eq_refl Hs).
  case_match; [by apply flight_cancelBend|done].
Qed.

Lemma flight_large w reason p s : flight s -> flight (seekIfDriftIsLarge_after w reason p s).
Proof.
  intros Hs. unfold seekIfDriftIsLarge_after. cbv zeta.
  repeat case_match; try done; try apply flight_seek; by apply (flight_same None s).
Qed.

Lemma flight_follow w s : flight s -> flight (follow_request w s).
Proof.
  intros Hs. unfold follow_request. cbv zeta.
  set (s1 := s <| pendingSeek := false |> <| pendingSeekToleratesDrift := false |>).
  assert (H1 : flight s1) by exact (flight_same None s s1 eq_refl Hs). clearbody s1.
  case_match; [|by apply flight_seek].
  unfold seekIfDriftIsLarge. case_match; [by apply flight_large| |].
  - by apply (flight_aside None s1); [apply aside_emit|].
  - by apply (flight_aside None s1); [apply aside_suspend|].
Qed.

(** The one place where a read begins: with none in flight. *)
Lemma flight_read w s : flight s -> flight (read_position w s).
Proof.
  intros Hs. unfold read_position. cbv zeta.
  set (s1 := s <| symbols ::= S |> <| inFlight := Some (symbols s) |>).
  assert (H1 : flight_owed (Some (symbols s)) s1) by exact (flight_begin s s1 eq_refl eq_refl eq_refl Hs).
  clearbody s1.
  assert (H2 : forall kn, flight (suspend (AfterPosition (symbols s) (generation s1) (getState w) kn) s1)).
  { intros kn. set (k := AfterPosition _ _ _ kn).
    apply (flight_wait (symbols s) k s1); [reflexivity..| |exact H1]. by intros g [= <-]. }
  case_match; try apply H2.
  apply flight_finally. by apply (flight_aside _ s1); [apply aside_report|].
Qed.

Lemma flight_tick w s : flight s -> flight (tick w s).
Proof.
  intros Hs. unfold tick. cbv zeta. case_match; [done|].
  pose proof (flight_adopt w s Hs) as H1. case_match; [by apply flight_cancelBend|].
  pose proof (flight_observe w _ H1) as H2. generalize dependent (observe w (adopt_source w s)).
  intros s2 H2. case_match; [done|]. case_match; [by apply flight_follow|].
  case_match; [done|]. by apply flight_read.
Qed.

Lemma flight_resume w k o s : flight_owed (request_of k) s -> flight (resume w k o s).
Proof.
  destruct k as [r g st [p|]|reason|g q|g q|r]; cbn [request_of resume]; intros Hs.
  - by apply flight_tick_after.
  - by apply flight_tick_after.
  - destruct o; [by apply flight_large|]. by apply (flight_aside None s); [apply aside_emit|].
  - apply flight_resume_tick. destruct o; [done|]. by apply (flight_aside q s); [apply aside_report|].
  - apply flight_resume_tick. destruct o; [done|].
    by apply (flight_aside q s); [apply aside_rate_failed|].
  - by apply flight_finally.
Qed.

Lemma flight_run w c s : flight s -> flight (run w c s).
Proof.
  intros Hs. destruct c as [| | | | | |i o]; cbn [run].
  - by apply flight_tick.
  - apply flight_tick, (flight_clear None), flight_invalidate. by apply (flight_same None s).
  - by apply sync_flight_reset.
  - by apply flight_invalidate.
  - by apply (flight_same None s).
  - unfold dispose. apply (flight_cancelBend None w) in Hs.
    generalize dependent (cancelBend w s). intros s1 H1. by apply (flight_none None s1).
  - destruct (pending s !! i) as [k|] eqn:Hi; [|done].
    apply flight_resume. set (s1 := s <| pending ::= delete i |>).
    exact (flight_take i k s s1 eq_refl eq_refl eq_refl eq_refl Hi Hs).
Qed.

Lemma flight_new b : flight (createPlaybackSync b).
Proof.
  by split; simpl; try constructor; intros; match goal with H : _ ∈ [] |- _ => apply not_elem_of_nil in H | _ => idtac end.
Qed.

(** ** A bend's fields go together *)

Lemma close_rates_iff r a :
  close_rates r a = true <-> (- RATE_WRITE_THRESHOLD <= r - a /\ r - a <= RATE_WRITE_THRESHOLD)%Q.
Proof. unfold close_rates. by rewrite Qle_bool_iff, Qabs'_le. Qed.

Definition offset_ok (o : Q) : Prop := (MAX_BEND <= Qabs' o <= CATCHUP_MAX_BEND)%Q.

(** The rate last written is the one the player was last told. *)
Definition told (s : Sync) : Prop := forall a, appliedRate s = Some a -> last_rate (trace s) = Some a.

Record bending (t : Z) (s : Sync) : Prop := {
  bg_live : disposed s = false;
  bg_setter : has_setLocalRate s = true;
  bg_since : forall t0, bendStartedAt s = Some t0 -> t0 <= t;
  bg_deadline : (bendDeadlineAt s <= inject_Z t + MAX_BEND_DEADLINE_MS)%Q;
  bg_told : told s;
  bg_rate : exists b o r, bendBase s = Some b /\ (0 < b)%Q /\ bendOffset s = Some o /\ offset_ok o
    /\ last_rate (trace s) = Some r /\ close_rates (rate_of b o) r = true;
}.

Definition idle (s : Sync) : Prop :=
  bendStartedAt s = None /\ bendBase s = None /\ bendOffset s = None /\ appliedRate s = None.

Definition bend_inv (t : Z) (s : Sync) : Prop :=
  match bendStartedAt s with None => idle s | Some _ => bending t s end.

Definition bend_view (s : Sync) :=
  (bendStartedAt s, bendBase s, bendOffset s, appliedRate s, bendDeadlineAt s, disposed s,
   has_setLocalRate s, last_rate (trace s)).

Lemma bending_same t s s' : bend_view s' = bend_view s -> bending t s -> bending t s'.
Proof.
  unfold bend_view. intros [= H1 H2 H3 H4 H5 H6 H7 H8] [?????].
  split; unfold told in *; rewrite ?H1, ?H2, ?H3, ?H4, ?H5, ?H6, ?H7, ?H8; assumption.
Qed.

Lemma bend_same t s s' : bend_view s' = bend_view s -> bend_inv t s -> bend_inv t s'.
Proof.
  intros Hv. pose proof (bending_same t s s' Hv) as Hb. unfold bend_view in Hv.
  injection Hv as H1 H2 H3 H4 H5 H6 H7 H8. unfold bend_inv, idle.
  rewrite H1, H2, H3, H4. by destruct (bendStartedAt s).
Qed.

Lemma bend_idle t s : idle s -> bend_inv t s.
Proof. unfold bend_inv. intros Hs. pose proof Hs as (-> & _). done. Qed.

Lemma inject_Z_le x y : x <= y -> (inject_Z x <= inject_Z y)%Q.
Proof. by rewrite <- Zle_Qle. Qed.

Lemma bend_later t t' s : t <= t' -> bend_inv t s -> bend_inv t' s.
Proof.
  unfold bend_inv. intros Ht. destruct (bendStartedAt s) as [t0|] eqn:Hb; [|done].
  intros [?? Hs Hd ??]. split; try done.
  - intros t1 H1. specialize (Hs _ H1). lia.
  - pose proof (inject_Z_le _ _ Ht). lra.
Qed.

Lemma idle_same s s' : bend_view s' = bend_view s -> idle s -> idle s'.
Proof. intros [= H1 H2 H3 H4 _ _ _ _]. unfold idle. by rewrite H1, H2, H3, H4. Qed.

Lemma idle_cancelBend w s : idle (cancelBend w s).
Proof. by repeat split. Qed.

Lemma idle_emit e s : idle s -> idle (emit e s).
Proof. done. Qed.

Lemma bend_emit t e s : (forall r, e <> ESetRate r) -> bend_inv t s -> bend_inv t (emit e s).
Proof.
  intros He. apply bend_same. unfold bend_view. simpl. rewrite last_rate_app.
  by destruct e; try destruct (He rate).
Qed.

Lemma bend_report t g s : bend_inv t s -> bend_inv t (report g s).
Proof. intros. unfold report. case_match; [by apply bend_emit|done]. Qed.

Lemma bend_rate_failed t g s : bend_inv t s -> bend_inv t (rate_failed g s).
Proof.
  intros Hs. unfold rate_failed. case_match; [|done]. apply bend_emit; [done|].
  unfold bend_inv in *. change (bendStartedAt (s <| appliedRate := None |>)) with (bendStartedAt s).
  destruct (bendStartedAt s); [|by destruct Hs as (?&?&?&_)].
  by destruct Hs as [??????].
Qed.

(** ** Writing a rate *)

(** What does not change when a rate is written. *)
Definition bend_goal (s : Sync) :=
  (bendStartedAt s, bendBase s, bendOffset s, bendDeadlineAt s, disposed s, has_setLocalRate s).

Lemma send_rate_spec w r s :
  has_setLocalRate s = true ->
  let s' := (send_rate w r s).1 in
  bend_goal s' = bend_goal s /\ last_rate (trace s') = Some r
  /\ forall a, appliedRate s' = Some a -> a = r.
Proof.
  intros Hset. unfold send_rate. cbv zeta.
  set (s1 := s <| appliedRate := Some r |> <| rateWrites ::= Z.succ |>).
  assert (Hs1 : has_setLocalRate s1 = true) by exact Hset. rewrite Hs1. cbn [negb].
  destruct (setLocalRate w r); cbn [fst].
  - split; [done|]. split; [cbn; by rewrite last_rate_app|by intros a [= ->]].
  - unfold rate_failed. case_match; (split; [done|]).
    + split; [cbn; by rewrite !last_rate_app|done].
    + split; [cbn; by rewrite last_rate_app|by intros a [= ->]].
  - split; [done|]. split; [cbn; by rewrite last_rate_app|by intros a [= ->]].
Qed.

(** After a write the player's last rate is the one asked for, up to the threshold. *)
Lemma writeRate_spec w r s :
  has_setLocalRate s = true -> told s ->
  let s' := (writeRate w r s).1 in
  bend_goal s' = bend_goal s
  /\ (exists a, last_rate (trace s') = Some a /\ close_rates r a = true)
  /\ forall a, appliedRate s' = Some a -> last_rate (trace s') = Some a /\ close_rates r a = true.
Proof.
  intros Hset Htold. unfold writeRate.
  pose proof (send_rate_spec w r s Hset) as (Hg & Hl & Ha). cbv zeta in *.
  assert (Hsend : bend_goal (send_rate w r s).1 = bend_goal s
    /\ (exists a, last_rate (trace (send_rate w r s).1) = Some a /\ close_rates r a = true)
    /\ forall a, appliedRate (send_rate w r s).1 = Some a ->
         last_rate (trace (send_rate w r s).1) = Some a /\ close_rates r a = true).
  { split; [done|]. split; [exists r; split; [done|apply close_rates_refl]|].
    intros a ->%Ha. split; [done|apply close_rates_refl]. }
  destruct (appliedRate s) as [a|] eqn:Happ; [|done].
  destruct (close_rates r a) eqn:Hc; [|done]. cbn [fst]. split; [done|].
  split; [by exists a; auto|]. intros a' Ha'. rewrite Happ in Ha'. injection Ha' as <-. by auto.
Qed.

(** ** Every piece of the engine keeps the bend consistent

    Together with [bend_inv], what a bend gives back when it ends: [track] is the rate the
    player has to be at once no bend is on ([None] when there was none to begin with). *)

Section OnTrack.
Context (w : World) (track : option Q).

Definition on_track (s : Sync) : Prop :=
  forall base, track = Some base ->
    (forall c, getBendBase w s = Some c -> c = base)
    /\ ((bendStartedAt s <> None /\ cancel_base w s = Some base)
        \/ (bendStartedAt s = None
            /\ exists r, last_rate (trace s) = Some r /\ close_rates base r = true)).

Definition sound (s : Sync) : Prop := bend_inv (now w) s /\ on_track s.

Lemma cancel_base_same s s' :
  has_setLocalRate s' = has_setLocalRate s -> bendBase s' = bendBase s ->
  cancel_base w s' = cancel_base w s.
Proof. unfold cancel_base, getBendBase. by intros -> ->. Qed.

Lemma getBendBase_same s s' :
  has_setLocalRate s' = has_setLocalRate s -> getBendBase w s' = getBendBase w s.
Proof. unfold getBendBase. by intros ->. Qed.

Lemma sound_same s s' : bend_view s' = bend_view s -> sound s -> sound s'.
Proof.
  intros Hv [Hb Ht]. split; [by apply (bend_same _ s)|]. unfold bend_view in Hv.
  injection Hv as H1 H2 H3 H4 H5 H6 H7 H8. intros base Hbase. rewrite H1, H8.
  rewrite (cancel_base_same s s' H7 H2), (getBendBase_same s s' H7). by apply Ht.
Qed.

Lemma sound_emit e s : (forall r, e <> ESetRate r) -> sound s -> sound (emit e s).
Proof.
  intros He. apply sound_same. unfold bend_view. simpl. rewrite last_rate_app.
  by destruct e; try destruct (He rate).
Qed.

Lemma sound_report g s : sound s -> sound (report g s).
Proof. intros. unfold report. case_match; [by apply sound_emit|done]. Qed.

Lemma sound_rate_failed g s : sound s -> sound (rate_failed g s).
Proof.
  intros [Hb Ht]. split; [by apply bend_rate_failed|]. unfold rate_failed. case_match; [|done].
  intros base Hbase. specialize (Ht base Hbase). unfold on_track, emit. simpl.
  by rewrite last_rate_app.
Qed.

Lemma sound_suspend k s : sound s -> sound (suspend k s).
Proof. by apply sound_same. Qed.

Lemma sound_finally r s : sound s -> sound (finally r s).
Proof. intros. unfold finally. case_match; [by apply (sound_same s)|done]. Qed.

Lemma sound_resume_tick q s : sound s -> sound (resume_tick q s).
Proof. destruct q; [apply sound_suspend|done]. Qed.

Lemma last_rate_forget s : last_rate (trace (forget_bend s)) = last_rate (trace s).
Proof. done. Qed.

Lemma writeRate_void_rate w' r s :
  bend_goal (writeRate_void w' r s) = bend_goal (writeRate w' r s).1
  /\ last_rate (trace (writeRate_void w' r s)) = last_rate (trace (writeRate w' r s).1).
Proof. unfold writeRate_void. by destruct (writeRate w' r s) as [s1 []]. Qed.

Lemma sound_cancelBend s : sound s -> sound (cancelBend w s).
Proof.
  intros [Hb Ht]. split; [apply bend_idle, idle_cancelBend|]. intros base Hbase.
  destruct (Ht base Hbase) as [Hget Hor]. split.
  { by rewrite (getBendBase_same _ _ (aside_setter _ _ (aside_cancelBend w s))). }
  right. split; [done|]. unfold cancelBend. rewrite last_rate_forget.
  destruct Hor as [[Hon Hcb]|[Hoff Hr]].
  - unfold bend_inv in Hb. destruct (bendStartedAt s); [|done]. rewrite Hcb.
    destruct (writeRate_void_rate w base s) as [_ ->].
    by apply writeRate_spec; [apply Hb|apply Hb].
  - by rewrite Hoff.
Qed.

Lemma sound_seek st reason q s : sound s -> sound (seek w st reason q s).
Proof.
  intros Hs. unfold seek. cbv zeta.
  set (s1 := if bool_decide _ then _ else s).
  assert (H1 : sound s1) by (subst s1; case_match; [by apply (sound_same s)|done]).
  apply sound_cancelBend in H1. clearbody s1. generalize dependent (cancelBend w s1). intros s2 H2.
  assert (H3 : sound (emit (ESetPosition (position st))
     (s2 <| lastSeekAt := Some (now w) |> <| bufferedSinceLastSeek := buffering st |>))).
  { apply sound_emit; [done|]. by apply (sound_same s2). }
  case_match; try by apply sound_suspend. by apply sound_resume_tick, sound_report.
Qed.

(** Writing the rate of a bend whose other fields are in place. *)
Lemma sound_writeRate_await base o r s :
  disposed s = false -> has_setLocalRate s = true -> told s ->
  (exists t0, bendStartedAt s = Some t0 /\ t0 <= now w) ->
  (bendDeadlineAt s <= inject_Z (now w) + MAX_BEND_DEADLINE_MS)%Q ->
  bendBase s = Some base -> (0 < base)%Q -> bendOffset s = Some o -> offset_ok o ->
  getBendBase w s = Some base -> (forall b, track = Some b -> base = b) ->
  sound (writeRate_await w (rate_of base o) r s).
Proof.
  intros Hd Hset Htold (t0 & Hst & Ht0) Hdl Hbase Hpos Hoff Hok Hget Htrack.
  destruct (writeRate_spec w (rate_of base o) s Hset Htold) as (Hg & (a0 & Hl & Hc) & Ha).
  set (s1 := (writeRate w (rate_of base o) s).1) in *.
  assert (Hs1 : sound s1).
  { injection Hg as G1 G2 G3 G4 G5 G6. split.
    - unfold bend_inv. rewrite G1, Hst. split; rewrite ?G1, ?G2, ?G3, ?G4, ?G5, ?G6; try done.
      + intros ? Heq. rewrite Hst in Heq. by injection Heq as <-.
      + intros a Heq. by apply Ha.
      + by exists base, o, a0.
    - intros b Hb. rewrite G1, Hst, (cancel_base_same s s1 G6 G2), (getBendBase_same s s1 G6).
      unfold cancel_base. rewrite Hget, (Htrack b Hb). split; [congruence|by left]. }
  unfold writeRate_await. subst s1. destruct (writeRate w (rate_of base o) s) as [s1 []]; by apply sound_suspend.
Qed.

Lemma getBendBase_spec s base :
  getBendBase w s = Some base -> has_setLocalRate s = true /\ (0 < base)%Q.
Proof.
  unfold getBendBase. destruct (negb _); [done|].
  destruct (option_getBendBase w) as [[q| |]|]; try done. destruct (_ && _) eqn:Hb; [|done].
  apply andb_true_iff in Hb as [? Hq]. apply Qlt_bool_iff in Hq. by intros [= <-].
Qed.

Lemma aim_offset drift m : (0 < Qabs' drift)%Q -> offset_ok (Qsign drift * bendCeiling m).
Proof.
  pose proof (bendCeiling_bounds m) as Hc. revert Hc. generalize (bendCeiling m). intros c [Hl Hh].
  unfold offset_ok, Qabs', Qsign, Qlt_bool, MAX_BEND, CATCHUP_MAX_BEND in *.
  intros Hd. qbool; simpl in *; qbool; try lra; split; lra.
Qed.

Lemma close_rates_eq b b' o a :
  (b == b')%Q -> close_rates (rate_of b o) a = true -> close_rates (rate_of b' o) a = true.
Proof. rewrite !close_rates_iff. unfold rate_of. intros Hb. by rewrite Hb. Qed.

(** A bend under way, with the base the player has now. *)
Lemma sound_bending base s :
  bendStartedAt s <> None -> bending (now w) s -> getBendBase w s = Some base ->
  (forall b, track = Some b -> base = b) -> sound s.
Proof.
  intros Hst Hb Hget Htrack. split; [by unfold bend_inv; destruct (bendStartedAt s)|].
  intros b Hbt. unfold cancel_base. rewrite Hget, (Htrack b Hbt). split; [congruence|by left].
Qed.

Lemma deadline_bound t0 m c :
  t0 <= now w ->
  (inject_Z t0 + bendDeadlineMs m c <= inject_Z (now w) + MAX_BEND_DEADLINE_MS)%Q.
Proof. intros Ht%inject_Z_le. pose proof (bendDeadlineMs_bounds m c) as [_ ?]. lra. Qed.

Lemma sound_steer base drift m r s :
  sound s -> disposed s = false -> getBendBase w s = Some base -> (0 < Qabs' drift)%Q ->
  (forall b, bendBase s = Some b -> (b == base)%Q) ->
  sound (steer w base drift m r s).
Proof.
  intros [Hb Ht] Hlive Hget Hd Heq. pose proof (getBendBase_spec _ _ Hget) as [Hset Hpos].
  assert (Htrack : forall b, track = Some b -> base = b) by (intros b Hbt; by apply (Ht b Hbt)).
  pose proof (aim_offset drift m Hd) as Hok.
  pose proof (fun t0 => deadline_bound t0 m (bendCeiling m)) as Hdl.
  unfold steer. cbv zeta. change (bendStartedAt (s <| bendBase := Some base |>)) with (bendStartedAt s).
  unfold bend_inv in Hb. destruct (bendStartedAt s) as [t0|] eqn:Hst.
  - destruct Hb as [_ _ Hs Hdeadline Htold (b & o & a0 & Hbb & Hbpos & Hbo & Hook & Hlast & Hclose)].
    pose proof (Hs t0 Hst) as Ht0. specialize (Heq b Hbb).
    assert (Hon : bendStartedAt s <> None) by by rewrite Hst.
    apply (close_rates_eq b base) in Hclose; [|exact Heq].
    change (bendOffset (s <| bendBase := Some base |>)) with (bendOffset s). rewrite Hbo.
    case_match; [apply sound_writeRate_await; try done; [by exists t0|by apply Hdl]|].
    case_match; [case_match; [apply sound_writeRate_await; try done; [by exists t0|by apply Hdl]|]|].
    + apply sound_finally. eapply sound_bending; [exact Hon| |exact Hget|exact Htrack].
      split; try done; [by apply Hdl|by exists base, o, a0].
    + case_match; [|apply sound_writeRate_await; try done; by exists t0].
      apply sound_finally. eapply sound_bending; [exact Hon| |exact Hget|exact Htrack].
      split; try done. by exists base, o, a0.
  - destruct Hb as (_ & _ & _ & Happ).
    apply sound_writeRate_await; try done; [|by exists (now w)|by apply Hdl].
    intros a Ha. change (appliedRate s = Some a) in Ha. by rewrite Happ in Ha.
Qed.

Lemma bend_not_done s m : bend_done s m = false -> (0 < m)%Q.
Proof.
  unfold bend_done, BEND_STOP, BEND_START, Qlt_bool.
  case_match; rewrite ?negb_false_iff; intros Hm; qbool; simplify_eq; lra.
Qed.

Lemma sound_correct latest drift r s :
  sound s -> disposed s = false -> sound (correct w latest drift r s).
Proof.
  intros Hs Hlive. unfold correct. cbv zeta.
  set (s1 := s <| maxAbsDrift ::= _ |>).
  assert (H1 : sound s1) by by apply (sound_same s).
  assert (Hl1 : disposed s1 = false) by done. clearbody s1. clear Hs Hlive.
  assert (Hcancel : sound (finally r (cancelBend w s1))) by by apply sound_finally, sound_cancelBend.
  case_match; [by apply sound_seek|].
  destruct (getBendBase w s1) as [base|] eqn:Hget; [|done].
  case_match; [done|].
  set (s2 := match bendBase s1 with Some _ => _ | None => _ end).
  assert (H2 : sound s2 /\ disposed s2 = false /\ getBendBase w s2 = Some base
    /\ forall b, bendBase s2 = Some b -> (b == base)%Q).
  { assert (Hc : has_setLocalRate (cancelBend w s1) = has_setLocalRate s1
      /\ disposed (cancelBend w s1) = disposed s1)
      by (split; [apply aside_setter|apply aside_disposed]; apply aside_cancelBend).
    subst s2. destruct (bendBase s1) as [b|] eqn:Hb; [destruct (Qeq_bool b base) eqn:Hq|].
    - split_and!; try done. intros b' Hb'. rewrite Hb in Hb'. injection Hb' as <-. by apply Qeq_bool_iff.
    - destruct Hc as [Hc1 Hc2]. split_and!; try done; [by apply sound_cancelBend|congruence|].
      by rewrite (getBendBase_same _ _ Hc1).
    - split_and!; try done. intros b' Hb'. by rewrite Hb in Hb'. }
  destruct H2 as (H2 & Hl2 & Hg2 & Hb2). clearbody s2.
  assert (Hcancel2 : sound (finally r (cancelBend w s2))) by by apply sound_finally, sound_cancelBend.
  case_match eqn:Hdone; [done|]. apply bend_not_done in Hdone.
  repeat case_match; try done; try by apply sound_steer.
  all: by apply sound_seek, sound_cancelBend.
Qed.

Lemma canSeek_live s st : canSeek s st = true -> disposed s = false.
Proof. unfold canSeek. destruct (disposed s); [done|done]. Qed.

Lemma canObserve_live s st : canObserve s st = true -> disposed s = false.
Proof. unfold canObserve. destruct (canSeek s st) eqn:Hc; [|done]. intros _. by eapply canSeek_live. Qed.

Lemma sound_tick_after r g st p s : sound s -> sound (tick_after w r g st p s).
Proof.
  intros Hs. unfold tick_after. cbv zeta.
  assert (Hc : sound (finally r (cancelBend w s))) by by apply sound_finally, sound_cancelBend.
  destruct p as [p|]; [|by apply sound_finally, sound_report].
  case_match; [by apply sound_finally|].
  repeat case_match; try exact Hc. eapply sound_correct; [done|by eapply canObserve_live].
Qed.

Lemma sound_invalidate s : sound s -> sound (invalidateRate w s).
Proof. intros Hs. apply sound_cancelBend. by apply (sound_same s). Qed.

Lemma sound_reset s : sound s -> sound (reset w s).
Proof.
  intros Hs%sound_invalidate. unfold reset. generalize dependent (invalidateRate w s).
  intros s1 H1. by apply (sound_same s1).
Qed.

Lemma sound_adopt s : sound s -> sound (adopt_source w s).
Proof.
  intros Hs. unfold adopt_source. cbv zeta. case_match; [|done].
  apply sound_reset. by apply (sound_same s).
Qed.

Lemma sound_observe s : sound s -> sound (observe w s).
Proof.
  intros Hs. unfold observe. cbv zeta. set (s1 := s <| bufferedSinceLastSeek ::= _ |>).
  assert (H1 : sound s1) by by apply (sound_same s).
  case_match; [by apply sound_cancelBend|done].
Qed.

Lemma sound_large reason p s : sound s -> sound (seekIfDriftIsLarge_after w reason p s).
Proof.
  intros Hs. unfold seekIfDriftIsLarge_after. cbv zeta.
  repeat case_match; try done; try apply sound_seek; by apply (sound_same s).
Qed.

Lemma sound_follow s : sound s -> sound (follow_request w s).
Proof.
  intros Hs. unfold follow_request. cbv zeta.
  set (s1 := s <| pendingSeek := false |> <| pendingSeekToleratesDrift := false |>).
  assert (H1 : sound s1) by by apply (sound_same s). clearbody s1.
  case_match; [|by apply sound_seek].
  unfold seekIfDriftIsLarge. case_match; [by apply sound_large|by apply sound_emit|by apply sound_suspend].
Qed.

Lemma sound_read s : sound s -> sound (read_position w s).
Proof.
  intros Hs. unfold read_position. cbv zeta.
  set (s1 := s <| symbols ::= S |> <| inFlight := Some (symbols s) |>).
  assert (H1 : sound s1) by by apply (sound_same s). clearbody s1.
  case_match; [by apply sound_suspend|by apply sound_finally, sound_report|by apply sound_suspend].
Qed.

Lemma sound_tick s : sound s -> sound (tick w s).
Proof.
  intros Hs. unfold tick. cbv zeta. case_match; [done|].
  apply sound_adopt in Hs. case_match; [by apply sound_cancelBend|].
  apply sound_observe in Hs. generalize dependent (observe w (adopt_source w s)).
  intros s2 H2. repeat case_match; try done; [by apply sound_follow|by apply sound_read].
Qed.

Lemma sound_resume k o s : sound s -> sound (resume w k o s).
Proof.
  intros Hs. destruct k as [r g st [p|]|reason|g q|g q|r]; cbn [resume].
  - by apply sound_tick_after.
  - by apply sound_tick_after.
  - destruct o; [by apply sound_large|by apply sound_emit].
  - apply sound_resume_tick. destruct o; [done|by apply sound_report].
  - apply sound_resume_tick. destruct o; [done|by apply sound_rate_failed].
  - by apply sound_finally.
Qed.

Lemma sound_run c s : sound s -> sound (run w c s).
Proof.
  intros Hs. destruct c as [|reason tol| | | | |i o]; cbn [run].
  - by apply sound_tick.
  - apply sound_tick.
    set (s0 := s <| pendingSeek := true |> <| pendingSeekToleratesDrift := tol |> <| pendingSeekReason := reason |>).
    assert (H0 : sound (invalidateRate w s0)) by by apply sound_invalidate, (sound_same s).
    generalize dependent (invalidateRate w s0). intros s1 H1. by apply (sound_same s1).
  - by apply sound_reset.
  - by apply sound_invalidate.
  - by apply (sound_same s).
  - apply sound_cancelBend in Hs. unfold dispose. pose proof (idle_cancelBend w s) as Hi.
    generalize dependent (cancelBend w s). intros s1 [_ H1] (I1 & I2 & I3 & I4). split; [by apply bend_idle|].
    intros b Hb. destruct (H1 b Hb) as [Hg [[Hn _]|Hr]]; [by destruct Hn|].
    split; [exact Hg|by right].
  - destruct (pending s !! i) as [k|]; [|done]. apply sound_resume. by apply (sound_same s).
Qed.
End OnTrack.

(** ** The invariant *)

Lemma idle_new b : idle (createPlaybackSync b).
Proof. done. Qed.

Lemma sound_untracked w t s : t <= now w -> bend_inv t s -> sound w None s.
Proof. intros Ht Hb. split; [by eapply bend_later|done]. Qed.

Lemma reachable_inv t s : reachable t s -> flight s /\ bend_inv t s.
Proof.
  induction 1 as [t b|t w c s _ [Hf Hb] Ht].
  - split; [apply flight_new|apply bend_idle, idle_new].
  - split; [by apply flight_run|]. eapply (sound_run w None c s). by eapply sound_untracked.
Qed.

(** ** What a step tells the player *)

(** [s'] comes after [s], and every seek in between satisfies [P]. *)
Definition emits (P : num -> Prop) (s s' : Sync) : Prop :=
  exists es, trace s' = trace s ++ es /\ forall p, ESetPosition p ∈ es -> P p.

Section Emits.
Context (w : World) (P : num -> Prop).
Implicit Types s : Sync.

Lemma emits_same s s' : trace s' = trace s -> emits P s s'.
Proof. intros H. exists []. rewrite app_nil_r. split; [done|]. by intros p ?%not_elem_of_nil. Qed.

Lemma emits_refl s : emits P s s.
Proof. by apply emits_same. Qed.

Lemma emits_trans s1 s2 s3 : emits P s1 s2 -> emits P s2 s3 -> emits P s1 s3.
Proof.
  intros (e1 & H1 & P1) (e2 & H2 & P2). exists (e1 ++ e2). rewrite H2, H1, app_assoc.
  split; [done|]. intros p [?|?]%elem_of_app; auto.
Qed.

Lemma emits_aside s s' : aside s s' -> emits P s s'.
Proof.
  intros [_ _ (es & He & Hes)]. exists es. split; [done|].
  intros p Hp. rewrite Forall_forall in Hes. by apply Hes in Hp.
Qed.

Lemma emits_finally r s : emits P s (finally r s).
Proof. unfold finally. case_match; by apply emits_same. Qed.

Lemma emits_resume_tick q s : emits P s (resume_tick q s).
Proof. destruct q; by apply emits_same. Qed.

Lemma emits_cancel_finally r s : emits P s (finally r (cancelBend w s)).
Proof. eapply emits_trans; [apply emits_aside, aside_cancelBend|apply emits_finally]. Qed.

Lemma emits_writeRate_await rate r s : emits P s (writeRate_await w rate r s).
Proof.
  unfold writeRate_await. pose proof (aside_writeRate w rate s) as Ha.
  destruct (writeRate w rate s) as [s1 []];
    (eapply emits_trans; [apply emits_aside, Ha|by apply emits_same]).
Qed.

Lemma emits_seek st reason q s : P (position st) -> emits P s (seek w st reason q s).
Proof.
  intros HP. unfold seek. cbv zeta. set (s1 := if bool_decide _ then _ else s).
  assert (H1 : emits P s (cancelBend w s1)).
  { eapply emits_trans; [|apply emits_aside, aside_cancelBend]. subst s1. case_match; by apply emits_same. }
  clearbody s1. generalize dependent (cancelBend w s1). intros s2 H2.
  set (s3 := emit _ _). assert (H3 : emits P s s3).
  { eapply emits_trans; [exact H2|]. exists [ESetPosition (position st)]. split; [done|].
    intros p Hp%list_elem_of_singleton. by injection Hp as ->. }
  clearbody s3. case_match; try (eapply emits_trans; [exact H3|by apply emits_same]).
  eapply emits_trans; [exact H3|]. eapply emits_trans; [apply emits_aside, aside_report|].
  apply emits_resume_tick.
Qed.

Lemma emits_steer base drift m r s : emits P s (steer w base drift m r s).
Proof.
  unfold steer. cbv zeta.
  repeat case_match;
    (eapply emits_trans; [|first [apply emits_writeRate_await|apply emits_finally]]; by apply emits_same).
Qed.
End Emits.

