(* ===== verification/PlaybackSyncTheorems.v ===== *)
(** * PlaybackSyncTheorems: what the client's synchronisation engine promises

    In every interleaving of its calls and of its player's promises: the engine is never
    left waiting, it seeks only where that is safe, a bend that ends gives the player its
    speed back, and a bend that does not converge is ended by its deadline. *)

From S2P Require Import Prelude Async PlaybackSync PlaybackSyncFacts.

Import PlaybackSync.

(** ** When a seek is sent *)

(** The room's position, where a player may be sent. *)
Definition seekable (st : SyncState) (p : num) : Prop :=
  p = position st /\ (exists q, p = Fin q /\ (0 <= q)%Q)
  /\ source st <> None /\ player st <> None /\ ready st = true /\ error st = false.

Definition unobstructed (st : SyncState) : Prop :=
  blocked st = false /\ seeking st = false /\ recovering st = false /\ buffering st = false.

Definition cooled (w : World) (s : Sync) : Prop :=
  forall u, lastSeekAt s = Some u ->
  2000 <= now w - u /\ (bufferedSinceLastSeek s = true -> 8000 <= now w - u).

(** Enough is buffered, as far as the player tells. *)
Definition buffered (st : SyncState) : Prop :=
  match bufferAhead st with
  | None => True
  | Some (Fin b) => (PLAYBACK_MIN_SEEK_BUFFER_SECONDS <= b)%Q
  | Some (Inf negative) => negative = false
  | Some NaN => False
  end.

Lemma hasSeekBuffer_spec st : hasSeekBuffer st = true -> buffered st.
Proof.
  unfold hasSeekBuffer, buffered. destruct (bufferAhead st) as [[b| |[]]|]; try done.
  apply Qle_bool_iff.
Qed.

Lemma canSeek_spec s st :
  canSeek s st = true -> disposed s = false /\ seekable st (position st).
Proof.
  unfold canSeek, seekable. rewrite !andb_true_iff, !negb_true_iff, !bool_decide_eq_true.
  intros [[[[[? ?] ?] ?] ?] Hp]. split_and!; try done.
  destruct (position st) as [q| |]; try done. exists q. split; [done|by apply Qle_bool_iff].
Qed.

Lemma canObserve_spec s st :
  canObserve s st = true -> disposed s = false /\ seekable st (position st) /\ unobstructed st.
Proof.
  unfold canObserve. rewrite !andb_true_iff, !negb_true_iff. intros [[[[Hc ?] ?] ?] ?].
  apply canSeek_spec in Hc as [? ?]. by unfold unobstructed.
Qed.

Lemma canSeekNow_core w s s' st : core s' = core s -> canSeekNow w s' st = canSeekNow w s st.
Proof.
  intros [= _ _ _ H1 H2 _ _ _ _ _ H3 _ _].
  unfold canSeekNow, canObserve, canSeek, seek_cooldown. by rewrite H1, H2, H3.
Qed.

Lemma canSeekNow_spec w s st :
  canSeekNow w s st = true -> seekable st (position st) /\ unobstructed st /\ cooled w s.
Proof.
  unfold canSeekNow, cooled. rewrite andb_true_iff. intros [Ho Hc].
  apply canObserve_spec in Ho as (_ & ? & ?). split_and!; try done.
  intros u Hu. rewrite Hu in Hc. apply Z.leb_le in Hc. revert Hc. unfold seek_cooldown.
  destruct (bufferedSinceLastSeek s); lia.
Qed.

(** Why a tick that has read the position seeks. *)
Definition worth_a_seek (w : World) (s : Sync) (drift : Q) : Prop :=
  (seek_limit w s (bendable w s (getState w)) < Qabs' drift)%Q
  \/ exists t0, bendStartedAt s = Some t0 /\ (bendDeadlineAt s <= inject_Z (now w))%Q.

Definition drift_seek (w : World) (s : Sync) (drift : Q) (p : num) : Prop :=
  seekable (getState w) p /\ unobstructed (getState w) /\ cooled w s
  /\ buffered (getState w) /\ worth_a_seek w s drift.

Lemma emits_correct w drift r s :
  emits (drift_seek w s drift) s (correct w (getState w) drift r s).
Proof.
  unfold correct. cbv zeta. set (P := drift_seek w s drift).
  set (s1 := s <| maxAbsDrift ::= _ |>).
  assert (E1 : emits P s s1) by by apply emits_same.
  assert (Hc1 : core s1 = core s) by done.
  assert (Hl : seek_limit w s1 (bendable w s1 (getState w)) = seek_limit w s (bendable w s (getState w)))
    by done.
  assert (Hb1 : bendStartedAt s1 = bendStartedAt s /\ bendDeadlineAt s1 = bendDeadlineAt s) by done.
  clearbody s1. rewrite Hl, (canSeekNow_core w s s1 _ Hc1).
  assert (Hgo : forall s2, core s2 = core s -> emits P s s2 ->
    canSeekNow w s2 (getState w) && hasSeekBuffer (getState w) = true -> worth_a_seek w s drift ->
    forall reason, emits P s (seek w (getState w) reason (Some r) s2)).
  { intros s2 Hc2 E2 [Hnow Hbuf]%andb_true_iff Hw reason. eapply emits_trans; [exact E2|].
    apply emits_seek. rewrite (canSeekNow_core w s s2 _ Hc2) in Hnow.
    apply canSeekNow_spec in Hnow as (? & ? & ?). unfold P, drift_seek. split_and!; try done. by apply hasSeekBuffer_spec. }
  assert (Hstop : forall s2, emits P s s2 -> emits P s (finally r (cancelBend w s2))).
  { intros s2 E2. eapply emits_trans; [exact E2|apply emits_cancel_finally]. }
  destruct (Qlt_bool _ _ && _ && _) eqn:Hbig.
  { rewrite <- andb_assoc in Hbig. apply andb_true_iff in Hbig as [Hlim Hnow].
    apply Hgo; [done|done| |by left; apply Qlt_bool_iff].
    by rewrite (canSeekNow_core w s s1 _ Hc1). }
  destruct (getBendBase w s1) as [base|]; [|by apply Hstop].
  case_match; [by apply Hstop|].
  set (s2 := match bendBase s1 with Some _ => _ | None => _ end).
  assert (H2 : core s2 = core s /\ emits P s s2
    /\ (s2 = s1 \/ bendStartedAt s2 = None)).
  { subst s2. pose proof (aside_cancelBend w s1) as Ha.
    destruct (bendBase s1) as [b|]; [destruct (Qeq_bool b base)|]; split_and!; try done; try by left.
    - by rewrite (a_core _ _ Ha).
    - eapply emits_trans; [exact E1|by apply emits_aside].
    - by right. }
  destruct H2 as (Hc2 & E2 & Hor). clearbody s2.
  destruct (bend_done _ _); [by apply Hstop|].
  destruct (bendStartedAt s2) as [t0|] eqn:Hst.
  2: { eapply emits_trans; [exact E2|apply emits_steer]. }
  destruct (Qle_bool (bendDeadlineAt s2) (inject_Z (now w))) eqn:Hdl.
  2: { eapply emits_trans; [exact E2|apply emits_steer]. }
  pose proof (aside_cancelBend w s2) as Ha.
  destruct (canSeekNow _ _ _ && _) eqn:Hnow; [|by apply Hstop].
  apply Hgo; [by rewrite (a_core _ _ Ha)|eapply emits_trans; [exact E2|by apply emits_aside]|done|].
  right. destruct Hor as [->|?]; [|congruence]. destruct Hb1 as [<- <-]. exists t0.
  split; [done|by apply Qle_bool_iff].
Qed.

(** What has to hold for a seek, by what the engine was doing. *)
Definition seek_allowed (w : World) (s : Sync) (c : call) (p : num) : Prop :=
  disposed s = false /\ seekable (getState w) p /\
  match c with
  | Tick => live (getState w) = false
      /\ (pendingSeek s = true \/ s_source s <> source (getState w)
          \/ s_player s <> player (getState w))
  | RequestSeek _ _ => live (getState w) = false
  | Resume i o =>
      match pending s !! i with
      | Some (AfterLargePosition _) =>
          live (getState w) = false /\ buffered (getState w)
      | Some (AfterPosition _ _ _ known) =>
          exists here target, (known = Some (Fin here) \/ known = None /\ o = Resolved (Fin here))
            /\ p = Fin target /\ drift_seek w s (target - here) p
      | _ => False
      end
  | _ => False
  end.

Lemma emits_weaken (P Q : num -> Prop) s s' : (forall p, P p -> Q p) -> emits P s s' -> emits Q s s'.
Proof. intros HPQ (es & H1 & H2). exists es. split; [done|]. intros p Hp. by apply HPQ, H2. Qed.

Lemma emits_reset w P s : emits P s (reset w s).
Proof.
  unfold reset, invalidateRate. set (s1 := s <| generation ::= _ |> <| inFlight := _ |>).
  apply (emits_trans P s s1); [by apply emits_same|].
  eapply emits_trans; [apply emits_aside, (aside_cancelBend w)|].
  generalize (cancelBend w s1). intros s2. by apply emits_same.
Qed.

Lemma emits_large w P reason p s :
  (seekable (getState w) (position (getState w)) -> disposed s = false ->
   live (getState w) = false -> buffered (getState w) -> P (position (getState w))) ->
  emits P s (seekIfDriftIsLarge_after w reason p s).
Proof.
  intros HP. unfold seekIfDriftIsLarge_after. cbv zeta.
  destruct (_ || negb (canSeek _ _)) eqn:Hg; [apply emits_refl|].
  rewrite !orb_false_iff, negb_false_iff in Hg. destruct Hg as [[[[Hd Hl] _] _] [_ Hp]%canSeek_spec].
  destruct (position (getState w)) as [q| |] eqn:Hpos; try apply emits_refl.
  set (s1 := s <| maxAbsDrift ::= _ |>).
  apply (emits_trans P s s1); [by apply emits_same|]. clearbody s1.
  destruct (_ && hasSeekBuffer _) eqn:Hb; [|apply emits_refl].
  apply andb_true_iff in Hb as [_ Hb%hasSeekBuffer_spec].
  apply emits_seek. rewrite Hpos. by apply HP.
Qed.

Lemma emits_follow w P s :
  (seekable (getState w) (position (getState w)) -> disposed s = false ->
   live (getState w) = false -> P (position (getState w))) ->
  canSeek s (getState w) = true -> live (getState w) = false -> emits P s (follow_request w s).
Proof.
  intros HP [Hd Hp]%canSeek_spec Hl. unfold follow_request. cbv zeta.
  set (s1 := s <| pendingSeek := false |> <| pendingSeekToleratesDrift := false |>).
  apply (emits_trans P s s1); [by apply emits_same|]. clearbody s1.
  case_match; [|by apply emits_seek, HP].
  unfold seekIfDriftIsLarge. case_match.
  - apply emits_large. auto.
  - apply emits_aside. by apply aside_emit.
  - by apply emits_same.
Qed.

Lemma emits_tick w s : emits (seek_allowed w s Tick) s (tick w s).
Proof.
  unfold tick. cbv zeta. destruct (disposed s) eqn:Hd; [apply emits_refl|].
  set (P := seek_allowed w s Tick).
  set (s1 := adopt_source w s). assert (E1 : emits P s s1).
  { subst s1. unfold adopt_source. cbv zeta. case_match; [|apply emits_refl].
    eapply emits_trans; [|apply emits_reset]. by apply emits_same. }
  assert (Hpend : pendingSeek s1 = true -> pendingSeek s = true
    \/ s_source s <> source (getState w) \/ s_player s <> player (getState w)).
  { subst s1. unfold adopt_source. cbv zeta. destruct (_ || _) eqn:Hch; [|by left]. intros _. right.
    apply orb_true_iff in Hch. by rewrite !bool_decide_eq_true in Hch. }
  clearbody s1. destruct (live (getState w)) eqn:Hl.
  { eapply emits_trans; [exact E1|apply emits_aside, aside_cancelBend]. }
  set (s2 := observe w s1). assert (E2 : emits P s s2 /\ pendingSeek s2 = pendingSeek s1).
  { subst s2. unfold observe. cbv zeta. set (s2 := s1 <| bufferedSinceLastSeek ::= _ |>).
    assert (E2 : emits P s s2) by (eapply emits_trans; [exact E1|by apply emits_same]).
    assert (Hp2 : pendingSeek s2 = pendingSeek s1) by done. clearbody s2.
    case_match; [|done]. pose proof (aside_cancelBend w s2) as Ha. split.
    - eapply emits_trans; [exact E2|by apply emits_aside].
    - rewrite <- Hp2. by apply aside_pendingSeek. }
  destruct E2 as [E2 Hp2]. clearbody s2.
  destruct (canSeek s2 (getState w)) eqn:Hc; cbn [negb]; [|done].
  destruct (pendingSeek s2) eqn:Hps.
  { eapply emits_trans; [exact E2|]. apply emits_follow; [|done|done].
    intros. unfold P, seek_allowed. split_and!; try done. apply Hpend. congruence. }
  case_match; [done|]. eapply emits_trans; [exact E2|]. unfold read_position. cbv zeta.
  set (s3 := s2 <| symbols ::= _ |> <| inFlight := _ |>).
  apply (emits_trans P s2 s3); [by apply emits_same|]. clearbody s3.
  case_match; [by apply emits_same| |by apply emits_same].
  eapply emits_trans; [apply emits_aside, aside_report|apply emits_finally].
Qed.

Lemma emits_resume w s i o k :
  pending s !! i = Some k ->
  emits (seek_allowed w s (Resume i o)) s (resume w k o (s <| pending ::= delete i |>)).
Proof.
  intros Hi. set (P := seek_allowed w s (Resume i o)).
  set (s1 := s <| pending ::= delete i |>).
  apply (emits_trans P s s1); [by apply emits_same|].
  assert (Hread : forall r g st p known,
    k = AfterPosition r g st known ->
    (known = p \/ known = None /\ o = match p with Some p => Resolved p | None => Rejected end) ->
    emits P s1 (tick_after w r g st p s1)).
  { intros r g st p known -> Hp. unfold tick_after. cbv zeta. destruct p as [p|].
    2: { eapply emits_trans; [apply emits_aside, aside_report|apply emits_finally]. }
    case_match; [apply emits_finally|].
    destruct p as [here| |]; try apply emits_cancel_finally.
    destruct (position (getState w)) as [target| |] eqn:Hpos; try apply emits_cancel_finally.
    destruct (canObserve s1 (getState w)) eqn:Ho; [|apply emits_cancel_finally].
    apply canObserve_spec in Ho as (Hd & Hsk & _).
    eapply emits_weaken; [|apply emits_correct]. intros q Hq. unfold P, seek_allowed.
    rewrite Hi. pose proof Hq as ((-> & _) & _). rewrite Hpos in *.
    split_and!; try done. by exists here, target. }
  destruct k as [r g st [p|]|reason|g q|g q|r]; cbn [resume].
  - eapply Hread; [done|by left].
  - destruct o as [p|]; (eapply Hread; [done|by right]).
  - destruct o; [|by apply emits_aside, aside_emit]. apply emits_large.
    intros ? ? ? ?. unfold P, seek_allowed. by rewrite Hi.
  - eapply emits_trans; [|apply emits_resume_tick]. destruct o; [apply emits_refl|apply emits_aside, aside_report].
  - eapply emits_trans; [|apply emits_resume_tick]. destruct o; [apply emits_refl|apply emits_aside, aside_rate_failed].
  - apply emits_finally.
Qed.

Lemma emits_run w c s : emits (seek_allowed w s c) s (run w c s).
Proof.
  destruct c as [|reason tol| | | | |i o]; cbn [run].
  - apply emits_tick.
  - unfold requestSeek. set (s0 := s <| pendingSeek := _ |> <| pendingSeekToleratesDrift := _ |> <| pendingSeekReason := _ |>).
    set (P := seek_allowed w s (RequestSeek reason tol)).
    unfold invalidateRate. set (s1 := s0 <| generation ::= _ |> <| inFlight := _ |>).
    assert (E1 : emits P s s1) by by apply emits_same.
    assert (Hd1 : disposed s1 = disposed s) by done. clearbody s1.
    pose proof (aside_cancelBend w s1) as Ha. pose proof (aside_disposed _ _ Ha) as Hd2.
    apply (emits_trans P s (cancelBend w s1)); [eapply emits_trans; [exact E1|by apply emits_aside]|].
    generalize dependent (cancelBend w s1). intros s2 _ Hd2.
    apply (emits_trans P _ (s2 <| inFlight := None |>)); [by apply emits_same|].
    eapply emits_weaken; [|apply emits_tick]. intros p (H1 & H2 & H3 & _).
    split; [|done]. rewrite <- Hd1, <- Hd2. exact H1.
  - apply emits_reset.
  - unfold invalidateRate. set (s1 := s <| generation ::= _ |> <| inFlight := _ |>).
    eapply (emits_trans _ _ s1); [by apply emits_same|apply emits_aside, aside_cancelBend].
  - by apply emits_same.
  - unfold dispose. apply (emits_trans _ _ (cancelBend w s)); [apply emits_aside, aside_cancelBend|].
    generalize (cancelBend w s). intros s1. by apply emits_same.
  - destruct (pending s !! i) as [k|] eqn:Hi; [|apply emits_refl]. by apply emits_resume.
Qed.

(** ** The properties *)

(** What the engine keeps true of itself. *)
Definition engine_consistent (t : Z) (s : Sync) : Prop :=
  (forall r, inFlight s = Some r -> exists i k, pending s !! i = Some k /\ request_of k = Some r
     /\ forall j k', pending s !! j = Some k' -> request_of k' = Some r -> j = i)
  /\ match bendStartedAt s with
     | None => bendBase s = None /\ bendOffset s = None /\ appliedRate s = None
     | Some _ =>
         disposed s = false /\ has_setLocalRate s = true
         /\ (bendDeadlineAt s <= inject_Z t + 30000)%Q
         /\ exists base o r, bendBase s = Some base /\ (0 < base)%Q /\ bendOffset s = Some o
            /\ (8 # 100 <= Qabs' o <= 15 # 100)%Q
            /\ last_rate (trace s) = Some r /\ (- (2 # 1000) <= base * (1 + o) - r <= 2 # 1000)%Q
            /\ forall a, appliedRate s = Some a -> a = r
     end.

(** C20: The engine is never stuck and its bends are whole.  In every state it can reach, by
    any calls and any settling of the player's promises in any order: while a reading of
    the position is in flight, exactly one suspended continuation will end it.  When no
    bend is on, nothing of one is left.  When one is, there is a rate setter, its base is
    positive, its offset is between 8% and 15%, the player has been told a rate and the last
    it was told is that of the bend (to two thousandths), which is also the one the engine
    has noted as applied, if any, and the deadline is at most thirty seconds away. *)
Theorem sync_engine_consistent t s : reachable t s -> engine_consistent t s.
Proof.
  intros [Hf Hb]%reachable_inv. split.
  - intros r Hr. exact (flight_unique s r Hf Hr).
  - unfold bend_inv in Hb. destruct (bendStartedAt s); [|by destruct Hb as (?&?&?&?)].
    destruct Hb as [? ? _ ? Ht (b & o & r & ? & ? & ? & ? & Hl & Hc)]. split_and!; try done.
    exists b, o, r. repeat (split; [assumption|]). split; [by apply close_rates_iff|].
    intros a Ha%Ht. congruence.
Qed.

(** C21: A seek is sent only where it is safe, and to the room's position.  Whatever the call
    and the state: the engine is not disposed, there is a source and a ready player
    without error, and the position is finite and not negative.  A request seeks only
    when the source is not live (and, for one that tolerates drift and waited for the
    player's position, when enough is buffered).  A tick on its own account seeks only
    when nothing blocks the player, the cooldown since the last seek is over, enough is
    buffered, and either the drift is past the limit or a bend has run out of time. *)
Theorem seeks_are_safe w c s es p :
  trace (run w c s) = trace s ++ es -> ESetPosition p ∈ es -> seek_allowed w s c p.
Proof.
  intros He Hp. destruct (emits_run w c s) as (es' & He' & HP).
  rewrite He in He'. apply app_inv_head in He' as <-. by apply HP.
Qed.

(** The player gets its speed back.  Whenever a step ends a bend, for whatever reason (a
    seek, a pause, a buffering stop, a new room speed, a new source, the deadline, or the
    drift being closed), the last rate the player was told is the base: the player's
    base now or, when there is none any more, the one the bend was held on, to two
    thousandths. *)
Theorem bend_gives_the_speed_back t w c s :
  reachable t s -> t <= now w ->
  bendStartedAt s <> None -> bendStartedAt (run w c s) = None ->
  exists base r, cancel_base w s = Some base
    /\ last_rate (trace (run w c s)) = Some r
    /\ (- (2 # 1000) <= base - r <= 2 # 1000)%Q.
Proof.
  intros [_ Hb]%reachable_inv Ht Hon Hoff. apply (bend_later _ _ _ Ht) in Hb.
  pose proof Hb as Hbend. unfold bend_inv in Hbend. destruct (bendStartedAt s) eqn:Hst; [|done].
  assert (exists base, cancel_base w s = Some base) as [base Hbase].
  { unfold cancel_base. destruct (bg_rate _ _ Hbend) as (b & _ & _ & -> & _).
    destruct (getBendBase w s); by eexists. }
  destruct (sound_run w (Some base) c s) as [_ Htr].
  { split; [exact Hb|]. intros b [= <-]. split; [|by left; rewrite Hst].
    intros c' Hc'. unfold cancel_base in Hbase. rewrite Hc' in Hbase. by injection Hbase. }
  destruct (Htr base eq_refl) as [_ [[[] _]|(_ & r & Hr & Hcl)]]; [done|].
  exists base, r. split; [done|]. split; [exact Hr|]. by apply close_rates_iff.
Qed.

(** *** Deadlines *)

Lemma writeRate_await_started w rate r s :
  bendStartedAt (writeRate_await w rate r s) = bendStartedAt s.
Proof.
  unfold writeRate_await, writeRate, send_rate, rate_failed. cbv zeta. repeat case_match; simplify_eq; done.
Qed.

Lemma steer_idle_started w base drift m r s :
  bendStartedAt s = None -> bendStartedAt (steer w base drift m r s) = Some (now w).
Proof.
  intros Hs. unfold steer. cbv zeta. change (bendStartedAt (s <| bendBase := Some base |>)) with (bendStartedAt s).
  rewrite Hs. by rewrite writeRate_await_started.
Qed.

Lemma finally_started r s : bendStartedAt (finally r s) = bendStartedAt s.
Proof. unfold finally. by case_match. Qed.

Lemma seek_started w st reason q s : bendStartedAt (seek w st reason q s) = None.
Proof. unfold seek, report, resume_tick. cbv zeta. destruct q; repeat case_match; done. Qed.

(** A correction past the deadline ends the bend; it may begin another at once, when the
    room's speed is a new one. *)
Lemma correct_past_deadline w latest drift r s :
  (forall t0, bendStartedAt s = Some t0 -> (bendDeadlineAt s <= inject_Z (now w))%Q) ->
  let s' := correct w latest drift r s in
  bendStartedAt s' = None \/ bendStartedAt s' = Some (now w).
Proof.
  intros Hdl. unfold correct. cbv zeta. set (s1 := s <| maxAbsDrift ::= _ |>).
  assert (Hdl1 : forall t0, bendStartedAt s1 = Some t0 -> (bendDeadlineAt s1 <= inject_Z (now w))%Q)
    by exact Hdl.
  clearbody s1.
  assert (Hc : forall s', bendStartedAt (finally r (cancelBend w s')) = None)
    by (intros; by rewrite finally_started).
  destruct (_ && _ && _); [left; apply seek_started|].
  destruct (getBendBase w s1) as [base|]; [|by left].
  case_match; [by left|].
  set (s2 := match bendBase s1 with Some _ => _ | None => _ end).
  assert (H2 : s2 = s1 \/ bendStartedAt s2 = None).
  { subst s2. destruct (bendBase s1) as [b|]; [destruct (Qeq_bool b base)|]; auto. }
  clearbody s2. destruct (bend_done _ _); [by left|].
  destruct (bendStartedAt s2) as [t0|] eqn:Hst; [|right; by apply steer_idle_started].
  destruct H2 as [->|?]; [|congruence]. apply Hdl1, Qle_bool_iff in Hst as ->.
  case_match; [left; apply seek_started|by left].
Qed.

(** A bend that does not converge is ended.  Take any reachable state with a bend on and
    a reading of the position in flight.  When the reading comes back at or after the
    bend's deadline, with a position and for the same source and player, the bend is over
    whatever the position is: no bend is on, or one that began at this very instant. *)
Theorem deadline_ends_the_bend t w s i r g st known o :
  reachable t s -> pending s !! i = Some (AfterPosition r g st known) -> inFlight s = Some r ->
  source st = source (getState w) -> player st = player (getState w) ->
  (known = None -> exists p, o = Resolved p) ->
  bendStartedAt s <> None -> (bendDeadlineAt s <= inject_Z (now w))%Q ->
  let s' := run w (Resume i o) s in
  bendStartedAt s' = None \/ bendStartedAt s' = Some (now w).
Proof.
  intros [Hf _]%reachable_inv Hi Hin Hsrc Hpl Hkn _ Hdl. cbv zeta. cbn [run]. rewrite Hi.
  set (s1 := s <| pending ::= delete i |>).
  assert (Hg : g = generation s) by (eapply (f_gen _ _ Hf); [by eapply list_elem_of_lookup_2|done..]).
  assert (Hafter : forall p, let s' := tick_after w r g st (Some p) s1 in
    bendStartedAt s' = None \/ bendStartedAt s' = Some (now w)).
  { intros p. cbv zeta. unfold tick_after. cbv zeta.
    assert (Hc : bendStartedAt (finally r (cancelBend w s1)) = None) by by rewrite finally_started.
    rewrite (bool_decide_false (inFlight s1 <> Some r)) by (intros Hne; by apply Hne).
    rewrite (bool_decide_false (source st <> source (getState w))) by (intros Hne; by apply Hne).
    rewrite (bool_decide_false (player st <> player (getState w))) by (intros Hne; by apply Hne).
    change (generation s1) with (generation s). rewrite Hg, Z.eqb_refl. cbn [negb orb].
    destruct p as [here| |]; try by left. destruct (position (getState w)) as [target| |]; try by left.
    destruct (canObserve s1 (getState w)); [|by left]. by apply correct_past_deadline. }
  cbn [resume]. destruct known as [p|]; [apply Hafter|].
  destruct (Hkn eq_refl) as [p ->]. apply Hafter.
Qed.

(** How far a player that runs at the bent rate is from the room after some seconds. *)
Definition drift_after (base offset drift seconds : Q) : Q :=
  (drift - (rate_of base offset - base) * seconds)%Q.

Lemma needed_fits m :
  (BEND_START <= m <= HARD_SEEK_DRIFT)%Q -> (m / bendCeiling m * 1000 * (5 # 4) <= MAX_BEND_DEADLINE_MS)%Q.
Proof.
  intros [H1 H2]. pose proof (bendCeiling_bounds m) as [Hc _].
  assert (Hm : (m <= 24 * bendCeiling m)%Q).
  { unfold bendCeiling, Qmin', MAX_BEND, CATCHUP_MAX_BEND, CATCHUP_FULL, HARD_SEEK_DRIFT, BEND_START in *.
    unfold Qdiv. change (/ (3 - 1))%Q with (1 # 2)%Q. qbool; lra. }
  unfold MAX_BEND, MAX_BEND_DEADLINE_MS in *.
  assert (Hx : (m / bendCeiling m <= 24)%Q) by (apply Qle_shift_div_r; lra). lra.
Qed.

(** A bend converges before its deadline.  For every drift the engine bends away (0.3 to 3
    seconds, either direction) and every room speed from 0.8 up, a player held at the rate
    the engine chooses comes within 0.15 seconds of the room no later than the deadline
    the engine sets, so the fallback seek is not reached. *)
Theorem bend_converges drift base :
  (BEND_START <= Qabs' drift <= HARD_SEEK_DRIFT)%Q -> (4 # 5 <= base)%Q ->
  let ceiling := bendCeiling (Qabs' drift) in
  exists seconds,
    (0 <= seconds)%Q /\ (1000 * seconds <= bendDeadlineMs (Qabs' drift) ceiling)%Q
    /\ (Qabs' (drift_after base (Qsign drift * ceiling) drift seconds) == BEND_STOP)%Q.
Proof.
  intros Hd Hb. cbv zeta. pose proof (needed_fits _ Hd) as Hfit.
  pose proof (bendCeiling_bounds (Qabs' drift)) as [Hc _].
  generalize dependent (bendCeiling (Qabs' drift)). intros c Hfit Hc.
  unfold MAX_BEND, BEND_START, HARD_SEEK_DRIFT, BEND_STOP in *.
  set (m := Qabs' drift) in *. set (y := (m / c)%Q) in *.
  assert (Hy : (y * c == m)%Q) by (subst y; field; lra).
  assert (Hpos : (0 < base * c)%Q) by nra.
  exists ((m - (15 # 100)) / (base * c))%Q. set (x := (_ / (base * c))%Q).
  assert (Hx : (x * (base * c) == m - (15 # 100))%Q) by (subst x; field; lra).
  assert (Hx0 : (0 <= x)%Q) by (subst x; apply Qle_shift_div_l; lra).
  assert (Hxy : (x <= (5 # 4) * y)%Q) by (subst x; apply Qle_shift_div_r; nra).
  split_and!; [done| |].
  - unfold bendDeadlineMs, Qmin', Qmax'. fold y. unfold MAX_BEND_DEADLINE_MS, BEND_DEADLINE_MS in *.
    qbool; lra.
  - assert (He : (drift_after base (Qsign drift * c) drift x == drift - Qsign drift * (x * (base * c)))%Q)
      by (unfold drift_after, rate_of; ring).
    clearbody x. unfold Qabs' in *. subst m. unfold Qsign, Qlt_bool in *. qbool; simpl in *; qbool; nra.
Qed.

(** Below that speed it need not: the deadline is computed as if the room ran at speed 1.  At
    half speed a drift of half a second is still past 0.15 seconds when the time is up, and
    the viewer sees a seek the rate change was there to avoid. *)
Theorem slow_room_misses_the_deadline seconds :
  let ceiling := bendCeiling (1 # 2) in
  (1000 * seconds <= bendDeadlineMs (1 # 2) ceiling)%Q ->
  (BEND_STOP + (1 # 1000000000) < drift_after (1 # 2) ceiling (1 # 2) seconds)%Q.
Proof.
  cbv zeta. assert (Hc : (bendCeiling (1 # 2) == 8 # 100)%Q) by reflexivity.
  assert (Hd : (bendDeadlineMs (1 # 2) (bendCeiling (1 # 2)) == 8000)%Q) by reflexivity.
  rewrite Hd. unfold drift_after, rate_of, BEND_STOP. rewrite Hc. intros. lra.
Qed.

(** ** A run *)

Section Sample.

(** A direct player on a room at speed 1 that plays; [room] is the room's position. *)
Definition sample_state (room : Q) : SyncState :=
  MkSyncState (Some 1%nat) (Some 2%nat) true false false false false false (Some (Fin 10)) false
    true false (Fin room).

Definition sample_world (t : Z) (room here : Q) : World :=
  MkWorld t (sample_state room) (Some (Fin 1)) true (ReadNow (Fin here)) Promised (fun _ => Done).

(** A tick and everything it left to do, at the same instant: the position comes back,
    then whatever waits goes on. *)
Definition settle (w : World) (s : Sync) : Sync :=
  run w (Resume 0 (Resolved NaN)) (run w (Resume 0 (Resolved NaN)) s).
Definition full_tick (t : Z) (room here : Q) (s : Sync) : Sync :=
  let w := sample_world t room here in settle w (run w Tick s).

(** The first tick seeks; three seconds later the player is two and a half seconds behind. *)
Definition sample_bend : Sync :=
  full_tick 3000 10 (75 # 10) (full_tick 0 0 0 (createPlaybackSync true)).

(** Seventeen seconds on it is half a second ahead, then six tenths. *)
Definition sample_turned : Sync := full_tick 20000 27 (275 # 10) sample_bend.
Definition sample_widened : Sync := full_tick 21000 28 (286 # 10) sample_turned.
End Sample.

Lemma sample_reachable : reachable 3000 sample_bend.
Proof.
  unfold sample_bend, full_tick, settle.
  repeat lazymatch goal with
  | |- reachable _ (createPlaybackSync _) => apply (reach_new 0)
  | |- reachable _ (run (sample_world ?t ?a ?b) ?c ?s) =>
      lazymatch s with
      | run (sample_world ?t' _ _) _ _ => apply (reach_run t' (sample_world t a b) c s)
      | _ => apply (reach_run 0 (sample_world t a b) c s)
      end
  end; vm_compute; discriminate.
Qed.

(** A correction that changes direction keeps the start of the first one, so when it grows
    its deadline is counted from there: two seconds into the new correction its time is
    already up, and the next tick seeks. *)
Theorem widened_turn_is_out_of_time :
  (bendDeadlineAt sample_turned == 28000)%Q
  /\ (bendDeadlineAt sample_widened == 12375)%Q
  /\ last (trace (full_tick 22000 29 (294 # 10) sample_widened)) = Some (ESetPosition (Fin 29)).
Proof. vm_compute. repeat split. Qed.

(** ** The hypotheses can hold *)

Lemma sync_engine_consistent_witness : engine_consistent 3000 sample_bend.
Proof. exact (sync_engine_consistent 3000 sample_bend sample_reachable). Defined.

Lemma seeks_are_safe_witness :
  seek_allowed (sample_world 0 5 0) (createPlaybackSync true) Tick (Fin 5).
Proof.
  refine (seeks_are_safe (sample_world 0 5 0) Tick (createPlaybackSync true) [ESetPosition (Fin 5)] (Fin 5) _ _).
  - vm_compute. reflexivity.
  - by left.
Defined.

Lemma bend_gives_the_speed_back_witness :
  exists base r, cancel_base (sample_world 4000 11 9) sample_bend = Some base
    /\ last_rate (trace (run (sample_world 4000 11 9) Dispose sample_bend)) = Some r
    /\ (- (2 # 1000) <= base - r <= 2 # 1000)%Q.
Proof.
  refine (bend_gives_the_speed_back 3000 (sample_world 4000 11 9) Dispose sample_bend sample_reachable _ _ _).
  - vm_compute. discriminate.
  - vm_compute. discriminate.
  - vm_compute. reflexivity.
Defined.

(** A bend out of time, with the reading of the next tick in flight. *)
Definition sample_overdue : Sync := run (sample_world 27000 34 32) Tick sample_bend.

Lemma sample_overdue_reachable : reachable 27000 sample_overdue.
Proof. apply (reach_run 3000 (sample_world 27000 34 32)); [apply sample_reachable|discriminate]. Qed.

Lemma deadline_ends_the_bend_witness :
  let s' := run (sample_world 27001 34 32) (Resume 0 (Resolved (Fin 32))) sample_overdue in
  bendStartedAt s' = None \/ bendStartedAt s' = Some (now (sample_world 27001 34 32)).
Proof.
  refine (deadline_ends_the_bend 27000 (sample_world 27001 34 32) sample_overdue 0 1
    (generation sample_overdue) (sample_state 34) (Some (Fin 32)) (Resolved (Fin 32))
    sample_overdue_reachable _ _ eq_refl eq_refl _ _ _).
  - vm_compute. reflexivity.
  - vm_compute. reflexivity.
  - discriminate.
  - vm_compute. discriminate.
  - vm_compute. discriminate.
Defined.

Lemma bend_converges_witness :
  let ceiling := bendCeiling (Qabs' (1 # 2)) in
  exists seconds,
    (0 <= seconds)%Q /\ (1000 * seconds <= bendDeadlineMs (Qabs' (1 # 2)) ceiling)%Q
    /\ (Qabs' (drift_after 1 (Qsign (1 # 2) * ceiling) (1 # 2) seconds) == BEND_STOP)%Q.
Proof.
  refine (bend_converges (1 # 2) 1 _ _).
  - split; vm_compute; discriminate.
  - vm_compute. discriminate.
Defined.
