(* ===== verification/Danmaku.v ===== *)
(** * Danmaku: the scheduler of flying comments

    The class [DanmakuEngine] of [client/src/util/danmaku/engine.ts] with the items of
    [parse.ts]: which comments of a track are on screen at a media time, and in which
    lane.  Scrolling comments share lanes, top and bottom comments hold a slot for five
    seconds.  The width of a text is the parameter [measure]. *)

From Stdlib Require Import Qround.
From S2P Require Import Prelude Subtitles.

Module Danmaku.

(** ** Items *)

Inductive DanmakuMode := Scroll | Top | Bottom.
#[global] Instance DanmakuMode_eq : EqDecision DanmakuMode.
Proof. solve_decision. Defined.

Record DanmakuItem := MkItem { time : Q; mode : DanmakuMode; color : string; text : string }.

(** [parseMode]: what the [p] attribute's second field means. *)
Definition parseMode (value : Z) : option DanmakuMode :=
  if (value =? 1) || (value =? 2) || (value =? 3) || (value =? 6) then Some Scroll
  else if value =? 4 then Some Bottom
  else if value =? 5 then Some Top
  else None.

Definition shiftDanmakuTime (items : list DanmakuItem) (offsetSeconds : num) : list DanmakuItem :=
  match offsetSeconds with
  | Fin o => if Qeq_bool o 0 then items
             else map (fun i => MkItem (time i + o)%Q (mode i) (color i) (text i)) items
  | _ => items
  end.

(** ** Configuration *)

Inductive DanmakuArea := AreaFull | AreaTop | AreaBottom.
#[global] Instance DanmakuArea_eq : EqDecision DanmakuArea.
Proof. solve_decision. Defined.

Record Config := MkConfig {
  width : Q;
  height : Q;
  fontPx : Q;
  scrollDuration : Q;
  speed : Q;
  antiCollision : bool;
  maxOnScreen : num;
  blockScroll : bool;
  blockTop : bool;
  blockBottom : bool;
  blockColored : bool;
  area : DanmakuArea;
  maxPerSecond : num;
}.

(** [AREA_BANDS]: the band of the picture an area uses, as fractions of its height. *)
Definition AREA_BANDS (a : DanmakuArea) : Q * Q :=
  match a with
  | AreaFull => (0, 1)
  | AreaTop => (0, 1 # 2)
  | AreaBottom => (1 # 2, 1)
  end%Q.

Definition FIXED_DURATION : Q := 5.
Definition LANE_HEIGHT_RATIO : Q := 11 # 10.
Definition SEEK_GAP_SECONDS : Q := 1.
Definition BACKWARD_TOLERANCE_SECONDS : Q := 1 # 2.

(** ** State *)

Record ScrollOccupant := MkOccupant { oc_startTime : Q; oc_textW : Q; oc_v : Q }.

Record ActiveItem := MkActive {
  item : DanmakuItem;
  startTime : Q;
  textW : Q;
  v : Q;
  y : Q;
  lane : nat;
  expireAt : num;
}.

Record Engine := MkEngine {
  items : list DanmakuItem;
  config : Config;
  active : list ActiveItem;
  scheduleIndex : nat;
  lastTime : option Q;
  laneHeight : Q;
  bandTop : Q;
  bandHeight : Q;
  scrollLanes : list (option ScrollOccupant);
  topSlots : list (option Q);
  bottomSlots : list (option Q);
  spawnTimes : list Q;
}.

#[global] Instance eta_Engine : Eta Engine := fun e =>
  MkEngine (items e) (config e) (active e) (scheduleIndex e) (lastTime e) (laneHeight e) (bandTop e)
    (bandHeight e) (scrollLanes e) (topSlots e) (bottomSlots e) (spawnTimes e).

Record DanmakuRenderItem := MkRender { r_text : string; r_color : string; r_x : Q; r_y : Q }.

(** ** Searching the track

    [lowerBound]: the binary search of the first item not before a time, with fuel for
    its loop; the interval shrinks at each turn, so the length of the list is enough. *)
Fixpoint lowerBound_loop (fuel : nat) (l : list DanmakuItem) (t : Q) (low high : nat) : nat :=
  match fuel with
  | O => low
  | S fuel =>
      if (low <? high)%nat then
        let mid := Nat.div2 (low + high) in
        match l !! mid with
        | Some i => if Qlt_bool (time i) t then lowerBound_loop fuel l t (S mid) high
                    else lowerBound_loop fuel l t low mid
        | None => low
        end
      else low
  end.

Definition lowerBound (l : list DanmakuItem) (t : Q) : nat :=
  lowerBound_loop (S (length l)) l t 0 (length l).

(** ** Lanes *)

Definition band_from (c : Config) : Q := (AREA_BANDS (area c)).1.
Definition band_to (c : Config) : Q := (AREA_BANDS (area c)).2.

Definition rebuildLanes (e : Engine) : Engine :=
  let c := config e in
  let pitch := Qmax' 1 (fontPx c * LANE_HEIGHT_RATIO) in
  let band := Qmax' pitch (height c * (band_to c - band_from c)) in
  let lanes := Z.to_nat (Z.max 1 (Qfloor (band / pitch) - 1)) in
  e <| laneHeight := pitch |> <| bandTop := (height c * band_from c)%Q |>
    <| bandHeight := band |> <| scrollLanes := replicate lanes None |>
    <| topSlots := replicate lanes None |> <| bottomSlots := replicate lanes None |>.

Definition laneY (e : Engine) (index : nat) : Q :=
  (bandTop e + inject_Z (Z.of_nat index + 1) * laneHeight e)%Q.

Definition slotY (e : Engine) (m : DanmakuMode) (index : nat) : Q :=
  let pitch := (inject_Z (Z.of_nat index + 1) * laneHeight e)%Q in
  match m with Top => bandTop e + pitch | _ => bandTop e + bandHeight e - pitch end%Q.

(** The width still to go of an occupant's trailing edge at time [t]. *)
Definition tail_of (w : Q) (o : ScrollOccupant) (t : Q) : Q :=
  (w - oc_v o * (t - oc_startTime o) + oc_textW o)%Q.

(** [findScrollLane]: the loop over the lanes from [i] on, with the oldest lane so far. *)
Fixpoint findScrollLane_loop (c : Config) (t v : Q) (lanes : list (option ScrollOccupant)) (i : nat)
    (oldest : option (nat * ScrollOccupant)) : option nat :=
  match lanes with
  | [] => if antiCollision c then None else fst <$> oldest
  | None :: _ => Some i
  | Some o :: rest =>
      if negb (antiCollision c) then
        let older := match oldest with
                     | None => true
                     | Some (_, o') => Qlt_bool (oc_startTime o) (oc_startTime o')
                     end in
        findScrollLane_loop c t v rest (S i) (if older then Some (i, o) else oldest)
      else if Qle_bool (tail_of (width c) o t) (width c * (oc_v o / v)) then Some i
      else findScrollLane_loop c t v rest (S i) oldest
  end.

Definition findScrollLane (e : Engine) (t v : Q) : option nat :=
  findScrollLane_loop (config e) t v (scrollLanes e) 0 None.

(** The first slot that is free at [t]. *)
Fixpoint find_slot (t : Q) (slots : list (option Q)) : option nat :=
  match slots with
  | [] => None
  | None :: _ => Some O
  | Some expire :: rest => if Qle_bool expire t then Some O else S <$> find_slot t rest
  end.

(** ** The scheduler *)

Definition seekTo (now : Q) (e : Engine) : Engine :=
  e <| active := [] |> <| scrollLanes ::= map (fun _ => None) |> <| topSlots ::= map (fun _ => None) |>
    <| bottomSlots ::= map (fun _ => None) |> <| spawnTimes := [] |>
    <| scheduleIndex := lowerBound (items e) now |> <| lastTime := Some now |>.

Definition reset (e : Engine) : Engine := (seekTo 0 e) <| lastTime := None |>.

Definition setItems (l : list DanmakuItem) (e : Engine) : Engine := reset (e <| items := l |>).

Definition replaceItems (l : list DanmakuItem) (e : Engine) : Engine :=
  let e := e <| items := l |> in
  match lastTime e with
  | Some t => e <| scheduleIndex := lowerBound l t |>
  | None => e
  end.

(** [value >= limit] and [value < limit] for a count and a configured number. *)
Definition reaches (n : nat) (limit : num) : bool :=
  match limit with
  | Fin q => Qle_bool q (inject_Z (Z.of_nat n))
  | Inf negative => negative
  | NaN => false
  end.

Definition withinDensity (e : Engine) : bool :=
  match maxPerSecond (config e) with
  | Fin q => Qlt_bool (inject_Z (Z.of_nat (length (spawnTimes e)))) q
  | _ => true
  end.

(** The comments accepted a second ago or more are shifted off. *)
Fixpoint recent (now : Q) (times : list Q) : list Q :=
  match times with
  | t :: rest => if Qle_bool 1 (now - t) then recent now rest else times
  | [] => []
  end.

Definition scroll_speed (c : Config) (w : Q) : Q :=
  ((width c + w) / (scrollDuration c / Qmax' (speed c) (1 # 10)))%Q.

Section Measure.
Context (measure : string -> Q -> Q).

Definition blocked (c : Config) (i : DanmakuItem) : bool :=
  match mode i with Scroll => blockScroll c | Top => blockTop c | Bottom => blockBottom c end
  || (blockColored c && bool_decide (toLowerCase (color i) <> "#ffffff"%string)).

Definition slots_of (m : DanmakuMode) (e : Engine) : list (option Q) :=
  match m with Top => topSlots e | _ => bottomSlots e end.
Definition set_slots (m : DanmakuMode) (l : list (option Q)) (e : Engine) : Engine :=
  match m with Top => e <| topSlots := l |> | _ => e <| bottomSlots := l |> end.

(** One comment of [spawn]: skipped, or put on a lane or slot if one is free. *)
Definition spawn_scroll (now : Q) (i : DanmakuItem) (e : Engine) : Engine :=
  let w := measure (text i) (fontPx (config e)) in
  let v := scroll_speed (config e) w in
  match findScrollLane e now v with
  | None => e
  | Some l =>
      e <| scrollLanes ::= <[l := Some (MkOccupant now w v)]> |>
        <| active ::= fun a => a ++ [MkActive i now w v (laneY e l) l (Inf false)] |>
        <| spawnTimes ::= fun t => t ++ [now] |>
  end.

Definition spawn_fixed (now : Q) (i : DanmakuItem) (e : Engine) : Engine :=
  let w := measure (text i) (fontPx (config e)) in
  match find_slot now (slots_of (mode i) e) with
  | None => e
  | Some l =>
      (set_slots (mode i) (<[l := Some (now + FIXED_DURATION)%Q]> (slots_of (mode i) e)) e)
        <| active ::= fun a =>
             a ++ [MkActive i now w 0 (slotY e (mode i) l) l (Fin (now + FIXED_DURATION))] |>
        <| spawnTimes ::= fun t => t ++ [now] |>
  end.

Definition spawn_item (now : Q) (i : DanmakuItem) (e : Engine) : Engine :=
  if reaches (length (active e)) (maxOnScreen (config e)) || negb (withinDensity e) then e
  else if blocked (config e) i then e
  else match mode i with Scroll => spawn_scroll now i e | _ => spawn_fixed now i e end.

(** The loop of [spawn] over the items from [scheduleIndex] on. *)
Fixpoint spawn_loop (now : Q) (rest : list DanmakuItem) (e : Engine) : Engine :=
  match rest with
  | [] => e
  | i :: rest =>
      if Qlt_bool now (time i) then e
      else spawn_loop now rest (spawn_item now i (e <| scheduleIndex ::= S |>))
  end.

Definition spawn (now : Q) (e : Engine) : Engine :=
  let e := e <| spawnTimes ::= recent now |> in
  spawn_loop now (drop (scheduleIndex e) (items e)) e.

(** ** Drawing *)

Definition x_of (c : Config) (now : Q) (a : ActiveItem) : Q :=
  match mode (item a) with
  | Scroll => width c - v a * (now - startTime a)
  | _ => (width c - textW a) / 2
  end%Q.

Definition gone (c : Config) (now : Q) (a : ActiveItem) : bool :=
  match mode (item a) with
  | Scroll => Qle_bool (x_of c now a + textW a) 0
  | _ => match expireAt a with Fin t => Qle_bool t now | Inf negative => negative | NaN => false end
  end.

Definition draw (c : Config) (now : Q) (a : ActiveItem) : DanmakuRenderItem :=
  MkRender (text (item a)) (color (item a)) (x_of c now a) (y a).

(** [render] walks from the last comment to the first, and drops those that left. *)
Definition render (now : Q) (e : Engine) : list DanmakuRenderItem * Engine :=
  let kept := List.filter (fun a => negb (gone (config e) now a)) (active e) in
  (map (draw (config e) now) (rev kept), e <| active := kept |>).

(** [tick]: the time it draws, then scheduling and drawing. *)
Definition tick_time (now : Q) (e : Engine) : Q * Engine :=
  match lastTime e with
  | None => (now, e <| scheduleIndex := lowerBound (items e) now |>)
  | Some last =>
      if Qlt_bool now last then
        if Qlt_bool BACKWARD_TOLERANCE_SECONDS (last - now) then (now, seekTo now e) else (last, e)
      else if Qlt_bool SEEK_GAP_SECONDS (now - last) then (now, seekTo now e) else (now, e)
  end.

Definition tick (now : Q) (e : Engine) : list DanmakuRenderItem * Engine :=
  let (now, e) := tick_time now e in
  render now ((spawn now e) <| lastTime := Some now |>).

Definition activeCount (e : Engine) : nat := length (active e).

(** ** Configuration changes *)

Definition jsnum_max (x : Q) (y : num) : Q := match y with Fin q => Qmax' x q | _ => x end.

(** One comment of [remapActive]. *)
Definition remap_item (e : Engine) (a : ActiveItem) : Engine :=
  let c := config e in
  match mode (item a) with
  | Scroll =>
      let w := measure (text (item a)) (fontPx c) in
      let v' := scroll_speed c w in
      let l := Nat.min (lane a) (length (scrollLanes e) - 1) in
      let a' := MkActive (item a) (startTime a) w v' (laneY e l) l (expireAt a) in
      let later := match scrollLanes e !! l with
                   | Some (Some o) => Qlt_bool (oc_startTime o) (startTime a)
                   | _ => true end in
      let e := e <| active ::= fun acc => acc ++ [a'] |> in
      if later then e <| scrollLanes ::= <[l := Some (MkOccupant (startTime a) w v')]> |> else e
  | m =>
      let slots := slots_of m e in
      let l := Nat.min (lane a) (length slots - 1) in
      let a' := MkActive (item a) (startTime a) (textW a) (v a) (slotY e m l) l (expireAt a) in
      let held := match slots !! l with Some (Some t) => t | _ => 0%Q end in
      (set_slots m (<[l := Some (jsnum_max held (expireAt a))]> slots) e)
        <| active ::= fun acc => acc ++ [a'] |>
  end.

Definition remapActive (e : Engine) : Engine :=
  if bool_decide (length (active e) = 0%nat) then e else
  fold_left remap_item (active e)
    (e <| active := [] |> <| scrollLanes ::= map (fun _ => None) |>
       <| topSlots ::= map (fun _ => None) |> <| bottomSlots ::= map (fun _ => None) |>).

Definition geometry_changed (c c' : Config) : bool :=
  negb (Qeq_bool (width c) (width c')) || negb (Qeq_bool (height c) (height c'))
  || negb (Qeq_bool (fontPx c) (fontPx c')) || bool_decide (area c <> area c').

Definition configure (partial : Config -> Config) (e : Engine) : Engine :=
  let previous := config e in
  let e := e <| config ::= partial |> in
  if geometry_changed previous (config e) then remapActive (rebuildLanes e) else e.

Definition construct (c : Config) : Engine :=
  rebuildLanes (MkEngine [] c [] 0 None 1 0 0 [] [] [] []).
End Measure.

End Danmaku.
