(* ===== verification/DanmakuTheorems.v ===== *)
(** * DanmakuTheorems: what the comment scheduler promises

    Comments of one lane keep clear of each other, the screen and the density stay within
    their limits, a paused picture is redrawn as it was, and the binary search finds what
    a walk over the track would. *)

From S2P Require Import Prelude Danmaku.
Import Danmaku.

(** ** The binary search *)

Lemma div2_between lo hi : (lo < hi)%nat -> (lo <= Nat.div2 (lo + hi) < hi)%nat.
Proof. intros. rewrite Nat.div2_div. split; [apply Nat.div_le_lower_bound|apply Nat.div_lt_upper_bound]; lia. Qed.

Definition sorted_items (l : list DanmakuItem) : Prop :=
  forall i j x y, (i <= j)%nat -> l !! i = Some x -> l !! j = Some y -> (time x <= time y)%Q.

Lemma lowerBound_loop_spec fuel l t lo hi :
  sorted_items l -> (hi - lo < fuel)%nat -> (lo <= hi <= length l)%nat ->
  (forall i x, (i < lo)%nat -> l !! i = Some x -> (time x < t)%Q) ->
  (forall i x, (hi <= i)%nat -> l !! i = Some x -> (t <= time x)%Q) ->
  let k := lowerBound_loop fuel l t lo hi in
  (k <= length l)%nat
  /\ (forall i x, (i < k)%nat -> l !! i = Some x -> (time x < t)%Q)
  /\ (forall i x, (k <= i)%nat -> l !! i = Some x -> (t <= time x)%Q).
Proof.
  intros Hs. revert lo hi. induction fuel as [|fuel IH]; intros lo hi Hf Hb Hlo Hhi; [lia|].
  simpl. destruct (lo <? hi)%nat eqn:Hlt.
  - apply Nat.ltb_lt in Hlt. pose proof (div2_between lo hi Hlt) as Hmid.
    set (mid := Nat.div2 (lo + hi)) in *.
    destruct (lookup_lt_is_Some_2 l mid) as [x Hx]; [lia|]. rewrite Hx.
    destruct (Qlt_bool (time x) t) eqn:Hc.
    + apply Qlt_bool_iff in Hc. apply IH; [lia|lia| |done].
      intros i z Hi Hz. assert (time z <= time x)%Q by (eapply (Hs i mid); [lia|done..]). lra.
    + apply Qlt_bool_false in Hc. apply IH; [lia|lia|done|].
      intros i z Hi Hz. assert (time x <= time z)%Q by (eapply (Hs mid i); [lia|done..]). lra.
  - apply Nat.ltb_ge in Hlt. assert (hi = lo) as -> by lia. split_and!; [lia|done|done].
Qed.

Lemma filter_prefix {A} (f : A -> bool) (l : list A) k :
  (k <= length l)%nat ->
  (forall i x, (i < k)%nat -> l !! i = Some x -> f x = true) ->
  (forall i x, (k <= i)%nat -> l !! i = Some x -> f x = false) ->
  length (List.filter f l) = k.
Proof.
  revert k. induction l as [|a l IH]; intros k Hk Ht Hf; simpl in *; [lia|].
  destruct k as [|k].
  - rewrite (Hf 0%nat a); [|lia|done]. apply (IH 0%nat); [lia|lia|].
    intros i x _ Hx. by apply (Hf (S i) x); [lia|].
  - rewrite (Ht 0%nat a); [|lia|done]. simpl. f_equal. apply IH; [lia| |].
    + intros i x Hi Hx. by apply (Ht (S i) x); [lia|].
    + intros i x Hi Hx. by apply (Hf (S i) x); [lia|].
Qed.

(** The binary search is the linear one.  On a track ordered by time, [lowerBound]
    returns the number of comments before the given time, so everything before the index
    is earlier and nothing from it on is; the fuel of the model's loop is enough. *)
Theorem lowerBound_correct l t :
  sorted_items l -> lowerBound l t = length (List.filter (fun i => Qlt_bool (time i) t) l).
Proof.
  intros Hs. unfold lowerBound.
  destruct (lowerBound_loop_spec (S (length l)) l t 0 (length l) Hs) as (H1 & H2 & H3);
    [lia|lia|intros; lia| |].
  { intros i x Hi Hx. apply lookup_lt_Some in Hx. lia. }
  symmetry. apply filter_prefix; [done| |].
  - intros i x Hi Hx. apply Qlt_bool_iff. by eapply H2.
  - intros i x Hi Hx. apply Qlt_bool_false. by eapply H3.
Qed.

(** ** Lanes

    Pairs of a list, in order. *)
Fixpoint pairs {A} (R : A -> A -> Prop) (l : list A) : Prop :=
  match l with
  | [] => True
  | a :: l => Forall (R a) l /\ pairs R l
  end.

Lemma pairs_snoc {A} (R : A -> A -> Prop) l b :
  pairs R (l ++ [b]) <-> pairs R l /\ Forall (fun a => R a b) l.
Proof.
  induction l as [|a l IH]; simpl.
  - by repeat split; constructor.
  - rewrite Forall_app, IH, !Forall_cons. repeat split; try tauto. constructor.
Qed.

Lemma Forall_filter' {A} (P : A -> Prop) f l : Forall P l -> Forall P (List.filter f l).
Proof. induction 1; simpl; [done|]. case_match; [by constructor|done]. Qed.

Lemma pairs_filter {A} (R : A -> A -> Prop) f l : pairs R l -> pairs R (List.filter f l).
Proof.
  induction l as [|a l IH]; [done|]. intros [H1 H2]. simpl. case_match; [|by apply IH].
  split; [by apply Forall_filter'|by apply IH].
Qed.

Lemma pairs_lookup {A} (R : A -> A -> Prop) l i j a b :
  pairs R l -> (i < j)%nat -> l !! i = Some a -> l !! j = Some b -> R a b.
Proof.
  revert i j. induction l as [|c l IH]; intros i j; [done|]. intros [H1 H2] Hij Hi Hj.
  destruct j as [|j]; [lia|]. destruct i as [|i]; simpl in *.
  - injection Hi as ->. rewrite Forall_forall in H1. apply H1. by eapply list_elem_of_lookup_2.
  - by apply (IH i j); [|lia|..].
Qed.

(** Where a scrolling comment's two edges are at a time. *)
Definition head_edge (c : Config) (a : ActiveItem) (t : Q) : Q := (width c - v a * (t - startTime a))%Q.
Definition tail_edge (c : Config) (a : ActiveItem) (t : Q) : Q := (head_edge c a t + textW a)%Q.

Definition same_lane (a b : ActiveItem) : Prop := mode (item a) = mode (item b) /\ lane a = lane b.

(** A later comment of the same lane: a scrolling one does not get to the left edge before
    the earlier one has left; a fixed one comes after the earlier one's time is up. *)
Definition after (c : Config) (a b : ActiveItem) : Prop :=
  same_lane a b ->
  match mode (item a) with
  | Scroll => (tail_edge c a (startTime b + width c / v b) <= 0)%Q
  | _ => exists t, expireAt a = Fin t /\ (t <= startTime b)%Q
  end.

(** What the lane tables say about a comment on screen. *)
Definition held (e : Engine) (a : ActiveItem) : Prop :=
  match mode (item a) with
  | Scroll => (0 < v a)%Q /\ exists o, scrollLanes e !! lane a = Some (Some o)
      /\ forall t, (tail_of (width (config e)) o t <= 0 -> tail_edge (config e) a t <= 0)%Q
  | m => exists t s, slots_of m e !! lane a = Some (Some s) /\ expireAt a = Fin t /\ (t <= s)%Q
  end.

Definition occupants_ok (e : Engine) : Prop :=
  forall l o, scrollLanes e !! l = Some (Some o) -> (0 < oc_v o)%Q.

Record lanes_ok (e : Engine) : Prop := {
  lk_pairs : pairs (after (config e)) (active e);
  lk_held : Forall (held e) (active e);
  lk_occ : occupants_ok e;
}.

Section Lanes.
Context (measure : string -> Q -> Q) (Hmeasure : forall s f, (0 <= measure s f)%Q).
Context (c : Config) (Hwidth : (0 < width c)%Q) (Hduration : (0 < scrollDuration c)%Q)
  (Hanti : antiCollision c = true).

Lemma scroll_speed_pos w : (0 <= w)%Q -> (0 < scroll_speed c w)%Q.
Proof.
  intros Hw. unfold scroll_speed.
  assert (Hs : (0 < Qmax' (speed c) (1 # 10))%Q).
  { unfold Qmax'. destruct (Qle_bool (speed c) (1 # 10)) eqn:Hq; [lra|].
    apply not_true_iff_false in Hq. rewrite Qle_bool_iff in Hq. lra. }
  apply Qlt_shift_div_l; [apply Qlt_shift_div_l; lra|]. lra.
Qed.

(** The lane found is empty, or its last comment is far enough ahead. *)
Lemma findScrollLane_spec t v lanes i old l :
  (0 < v)%Q -> findScrollLane_loop c t v lanes i old = Some l ->
  exists k, l = (i + k)%nat /\
    (lanes !! k = Some None
     \/ exists o, lanes !! k = Some (Some o) /\ (tail_of (width c) o t <= width c * (oc_v o / v))%Q).
Proof.
  intros Hv. revert i old. induction lanes as [|[o|] lanes IH]; intros i old; simpl.
  - by rewrite Hanti.
  - rewrite Hanti. simpl. destruct (Qle_bool _ _) eqn:Hq.
    + intros [= <-]. exists 0%nat. split; [lia|]. right. exists o. split; [done|by apply Qle_bool_iff].
    + intros (k & -> & Hk)%IH. exists (S k). split; [lia|done].
  - intros [= <-]. exists 0%nat. split; [lia|by left].
Qed.

(** The check of [findScrollLane] is exactly what keeps the left edge clear. *)
Lemma tail_check o t v :
  (0 < v)%Q -> (tail_of (width c) o t <= width c * (oc_v o / v))%Q ->
  (tail_of (width c) o (t + width c / v) <= 0)%Q.
Proof.
  intros Hv. unfold tail_of. unfold Qdiv. intros H.
  assert (E : (oc_v o * (t + width c * / v - oc_startTime o)
    == oc_v o * (t - oc_startTime o) + width c * (oc_v o * / v))%Q) by ring.
  lra.
Qed.

(** A comment that has left the screen has had time to cross it. *)
Lemma gone_crossed s w v t :
  (0 < v)%Q -> (0 <= w)%Q -> (width c - v * (t - s) + w <= 0)%Q -> (s + width c / v <= t)%Q.
Proof.
  intros Hv Hw Hg. assert (Hd : (width c / v <= t - s)%Q) by (apply Qle_shift_div_r; nra). lra.
Qed.

Lemma tail_edge_mono a t t' : (0 < v a)%Q -> (t <= t')%Q -> (tail_edge c a t' <= tail_edge c a t)%Q.
Proof. intros. unfold tail_edge, head_edge. nra. Qed.

Definition ok (e : Engine) : Prop := config e = c /\ lanes_ok e.

Definition lanes_view (e : Engine) := (config e, active e, scrollLanes e, topSlots e, bottomSlots e).

Lemma ok_same e e' : lanes_view e' = lanes_view e -> ok e -> ok e'.
Proof.
  intros [= H1 H2 H3 H4 H5] [Hc [Hp Hh Ho]]. split; [congruence|].
  split; unfold occupants_ok in *; rewrite ?H1, ?H2, ?H3; try done.
  eapply Forall_impl; [exact Hh|]. intros a. unfold held, slots_of. by rewrite H1, H3, H4, H5.
Qed.

(** A comment is added behind everything its lane holds. *)
Lemma ok_add e e' b :
  ok e -> config e' = c -> active e' = active e ++ [b] ->
  Forall (fun a => after c a b) (active e) -> Forall (held e') (active e) -> held e' b ->
  occupants_ok e' -> ok e'.
Proof.
  intros [Hc [Hp Hh Ho]] Hc' Ha Hafter Hheld Hb Hocc. split; [done|]. split; rewrite ?Hc', ?Ha.
  - apply pairs_snoc. rewrite <- Hc at 1. by split.
  - apply Forall_app. by repeat constructor.
  - done.
Qed.

Lemma ok_spawn_scroll now i e : mode i = Scroll -> ok e -> ok (spawn_scroll measure now i e).
Proof.
  intros Hi He. pose proof He as [Hc [Hp Hh Ho]]. unfold spawn_scroll. cbv zeta. rewrite Hc.
  set (w := measure (text i) (fontPx c)).
  assert (Hw : (0 <= w)%Q) by apply Hmeasure. clearbody w.
  pose proof (scroll_speed_pos w Hw) as Hv. generalize dependent (scroll_speed c w). intros v Hv.
  destruct (findScrollLane e now v) as [l|] eqn:Hl; [|done].
  unfold findScrollLane in Hl. rewrite Hc in Hl.
  apply findScrollLane_spec in Hl as (k & -> & Hk); [|done]. rewrite Nat.add_0_l.
  assert (Hlt : (k < length (scrollLanes e))%nat)
    by (destruct Hk as [Hk|(o & Hk & _)]; by eapply lookup_lt_Some).
  set (b := MkActive i now w v (laneY e k) k (Inf false)).
  set (e' := _ <| scrollLanes ::= _ |> <| active ::= _ |> <| spawnTimes ::= _ |>).
  assert (Hafter : Forall (fun a => after c a b) (active e)).
  { eapply Forall_impl; [exact Hh|]. intros a Ha [Hm Hla]. simpl in Hm, Hla. rewrite Hi in Hm.
    unfold held in Ha. rewrite Hm, Hla, Hc in *. destruct Ha as (_ & o & Hlo & Hgone).
    destruct Hk as [Hk|(o' & Hk & Hcheck)]; rewrite Hk in Hlo; simplify_eq.
    apply Hgone. by apply tail_check. }
  eapply (ok_add e e' b); try done.
  - rewrite Forall_forall in Hh, Hafter. apply Forall_forall. intros a Ha. specialize (Hh a Ha).
    specialize (Hafter a Ha). unfold held, after in *. destruct (mode (item a)) eqn:Hm; try exact Hh.
    destruct Hh as (Hva & o & Hlo & Hgone). split; [done|].
    change (scrollLanes e') with (<[k := Some (MkOccupant now w v)]> (scrollLanes e)).
    change (config e') with (config e). rewrite Hc in *.
    destruct (decide (lane a = k)) as [Hk'|Hne].
    + exists (MkOccupant now w v). rewrite Hk', list_lookup_insert_eq by done. split; [done|].
      intros t Ht. unfold tail_of in Ht. simpl in Ht. apply gone_crossed in Ht; [|done..].
      assert (Hs : same_lane a b) by (split; simpl; congruence). specialize (Hafter Hs).
      pose proof (tail_edge_mono a _ _ Hva Ht). simpl in Hafter. lra.
    + exists o. by rewrite list_lookup_insert_ne by done.
  - unfold held. simpl. rewrite Hi. split; [done|]. exists (MkOccupant now w v).
    change (scrollLanes e') with (<[k := Some (MkOccupant now w v)]> (scrollLanes e)).
    rewrite list_lookup_insert_eq by done. split; [done|]. intros t.
    change (config e') with (config e). rewrite Hc. unfold tail_of, tail_edge, head_edge. simpl. lra.
  - intros l o. change (scrollLanes e') with (<[k := Some (MkOccupant now w v)]> (scrollLanes e)).
    destruct (decide (l = k)) as [->|Hne].
    + rewrite list_lookup_insert_eq by done. by intros [= <-].
    + rewrite list_lookup_insert_ne by done. apply Ho.
Qed.

Lemma find_slot_spec t slots l :
  find_slot t slots = Some l ->
  slots !! l = Some None \/ exists s, slots !! l = Some (Some s) /\ (s <= t)%Q.
Proof.
  revert l. induction slots as [|[s|] slots IH]; intros l; simpl; [done| |].
  - destruct (Qle_bool s t) eqn:Hq.
    + intros [= <-]. right. exists s. split; [done|by apply Qle_bool_iff].
    + destruct (find_slot t slots) as [k|] eqn:Hk; [|done]. intros [= <-]. by apply (IH k).
  - intros [= <-]. by left.
Qed.

Lemma ok_spawn_fixed now i e : mode i <> Scroll -> ok e -> ok (spawn_fixed measure now i e).
Proof.
  intros Hi He. pose proof He as [Hc [Hp Hh Ho]]. unfold spawn_fixed. cbv zeta.
  destruct (find_slot now (slots_of (mode i) e)) as [k|] eqn:Hk; [|done].
  apply find_slot_spec in Hk.
  set (b := MkActive i now _ _ _ k _).
  set (e' := _ <| active ::= _ |> <| spawnTimes ::= _ |>).
  assert (Hlt : (k < length (slots_of (mode i) e))%nat)
    by (destruct Hk as [Hk|(o & Hk & _)]; by eapply lookup_lt_Some).
  assert (Hsame : slots_of (mode i) e' = <[k := Some (now + FIXED_DURATION)%Q]> (slots_of (mode i) e))
    by (by destruct (mode i)).
  assert (Hother : forall m, m <> Scroll -> m <> mode i -> slots_of m e' = slots_of m e)
    by (by intros [] ? ?; destruct (mode i)).
  assert (Hlanes : scrollLanes e' = scrollLanes e /\ config e' = c /\ active e' = active e ++ [b])
    by (by destruct (mode i)).
  destruct Hlanes as (Hsl & Hc' & Hact). clearbody e'.
  assert (Hafter : Forall (fun a => after c a b) (active e)).
  { eapply Forall_impl; [exact Hh|]. intros a Ha [Hm Hla]. simpl in Hm, Hla. unfold held in Ha.
    rewrite Hm, Hla in *. destruct (mode i) eqn:Hmi; [done| |];
      (destruct Ha as (t & s & Hs & Ht & Hle); exists t; split; [done|];
       destruct Hk as [Hk|(s' & Hk & Hs')]; rewrite Hk in Hs; simplify_eq; simpl; lra). }
  eapply (ok_add e e' b); try done.
  - rewrite Forall_forall in Hh, Hafter. apply Forall_forall. intros a Ha. specialize (Hh a Ha).
    specialize (Hafter a Ha). unfold held, after in *. rewrite Hsl, Hc'. rewrite Hc in Hh.
    destruct (mode (item a)) eqn:Hm; [done| |].
    all: destruct Hh as (t & s & Hs & Ht & Hle).
    all: destruct (decide (mode (item a) = mode i)) as [Heq|Hne]; [|rewrite Hother by congruence; by exists t, s].
    all: rewrite <- Heq, Hm in Hsame, Hlt; rewrite Hsame.
    all: destruct (decide (lane a = k)) as [Hk'|Hne]; [|rewrite list_lookup_insert_ne by done; by exists t, s].
    all: rewrite Hk', list_lookup_insert_eq by done; exists t, (now + FIXED_DURATION)%Q; split_and!; try done.
    all: destruct Hafter as (t' & Ht' & Hle'); [by split; simpl; congruence|].
    all: rewrite Ht in Ht'; injection Ht' as <-; simpl in Hle'; unfold FIXED_DURATION; lra.
  - unfold held. change (item b) with i. change (lane b) with k.
    change (expireAt b) with (Fin (now + FIXED_DURATION)). destruct (mode i) eqn:Hmi; [done| |].
    all: rewrite Hsame, list_lookup_insert_eq by done; exists (now + FIXED_DURATION)%Q, (now + FIXED_DURATION)%Q; split_and!; try done; lra.
  - unfold occupants_ok. by rewrite Hsl.
Qed.

Lemma ok_spawn_item now i e : ok e -> ok (spawn_item measure now i e).
Proof.
  intros He. unfold spawn_item. repeat case_match; try done;
    first [by apply ok_spawn_scroll|apply ok_spawn_fixed; congruence].
Qed.

Lemma ok_spawn now e : ok e -> ok (spawn measure now e).
Proof.
  intros He. unfold spawn. cbv zeta. set (e1 := e <| spawnTimes ::= recent now |>).
  assert (H1 : ok e1) by by apply (ok_same e). clearbody e1. clear He.
  generalize (drop (scheduleIndex e1) (items e1)). intros rest. revert e1 H1.
  induction rest as [|i rest IH]; intros e1 H1; simpl; [done|]. case_match; [done|].
  apply IH, ok_spawn_item. by apply (ok_same e1).
Qed.

Lemma ok_render now e : ok e -> ok (render now e).2.
Proof.
  intros [Hc [Hp Hh Ho]]. split; [done|]. split; [by apply pairs_filter| |done].
  by apply Forall_filter'.
Qed.

Lemma lookup_map_none {A} (l : list (option A)) i x : map (fun _ => None : option A) l !! i = Some (Some x) -> False.
Proof. rewrite list_lookup_fmap. by destruct (l !! i). Qed.

Lemma ok_seekTo now e : config e = c -> ok (seekTo now e).
Proof.
  intros Hc. split; [done|]. split; [done|constructor|]. intros l o Hl.
  by apply lookup_map_none in Hl.
Qed.

Lemma ok_tick now e : ok e -> ok (tick measure now e).2.
Proof.
  intros He. unfold tick. destruct (tick_time now e) as [t e1] eqn:Ht.
  assert (H1 : ok e1).
  { unfold tick_time in Ht. pose proof (ok_seekTo now e (proj1 He)) as Hseek.
    repeat case_match; simplify_eq; try done. by apply (ok_same e). }
  apply ok_render. apply (ok_same (spawn measure t e1)); [done|]. by apply ok_spawn.
Qed.
End Lanes.

(** ** Runs with one configuration *)

Inductive playing_call := DTick (now : Q) | DSeek (now : Q) | DReset
  | DSetItems (l : list DanmakuItem) | DReplaceItems (l : list DanmakuItem).

Definition drive (measure : string -> Q -> Q) (k : playing_call) (e : Engine) : Engine :=
  match k with
  | DTick now => (tick measure now e).2
  | DSeek now => seekTo now e
  | DReset => reset e
  | DSetItems l => setItems l e
  | DReplaceItems l => replaceItems l e
  end.

(** The states of an engine built with a configuration and driven in any way but a change
    of it. *)
Inductive driven (measure : string -> Q -> Q) (c : Config) : Engine -> Prop :=
| driven_new : driven measure c (construct c)
| driven_step k e : driven measure c e -> driven measure c (drive measure k e).

Lemma lookup_replicate_none {A} n i (x : A) : replicate n (None : option A) !! i = Some (Some x) -> False.
Proof. intros [? _]%lookup_replicate. done. Qed.

Lemma driven_ok measure c e :
  (forall s f, (0 <= measure s f)%Q) -> (0 < width c)%Q -> (0 < scrollDuration c)%Q ->
  antiCollision c = true -> driven measure c e -> ok c e.
Proof.
  intros Hm Hw Hd Ha. induction 1 as [|k e _ He].
  - split; [done|]. split; [done|constructor|]. intros l o Hl. by apply lookup_replicate_none in Hl.
  - destruct k as [t|t| |l|l]; simpl.
    + by apply ok_tick.
    + apply ok_seekTo, He.
    + apply (ok_same c (seekTo 0 e)); [done|]. apply ok_seekTo, He.
    + set (e1 := e <| items := l |>). apply (ok_same c (seekTo 0 e1)); [done|].
      apply ok_seekTo. apply He.
    + unfold replaceItems. cbv zeta. destruct (lastTime _); by apply (ok_same c e).
Qed.

(** C22: Comments keep clear of each other.  Take any engine with collision avoidance, driven
    in any way with one configuration, and two comments on screen in the same lane, the
    second put there later.  Two fixed comments: the first one's time is up before the
    second appears.  Two scrolling ones: the first has left the screen before the second
    reaches the left edge; and if the second is at least as fast, that is, its text at
    least as long, they do not overlap at any time from its appearance on until the first
    has left. *)
Theorem danmaku_no_overlap measure c e i j a b :
  (forall s f, (0 <= measure s f)%Q) -> (0 < width c)%Q -> (0 < scrollDuration c)%Q ->
  antiCollision c = true -> driven measure c e ->
  active e !! i = Some a -> active e !! j = Some b -> (i < j)%nat -> same_lane a b ->
  match mode (item a) with
  | Scroll =>
      (tail_edge c a (startTime b + width c / v b) <= 0)%Q
      /\ ((v a <= v b)%Q -> forall t, (startTime b <= t)%Q ->
           (tail_edge c a t <= head_edge c b t \/ tail_edge c a t <= 0)%Q)
  | _ => exists t, expireAt a = Fin t /\ (t <= startTime b)%Q
  end.
Proof.
  intros Hm Hw Hd Hac Hdr Hi Hj Hij Hlane.
  destruct (driven_ok measure c e Hm Hw Hd Hac Hdr) as [Hc [Hp Hh _]]. rewrite Hc in Hp.
  pose proof (pairs_lookup _ _ _ _ _ _ Hp Hij Hi Hj Hlane) as Hafter.
  assert (Hha : held e a) by (eapply Forall_lookup_1; [exact Hh|exact Hi]).
  assert (Hhb : held e b) by (eapply Forall_lookup_1; [exact Hh|exact Hj]).
  destruct (mode (item a)) eqn:Hma; try exact Hafter. split; [exact Hafter|]. intros Hv t Ht.
  unfold held in Hha, Hhb. rewrite Hma in Hha. destruct Hlane as [Hmb _]. rewrite <- Hmb, Hma in Hhb.
  destruct Hha as (Hva & _), Hhb as (Hvb & _).
  unfold tail_edge, head_edge in *. set (x := (width c / v b)%Q) in *.
  assert (Hx : (x * v b == width c)%Q) by (subst x; field; lra). clearbody x.
  destruct (Qlt_le_dec (startTime b + x) t) as [Hlt|Hle]; [right; nra|left].
  set (d := (t - startTime b)%Q) in *. assert (Hd0 : (0 <= d <= x)%Q) by (subst d; split; lra).
  assert (E : (v a * (t - startTime a) == v a * (startTime b + x - startTime a) - v a * (x - d))%Q)
    by (subst d; ring).
  assert (F : (v a * (x - d) <= v b * (x - d))%Q) by nra. nra.
Qed.

(** ** A picture redrawn *)

Lemma recent_idemp t l : recent t (recent t l) = recent t l.
Proof.
  induction l as [|u l IH]; simpl; [done|]. destruct (Qle_bool 1 (t - u)) eqn:Hq; [done|].
  simpl. by rewrite Hq.
Qed.

Lemma recent_snoc t l : recent t l = l -> recent t (l ++ [t]) = l ++ [t].
Proof.
  destruct l as [|u l]; simpl.
  - intros _. assert (Hq : Qle_bool 1 (t - t) = false).
    { apply not_true_iff_false. rewrite Qle_bool_iff. lra. }
    by rewrite Hq.
  - destruct (Qle_bool 1 (t - u)) eqn:Hq; [|done]. intros H. exfalso.
    assert (Hlen : (length (recent t l) <= length l)%nat).
    { clear. induction l as [|w l IH]; simpl; [done|]. case_match; simpl; lia. }
    rewrite H in Hlen. simpl in Hlen. lia.
Qed.

Lemma spawn_item_frame measure t i e :
  let e' := spawn_item measure t i e in
  scheduleIndex e' = scheduleIndex e /\ items e' = items e /\ config e' = config e
  /\ (spawnTimes e' = spawnTimes e \/ spawnTimes e' = spawnTimes e ++ [t]).
Proof.
  unfold spawn_item, spawn_scroll, spawn_fixed. cbv zeta.
  repeat case_match; auto; by destruct (mode i); auto.
Qed.

(** After [spawn] nothing more is due: the next comment is later, and no accepted comment is
    a second old. *)
Lemma spawn_settled measure t e :
  let s := spawn measure t e in
  recent t (spawnTimes s) = spawnTimes s
  /\ (forall i, items s !! scheduleIndex s = Some i -> (t < time i)%Q).
Proof.
  unfold spawn. cbv zeta. set (e1 := e <| spawnTimes ::= recent t |>).
  assert (H1 : recent t (spawnTimes e1) = spawnTimes e1) by apply recent_idemp.
  clearbody e1. remember (drop (scheduleIndex e1) (items e1)) as rest eqn:Hr.
  revert e1 Hr H1. induction rest as [|i rest IH]; intros e1 Hr H1; simpl.
  - split; [done|]. intros i Hi. apply lookup_lt_Some in Hi.
    assert (Hl : length (drop (scheduleIndex e1) (items e1)) = 0%nat) by by rewrite <- Hr.
    rewrite length_drop in Hl. lia.
  - assert (Hi : items e1 !! scheduleIndex e1 = Some i).
    { rewrite <- (Nat.add_0_r (scheduleIndex e1)), <- lookup_drop. by rewrite <- Hr. }
    destruct (Qlt_bool t (time i)) eqn:Hq.
    + split; [done|]. intros j Hj. rewrite Hi in Hj. injection Hj as <-. by apply Qlt_bool_iff.
    + set (e2 := e1 <| scheduleIndex ::= S |>).
      destruct (spawn_item_frame measure t i e2) as (Hix & Hit & _ & Hsp). apply IH.
      * rewrite Hix, Hit. change (rest = drop (S (scheduleIndex e1)) (items e1)).
        change (S (scheduleIndex e1)) with (1 + scheduleIndex e1)%nat.
        rewrite Nat.add_comm, <- drop_drop, <- Hr. done.
      * change (spawnTimes e2) with (spawnTimes e1) in Hsp.
        destruct Hsp as [->| ->]; [done|by apply recent_snoc].
Qed.

Lemma filter_filter {A} (f : A -> bool) l : List.filter f (List.filter f l) = List.filter f l.
Proof. induction l as [|a l IH]; simpl; [done|]. destruct (f a) eqn:Hf; simpl; [by rewrite Hf, IH|done]. Qed.

Lemma tick_lastTime measure now e : lastTime (tick measure now e).2 = Some (tick_time now e).1.
Proof. unfold tick. by destruct (tick_time now e). Qed.

(** A paused picture stays.  Ticking again at the time that was just drawn, or up to half
    a second before it (the noise of the media clock), draws exactly the same comments in
    the same places and changes nothing. *)
Theorem danmaku_repaint measure e now now' drawn :
  lastTime (tick measure now e).2 = Some drawn ->
  now' = drawn \/ (drawn - (1 # 2) <= now' < drawn)%Q ->
  tick measure now' (tick measure now e).2 = tick measure now e.
Proof.
  intros Hlast Hnow. rewrite tick_lastTime in Hlast. injection Hlast as Hlast.
  unfold tick at 2 3. destruct (tick_time now e) as [t e1]. simpl in Hlast. subst drawn.
  destruct (spawn_settled measure t e1) as [Hrec Hnext].
  generalize dependent (spawn measure t e1). intros s Hrec Hnext.
  unfold render at 1 2. cbv zeta. cbn [snd].
  set (kept := List.filter _ _).
  set (s' := s <| lastTime := Some t |> <| active := kept |>).
  assert (Hs' : lastTime s' = Some t /\ config s' = config s /\ active s' = kept
    /\ items s' = items s /\ scheduleIndex s' = scheduleIndex s /\ spawnTimes s' = spawnTimes s)
    by done.
  destruct Hs' as (Hl & Hc & Ha & Hi & Hx & Ht).
  assert (Htime : tick_time now' s' = (t, s')).
  { unfold tick_time. rewrite Hl. destruct Hnow as [->|[Hlo Hhi]].
    - assert (H1 : Qlt_bool t t = false) by (apply Qlt_bool_false; lra).
      assert (H2 : Qlt_bool SEEK_GAP_SECONDS (t - t) = false)
        by (apply Qlt_bool_false; unfold SEEK_GAP_SECONDS; lra).
      by rewrite H1, H2.
    - assert (H1 : Qlt_bool now' t = true) by (apply Qlt_bool_iff; lra).
      assert (H2 : Qlt_bool BACKWARD_TOLERANCE_SECONDS (t - now') = false)
        by (apply Qlt_bool_false; unfold BACKWARD_TOLERANCE_SECONDS; lra).
      by rewrite H1, H2. }
  assert (Hsame : s' <| spawnTimes ::= recent t |> = s').
  { unfold over. rewrite Ht, Hrec, <- Ht. by destruct s'. }
  assert (Hspawn : spawn measure t s' = s').
  { unfold spawn. cbv zeta. rewrite Hsame, Hi, Hx.
    destruct (drop (scheduleIndex s) (items s)) as [|i rest] eqn:Hd; simpl; [done|].
    assert (Hit : items s !! scheduleIndex s = Some i).
    { rewrite <- (Nat.add_0_r (scheduleIndex s)), <- lookup_drop. by rewrite Hd. }
    apply Hnext, Qlt_bool_iff in Hit. by rewrite Hit. }
  unfold tick. rewrite Htime, Hspawn.
  assert (Hsame2 : s' <| lastTime := Some t |> = s') by (unfold over; rewrite <- Hl; by destruct s').
  rewrite Hsame2. unfold render. rewrite Hc, Ha. subst kept. cbv zeta.
  change (config (s <| lastTime := Some t |>)) with (config s).
  by rewrite filter_filter.
Qed.

(** ** Limits *)

(** How many comments on screen appeared after a time. *)
Definition count_since (t : Q) (e : Engine) : nat :=
  length (List.filter (fun a => Qlt_bool t (startTime a)) (active e)).

(** The accepted times account for every comment on screen but those a second old. *)
Definition accounted (t : Q) (e : Engine) : Prop :=
  exists pre, map startTime (active e) `sublist_of` (pre ++ spawnTimes e)
    /\ Forall (fun u => (u <= t - 1)%Q) pre.

Lemma sublist_filter_length {A} (f : A -> bool) l l' :
  l `sublist_of` l' -> (length (List.filter f l) <= length (List.filter f l'))%nat.
Proof. induction 1; simpl; [lia|case_match; simpl; lia|case_match; simpl; lia]. Qed.

Lemma filter_map_length {A B} (f : B -> bool) (g : A -> B) l :
  length (List.filter (fun a => f (g a)) l) = length (List.filter f (map g l)).
Proof. induction l as [|a l IH]; simpl; [done|]. case_match; simpl; lia. Qed.

Lemma filter_sublist {A} (f : A -> bool) l : List.filter f l `sublist_of` l.
Proof. induction l as [|a l IH]; simpl; [done|]. case_match; by constructor. Qed.

Lemma filter_le {A} (f : A -> bool) l : (length (List.filter f l) <= length l)%nat.
Proof. induction l; simpl; [lia|case_match; simpl; lia]. Qed.

Lemma accounted_count t e : accounted t e -> (count_since (t - 1) e <= length (spawnTimes e))%nat.
Proof.
  intros (pre & Hsub & Hpre). unfold count_since. rewrite (filter_map_length (Qlt_bool (t - 1)) startTime).
  etransitivity; [by apply sublist_filter_length|]. rewrite List.filter_app, length_app.
  assert (H0 : List.filter (Qlt_bool (t - 1)) pre = []).
  { clear Hsub. induction Hpre as [|u pre Hu _ IH]; simpl; [done|].
    assert (Hq : Qlt_bool (t - 1) u = false) by (apply Qlt_bool_false; exact Hu). by rewrite Hq. }
  rewrite H0. simpl. apply filter_le.
Qed.

Lemma recent_split t l : exists old, l = old ++ recent t l /\ Forall (fun u => (u <= t - 1)%Q) old.
Proof.
  induction l as [|u l (old & Hl & Hold)]; simpl; [by exists []|].
  destruct (Qle_bool 1 (t - u)) eqn:Hq.
  - apply Qle_bool_iff in Hq. exists (u :: old). simpl. split; [by f_equal|]. constructor; [lra|done].
  - by exists [].
Qed.

Section Limits.
Context (measure : string -> Q -> Q) (c : Config) (k d : Z).
Context (Hk : maxOnScreen c = Fin (inject_Z k)) (Hd : maxPerSecond c = Fin (inject_Z d)).

Record within (t : Q) (e : Engine) : Prop := {
  wi_config : config e = c;
  wi_screen : (Z.of_nat (length (active e)) <= Z.max 0 k);
  wi_second : (Z.of_nat (length (spawnTimes e)) <= Z.max 0 d);
  wi_acc : accounted t e;
}.

Definition limit_view (e : Engine) := (config e, active e, spawnTimes e).

Lemma within_same t e e' : limit_view e' = limit_view e -> within t e -> within t e'.
Proof. intros [= H1 H2 H3] [????]. split; unfold accounted in *; rewrite ?H1, ?H2, ?H3; assumption. Qed.

Lemma within_later t t' e : (t <= t')%Q -> within t e -> within t' e.
Proof.
  intros Ht [??? (pre & Hs & Hp)]. split; [done..|]. exists pre. split; [done|].
  eapply Forall_impl; [exact Hp|]. simpl. intros. lra.
Qed.

Lemma within_add t e e' b :
  within t e -> config e' = c -> active e' = active e ++ [b] -> spawnTimes e' = spawnTimes e ++ [t] ->
  startTime b = t -> reaches (length (active e)) (maxOnScreen c) = false -> withinDensity e = true ->
  within t e'.
Proof.
  intros [Hc Hs Hn (pre & Hsub & Hp)] Hc' Ha Hsp Hb Hr Hw. split; [done|..]; rewrite ?Ha, ?Hsp.
  - rewrite Hk in Hr. simpl in Hr. apply not_true_iff_false in Hr. rewrite Qle_bool_iff, <- Zle_Qle in Hr.
    rewrite length_app. simpl. lia.
  - unfold withinDensity in Hw. rewrite Hc, Hd in Hw. apply Qlt_bool_iff in Hw. rewrite <- Zlt_Qlt in Hw.
    rewrite length_app. simpl. lia.
  - exists pre. split; [|done]. rewrite Ha, Hsp, map_app, app_assoc. simpl. rewrite Hb.
    by apply sublist_app.
Qed.

Lemma within_spawn_item t i e : within t e -> within t (spawn_item measure t i e).
Proof.
  intros He. pose proof (wi_config _ _ He) as Hc. unfold spawn_item. rewrite Hc.
  destruct (_ || negb (withinDensity e)) eqn:Hg; [done|].
  apply orb_false_iff in Hg as [Hr Hw%negb_false_iff].
  assert (Hf : within t (spawn_fixed measure t i e)).
  { unfold spawn_fixed. cbv zeta. case_match; [|done].
    destruct (mode i); (eapply within_add; [exact He|exact Hc|reflexivity|reflexivity|done..]). }
  repeat case_match; try done. unfold spawn_scroll. cbv zeta. case_match; [|done].
  eapply within_add; [exact He|exact Hc|reflexivity|reflexivity|done..].
Qed.

Lemma within_spawn t e : within t e -> within t (spawn measure t e).
Proof.
  intros [Hc Hs Hn (pre & Hsub & Hp)]. unfold spawn. cbv zeta.
  set (e1 := e <| spawnTimes ::= recent t |>).
  destruct (recent_split t (spawnTimes e)) as (old & Hold & Hfor).
  assert (H1 : within t e1).
  { split; [done|done| |].
    - change (spawnTimes e1) with (recent t (spawnTimes e)). rewrite Hold in Hn.
      rewrite length_app in Hn. lia.
    - exists (pre ++ old). change (spawnTimes e1) with (recent t (spawnTimes e)).
      rewrite <- app_assoc, <- Hold. split; [done|by apply Forall_app]. }
  clearbody e1. generalize (drop (scheduleIndex e1) (items e1)). intros rest. revert e1 H1.
  induction rest as [|i rest IH]; intros e1 H1; simpl; [done|]. case_match; [done|].
  apply IH, within_spawn_item. by apply (within_same t e1).
Qed.

Lemma within_clear t e : config e = c -> active e = [] -> spawnTimes e = [] -> within t e.
Proof.
  intros Hc Ha Hs. split; [done|..]; rewrite ?Ha, ?Hs; simpl; [lia|lia|].
  exists []. rewrite Ha. split; [by apply sublist_nil_l|constructor].
Qed.

Lemma within_render t now e : within t e -> within t (render now e).2.
Proof.
  intros [Hc Hs Hn (pre & Hsub & Hp)]. set (kept := List.filter (fun a => negb (gone (config e) now a)) (active e)).
  assert (Hk' : (length kept <= length (active e))%nat) by apply filter_le.
  split; [done| |done|].
  - change (Z.of_nat (length kept) <= Z.max 0 k). lia.
  - exists pre. split; [|done]. etransitivity; [|exact Hsub]. change (map startTime kept `sublist_of` map startTime (active e)).
    apply fmap_sublist, filter_sublist.
Qed.

(** The limits, with the time up to which the accepted times are complete. *)
Definition limits_ok (e : Engine) : Prop :=
  match lastTime e with
  | Some t => within t e
  | None => config e = c /\ active e = [] /\ spawnTimes e = []
  end.

Lemma limits_tick now e : limits_ok e -> limits_ok (tick measure now e).2.
Proof.
  intros He. assert (Hc : config e = c).
  { unfold limits_ok in He. destruct (lastTime e); [apply He|by destruct He]. }
  unfold tick. destruct (tick_time now e) as [t e1] eqn:Ht.
  assert (H1 : within t e1).
  { unfold limits_ok in He. unfold tick_time in Ht. destruct (lastTime e) as [last|].
    - destruct (Qlt_bool now last) eqn:Hq.
      + case_match; simplify_eq; [by apply within_clear|done].
      + case_match; simplify_eq; [by apply within_clear|]. apply Qlt_bool_false in Hq.
        by eapply within_later.
    - destruct He as (? & ? & ?). injection Ht as <- <-. by apply within_clear. }
  change (within t (render t ((spawn measure t e1) <| lastTime := Some t |>)).2).
  apply within_render. apply (within_same t (spawn measure t e1)); [done|]. by apply within_spawn.
Qed.

Lemma limits_driven e : driven measure c e -> limits_ok e.
Proof.
  induction 1 as [|call e _ He]; [done|].
  assert (Hc : config e = c).
  { unfold limits_ok in He. destruct (lastTime e); [apply He|by destruct He]. }
  destruct call as [t|t| |l|l]; simpl.
  - by apply limits_tick.
  - by apply within_clear.
  - done.
  - done.
  - unfold limits_ok, replaceItems in *. cbv zeta.
    change (lastTime (e <| items := l |>)) with (lastTime e).
    destruct (lastTime e) as [t|] eqn:Hl; cbv iota.
    + change (lastTime (_ <| scheduleIndex := lowerBound l t |>)) with (lastTime e). rewrite Hl.
      by apply (within_same t e).
    + change (lastTime (e <| items := l |>)) with (lastTime e). by rewrite Hl.
Qed.
End Limits.

(** The screen and the density stay within their limits.  In any engine driven in any way
    with one configuration, there are never more comments on screen than [maxOnScreen],
    and of those on screen no more than [maxPerSecond] appeared within the second before
    the last time drawn. *)
Theorem danmaku_limits measure c k d e :
  maxOnScreen c = Fin (inject_Z k) -> maxPerSecond c = Fin (inject_Z d) -> 0 <= k -> 0 <= d ->
  driven measure c e ->
  Z.of_nat (activeCount e) <= k
  /\ forall t, lastTime e = Some t -> Z.of_nat (count_since (t - 1) e) <= d.
Proof.
  intros Hk Hd Hk0 Hd0 He%(limits_driven measure c k d Hk Hd). unfold limits_ok, activeCount in *.
  destruct (lastTime e) as [t|].
  - destruct He as [_ Hs Hn Hacc%accounted_count]. split; [lia|]. intros t' [= <-]. lia.
  - destruct He as (_ & -> & _). split; [simpl; lia|done].
Qed.

(** ** A screen

    A box of 500 by 100 pixels, ten pixels a character, ten seconds to cross it. *)
Section Sample.

Definition sample_config : Config :=
  MkConfig 500 100 20 10 1 true (Fin (inject_Z 3)) false false false false AreaFull (Fin (inject_Z 2)).

Definition sample_measure (s : string) (_ : Q) : Q := inject_Z (Z.of_nat (String.length s) * 10).

Definition long_text : string := "12345678901234567890123456789012345678901234567890".
Definition short_text : string := "12345".

Definition sample_track : list DanmakuItem :=
  [MkItem 0 Scroll "#ffffff" long_text; MkItem 1 Scroll "#ffffff" short_text;
   MkItem 2 Top "#ffffff" short_text].

Definition sample_frame (t : Q) (e : Engine) : Engine := drive sample_measure (DTick t) e.
Definition sample_engine : Engine :=
  sample_frame 2 (sample_frame 1 (sample_frame 0
    (drive sample_measure (DSetItems sample_track) (construct sample_config)))).
End Sample.

Lemma sample_driven : driven sample_measure sample_config sample_engine.
Proof. do 4 apply driven_step. apply driven_new. Qed.

Lemma sample_measure_pos s f : (0 <= sample_measure s f)%Q.
Proof. unfold sample_measure. change 0%Q with (inject_Z 0). rewrite <- Zle_Qle. lia. Qed.

(** The lane check only looks at the left edge, and so lets a shorter, slower comment start on
    top of a longer one.  Two seconds in, the short comment lies inside the long one, at the
    same height. *)
Theorem shorter_comment_overlaps :
  exists a b, active sample_engine !! 0%nat = Some a /\ active sample_engine !! 1%nat = Some b
    /\ same_lane a b /\ (y a == y b)%Q
    /\ (head_edge sample_config a 2 < head_edge sample_config b 2)%Q
    /\ (head_edge sample_config b 2 + textW b < tail_edge sample_config a 2)%Q.
Proof. do 2 eexists. split; [vm_compute; reflexivity|]. split; [vm_compute; reflexivity|]. vm_compute. repeat split. Qed.

(** ** The hypotheses can hold *)

Lemma lowerBound_correct_witness :
  lowerBound sample_track 1 = length (List.filter (fun i => Qlt_bool (time i) 1) sample_track).
Proof.
  refine (lowerBound_correct sample_track 1 _).
  intros i j x z Hij Hx Hz.
  destruct i as [|[|[|i]]], j as [|[|[|j]]]; simpl in *; simplify_eq; try lia; vm_compute; discriminate.
Defined.

Lemma danmaku_limits_witness :
  Z.of_nat (activeCount sample_engine) <= 3
  /\ forall t, lastTime sample_engine = Some t -> Z.of_nat (count_since (t - 1) sample_engine) <= 2.
Proof.
  refine (danmaku_limits sample_measure sample_config 3 2 sample_engine eq_refl eq_refl _ _ sample_driven);
    discriminate.
Defined.

Lemma danmaku_repaint_witness :
  tick sample_measure (9 # 5) (tick sample_measure 2 sample_engine).2
  = tick sample_measure 2 sample_engine.
Proof.
  refine (danmaku_repaint sample_measure sample_engine 2 (9 # 5) 2 _ _).
  - vm_compute. reflexivity.
  - right. split; vm_compute; [discriminate|reflexivity].
Defined.

Definition sample_comment (i : nat) : ActiveItem :=
  match active sample_engine !! i with
  | Some a => a
  | None => MkActive (MkItem 0 Scroll "" "") 0 0 0 0 0 NaN
  end.

Lemma danmaku_no_overlap_witness :
  match mode (item (sample_comment 0)) with
  | Scroll =>
      (tail_edge sample_config (sample_comment 0)
         (startTime (sample_comment 1) + width sample_config / v (sample_comment 1)) <= 0)%Q
      /\ ((v (sample_comment 0) <= v (sample_comment 1))%Q -> forall t, (startTime (sample_comment 1) <= t)%Q ->
           (tail_edge sample_config (sample_comment 0) t <= head_edge sample_config (sample_comment 1) t
            \/ tail_edge sample_config (sample_comment 0) t <= 0)%Q)
  | _ => exists t, expireAt (sample_comment 0) = Fin t /\ (t <= startTime (sample_comment 1))%Q
  end.
Proof.
  refine (danmaku_no_overlap sample_measure sample_config sample_engine 0 1 (sample_comment 0)
    (sample_comment 1) sample_measure_pos _ _ _ sample_driven _ _ _ _).
  - reflexivity.
  - reflexivity.
  - reflexivity.
  - vm_compute. reflexivity.
  - vm_compute. reflexivity.
  - lia.
  - vm_compute. split; reflexivity.
Defined.
