(* ===== verification/Preparation.v ===== *)
(** * Preparation: how a viewer gets ready for a common start

    [createPlaybackPreparation] of [client/src/util/playback-preparation.ts].  While a start
    round is on, the client brings its paused player to the round's position, waits for a
    picture and enough buffer, and reports ready.  Like the synchronisation engine it is
    cut at its awaits. *)

From S2P Require Import Prelude Types Async RoomModel.

Module Preparation.

Definition POSITION_TOLERANCE : Q := 1 # 4.
Definition MAX_REALIGNMENTS : Z := 2.

Inductive Phase := Idle | Aligning | Preparing | WaitingAck | Failed.
#[global] Instance Phase_eq : EqDecision Phase.
Proof. solve_decision. Defined.

(** A [PlaybackPreparation] as a client reads it.  A round without a list of eligible viewers
    comes from an older server. *)
Record Prep := MkPrep {
  p_id : string;
  p_clientId : ClientId;
  p_video : VideoId;
  p_position : num;
  p_eligible : option (list ClientId);
}.

(** The round a room of [server/room.ts] publishes. *)
Definition of_room (p : PlaybackPreparation) : Prep :=
  MkPrep (prep_id p) (prep_clientId p) (prep_video p) (Fin (prep_position p)) (Some (prep_eligible p)).

Record Loading := MkLoading { l_clear : bool; l_currentTime : option num; l_bufferAhead : option num }.

(** [PreparationInput]; a source is an object with its identity. *)
Record Input := MkInput {
  preparation : option Prep;
  clientId : ClientId;
  source : option (nat * VideoId);
  player : option nat;
  connected : bool;
  roomPlaying : bool;
  ready : bool;
  playing : bool;
  blocked : bool;
  error : bool;
  seeking : bool;
  recovering : bool;
  loading : option Loading;
  visible : option bool;
}.

Record World := MkWorld {
  getState : Input;
  getPosition : reading;
  setPosition : answer;
  pause : answer;
  sendReady_throws : bool;
  sendFailed_throws : bool;
}.

Record Context := MkContext { c_prep : Prep; c_source : nat; c_player : option nat }.

Inductive effect :=
| EChange (phase : Phase)
| EReady (id : string) (position : Q) (bufferAhead : option num)
| EFailed (id : string)
| EPause
| ESetPosition (p : num)
| EError.

(** What is left of a tick after an await; [initial] is its [initialPosition]. *)
Inductive continuation :=
| AfterPosition (request : nat) (generation : Z) (prep : Prep) (initial : bool) (known : option num)
| AfterPause (request : nat) (generation : Z) (prep : Prep) (initial : bool)
| AfterSet (request : nat) (generation : Z)
| AfterFreeze (request : nat) (generation : Z) (prep : Prep)
| AfterCheck (request : nat) (generation : Z) (prep : Prep) (known : option num)
| AfterFailPause.

Record Prepare := MkPrepare {
  context : option Context;
  phase : Phase;
  generation : Z;
  inFlight : option nat;
  positioned : bool;
  realignments : Z;
  cancelledId : option string;
  disposed : bool;
  symbols : nat;
  pending : list continuation;
  trace : list effect;
}.

#[global] Instance eta_Prepare : Eta Prepare := fun s =>
  MkPrepare (context s) (phase s) (generation s) (inFlight s) (positioned s) (realignments s)
    (cancelledId s) (disposed s) (symbols s) (pending s) (trace s).

Definition createPlaybackPreparation : Prepare :=
  MkPrepare None Idle 0 None false 0 None false 0 [] [].

Definition emit (e : effect) (s : Prepare) : Prepare := s <| trace ::= fun t => t ++ [e] |>.
Definition suspend (k : continuation) (s : Prepare) : Prepare := s <| pending ::= fun l => l ++ [k] |>.

Definition publish (next : Phase) (s : Prepare) : Prepare :=
  if decide (phase s = next) then s else emit (EChange next) (s <| phase := next |>).

(** ** Whose round it is *)

Definition eligible (p : Prep) (client : ClientId) : bool :=
  match p_eligible p with
  | Some l => bool_decide (client ∈ l)
  | None => bool_decide (p_clientId p = client)
  end.

Definition isOwner (s : Prepare) (state : Input) : bool :=
  match preparation state, source state with
  | Some p, Some (_, video) =>
      negb (disposed s) && connected state && negb (bool_decide (visible state = Some false))
      && negb (roomPlaying state) && bool_decide (clientId state <> ""%string)
      && negb (bool_decide (Some (p_id p) = cancelledId s)) && eligible p (clientId state)
      && bool_decide (p_video p = video)
      && match p_position p with Fin q => Qle_bool 0 q | _ => false end
  | _, _ => false
  end.

(** [===] on numbers. *)
Definition num_eq (x y : num) : bool :=
  match x, y with
  | Fin a, Fin b => Qeq_bool a b
  | Inf a, Inf b => bool_decide (a = b)
  | _, _ => false
  end.

Definition matches (s : Prepare) (state : Input) : bool :=
  isOwner s state &&
  match context s, preparation state, source state with
  | Some c, Some p, Some (object, _) =>
      bool_decide (p_id (c_prep c) = p_id p)
      && bool_decide (p_clientId (c_prep c) = clientId state)
      && num_eq (p_position (c_prep c)) (p_position p)
      && bool_decide (c_source c = object) && bool_decide (c_player c = player state)
  | _, _, _ => false
  end.

Definition reconcile (w : World) (s : Prepare) : Prepare :=
  let state := getState w in
  if matches s state then s else
  let next := match preparation state, source state with
              | Some p, Some (object, _) =>
                  if isOwner s state then Some (MkContext p object (player state)) else None
              | _, _ => None
              end in
  publish (if decide (next = None) then Idle else Aligning)
    (s <| generation ::= Z.succ |> <| inFlight := None |> <| positioned := false |>
       <| realignments := 0 |> <| context := next |>).

(** ** The gates *)

Definition hasFrame (state : Input) : bool :=
  match loading state with
  | Some l => l_clear l && match l_currentTime l with Some t => isFinite t | None => false end
  | None => false
  end.

Definition canPosition (state : Input) : bool := ready state && negb (error state) && negb (seeking state).
Definition usable (state : Input) : bool := canPosition state && negb (recovering state).

Definition canContinue (initial : bool) (state : Input) : bool :=
  if initial then canPosition state else usable state.

(** [current] of the tick that made [request]. *)
Definition current (w : World) (request : nat) (g : Z) (s : Prepare) : bool :=
  (generation s =? g) && bool_decide (inFlight s = Some request) && matches s (getState w).

Definition finally (request : nat) (s : Prepare) : Prepare :=
  if bool_decide (inFlight s = Some request) then s <| inFlight := None |> else s.

(** ** Failing *)

Definition fail_pause (w : World) (s : Prepare) : Prepare :=
  let s := emit EPause s in
  match pause w with
  | Threw => emit EError s
  | Done => s
  | Promised => suspend AfterFailPause s
  end.

Definition fail (w : World) (s : Prepare) : Prepare :=
  let state := getState w in
  if negb (matches s state) then s else
  let s := publish Failed (s <| generation ::= Z.succ |> <| inFlight := None |>) in
  let s := match preparation state with
           | Some p => let s := emit (EFailed (p_id p)) s in
                       if sendFailed_throws w then emit EError s else s
           | None => s
           end in
  fail_pause w (emit EError s).

(** The [catch] of a tick, then its [finally]. *)
Definition caught (w : World) (request : nat) (g : Z) (s : Prepare) : Prepare :=
  finally request (if current w request g s then fail w s else s).

(** [await options.pause()] and [await options.getPosition()] of a tick. *)
Definition await_pause (w : World) (request : nat) (g : Z) (k : continuation) (s : Prepare) : Prepare :=
  let s := emit EPause s in
  match pause w with
  | Threw => caught w request g s
  | _ => suspend k s
  end.

Definition await_position (w : World) (request : nat) (g : Z) (k : option num -> continuation)
    (s : Prepare) : Prepare :=
  match getPosition w with
  | ReadThrew => caught w request g s
  | ReadNow p => suspend (k (Some p)) s
  | ReadLater => suspend (k None) s
  end.

(** ** The tick *)

(** Away from the round's position by more than the tolerance. *)
Definition off_position (p : Prep) (here : Q) : bool :=
  match p_position p with
  | Fin q => Qlt_bool POSITION_TOLERANCE (Qabs' (here - q))
  | Inf _ => true
  | NaN => false
  end.

Definition short_buffer (state : Input) : bool :=
  match loading state, source state with
  | Some l, Some (_, video) =>
      match l_bufferAhead l with
      | Some (Fin b) => Qlt_bool b (playbackReadyBufferSeconds (vid_service video))
      | Some (Inf negative) => negative
      | _ => false
      end
  | _, _ => false
  end.

(** Not at the position yet: pause, then move; only so often once it has been reached. *)
Definition realign (w : World) (request : nat) (g : Z) (p : Prep) (initial : bool) (s : Prepare)
    : Prepare :=
  let too_often := positioned s && (MAX_REALIGNMENTS <=? realignments s) in
  let s := if positioned s then s <| realignments ::= Z.succ |> else s in
  if too_often then caught w request g s
  else await_pause w request g (AfterPause request g p initial) (publish Aligning s).

(** At the position: wait for a picture and the buffer, then freeze the player. *)
Definition settle_position (w : World) (request : nat) (g : Z) (p : Prep) (s : Prepare) : Prepare :=
  let s := publish Preparing (s <| positioned := true |>) in
  let latest := getState w in
  if negb (usable latest) || negb (playing latest) || blocked latest || negb (hasFrame latest)
  then finally request s
  else if short_buffer latest then finally request (publish Preparing s)
  else await_pause w request g (AfterFreeze request g p) (publish WaitingAck s).

Definition after_position (w : World) (request : nat) (g : Z) (p : Prep) (initial : bool)
    (position : option num) (s : Prepare) : Prepare :=
  match position with
  | None => caught w request g s
  | Some position =>
      if negb (current w request g s) || negb (canContinue initial (getState w)) then finally request s
      else match position with
      | Fin here =>
          if Qlt_bool here 0 then caught w request g s
          else if off_position p here then realign w request g p initial s
          else settle_position w request g p s
      | _ => caught w request g s
      end
  end.

Definition after_pause (w : World) (request : nat) (g : Z) (p : Prep) (initial failed : bool)
    (s : Prepare) : Prepare :=
  if failed then caught w request g s
  else if negb (current w request g s) || negb (canContinue initial (getState w)) then finally request s
  else
    let s := emit (ESetPosition (p_position p)) s in
    match setPosition w with
    | Threw => caught w request g s
    | _ => suspend (AfterSet request g) s
    end.

Definition after_set (w : World) (request : nat) (g : Z) (failed : bool) (s : Prepare) : Prepare :=
  if failed then caught w request g s
  else if negb (current w request g s) then finally request s
  else finally request (publish Preparing (s <| positioned := true |>)).

(** Frozen: the state is looked at again before and after the last reading. *)
Definition still_good (w : World) (request : nat) (g : Z) (s : Prepare) : bool :=
  current w request g s && usable (getState w) && negb (blocked (getState w)).

Definition back_to_preparing (w : World) (request : nat) (g : Z) (s : Prepare) : Prepare :=
  finally request (if current w request g s then publish Preparing s else s).

Definition after_freeze (w : World) (request : nat) (g : Z) (p : Prep) (failed : bool)
    (s : Prepare) : Prepare :=
  if failed then caught w request g s
  else if negb (still_good w request g s) then back_to_preparing w request g s
  else await_position w request g (AfterCheck request g p) s.

Definition after_check (w : World) (request : nat) (g : Z) (p : Prep) (position : option num)
    (s : Prepare) : Prepare :=
  match position with
  | None => caught w request g s
  | Some position =>
      if negb (still_good w request g s) then back_to_preparing w request g s
      else match position with
      | Fin here =>
          if off_position p here then finally request (publish Preparing s)
          else if sendReady_throws w then caught w request g s
          else finally request
                 (emit (EReady (p_id p) here (loading (getState w) ≫= l_bufferAhead)) s)
      | _ => finally request (publish Preparing s)
      end
  end.

Definition tick (w : World) (s : Prepare) : Prepare :=
  let s := reconcile w s in
  let state := getState w in
  match context s with
  | None => s
  | Some c =>
      if bool_decide (inFlight s <> None) || bool_decide (phase s = Failed)
         || bool_decide (phase s = WaitingAck) || negb (canPosition state)
         || (positioned s && (negb (usable state) || negb (hasFrame state) || negb (playing state)
                              || blocked state))
      then s
      else
        let request := symbols s in
        let s := s <| symbols ::= S |> <| inFlight := Some request |> in
        await_position w request (generation s)
          (AfterPosition request (generation s) (c_prep c) (negb (positioned s))) s
  end.

Definition retry (w : World) (s : Prepare) : Prepare :=
  let s := reconcile w s in
  match context s with
  | None => s
  | Some _ => publish Aligning (s <| generation ::= Z.succ |> <| inFlight := None |>
                                  <| positioned := false |> <| realignments := 0 |>)
  end.

Definition cancel (w : World) (s : Prepare) : Prepare :=
  reconcile w (s <| cancelledId := p_id <$> preparation (getState w) |>).

Definition dispose (w : World) (s : Prepare) : Prepare := reconcile w (s <| disposed := true |>).

(** ** Steps *)

Definition resume (w : World) (k : continuation) (o : outcome) (s : Prepare) : Prepare :=
  match k with
  | AfterPosition r g p initial known => after_position w r g p initial (settled known o) s
  | AfterPause r g p initial => after_pause w r g p initial (rejected o) s
  | AfterSet r g => after_set w r g (rejected o) s
  | AfterFreeze r g p => after_freeze w r g p (rejected o) s
  | AfterCheck r g p known => after_check w r g p (settled known o) s
  | AfterFailPause => if rejected o then emit EError s else s
  end.

Inductive call := Tick | Retry | Cancel | Fail | Dispose | Resume (i : nat) (o : outcome).

Definition run (w : World) (c : call) (s : Prepare) : Prepare :=
  match c with
  | Tick => tick w s
  | Retry => retry w s
  | Cancel => cancel w s
  | Fail => fail w s
  | Dispose => dispose w s
  | Resume i o =>
      match pending s !! i with
      | Some k => resume w k o (s <| pending ::= delete i |>)
      | None => s
      end
  end.

Inductive reachable : Prepare -> Prop :=
| reach_new : reachable createPlaybackPreparation
| reach_run w c s : reachable s -> reachable (run w c s).

End Preparation.
