(* ===== verification/PreparationTheorems.v ===== *)
(** * PreparationTheorems: what a viewer's preparation promises

    A reading in flight is always waited for; a report of readiness is honest; a viewer that
    is where it should be does report, if it is the one the round names.  The last
    condition is a fault: the other viewers of a round never report. *)

From S2P Require Import Prelude Types Async RoomModel Preparation.
Import Preparation.

(** ** What is logged *)

Definition ready_of (e : effect) : option (string * Q) :=
  match e with EReady i p _ => Some (i, p) | _ => None end.

(** The reports of readiness sent so far. *)
Definition reports (s : Prepare) : list (string * Q) := omap ready_of (trace s).

Lemma reports_emit e s : ready_of e = None -> reports (emit e s) = reports s.
Proof. intros He. unfold reports, emit. simpl. rewrite omap_app. simpl. by rewrite He, app_nil_r. Qed.

Lemma reports_suspend k s : reports (suspend k s) = reports s.
Proof. done. Qed.

Lemma reports_publish ph s : reports (publish ph s) = reports s.
Proof. unfold publish. case_decide; [done|]. by rewrite reports_emit. Qed.

Lemma reports_finally r s : reports (finally r s) = reports s.
Proof. unfold finally. by case_match. Qed.

Lemma reports_fail w s : reports (fail w s) = reports s.
Proof.
  unfold fail, fail_pause. cbv zeta. case_match; [done|].
  set (s1 := publish Failed _). assert (H1 : reports s1 = reports s) by (subst s1; by rewrite reports_publish).
  clearbody s1. rewrite <- H1.
  repeat case_match; rewrite ?reports_emit by done; try done;
    unfold suspend, reports; simpl; rewrite ?omap_app; simpl; by rewrite ?app_nil_r.
Qed.

Lemma reports_caught w r g s : reports (caught w r g s) = reports s.
Proof. unfold caught. rewrite reports_finally. case_match; [apply reports_fail|done]. Qed.

Lemma reports_await_pause w r g k s : reports (await_pause w r g k s) = reports s.
Proof.
  unfold await_pause. cbv zeta. rewrite <- (reports_emit EPause s) by done.
  case_match; try done. apply reports_caught.
Qed.

Lemma reports_await_position w r g k s : reports (await_position w r g k s) = reports s.
Proof. unfold await_position. case_match; try done. apply reports_caught. Qed.

Lemma reports_reconcile w s : reports (reconcile w s) = reports s.
Proof. unfold reconcile. cbv zeta. case_match; [done|]. by rewrite reports_publish. Qed.

#[export] Hint Rewrite reports_suspend reports_publish reports_finally reports_fail reports_caught reports_await_pause
  reports_await_position reports_reconcile : reports.

Lemma reports_tick w s : reports (tick w s) = reports s.
Proof.
  unfold tick. cbv zeta. rewrite <- (reports_reconcile w s). generalize (reconcile w s). intros s1.
  repeat case_match; try done. by rewrite reports_await_position.
Qed.

Lemma reports_after_position w r g p initial pos s : reports (after_position w r g p initial pos s) = reports s.
Proof.
  unfold after_position, realign, settle_position. cbv zeta.
  repeat case_match; autorewrite with reports; done.
Qed.

Lemma reports_after_pause w r g p initial failed s : reports (after_pause w r g p initial failed s) = reports s.
Proof.
  unfold after_pause. cbv zeta. repeat case_match; autorewrite with reports; try done; by rewrite reports_emit by done.
Qed.

Lemma reports_after_set w r g failed s : reports (after_set w r g failed s) = reports s.
Proof. unfold after_set. repeat case_match; autorewrite with reports; done. Qed.

Lemma reports_back w r g s : reports (back_to_preparing w r g s) = reports s.
Proof. unfold back_to_preparing. case_match; autorewrite with reports; done. Qed.

Lemma reports_after_freeze w r g p failed s : reports (after_freeze w r g p failed s) = reports s.
Proof.
  unfold after_freeze. repeat case_match; autorewrite with reports; try done. apply reports_back.
Qed.

(** The one place that reports. *)
Lemma reports_after_check w r g p pos s :
  reports (after_check w r g p pos s) = reports s
  \/ exists here, pos = Some (Fin here) /\ still_good w r g s = true /\ off_position p here = false
     /\ reports (after_check w r g p pos s) = reports s ++ [(p_id p, here)].
Proof.
  unfold after_check. destruct pos as [pos|]; [|left; apply reports_caught].
  destruct (still_good w r g s) eqn:Hg; cbn [negb]; [|left; apply reports_back].
  destruct pos as [here| |]; try (left; by rewrite reports_finally, reports_publish).
  destruct (off_position p here) eqn:Ho; [left; by rewrite reports_finally, reports_publish|].
  case_match; [left; apply reports_caught|]. right. exists here. split_and!; try done.
  rewrite reports_finally. unfold reports, emit. simpl. by rewrite omap_app.
Qed.

Lemma reports_run w c s :
  reports (run w c s) = reports s
  \/ exists i o r g p known here,
      c = Resume i o /\ pending s !! i = Some (AfterCheck r g p known)
      /\ settled known o = Some (Fin here)
      /\ still_good w r g (s <| pending ::= delete i |>) = true /\ off_position p here = false
      /\ reports (run w c s) = reports s ++ [(p_id p, here)].
Proof.
  destruct c as [| | | | |i o]; cbn [run].
  - left. apply reports_tick.
  - left. unfold retry. cbv zeta. rewrite <- (reports_reconcile w s). generalize (reconcile w s).
    intros s1. case_match; [|done]. by rewrite reports_publish.
  - left. unfold cancel. by rewrite reports_reconcile.
  - left. apply reports_fail.
  - left. unfold dispose. by rewrite reports_reconcile.
  - destruct (pending s !! i) as [k|] eqn:Hi; [|by left].
    set (s1 := s <| pending ::= delete i |>). change (reports s) with (reports s1).
    destruct k as [r g p init known|r g p init|r g|r g p|r g p known|]; cbn [resume].
    + left. apply reports_after_position.
    + left. apply reports_after_pause.
    + left. apply reports_after_set.
    + left. apply reports_after_freeze.
    + destruct (reports_after_check w r g p (settled known o) s1) as [H|(here & H1 & H2 & H3 & H4)]; [by left|].
      right. by exists i, o, r, g, p, known, here.
    + left. case_match; [by rewrite reports_emit|done].
Qed.

(** ** What a suspended tick remembers

    A tick's generation is that of the context it works for: as long as the generation
    stands, so does the round it was begun with. *)

Definition stamp_of (k : continuation) : option (Z * Prep) :=
  match k with
  | AfterPosition _ g p _ _ | AfterPause _ g p _ | AfterFreeze _ g p | AfterCheck _ g p _ => Some (g, p)
  | AfterSet _ _ | AfterFailPause => None
  end.

Definition tagged (s : Prepare) (g : Z) (p : Prep) : Prop :=
  g <= generation s /\ (g = generation s -> exists c, context s = Some c /\ c_prep c = p).

Definition tags_ok (s : Prepare) : Prop :=
  forall k g p, k ∈ pending s -> stamp_of k = Some (g, p) -> tagged s g p.

(** [s'] comes after [s]: the context changes only with the generation, and what is
    suspended in between belongs to the round of its generation; a context that is new
    holds the round there is now. *)

Section Grows.
Context (w : World).

Record grows (s s' : Prepare) : Prop := {
  gr_gen : generation s <= generation s';
  gr_context : generation s' = generation s -> context s' = context s;
  gr_pending : forall k g p, k ∈ pending s' -> stamp_of k = Some (g, p) ->
    k ∈ pending s \/ tagged s' g p;
  gr_from : context s' = context s \/
    forall c, context s' = Some c -> preparation (getState w) = Some (c_prep c);
}.

Lemma tagged_grows s s' g p : grows s s' -> tagged s g p -> tagged s' g p.
Proof.
  intros [Hg Hc _ _] [H1 H2]. split; [lia|]. intros ->. rewrite Hc by lia. apply H2. lia.
Qed.

Lemma tags_grows s s' : grows s s' -> tags_ok s -> tags_ok s'.
Proof.
  intros H Hs k g p Hk Hst. destruct (gr_pending _ _ H k g p Hk Hst) as [Hk'|]; [|done].
  eapply tagged_grows; [exact H|by eapply Hs].
Qed.

#[export] Instance grows_preorder : PreOrder grows.
Proof.
  split.
  - intros s. split; [lia|done|by left|by left].
  - intros s1 s2 s3 H12 H23. pose proof H12 as [G1 C1 P1 F1]. pose proof H23 as [G2 C2 P2 F2]. split; [lia| | |].
    + intros. rewrite C2 by lia. apply C1. lia.
    + intros k g p Hk Hst. destruct (P2 k g p Hk Hst) as [Hk'|]; [|by right].
      destruct (P1 k g p Hk' Hst) as [|Ht]; [by left|right]. by eapply tagged_grows.
    + destruct F2 as [->|F2]; [done|by right].
Qed.

Definition core (s : Prepare) := (generation s, context s, pending s).

Lemma grows_same s s' : core s' = core s -> grows s s'.
Proof. intros [= H1 H2 H3]. split; rewrite ?H1, ?H2, ?H3; [lia|done|by left|by left]. Qed.

Lemma grows_suspend k s :
  (forall g p, stamp_of k = Some (g, p) -> tagged s g p) -> grows s (suspend k s).
Proof.
  intros Hk. split; [cbn; lia|done| |by left]. intros k' g p Hk' Hst.
  apply elem_of_app in Hk' as [|Hk']; [by left|right]. apply list_elem_of_singleton in Hk' as ->.
  by apply Hk.
Qed.

Lemma grows_publish ph s : grows s (publish ph s).
Proof. unfold publish. case_decide; by apply grows_same. Qed.

Lemma grows_finally r s : grows s (finally r s).
Proof. unfold finally. case_match; by apply grows_same. Qed.

(** A new generation, whatever the context: nothing suspended is of it. *)
Lemma grows_new s s' :
  generation s' = generation s + 1 -> pending s' = pending s ->
  (context s' = context s \/ forall c, context s' = Some c -> preparation (getState w) = Some (c_prep c)) ->
  grows s s'.
Proof. intros Hg Hp Hf. split; [lia|lia| |done]. rewrite Hp. by left. Qed.

Lemma grows_reconcile s : grows s (reconcile w s).
Proof.
  unfold reconcile. cbv zeta. case_match; [done|]. etransitivity; [|apply grows_publish].
  apply grows_new; [done|done|]. right. intros c. cbn.
  repeat case_match; intros; simplify_eq; done.
Qed.

Lemma grows_fail s : grows s (fail w s).
Proof.
  unfold fail, fail_pause. cbv zeta. case_match; [done|].
  set (s1 := publish Failed _).
  assert (H1 : grows s s1) by (etransitivity; [|apply grows_publish]; apply grows_new; [done|done|by left]).
  clearbody s1. etransitivity; [exact H1|].
  repeat case_match; try by apply grows_same.
  all: etransitivity; [|by apply grows_suspend]; by apply grows_same.
Qed.

Lemma grows_caught r g s : grows s (caught w r g s).
Proof. unfold caught. etransitivity; [|apply grows_finally]. case_match; [apply grows_fail|done]. Qed.

Lemma grows_await_pause r g k s :
  (forall g p, stamp_of k = Some (g, p) -> tagged s g p) -> grows s (await_pause w r g k s).
Proof.
  intros Hk. unfold await_pause. cbv zeta. set (s1 := emit EPause s).
  assert (H1 : grows s s1) by by apply grows_same.
  assert (Hk1 : forall g p, stamp_of k = Some (g, p) -> tagged s1 g p)
    by (intros; eapply tagged_grows; [exact H1|by apply Hk]).
  clearbody s1. etransitivity; [exact H1|].
  case_match; first [by apply grows_suspend|apply grows_caught].
Qed.

Lemma grows_await_position r g k s :
  (forall kn g p, stamp_of (k kn) = Some (g, p) -> tagged s g p) -> grows s (await_position w r g k s).
Proof.
  intros Hk. unfold await_position. case_match; first [apply grows_caught|apply grows_suspend; apply Hk].
Qed.

(** The tag of a tick survives what it publishes. *)
Lemma tagged_same s s' g p : core s' = core s -> tagged s g p -> tagged s' g p.
Proof. intros [= H1 H2 _]. unfold tagged. by rewrite H1, H2. Qed.

Lemma tagged_publish ph s g p : tagged s g p -> tagged (publish ph s) g p.
Proof. intros. eapply tagged_grows; [apply grows_publish|done]. Qed.

Lemma grows_after_position r g p initial pos s :
  tagged s g p -> grows s (after_position w r g p initial pos s).
Proof.
  intros Ht. unfold after_position. destruct pos as [pos|]; [|apply grows_caught].
  case_match; [apply grows_finally|].
  destruct pos as [here| |]; try apply grows_caught.
  case_match; [apply grows_caught|]. case_match.
  - unfold realign. cbv zeta. set (s1 := if positioned s then _ else s).
    assert (Hs1 : core s1 = core s) by (subst s1; by case_match). clearbody s1.
    apply (tagged_same _ _ _ _ Hs1) in Ht. etransitivity; [by apply grows_same|].
    case_match; [apply grows_caught|]. etransitivity; [apply grows_publish|].
    apply grows_await_pause. intros ? ? [= <- <-]. by apply tagged_publish.
  - unfold settle_position. cbv zeta. set (s1 := publish Preparing _).
    assert (Hs1 : grows s s1) by (etransitivity; [|apply grows_publish]; by apply grows_same).
    apply (tagged_grows _ _ _ _ Hs1) in Ht. clearbody s1. etransitivity; [exact Hs1|].
    case_match; [apply grows_finally|].
    case_match; [etransitivity; [apply grows_publish|apply grows_finally]|].
    etransitivity; [apply grows_publish|]. apply grows_await_pause.
    intros ? ? [= <- <-]. by apply tagged_publish.
Qed.

Lemma grows_after_pause r g p initial failed s : grows s (after_pause w r g p initial failed s).
Proof.
  unfold after_pause. cbv zeta. set (s1 := emit _ s). assert (H1 : grows s s1) by by apply grows_same.
  clearbody s1.
  repeat case_match; try apply grows_caught; try apply grows_finally;
    (etransitivity; [exact H1|]; first [apply grows_caught|by apply grows_suspend]).
Qed.

Lemma grows_after_set r g failed s : grows s (after_set w r g failed s).
Proof.
  unfold after_set. case_match; [apply grows_caught|]. case_match; [apply grows_finally|].
  etransitivity; [|apply grows_finally]. etransitivity; [|apply grows_publish]. by apply grows_same.
Qed.

Lemma grows_back r g s : grows s (back_to_preparing w r g s).
Proof.
  unfold back_to_preparing. etransitivity; [|apply grows_finally]. case_match; [apply grows_publish|done].
Qed.

Lemma grows_after_freeze r g p failed s :
  tagged s g p -> grows s (after_freeze w r g p failed s).
Proof.
  intros Ht. unfold after_freeze. case_match; [apply grows_caught|]. case_match; [apply grows_back|].
  apply grows_await_position. by intros ? ? ? [= <- <-].
Qed.

Lemma grows_after_check r g p pos s : grows s (after_check w r g p pos s).
Proof.
  unfold after_check. repeat case_match; try apply grows_caught; try apply grows_back;
    (etransitivity; [|apply grows_finally]); first [apply grows_publish|by apply grows_same].
Qed.

Lemma grows_tick s : grows s (tick w s).
Proof.
  unfold tick. cbv zeta. etransitivity; [apply grows_reconcile|]. generalize (reconcile w s). intros s1.
  destruct (context s1) as [c|] eqn:Hc; [|reflexivity]. case_match; [reflexivity|].
  set (s2 := s1 <| symbols ::= S |> <| inFlight := _ |>).
  assert (H2 : core s2 = core s1) by done. assert (Hc2 : context s2 = Some c) by done. clearbody s2.
  etransitivity; [by apply grows_same|]. apply grows_await_position.
  intros ? ? ? [= <- <-]. split; [lia|]. intros _. by exists c.
Qed.

Lemma grows_run c s : tags_ok s -> grows s (run w c s).
Proof.
  intros Hs. destruct c as [| | | | |i o]; cbn [run].
  - apply grows_tick.
  - unfold retry. cbv zeta. etransitivity; [apply grows_reconcile|].
    generalize (reconcile w s). intros s1. case_match; [|reflexivity].
    etransitivity; [|apply grows_publish]. apply grows_new; [done|done|by left].
  - unfold cancel. etransitivity; [|apply grows_reconcile]. by apply grows_same.
  - apply grows_fail.
  - unfold dispose. etransitivity; [|apply grows_reconcile]. by apply grows_same.
  - destruct (pending s !! i) as [k|] eqn:Hi; [|reflexivity].
    assert (Hk : forall g p, stamp_of k = Some (g, p) -> tagged s g p)
      by (intros g p Hst; eapply Hs; [by eapply list_elem_of_lookup_2|done]).
    set (s1 := s <| pending ::= delete i |>).
    assert (H1 : grows s s1).
    { split; [cbn; lia|done| |by left]. intros k' g p Hk' Hst. left.
      rewrite (delete_Permutation _ _ _ Hi). by right. }
    change (forall g p, stamp_of k = Some (g, p) -> tagged s1 g p) in Hk. clearbody s1.
    etransitivity; [exact H1|].
    destruct k as [r g p init known|r g p init|r g|r g p|r g p known|]; cbn [resume].
    + apply grows_after_position. by apply Hk.
    + apply grows_after_pause.
    + apply grows_after_set.
    + apply grows_after_freeze. by apply Hk.
    + apply grows_after_check.
    + case_match; [by apply grows_same|reflexivity].
Qed.
End Grows.

Lemma reachable_tags s : reachable s -> tags_ok s.
Proof.
  induction 1 as [|w c s _ Hs]; [|by eapply tags_grows; [apply (grows_run w)|]].
  intros k g p Hk. by apply not_elem_of_nil in Hk.
Qed.

(** ** A reading in flight is waited for *)

#[export] Instance prepare_waiting : Waiting Prepare continuation := {|
  w_inFlight := inFlight;
  w_pending := pending;
  w_symbols := symbols;
  w_generation := generation;
  w_request k := match k with
                 | AfterPosition r _ _ _ _ | AfterPause r _ _ _ | AfterSet r _ | AfterFreeze r _ _
                 | AfterCheck r _ _ _ => Some r
                 | AfterFailPause => None
                 end;
  w_stamp _ := None;
|}.

Lemma flight_publish q ph s : flight_owed q s -> flight_owed q (publish ph s).
Proof. unfold publish. case_decide; [done|]. by apply flight_same. Qed.

Lemma prep_flight_finally q r s : q = Some r \/ q = None -> flight_owed q s -> flight (finally r s).
Proof.
  intros [->| ->] Hs; unfold finally.
  - apply (flight_end r s); cbn; try done; by case_bool_decide.
  - case_bool_decide; [by apply (flight_none None s)|done].
Qed.

Lemma prep_flight_suspend r k s : w_request k = Some r -> flight_owed (Some r) s -> flight (suspend k s).
Proof. intros Hk. by apply (flight_wait r k). Qed.

Lemma flight_reconcile w s : flight s -> flight (reconcile w s).
Proof.
  intros Hs. unfold reconcile. cbv zeta. case_match; [done|]. apply flight_publish.
  by apply (flight_reset None s).
Qed.

Lemma flight_fail q w s : flight_owed q s -> flight_owed q (fail w s).
Proof.
  intros Hs. unfold fail, fail_pause. cbv zeta. case_match; [done|].
  set (s1 := publish Failed _).
  assert (H1 : flight_owed q s1) by (by apply flight_publish, (flight_reset q s)).
  clearbody s1.
  assert (Hx : forall s2, flight_owed q s2 -> flight_owed q (suspend AfterFailPause s2)).
  { intros s2. apply (flight_detached q s2 _ [AfterFailPause]); try done. by repeat constructor. }
  repeat case_match; try apply Hx; by apply (flight_same q s1).
Qed.

Lemma flight_caught w r g s : flight_owed (Some r) s -> flight (caught w r g s).
Proof.
  intros Hs. unfold caught. eapply (prep_flight_finally (Some r)); [by left|].
  case_match; [by apply flight_fail|done].
Qed.

Lemma flight_await_pause w r g k s :
  w_request k = Some r -> flight_owed (Some r) s -> flight (await_pause w r g k s).
Proof.
  intros Hk Hs. unfold await_pause. cbv zeta. set (s1 := emit EPause s).
  assert (H1 : flight_owed (Some r) s1) by exact (flight_same _ s s1 eq_refl Hs).
  case_match; first [by apply (prep_flight_suspend r)|by apply flight_caught].
Qed.

Lemma flight_await_position w r g k s :
  (forall kn, w_request (k kn) = Some r) -> flight_owed (Some r) s -> flight (await_position w r g k s).
Proof.
  intros Hk Hs. unfold await_position.
  case_match; first [by apply (prep_flight_suspend r)|by apply flight_caught].
Qed.

Lemma flight_over r s : flight_owed (Some r) s -> flight (finally r s).
Proof. apply prep_flight_finally. by left. Qed.

Lemma flight_after_position w r g p initial pos s :
  flight_owed (Some r) s -> flight (after_position w r g p initial pos s).
Proof.
  intros Hs. unfold after_position. destruct pos as [pos|]; [|by apply flight_caught].
  case_match; [by apply flight_over|].
  destruct pos as [here| |]; try by apply flight_caught.
  case_match; [by apply flight_caught|]. case_match.
  - unfold realign. cbv zeta. set (s1 := if positioned s then _ else s).
    assert (Hs1 : flight_owed (Some r) s1) by (subst s1; case_match; [by apply (flight_same _ s)|done]).
    clearbody s1. case_match; [by apply flight_caught|]. by apply flight_await_pause, flight_publish.
  - unfold settle_position. cbv zeta. set (s1 := publish Preparing _).
    assert (Hs1 : flight_owed (Some r) s1) by (apply flight_publish; by apply (flight_same _ s)).
    clearbody s1. case_match; [by apply flight_over|].
    case_match; [by apply flight_over, flight_publish|by apply flight_await_pause, flight_publish].
Qed.

Lemma flight_back w r g s : flight_owed (Some r) s -> flight (back_to_preparing w r g s).
Proof.
  intros Hs. unfold back_to_preparing. apply flight_over. case_match; [by apply flight_publish|done].
Qed.

Lemma prep_flight_resume w k o s : flight_owed (w_request k) s -> flight (resume w k o s).
Proof.
  destruct k as [r g p init known|r g p init|r g|r g p|r g p known|]; cbn [w_request prepare_waiting resume];
    intros Hs.
  - by apply flight_after_position.
  - unfold after_pause. cbv zeta. set (s1 := emit _ s).
    assert (H1 : flight_owed (Some r) s1) by exact (flight_same _ s s1 eq_refl Hs). clearbody s1.
    repeat case_match; first [by apply flight_caught|by apply flight_over|by apply (prep_flight_suspend r)].
  - unfold after_set. repeat case_match; first [by apply flight_caught|by apply flight_over|idtac].
    apply flight_over, flight_publish. by apply (flight_same _ s).
  - unfold after_freeze. repeat case_match;
      first [by apply flight_caught|by apply flight_back|by apply flight_await_position].
  - unfold after_check. repeat case_match;
      first [by apply flight_caught|by apply flight_back|by apply flight_over, flight_publish|idtac].
    apply flight_over. by apply (flight_same _ s).
  - case_match; [by apply (flight_same _ s)|done].
Qed.

Lemma prep_flight_run w c s : flight s -> flight (run w c s).
Proof.
  intros Hs. destruct c as [| | | | |i o]; cbn [run].
  - unfold tick. cbv zeta. apply (flight_reconcile w) in Hs. generalize dependent (reconcile w s).
    intros s1 H1. case_match; [|done]. case_match; [done|].
    set (s2 := s1 <| symbols ::= S |> <| inFlight := Some (symbols s1) |>).
    assert (H2 : flight_owed (Some (symbols s1)) s2) by exact (flight_begin s1 s2 eq_refl eq_refl eq_refl H1).
    clearbody s2. by apply flight_await_position.
  - unfold retry. cbv zeta. apply (flight_reconcile w) in Hs. generalize dependent (reconcile w s).
    intros s1 H1. case_match; [|done]. apply flight_publish. by apply (flight_reset None s1).
  - apply flight_reconcile. by apply (flight_same None s).
  - by apply flight_fail.
  - apply flight_reconcile. by apply (flight_same None s).
  - destruct (pending s !! i) as [k|] eqn:Hi; [|done].
    apply prep_flight_resume. set (s1 := s <| pending ::= delete i |>).
    exact (flight_take i k s s1 eq_refl eq_refl eq_refl eq_refl Hi Hs).
Qed.

Lemma reachable_flight s : reachable s -> flight s.
Proof.
  induction 1 as [|w c s _ Hs]; [|by apply prep_flight_run].
  by split; simpl; try constructor; intros; match goal with H : _ ∈ [] |- _ => apply not_elem_of_nil in H | _ => idtac end.
Qed.

(** ** The properties *)

Lemma still_good_spec w r g s :
  still_good w r g s = true ->
  generation s = g /\ inFlight s = Some r /\ matches s (getState w) = true
  /\ usable (getState w) = true /\ blocked (getState w) = false.
Proof.
  unfold still_good, current. rewrite !andb_true_iff, negb_true_iff, bool_decide_eq_true, Z.eqb_eq. tauto.
Qed.

Lemma off_position_near p here q :
  num_eq (p_position p) (Fin q) = true -> off_position p here = false ->
  (Qabs' (here - q) <= POSITION_TOLERANCE)%Q.
Proof.
  unfold num_eq, off_position. destruct (p_position p) as [x| |]; try done.
  intros Hq%Qeq_bool_iff Ho. apply Qlt_bool_false in Ho.
  unfold Qabs' in *. destruct (Qle_bool 0 (here - x)) eqn:H1, (Qle_bool 0 (here - q)) eqn:H2;
    try apply Qle_bool_iff in H1; try apply Qle_bool_iff in H2;
    try (apply not_true_iff_false in H1; rewrite Qle_bool_iff in H1);
    try (apply not_true_iff_false in H2; rewrite Qle_bool_iff in H2); lra.
Qed.

(** What a report of readiness says of the viewer that sends it. *)
Record really_ready (s : Prepare) (st : Input) (prep : Prep) (here : Q) : Prop := {
  rr_round : preparation st = Some prep;
  rr_live : disposed s = false /\ cancelledId s <> Some (p_id prep);
  rr_viewer : connected st = true /\ visible st <> Some false /\ eligible prep (clientId st) = true;
  rr_room : roomPlaying st = false;
  rr_source : exists object, source st = Some (object, p_video prep);
  rr_player : ready st = true /\ error st = false /\ seeking st = false /\ recovering st = false
    /\ blocked st = false;
  rr_position : exists q, p_position prep = Fin q /\ (Qabs' (here - q) <= 1 # 4)%Q;
}.

Lemma matches_ready s st c here :
  matches s st = true -> context s = Some c -> usable st = true -> blocked st = false ->
  off_position (c_prep c) here = false ->
  exists prep, p_id prep = p_id (c_prep c) /\ really_ready s st prep here.
Proof.
  unfold matches, isOwner. intros Hm Hc Hu Hb Ho. rewrite Hc in Hm.
  destruct (preparation st) as [prep|] eqn:Hp; [|done].
  destruct (source st) as [[object video]|] eqn:Hs; [|done].
  rewrite !andb_true_iff, !negb_true_iff, !bool_decide_eq_true, !bool_decide_eq_false in Hm.
  destruct Hm as [[[[[[[[[? ?] ?] ?] ?] ?] ?] Hv] Hpos] [[[[Hid ?] Hnum] ?] ?]].
  unfold usable, canPosition in Hu. rewrite !andb_true_iff, !negb_true_iff in Hu.
  destruct Hu as [[[? ?] ?] ?].
  destruct (p_position prep) as [q| |] eqn:Hq; try done.
  exists prep. split; [done|]. split; [done|by split; [|congruence]|done|done| |done|].
  - rewrite Hv. by exists object.
  - exists q. split; [done|]. by eapply off_position_near.
Qed.

(** ** Where a reading comes from

    A tick that is frozen for its last look, and one that waits for what it then reads, are
    traced back to the steps that left them waiting. *)

(** A run of calls, each with the answers it gets. *)
Definition drive (steps : list (World * call)) (s : Prepare) : Prepare :=
  fold_left (fun s wc => run wc.1 wc.2 s) steps s.

Definition plain (k : continuation) : Prop :=
  match k with AfterFreeze _ _ _ | AfterCheck _ _ _ _ => False | _ => True end.

Definition quiet (s s' : Prepare) : Prop := forall k, k ∈ pending s' -> k ∈ pending s \/ plain k.

#[export] Instance quiet_preorder : PreOrder quiet.
Proof.
  split; [by left|]. intros s1 s2 s3 H12 H23 k Hk. destruct (H23 k Hk) as [Hk'|]; [by apply H12|by right].
Qed.

Lemma quiet_same s s' : pending s' = pending s -> quiet s s'.
Proof. intros H k. rewrite H. by left. Qed.
Lemma pending_suspend k k' s : k ∈ pending (suspend k' s) -> k ∈ pending s \/ k = k'.
Proof. intros [?|Hk%list_elem_of_singleton]%elem_of_app; [by left|by right]. Qed.
Lemma quiet_suspend k s : plain k -> quiet s (suspend k s).
Proof. intros Hp k' [? | ->]%pending_suspend; [by left|by right]. Qed.
Lemma pending_publish ph s : pending (publish ph s) = pending s.
Proof. unfold publish. by case_decide. Qed.
Lemma pending_finally r s : pending (finally r s) = pending s.
Proof. unfold finally. by case_match. Qed.
Lemma quiet_reconcile w s : quiet s (reconcile w s).
Proof. apply quiet_same. unfold reconcile. cbv zeta. case_match; [done|]. by rewrite pending_publish. Qed.
Lemma quiet_fail w s : quiet s (fail w s).
Proof.
  unfold fail, fail_pause. cbv zeta. case_match; [done|].
  set (s1 := publish Failed _). assert (H1 : quiet s s1) by (apply quiet_same; subst s1; by rewrite pending_publish).
  clearbody s1. etransitivity; [exact H1|].
  repeat case_match; try by apply quiet_same.
  all: etransitivity; [|by apply quiet_suspend]; by apply quiet_same.
Qed.
Lemma quiet_caught w r g s : quiet s (caught w r g s).
Proof.
  unfold caught. etransitivity; [|apply quiet_same, pending_finally]. case_match; [apply quiet_fail|done].
Qed.
Lemma quiet_back w r g s : quiet s (back_to_preparing w r g s).
Proof.
  unfold back_to_preparing. etransitivity; [|apply quiet_same, pending_finally].
  case_match; [apply quiet_same, pending_publish|done].
Qed.
Lemma quiet_await_pause w r g k s : plain k -> quiet s (await_pause w r g k s).
Proof.
  intros Hp. unfold await_pause. cbv zeta. set (s1 := emit EPause s).
  assert (H1 : quiet s s1) by by apply quiet_same. clearbody s1. etransitivity; [exact H1|].
  case_match; first [by apply quiet_suspend|apply quiet_caught].
Qed.

(** The step that leaves [k] waiting: one that has just paused the player, and one that asks
    for its position once that pause is through. *)
Definition born (w : World) (c : call) (s : Prepare) (k : continuation) : Prop :=
  match k with
  | AfterFreeze r g p => pause w <> Threw /\ last (trace (run w c s)) = Some EPause
  | AfterCheck r g p known =>
      exists i o, c = Resume i o /\ pending s !! i = Some (AfterFreeze r g p) /\ rejected o = false
        /\ match known with Some x => getPosition w = ReadNow x | None => getPosition w = ReadLater end
  | _ => True
  end.

Lemma plain_born w c s k : plain k -> born w c s k.
Proof. by destruct k. Qed.

Lemma await_pause_waits w r g k k' s : k' ∈ pending (await_pause w r g k s) ->
  k' ∈ pending s \/ plain k' \/ (k' = k /\ pause w <> Threw /\ last (trace (await_pause w r g k s)) = Some EPause).
Proof.
  unfold await_pause. cbv zeta. destruct (pause w) eqn:Hp; intros Hk.
  2: { destruct (quiet_caught w r g (emit EPause s) k' Hk); [by left|by right; left]. }
  all: apply pending_suspend in Hk as [? | ->]; [by left|right; right; split; [done|]; split; [done|]].
  all: unfold suspend, emit; simpl; apply last_snoc.
Qed.

Lemma after_position_waits w r g p initial pos s k : k ∈ pending (after_position w r g p initial pos s) ->
  k ∈ pending s \/ plain k
  \/ (k = AfterFreeze r g p /\ pause w <> Threw /\ last (trace (after_position w r g p initial pos s)) = Some EPause).
Proof.
  assert (Hq : forall s', quiet s s' -> k ∈ pending s' -> k ∈ pending s \/ plain k \/
    (k = AfterFreeze r g p /\ pause w <> Threw /\ last (trace s') = Some EPause)) by (intros s' H Hk; destruct (H k Hk); auto).
  unfold after_position. destruct pos as [pos|]; [|apply Hq, quiet_caught].
  destruct (_ || _); [apply Hq, quiet_same, pending_finally|].
  destruct pos as [here| |]; [|apply Hq, quiet_caught..].
  destruct (Qlt_bool here 0); [apply Hq, quiet_caught|].
  destruct (off_position p here).
  - unfold realign. cbv zeta. set (s1 := if positioned s then _ else s).
    assert (H1 : quiet s s1) by (subst s1; case_match; by apply quiet_same). clearbody s1. apply Hq.
    case_match; [by etransitivity; [exact H1|apply quiet_caught]|].
    etransitivity; [exact H1|]. etransitivity; [apply quiet_same, (pending_publish Aligning)|by apply quiet_await_pause].
  - unfold settle_position. cbv zeta. set (s1 := publish Preparing _).
    assert (H1 : pending s1 = pending s) by (subst s1; by rewrite pending_publish). clearbody s1.
    destruct (_ || _); [apply Hq, quiet_same; by rewrite pending_finally|].
    destruct (short_buffer _); [apply Hq, quiet_same; by rewrite pending_finally, pending_publish|].
    intros Hk. apply await_pause_waits in Hk. rewrite pending_publish, H1 in Hk. naive_solver.
Qed.

Lemma after_freeze_waits w r g p failed s k : k ∈ pending (after_freeze w r g p failed s) ->
  k ∈ pending s \/ plain k \/ exists known, k = AfterCheck r g p known /\ failed = false
    /\ match known with Some x => getPosition w = ReadNow x | None => getPosition w = ReadLater end.
Proof.
  unfold after_freeze. intros Hk. destruct failed; [destruct (quiet_caught _ _ _ _ _ Hk); auto|].
  destruct (negb _); [destruct (quiet_back _ _ _ _ _ Hk); auto|].
  unfold await_position in Hk. destruct (getPosition w) as [x| |] eqn:Hx; [|destruct (quiet_caught _ _ _ _ _ Hk); auto|].
  - apply pending_suspend in Hk as [? | ->]; [by left|]. right. right. by exists (Some x).
  - apply pending_suspend in Hk as [? | ->]; [by left|]. right. right. by exists None.
Qed.

Lemma run_waits w c s k : k ∈ pending (run w c s) -> k ∈ pending s \/ born w c s k.
Proof.
  assert (Hq : forall s', quiet s s' -> k ∈ pending s' -> k ∈ pending s \/ born w c s k)
    by (intros s' H Hk; destruct (H k Hk); [by left|right; by apply plain_born]).
  destruct c as [| | | | |i o]; cbn [run].
  - apply Hq. unfold tick. cbv zeta. etransitivity; [apply (quiet_reconcile w)|]. generalize (reconcile w s). intros s1.
    case_match; [|reflexivity]. case_match; [reflexivity|]. unfold await_position.
    case_match; [|etransitivity; [|apply quiet_caught]; by apply quiet_same|];
      (etransitivity; [|by apply quiet_suspend]; by apply quiet_same).
  - apply Hq. unfold retry. cbv zeta. etransitivity; [apply (quiet_reconcile w)|]. generalize (reconcile w s). intros s1.
    case_match; [|reflexivity]. apply quiet_same. by rewrite pending_publish.
  - apply Hq. unfold cancel. etransitivity; [|apply (quiet_reconcile w)]. by apply quiet_same.
  - apply Hq, quiet_fail.
  - apply Hq. unfold dispose. etransitivity; [|apply (quiet_reconcile w)]. by apply quiet_same.
  - destruct (pending s !! i) as [k0|] eqn:Hi; [|by left].
    set (s1 := s <| pending ::= delete i |>).
    assert (Hs1 : forall k, k ∈ pending s1 -> k ∈ pending s) by (intros k'; apply list_elem_of_delete_inv).
    assert (Hq1 : forall s', quiet s1 s' -> k ∈ pending s' -> k ∈ pending s \/ born w (Resume i o) s k)
      by (intros s' H Hk; destruct (H k Hk); [left; by apply Hs1|right; by apply plain_born]).
    assert (Hrun : run w (Resume i o) s = resume w k0 o s1) by (cbn [run]; by rewrite Hi).
    destruct k0 as [r g p init known|r g p init|r g|r g p|r g p known|]; cbn [resume] in *.
    + intros [?|[?|(-> & Hp & Hl)]]%after_position_waits; [left; by apply Hs1|right; by apply plain_born|right].
      split; [done|]. by rewrite Hrun.
    + apply Hq1. unfold after_pause. cbv zeta. case_match; [apply quiet_caught|].
      case_match; [apply quiet_same, pending_finally|].
      case_match; (etransitivity; [by apply (quiet_same s1 (emit (ESetPosition (p_position p)) s1))|]);
        first [by apply quiet_suspend|apply quiet_caught].
    + apply Hq1. unfold after_set. case_match; [apply quiet_caught|]. case_match; apply quiet_same;
        by rewrite pending_finally, ?pending_publish.
    + intros [?|[?|(known & -> & Ho & Hk)]]%after_freeze_waits; [left; by apply Hs1|right; by apply plain_born|right].
      by exists i, o.
    + apply Hq1. unfold after_check. repeat case_match; try apply quiet_caught; try apply quiet_back;
        apply quiet_same; by rewrite pending_finally, ?pending_publish.
    + apply Hq1. case_match; by apply quiet_same.
Qed.

Lemma drive_snoc steps w c s : drive (steps ++ [(w, c)]) s = run w c (drive steps s).
Proof. unfold drive. by rewrite fold_left_app. Qed.

Lemma waiting_since s k : reachable s -> k ∈ pending s ->
  exists w c s0 steps, reachable s0 /\ born w c s0 k /\ s = drive steps (run w c s0).
Proof.
  induction 1 as [|w c s Hs IH]; [by intros ?%not_elem_of_nil|].
  intros [Hk|Hk]%run_waits; [|by exists w, c, s, []].
  destruct (IH Hk) as (w0 & c0 & s0 & steps & H0 & Hb & ->). exists w0, c0, s0, (steps ++ [(w, c)]).
  by rewrite drive_snoc.
Qed.

(** How the position [here] that a call makes use of was obtained: a step paused the player, for
    the round [id]; later that pause was through, and the step that went on then asked the player
    where it was; [here] is what it said, at once or when the call settles its promise. *)
Definition read_after_pause (c : call) (s : Prepare) (id : string) (here : Q) : Prop :=
  exists r g p w1 c1 s1 steps1 w2 i2 o2 s2 steps2,
    reachable s1 /\ pause w1 <> Threw /\ last (trace (run w1 c1 s1)) = Some EPause
    /\ s2 = drive steps1 (run w1 c1 s1)
    /\ pending s2 !! i2 = Some (AfterFreeze r g p) /\ p_id p = id /\ rejected o2 = false
    /\ s = drive steps2 (run w2 (Resume i2 o2) s2)
    /\ (getPosition w2 = ReadNow (Fin here)
        \/ (getPosition w2 = ReadLater /\ exists i, c = Resume i (Resolved (Fin here)))).

(** C23: A report of readiness is honest.  Whatever calls are made and however the player's
    promises settle: when a step reports ready, it is for the round there is at that
    moment, by an eligible, connected, visible viewer whose source is the round's video, in
    a room that is not playing, with the preparation neither cancelled nor disposed; the
    player is ready, without error, not seeking, recovering or blocked; and the position
    reported is what the player said when it was asked after it had been paused for this
    round, and is within a quarter of a second of the round's. *)
Theorem ready_report_is_honest w c s :
  reachable s -> reports (run w c s) <> reports s ->
  exists prep here,
    reports (run w c s) = reports s ++ [(p_id prep, here)]
    /\ really_ready s (getState w) prep here
    /\ read_after_pause c s (p_id prep) here.
Proof.
  intros Hreach Hne. pose proof (reachable_tags _ Hreach) as Hr.
  destruct (reports_run w c s) as [?|(i & o & r & g & p & known & here & -> & Hi & Hset & Hg & Ho & Hrep)];
    [done|].
  apply still_good_spec in Hg as (Hgen & Hin & Hm & Hu & Hb).
  assert (Ht : tagged s g p) by (eapply Hr; [by eapply list_elem_of_lookup_2|done]).
  destruct Ht as [_ Ht]. destruct Ht as (ctx & Hc & <-); [by rewrite <- Hgen|].
  destruct (matches_ready _ _ ctx here Hm Hc Hu Hb Ho) as (prep & Hid & Hrr).
  exists prep, here. rewrite Hid. split; [done|]. split; [by destruct Hrr as [? ? ? ? ? ? ?]; split|].
  apply list_elem_of_lookup_2 in Hi.
  destruct (waiting_since s _ Hreach Hi) as (w2 & c2 & s2 & steps2 & H2 & (i2 & o2 & -> & Hi2 & Ho2 & Hk) & Hs).
  pose proof Hi2 as Hp2. apply list_elem_of_lookup_2 in Hp2.
  destruct (waiting_since s2 _ H2 Hp2) as (w1 & c1 & s1 & steps1 & H1 & [Hp1 Hl1] & Hs2).
  exists r, g, (c_prep ctx), w1, c1, s1, steps1, w2, i2, o2, s2, steps2. do 8 (split; [done|]).
  destruct known as [x|]; cbn [settled] in Hset; [injection Hset as ->; by left|].
  destruct o as [x|]; [|done]. injection Hset as ->. right. split; [done|]. by exists i.
Qed.

Lemma named_viewer_only w c s :
  reports (run w c s) = reports s
  \/ exists ctx, context s = Some ctx /\ p_clientId (c_prep ctx) = clientId (getState w).
Proof.
  destruct (reports_run w c s) as [?|(i & o & r & g & p & known & here & -> & Hi & Hset & Hg & Ho & Hrep)];
    [by left|right].
  apply still_good_spec in Hg as (Hgen & Hin & Hm & Hu & Hb).
  unfold matches in Hm. apply andb_true_iff in Hm as [_ Hm].
  change (context (s <| pending ::= delete i |>)) with (context s) in Hm.
  destruct (context s) as [ctx|]; [|done]. exists ctx. split; [done|].
  repeat case_match; try done. rewrite !andb_true_iff, !bool_decide_eq_true in Hm. tauto.
Qed.

(** Only the viewer the round names ever reports.  A viewer that is eligible but is not the
    round's [clientId], the first eligible one, never does, whatever happens: the code
    compares the viewer's own id with the [clientId] of the round it has taken up, and
    takes the round up again at every tick.  A room with several viewers so never has all
    of them ready. *)
Theorem later_viewer_never_reports me steps :
  Forall (fun wc => clientId (getState wc.1) = me
    /\ forall p, preparation (getState wc.1) = Some p -> p_clientId p <> me) steps ->
  reports (drive steps createPlaybackPreparation) = [].
Proof.
  intros Hs. cut (forall s, tags_ok s -> reports s = [] ->
    (forall ctx, context s = Some ctx -> p_clientId (c_prep ctx) <> me) -> reports (drive steps s) = []).
  { intros H. apply H; [|done|done]. intros k g p Hk. by apply not_elem_of_nil in Hk. }
  induction Hs as [|[w c] steps [Hme Hp] _ IH]; intros s Ht Hrep Hctx; [done|]. simpl in *.
  apply IH.
  - by eapply tags_grows; [apply (grows_run w)|].
  - destruct (named_viewer_only w c s) as [->|(ctx & Hc & Hid)]; [done|].
    specialize (Hctx ctx Hc). congruence.
  - intros ctx Hc. destruct (gr_from _ _ _ (grows_run w c s Ht)) as [Hsame|Hnew].
    + apply Hctx. congruence.
    + apply Hp. by apply Hnew.
Qed.

(** ** A viewer that is ready says so *)

(** What publishing a phase leaves alone. *)
Lemma publish_frame ph s :
  let s' := publish ph s in
  (context s', generation s', inFlight s', positioned s', cancelledId s', disposed s', symbols s', pending s')
  = (context s, generation s, inFlight s, positioned s, cancelledId s, disposed s, symbols s, pending s)
  /\ phase s' = ph.
Proof. unfold publish. cbv zeta. by case_decide. Qed.

Lemma matches_same s s' st :
  context s' = context s -> cancelledId s' = cancelledId s -> disposed s' = disposed s ->
  matches s' st = matches s st.
Proof. intros H1 H2 H3. unfold matches, isOwner. by rewrite H1, H2, H3. Qed.

(** The worlds in which nothing is left to wait for: at the round's position, with a picture
    and enough buffer, a player that pauses, and a connection that sends. *)
Record cooperative (w : World) (prep : Prep) (here : Q) : Prop := {
  co_reading : getPosition w = ReadNow (Fin here);
  co_pause : pause w <> Threw;
  co_send : sendReady_throws w = false;
  co_position : (0 <= here)%Q /\ off_position prep here = false;
  co_usable : usable (getState w) = true;
  co_playing : playing (getState w) = true /\ blocked (getState w) = false;
  co_frame : hasFrame (getState w) = true /\ short_buffer (getState w) = false;
}.

(** A state of the engine in which the tick [r] of generation [g] goes on. *)
Record going (w : World) (s : Prepare) (r : nat) (g : Z) (l : list continuation) : Prop := {
  go_flight : inFlight s = Some r;
  go_gen : generation s = g;
  go_matches : matches s (getState w) = true;
  go_pending : pending s = l;
}.

Lemma going_current w s r g l : going w s r g l -> current w r g s = true.
Proof.
  intros [H1 H2 H3 _]. unfold current. rewrite H1, H2, H3, Z.eqb_refl. by rewrite bool_decide_true.
Qed.

Lemma going_publish w s r g l ph : going w s r g l -> going w (publish ph s) r g l.
Proof.
  intros [H1 H2 H3 H4]. destruct (publish_frame ph s) as [Hf _]. injection Hf as F1 F2 F3 _ F5 F6 _ F8.
  split; [congruence|congruence| |congruence]. by rewrite (matches_same s).
Qed.

Lemma going_suspend w s r g l k : going w s r g l -> going w (suspend k s) r g (l ++ [k]).
Proof. intros [H1 H2 H3 H4]. split; try done. cbn. by rewrite H4. Qed.

Lemma going_take w s r g l k :
  going w s r g (l ++ [k]) ->
  pending s !! length l = Some k /\ going w (s <| pending ::= delete (length l) |>) r g l.
Proof.
  intros [H1 H2 H3 H4]. split; [by rewrite H4, lookup_app_r, Nat.sub_diag by lia|].
  split; try done. cbn. rewrite H4, delete_middle. apply app_nil_r.
Qed.

Lemma await_pause_goes w r g k s :
  pause w <> Threw -> await_pause w r g k s = suspend k (emit EPause s).
Proof. unfold await_pause. by destruct (pause w). Qed.

Section Reports.
Context (w : World) (prep : Prep) (here : Q) (Hco : cooperative w prep here).

(** The four pieces of a tick that ends in a report. *)
Lemma goes_position s r g l initial :
  going w s r g l ->
  exists s', after_position w r g prep initial (Some (Fin here)) s = s'
    /\ going w s' r g (l ++ [AfterFreeze r g prep]) /\ reports s' = reports s.
Proof.
  intros Hs. destruct Hco as [_ Hpause _ [Hpos Hoff] Hu [Hpl Hbl] [Hfr Hbuf]].
  eexists. split; [reflexivity|]. split; [|by rewrite reports_after_position].
  unfold after_position. rewrite (going_current _ _ _ _ _ Hs).
  assert (Hcan : canContinue initial (getState w) = true).
  { unfold canContinue. destruct initial; [|done]. unfold usable in Hu. by apply andb_true_iff in Hu as [? _]. }
  rewrite Hcan. cbn [negb orb].
  assert (Hneg : Qlt_bool here 0 = false) by (apply Qlt_bool_false; exact Hpos).
  rewrite Hneg, Hoff. unfold settle_position. cbv zeta. rewrite Hu, Hpl, Hbl, Hfr, Hbuf. cbn [negb orb].
  rewrite await_pause_goes by done. apply going_suspend.
  set (s1 := publish Preparing _). assert (H1 : going w s1 r g l).
  { apply going_publish. destruct Hs as [? ? ? ?]. by split. }
  clearbody s1. destruct (going_publish _ _ _ _ _ WaitingAck H1) as [? ? ? ?]. by split.
Qed.

Lemma goes_freeze s r g l :
  going w s r g l ->
  exists s', after_freeze w r g prep false s = s'
    /\ going w s' r g (l ++ [AfterCheck r g prep (Some (Fin here))]) /\ reports s' = reports s.
Proof.
  intros Hs. destruct Hco as [Hread _ _ _ Hu [_ Hbl] _].
  eexists. split; [reflexivity|]. split; [|by rewrite reports_after_freeze].
  unfold after_freeze, still_good. rewrite (going_current _ _ _ _ _ Hs), Hu, Hbl. cbn [negb andb].
  unfold await_position. rewrite Hread. by apply going_suspend.
Qed.

Lemma goes_check s r g l :
  going w s r g l -> reports (after_check w r g prep (Some (Fin here)) s) = reports s ++ [(p_id prep, here)].
Proof.
  intros Hs. destruct Hco as [_ _ Hsend [_ Hoff] Hu [_ Hbl] _].
  unfold after_check, still_good. rewrite (going_current _ _ _ _ _ Hs), Hu, Hbl. cbn [negb andb].
  rewrite Hoff, Hsend, reports_finally. unfold reports, emit. simpl. by rewrite omap_app.
Qed.

Lemma goes_tick s :
  matches s (getState w) = false -> isOwner s (getState w) = true ->
  preparation (getState w) = Some prep -> p_clientId prep = clientId (getState w) ->
  exists r g initial, going w (tick w s) r g (pending s ++ [AfterPosition r g prep initial (Some (Fin here))])
    /\ reports (tick w s) = reports s.
Proof.
  intros Hm Ho Hp Hid. pose proof Ho as Ho'. unfold isOwner in Ho'. rewrite Hp in Ho'.
  destruct (source (getState w)) as [[object video]|] eqn:Hsrc; [|done].
  set (s1 := reconcile w s).
  assert (H1 : context s1 = Some (MkContext prep object (player (getState w))) /\ inFlight s1 = None
    /\ positioned s1 = false /\ phase s1 = Aligning /\ cancelledId s1 = cancelledId s
    /\ disposed s1 = disposed s /\ pending s1 = pending s).
  { subst s1. unfold reconcile. cbv zeta. rewrite Hm, Hp, Hsrc, Ho.
    rewrite decide_False by done. match goal with |- context [publish Aligning ?x] => set (s2 := x) end.
    destruct (publish_frame Aligning s2) as [Hf ->]. injection Hf as -> _ -> -> -> -> _ ->. done. }
  destruct H1 as (Hc & Hin & Hpos & Hph & Hcan & Hdis & Hpend).
  exists (symbols s1), (generation s1), true. split; [|apply reports_tick].
  assert (Hm1 : matches s1 (getState w) = true).
  { unfold matches. assert (Ho1 : isOwner s1 (getState w) = true)
      by (revert Ho; unfold isOwner; by rewrite Hcan, Hdis).
    rewrite Ho1, Hc, Hp, Hsrc. cbn [c_prep c_source c_player]. rewrite Hid.
    rewrite !bool_decide_true by done. cbn [andb]. rewrite !andb_true_r. rewrite !andb_true_iff in Ho'. destruct Ho' as [_ Hq].
    unfold num_eq. destruct (p_position prep); try done. apply Qeq_bool_iff. reflexivity. }
  destruct Hco as [Hread _ _ _ Hu _ _]. unfold usable in Hu. apply andb_true_iff in Hu as [Hcp _].
  unfold tick. fold s1. cbv zeta. rewrite Hc, Hin, Hph, Hpos, Hcp.
  rewrite (bool_decide_false (None <> None)) by (intros Hn; by apply Hn).
  rewrite !bool_decide_false by done. cbn [negb andb orb].
  set (s2 := s1 <| symbols ::= S |> <| inFlight := Some (symbols s1) |>).
  assert (H2 : going w s2 (symbols s1) (generation s1) (pending s)).
  { split; [done|done| |done]. by rewrite (matches_same s1). }
  change (positioned s2) with (positioned s1). change (generation s2) with (generation s1). rewrite Hpos.
  clearbody s2. unfold await_position. rewrite Hread. by apply going_suspend.
Qed.
End Reports.

(** C24: The viewer a round names reports as soon as it is where it should be.  Given a round
    that is new to it and that names it, and a player that is usable, shows a picture, has
    buffered enough and stands at the round's position: one tick and the three pieces it
    waits for (the reading, the pause, the second reading) end in the report of readiness,
    whatever else is waiting to be resumed. *)
Theorem named_viewer_reports w prep here s o1 o2 o3 :
  isOwner s (getState w) = true -> matches s (getState w) = false ->
  preparation (getState w) = Some prep -> p_clientId prep = clientId (getState w) ->
  cooperative w prep here -> rejected o2 = false ->
  let n := length (pending s) in
  reports (run w (Resume n o3) (run w (Resume n o2) (run w (Resume n o1) (run w Tick s))))
  = reports s ++ [(p_id prep, here)].
Proof.
  intros Ho Hm Hp Hid Hco H2. cbv zeta.
  destruct (goes_tick w prep here Hco s Hm Ho Hp Hid) as (r & g & initial & G1 & R1).
  cbn [run]. generalize dependent (tick w s). intros s1 G1 R1.
  destruct (going_take _ _ _ _ _ _ G1) as [-> G1']. cbn [resume].
  replace (settled (Some (Fin here)) o1) with (Some (Fin here)) by (by destruct o1).
  destruct (goes_position w prep here Hco _ r g _ initial G1') as (s2 & -> & G2 & R2).
  destruct (going_take _ _ _ _ _ _ G2) as [-> G2']. cbn [resume]. rewrite H2.
  destruct (goes_freeze w prep here Hco _ r g _ G2') as (s3 & -> & G3 & R3).
  destruct (going_take _ _ _ _ _ _ G3) as [-> G3']. cbn [resume].
  replace (settled (Some (Fin here)) o3) with (Some (Fin here)) by (by destruct o3).
  rewrite (goes_check w prep here Hco _ r g _ G3').
  change (reports (s3 <| pending ::= _ |>)) with (reports s3). rewrite R3.
  change (reports (s2 <| pending ::= _ |>)) with (reports s2). rewrite R2.
  change (reports (s1 <| pending ::= _ |>)) with (reports s1). by rewrite R1.
Qed.

(** ** A round of two *)

Section Sample.

Definition sample_video : VideoId := MkVideoId "direct" "https://example.org/a.mp4".
Definition sample_round : Prep :=
  MkPrep "round" "alice" sample_video (Fin 125) (Some ["alice"%string; "bob"%string]).

Definition sample_input (who : ClientId) : Input :=
  MkInput (Some sample_round) who (Some (1%nat, sample_video)) (Some 2%nat) true false true true false
    false false false (Some (MkLoading true (Some (Fin 125)) (Some (Fin 10)))) (Some true).

Definition sample_world (who : ClientId) : World :=
  MkWorld (sample_input who) (ReadNow (Fin 125)) Done Done false false.

(** A tick, then whatever it waits for, as often as it waits. *)
Definition sample_steps (who : ClientId) : list (World * call) :=
  [(sample_world who, Tick); (sample_world who, Resume 0 (Resolved NaN));
   (sample_world who, Resume 0 (Resolved NaN)); (sample_world who, Resume 0 (Resolved NaN))].

(** The engine of the named viewer when only the second reading is left. *)
Definition sample_frozen : Prepare := drive (take 3 (sample_steps "alice")) createPlaybackPreparation.
End Sample.

(** Both viewers are eligible and in the very same position; one reports, the other does
    not, however often it ticks. *)
Example both_are_eligible :
  eligible sample_round "alice" = true /\ eligible sample_round "bob" = true
  /\ reports (drive (sample_steps "alice") createPlaybackPreparation) = [("round"%string, 125%Q)]
  /\ reports (drive (sample_steps "bob" ++ sample_steps "bob" ++ sample_steps "bob")
       createPlaybackPreparation) = [].
Proof. vm_compute. repeat split. Qed.

Lemma prep_drive_reachable steps s : reachable s -> reachable (drive steps s).
Proof. revert s. induction steps; intros s H; [done|]. apply IHsteps, reach_run, H. Qed.

Lemma sample_frozen_reachable : reachable sample_frozen.
Proof. apply prep_drive_reachable, reach_new. Qed.

(** ** The hypotheses can hold *)

Lemma ready_report_is_honest_witness :
  exists prep here,
    reports (run (sample_world "alice") (Resume 0 (Resolved NaN)) sample_frozen)
    = reports sample_frozen ++ [(p_id prep, here)]
    /\ really_ready sample_frozen (getState (sample_world "alice")) prep here
    /\ read_after_pause (Resume 0 (Resolved NaN)) sample_frozen (p_id prep) here.
Proof.
  refine (ready_report_is_honest (sample_world "alice") (Resume 0 (Resolved NaN)) sample_frozen
    sample_frozen_reachable _).
  vm_compute. discriminate.
Defined.

Lemma sample_cooperative : cooperative (sample_world "alice") sample_round 125.
Proof. split; vm_compute; try split; congruence. Qed.

Lemma named_viewer_reports_witness :
  let n := length (pending createPlaybackPreparation) in
  let w := sample_world "alice" in
  reports (run w (Resume n (Resolved NaN)) (run w (Resume n (Resolved NaN))
    (run w (Resume n (Resolved NaN)) (run w Tick createPlaybackPreparation))))
  = reports createPlaybackPreparation ++ [(p_id sample_round, 125%Q)].
Proof.
  refine (named_viewer_reports (sample_world "alice") sample_round 125 createPlaybackPreparation
    (Resolved NaN) (Resolved NaN) (Resolved NaN) _ _ eq_refl eq_refl sample_cooperative eq_refl).
  - vm_compute. reflexivity.
  - vm_compute. reflexivity.
Defined.
