(* ===== verification/RoomStorage.v ===== *)
(** * RoomStorage: rooms as database rows

    [server/storage/room.ts] up to the queries: how a room becomes a row ([roomToDb],
    [roomToDbPartial]), how a row becomes the options of a room ([dbToRoomArgs]), and the
    settings [syncDirty] of [room.ts] saves. *)

From S2P Require Import Prelude Types Permissions VideoQueue RoomModel RoomPlayback RoomRequests.
From S2P Require Import RoomLifecycle.

Module Storage.

(** A row of [models/room.ts], with the grants in the form [toJSON] writes. *)
Record DbRoom := MkDbRoom {
  db_name : string;
  db_title : string;
  db_description : string;
  db_visibility : Visibility;
  db_queueMode : QueueMode;
  db_ownerId : option Z;
  db_permissions : list (Role * Z);
  db_role_admin : list Z;
  db_role_mod : list Z;
  db_role_trusted : list Z;
  db_autoSkip : list string;
  db_prevQueue : option (list QueueItem);
  db_restoreQueueBehavior : BehaviorOption;
  db_enableVoteSkip : bool;
  db_bufferGateMode : BufferGateMode;
  db_danmakuSource : option RoomDanmakuSource;
  db_passwordHash : option string;
  db_permissionsRevision : option Z;
}.
#[global] Instance eta_DbRoom : Eta DbRoom := fun d =>
  MkDbRoom (db_name d) (db_title d) (db_description d) (db_visibility d) (db_queueMode d)
    (db_ownerId d) (db_permissions d) (db_role_admin d) (db_role_mod d) (db_role_trusted d)
    (db_autoSkip d) (db_prevQueue d) (db_restoreQueueBehavior d) (db_enableVoteSkip d)
    (db_bufferGateMode d) (db_danmakuSource d) (db_passwordHash d) (db_permissionsRevision d).

(** [Partial<RoomStatePersistable>]: [None] is a property that is not there. *)
Record Persistable := MkPersistable {
  ps_title : option string;
  ps_description : option string;
  ps_visibility : option Visibility;
  ps_queueMode : option QueueMode;
  ps_grants : option Grants;
  ps_userRoles : option (list (Role * gset Z));
  ps_owner : option (option User);
  ps_autoSkip : option (list string);
  ps_prevQueue : option (option (list QueueItem));
  ps_restoreQueueBehavior : option BehaviorOption;
  ps_enableVoteSkip : option bool;
  ps_bufferGateMode : option BufferGateMode;
  ps_danmakuSource : option (option RoomDanmakuSource);
  ps_permissionsRevision : option Z;
}.

(** [storage.updateRoom(this)]: the whole room.  Its [prevQueue] is the room's own, not the
    snapshot of its queue. *)
Definition whole (r : Room) : Persistable :=
  MkPersistable (Some (title r)) (Some (description r)) (Some (visibility r)) (Some (queueMode r))
    (Some (grants r)) (Some (userRoles r)) (Some (owner r)) (Some (autoSkipSegmentCategories r))
    (Some (prevQueue r)) (Some (restoreQueueBehavior r)) (Some (enableVoteSkip r))
    (Some (bufferGateMode r)) (Some (danmakuSource r)) (Some (permissionsRevision r)).

(** The grants a row keeps: the two highest roles have every permission anyway. *)
Definition grantsFiltered (g : Grants) : Grants :=
  Grants.deleteRole Owner (Grants.deleteRole Administrator g).

(** [Array.from(room.userRoles.get(i)?.values() ?? [])]. *)
Definition role_members (role : Role) (l : list (Role * gset Z)) : list Z :=
  match map_get role l with Some s => elements s | None => [] end.

Definition roomToDb (r : Room) : DbRoom :=
  MkDbRoom (name r) (title r) (description r) (visibility r) (queueMode r) (user_id <$> owner r)
    (Grants.toJSON (grantsFiltered (grants r))) (role_members Administrator (userRoles r))
    (role_members Moderator (userRoles r)) (role_members TrustedUser (userRoles r))
    (autoSkipSegmentCategories r) (prevQueue r) (restoreQueueBehavior r) (enableVoteSkip r)
    (bufferGateMode r) (danmakuSource r) None (Some (permissionsRevision r)).

(** [roomToDbPartial], applied to the row the update hits.  An owner that is not there, or
    is null, leaves the column alone. *)
Definition roomToDbPartial (p : Persistable) (d : DbRoom) : DbRoom :=
  MkDbRoom (db_name d) (default (db_title d) (ps_title p)) (default (db_description d) (ps_description p))
    (default (db_visibility d) (ps_visibility p)) (default (db_queueMode d) (ps_queueMode p))
    (match ps_owner p with Some (Some u) => Some (user_id u) | _ => db_ownerId d end)
    (match ps_grants p with Some g => Grants.toJSON (grantsFiltered g) | None => db_permissions d end)
    (match ps_userRoles p with Some l => role_members Administrator l | None => db_role_admin d end)
    (match ps_userRoles p with Some l => role_members Moderator l | None => db_role_mod d end)
    (match ps_userRoles p with Some l => role_members TrustedUser l | None => db_role_trusted d end)
    (default (db_autoSkip d) (ps_autoSkip p)) (default (db_prevQueue d) (ps_prevQueue p))
    (default (db_restoreQueueBehavior d) (ps_restoreQueueBehavior p))
    (default (db_enableVoteSkip d) (ps_enableVoteSkip p))
    (default (db_bufferGateMode d) (ps_bufferGateMode p))
    (default (db_danmakuSource d) (ps_danmakuSource p)) (db_passwordHash d)
    (match ps_permissionsRevision p with Some n => Some n | None => db_permissionsRevision d end).

Definition updateRoomPassword (hash : option string) (d : DbRoom) : DbRoom := d <| db_passwordHash := hash |>.

(** [dbToRoomArgs], with the owner the query joined; rebuilding the grants may throw.  What
    a row does not hold has the constructor's defaults. *)
Definition dbToRoomArgs (joined : option User) (d : DbRoom) : exn + RoomOptions :=
  match Grants.construct (db_permissions d) with
  | inl e => inl e
  | inr g => inr (MkOptions (db_name d) (db_title d) (db_description d) (db_visibility d) (db_queueMode d)
      false joined None [] 0 false 1 (db_autoSkip d) (db_prevQueue d) (db_restoreQueueBehavior d)
      (db_enableVoteSkip d) (db_bufferGateMode d) (db_danmakuSource d) (db_passwordHash d) false g
      (db_permissionsRevision d)
      [(TrustedUser, list_to_set (db_role_trusted d)); (Moderator, list_to_set (db_role_mod d));
       (Administrator, list_to_set (db_role_admin d))] None)
  end.

(** [getRoomByName]: an error is logged, and there is no room. *)
Definition getRoomByName (row : option (option User * DbRoom)) : option RoomOptions :=
  match row with
  | Some (joined, d) => match dbToRoomArgs joined d with inl _ => None | inr o => Some o end
  | None => None
  end.

(** ** What a sync saves *)

Section Sync.
Context `{E : Env}.

Definition if_dirty {A} (r : Room) (p : Prop_) (v : A) : option A :=
  if decide (p ∈ dirty r) then Some v else None.

(** The [settings] of [syncDirty]; [userRoles] and the permissions revision are never in it. *)
Definition sync_settings (r : Room) : Persistable :=
  MkPersistable (if_dirty r PTitle (title r)) (if_dirty r PDescription (description r))
    (if_dirty r PVisibility (visibility r)) (if_dirty r PQueueMode (queueMode r))
    (if_dirty r PGrants (grants r)) None (if_dirty r PHasOwner (owner r))
    (if_dirty r PAutoSkip (autoSkipSegmentCategories r))
    (if existsb (fun p => bool_decide (p ∈ dirty r))
          [PQueue; PCurrentSource; PIsPlaying; PPlaybackPosition; PPrevQueue]
     then Some (queueSnapshot r) else None)
    (if_dirty r PRestoreQueueBehavior (restoreQueueBehavior r))
    (if_dirty r PEnableVoteSkip (enableVoteSkip r)) (if_dirty r PBufferGateMode (bufferGateMode r))
    (if_dirty r PDanmakuSource (danmakuSource r)) None.

(** The row after a sync of [r] that reached the database. *)
Definition sync_row (r : Room) (d : DbRoom) : DbRoom :=
  if isTemporary r then d else roomToDbPartial (sync_settings r) d.

End Sync.

End Storage.
