(* ===== verification/RoomManager.v ===== *)
(** * RoomManager: loading, creating and unloading rooms

    [server/roommanager.ts], with [setRoomPassword] of [server/room-password.ts].  The rooms
    are the rooms of [RoomModel], kept as objects in a heap: the array [rooms] holds
    references, and a room lives on while a call or a client still holds it.  Every call is
    cut at its awaits; Redis and the database answer each await when it is resumed, in any
    order. *)

From S2P Require Import Prelude Types Permissions VideoQueue Subtitles RoomModel RoomPlayback.
From S2P Require Import RoomRequests RoomLifecycle RoomStorage.

Module Manager.

(** [UnloadReason] of [generated.ts]. *)
Inductive UnloadReason := Keepalive | Admin | Commanded | Shutdown.
#[global] Instance UnloadReason_eq : EqDecision UnloadReason.
Proof. solve_decision. Defined.

(** How a call ends: [getRoom] gives a room or the error [RoomNotFound] as a value, the others
    nothing, and each may throw. *)
Inductive failure := RoomNameTaken | RoomNotFound | OtherError.
Inductive result := RoomOk (obj : nat) | RoomErr | Finished | Thrown (e : failure).

(** Who waits for [unloadRoom] or [addRoom] to end: a call of the outside, or the sweep,
    which has these rooms still to visit. *)
Inductive caller := Call (id : nat) | Sweep (rest : list nat).

(** Where a call stands while it awaits. *)
Inductive continuation :=
| AfterExists (t : caller) (o : RoomOptions) (password : option string)
| AfterNameTaken (t : caller) (o : RoomOptions) (password : option string)
| AfterSave (t : caller) (obj : nat) (password : option string)
| AfterHash (t : caller) (obj : nat)
| AfterStorePassword (t : caller) (obj : nat) (hash : string)
| AfterUpdate (t : caller) (obj : nat)
| AfterSync (t : caller) (obj : nat) (failed : bool)
| AfterIncr (t : caller) (obj : nat) (r : result)
| AfterEpochReset (t : caller) (obj : nat) (r : result)
| AfterRedisGet (t : caller) (roomName : string)
| AfterDrop (t : caller) (roomName : string)
| AfterPasswordHash (t : caller) (state : RoomOptions)
| AfterDb (t : caller) (roomName : string)
| AfterCheckpoint (t : caller) (obj : nat) (reason : UnloadReason) (preserveRedis failed : bool)
| AfterDel (t : caller) (obj : nat) (reason : UnloadReason)
| AfterDelSync (t : caller) (obj : nat) (reason : UnloadReason)
| SweepUpdate (obj : nat) (rest : list nat)
| SweepSync (obj : nat) (rest : list nat).

(** What Redis or the database answers: a snapshot that does not parse is [Some None], a row
    comes with its owner. *)
Inductive reply :=
| RBool (b : bool)
| RNumber (n : Z)
| RSnapshot (s : option (option StoredRoom))
| RRow (row : option (option User * Storage.DbRoom))
| RHash (h : option string)
| RVoid
| RReject.

Inductive event :=
| EReturn (id : nat) (r : result)
| ELoad (roomName : string)
| EUnload (roomName : string) (reason : UnloadReason).

Record Manager := MkManager {
  heap : gmap nat Room;
  rooms : list nat;
  loadEpoch : gmap nat Z;
  nextObject : nat;
  nextCall : nat;
  updaterRunning : bool;
  updaterInterval : bool;
  pending : list continuation;
  trace : list event;
}.
#[global] Instance eta_Manager : Eta Manager := fun m =>
  MkManager (heap m) (rooms m) (loadEpoch m) (nextObject m) (nextCall m) (updaterRunning m)
    (updaterInterval m) (pending m) (trace m).

Definition init : Manager := MkManager ∅ [] ∅ 0 0 false false [] [].

Definition emit (e : event) (m : Manager) : Manager := m <| trace ::= fun l => l ++ [e] |>.
Definition suspend (k : continuation) (m : Manager) : Manager := m <| pending ::= fun l => l ++ [k] |>.

Definition rejected (r : reply) : bool := match r with RReject => true | _ => false end.

Definition room_name (m : Manager) (obj : nat) : string :=
  match heap m !! obj with Some r => name r | None => ""%string end.

(** [name.toLowerCase() === other.toLowerCase()]. *)
Definition same_name (a b : string) : bool := bool_decide (toLowerCase a = toLowerCase b).

(** The first loaded room of that name. *)
Definition find_room (m : Manager) (roomName : string) : option nat :=
  List.find (fun obj => same_name (room_name m obj) roomName) (rooms m).

(** Run a method on a room object. *)
Definition on_room (obj : nat) (f : Room -> Room) (m : Manager) : Manager := m <| heap ::= alter f obj |>.

(** A fresh object. *)
Definition new_room (r : Room) (m : Manager) : nat * Manager :=
  (nextObject m, m <| heap ::= <[nextObject m := r]> |> <| loadEpoch ::= <[nextObject m := -1]> |>
                   <| nextObject ::= S |>).

Section Manager.
Context `{E : Env}.

(** ** The sweep and what ends it *)

Definition sweep_next (rest : list nat) (m : Manager) : Manager :=
  match rest with
  | [] => m <| updaterRunning := false |>
  | obj :: rest => suspend (SweepUpdate obj rest) (on_room obj update m)
  end.

(** The end of a call: it returns to its caller; the sweep logs an error and goes on. *)
Definition finish (t : caller) (r : result) (m : Manager) : Manager :=
  match t with
  | Call id => emit (EReturn id r) m
  | Sweep rest => sweep_next rest m
  end.

(** ** Adding a room *)

Definition addRoom (t : caller) (obj : nat) (r : result) (m : Manager) : Manager :=
  suspend (AfterIncr t obj r) (m <| rooms ::= fun l => l ++ [obj] |>).

Definition added (t : caller) (obj : nat) (r : result) (m : Manager) : Manager :=
  finish t r (emit (ELoad (room_name m obj)) m).

Definition after_incr (t : caller) (obj : nat) (r : result) (epoch : Z) (m : Manager) : Manager :=
  let m := m <| loadEpoch ::= <[obj := epoch]> |> in
  if 2147483640 <=? epoch then suspend (AfterEpochReset t obj r) m else added t obj r m.

(** ** [createRoom] *)

Definition createRoom (t : caller) (o : RoomOptions) (password : option string) (m : Manager) : Manager :=
  match find_room m (opt_name o) with
  | Some _ => finish t (Thrown RoomNameTaken) m
  | None => suspend (AfterExists t o password) m
  end.

(** [await room.update()], then [await room.sync()], then the room is added. *)
Definition finish_create (t : caller) (obj : nat) (m : Manager) : Manager :=
  suspend (AfterUpdate t obj) (on_room obj update m).

Definition create_sync (t : caller) (obj : nat) (m : Manager) : Manager :=
  match heap m !! obj with
  | Some r => suspend (AfterSync t obj (match (sync r).1 with inl _ => true | inr _ => false end))
                (on_room obj (fun r => (sync r).2) m)
  | None => m
  end.

(** [if (options.password) await setRoomPassword(room, options.password)]: the empty
    string is falsy. *)
Definition create_password (t : caller) (obj : nat) (password : option string) (m : Manager) : Manager :=
  match password with
  | Some p => if bool_decide (p = ""%string) then finish_create t obj m else suspend (AfterHash t obj) m
  | None => finish_create t obj m
  end.

Definition create_construct (t : caller) (o : RoomOptions) (password : option string) (m : Manager)
    : Manager :=
  let '(obj, m) := new_room (construct_room o) m in
  if opt_isTemporary o then create_password t obj password m else suspend (AfterSave t obj password) m.

(** ** [setRoomPassword], as [createRoom] awaits it *)

Definition after_hash (t : caller) (obj : nat) (hash : string) (m : Manager) : Manager :=
  match heap m !! obj with
  | Some r => if isTemporary r then finish_create t obj (on_room obj (setPasswordHash (Some hash)) m)
              else suspend (AfterStorePassword t obj hash) m
  | None => m
  end.

Definition after_store_password (t : caller) (obj : nat) (hash : string) (updated : bool) (m : Manager)
    : Manager :=
  if updated then finish_create t obj (on_room obj (setPasswordHash (Some hash)) m)
  else finish t (Thrown OtherError) m.

(** ** [getRoom] *)

(** [redisStateToState], up to the options the constructor takes; rebuilding the grants
    may throw.  A snapshot holds no password. *)
Definition redisStateToState (st : StoredRoom) : exn + RoomOptions :=
  match Grants.construct (st_grants st) with
  | inl e => inl e
  | inr g => inr (MkOptions (st_name st) (st_title st) (st_description st) (st_visibility st)
      (st_queueMode st) (st_isTemporary st) (st_owner st) (st_currentSource st) (st_queue st)
      (st_playbackPosition st) (st_isPlaying st) (st_playbackSpeed st) (st_autoSkipSegmentCategories st)
      (st_prevQueue st) (st_restoreQueueBehavior st) (st_enableVoteSkip st) (st_bufferGateMode st)
      (st_danmakuSource st) None (st_resumeOnNextJoin st) g (Some (st_permissionsRevision st))
      (st_userRoles st) (st_playbackStart st))
  end.

Definition getRoom (t : caller) (roomName : string) (mustAlreadyBeLoaded : bool) (m : Manager) : Manager :=
  match find_room m roomName with
  | Some obj => finish t (RoomOk obj) m
  | None => if mustAlreadyBeLoaded then finish t RoomErr m else suspend (AfterRedisGet t roomName) m
  end.

Definition load_state (t : caller) (state : RoomOptions) (m : Manager) : Manager :=
  let '(obj, m) := new_room (construct_room state) m in addRoom t obj (RoomOk obj) m.

Definition after_redis_get (t : caller) (roomName : string) (s : option (option StoredRoom)) (m : Manager)
    : Manager :=
  match s with
  | None => suspend (AfterDb t roomName) m
  | Some None => suspend (AfterDrop t roomName) m
  | Some (Some st) =>
      match redisStateToState st with
      | inl _ => suspend (AfterDrop t roomName) m
      | inr state =>
          let state := if opt_isTemporary state then state else state <| opt_isPlaying := false |> in
          if opt_isTemporary state then load_state t state m
          else suspend (AfterPasswordHash t state) m
      end
  end.

Definition after_db (t : caller) (opts : option RoomOptions) (m : Manager) : Manager :=
  match opts with
  | None => finish t RoomErr m
  | Some o =>
      let '(obj, m) := new_room (restoreFromStorage (construct_room o)) m in addRoom t obj (RoomOk obj) m
  end.

(** ** [unloadRoom] *)

Definition indexOf (obj : nat) (l : list nat) : option nat := fst <$> list_find (eq obj) l.

Definition unload_rest (t : caller) (obj : nat) (reason : UnloadReason) (preserveRedis : bool) (m : Manager)
    : Manager :=
  match indexOf obj (rooms m) with
  | None => finish t (Thrown RoomNotFound) m
  | Some idx =>
      let m := m <| rooms ::= delete idx |> in
      if preserveRedis then finish t Finished (emit (EUnload (room_name m obj) reason) m)
      else suspend (AfterDel t obj reason) m
  end.

(** A room is named, or given as an object. *)
Definition resolve (target : string + nat) (m : Manager) : option nat :=
  match target with inl roomName => find_room m roomName | inr obj => Some obj end.

Definition unloadRoom (t : caller) (target : string + nat) (reason : UnloadReason)
    (preserveRedis : option bool) (m : Manager) : Manager :=
  let preserve := match preserveRedis with Some b => b | None => bool_decide (reason = Commanded) end in
  match resolve target m with
  | None => finish t (Thrown RoomNotFound) m
  | Some obj =>
      if decide (reason = Commanded) then unload_rest t obj reason preserve m
      else match heap m !! obj with
           | Some r => suspend (AfterCheckpoint t obj reason preserve
                                  (match (onBeforeUnload r).1 with inl _ => true | inr _ => false end))
                         (on_room obj (fun r => (onBeforeUnload r).2) m)
           | None => m
           end
  end.

(** ** [update], one room after the other *)

Definition sweep_stale (obj : nat) (rest : list nat) (m : Manager) : Manager :=
  match heap m !! obj with
  | Some r => if isStale r then unloadRoom (Sweep rest) (inl (name r)) Keepalive None m
              else sweep_next rest m
  | None => sweep_next rest m
  end.

(** [await room.update()] done: [room.sync()], unless it threw. *)
Definition sweep_sync (obj : nat) (rest : list nat) (failed : bool) (m : Manager) : Manager :=
  if failed then sweep_stale obj rest m
  else suspend (SweepSync obj rest) (on_room obj (fun r => (sync r).2) m).

Definition runUpdate (m : Manager) : Manager :=
  if updaterRunning m then m else sweep_next (rooms m) (m <| updaterRunning := true |>).

(** ** Steps *)

Definition fresh_call (m : Manager) : caller * Manager := (Call (nextCall m), m <| nextCall ::= S |>).

(** [Promise.all] over the names of the rooms. *)
Definition unload_all (names : list string) (reason : UnloadReason) (preserveRedis : option bool)
    (m : Manager) : Manager :=
  fold_left (fun m roomName => let '(t, m) := fresh_call m in
                               unloadRoom t (inl roomName) reason preserveRedis m) names m.

Definition shutdown (m : Manager) : Manager :=
  let m := m <| updaterInterval := false |> in
  unload_all (map (room_name m) (rooms m)) Shutdown (Some true) m.

Definition unloadAllRooms (m : Manager) : Manager :=
  unload_all (map (room_name m) (rooms m)) Admin None m.

Definition clearRooms (m : Manager) : Manager := m <| rooms := [] |>.

(** A call resumed with an answer; an answer of another kind than the one awaited is none. *)
Definition resume (k : continuation) (a : reply) (m : Manager) : Manager :=
  match k, a with
  | (AfterExists t _ _ | AfterNameTaken t _ _ | AfterSave t _ _ | AfterHash t _
    | AfterStorePassword t _ _ | AfterUpdate t _ | AfterSync t _ _ | AfterIncr t _ _
    | AfterEpochReset t _ _ | AfterRedisGet t _ | AfterDrop t _ | AfterPasswordHash t _
    | AfterDb t _ | AfterCheckpoint t _ _ _ _ | AfterDel t _ _ | AfterDelSync t _ _), RReject =>
      finish t (Thrown OtherError) m
  | AfterExists t o password, RBool taken =>
      if taken then finish t (Thrown RoomNameTaken) m else suspend (AfterNameTaken t o password) m
  | AfterNameTaken t o password, RBool taken =>
      if taken then finish t (Thrown RoomNameTaken) m else create_construct t o password m
  | AfterSave t obj password, RBool saved =>
      if saved then create_password t obj password m else finish t (Thrown OtherError) m
  | AfterHash t obj, RHash (Some hash) => after_hash t obj hash m
  | AfterStorePassword t obj hash, RBool updated => after_store_password t obj hash updated m
  | AfterUpdate t obj, RVoid => create_sync t obj m
  | AfterSync t obj failed, RVoid =>
      if failed then finish t (Thrown OtherError) m else addRoom t obj Finished m
  | AfterIncr t obj r, RNumber epoch => after_incr t obj r epoch m
  | AfterEpochReset t obj r, RVoid => added t obj r m
  | AfterRedisGet t roomName, RSnapshot s => after_redis_get t roomName s m
  | AfterDrop t roomName, RVoid => suspend (AfterDb t roomName) m
  | AfterPasswordHash t state, RHash hash => load_state t (state <| opt_passwordHash := hash |>) m
  | AfterDb t roomName, RRow row => after_db t (Storage.getRoomByName row) m
  | AfterCheckpoint t obj reason preserve failed, _ =>
      if failed then finish t (Thrown OtherError) m else unload_rest t obj reason preserve m
  | AfterDel t obj reason, _ => suspend (AfterDelSync t obj reason) m
  | AfterDelSync t obj reason, _ => finish t Finished (emit (EUnload (room_name m obj) reason) m)
  | SweepUpdate obj rest, a => sweep_sync obj rest (rejected a) m
  | SweepSync obj rest, _ => sweep_stale obj rest m
  | _, _ => suspend k m
  end.

(** What happens to the manager: calls, the interval's tick, an answer for one of the
    waiting calls, and whatever a room object does on its own. *)
Inductive call :=
| Start
| Interval
| CreateRoom (o : RoomOptions) (password : option string)
| GetRoom (roomName : string) (mustAlreadyBeLoaded : bool)
| UnloadRoom (target : string + nat) (reason : UnloadReason) (preserveRedis : option bool)
| ShutdownAll
| UnloadAll
| ClearRooms
| RoomActs (obj : nat) (s : RoomStep)
| Resume (i : nat) (a : reply).

Definition run (c : call) (m : Manager) : Manager :=
  match c with
  | Start => m <| updaterInterval := true |>
  | Interval => if updaterInterval m then runUpdate m else m
  | CreateRoom o password => let '(t, m) := fresh_call m in createRoom t o password m
  | GetRoom roomName must => let '(t, m) := fresh_call m in getRoom t roomName must m
  | UnloadRoom target reason preserve =>
      let '(t, m) := fresh_call m in unloadRoom t target reason preserve m
  | ShutdownAll => shutdown m
  | UnloadAll => unloadAllRooms m
  | ClearRooms => clearRooms m
  | RoomActs obj s => on_room obj (perform s) m
  | Resume i a =>
      match pending m !! i with
      | Some k => resume k a (m <| pending ::= delete i |>)
      | None => m
      end
  end.

End Manager.

(** The states reachable from an empty manager, in any environments. *)
Inductive reachable : Manager -> Prop :=
| reach_new : reachable init
| reach_run (E : Env) (c : call) (m : Manager) :
    LodashLaws (@env_lodash E) -> reachable m -> reachable (run c m).

End Manager.
