(* ===== verification/RoomManagerFacts.v ===== *)
(** * RoomManagerFacts: the invariant of the room manager

    Every piece of a call is followed from the moment it is resumed to the moment it
    suspends or returns.  Meanwhile it may hold the place of the sweep, a room that is not
    yet in the array, and the name of the room it is about to add; the invariant [Inv]
    counts these with the calls that wait. *)

From S2P Require Import Prelude Types Permissions VideoQueue Subtitles RoomModel RoomPlayback.
From S2P Require Import RoomRequests RoomLifecycle RoomInvariants RoomReach RoomTheorems.
From S2P Require Import RoomStorage RoomManager.

Import Manager.

(** ** What the manager does to a room object *)

(** Keeps the name and the playback invariant. *)
Definition safe_method (f : Room -> Room) : Prop :=
  forall r, identity (f r) = identity r /\ (pb_inv false r -> pb_inv false (f r)).

Section Methods.
Context `{E : Env} {LL : LodashLaws env_lodash}.

Lemma safe_stable (f : Room -> Room) :
  (forall I : Room -> Prop, Stable I -> forall r, I r -> I (f r)) -> safe_method f.
Proof.
  intros Hf r. split; [by apply (Hf _ (identity_stable (identity r)))|].
  by apply Hf, pb_stable.
Qed.

Lemma safe_update : safe_method update.
Proof. apply safe_stable. intros I HI r. exact (update_keeps I HI r). Qed.
Lemma safe_sync : safe_method (fun r => (sync r).2).
Proof. apply safe_stable. intros I HI r. exact (keeps_sync I HI r). Qed.
Lemma safe_unload : safe_method (fun r => (onBeforeUnload r).2).
Proof. apply safe_stable. intros I HI r. exact (keeps_unload I HI r). Qed.
Lemma safe_perform s : safe_method (perform s).
Proof. apply safe_stable. intros I HI r. exact (perform_keeps I HI s r). Qed.
Lemma safe_setPasswordHash h : safe_method (setPasswordHash h).
Proof. intros r. split; [done|]. apply pb_inv_view. reflexivity. Qed.
End Methods.

Section Construct.
Context `{E : Env}.

Lemma identity_set_prevQueue v r : identity (set_prevQueue v r) = identity r.
Proof. apply identity_view, aux_set_prevQueue. Qed.

Lemma identity_construct o : identity (construct_room o) = (opt_name o, opt_isTemporary o).
Proof.
  assert (Hu : forall r, identity (upgrade_permissions o r) = identity r)
    by (intros r; unfold upgrade_permissions; case_match; reflexivity).
  assert (Hr : forall r, identity (restore_prev_queue r) = identity r).
  { intros r. unfold restore_prev_queue. cbv zeta. repeat case_match; try reflexivity.
    match goal with |- identity ((set_prevQueue None ?x) <| restoredFromStorage := _ |>) = _ =>
      transitivity (identity (set_prevQueue None x)); [reflexivity|] end.
    rewrite identity_set_prevQueue. reflexivity. }
  unfold construct_room. cbv zeta. rewrite Hu, Hr.
  case_match; [rewrite identity_set_prevQueue|]; reflexivity.
Qed.

Lemma pb_weaken b r : pb_inv b r -> pb_inv false r.
Proof. intros [Ht Hg Hp _]. split; [exact Ht|exact Hg|exact Hp|discriminate]. Qed.

Lemma pb_restored r : pb_inv false r -> pb_inv false (restoreFromStorage r).
Proof. intros [Ht Hg Hp _]. split; [exact Ht|exact Hg|exact Hp|discriminate]. Qed.
End Construct.

(** ** What a piece of a call holds *)

Definition is_sweep (t : caller) : bool := match t with Sweep _ => true | Call _ => false end.

(** Continuations of the sweep. *)
Definition sweeping (k : continuation) : bool :=
  match k with
  | SweepUpdate _ _ | SweepSync _ _ => true
  | AfterExists t _ _ | AfterNameTaken t _ _ | AfterSave t _ _ | AfterHash t _
  | AfterStorePassword t _ _ | AfterUpdate t _ | AfterSync t _ _ | AfterIncr t _ _
  | AfterEpochReset t _ _ | AfterRedisGet t _ | AfterDrop t _ | AfterPasswordHash t _
  | AfterDb t _ | AfterCheckpoint t _ _ _ _ | AfterDel t _ _ | AfterDelSync t _ _ => is_sweep t
  end.

(** The room a [createRoom] has made and not yet added. *)
Definition creating (k : continuation) : option nat :=
  match k with
  | AfterSave _ obj _ | AfterHash _ obj | AfterStorePassword _ obj _ | AfterUpdate _ obj
  | AfterSync _ obj _ => Some obj
  | _ => None
  end.

Definition low_name (m : Manager) (obj : nat) : string := toLowerCase (room_name m obj).

(** The name, in lower case, of the room a [createRoom] or [getRoom] has not yet added. *)
Definition loading (m : Manager) (k : continuation) : option string :=
  match k with
  | AfterExists _ o _ | AfterNameTaken _ o _ | AfterPasswordHash _ o => Some (toLowerCase (opt_name o))
  | AfterSave _ obj _ | AfterHash _ obj | AfterStorePassword _ obj _ | AfterUpdate _ obj
  | AfterSync _ obj _ => Some (low_name m obj)
  | AfterRedisGet _ n | AfterDrop _ n | AfterDb _ n => Some (toLowerCase n)
  | _ => None
  end.

Definition new_objects (h : option nat) (m : Manager) : list nat :=
  omap creating (pending m) ++ option_list h.
Definition new_names (n : option string) (m : Manager) : list string :=
  omap (loading m) (pending m) ++ option_list n.

Definition sweeps (m : Manager) : nat := length (List.filter sweeping (pending m)).

(** The invariant while a piece holds the sweep's place ([q]), a room ([h]), a name ([n]);
    when [apart], at most one call at a time is loading a room. *)
Record Inv (apart q : bool) (h : option nat) (n : option string) (m : Manager) : Prop := {
  i_heap : forall obj r, heap m !! obj = Some r -> (obj < nextObject m)%nat /\ pb_inv false r;
  i_objects : forall obj, obj ∈ rooms m ++ new_objects h m -> is_Some (heap m !! obj);
  i_once : NoDup (rooms m ++ new_objects h m);
  i_sweep : (sweeps m + Nat.b2n q = Nat.b2n (updaterRunning m))%nat;
  i_names : apart = true ->
    NoDup (map (low_name m) (rooms m) ++ new_names n m) /\ (length (new_names n m) <= 1)%nat;
}.

Section Moves.
Context (apart : bool).
Implicit Types (m : Manager) (q : bool) (h : option nat) (n : option string).

Lemma loading_eq m m' k :
  (forall obj, creating k = Some obj -> room_name m' obj = room_name m obj) ->
  loading m' k = loading m k.
Proof. destruct k; try done; cbn; intros H; unfold low_name; by rewrite H. Qed.

Lemma omap_loading_eq m m' (l : list continuation) :
  (forall obj, obj ∈ omap creating l -> room_name m' obj = room_name m obj) ->
  omap (loading m') l = omap (loading m) l.
Proof.
  intros H. induction l as [|k l IH]; [done|]. cbn.
  rewrite (loading_eq m m' k).
  - rewrite IH; [done|]. intros obj Hin. apply H. cbn. destruct (creating k); [by right|done].
  - intros obj Hk. apply H. cbn. rewrite Hk. by left.
Qed.

(** Only the parts the invariant reads matter. *)
Lemma inv_same q h n m m' :
  heap m' = heap m -> rooms m' = rooms m -> nextObject m' = nextObject m ->
  updaterRunning m' = updaterRunning m -> pending m' = pending m ->
  Inv apart q h n m -> Inv apart q h n m'.
Proof.
  intros H1 H2 H3 H4 H5 [A B C D F].
  assert (Hn : forall obj, room_name m' obj = room_name m obj) by (intros; unfold room_name; by rewrite H1).
  assert (Hl : new_names n m' = new_names n m).
  { unfold new_names. rewrite H5, (omap_loading_eq m m'); [done|]. intros; apply Hn. }
  split; unfold new_objects, sweeps in *; rewrite ?Hl, ?H1, ?H2, ?H3, ?H4, ?H5; try done.
  intros Ha. destruct (F Ha) as [F1 F2]. split; [|done].
  erewrite map_ext; [exact F1|]. intros obj. unfold low_name. by rewrite Hn.
Qed.

Lemma inv_suspend q h n k m :
  Inv apart q h n m -> sweeping k = q -> creating k = h -> loading m k = n ->
  Inv apart false None None (suspend k m).
Proof.
  intros [A B C D F] <- <- <-.
  assert (H1 : new_objects None (suspend k m) = new_objects (creating k) m).
  { unfold new_objects. cbn. rewrite app_nil_r, omap_app. cbn. by destruct (creating k). }
  assert (H2 : new_names None (suspend k m) = new_names (loading m k) m).
  { unfold new_names. cbn. rewrite app_nil_r, omap_app. cbn.
    change (loading (suspend k m) k) with (loading m k). by destruct (loading m k). }
  split; rewrite ?H1, ?H2; try done.
  unfold sweeps in *. cbn. rewrite List.filter_app, length_app. cbn. rewrite <- D.
  destruct (sweeping k); cbn; lia.
Qed.

Lemma filter_delete_length {A} (p : A -> bool) (l : list A) i x :
  l !! i = Some x ->
  (length (List.filter p (delete i l)) + Nat.b2n (p x) = length (List.filter p l))%nat.
Proof.
  revert i. induction l as [|y l IH]; intros [|i] Hi; try done.
  - injection Hi as ->. cbn. destruct (p x); cbn; lia.
  - cbn in Hi. apply IH in Hi. change (delete (S i) (y :: l)) with (y :: delete i l). cbn.
    destruct (p y); cbn; lia.
Qed.

Lemma omap_delete {A B} (f : A -> option B) (l : list A) i x :
  l !! i = Some x -> omap f (delete i l) ++ option_list (f x) ≡ₚ omap f l.
Proof.
  intros Hi. rewrite (delete_Permutation l i x Hi) at 2. cbn.
  destruct (f x) as [y|]; cbn; [|by rewrite app_nil_r]. by rewrite Permutation_app_comm.
Qed.

(** The piece that is resumed takes over what its continuation held. *)
Lemma inv_take i k m :
  pending m !! i = Some k -> Inv apart false None None m ->
  Inv apart (sweeping k) (creating k) (loading m k) (m <| pending ::= delete i |>).
Proof.
  intros Hi [A B C D F]. set (m1 := m <| pending ::= delete i |>).
  assert (H1 : rooms m1 ++ new_objects (creating k) m1 ≡ₚ rooms m ++ new_objects None m).
  { unfold new_objects. rewrite app_nil_r. apply Permutation_app_head.
    exact (omap_delete creating (pending m) i k Hi). }
  assert (H2 : new_names (loading m k) m1 ≡ₚ new_names None m).
  { unfold new_names. rewrite app_nil_r. exact (omap_delete (loading m) (pending m) i k Hi). }
  split; [exact A| | | |].
  - intros obj Hin. apply B. by rewrite <- H1.
  - by rewrite H1.
  - unfold sweeps in *. change (pending m1) with (delete i (pending m)).
    change (updaterRunning m1) with (updaterRunning m).
    rewrite (filter_delete_length sweeping _ _ _ Hi), <- D. apply plus_n_O.
  - intros Ha. destruct (F Ha) as [F1 F2]. split; [|by rewrite H2].
    change (map (low_name m1) (rooms m1)) with (map (low_name m) (rooms m)). by rewrite H2.
Qed.

Lemma inv_on_room q h n obj f m :
  safe_method f -> Inv apart q h n m -> Inv apart q h n (on_room obj f m).
Proof.
  intros Hf [A B C D F]. set (m1 := on_room obj f m).
  assert (Hn : forall x, room_name m1 x = room_name m x).
  { intros x. unfold room_name. change (heap m1) with (alter f obj (heap m)).
    destruct (decide (obj = x)) as [<-|Hne]; [|by rewrite lookup_alter_ne].
    rewrite lookup_alter_eq. destruct (heap m !! obj) as [r|]; [|done]. cbn.
    destruct (Hf r) as [[= H _] _]. exact H. }
  split.
  - intros x r. change (heap m1) with (alter f obj (heap m)). intros Hx.
    apply lookup_alter_Some in Hx as [(-> & r0 & Hr & ->)|[_ Hx]]; [|by apply A].
    destruct (A _ _ Hr) as [? Hg]. split; [done|]. by apply Hf.
  - intros x Hx. change (heap m1) with (alter f obj (heap m)).
    rewrite <- elem_of_dom, dom_alter_L, elem_of_dom. by apply B.
  - done.
  - done.
  - intros Ha. destruct (F Ha) as [F1 F2].
    assert (Hl : new_names n m1 = new_names n m).
    { unfold new_names. change (pending m1) with (pending m).
      rewrite (omap_loading_eq m m1); [done|]. intros; apply Hn. }
    rewrite Hl. split; [|done]. change (rooms m1) with (rooms m).
    erewrite map_ext; [exact F1|]. intros x. unfold low_name. by rewrite Hn.
Qed.

Lemma room_name_new r m obj :
  obj <> nextObject m -> room_name (new_room r m).2 obj = room_name m obj.
Proof. intros Hne. unfold room_name. cbn. by rewrite lookup_insert_ne. Qed.

Lemma inv_new_room q n r m :
  pb_inv false r -> Inv apart q None n m -> Inv apart q (Some (nextObject m)) n (new_room r m).2.
Proof.
  intros Hr [A B C D F]. set (m1 := (new_room r m).2).
  change (pending m) with (pending m1) in *.
  assert (Hold : forall obj, obj ∈ rooms m ++ new_objects None m -> obj <> nextObject m).
  { intros obj Hin ->. destruct (B _ Hin) as [x Hx]. apply A in Hx as [? _]. lia. }
  assert (Hobj : rooms m1 ++ new_objects (Some (nextObject m)) m1
    = (rooms m ++ new_objects None m) ++ [nextObject m]).
  { unfold new_objects. rewrite app_nil_r, app_assoc. done. }
  split.
  - intros obj x. change (heap m1) with (<[nextObject m := r]> (heap m)).
    change (nextObject m1) with (S (nextObject m)). intros Hx.
    apply lookup_insert_Some in Hx as [[<- <-]|[_ Hx]]; [split; [lia|done]|].
    apply A in Hx as [? ?]. split; [lia|done].
  - intros obj. rewrite Hobj. intros [Hin| ->%list_elem_of_singleton]%elem_of_app;
      change (heap m1) with (<[nextObject m := r]> (heap m)).
    + rewrite lookup_insert_ne; [by apply B|]. intros Heq. by apply (Hold obj).
    + by rewrite lookup_insert_eq.
  - rewrite Hobj. apply NoDup_snoc; [done|]. intros Hin. by apply (Hold _ Hin).
  - done.
  - intros Ha. destruct (F Ha) as [F1 F2].
    assert (Hl : new_names n m1 = new_names n m).
    { unfold new_names. f_equal. apply omap_loading_eq. intros obj Hin. apply room_name_new.
      apply Hold, elem_of_app. right. unfold new_objects. rewrite app_nil_r. exact Hin. }
    rewrite Hl. split; [|done]. change (rooms m1) with (rooms m).
    erewrite map_ext_in; [exact F1|]. intros obj Hin. unfold low_name. f_equal. apply room_name_new.
    apply Hold, elem_of_app. left. by apply list_elem_of_In.
Qed.

Lemma minv_add q obj m :
  Inv apart q (Some obj) (Some (low_name m obj)) m ->
  Inv apart q None None (m <| rooms ::= fun l => l ++ [obj] |>).
Proof.
  intros [A B C D F]. set (m1 := m <| rooms ::= _ |>).
  assert (H1 : rooms m1 ++ new_objects None m1 ≡ₚ rooms m ++ new_objects (Some obj) m).
  { unfold new_objects. rewrite app_nil_r. change (rooms m1) with (rooms m ++ [obj]).
    rewrite <- app_assoc. apply Permutation_app_head. apply Permutation_app_comm. }
  split; [exact A| | |exact D|].
  - intros x Hx. apply B. by rewrite <- H1.
  - by rewrite H1.
  - intros Ha. destruct (F Ha) as [F1 F2]. unfold new_names in *. cbn [option_list] in *.
    change (pending m1) with (pending m). change (rooms m1) with (rooms m ++ [obj]).
    change (omap (loading m1) (pending m)) with (omap (loading m) (pending m)).
    change (map (low_name m1)) with (map (low_name m)). rewrite app_nil_r, map_app. cbn [map].
    rewrite length_app in F2. cbn in F2. split; [|lia].
    rewrite <- app_assoc, (Permutation_app_comm [_]). exact F1.
Qed.

(** Rooms leave the array. *)
Lemma inv_shrink q h n l m :
  sublist l (rooms m) -> Inv apart q h n m -> Inv apart q h n (m <| rooms := l |>).
Proof.
  intros Hl [A B C D F]. set (m1 := m <| rooms := l |>).
  assert (Hs : sublist (l ++ new_objects h m) (rooms m ++ new_objects h m)) by by apply sublist_app.
  split; [exact A| | |exact D|].
  - intros x Hx. apply B. eapply elem_of_submseteq; [exact Hx|]. by apply sublist_submseteq.
  - exact (sublist_NoDup _ _ C Hs).
  - intros Ha. destruct (F Ha) as [F1 F2]. split; [|exact F2].
    eapply sublist_NoDup; [exact F1|]. change (new_names n m1) with (new_names n m).
    apply sublist_app; [|done]. apply (fmap_sublist (low_name m)). exact Hl.
Qed.

(** What a piece holds may be dropped. *)
Lemma inv_drop q h n m : Inv apart q h n m -> Inv apart q None None m.
Proof.
  intros [A B C D F]. split; [exact A| | |exact D|].
  - intros x Hx. apply B. unfold new_objects in *. rewrite app_nil_r in Hx.
    rewrite app_assoc. apply elem_of_app. by left.
  - unfold new_objects in *. rewrite app_nil_r. rewrite app_assoc in C. by apply NoDup_app in C as [C _].
  - intros Ha. destruct (F Ha) as [F1 F2]. unfold new_names in *. rewrite app_nil_r.
    rewrite app_assoc in F1. apply NoDup_app in F1 as [F1 _]. split; [done|].
    rewrite length_app in F2. lia.
Qed.
End Moves.

(** ** The pieces of the calls *)

Section Pieces.
Context `{E : Env} {LL : LodashLaws env_lodash} (apart : bool).
Implicit Types (m : Manager) (t : caller).

Notation settled_inv := (Inv apart false None None).

Lemma inv_emit q h n e m : Inv apart q h n m -> Inv apart q h n (emit e m).
Proof. by apply inv_same. Qed.

Lemma inv_sweep_next rest m : Inv apart true None None m -> settled_inv (sweep_next rest m).
Proof.
  intros Hm. destruct rest as [|obj rest]; cbn.
  - destruct Hm as [A B C D F]. split; try done.
    change (sweeps m + 0 = 0)%nat. destruct (updaterRunning m); unfold Nat.b2n in D; lia.
  - eapply inv_suspend; [|done|done|done]. apply inv_on_room; [apply safe_update|exact Hm].
Qed.

Lemma inv_finish t r h n m : Inv apart (is_sweep t) h n m -> settled_inv (finish t r m).
Proof.
  intros Hm%inv_drop. destruct t; cbn; [by apply inv_emit|by apply inv_sweep_next].
Qed.

Lemma inv_addRoom t obj r m :
  Inv apart (is_sweep t) (Some obj) (Some (low_name m obj)) m -> settled_inv (addRoom t obj r m).
Proof. intros Hm%minv_add. by eapply inv_suspend. Qed.

Lemma inv_added t obj r m : Inv apart (is_sweep t) None None m -> settled_inv (added t obj r m).
Proof. intros Hm. by eapply inv_finish, inv_emit. Qed.

Lemma inv_after_incr t obj r epoch m :
  Inv apart (is_sweep t) None None m -> settled_inv (after_incr t obj r epoch m).
Proof.
  intros Hm. unfold after_incr. cbv zeta. set (m1 := m <| loadEpoch ::= _ |>).
  assert (H1 : Inv apart (is_sweep t) None None m1) by by apply (inv_same _ _ _ _ m).
  clearbody m1. case_match; [by eapply inv_suspend|by apply inv_added].
Qed.

(** A room in hand exists, and so has a name. *)
Lemma hand_exists q obj n m : Inv apart q (Some obj) n m -> is_Some (heap m !! obj).
Proof.
  intros Hm. apply (i_objects _ _ _ _ _ Hm). apply elem_of_app. right. apply elem_of_app. right. by left.
Qed.

Lemma low_name_on_room obj f x m : safe_method f -> low_name (on_room obj f m) x = low_name m x.
Proof.
  intros Hf. unfold low_name, room_name. change (heap (on_room obj f m)) with (alter f obj (heap m)).
  destruct (decide (obj = x)) as [<-|Hne]; [|by rewrite lookup_alter_ne].
  rewrite lookup_alter_eq. destruct (heap m !! obj) as [r|]; [|done]. cbn.
  by destruct (Hf r) as [[= -> _] _].
Qed.

(** A creation goes on with its room in hand. *)
Lemma inv_create_suspend k t obj f m :
  safe_method f -> sweeping k = is_sweep t -> creating k = Some obj ->
  (forall m', loading m' k = Some (low_name m' obj)) ->
  Inv apart (is_sweep t) (Some obj) (Some (low_name m obj)) m ->
  settled_inv (suspend k (on_room obj f m)).
Proof.
  intros Hf H1 H2 H3 Hm. eapply inv_suspend; [|exact H1|exact H2|apply H3].
  rewrite low_name_on_room by done. by apply inv_on_room.
Qed.

Lemma inv_create_hold k t obj m :
  sweeping k = is_sweep t -> creating k = Some obj -> loading m k = Some (low_name m obj) ->
  Inv apart (is_sweep t) (Some obj) (Some (low_name m obj)) m -> settled_inv (suspend k m).
Proof. intros H1 H2 H3 Hm. by eapply inv_suspend. Qed.

Lemma inv_finish_create t obj m :
  Inv apart (is_sweep t) (Some obj) (Some (low_name m obj)) m -> settled_inv (finish_create t obj m).
Proof. apply (inv_create_suspend (AfterUpdate t obj) t); [apply safe_update|done..]. Qed.

Lemma inv_create_sync t obj m :
  Inv apart (is_sweep t) (Some obj) (Some (low_name m obj)) m -> settled_inv (create_sync t obj m).
Proof.
  intros Hm. unfold create_sync. destruct (hand_exists _ _ _ _ Hm) as [r ->].
  apply (inv_create_suspend (AfterSync t obj _) t); [apply safe_sync|done..].
Qed.

Lemma inv_create_password t obj password m :
  Inv apart (is_sweep t) (Some obj) (Some (low_name m obj)) m -> settled_inv (create_password t obj password m).
Proof.
  intros Hm. unfold create_password. repeat case_match; try by apply inv_finish_create.
  by apply (inv_create_hold (AfterHash t obj) t obj).
Qed.

Lemma low_name_new r m : low_name (new_room r m).2 (nextObject m) = toLowerCase (name r).
Proof. unfold low_name, room_name. cbn. by rewrite lookup_insert_eq. Qed.

(** A room is made for a call that has its name in hand. *)
Lemma inv_made q r m :
  pb_inv false r -> Inv apart q None (Some (toLowerCase (name r))) m ->
  Inv apart q (Some (nextObject m)) (Some (low_name (new_room r m).2 (nextObject m))) (new_room r m).2.
Proof. intros Hr Hm. rewrite low_name_new. by apply inv_new_room. Qed.

Lemma constructed_ok o : pb_inv false (construct_room o) /\ name (construct_room o) = opt_name o.
Proof.
  split; [eapply pb_weaken, pb_construct|]. by pose proof (identity_construct o) as [= H _].
Qed.

Lemma inv_create_construct t o password m :
  Inv apart (is_sweep t) None (Some (toLowerCase (opt_name o))) m ->
  settled_inv (create_construct t o password m).
Proof.
  destruct (constructed_ok o) as [Hpb <-]. intros Hm%inv_made; [|done].
  unfold create_construct. cbn [new_room] in *. set (m1 := m <| heap ::= _ |> <| loadEpoch ::= _ |> <| nextObject ::= S |>) in *.
  change (new_room (construct_room o) m).2 with m1 in Hm.
  case_match; [by apply inv_create_password|].
  by apply (inv_create_hold (AfterSave t (nextObject m) password) t (nextObject m)).
Qed.

Lemma inv_after_hash t obj hash m :
  Inv apart (is_sweep t) (Some obj) (Some (low_name m obj)) m -> settled_inv (after_hash t obj hash m).
Proof.
  intros Hm. unfold after_hash. destruct (hand_exists _ _ _ _ Hm) as [r ->]. case_match.
  - apply inv_finish_create. rewrite low_name_on_room by apply safe_setPasswordHash.
    apply inv_on_room; [apply safe_setPasswordHash|exact Hm].
  - by apply (inv_create_hold (AfterStorePassword t obj hash) t obj).
Qed.

Lemma inv_after_store t obj hash updated m :
  Inv apart (is_sweep t) (Some obj) (Some (low_name m obj)) m ->
  settled_inv (after_store_password t obj hash updated m).
Proof.
  intros Hm. unfold after_store_password. case_match; [|by eapply inv_finish].
  apply inv_finish_create. rewrite low_name_on_room by apply safe_setPasswordHash.
  apply inv_on_room; [apply safe_setPasswordHash|exact Hm].
Qed.

(** A loaded room is added at once. *)
Lemma inv_load t r res m :
  pb_inv false r -> Inv apart (is_sweep t) None (Some (toLowerCase (name r))) m ->
  settled_inv (addRoom t (nextObject m) res (new_room r m).2).
Proof. intros Hr Hm%inv_made; [|done]. by apply inv_addRoom. Qed.

Lemma inv_load_state t state m :
  Inv apart (is_sweep t) None (Some (toLowerCase (opt_name state))) m ->
  settled_inv (load_state t state m).
Proof.
  destruct (constructed_ok state) as [Hpb <-]. intros Hm. by apply (inv_load t (construct_room state)).
Qed.

Lemma redisStateToState_name st state : redisStateToState st = inr state -> opt_name state = st_name st.
Proof. unfold redisStateToState. case_match; [done|]. by intros [= <-]. Qed.

Lemma inv_after_redis_get t roomName s m :
  (apart = true -> forall st, s = Some (Some st) -> toLowerCase (st_name st) = toLowerCase roomName) ->
  Inv apart (is_sweep t) None (Some (toLowerCase roomName)) m ->
  settled_inv (after_redis_get t roomName s m).
Proof.
  intros Hn Hm. unfold after_redis_get. destruct s as [[st|]|]; [|by eapply inv_suspend..].
  destruct (redisStateToState st) as [e|state] eqn:Hst; [by eapply inv_suspend|].
  pose proof (redisStateToState_name _ _ Hst) as Hname.
  assert (Hm' : Inv apart (is_sweep t) None (Some (toLowerCase (opt_name state))) m).
  { rewrite Hname. destruct apart; [by rewrite (Hn eq_refl st)|].
    destruct Hm as [A B C D _]. by split. }
  destruct (opt_isTemporary state) eqn:Ht; cbv zeta; rewrite ?Ht; [by apply inv_load_state|].
  rsimpl. change (opt_isTemporary (state <| opt_isPlaying := false |>)) with (opt_isTemporary state).
  rewrite Ht. by eapply inv_suspend.
Qed.

Lemma inv_after_db t roomName opts m :
  (apart = true -> forall o, opts = Some o -> toLowerCase (opt_name o) = toLowerCase roomName) ->
  Inv apart (is_sweep t) None (Some (toLowerCase roomName)) m ->
  settled_inv (after_db t opts m).
Proof.
  intros Hn Hm. unfold after_db. destruct opts as [o|]; [|by eapply inv_finish].
  destruct (constructed_ok o) as [Hpb Hname].
  apply (inv_load t (restoreFromStorage (construct_room o))); [by apply pb_restored|].
  change (name (restoreFromStorage (construct_room o))) with (name (construct_room o)). rewrite Hname.
  destruct apart; [by rewrite (Hn eq_refl o)|]. destruct Hm as [A B C D _]. by split.
Qed.

Lemma inv_unload_rest t obj reason preserve m :
  Inv apart (is_sweep t) None None m -> settled_inv (unload_rest t obj reason preserve m).
Proof.
  intros Hm. unfold unload_rest. destruct (indexOf obj (rooms m)) as [idx|]; [|by eapply inv_finish].
  cbv zeta. set (m1 := m <| rooms ::= delete idx |>).
  assert (H1 : Inv apart (is_sweep t) None None m1) by (apply inv_shrink; [apply sublist_delete|exact Hm]).
  clearbody m1. case_match; [by eapply inv_finish, inv_emit|by eapply inv_suspend].
Qed.

Lemma find_room_loaded m roomName obj : find_room m roomName = Some obj -> obj ∈ rooms m.
Proof. intros [H _]%List.find_some. by apply list_elem_of_In. Qed.

Lemma inv_unloadRoom t target reason preserve m :
  (is_sweep t = true -> exists roomName, target = inl roomName) ->
  Inv apart (is_sweep t) None None m -> settled_inv (unloadRoom t target reason preserve m).
Proof.
  intros Ht Hm. unfold unloadRoom. cbv zeta. destruct (resolve target m) as [obj|] eqn:Hr.
  2: by eapply inv_finish.
  case_decide; [by apply inv_unload_rest|]. destruct (heap m !! obj) as [r|] eqn:Hh.
  - eapply inv_suspend; [|done|done|done]. apply inv_on_room; [apply safe_unload|exact Hm].
  - destruct t as [id|rest]; [exact Hm|]. destruct (Ht eq_refl) as [roomName ->].
    cbn in Hr. apply find_room_loaded in Hr. destruct (i_objects _ _ _ _ _ Hm obj) as [r Hx].
    + apply elem_of_app. by left.
    + congruence.
Qed.

Lemma inv_sweep_stale obj rest m : Inv apart true None None m -> settled_inv (sweep_stale obj rest m).
Proof.
  intros Hm. unfold sweep_stale. repeat case_match; try by apply inv_sweep_next.
  apply inv_unloadRoom; [by eexists|exact Hm].
Qed.

Lemma inv_sweep_sync obj rest failed m :
  Inv apart true None None m -> settled_inv (sweep_sync obj rest failed m).
Proof.
  intros Hm. unfold sweep_sync. case_match; [by apply inv_sweep_stale|].
  eapply inv_suspend; [|done|done|done]. apply inv_on_room; [apply safe_sync|exact Hm].
Qed.

(** Answers that name the room asked for, as the key of a snapshot and the query of a row do. *)
Definition honest (k : continuation) (a : reply) : Prop :=
  match k, a with
  | AfterRedisGet _ n, RSnapshot (Some (Some st)) => toLowerCase (st_name st) = toLowerCase n
  | AfterDb _ n, RRow (Some (_, d)) => toLowerCase (Storage.db_name d) = toLowerCase n
  | _, _ => True
  end.

Lemma getRoomByName_name row o :
  Storage.getRoomByName row = Some o -> exists joined d, row = Some (joined, d) /\ opt_name o = Storage.db_name d.
Proof.
  unfold Storage.getRoomByName, Storage.dbToRoomArgs. destruct row as [[joined d]|]; [|done].
  destruct (Grants.construct _); [done|]. intros [= <-]. by exists joined, d.
Qed.

Lemma minv_resume k a m :
  (apart = true -> honest k a) ->
  Inv apart (sweeping k) (creating k) (loading m k) m -> settled_inv (resume k a m).
Proof.
  intros Hh Hm. assert (Hback : settled_inv (suspend k m)) by by eapply inv_suspend.
  destruct k; cbn [sweeping creating loading] in Hm;
    try by (apply inv_sweep_sync || apply inv_sweep_stale).
  all: destruct a; try exact Hback; try (by eapply inv_finish); cbn [resume];
    try (by eapply inv_suspend); try (by eapply inv_finish, inv_emit);
    try (case_match; [by eapply inv_finish|by apply inv_unload_rest]).
  - case_match; [by eapply inv_finish|by eapply inv_suspend].
  - case_match; [by eapply inv_finish|by apply inv_create_construct].
  - case_match; [by apply inv_create_password|by eapply inv_finish].
  - case_match; [by apply inv_after_hash|exact Hback].
  - by apply inv_after_store.
  - by apply inv_create_sync.
  - case_match; [by eapply inv_finish|by apply inv_addRoom].
  - by apply inv_after_incr.
  - eapply inv_after_redis_get; [|exact Hm]. intros Ha st ->. exact (Hh Ha).
  - by apply inv_load_state.
  - eapply inv_after_db; [|exact Hm]. intros Ha o (joined & d & -> & ->)%getRoomByName_name. exact (Hh Ha).
Qed.
End Pieces.
