(* ===== verification/RoomManagerTheorems.v ===== *)
(** * RoomManagerTheorems: what the room manager promises

    Its invariant in every interleaving; that names stay unique as long as loads do not
    overlap, and that they do not otherwise; that a room leaves the array only once it is
    saved; that a sweep ends; and what a loaded room is like. *)

From S2P Require Import Prelude Types Permissions VideoQueue Subtitles RoomModel RoomPlayback.
From S2P Require Import RoomRequests RoomLifecycle RoomInvariants RoomReach RoomSamples.
From S2P Require Import RoomTheorems RoomHistory RoomStorage RoomManager RoomManagerFacts.

Import Manager.

(** ** Every step *)

(** The calls that may load a room. *)
Definition loads (c : call) : bool :=
  match c with CreateRoom _ _ | GetRoom _ _ => true | _ => false end.

Section Steps.
Context `{E : Env} {LL : LodashLaws env_lodash} (apart : bool).
Implicit Types (m : Manager).

Notation settled_inv := (Inv apart false None None).

Lemma inv_fresh q h n m : Inv apart q h n m -> Inv apart q h n (fresh_call m).2.
Proof. by apply inv_same. Qed.

(** A name no loaded room has may be taken in hand when no other load is under way. *)
Lemma inv_begin roomName m :
  (apart = true -> Forall (fun k => loading m k = None) (pending m)) ->
  find_room m roomName = None -> settled_inv m -> Inv apart false None (Some (toLowerCase roomName)) m.
Proof.
  intros Hl Hf [A B C D F]. split; try done. intros Ha. destruct (F Ha) as [F1 F2].
  assert (Hnone : omap (loading m) (pending m) = []).
  { specialize (Hl Ha). induction Hl as [|k l Hk _ IH]; [done|]. cbn. by rewrite Hk. }
  unfold new_names in *. rewrite Hnone in *. cbn in *. split; [|lia]. rewrite app_nil_r in F1.
  apply NoDup_snoc; [exact F1|]. intros (obj & Ho & Hin)%list_elem_of_fmap.
  apply list_elem_of_In in Hin. pose proof (List.find_none _ _ Hf obj Hin) as Hn. cbn in Hn.
  unfold same_name in Hn. rewrite bool_decide_eq_false in Hn. apply Hn. unfold low_name in Ho. done.
Qed.

Lemma inv_unload_all names reason preserve m :
  settled_inv m -> settled_inv (unload_all names reason preserve m).
Proof.
  unfold unload_all. revert m. induction names as [|x names IH]; intros m Hm; [exact Hm|].
  cbn [fold_left]. apply IH. cbn [fresh_call]. apply inv_unloadRoom; [done|].
  exact (inv_fresh _ _ _ _ Hm).
Qed.

Lemma inv_run c m :
  (apart = true -> loads c = true -> Forall (fun k => loading m k = None) (pending m)) ->
  (apart = true -> forall i a k, c = Resume i a -> pending m !! i = Some k -> honest k a) ->
  settled_inv m -> settled_inv (run c m).
Proof.
  intros Hl Hh Hm. pose proof (inv_fresh _ _ _ _ Hm) as Hm'.
  destruct c as [| |o password|roomName must|target reason preserve| | | |obj s|i a];
    cbn [run fresh_call] in *.
  - by apply (inv_same _ _ _ _ m).
  - case_match; [|exact Hm]. unfold runUpdate. destruct (updaterRunning m) eqn:Hr; [exact Hm|].
    apply inv_sweep_next. destruct Hm as [A B C D F]. split; try done.
    change (sweeps m + 1 = 1)%nat. rewrite Hr in D. unfold Nat.b2n in D. lia.
  - unfold createRoom. destruct (find_room _ _) eqn:Hf; [by eapply inv_finish|].
    apply (inv_suspend _ false None (Some (toLowerCase (opt_name o)))); [|done..].
    apply inv_begin; [|exact Hf|exact Hm']. intros Ha. exact (Hl Ha eq_refl).
  - unfold getRoom. destruct (find_room _ _) eqn:Hf; [by eapply inv_finish|].
    case_match; [by eapply inv_finish|].
    apply (inv_suspend _ false None (Some (toLowerCase roomName))); [|done..].
    apply inv_begin; [|exact Hf|exact Hm']. intros Ha. exact (Hl Ha eq_refl).
  - by apply inv_unloadRoom.
  - unfold shutdown. cbv zeta. apply inv_unload_all. by apply (inv_same _ _ _ _ m).
  - unfold unloadAllRooms. by apply inv_unload_all.
  - apply inv_shrink; [apply sublist_nil_l|exact Hm].
  - apply inv_on_room; [apply safe_perform|exact Hm].
  - destruct (pending m !! i) as [k|] eqn:Hi; [|exact Hm].
    apply minv_resume; [intros Ha; by eapply Hh|].
    exact (inv_take _ _ _ _ Hi Hm).
Qed.
End Steps.

Lemma inv_init b : Inv b false None None init.
Proof. split; try done; [by intros obj []%not_elem_of_nil|constructor|]. split; [constructor|cbn; lia]. Qed.

Lemma manager_inv m : reachable m -> Inv false false None None m.
Proof. induction 1 as [|E c m LL _ IH]; [apply inv_init|]. by apply inv_run. Qed.

(** Managers where a room is created or fetched only when no other load is under way, and
    the stores answer with the room that was asked for. *)
Inductive apart : Manager -> Prop :=
| apart_new : apart init
| apart_run (E : Env) (c : call) (m : Manager) :
    LodashLaws (@env_lodash E) -> apart m ->
    (loads c = true -> Forall (fun k => loading m k = None) (pending m)) ->
    (forall i a k, c = Resume i a -> pending m !! i = Some k -> honest k a) ->
    apart (run c m).

Lemma apart_inv m : apart m -> Inv true false None None m.
Proof. induction 1 as [|E c m LL _ IH H1 H2]; [apply inv_init|]. by apply inv_run. Qed.

(** C25: The manager is consistent whatever calls overlap and however Redis and the database
    answer: no room object is in the array twice; every one of them is a room in which a
    held speed, a buffer gate and a start round exclude one another as the room promises;
    and the updater is marked running exactly while one sweep, and only one, is under way. *)
Theorem manager_consistent m :
  reachable m ->
  NoDup (rooms m) /\
  (forall obj, obj ∈ rooms m -> exists r, heap m !! obj = Some r /\
     (is_Some (temporarySpeed r) -> isPlaying r = true) /\
     (forall g, bufferGate r = Some g -> isPlaying r = false /\ resumeOnNextJoin r = false) /\
     (forall p, playbackPreparation r = Some p -> isPlaying r = false /\ resumeOnNextJoin r = true)) /\
  length (List.filter sweeping (pending m)) = if updaterRunning m then 1%nat else 0%nat.
Proof.
  intros [A B C D _]%manager_inv. apply NoDup_app in C as (C & _ & _). split_and!; [exact C| |].
  - intros obj Hin. destruct (B obj) as [r Hr]; [apply elem_of_app; by left|]. exists r.
    destruct (A _ _ Hr) as [_ [Ht Hg Hp _]]. split_and!; [done|done| |].
    + intros g Hg'. by destruct (Hg g Hg') as (? & _ & ?).
    + intros p Hp'. by destruct (Hp p Hp') as (? & ? & _).
  - unfold sweeps in D. destruct (updaterRunning m); unfold Nat.b2n in D; lia.
Qed.

(** Names are unique as long as loads do not overlap: if [createRoom] and [getRoom] are only
    called while no other call is loading a room, then, with unloads, sweeps and the rooms'
    own activity interleaved at will, no two loaded rooms have the same name up to case. *)
Theorem loads_apart_keep_names_unique m :
  apart m -> NoDup (map (fun obj => toLowerCase (room_name m obj)) (rooms m)).
Proof.
  intros Hm%apart_inv. destruct (i_names _ _ _ _ _ Hm eq_refl) as [H _]. by apply NoDup_app in H as [H _].
Qed.

(** ** Leaving the array *)

Section Leaving.
Context `{E : Env}.
Implicit Types (m : Manager) (t : caller).

Lemma rooms_sweep_next rest m : rooms (sweep_next rest m) = rooms m.
Proof. by destruct rest. Qed.
Lemma rooms_finish t r m : rooms (finish t r m) = rooms m.
Proof. destruct t; [done|apply rooms_sweep_next]. Qed.

(** Nothing leaves. *)
Definition keeps_rooms m m' : Prop := forall obj, obj ∈ rooms m -> obj ∈ rooms m'.

Lemma keeps_same m m' : rooms m' = rooms m -> keeps_rooms m m'.
Proof. intros H obj. by rewrite H. Qed.
Lemma keeps_finish t r m m' : keeps_rooms m m' -> keeps_rooms m (finish t r m').
Proof. intros H obj Hin. rewrite rooms_finish. by apply H. Qed.
Lemma keeps_addRoom t obj r m m' : keeps_rooms m m' -> keeps_rooms m (addRoom t obj r m').
Proof. intros H x Hin. cbn. apply elem_of_app. left. by apply H. Qed.

Lemma unload_rest_leaves t x reason preserve m obj :
  obj ∈ rooms m -> obj ∉ rooms (unload_rest t x reason preserve m) -> obj = x.
Proof.
  intros Hin Hout. unfold unload_rest in Hout. destruct (indexOf x (rooms m)) as [idx|] eqn:Hi.
  2: { rewrite rooms_finish in Hout. done. }
  cbv zeta in Hout. set (m1 := m <| rooms ::= delete idx |>) in *.
  assert (Hd : obj ∉ delete idx (rooms m)).
  { change (obj ∉ rooms m1). destruct preserve; [by rewrite rooms_finish in Hout|exact Hout]. }
  unfold indexOf in Hi. apply fmap_Some in Hi as ([i y] & Hf & ->).
  apply list_find_Some in Hf as (Hy & <- & _). apply list_elem_of_lookup in Hin as [j Hj].
  destruct (decide (j = i)) as [->|Hne]; [rewrite Hj in Hy; by injection Hy|]. exfalso. apply Hd.
  apply list_elem_of_lookup. destruct (decide (j < i)%nat).
  - exists j. cbn. by rewrite list_lookup_delete_lt.
  - exists (j - 1)%nat. cbn. rewrite list_lookup_delete_ge by lia. by replace (S (j - 1)) with j by lia.
Qed.

Lemma rooms_unloadRoom t target reason preserve m :
  reason <> Commanded -> rooms (unloadRoom t target reason preserve m) = rooms m.
Proof.
  intros Hr. unfold unloadRoom. cbv zeta. destruct (resolve target m); [|apply rooms_finish].
  rewrite decide_False by done. by destruct (heap m !! n).
Qed.

Lemma rooms_sweep_stale obj rest m : rooms (sweep_stale obj rest m) = rooms m.
Proof.
  unfold sweep_stale. repeat case_match; [by apply rooms_unloadRoom|apply rooms_sweep_next..].
Qed.

Lemma rooms_unload_all names reason preserve m :
  reason <> Commanded -> rooms (unload_all names reason preserve m) = rooms m.
Proof.
  intros Hr. unfold unload_all. revert m. induction names as [|x names IH]; intros m; [done|].
  cbn [fold_left fresh_call]. rewrite IH. by rewrite rooms_unloadRoom.
Qed.

Lemma keeps_create_password t obj password m : keeps_rooms m (create_password t obj password m).
Proof. unfold create_password. repeat case_match; by apply keeps_same. Qed.

Lemma keeps_load_state t state m : keeps_rooms m (load_state t state m).
Proof. unfold load_state. cbn [new_room]. by apply keeps_addRoom, keeps_same. Qed.

Lemma resume_leaves k a m obj :
  obj ∈ rooms m -> obj ∉ rooms (resume k a m) ->
  exists t reason preserve, k = AfterCheckpoint t obj reason preserve false /\ a <> RReject.
Proof.
  intros Hin Hout.
  assert (Hk : forall m', keeps_rooms m m' -> rooms m' = rooms (resume k a m) -> False).
  { intros m' H1 H2. apply Hout. rewrite <- H2. by apply H1. }
  assert (Hcp : keeps_rooms m (resume k a m) -> False) by (intros H; by apply (Hk (resume k a m))).
  destruct k; cbn [resume] in *.
  17: { exfalso. apply Hcp. unfold sweep_sync. case_match;
        apply keeps_same; [apply rooms_sweep_stale|done]. }
  17: { exfalso. apply Hcp, keeps_same, rooms_sweep_stale. }
  all: destruct a; try (exfalso; apply Hcp; by apply keeps_same);
    try (exfalso; apply Hcp; by apply keeps_finish, keeps_same);
    try (destruct failed; [exfalso; apply Hcp; by apply keeps_finish, keeps_same|];
         apply (unload_rest_leaves _ _ _ _ _ _ Hin) in Hout as ->; by repeat eexists).
  - exfalso. apply Hcp. case_match; [by apply keeps_finish, keeps_same|by apply keeps_same].
  - exfalso. apply Hcp. case_match; [by apply keeps_finish, keeps_same|]. unfold create_construct. cbn [new_room].
    case_match; [|by apply keeps_same]. intros x Hx. by apply keeps_create_password.
  - exfalso. apply Hcp. case_match; [apply keeps_create_password|by apply keeps_finish, keeps_same].
  - exfalso. apply Hcp. unfold after_hash. repeat case_match; by apply keeps_same.
  - exfalso. apply Hcp. unfold after_store_password. case_match; [by apply keeps_same|by apply keeps_finish, keeps_same].
  - exfalso. apply Hcp. unfold create_sync. case_match; by apply keeps_same.
  - exfalso. apply Hcp. case_match; [by apply keeps_finish, keeps_same|by apply keeps_addRoom, keeps_same].
  - exfalso. apply Hcp. unfold after_incr. cbv zeta. case_match; [by apply keeps_same|].
    by apply keeps_finish, keeps_same.
  - exfalso. apply Hcp. unfold after_redis_get. cbv zeta. repeat case_match; try by apply keeps_same.
    all: apply keeps_load_state.
  - exfalso. apply Hcp. apply keeps_load_state.
  - exfalso. apply Hcp. unfold after_db. case_match; [|by apply keeps_finish, keeps_same]. cbn [new_room].
    by apply keeps_addRoom, keeps_same.
Qed.
End Leaving.

(** C26: A room is taken out of the array only when that is safe: in any step of any call, a
    loaded room disappears only because all rooms are cleared, because the balancer
    commanded that very room's unloading, or because an unloading of that very room goes on
    after its last checkpoint has succeeded. *)
Theorem rooms_leave_only_saved `{E : Env} c m obj :
  obj ∈ rooms m -> obj ∉ rooms (run c m) ->
  c = ClearRooms \/
  (exists target preserve, c = UnloadRoom target Commanded preserve /\
     resolve target m = Some obj) \/
  (exists i a t reason preserve, c = Resume i a /\ a <> RReject /\
     pending m !! i = Some (AfterCheckpoint t obj reason preserve false)).
Proof.
  intros Hin Hout. destruct c as [| |o password|roomName must|target reason preserve| | | |x s|i a];
    cbn [run fresh_call] in Hout; try done.
  - exfalso. apply Hout. case_match; [|done]. unfold runUpdate. case_match; [done|].
    by rewrite rooms_sweep_next.
  - exfalso. apply Hout. unfold createRoom. case_match; [by rewrite rooms_finish|done].
  - exfalso. apply Hout. unfold getRoom. repeat case_match; [by rewrite rooms_finish..|done].
  - right. left. destruct (decide (reason = Commanded)) as [->|Hr].
    2: { exfalso. apply Hout. by rewrite rooms_unloadRoom. }
    exists target, preserve. split; [done|]. unfold unloadRoom in Hout. cbv zeta in Hout.
    change (resolve target (m <| nextCall ::= S |>)) with (resolve target m) in Hout.
    destruct (resolve target m) as [x|]; [|by rewrite rooms_finish in Hout].
    rewrite decide_True in Hout by done. f_equal. symmetry.
    by eapply unload_rest_leaves; [|exact Hout].
  - exfalso. apply Hout. unfold shutdown. cbv zeta. by rewrite rooms_unload_all.
  - exfalso. apply Hout. unfold unloadAllRooms. by rewrite rooms_unload_all.
  - by left.
  - right. right. destruct (pending m !! i) as [k|] eqn:Hi; [|done].
    apply resume_leaves in Hout as (t & reason & preserve & -> & Ha); [|done].
    by exists i, a, t, reason, preserve.
Qed.

(** ** The last checkpoint of a room *)

Section Checkpoint.
Context `{E : Env}.
Implicit Types (r : Room).

(** The queue a room leaves behind: what is on, marked to resume where it stands, then the rest. *)
Definition left_behind (r : Room) (position : Q) : list QueueItem :=
  match currentSource r with Some v => [v <| qi_startAt := Some position |>] | None => [] end
  ++ items (queue r).

(** The timers [prepare_unload] has cleared stay cleared. *)
Definition timers r := (playbackStartTimer r, pendingLeaveEvents r).

Lemma timers_endTemp x r : timers (endTemporaryPlaybackSpeed x r) = timers r.
Proof.
  unfold endTemporaryPlaybackSpeed, flushPlaybackPosition, set_playbackSpeed, set_playbackPosition, markDirty.
  cbv zeta. repeat view_step timers.
Qed.

Lemma timers_pauseClock r : timers (pausePlaybackClock r) = timers r.
Proof.
  unfold pausePlaybackClock. cbv zeta. rewrite <- (timers_endTemp true r).
  generalize (endTemporaryPlaybackSpeed true r). intros x. destruct (isPlaying x); [|done].
  unfold set_isPlaying, flushPlaybackPosition, set_playbackPosition, markDirty. cbv zeta.
  repeat first [rewrite timers_endTemp | view_step timers].
Qed.

Lemma unload_timers r :
  let r1 := (endTemporaryPlaybackSpeed true (clearPlaybackStartTimer r)) <| pendingLeaveEvents := [] |> in
  timers r1 = (None, []).
Proof.
  cbv zeta. pose proof (timers_endTemp true (clearPlaybackStartTimer r)) as H.
  generalize dependent (endTemporaryPlaybackSpeed true (clearPlaybackStartTimer r)). intros x Hx.
  transitivity (playbackStartTimer x, @nil (AuthToken * PendingLeave)); [reflexivity|].
  change (timers (clearPlaybackStartTimer r)) with (@None Z, pendingLeaveEvents r) in Hx.
  unfold timers in Hx. by injection Hx as -> _.
Qed.

(** What a room is like once it is prepared to go. *)
Lemma prepare_unload_spec r :
  let r' := prepare_unload r in
  temporarySpeed r' = None /\ timers r' = (None, []) /\ isTemporary r' = isTemporary r
  /\ items (queue r') = items (queue r) /\ currentSource r' = currentSource r
  /\ (isTemporary r = false -> isPlaying r' = false /\ PCurrentSource ∈ dirty r')
  /\ (realPlaybackPosition r' == realPlaybackPosition r)%Q.
Proof.
  cbv zeta. unfold prepare_unload. cbv zeta. pose proof (unload_timers r) as Ht. cbv zeta in Ht.
  pose proof (real_endTemp (clearPlaybackStartTimer r)) as Hp.
  pose proof (aux_endTemp true (clearPlaybackStartTimer r)) as Ha.
  destruct (endTemp_frame true (clearPlaybackStartTimer r)) as (_ & _ & _ & _ & Hs & _).
  pose proof (endTemp_temp true (clearPlaybackStartTimer r)) as Hts.
  set (r0 := endTemporaryPlaybackSpeed true (clearPlaybackStartTimer r)) in *. clearbody r0.
  rewrite aux_clear_timer in Ha. unfold aux_view in Ha. injection Ha as Hq _ _ _ _ _ _ Htemp _.
  rewrite (real_view r (clearPlaybackStartTimer r)) in Hp by reflexivity.
  set (r1 := r0 <| pendingLeaveEvents := [] |>) in *.
  assert (H1 : temporarySpeed r1 = None /\ isTemporary r1 = isTemporary r /\ items (queue r1) = items (queue r)
    /\ currentSource r1 = currentSource r /\ (realPlaybackPosition r1 == realPlaybackPosition r)%Q).
  { subst r1. rewrite (real_view r0 (r0 <| pendingLeaveEvents := [] |>)) by reflexivity.
    rsimpl. by rewrite Hts, Htemp, Hq, Hs. }
  clearbody r1. destruct H1 as (H1 & H2 & H3 & H4 & H5). rewrite H2.
  destruct (isTemporary r) eqn:Hi; [split_and!; congruence|].
  pose proof (timers_pauseClock r1) as Kt. pose proof (real_pauseClock r1) as Kp.
  destruct (pauseClock_frame r1) as (K1 & _ & _ & _ & K5 & _ & K7).
  pose proof (aux_pauseClock r1) as Ka. unfold aux_view in Ka. injection Ka as Kq _ _ _ _ _ _ Ktemp _.
  set (r2 := pausePlaybackClock r1) in *. clearbody r2.
  split_and!.
  - exact K7.
  - transitivity (timers r2); [reflexivity|congruence].
  - change (isTemporary r2 = false). congruence.
  - change (items (queue r2) = items (queue r)). congruence.
  - change (currentSource r2 = currentSource r). congruence.
  - intros _. split; [exact K1|]. change (PCurrentSource ∈ set_add PCurrentSource (dirty r2)).
    apply set_add_elem. by left.
  - rewrite (real_view r2 (markDirty PCurrentSource r2)) by reflexivity. by rewrite Kp.
Qed.

(** A sync changes nothing but what is dirty and what is sent. *)
Lemma sync_frame r :
  timers (sync r).2 = timers r /\ temporarySpeed (sync r).2 = temporarySpeed r
  /\ isPlaying (sync r).2 = isPlaying r.
Proof.
  unfold sync. rewrite bind_get. destruct (dirty r); [done|]. rewrite !bind_modify.
  unfold publish, cleanDirty. destruct (_ && _); [rewrite bind_modify|]; done.
Qed.

(** A room that has something to save is clean after the sync, or as dirty as before. *)
Lemma sync_outcome r :
  PCurrentSource ∈ dirty r \/ isTemporary r = true ->
  if isTemporary r || env_storageOk then (sync r).1 = inr tt /\ dirty (sync r).2 = []
  else (exists e, (sync r).1 = inl e) /\ PCurrentSource ∈ dirty (sync r).2.
Proof.
  intros Hr. unfold sync. rewrite bind_get. destruct (dirty r) as [|p l] eqn:Hd.
  - destruct Hr as [?%elem_of_nil|Ht]; [done|]. rewrite Ht. done.
  - rewrite !bind_modify. destruct (isTemporary r) eqn:Ht; [done|]. destruct Hr as [Hin|]; [|done].
    assert (Hp : existsb persistent (p :: l) = true).
    { apply existsb_exists. exists PCurrentSource. split; [by apply list_elem_of_In|reflexivity]. }
    rewrite Hp. cbn [orb negb andb]. destruct env_storageOk; cbn [negb]; [done|].
    rewrite bind_modify. split; [by eexists|]. cbn [throw snd]. apply fold_set_add_elem. by left.
Qed.
End Checkpoint.

(** Unloading a room saves it first.  An unloading that is not commanded by the balancer
    ends the held speed and the timers and pauses a permanent room's clock, and writes a
    checkpoint; the room stays loaded meanwhile.  The call goes on to take the room out only
    if the database took the checkpoint (a temporary room needs none); otherwise it fails,
    and what was not saved is still dirty, for the next sync. *)
Theorem unload_checkpoint `{E : Env} roomName reason preserve m obj r :
  find_room m roomName = Some obj -> heap m !! obj = Some r -> reason <> Commanded ->
  let m1 := run (UnloadRoom (inl roomName) reason preserve) m in
  let saved := isTemporary r || env_storageOk in
  rooms m1 = rooms m /\
  (exists p, pending m1 = pending m ++ [AfterCheckpoint (Call (nextCall m)) obj reason p (negb saved)]) /\
  exists r', heap m1 !! obj = Some r' /\ temporarySpeed r' = None /\
    playbackStartTimer r' = None /\ pendingLeaveEvents r' = [] /\
    (isTemporary r = false -> isPlaying r' = false) /\
    (if saved then dirty r' = [] else PCurrentSource ∈ dirty r').
Proof.
  intros Hf Hr Hreason. cbv zeta. cbn [run fresh_call]. set (m0 := m <| nextCall ::= S |>).
  unfold unloadRoom, resolve. cbv zeta. change (find_room m0 roomName) with (find_room m roomName).
  rewrite Hf, decide_False by done. change (heap m0) with (heap m). rewrite Hr.
  assert (Hu : onBeforeUnload r = sync (prepare_unload r)) by (unfold onBeforeUnload; by rewrite bind_modify).
  destruct (prepare_unload_spec r) as (H1 & H2 & H3 & _ & _ & H6 & _).
  destruct (sync_frame (prepare_unload r)) as (S1 & S2 & S3).
  pose proof (sync_outcome (prepare_unload r)) as So. rewrite H3 in So.
  assert (Hd : PCurrentSource ∈ dirty (prepare_unload r) \/ isTemporary r = true).
  { destruct (isTemporary r); [by right|left]. by apply H6. }
  specialize (So Hd). rewrite <- Hu in So, S1, S2, S3.
  set (saved := isTemporary r || env_storageOk) in *.
  assert (Hres : (match (onBeforeUnload r).1 with inl _ => true | inr _ => false end) = negb saved).
  { clearbody saved. destruct saved; [by destruct So as [-> _]|]. by destruct So as [[e ->] _]. }
  rewrite Hres. split; [done|]. split; [by eexists|]. exists (onBeforeUnload r).2. split_and!.
  - change (alter (fun r => (onBeforeUnload r).2) obj (heap m) !! obj = Some (onBeforeUnload r).2).
    by rewrite lookup_alter_eq, Hr.
  - by rewrite S2.
  - rewrite H2 in S1. unfold timers in S1. by injection S1.
  - rewrite H2 in S1. unfold timers in S1. by injection S1.
  - intros Ht. rewrite S3. by apply H6.
  - clearbody saved. destruct saved; apply So.
Qed.

(** ** What a loaded room is like *)

Section Loaded.
Context `{E : Env}.

(** What the constructor leaves of the options, besides the queue. *)
Lemma constructed o :
  let r := construct_room o in
  currentSource r = opt_currentSource o /\ isPlaying r = opt_isPlaying o
  /\ passwordHash r = opt_passwordHash o /\ isTemporary r = opt_isTemporary o
  /\ prevQueue r = match opt_restoreQueueBehavior o with
                   | Never => None
                   | Prompt => opt_prevQueue o
                   | Always => match opt_currentSource o, opt_queue o, opt_prevQueue o with
                               | None, [], Some _ => None
                               | _, _, p => p
                               end
                   end.
Proof.
  cbv zeta. unfold construct_room. cbv zeta.
  assert (Hu : forall r, let r' := upgrade_permissions o r in
    currentSource r' = currentSource r /\ isPlaying r' = isPlaying r /\ passwordHash r' = passwordHash r
    /\ isTemporary r' = isTemporary r /\ prevQueue r' = prevQueue r)
    by (intros r; unfold upgrade_permissions; cbv zeta; case_match; by split_and!).
  set (r0 := if bool_decide _ then _ else _).
  assert (H0 : currentSource r0 = opt_currentSource o /\ isPlaying r0 = opt_isPlaying o
    /\ passwordHash r0 = opt_passwordHash o /\ isTemporary r0 = opt_isTemporary o
    /\ restoreQueueBehavior r0 = opt_restoreQueueBehavior o /\ items (queue r0) = opt_queue o
    /\ prevQueue r0 = match opt_restoreQueueBehavior o with Never => None | _ => opt_prevQueue o end).
  { subst r0. change (restoreQueueBehavior (blank_room o)) with (opt_restoreQueueBehavior o).
    case_bool_decide as Hn.
    - unfold set_prevQueue. change (prevQueue (blank_room o)) with (opt_prevQueue o). rewrite Hn.
      destruct (opt_prevQueue o) eqn:Hp; split_and!; first [reflexivity|exact Hn|exact Hp].
    - split_and!; try reflexivity. destruct (opt_restoreQueueBehavior o); done. }
  clearbody r0. destruct H0 as (A1 & A2 & A3 & A4 & A5 & A6 & A7).
  destruct (Hu (restore_prev_queue r0)) as (B1 & B2 & B3 & B4 & B5). rewrite B1, B2, B3, B4, B5.
  clear Hu B1 B2 B3 B4 B5. unfold restore_prev_queue. cbv zeta.
  rewrite A1, A5, A6, A7.
  destruct (opt_currentSource o), (opt_queue o), (opt_restoreQueueBehavior o), (opt_prevQueue o);
    unfold set_prevQueue, markDirty; split_and!; try done;
    repeat case_match; rsimpl; try done; congruence.
Qed.
End Loaded.

(** C27: A room's queue outlives the server.  A permanent room is unloaded with a checkpoint, and
    later loaded from its row: it comes back paused with nothing on; what was on, marked to
    resume at the position where it stood, and then the whole queue in order, are its queue
    if the row says to restore always, are kept for a prompt if it says so, and are dropped
    if it says never. *)
Theorem queue_survives_restart (E1 E2 : Env) r d joined o position :
  isTemporary r = false ->
  let row := @Storage.sync_row E1 (@prepare_unload E1 r) d in
  Storage.dbToRoomArgs joined row = inr o ->
  position = @realPlaybackPosition E1 (@prepare_unload E1 r) ->
  left_behind r position <> [] ->
  let r' := restoreFromStorage (@construct_room E2 o) in
  (position == @realPlaybackPosition E1 r)%Q /\
  isPlaying r' = false /\ currentSource r' = None /\
  match Storage.db_restoreQueueBehavior row with
  | Always => items (queue r') = left_behind r position /\ prevQueue r' = None
  | Prompt => items (queue r') = [] /\ prevQueue r' = Some (left_behind r position)
  | Never => items (queue r') = [] /\ prevQueue r' = None
  end.
Proof.
  intros Ht row Ho -> Hne. cbv zeta.
  destruct (@prepare_unload_spec E1 r) as (_ & _ & P3 & P4 & P5 & P6 & P7). destruct (P6 Ht) as [_ Hd].
  assert (Hq : Storage.db_prevQueue row
    = Some (left_behind r (@realPlaybackPosition E1 (@prepare_unload E1 r)))).
  { subst row. unfold Storage.sync_row. rewrite P3, Ht. unfold Storage.roomToDbPartial, Storage.sync_settings.
    cbn [Storage.db_prevQueue Storage.ps_prevQueue].
    rewrite (proj2 (existsb_exists _ _)).
    2: { exists PCurrentSource. split; [by right; left|by apply bool_decide_eq_true]. }
    cbn [default]. unfold queueSnapshot, left_behind. rewrite P4, P5.
    unfold left_behind in Hne. destruct (currentSource r); cbn [app] in *; [done|].
    by destruct (items (queue r)). }
  clearbody row. unfold Storage.dbToRoomArgs in Ho. destruct (Grants.construct _) as [|g]; [done|].
  injection Ho as <-.
  set (o := MkOptions _ _ _ _ _ _ _ _ _ _ _ _ _ _ _ _ _ _ _ _ _ _ _ _).
  destruct (@constructed E2 o) as (C1 & C2 & _ & _ & C5).
  destruct (@construct_frame E2 o) as (_ & _ & _ & _ & _ & _ & C6).
  unfold restoreFromStorage. rsimpl. rewrite C1, C2, C5, C6. subst o.
  cbn [opt_currentSource opt_isPlaying opt_restoreQueueBehavior opt_queue opt_prevQueue app].
  rewrite Hq. split; [exact P7|]. split; [done|]. split; [done|].
  by destruct (Storage.db_restoreQueueBehavior row).
Qed.

(** ** The calls that wait *)

(** Only unloading is ever awaited by the sweep, and a permanent room loaded from a snapshot
    is not to play. *)
Definition proper (k : continuation) : bool :=
  match k with
  | SweepUpdate _ _ | SweepSync _ _ | AfterCheckpoint _ _ _ _ _ | AfterDel _ _ _ | AfterDelSync _ _ _ => true
  | AfterPasswordHash t o => negb (is_sweep t) && negb (opt_isPlaying o) && negb (opt_isTemporary o)
  | AfterExists t _ _ | AfterNameTaken t _ _ | AfterSave t _ _ | AfterHash t _
  | AfterStorePassword t _ _ | AfterUpdate t _ | AfterSync t _ _ | AfterIncr t _ _
  | AfterEpochReset t _ _ | AfterRedisGet t _ | AfterDrop t _ | AfterDb t _ => negb (is_sweep t)
  end.

Definition all_proper (m : Manager) : Prop := Forall (fun k => proper k = true) (pending m).

Section Proper.
Context `{E : Env}.
Implicit Types (m : Manager) (t : caller).

Lemma proper_same m m' : pending m' = pending m -> all_proper m -> all_proper m'.
Proof. unfold all_proper. by intros ->. Qed.

Lemma proper_suspend k m : proper k = true -> all_proper m -> all_proper (suspend k m).
Proof. intros Hk Hm. apply Forall_app. split; [exact Hm|by apply Forall_singleton]. Qed.

Lemma proper_sweep_next rest m : all_proper m -> all_proper (sweep_next rest m).
Proof. destruct rest; [done|]. intros Hm. by apply proper_suspend. Qed.

Lemma proper_finish t r m : all_proper m -> all_proper (finish t r m).
Proof. destruct t; [done|]. apply proper_sweep_next. Qed.

Lemma proper_addRoom t obj r m : is_sweep t = false -> all_proper m -> all_proper (addRoom t obj r m).
Proof. intros Ht Hm. apply proper_suspend; [|done]. cbn. by rewrite Ht. Qed.

Lemma proper_load_state t state m : is_sweep t = false -> all_proper m -> all_proper (load_state t state m).
Proof. intros Ht Hm. unfold load_state. cbn [new_room]. by apply proper_addRoom. Qed.

Lemma proper_create_password t obj password m :
  is_sweep t = false -> all_proper m -> all_proper (create_password t obj password m).
Proof.
  intros Ht Hm. unfold create_password, finish_create.
  repeat case_match; (apply proper_suspend; [cbn; by rewrite Ht|done]).
Qed.

Lemma proper_create_construct t o password m :
  is_sweep t = false -> all_proper m -> all_proper (create_construct t o password m).
Proof.
  intros Ht Hm. unfold create_construct. cbn [new_room].
  case_match; [by apply proper_create_password|]. apply proper_suspend; [cbn; by rewrite Ht|done].
Qed.

Lemma proper_after_hash t obj hash m :
  is_sweep t = false -> all_proper m -> all_proper (after_hash t obj hash m).
Proof.
  intros Ht Hm. unfold after_hash. repeat case_match; try done.
  all: apply proper_suspend; [cbn; by rewrite Ht|done].
Qed.

Lemma proper_after_store t obj hash updated m :
  is_sweep t = false -> all_proper m -> all_proper (after_store_password t obj hash updated m).
Proof.
  intros Ht Hm. unfold after_store_password. case_match; [|by apply proper_finish].
  apply proper_suspend; [cbn; by rewrite Ht|done].
Qed.

Lemma proper_after_redis_get t n s m :
  is_sweep t = false -> all_proper m -> all_proper (after_redis_get t n s m).
Proof.
  intros Ht Hm. unfold after_redis_get. cbv zeta.
  destruct s as [[st|]|]; try (apply proper_suspend; [cbn; by rewrite Ht|done]).
  destruct (redisStateToState st) as [|state]; [apply proper_suspend; [cbn; by rewrite Ht|done]|].
  destruct (opt_isTemporary state) eqn:Hts; rewrite ?Hts; [by apply proper_load_state|].
  change (opt_isTemporary (state <| opt_isPlaying := false |>)) with (opt_isTemporary state).
  rewrite Hts. apply proper_suspend; [|done]. cbn [proper].
  change (opt_isTemporary (state <| opt_isPlaying := false |>)) with (opt_isTemporary state).
  rewrite Hts, Ht. reflexivity.
Qed.

Lemma proper_unload_rest t obj reason preserve m :
  all_proper m -> all_proper (unload_rest t obj reason preserve m).
Proof.
  intros Hm. unfold unload_rest. cbv zeta. case_match; [|by apply proper_finish].
  case_match; [by apply proper_finish|by apply proper_suspend].
Qed.

Lemma proper_unloadRoom t target reason preserve m :
  all_proper m -> all_proper (unloadRoom t target reason preserve m).
Proof.
  intros Hm. unfold unloadRoom. cbv zeta. destruct (resolve target m); [|by apply proper_finish].
  case_decide; [by apply proper_unload_rest|]. case_match; [|done]. by apply proper_suspend.
Qed.

Lemma proper_sweep_stale obj rest m : all_proper m -> all_proper (sweep_stale obj rest m).
Proof.
  intros Hm. unfold sweep_stale. repeat case_match; try by apply proper_sweep_next.
  by apply proper_unloadRoom.
Qed.

Lemma proper_resume k a m : proper k = true -> all_proper m -> all_proper (resume k a m).
Proof.
  intros Hk Hm. assert (Hback : all_proper (suspend k m)) by by apply proper_suspend.
  destruct k; cbn [proper] in Hk.
  17: { cbn [resume]. unfold sweep_sync. case_match; [by apply proper_sweep_stale|by apply proper_suspend]. }
  17: by apply proper_sweep_stale.
  all: rewrite ?andb_true_iff, ?negb_true_iff in Hk; destruct a; cbn [resume]; try exact Hback;
    try (by apply proper_finish);
    try (by apply proper_suspend);
    try (case_match; first [by apply proper_finish|by apply proper_unload_rest
                           |apply proper_suspend; [cbn; by rewrite Hk|done]]; fail).
  - case_match; [by apply proper_finish|by apply proper_create_construct].
  - case_match; [by apply proper_create_password|by apply proper_finish].
  - case_match; [by apply proper_after_hash|exact Hback].
  - by apply proper_after_store.
  - unfold create_sync. case_match; [|done]. apply proper_suspend; [cbn; by rewrite Hk|done].
  - unfold after_incr. cbv zeta. case_match; [|by apply proper_finish].
    apply proper_suspend; [cbn; by rewrite Hk|done].
  - by apply proper_after_redis_get.
  - apply proper_suspend; [cbn; by rewrite Hk|done].
  - apply proper_load_state; [apply Hk|done].
  - unfold after_db. case_match; [|by apply proper_finish]. cbn [new_room]. by apply proper_addRoom.
Qed.

Lemma proper_unload_all names reason preserve m :
  all_proper m -> all_proper (unload_all names reason preserve m).
Proof.
  unfold unload_all. revert m. induction names as [|x names IH]; intros m Hm; [exact Hm|].
  cbn [fold_left fresh_call]. apply IH. by apply proper_unloadRoom.
Qed.

Lemma proper_run c m : all_proper m -> all_proper (run c m).
Proof.
  intros Hm. destruct c; cbn [run fresh_call]; try done.
  - case_match; [|done]. unfold runUpdate. case_match; [done|by apply proper_sweep_next].
  - unfold createRoom. case_match; [by apply proper_finish|by apply proper_suspend].
  - unfold getRoom. repeat case_match; [by apply proper_finish..|by apply proper_suspend].
  - by apply proper_unloadRoom.
  - unfold shutdown. cbv zeta. by apply proper_unload_all.
  - unfold unloadAllRooms. by apply proper_unload_all.
  - destruct (pending m !! i) as [k|] eqn:Hi; [|done]. apply proper_resume.
    + exact (Forall_lookup_1 _ _ _ _ Hm Hi).
    + exact (Forall_delete _ _ _ Hm).
Qed.
End Proper.

Lemma reachable_proper m : reachable m -> all_proper m.
Proof. induction 1; [constructor|by apply proper_run]. Qed.

(** ** A sweep ends *)

(** How many answers a call of the sweep still waits for, at most: five for each room. *)
Definition work (k : continuation) : nat :=
  match k with
  | SweepUpdate _ rest => 5 + 5 * length rest
  | SweepSync _ rest => 4 + 5 * length rest
  | AfterCheckpoint (Sweep rest) _ _ _ _ => 3 + 5 * length rest
  | AfterDel (Sweep rest) _ _ => 2 + 5 * length rest
  | AfterDelSync (Sweep rest) _ _ => 1 + 5 * length rest
  | _ => 0
  end.

Definition find_sweep (m : Manager) : option (nat * continuation) :=
  list_find (fun k => sweeping k = true) (pending m).

Definition sweep_work (m : Manager) : nat :=
  match find_sweep m with Some (_, k) => work k | None => 0 end.

(** An answer, given at some instant. *)
Record Answer := MkAnswer {
  an_env : Env;
  an_laws : LodashLaws (@env_lodash an_env);
  an_reply : reply;
}.

Definition answer_sweep (m : Manager) (x : Answer) : Manager :=
  match find_sweep m with
  | Some (i, _) => @run (an_env x) (Resume i (an_reply x)) m
  | None => m
  end.

Section SweepEnds.
Context `{E : Env} {LL : LodashLaws env_lodash}.
Implicit Types (m : Manager).

(** A piece of the sweep ends it, or leaves one call with less to wait for. *)
Definition ends_within (b : nat) m m' : Prop :=
  updaterRunning m' = false \/
  exists k, pending m' = pending m ++ [k] /\ sweeping k = true /\ (work k <= b)%nat.

Lemma ends_weaken b b' m m' : (b <= b')%nat -> ends_within b m m' -> ends_within b' m m'.
Proof. intros Hb [H|(k & H1 & H2 & H3)]; [by left|right; exists k; split_and!; [done|done|lia]]. Qed.

Lemma ends_suspend b k m m' :
  pending m' = pending m -> sweeping k = true -> (work k <= b)%nat -> ends_within b m (suspend k m').
Proof. intros H1 H2 H3. right. exists k. split_and!; [|done|done]. cbn. by rewrite H1. Qed.

Lemma ends_sweep_next rest m m' :
  pending m' = pending m -> ends_within (5 * length rest) m (sweep_next rest m').
Proof. intros H. destruct rest; [by left|]. apply ends_suspend; [done|done|cbn; lia]. Qed.

Lemma ends_unload_rest rest obj reason preserve m :
  ends_within (2 + 5 * length rest) m (unload_rest (Sweep rest) obj reason preserve m).
Proof.
  assert (Hf : forall r m', pending m' = pending m ->
    ends_within (2 + 5 * length rest) m (finish (Sweep rest) r m')).
  { intros r m' H. eapply ends_weaken; [|by apply ends_sweep_next]. lia. }
  unfold unload_rest. cbv zeta. case_match; [|by apply Hf]. case_match; [by apply Hf|].
  by apply ends_suspend.
Qed.

Lemma ends_sweep_stale obj rest m :
  Inv false true None None m -> ends_within (3 + 5 * length rest) m (sweep_stale obj rest m).
Proof.
  intros Hm. assert (Hn : forall m', pending m' = pending m ->
    ends_within (3 + 5 * length rest) m (sweep_next rest m')).
  { intros m' H. eapply ends_weaken; [|by apply ends_sweep_next]. lia. }
  unfold sweep_stale. case_match; [|by apply Hn]. case_match; [|by apply Hn].
  unfold unloadRoom. cbv zeta. destruct (resolve _ m) as [x|] eqn:Hr; [|by apply Hn].
  rewrite decide_False by done. cbn in Hr. apply find_room_loaded in Hr.
  destruct (i_objects _ _ _ _ _ Hm x) as [rx ->]; [apply elem_of_app; by left|].
  by apply ends_suspend.
Qed.

Lemma ends_resume k a m :
  sweeping k = true -> proper k = true -> Inv false true None None m ->
  ends_within (work k - 1) m (resume k a m).
Proof.
  intros Hs Hp Hm.
  assert (Hn : forall b rest m', (5 * length rest <= b)%nat -> pending m' = pending m ->
    ends_within b m (sweep_next rest m')).
  { intros b rest m' Hb H. eapply ends_weaken; [|by apply ends_sweep_next]. lia. }
  destruct k; cbn [sweeping proper] in Hs, Hp; rewrite ?Hs in Hp; try done;
    try (destruct t as [|rest]; [done|]).
  - destruct a; cbn [resume work]; try (by apply Hn; [lia|]).
    all: destruct failed; [apply Hn; [lia|done]|].
    all: eapply ends_weaken; [|apply ends_unload_rest]; lia.
  - destruct a; cbn [resume work]; try (by apply Hn; [lia|]); apply ends_suspend; cbn; lia || done.
  - destruct a; cbn [resume work]; apply Hn; try lia; done.
  - cbn [resume work]. unfold sweep_sync. destruct (rejected a).
    + eapply ends_weaken; [|by apply ends_sweep_stale]. lia.
    + apply ends_suspend; cbn; lia || done.
  - cbn [resume work]. eapply ends_weaken; [|by apply ends_sweep_stale]. lia.
Qed.
End SweepEnds.

Lemma work_pos k : sweeping k = true -> proper k = true -> (1 <= work k)%nat.
Proof.
  destruct k; cbn [sweeping proper]; try (intros -> [=]); try (destruct t; [done|]); cbn; try lia.
Qed.

Lemma find_sweep_running m : Inv false false None None m -> updaterRunning m = true -> is_Some (find_sweep m).
Proof.
  intros [_ _ _ D _] Hr. rewrite Hr in D. unfold sweeps in D. unfold find_sweep.
  destruct (List.filter sweeping (pending m)) as [|k l] eqn:Hf; [cbn in D; lia|].
  assert (Hk : In k (pending m) /\ sweeping k = true) by (apply filter_In; rewrite Hf; by left).
  eapply list_find_elem_of; [by apply list_elem_of_In, Hk|by apply Hk].
Qed.

Lemma answer_step m x :
  reachable m -> updaterRunning m = true ->
  reachable (answer_sweep m x) /\
  (updaterRunning (answer_sweep m x) = true -> (sweep_work (answer_sweep m x) < sweep_work m)%nat).
Proof.
  intros Hm Hr. pose proof (manager_inv m Hm) as Hi. pose proof (reachable_proper m Hm) as Hp.
  destruct (find_sweep_running m Hi Hr) as [[i k] Hf]. destruct x as [E LL a].
  unfold answer_sweep, sweep_work at 2. rewrite Hf. cbn [an_env an_reply].
  assert (Hm' : reachable (run (Resume i a) m)) by by apply reach_run. split; [exact Hm'|]. intros Hr'.
  unfold find_sweep in Hf. apply list_find_Some in Hf as (Hk & Hs & _).
  pose proof (Forall_lookup_1 _ _ _ _ Hp Hk) as Hpk. pose proof (work_pos k Hs Hpk) as Hw.
  pose proof (inv_take _ _ _ _ Hk Hi) as Ht. rewrite Hs in Ht. apply inv_drop in Ht.
  pose proof (ends_resume k a _ Hs Hpk Ht) as Hend.
  pose proof (manager_inv _ Hm') as Hi'. cbn [run] in *. rewrite Hk in *.
  set (m1 := m <| pending ::= delete i |>) in *. set (m2 := resume k a m1) in *.
  destruct Hend as [Hend|(k' & H1 & H2 & H3)]; [congruence|].
  assert (Hnone : list_find (fun k => sweeping k = true) (pending m1) = None).
  { apply list_find_None. apply Forall_forall. intros y Hy Hsy.
    destruct Hi' as [_ _ _ D _]. rewrite Hr' in D. unfold sweeps in D. rewrite H1, List.filter_app, length_app in D.
    change (List.filter sweeping [k']) with (if sweeping k' then [k'] else []) in D. rewrite H2 in D.
    destruct (List.filter sweeping (pending m1)) eqn:Hfl; [|unfold Nat.b2n in D; cbn [length] in D; lia].
    assert (Hin : In y (List.filter sweeping (pending m1))) by (apply filter_In; split; [by apply list_elem_of_In|done]).
    rewrite Hfl in Hin. done. }
  unfold sweep_work, find_sweep. rewrite H1, (list_find_app_r _ _ _ Hnone). cbn.
  rewrite decide_True by done. cbn. lia.
Qed.

(** No sweep, nothing to answer. *)
Lemma idle_no_sweep m : Inv false false None None m -> updaterRunning m = false -> find_sweep m = None.
Proof.
  intros [_ _ _ D _] Hr. rewrite Hr in D. unfold sweeps in D. apply list_find_None, Forall_forall.
  intros k Hk Hs. assert (Hin : In k (List.filter sweeping (pending m)))
    by (apply filter_In; split; [by apply list_elem_of_In|done]).
  destruct (List.filter sweeping (pending m)); [done|unfold Nat.b2n in D; cbn [length] in D; lia].
Qed.

Lemma idle_stays m answers :
  Inv false false None None m -> updaterRunning m = false -> fold_left answer_sweep answers m = m.
Proof.
  intros Hi Hr. induction answers as [|x answers IH]; [done|]. cbn [fold_left].
  enough (answer_sweep m x = m) as -> by exact IH. unfold answer_sweep. by rewrite idle_no_sweep.
Qed.

(** C28: The updater is never wedged.  Whatever the state and whatever Redis, the database and the
    rooms answer, errors included: once the calls of the sweep that is under way have been
    answered as often as they wait (at most five times for each room it still has to
    visit), the sweep is over and the next interval may start one. *)
Theorem sweep_ends m answers :
  reachable m -> (sweep_work m <= length answers)%nat ->
  updaterRunning (fold_left answer_sweep answers m) = false.
Proof.
  revert m. induction answers as [|x answers IH]; intros m Hm Hw.
  all: destruct (updaterRunning m) eqn:Hr; [|by rewrite idle_stays by eauto using manager_inv].
  - exfalso. destruct (find_sweep_running m (manager_inv m Hm) Hr) as [[i k] Hf].
    unfold sweep_work in Hw. rewrite Hf in Hw. apply list_find_Some in Hf as (Hk & Hs & _).
    pose proof (work_pos k Hs (Forall_lookup_1 _ _ _ _ (reachable_proper m Hm) Hk)). cbn in Hw. lia.
  - cbn [fold_left]. destruct (answer_step m x Hm Hr) as [Hm' Hlt].
    destruct (updaterRunning (answer_sweep m x)) eqn:Hr'.
    + apply IH; [done|]. specialize (Hlt eq_refl). cbn in Hw. lia.
    + by rewrite idle_stays by eauto using manager_inv.
Qed.

(** ** Loading *)

Section Loading.
Context `{E : Env}.

Lemma addRoom_new t res r0 m obj r :
  obj ∉ rooms m ->
  obj ∈ rooms (addRoom t (nextObject m) res (new_room r0 m).2) ->
  heap (addRoom t (nextObject m) res (new_room r0 m).2) !! obj = Some r -> r = r0.
Proof.
  intros Hout [Hin| ->%list_elem_of_singleton]%elem_of_app Hr; [done|].
  change (<[nextObject m := r0]> (heap m) !! nextObject m = Some r) in Hr.
  rewrite lookup_insert_eq in Hr. by injection Hr.
Qed.

(** The continuations of [getRoom] from which a room is added. *)
Definition fetching (k : continuation) : bool :=
  match k with AfterRedisGet _ _ | AfterPasswordHash _ _ | AfterDb _ _ => true | _ => false end.

(** The options a fetched room is made from: of a snapshot that holds a temporary room, of a
    snapshot completed with the password's hash, or of a row. *)
Inductive fetched_from : continuation -> reply -> Room -> Prop :=
| fetched_snapshot t n st o : redisStateToState st = inr o -> opt_isTemporary o = true ->
    fetched_from (AfterRedisGet t n) (RSnapshot (Some (Some st))) (construct_room o)
| fetched_password t o h :
    fetched_from (AfterPasswordHash t o) (RHash h) (construct_room (o <| opt_passwordHash := h |>))
| fetched_row t n joined d o : Storage.dbToRoomArgs joined d = inr o ->
    fetched_from (AfterDb t n) (RRow (Some (joined, d))) (restoreFromStorage (construct_room o)).

Lemma fetched k a m obj r :
  fetching k = true -> obj ∉ rooms m -> obj ∈ rooms (resume k a m) ->
  heap (resume k a m) !! obj = Some r -> fetched_from k a r.
Proof.
  intros Hk Hout Hin Hr. destruct k; try done; destruct a; cbn [resume] in Hin, Hr; try done.
  all: try (rewrite rooms_finish in Hin; done).
  - unfold after_redis_get in *. cbv zeta in *. destruct s as [[st|]|]; [|done..].
    destruct (redisStateToState st) as [|o] eqn:Hst; [done|]. destruct (opt_isTemporary o) eqn:Ht.
    + rewrite Ht in Hin, Hr. eapply addRoom_new in Hr as ->; [|exact Hout|exact Hin]. by econstructor.
    + change (opt_isTemporary (o <| opt_isPlaying := false |>)) with (opt_isTemporary o) in Hin.
      by rewrite Ht in Hin.
  - unfold load_state in *. cbn [new_room] in *.
    eapply addRoom_new in Hr as ->; [|exact Hout|exact Hin]. constructor.
  - unfold after_db, Storage.getRoomByName in *. destruct row as [[joined d]|].
    2: by rewrite rooms_finish in Hin.
    destruct (Storage.dbToRoomArgs joined d) as [|o] eqn:Ho; [by rewrite rooms_finish in Hin|].
    cbn [new_room] in *. eapply addRoom_new in Hr as ->; [|exact Hout|exact Hin]. by constructor.
Qed.
End Loading.

(** A permanent room that [getRoom] loads comes back paused, and locked if it was: whether it
    comes from a snapshot or from its row, in any state of the manager, it does not play,
    and its password is the one the database holds. *)
Theorem loaded_room_is_paused_and_locked `{E : Env} m i k a obj r :
  reachable m -> pending m !! i = Some k -> fetching k = true ->
  obj ∉ rooms m -> obj ∈ rooms (run (Resume i a) m) ->
  heap (run (Resume i a) m) !! obj = Some r -> isTemporary r = false ->
  isPlaying r = false /\
  ((exists h, a = RHash h /\ passwordHash r = h) \/
   (exists joined d, a = RRow (Some (joined, d)) /\ passwordHash r = Storage.db_passwordHash d)).
Proof.
  intros Hm Hi Hk Hout Hin Hr Ht. cbn [run] in Hin, Hr. rewrite Hi in Hin, Hr.
  pose proof (Forall_lookup_1 _ _ _ _ (reachable_proper m Hm) Hi) as Hp.
  apply (fetched k a (m <| pending ::= delete i |>)) in Hr; [|done..].
  destruct Hr as [t n st o Hst Hto|t o h|t n joined d o Ho].
  - destruct (constructed o) as (_ & _ & _ & H & _). congruence.
  - cbn [proper] in Hp. rewrite !andb_true_iff, !negb_true_iff in Hp. destruct Hp as [[_ Hp] _].
    destruct (constructed (o <| opt_passwordHash := h |>)) as (_ & H1 & H2 & _ & _).
    split; [rewrite H1; exact Hp|]. left. exists h. split; [done|]. exact H2.
  - unfold Storage.dbToRoomArgs in Ho. destruct (Grants.construct _) as [|g]; [done|].
    injection Ho as <-. match goal with |- context [construct_room ?x] => set (o := x) in * end.
    destruct (constructed o) as (_ & H1 & H2 & _ & _).
    unfold restoreFromStorage. rsimpl. rewrite H1, H2. split; [done|]. right. by exists joined, d.
Qed.

(** A temporary room that is loaded back from its snapshot has no password any more, whatever
    it had. *)
Theorem temporary_room_loses_its_password `{E : Env} m i t n a obj r :
  pending m !! i = Some (AfterRedisGet t n) -> obj ∉ rooms m ->
  obj ∈ rooms (run (Resume i a) m) -> heap (run (Resume i a) m) !! obj = Some r ->
  isTemporary r = true /\ passwordHash r = None.
Proof.
  intros Hi Hout Hin Hr. cbn [run] in Hin, Hr. rewrite Hi in Hin, Hr.
  apply (fetched (AfterRedisGet t n) a (m <| pending ::= delete i |>)) in Hr; [|done..].
  inversion Hr as [? ? st o Hst Hto| |]; subst.
  destruct (constructed o) as (_ & _ & H1 & H2 & _). rewrite H1, H2. split; [done|].
  unfold redisStateToState in Hst. destruct (Grants.construct _); [done|]. by injection Hst as <-.
Qed.

(** ** A manager driven *)

(** Drive a manager by calls, each at its instant. *)
Definition script (l : list (Z * call)) (m : Manager) : Manager :=
  fold_left (fun m c => run (E := sample_env c.1) c.2 m) l m.

Lemma script_reachable l m : reachable m -> reachable (script l m).
Proof.
  revert m. induction l as [|[t c] l IH]; intros m Hm; [done|]. cbn [script fold_left]. apply IH.
  apply reach_run; [apply (sample_laws true t)|done].
Qed.

(** The row of a permanent room with a saved queue. *)
Definition saved_row : Storage.DbRoom :=
  (Storage.roomToDb (construct_room (E := sample_env 0) sample_options))
    <| Storage.db_passwordHash := Some "hash"%string |>.
Definition row_answer : reply := RRow (Some (None, saved_row)).

(** A room is fetched from its row, and a video is put on in it. *)
Definition fetch_calls : list (Z * call) :=
  [(0, Start); (0, GetRoom "Room" false); (1, Resume 0 (RSnapshot None))].
Definition loaded_calls : list (Z * call) :=
  fetch_calls ++ [(2, Resume 0 row_answer); (3, Resume 0 (RNumber 1));
   (10, RoomActs 0 (join "c1")); (20, RoomActs 0 (join "c2")); (1000, RoomActs 0 (play_now "v1" "c1"));
   (2000, RoomActs 0 (prepared "c1")); (2500, RoomActs 0 (prepared "c2")); (3500, RoomActs 0 StepStartTimer)].
Definition loaded_manager : Manager := script loaded_calls init.

Lemma loaded_reachable : reachable loaded_manager.
Proof. apply script_reachable, reach_new. Qed.

Lemma manager_consistent_witness :
  rooms loaded_manager = [0%nat] /\ NoDup (rooms loaded_manager) /\
  length (List.filter sweeping (pending (script [(4000, Interval)] loaded_manager))) = 1%nat.
Proof.
  split; [vm_compute; reflexivity|]. split; [apply (manager_consistent _ loaded_reachable)|].
  destruct (manager_consistent (script [(4000, Interval)] loaded_manager)) as (_ & _ & ->);
    [apply script_reachable, loaded_reachable|vm_compute; reflexivity].
Defined.

Lemma unload_checkpoint_witness :
  exists r', heap (run (E := sample_env 5000) (UnloadRoom (inl "room"%string) Keepalive None) loaded_manager) !! 0%nat
      = Some r' /\ isPlaying r' = false /\ dirty r' = [].
Proof.
  destruct (heap loaded_manager !! 0%nat) as [r|] eqn:Hr; [|by vm_compute in Hr].
  assert (Hs : isTemporary r = false)
    by (vm_compute in Hr; injection Hr as <-; reflexivity).
  destruct (unload_checkpoint (E := sample_env 5000) "room" Keepalive None loaded_manager 0 r)
    as (_ & _ & r' & H1 & _ & _ & _ & H2 & H3); [vm_compute; reflexivity|exact Hr|done|].
  exists r'. split; [exact H1|]. split; [by apply H2|]. rewrite Hs in H3. exact H3.
Defined.

(** Put to sleep by the keepalive: the checkpoint, then both Redis keys. *)
Definition leaving : Manager := script [(5000, UnloadRoom (inl "room"%string) Keepalive None)] loaded_manager.

Lemma rooms_leave_only_saved_witness :
  exists i a t reason preserve, Resume 0 RVoid = Resume i a /\ a <> RReject /\
    pending leaving !! i = Some (AfterCheckpoint t 0 reason preserve false).
Proof.
  destruct (rooms_leave_only_saved (E := sample_env 5010) (Resume 0 RVoid) leaving 0)
    as [H|[(target & preserve & H & _)|H]]; try done.
  - vm_compute. by left.
  - vm_compute. by intros ?%elem_of_nil.
Defined.

(** A sweep over two rooms, one of them idle for long. *)
Definition sweeping_manager : Manager := script [(400000, Interval)] loaded_manager.

Lemma sweep_ends_witness :
  updaterRunning sweeping_manager = true /\
  updaterRunning (fold_left answer_sweep
    (repeat {| an_env := sample_env 400001; an_laws := sample_laws true 400001; an_reply := RReject |} 5)
    sweeping_manager) = false.
Proof.
  split; [vm_compute; reflexivity|]. apply sweep_ends; [apply script_reachable, loaded_reachable|].
  apply Nat.leb_le. vm_compute. reflexivity.
Defined.

(** The conditions of [apart], decided along a script. *)
Definition honest_b (k : continuation) (a : reply) : bool :=
  match k, a with
  | AfterRedisGet _ n, RSnapshot (Some (Some st)) => same_name (st_name st) n
  | AfterDb _ n, RRow (Some (_, d)) => same_name (Storage.db_name d) n
  | _, _ => true
  end.

Definition step_apart (c : call) (m : Manager) : bool :=
  (negb (loads c) || forallb (fun k => match loading m k with None => true | _ => false end) (pending m))
  && match c with
     | Resume i a => match pending m !! i with Some k => honest_b k a | None => true end
     | _ => true
     end.

Fixpoint script_apart (l : list (Z * call)) (m : Manager) : bool :=
  match l with
  | [] => true
  | (t, c) :: l => step_apart c m && script_apart l (run (E := sample_env t) c m)
  end.

Lemma script_apart_reach l m : script_apart l m = true -> apart m -> apart (script l m).
Proof.
  revert m. induction l as [|[t c] l IH]; intros m Hs Hm; [done|].
  cbn [script_apart] in Hs. apply andb_true_iff in Hs as [[Hl Hh]%andb_true_iff Hs].
  cbn [script fold_left]. apply IH; [exact Hs|]. apply apart_run; [apply (sample_laws true t)|done| |].
  - intros Hc. cbn [snd] in Hc. rewrite Hc in Hl. apply Forall_forall. intros k Hk.
    cbn [negb orb] in Hl. rewrite forallb_forall in Hl.
    specialize (Hl k (proj1 (list_elem_of_In _ _) Hk)).
    by destruct (loading m k).
  - intros i a k Hc Hi. cbn [snd] in Hc. subst c. rewrite Hi in Hh. unfold honest_b, same_name, honest in *.
    repeat case_match; try done; by apply bool_decide_eq_true in Hh.
Qed.

(** A second name, and the first room left and fetched again. *)
Definition two_rooms : list (Z * call) :=
  loaded_calls ++ [(4000, CreateRoom (sample_options <| opt_name := "other"%string |>) None);
   (4001, UnloadRoom (inl "ROOM"%string) Keepalive None);
   (4002, Resume 0 (RBool false)); (4003, Resume 0 RVoid); (4004, Resume 0 (RBool false));
   (4005, Resume 0 RVoid); (4006, Resume 0 RVoid); (4007, Resume 0 RVoid); (4008, Resume 0 RVoid);
   (4009, Resume 0 (RNumber 2)); (4010, GetRoom "room" false); (4011, Resume 0 (RSnapshot None));
   (4012, Resume 0 row_answer); (4013, Resume 0 (RNumber 3))].

Lemma loads_apart_keep_names_unique_witness :
  map (fun obj => toLowerCase (room_name (script two_rooms init) obj)) (rooms (script two_rooms init))
    = ["other"%string; "room"%string] /\
  NoDup (map (fun obj => toLowerCase (room_name (script two_rooms init) obj)) (rooms (script two_rooms init))).
Proof.
  split; [vm_compute; reflexivity|]. apply loads_apart_keep_names_unique.
  apply script_apart_reach; [vm_compute; reflexivity|apply apart_new].
Defined.

Lemma loaded_room_is_paused_and_locked_witness :
  exists r, heap (script (fetch_calls ++ [(2, Resume 0 row_answer)]) init) !! 0%nat = Some r /\
    isPlaying r = false /\ passwordHash r = Some "hash"%string.
Proof.
  set (m := script fetch_calls init).
  destruct (heap (run (E := sample_env 2) (Resume 0 row_answer) m) !! 0%nat) as [r|] eqn:Hr;
    [|by vm_compute in Hr].
  exists r. split; [exact Hr|].
  destruct (loaded_room_is_paused_and_locked (E := sample_env 2) m 0 (AfterDb (Call 0) "Room"%string)
    row_answer 0 r) as [H1 [(h & H & _)|(joined & d & H & H2)]].
  - apply script_reachable, reach_new.
  - vm_compute; reflexivity.
  - reflexivity.
  - vm_compute. by intros ?%elem_of_nil.
  - vm_compute. by left.
  - exact Hr.
  - vm_compute in Hr. injection Hr as <-. reflexivity.
  - done.
  - split; [exact H1|]. rewrite H2. unfold row_answer in H. injection H as _ <-. reflexivity.
Defined.

(** The room that plays, and has a second video waiting, is stored and loaded again. *)
Definition stored_playing : Room :=
  drive [(4000, StepRequest (ReqAdd (MkAddRequest (Some (Typed (MkVideoAdd "direct" "v2" None None None))) None None)) (as_guest "c1"))]
    (playing_room <| isTemporary := false |>).

Lemma queue_survives_restart_witness :
  exists o, Storage.dbToRoomArgs None
      (@Storage.sync_row (sample_env 13500) (@prepare_unload (sample_env 13500) stored_playing) saved_row) = inr o /\
    let r' := restoreFromStorage (@construct_room (sample_env 90000) o) in
    isPlaying r' = false /\
    map qi_id <$> prevQueue r' = Some ["v1"; "v2"]%string.
Proof.
  destruct (Storage.dbToRoomArgs None (@Storage.sync_row (sample_env 13500)
    (@prepare_unload (sample_env 13500) stored_playing) saved_row)) as [|o] eqn:Ho; [by vm_compute in Ho|].
  exists o. split; [done|].
  destruct (queue_survives_restart (sample_env 13500) (sample_env 90000) stored_playing saved_row None o
    (@realPlaybackPosition (sample_env 13500) (@prepare_unload (sample_env 13500) stored_playing)))
    as (_ & H1 & _ & H2); [vm_compute; reflexivity|exact Ho|done|by vm_compute|].
  split; [exact H1|].
  assert (Hb : Storage.db_restoreQueueBehavior (@Storage.sync_row (sample_env 13500)
    (@prepare_unload (sample_env 13500) stored_playing) saved_row) = Prompt) by (vm_compute; reflexivity).
  rewrite Hb in H2. destruct H2 as [_ ->]. vm_compute; reflexivity.
Defined.

(** Two [getRoom] of the same name that overlap load the room twice: the array then holds two
    room objects of one name, and those who come in by a later call only see the first. *)
Theorem overlapping_loads_split_the_room :
  let m := script [(0, GetRoom "room" false); (0, GetRoom "room" false);
                   (1, Resume 0 (RSnapshot None)); (1, Resume 0 (RSnapshot None));
                   (2, Resume 0 row_answer); (2, Resume 0 row_answer);
                   (3, Resume 0 (RNumber 1)); (3, Resume 0 (RNumber 2))] init in
  reachable m /\ rooms m = [0; 1]%nat /\ room_name m 0 = room_name m 1 /\
  trace m = [ELoad "room"; EReturn 0 (RoomOk 0); ELoad "room"; EReturn 1 (RoomOk 1)].
Proof.
  cbv zeta. split; [apply script_reachable, reach_new|]. split_and!; vm_compute; reflexivity.
Qed.
