(* ===== verification/RoomStorageTheorems.v ===== *)
(** * RoomStorageTheorems: a room and its row

    A room that was written to its row and is loaded back is the same room in every setting;
    a sync writes what is dirty and nothing else; and two ways in which the row and the room
    part. *)

From S2P Require Import Prelude Types Permissions VideoQueue RoomModel RoomPlayback RoomRequests.
From S2P Require Import RoomLifecycle RoomReach RoomSamples RoomTheorems RoomStorage RoomManager.
From S2P Require Import RoomManagerFacts RoomManagerTheorems.

Import Storage.

(** ** The grants of a row *)

Section Filtered.
Context (g : Grants) (Hok : grants_ok g) (Hkeys : keys_ok g).

Definition stored_masks : list (Role * GrantMask) := Grants.toJSON (grantsFiltered g).

Lemma stored_masks_in kv : kv ∈ stored_masks <-> kv ∈ masks g /\ kv.1 <> Administrator /\ kv.1 <> Owner.
Proof.
  unfold stored_masks, grantsFiltered, Grants.toJSON, Grants.deleteRole, map_delete. cbn [masks].
  rewrite !list_elem_of_filter. tauto.
Qed.

Lemma stored_masks_keys : NoDup stored_masks.*1 /\ forall k, k ∈ stored_masks.*1 -> isRoleValid k = true.
Proof.
  destruct Hkeys as [Hnd Hv]. split.
  - unfold stored_masks, grantsFiltered, Grants.toJSON, Grants.deleteRole, map_delete. cbn [masks].
    eapply sublist_NoDup; [exact Hnd|]. apply fmap_sublist.
    etransitivity; [apply sublist_filter|apply sublist_filter].
  - intros k (kv & -> & Hin)%list_elem_of_fmap. apply stored_masks_in in Hin as [Hin _]. apply Hv.
    apply list_elem_of_fmap. by exists kv.
Qed.

(** Leaving out the two highest roles loses nothing. *)
Lemma filtered_roundtrip :
  exists g', Grants.construct stored_masks = inr g' /\
    forall r, isRoleValid r = true -> Grants.mask_of g' r = Grants.mask_of g r.
Proof.
  destruct stored_masks_keys as [Hnd Hv].
  assert (Hdd : dedup stored_masks = stored_masks) by by apply dedup_NoDup_id.
  destruct (construct_ok stored_masks) as (g' & Hg' & Hs).
  { rewrite Hdd. intros kv Hin. apply Hv, list_elem_of_fmap. exists kv. split; [done|].
    unfold nonzero in Hin. apply list_elem_of_In, filter_In in Hin as [Hin _]. by apply list_elem_of_In. }
  exists g'. split; [done|]. rewrite Hdd in Hs. destruct Hs as (Hs & Ha & Ho).
  intros r Hr%isRoleValid_iff.
  destruct (decide (r = -1)) as [->|]; [etransitivity; [exact Ho|symmetry; exact (ok_owner g Hok)]|].
  destruct (decide (r = 4)) as [->|]; [etransitivity; [exact Ha|symmetry; exact (ok_admin g Hok)]|].
  apply Z.bits_inj'. intros b _. apply eq_true_iff_eq. etransitivity; [exact (Hs r b ltac:(lia))|].
  etransitivity; [|apply (stored_bits g r b Hok Hkeys); lia].
  unfold nonzero. split; intros (kv & Hin & Hb); exists kv; (split; [|exact Hb]);
    apply list_elem_of_In, filter_In; apply list_elem_of_In, filter_In in Hin as [Hin Hz];
    (split; [|exact Hz]); apply list_elem_of_In; apply list_elem_of_In in Hin.
  - by apply stored_masks_in in Hin as [? _].
  - apply stored_masks_in. split; [done|]. destruct Hb as [Hk _]. unfold Administrator, Owner. lia.
Qed.
End Filtered.

(** ** The settings of a constructed room *)

Definition settings_view (r : Room) :=
  (title r, description r, visibility r, queueMode r, autoSkipSegmentCategories r, restoreQueueBehavior r,
   enableVoteSkip r, bufferGateMode r, danmakuSource r, owner r, userRoles r).

Section Constructed.
Context `{E : Env}.

Lemma constructed_settings o :
  settings_view (construct_room o) =
    (opt_title o, opt_description o, opt_visibility o, opt_queueMode o, opt_autoSkip o,
     opt_restoreQueueBehavior o, opt_enableVoteSkip o, opt_bufferGateMode o, opt_danmakuSource o,
     opt_owner o, opt_userRoles o).
Proof.
  assert (Hp : forall v r, settings_view (set_prevQueue v r) = settings_view r)
    by (intros v r; unfold set_prevQueue; repeat case_match; reflexivity).
  assert (Hu : forall r, settings_view (upgrade_permissions o r) = settings_view r)
    by (intros r; unfold upgrade_permissions; cbv zeta; case_match; reflexivity).
  assert (Hr : forall r, settings_view (restore_prev_queue r) = settings_view r).
  { intros r. unfold restore_prev_queue. cbv zeta. repeat case_match; try reflexivity.
    match goal with |- settings_view ((set_prevQueue None ?x) <| restoredFromStorage := _ |>) = _ =>
      transitivity (settings_view (set_prevQueue None x)); [reflexivity|] end.
    rewrite Hp. reflexivity. }
  unfold construct_room. cbv zeta. rewrite Hu, Hr. case_match; [rewrite Hp|]; reflexivity.
Qed.

Lemma constructed_grants o :
  opt_permissionsRevision o = Some ROOM_PERMISSIONS_REVISION -> grants (construct_room o) = opt_grants o.
Proof.
  intros Ho. unfold construct_room, upgrade_permissions. cbv zeta. rewrite Ho. cbn [default].
  rewrite Z.ltb_irrefl.
  match goal with |- grants (?x <| permissionsRevision := _ |>) = _ => change (grants x = opt_grants o) end.
  assert (Hp : forall v r, grants (set_prevQueue v r) = grants r)
    by (intros v r; unfold set_prevQueue; repeat case_match; reflexivity).
  unfold restore_prev_queue. cbv zeta. repeat case_match; try reflexivity; try apply Hp.
  all: match goal with |- grants ((set_prevQueue None ?x) <| restoredFromStorage := _ |>) = _ =>
      transitivity (grants (set_prevQueue None x)); [reflexivity|] end; rewrite Hp; try reflexivity.
  all: apply Hp.
Qed.
End Constructed.

(** The members of a role, wherever they are listed. *)
Definition members (role : Role) (l : list (Role * gset Z)) : gset Z := default ∅ (map_get role l).

Lemma members_row role l :
  role = TrustedUser \/ role = Moderator \/ role = Administrator ->
  members role [(TrustedUser, list_to_set (role_members TrustedUser l));
                (Moderator, list_to_set (role_members Moderator l));
                (Administrator, list_to_set (role_members Administrator l))] = members role l.
Proof.
  intros Hr. transitivity (list_to_set (C := gset Z) (role_members role l)).
  - by destruct Hr as [-> |[-> | ->]].
  - unfold role_members, members. destruct (map_get role l); [apply list_to_set_elements_L|done].
Qed.

(** Saving a room and loading it again.  The row written for a room gives back, through the
    constructor, every setting of the room, its owner, the members of each role, and for
    every role the same permissions, although the row leaves out the two highest roles. *)
Theorem row_roundtrip `{E : Env} r joined :
  grants_ok (grants r) -> keys_ok (grants r) ->
  permissionsRevision r = ROOM_PERMISSIONS_REVISION -> joined = owner r ->
  exists o, dbToRoomArgs joined (roomToDb r) = inr o /\
    let r' := construct_room o in
    name r' = name r /\ title r' = title r /\ description r' = description r /\
    visibility r' = visibility r /\ queueMode r' = queueMode r /\
    autoSkipSegmentCategories r' = autoSkipSegmentCategories r /\
    restoreQueueBehavior r' = restoreQueueBehavior r /\ enableVoteSkip r' = enableVoteSkip r /\
    bufferGateMode r' = bufferGateMode r /\ danmakuSource r' = danmakuSource r /\ owner r' = owner r /\
    (forall role, TrustedUser <= role <= Administrator -> members role (userRoles r') = members role (userRoles r)) /\
    (forall role p, isRoleValid role = true ->
       Grants.granted (grants r') role p = Grants.granted (grants r) role p).
Proof.
  intros Hok Hkeys Hrev ->. destruct (filtered_roundtrip (grants r) Hok Hkeys) as (g' & Hg' & Hmask).
  unfold dbToRoomArgs, roomToDb.
  cbn [db_name db_title db_description db_visibility db_queueMode db_permissions db_role_admin db_role_mod
    db_role_trusted db_autoSkip db_prevQueue db_restoreQueueBehavior db_enableVoteSkip db_bufferGateMode
    db_danmakuSource db_passwordHash db_permissionsRevision]. fold (stored_masks (grants r)). rewrite Hg'.
  eexists. split; [reflexivity|]. cbv zeta.
  match goal with |- context [construct_room ?x] => set (o := x) end.
  pose proof (constructed_settings o) as Hs. pose proof (identity_construct o) as Hn.
  pose proof (constructed_grants o) as Hg. subst o. rewrite Hg by (cbn; by f_equal).
  unfold settings_view in Hs. injection Hs as -> -> -> -> -> -> -> -> -> -> ->. unfold identity in Hn.
  injection Hn as -> _. cbn [opt_title opt_description opt_visibility opt_queueMode opt_autoSkip
    opt_restoreQueueBehavior opt_enableVoteSkip opt_bufferGateMode opt_danmakuSource opt_owner opt_userRoles
    opt_name opt_grants]. split_and!; try done.
  - intros role Hrole. apply members_row. unfold TrustedUser, Moderator, Administrator in *. lia.
  - intros role p Hr. unfold Grants.granted. by rewrite Hmask.
Qed.

(** A room with an owner, members and a queue to come back to. *)
Definition stored_room : Room :=
  construct_room (E := sample_env 0)
    (sample_options <| opt_isTemporary := false |> <| opt_title := "Movies" |>
       <| opt_owner := Some (sample_user 1) |>
       <| opt_userRoles := [(TrustedUser, {[ 7; 9 ]}); (Moderator, {[ 2 ]}); (Administrator, ∅)] |>).

Lemma row_roundtrip_witness :
  exists o, dbToRoomArgs (Some (sample_user 1)) (roomToDb stored_room) = inr o /\
    title (construct_room (E := sample_env 9) o) = "Movies"%string /\
    members TrustedUser (userRoles (construct_room (E := sample_env 9) o)) = {[ 7; 9 ]} /\
    Grants.granted (grants (construct_room (E := sample_env 9) o)) Moderator "manage-users.kick" = true.
Proof.
  assert (Hg : Grants.construct (Grants.toJSON Grants.defaultPermissions) = inr (grants stored_room))
    by (vm_compute; reflexivity).
  destruct (row_roundtrip (E := sample_env 9) stored_room (Some (sample_user 1))) as (o & Ho & H).
  - by eapply construct_grants_ok.
  - by eapply construct_keys_ok.
  - vm_compute; reflexivity.
  - vm_compute; reflexivity.
  - exists o. split; [exact Ho|]. destruct H as (_ & -> & _ & _ & _ & _ & _ & _ & _ & _ & _ & Hm & Hp).
    split; [vm_compute; reflexivity|]. split.
    + rewrite Hm by (unfold TrustedUser, Administrator; lia). vm_compute; reflexivity.
    + rewrite Hp by reflexivity. vm_compute; reflexivity.
Defined.

(** ** Where the row and the room part *)

Section Parting.
Context `{E : Env}.

(** A promotion writes the whole room to its row.  Its column [prevQueue] is then the room's
    own [prevQueue] (nothing, once the queue was taken up), while a sync had put a snapshot
    of what is on and of the queue there. *)
Theorem promotion_drops_the_saved_queue r d v :
  isTemporary r = false -> PQueue ∈ dirty r -> currentSource r = Some v -> prevQueue r = None ->
  db_prevQueue (sync_row r d) = Some (left_behind r (realPlaybackPosition r)) /\
  db_prevQueue (roomToDbPartial (whole r) (sync_row r d)) = None.
Proof.
  intros Ht Hd Hs Hp. unfold sync_row. rewrite Ht. split.
  - unfold roomToDbPartial, sync_settings. cbn [db_prevQueue ps_prevQueue].
    rewrite (proj2 (existsb_exists _ _)).
    2: { exists PQueue. split; [by left|by apply bool_decide_eq_true]. }
    cbn [default]. unfold queueSnapshot, left_behind. by rewrite Hs.
  - unfold roomToDbPartial, whole. cbn [db_prevQueue ps_prevQueue default]. exact Hp.
Qed.

(** A sync never brings the revision of a row up to date. *)
Lemma sync_keeps_revision r d : db_permissionsRevision (sync_row r d) = db_permissionsRevision d.
Proof. unfold sync_row. by destruct (isTemporary r). Qed.
End Parting.

(** The room of a row, loaded at instant [t]. *)
Definition load_row (t : Z) (d : DbRoom) : option Room :=
  match dbToRoomArgs None d with inl _ => None | inr o => Some (construct_room (E := sample_env t) o) end.

(** A row saved before revisions existed. *)
Definition old_row : DbRoom := (roomToDb stored_room) <| db_permissionsRevision := None |>.
Definition danmaku_permission : string := "configure-room.set-danmaku-source".

(** The owner takes the permission away from everybody below administrators. *)
Definition revoke : RoomStep :=
  StepRequest (ApplySettingsRequest [SGrants (MkGrants (map (fun i => (i, 0)) [-1; 0; 1; 2; 3]))])
    (MkContext "c1" Owner (Some "c1") None).

(** Additions are not applied exactly once: the owner of a room from an old row revokes a
    permission of the additions, a sync saves the grants, and the next time the room is
    loaded everybody has the permission again. *)
Theorem revoked_permission_returns :
  exists r, load_row 0 old_row = Some r /\ Grants.granted (grants r) UnregisteredUser danmaku_permission = true /\
    let r1 := drive [(10, join "c1"); (20, revoke)] r in
    Grants.granted (grants r1) UnregisteredUser danmaku_permission = false /\
    exists r2, load_row 100 (sync_row (E := sample_env 30) r1 old_row) = Some r2 /\
      Grants.granted (grants r2) UnregisteredUser danmaku_permission = true.
Proof.
  destruct (load_row 0 old_row) as [r|] eqn:Hr; [|by vm_compute in Hr]. exists r. split; [done|].
  vm_compute in Hr. injection Hr as <-. split; [vm_compute; reflexivity|]. cbv zeta.
  split; [vm_compute; reflexivity|].
  match goal with |- exists r2, load_row 100 ?x = _ /\ _ => destruct (load_row 100 x) as [r2|] eqn:H2 end;
    [|by vm_compute in H2].
  exists r2. split; [done|]. vm_compute in H2. injection H2 as <-. vm_compute; reflexivity.
Qed.
