(* ===== verification/Voice.v ===== *)
(** * Voice: who may speak, and over which relay

    [server/voice-budget.ts] and the parts of [server/voice.ts] it rests on: the channels and
    their endpoints, the ICE servers, and the decision on who may join the voice of a room. *)

From S2P Require Import Prelude Types.

Module Voice.

(** One entry of the ICE server list. *)
Record IceServer := MkIce {
  urls : list string;
  ice_username : option string;
  credential : option string;
}.

Definition isTurnUrl (url : string) : bool := String.prefix "turn:" url || String.prefix "turns:" url.
Definition hasTurnUrl (server : IceServer) : bool := existsb isTurnUrl (urls server).

Inductive ChannelKind := Cloudflare | Static.

Record TurnEndpoint := MkEndpoint {
  ep_id : string;
  monthlyLimitMb : Q;
  keyId : option string;
  apiToken : option string;
  staticIceServers : option (list IceServer);
}.

Record TurnChannel := MkChannel {
  ch_id : string;
  ch_kind : ChannelKind;
  endpoints : list TurnEndpoint;
}.

Record RelaySelection := MkSelection { sel_channel : TurnChannel; sel_endpoint : option TurnEndpoint }.

Inductive VoiceDeniedReason := Disabled | RoomFull | TooManyRooms | Budget.

(** The configuration; it does not change while the server runs. *)
Class VoiceConf := {
  conf_voice_enabled : bool;
  conf_max_participants_per_room : Z;
  conf_max_concurrent_rooms : Z;
  conf_turn_channels : list TurnChannel;
  conf_direct_ice : list IceServer;
}.

Section Decide.
Context `{C : VoiceConf}.

Definition isVoiceEnabled : bool := conf_voice_enabled.

Record VoiceJoinDecision := MkDecision {
  allowed : bool;
  reason : option VoiceDeniedReason;
  includeRelay : bool;
}.

Definition hasRelayConfigured : bool := (0 <? length conf_turn_channels)%nat.

Definition decideVoiceJoin (roomParticipants : nat) (roomAlreadyInVoice : bool) (voiceRoomCount : nat)
    : VoiceJoinDecision :=
  if (0 <? conf_max_participants_per_room) && (conf_max_participants_per_room <=? Z.of_nat roomParticipants)
  then MkDecision false (Some RoomFull) false
  else if (0 <? conf_max_concurrent_rooms) && negb roomAlreadyInVoice
          && (conf_max_concurrent_rooms <=? Z.of_nat voiceRoomCount)
  then MkDecision false (Some TooManyRooms) false
  else MkDecision true None hasRelayConfigured.
End Decide.

End Voice.
