(* ===== verification/VoiceBudget.v ===== *)
(** * VoiceBudget: which relay a room's voice goes over, and what it is charged

    The accounts of [server/voice-budget.ts]: the usage of each endpoint, the choice of a
    channel that has quota left, and the accrual of estimated bytes.  What the store and the
    credential service answer are arguments. *)

From Stdlib Require Import Qround Ascii.
From S2P Require Import Prelude Types Voice.
From S2P Require RoomRequests.

Module Budget.
Import Voice.

Definition RELAY_USD_PER_GB : Q := 5 # 100.
Definition BYTES_PER_MB : Q := 1000000.
Definition BYTES_PER_GB : Q := 1000000000.

(** ** The usage of channels *)

Record VoiceEndpointState := MkEndpointState {
  es_id : string;
  es_limitMb : Q;
  es_estimatedMb : Q;
  es_actualMb : option Q;
  es_usageMb : Q;
  es_remainingMb : Q;
  es_allowed : bool;
}.

Record VoiceChannelState := MkChannelState {
  cs_id : string;
  cs_kind : ChannelKind;
  cs_limitMb : Q;
  cs_estimatedMb : Q;
  cs_actualMb : option Q;
  cs_usageMb : Q;
  cs_remainingMb : Q;
  cs_allowed : bool;
  cs_endpoints : list VoiceEndpointState;
}.

(** [Number.parseInt(raw, 10)] *)
Fixpoint digits (s : string) (acc : option Z) : option Z :=
  match s with
  | String c s' =>
      let n := Z.of_nat (nat_of_ascii c) - 48 in
      if (0 <=? n) && (n <=? 9) then digits s' (Some (10 * default 0 acc + n)) else acc
  | EmptyString => acc
  end.

Definition parseInt (raw : string) : option Z :=
  match RoomRequests.trim_left raw with
  | String "-" s => option_map Z.opp (digits s None)
  | String "+" s => digits s None
  | s => digits s None
  end.

(** [parseBytes] of what Redis holds under a key. *)
Definition parseBytes (raw : option string) : option Z :=
  match raw with
  | None | Some EmptyString => None
  | Some s => Some (match parseInt s with Some n => if 0 <? n then n else 0 | None => 0 end)
  end.

(** The keys of an account's two counters in a month, given as year and month. *)
Definition endpointUsageKey (month channelId endpointId : string) : string :=
  ("voice:relay-bytes:" ++ month ++ ":" ++ channelId ++ ":" ++ endpointId)%string.
Definition actualEndpointUsageKey (month channelId endpointId : string) : string :=
  ("voice:cloudflare-egress:" ++ month ++ ":" ++ channelId ++ ":" ++ endpointId)%string.

(** [getEndpointEstimatedBytes] and [getEndpointActualBytes] of the Redis store; [get] is what it
    answers, [None] when the command fails. *)
Section RedisStore.
Variables (get : string -> option (option string)) (month : string).
Definition getEndpointEstimatedBytes (channelId endpointId : string) : option Z :=
  option_map (fun raw => default 0 (parseBytes raw)) (get (endpointUsageKey month channelId endpointId)).
Definition getEndpointActualBytes (channelId endpointId : string) : option (option Z) :=
  option_map parseBytes (get (actualEndpointUsageKey month channelId endpointId)).
End RedisStore.

Definition sumQ (l : list Q) : Q := fold_left Qplus l 0%Q.

Section Usage.
(** The two counters of an endpoint; [None] when reading them fails. *)
Variables (estimated : string -> string -> option Z) (actual : string -> string -> option (option Z)).

Definition endpoint_state (channelId : string) (e : TurnEndpoint) : VoiceEndpointState :=
  let est := estimated channelId (ep_id e) in
  let act := actual channelId (ep_id e) in
  let readable := match est, act with Some _, Some _ => true | _, _ => false end in
  let estimatedBytes := inject_Z (default 0 est) in
  let actualBytes := match act with Some (Some a) => Some (inject_Z a) | _ => None end in
  let usageBytes := default estimatedBytes actualBytes in
  let limitBytes := (monthlyLimitMb e * BYTES_PER_MB)%Q in
  MkEndpointState (ep_id e) (monthlyLimitMb e) (estimatedBytes / BYTES_PER_MB)
    (match actualBytes with Some a => Some (a / BYTES_PER_MB)%Q | None => None end)
    (usageBytes / BYTES_PER_MB) (Qmax' 0 ((limitBytes - usageBytes) / BYTES_PER_MB))
    (readable && Qlt_bool usageBytes limitBytes).

Definition channel_state (c : TurnChannel) : VoiceChannelState :=
  let eps := map (endpoint_state (ch_id c)) (endpoints c) in
  let usageMb := sumQ (map es_usageMb eps) in
  let limitMb := sumQ (map es_limitMb eps) in
  MkChannelState (ch_id c) (ch_kind c) limitMb (sumQ (map es_estimatedMb eps))
    (if existsb (fun e => match es_actualMb e with Some _ => true | None => false end) eps
     then Some (sumQ (map (fun e => default (es_estimatedMb e) (es_actualMb e)) eps)) else None)
    usageMb (Qmax' 0 (limitMb - usageMb)) (existsb es_allowed eps) eps.

Definition getChannelStates (channels : list TurnChannel) : list VoiceChannelState := map channel_state channels.

(** The status page of [getVoiceUsageSnapshot]; the two budgets it shows are no longer in use. *)
Record VoiceUsageSnapshot := MkSnapshot {
  snap_enabled : bool;
  relayConfigured : bool;
  relayAllowed : bool;
  monthlyUsageMb : Q;
  estimatedMonthlyCostUsd : Q;
  snap_channels : list VoiceChannelState;
}.

Definition round (q : Q) : Z := Qfloor (q + (1 # 2)).

Definition getVoiceUsageSnapshot (enabled : bool) (channels : list TurnChannel) : VoiceUsageSnapshot :=
  let states := getChannelStates channels in
  let usageBytes := sumQ (map (fun c => cs_usageMb c * BYTES_PER_MB)%Q states) in
  MkSnapshot enabled (0 <? length channels)%nat (existsb (fun c => existsb es_allowed (cs_endpoints c)) states)
    (usageBytes / BYTES_PER_MB) (inject_Z (round (usageBytes / BYTES_PER_GB * RELAY_USD_PER_GB * 10000)) / 10000) states.

Definition isRelayAllowedNow (channels : list TurnChannel) : bool :=
  existsb (fun c => existsb es_allowed (cs_endpoints c)) (getChannelStates channels).
End Usage.

(** ** Choosing a channel *)

Definition Entry : Type := TurnChannel * VoiceChannelState.

Fixpoint insert_asc (x : Entry) (l : list Entry) : list Entry :=
  match l with
  | [] => [x]
  | y :: l' => if Qle_bool (cs_usageMb x.2) (cs_usageMb y.2) then x :: l else y :: insert_asc x l'
  end.

(** [.sort((a, b) => a.state.usageMb - b.state.usageMb)], which is stable. *)
Definition sort_asc (l : list Entry) : list Entry := foldr insert_asc [] l.

Definition state_of (states : list VoiceChannelState) (c : TurnChannel) : option VoiceChannelState :=
  List.find (fun s => bool_decide (cs_id s = ch_id c)) states.

Definition available (channels : list TurnChannel) (states : list VoiceChannelState) : list Entry :=
  sort_asc (omap (fun c => match state_of states c with
                           | Some s => if cs_allowed s then Some (c, s) else None
                           | None => None
                           end) channels).

(** The equally least used ones in turn, then the others. *)
Definition orderedChannels (cursor : nat) (avail : list Entry) : list Entry :=
  match avail with
  | [] => []
  | first :: _ =>
      let least e := Qeq_bool (cs_usageMb e.2) (cs_usageMb first.2) in
      let leastUsed := List.filter least avail in
      let start := (cursor mod length leastUsed)%nat in
      drop start leastUsed ++ take start leastUsed ++ List.filter (fun e => negb (least e)) avail
  end.

(** The endpoint in use comes first. *)
Definition orderedEndpoints (active : option string) (c : TurnChannel) : list TurnEndpoint :=
  match active with
  | Some a => List.filter (fun e => bool_decide (ep_id e = a)) (endpoints c)
              ++ List.filter (fun e => negb (bool_decide (ep_id e = a))) (endpoints c)
  | None => endpoints c
  end.

(** [stateById.get(endpoint.id)?.allowed === true]; of two of the same id the later counts. *)
Definition endpoint_allowed (s : VoiceChannelState) (e : TurnEndpoint) : bool :=
  match List.find (fun x => bool_decide (es_id x = ep_id e)) (rev (cs_endpoints s)) with
  | Some x => es_allowed x
  | None => false
  end.

Record Selector := MkSelector { channelCursor : nat; activeEndpoints : list (string * string) }.

Section Select.
(** What [getChannelRelayIceServers] gives for an endpoint. *)
Variable iceServers : string -> string -> list IceServer.

Definition serves (s : VoiceChannelState) (c : TurnChannel) (e : TurnEndpoint) : bool :=
  endpoint_allowed s e && negb (bool_decide (length (iceServers (ch_id c) (ep_id e)) = 0)%nat).

(** The empty string stands for no endpoint. *)
Definition active_of (sel : Selector) (c : TurnChannel) : option string :=
  match map_get (ch_id c) (activeEndpoints sel) with
  | Some a => if bool_decide (a = ""%string) then None else Some a
  | None => None
  end.

Fixpoint pick (sel : Selector) (l : list Entry) : option (TurnChannel * TurnEndpoint) :=
  match l with
  | [] => None
  | (c, s) :: l' =>
      match List.find (serves s c) (orderedEndpoints (active_of sel c) c) with
      | Some e => Some (c, e)
      | None => pick sel l'
      end
  end.

Definition selectRelayChannel (channels : list TurnChannel) (states : list VoiceChannelState) (sel : Selector)
    : option (TurnChannel * TurnEndpoint) * Selector :=
  match pick sel (orderedChannels (channelCursor sel) (available channels states)) with
  | Some (c, e) => (Some (c, e), MkSelector (S (channelCursor sel)) (map_set (ch_id c) (ep_id e) (activeEndpoints sel)))
  | None => (None, sel)
  end.
End Select.

(** ** Charging *)

Record VoiceRoomUsage := MkUsage { participants : Z; u_channelId : option string; u_endpointId : option string }.

Definition room_bytes (bitrateKbps tickSeconds : Q) (r : VoiceRoomUsage) : Q :=
  (inject_Z (participants r * (participants r - 1)) * bitrateKbps * 1000 * tickSeconds / 8)%Q.

(** Where a room is charged: not when it has one participant or no endpoint. *)
Definition charged_to (r : VoiceRoomUsage) : option (string * string) :=
  if participants r <? 2 then None
  else match u_channelId r, u_endpointId r with Some c, Some e => Some (c, e) | _, _ => None end.

(** The bytes of an account in a tick, and the key they are gathered under. *)
Record EndpointBytes := MkBytes { eb_channelId : string; eb_endpointId : string; eb_bytes : Q }.
Definition perEndpointKey (channelId endpointId : string) : string :=
  (channelId ++ String Ascii.zero EmptyString ++ endpointId)%string.

Definition perEndpoint (kbps seconds : Q) (rooms : list VoiceRoomUsage) : list (string * EndpointBytes) :=
  fold_left (fun m r => match charged_to r with
                        | Some (c, e) =>
                            let bytes := room_bytes kbps seconds r in
                            let key := perEndpointKey c e in
                            match map_get key m with
                            | Some x => map_set key (MkBytes (eb_channelId x) (eb_endpointId x) (eb_bytes x + bytes)%Q) m
                            | None => map_set key (MkBytes c e bytes) m
                            end
                        | None => m
                        end) rooms [].

(** How the store takes the two commands of an account, [incrBy] and [expire]. *)
Inductive reply := Stored | NotExpired | Refused.

(** [incrBy] on the counter of an account in the current month, and whether nothing was thrown. *)
Definition addEndpointEstimatedBytes (month : string) (r : reply) (channelId endpointId : string) (bytes : Q)
    (store : gmap string Z) : gmap string Z * bool :=
  if Qle_bool bytes 0 then (store, true)
  else
    let key := endpointUsageKey month channelId endpointId in
    let counted := <[key := default 0 (store !! key) + round bytes]> store in
    match r with Stored => (counted, true) | NotExpired => (counted, false) | Refused => (store, false) end.

(** An error of the store ends the loop; [at_] gives the month and the reply at each turn. *)
Fixpoint charge (at_ : nat -> string * reply) (i : nat) (l : list EndpointBytes) (store : gmap string Z) : gmap string Z :=
  match l with
  | [] => store
  | x :: l' =>
      let '(store, fine) := addEndpointEstimatedBytes (at_ i).1 (at_ i).2 (eb_channelId x) (eb_endpointId x) (eb_bytes x) store in
      if fine : bool then charge at_ (S i) l' store else store
  end.

Definition recordUsage (at_ : nat -> string * reply) (kbps seconds : Q) (rooms : list VoiceRoomUsage)
    (store : gmap string Z) : gmap string Z :=
  charge at_ 0 (map snd (perEndpoint kbps seconds rooms)) store.

End Budget.
