(* ===== verification/VoiceRelay.v ===== *)
(** * VoiceRelay: the relay channels a server is configured with, and their credentials

    The rest of [server/voice.ts]: reading the channel list out of the configuration, the short
    lived credentials that Cloudflare mints for an account, the cache that holds them, and the
    list of servers a client gets.

    [getCloudflareTurnIceServers] runs up to the fetch in one piece; what happens when the fetch
    settles is a second piece.  The text of a JSON setting is parsed by the environment, and so
    is a value that is not a number coerced to one. *)

From stdpp Require Import gmap pretty.
From S2P Require Import Prelude Types Voice.
From S2P Require RoomRequests.

Module Relay.
Import Voice.
Import RoomRequests(trim).

(** A parsed JSON value; an object has each of its keys once. *)
Inductive json :=
  | Null | Bool (b : bool) | Num (n : num) | Str (s : string)
  | Arr (l : list json) | Obj (fields : list (string * json)).

(** The settings this file reads, and the two functions of the language it leans on. *)
Record Conf := MkConf {
  turn_channels : string;
  cloudflare_key_id : string;
  cloudflare_api_token : string;
  turn_ice_servers : string;
  ice_servers : string;
  ttl_seconds : num;
}.

Class RelayEnv := {
  JSON_parse : string -> option json;
  coerce : json -> num;
}.

Definition DEFAULT_CHANNEL_LIMIT_MB : Q := 700000.
Definition TURN_MIN_TTL_SECONDS : Q := 300.
Definition TURN_MAX_TTL_SECONDS : Q := 172800.
Definition TURN_DEFAULT_TTL_SECONDS : Q := 86400.
Definition TURN_REFRESH_RATIO : Q := 8 # 10.
Definition TURN_FAILURE_COOLDOWN_MS : Q := 30000.

(** ** Reading lists of servers *)

Definition DEFAULT_DIRECT_ICE_SERVERS : list IceServer :=
  [MkIce ["stun:stun.l.google.com:19302"%string] None None;
   MkIce ["stun:stun.cloudflare.com:3478"%string] None None].

Definition as_text (j : option json) : option string := match j with Some (Str s) => Some s | _ => None end.

(** The [urls] of an entry: one, or several. *)
Definition urls_of (j : option json) : option (list string) :=
  match j with
  | Some (Str s) => Some [s]
  | Some (Arr ((_ :: _) as l)) => mapM (fun u => as_text (Some u)) l
  | _ => None
  end.

Definition static_entry (entry : json) : option IceServer :=
  match entry with
  | Obj f => us ← urls_of (map_get "urls"%string f);
             Some (MkIce us (as_text (map_get "username"%string f)) (as_text (map_get "credential"%string f)))
  | _ => None
  end.

Definition is_blank (s : string) : bool := bool_decide (s = ""%string).

Section Config.
Context `{R : RelayEnv}.

Definition parseIceServers (raw : string) (fallback : list IceServer) : list IceServer :=
  let trimmed := trim raw in
  if is_blank trimmed then fallback
  else match JSON_parse trimmed with
       | Some (Arr ((_ :: _) as parsed)) => default fallback (mapM static_entry parsed)
       | _ => fallback
       end.

Definition getDirectIceServers (conf : Conf) : list IceServer :=
  parseIceServers (ice_servers conf) DEFAULT_DIRECT_ICE_SERVERS.
Definition getStaticRelayIceServers (conf : Conf) : list IceServer := parseIceServers (turn_ice_servers conf) [].

Definition getCloudflareTurnTtlSeconds (conf : Conf) : Q :=
  let effectiveTtl := match ttl_seconds conf with Fin q => q | _ => TURN_DEFAULT_TTL_SECONDS end in
  Qmin' (Qmax' effectiveTtl TURN_MIN_TTL_SECONDS) TURN_MAX_TTL_SECONDS.

(** ** Reading the channels *)

Definition Number (j : json) : num :=
  match j with
  | Num n => n
  | Bool b => Fin (if b then 1 else 0)
  | Null => Fin 0
  | _ => coerce j
  end.

(** [Number(value ?? fallback)] when that is finite and positive, else the default. *)
Definition limit_of (j : option json) (fallback : Q) : Q :=
  let configuredLimit := match j with None | Some Null => Fin fallback | Some v => Number v end in
  match configuredLimit with
  | Fin q => if Qlt_bool 0 q then q else DEFAULT_CHANNEL_LIMIT_MB
  | _ => DEFAULT_CHANNEL_LIMIT_MB
  end.

Definition text_field (k : string) (f : list (string * json)) : string :=
  match as_text (map_get k f) with Some s => trim s | None => ""%string end.

(** The accounts of [keys]; [None] is the error thrown at the first bad entry. *)
Fixpoint parse_keys (channelId : string) (channelLimitMb : Q) (index : nat) (seen : list string) (rawKeys : list json)
    : option (list TurnEndpoint) :=
  match rawKeys with
  | [] => Some []
  | Obj key :: rest =>
      let id := text_field "id" key in
      let endpointId := if is_blank id then (channelId ++ "-" ++ pretty (S index))%string else id in
      let keyId := text_field "keyId" key in
      let apiToken := text_field "apiToken" key in
      if is_blank keyId || is_blank apiToken then None
      else if bool_decide (endpointId ∈ seen) then None
      else let monthlyLimitMb := limit_of (map_get "monthlyLimitMb"%string key) channelLimitMb in
           others ← parse_keys channelId channelLimitMb (S index) (endpointId :: seen) rest;
           Some (MkEndpoint endpointId monthlyLimitMb (Some keyId) (Some apiToken) None :: others)
  | _ => None
  end.

Definition parseEndpoints (channelId : string) (value : list (string * json)) (channelLimitMb : Q)
    : option (list TurnEndpoint) :=
  match map_get "keys"%string value with
  | Some (Arr []) => None
  | Some (Arr rawKeys) => parse_keys channelId channelLimitMb 0 [] rawKeys
  | _ =>
      let keyId := text_field "keyId" value in
      let apiToken := text_field "apiToken" value in
      if is_blank keyId || is_blank apiToken then None
      else Some [MkEndpoint "default" channelLimitMb (Some keyId) (Some apiToken) None]
  end.

Definition parse_channel (conf : Conf) (id : string) (value : list (string * json)) : option TurnChannel :=
  let monthlyLimitMb := limit_of (map_get "monthlyLimitMb"%string value) DEFAULT_CHANNEL_LIMIT_MB in
  match map_get "kind"%string value with
  | Some (Str "static") =>
      let static := getStaticRelayIceServers conf in
      if bool_decide (static = []) then None
      else Some (MkChannel id Static [MkEndpoint "static" monthlyLimitMb None None (Some static)])
  | _ => eps ← parseEndpoints id value monthlyLimitMb; Some (MkChannel id Cloudflare eps)
  end.

Fixpoint parse_channels (conf : Conf) (seen : list string) (parsed : list json) : option (list TurnChannel) :=
  match parsed with
  | [] => Some []
  | Obj value :: rest =>
      let id := text_field "id" value in
      if is_blank id || bool_decide (id ∈ seen) then None
      else c ← parse_channel conf id value;
           others ← parse_channels conf (id :: seen) rest;
           Some (c :: others)
  | _ => None
  end.

(** The channels of the single settings, used when no list is configured. *)
Definition fallback_channels (conf : Conf) : list TurnChannel :=
  let keyId := trim (cloudflare_key_id conf) in
  let apiToken := trim (cloudflare_api_token conf) in
  let static := getStaticRelayIceServers conf in
  (if is_blank keyId || is_blank apiToken then []
   else [MkChannel "cloudflare" Cloudflare
           [MkEndpoint "default" DEFAULT_CHANNEL_LIMIT_MB (Some keyId) (Some apiToken) None]]) ++
  (if bool_decide (static = []) then []
   else [MkChannel "static" Static [MkEndpoint "static" DEFAULT_CHANNEL_LIMIT_MB None None (Some static)]]).

Definition parseTurnChannels (conf : Conf) : list TurnChannel :=
  let trimmed := trim (turn_channels conf) in
  if is_blank trimmed then fallback_channels conf
  else match JSON_parse trimmed with
       | Some (Arr ((_ :: _) as parsed)) => default [] (parse_channels conf [] parsed)
       | _ => []
       end.

(** [cachedChannelsKey] and [cachedChannels]. *)
Definition ChannelCache : Type := option string * list TurnChannel.

Definition NUL : string := String Ascii.zero EmptyString.
Definition cache_key (conf : Conf) : string :=
  (turn_channels conf ++ NUL ++ cloudflare_key_id conf ++ NUL ++ cloudflare_api_token conf ++ NUL
   ++ turn_ice_servers conf)%string.

Definition getTurnChannels (conf : Conf) (cache : ChannelCache) : list TurnChannel * ChannelCache :=
  if bool_decide (cache.1 = Some (cache_key conf)) then (cache.2, cache)
  else let channels := parseTurnChannels conf in (channels, (Some (cache_key conf), channels)).

Definition isCloudflareTurnConfigured (conf : Conf) : bool :=
  existsb (fun c => match ch_kind c with Cloudflare => negb (bool_decide (endpoints c = [])) | Static => false end)
    (parseTurnChannels conf).
Definition hasRelayConfigured (conf : Conf) : bool := negb (bool_decide (parseTurnChannels conf = [])).
End Config.

(** ** What Cloudflare answers *)

(** [/:53(?:\?|$)/] *)
Fixpoint on_port53 (url : string) : bool :=
  match url with
  | EmptyString => false
  | String _ rest => String.prefix ":53?" url || bool_decide (url = ":53"%string) || on_port53 rest
  end.

Definition withoutPort53 (us : list string) : list string := List.filter (fun u => negb (on_port53 u)) us.

Definition parseIceServerEntry (value : json) : option IceServer :=
  match value with
  | Obj f =>
      rawUrls ← urls_of (map_get "urls"%string f);
      match withoutPort53 rawUrls with
      | [] => None
      | us => Some (MkIce us (as_text (map_get "username"%string f)) (as_text (map_get "credential"%string f)))
      end
  | _ => None
  end.

Definition parseCloudflareIceServers (value : option json) : list IceServer :=
  match value with
  | Some (Arr l) => omap (fun entry => server ← parseIceServerEntry entry;
                                       if existsb isTurnUrl (urls server) then Some server else None) l
  | _ => []
  end.

(** The end of [fetchCloudflareTurnIceServers]: [None] is an error, the abort after five seconds
    and a body that is not JSON included. *)
Definition read_response (ok : bool) (body : option json) : option (list IceServer) :=
  if ok then
    match body with
    | None => None
    | Some b =>
        match parseCloudflareIceServers (match b with Obj f => map_get "iceServers"%string f | _ => None end) with
        | [] => None
        | l => Some l
        end
    end
  else None.

(** ** The credentials *)

Record CloudflareTurnCache := MkCache {
  cache_keyId : string;
  cache_ttl : Q;
  cache_servers : list IceServer;
  refreshAt : Q;
  expiresAt : Q;
}.

(** A request to Cloudflare that has not settled: for whom, and since when. *)
Record Fetch := MkFetch { for_channel : string; for_endpoint : TurnEndpoint; with_ttl : Q; started : Q }.

Record Credentials := MkCredentials {
  caches : gmap string CloudflareTurnCache;
  fetches : gmap string Fetch;
  failures : gmap string (string * Q);
}.

Definition no_credentials : Credentials := MkCredentials ∅ ∅ ∅.

Definition endpointCacheKey (channelId endpointId : string) : string := (channelId ++ ":" ++ endpointId)%string.

(** A caller gets its list at once, or what the fetch of a key brings. *)
Inductive answer := Servers (l : list IceServer) | Awaits (key : string).

(** [cache.keyId === endpoint.keyId] *)
Definition same_account (k : string) (e : TurnEndpoint) : bool := bool_decide (Some k = keyId e).

Definition refreshCloudflareTurnCache (channelId : string) (e : TurnEndpoint) (ttl now : Q) (s : Credentials)
    : Credentials :=
  let key := endpointCacheKey channelId (ep_id e) in
  match fetches s !! key with
  | Some _ => s
  | None => MkCredentials (caches s) (<[key := MkFetch channelId e ttl now]> (fetches s)) (failures s)
  end.

Definition getCloudflareTurnIceServers (channelId : string) (e : TurnEndpoint) (ttl now : Q) (s : Credentials)
    : answer * Credentials :=
  let key := endpointCacheKey channelId (ep_id e) in
  let matching := match caches s !! key with
                  | Some c => if same_account (cache_keyId c) e && Qeq_bool (cache_ttl c) ttl then Some c else None
                  | None => None
                  end in
  let missing :=
    match failures s !! key with
    | Some (k, until) =>
        if same_account k e && Qlt_bool now until then (Servers [], s)
        else (Awaits key, refreshCloudflareTurnCache channelId e ttl now s)
    | None => (Awaits key, refreshCloudflareTurnCache channelId e ttl now s)
    end in
  match matching with
  | Some c =>
      if Qlt_bool now (refreshAt c) then (Servers (cache_servers c), s)
      else if Qlt_bool now (expiresAt c)
           then (Servers (cache_servers c), refreshCloudflareTurnCache channelId e ttl now s)
           else missing
  | None => missing
  end.

(** The fetch of [key] settles with [result]: what its callers get, and what is kept. *)
Definition settle (key : string) (result : option (list IceServer)) (now : Q) (s : Credentials)
    : list IceServer * Credentials :=
  match fetches s !! key with
  | None => ([], s)
  | Some f =>
      let e := for_endpoint f in
      let account := default ""%string (keyId e) in
      let rest := delete key (fetches s) in
      match result with
      | Some servers =>
          (servers,
           MkCredentials
             (<[key := MkCache account (with_ttl f) servers (now + with_ttl f * 1000 * TURN_REFRESH_RATIO)
                         (now + with_ttl f * 1000)]> (caches s)) rest (delete key (failures s)))
      | None =>
          let s' := MkCredentials (caches s) rest (<[key := (account, now + TURN_FAILURE_COOLDOWN_MS)%Q]> (failures s)) in
          match caches s !! key with
          | Some c => if same_account (cache_keyId c) e && Qlt_bool now (expiresAt c) then (cache_servers c, s') else ([], s')
          | None => ([], s')
          end
      end
  end.

(** ** What callers ask for *)

Definition findChannel (channels : list TurnChannel) (channelId : string) : option TurnChannel :=
  List.find (fun c => bool_decide (ch_id c = channelId)) channels.

(** The endpoint asked for, or the channel's first. *)
Definition findEndpoint (c : TurnChannel) (endpointId : option string) : option TurnEndpoint :=
  match (match endpointId with
         | Some i => if is_blank i then None else List.find (fun e => bool_decide (ep_id e = i)) (endpoints c)
         | None => None
         end) with
  | Some e => Some e
  | None => head (endpoints c)
  end.

Definition getChannelRelayIceServers (channels : list TurnChannel) (ttl : Q) (channelId : string)
    (endpointId : option string) (now : Q) (s : Credentials) : answer * Credentials :=
  match findChannel channels channelId with
  | None => (Servers [], s)
  | Some c =>
      match findEndpoint c endpointId with
      | None => (Servers [], s)
      | Some e => match staticIceServers e with
                  | Some l => (Servers l, s)
                  | None => getCloudflareTurnIceServers (ch_id c) e ttl now s
                  end
      end
  end.

(** Every account of every channel, in the background. *)
Definition accounts_of (channels : list TurnChannel) : list (string * TurnEndpoint) :=
  channels ≫= fun c => map (fun e => (ch_id c, e)) (endpoints c).
Definition warmRelayChannels (channels : list TurnChannel) (ttl now : Q) (s : Credentials) : Credentials :=
  fold_left (fun s a => (getChannelRelayIceServers channels ttl a.1 (Some (ep_id a.2)) now s).2)
    (accounts_of channels) s.

Section Lists.
(** What [getChannelRelayIceServers] comes to, once awaited. *)
Variable relay : string -> option string -> list IceServer.

Definition getRelayIceServers (channels : list TurnChannel) : list IceServer :=
  match List.find (fun a => negb (bool_decide (relay a.1 (Some (ep_id a.2)) = []))) (accounts_of channels) with
  | Some a => relay a.1 (Some (ep_id a.2))
  | None => []
  end.

(** The empty string stands for no channel. *)
Definition getVoiceIceServers (channels : list TurnChannel) (direct : list IceServer) (includeRelay : bool)
    (channelId endpointId : option string) : list IceServer :=
  if includeRelay then
    match channelId with
    | Some i =>
        if is_blank i then direct ++ getRelayIceServers channels
        else match findChannel channels i with
             | None => direct
             | Some c =>
                 direct ++ relay (ch_id c)
                   (match endpointId with Some _ => endpointId | None => option_map ep_id (head (endpoints c)) end)
             end
    | None => direct ++ getRelayIceServers channels
    end
  else direct.
End Lists.

End Relay.
