(* ===== verification/VoiceTheorems.v ===== *)
(** * VoiceTheorems: the relay a room gets, what it is charged, and whose credentials it uses

    Three groups: the channels that a configuration gives are well formed and the cached list is
    the parsed one; the choice of [selectRelayChannel] is the least used account that can carry
    the call and the charges of [recordUsage] are those of the rooms; the credentials handed out
    are live ones of the account asked for, and an account that fails is left alone. *)

From Stdlib Require Import Qround Lqa Sorted.
From stdpp Require Import gmap pretty.
From S2P Require Import Prelude Types Voice VoiceBudget VoiceRelay.
From S2P Require RoomRequests.
Import RoomRequests(trim) Voice Budget.

(** ** The order in which channels are tried *)

Definition less_used (x y : Entry) : Prop := (cs_usageMb x.2 <= cs_usageMb y.2)%Q.

Lemma insert_asc_perm x l : insert_asc x l ≡ₚ x :: l.
Proof.
  induction l as [|y l IH]; [done|]. simpl. destruct (Qle_bool _ _); [done|].
  rewrite IH. apply Permutation_swap.
Qed.

Lemma sort_asc_perm l : sort_asc l ≡ₚ l.
Proof. induction l as [|x l IH]; [done|]. simpl. by rewrite insert_asc_perm, IH. Qed.

Lemma insert_asc_sorted x l : StronglySorted less_used l -> StronglySorted less_used (insert_asc x l).
Proof.
  induction 1 as [|y l Hl IH Hy]; simpl; [by repeat constructor|].
  destruct (Qle_bool _ _) eqn:E.
  - apply Qle_bool_iff in E. repeat constructor; auto.
    eapply Forall_impl; [exact Hy|]. intros z Hz. unfold less_used in *. lra.
  - constructor; [exact IH|]. rewrite insert_asc_perm. constructor; [|exact Hy].
    unfold less_used. apply not_true_iff_false in E. rewrite Qle_bool_iff in E. apply Qlt_le_weak. by apply Qnot_le_lt.
Qed.

Lemma sort_asc_sorted l : StronglySorted less_used (sort_asc l).
Proof. induction l; simpl; [constructor|by apply insert_asc_sorted]. Qed.

Lemma filter_split_perm {A} (f : A -> bool) (l : list A) :
  List.filter f l ++ List.filter (fun x => negb (f x)) l ≡ₚ l.
Proof.
  induction l as [|x l IH]; [done|]. simpl. destruct (f x); simpl; [by rewrite IH|].
  rewrite <- Permutation_middle. by rewrite IH.
Qed.

Lemma orderedChannels_perm cursor avail : orderedChannels cursor avail ≡ₚ avail.
Proof.
  destruct avail as [|x l]; [done|]. unfold orderedChannels.
  set (least := fun e : Entry => Qeq_bool (cs_usageMb e.2) (cs_usageMb x.2)).
  rewrite app_assoc, (Permutation_app_comm (drop _ _)), take_drop. apply filter_split_perm.
Qed.

Lemma StronglySorted_app {A} (R : A -> A -> Prop) l1 l2 :
  StronglySorted R l1 -> StronglySorted R l2 -> (forall x y, x ∈ l1 -> y ∈ l2 -> R x y) ->
  StronglySorted R (l1 ++ l2).
Proof.
  induction 1 as [|x l H1 IH Hx]; simpl; [done|]. intros H2 H. constructor.
  - apply IH; [done|]. intros y z Hy. apply H. by right.
  - apply Forall_app. split; [done|]. apply Forall_forall. intros y Hy. apply H; [by left|done].
Qed.

Lemma sorted_of_all {A} (R : A -> A -> Prop) (l : list A) :
  (forall x y, x ∈ l -> y ∈ l -> R x y) -> StronglySorted R l.
Proof.
  induction l as [|x l IH]; intros H; constructor.
  - apply IH. intros y z Hy Hz. apply H; by right.
  - apply Forall_forall. intros y Hy. apply H; [by left|by right].
Qed.

Lemma sorted_filter {A} (R : A -> A -> Prop) (f : A -> bool) l :
  StronglySorted R l -> StronglySorted R (List.filter f l).
Proof.
  induction 1 as [|x l Hl IH Hx]; simpl; [constructor|]. destruct (f x); [|done]. constructor; [done|].
  apply Forall_forall. intros y Hy. rewrite Forall_forall in Hx. apply Hx.
  apply list_elem_of_In in Hy. apply filter_In in Hy as [Hy _]. by apply list_elem_of_In.
Qed.

Lemma orderedChannels_sorted cursor avail :
  StronglySorted less_used avail -> StronglySorted less_used (orderedChannels cursor avail).
Proof.
  destruct avail as [|x l]; [done|]. intros H. unfold orderedChannels.
  set (least := fun e : Entry => Qeq_bool (cs_usageMb e.2) (cs_usageMb x.2)).
  set (start := (cursor mod _)%nat).
  assert (Hmin : forall y, y ∈ x :: l -> (cs_usageMb x.2 <= cs_usageMb y.2)%Q).
  { intros y [->|Hy]%elem_of_cons; [apply Qle_refl|].
    apply StronglySorted_inv in H as [_ Hx]. rewrite Forall_forall in Hx. by apply Hx. }
  assert (Hl : forall y, y ∈ List.filter least (x :: l) -> (cs_usageMb y.2 == cs_usageMb x.2)%Q).
  { intros y Hy. apply list_elem_of_In, filter_In in Hy as [_ Hy]. by apply Qeq_bool_iff. }
  rewrite app_assoc. apply StronglySorted_app.
  - apply sorted_of_all. intros y z Hy Hz.
    assert (Hin : forall w, w ∈ drop start (List.filter least (x :: l)) ++ take start (List.filter least (x :: l)) ->
                            w ∈ List.filter least (x :: l)).
    { intros w Hw. rewrite (Permutation_app_comm (drop _ _)), take_drop in Hw. exact Hw. }
    unfold less_used. rewrite (Hl y), (Hl z); auto. apply Qle_refl.
  - by apply sorted_filter.
  - intros y z Hy Hz. rewrite (Permutation_app_comm (drop _ _)), take_drop in Hy.
    unfold less_used. rewrite (Hl y Hy). apply Hmin.
    apply list_elem_of_In, filter_In in Hz as [Hz _]. by apply list_elem_of_In.
Qed.

Lemma orderedEndpoints_perm active c : orderedEndpoints active c ≡ₚ endpoints c.
Proof. destruct active as [a|]; simpl; [apply filter_split_perm|done]. Qed.

Lemma find_none {A} (f : A -> bool) (l l' : list A) x :
  l ≡ₚ l' -> List.find f l = None -> x ∈ l' -> f x = false.
Proof. intros Hp Hn Hx. rewrite <- Hp in Hx. eapply List.find_none; [exact Hn|]. by apply list_elem_of_In. Qed.

(** ** The channel picked *)

Section Picks.
Context (ice : string -> string -> list IceServer).

Definition can_serve (x : Entry) : Prop := exists e, e ∈ endpoints x.1 /\ serves ice x.2 x.1 e = true.

Lemma pick_none sel l x : pick ice sel l = None -> x ∈ l -> ~ can_serve x.
Proof.
  induction l as [|[c s] l IH]; [set_solver|]. simpl. destruct (List.find _ _) eqn:E; [done|].
  intros Hn [->|Hx]%elem_of_cons; [|by apply IH].
  intros (e & He & Hs). eapply find_none in E; [|apply orderedEndpoints_perm|exact He]. simpl in *. congruence.
Qed.

Lemma pick_some sel l c e :
  pick ice sel l = Some (c, e) ->
  exists l1 s l2, l = l1 ++ (c, s) :: l2 /\ (forall x, x ∈ l1 -> ~ can_serve x) /\ e ∈ endpoints c
                  /\ List.find (serves ice s c) (orderedEndpoints (active_of sel c) c) = Some e.
Proof.
  induction l as [|[c' s] l IH]; [done|]. simpl. destruct (List.find _ _) eqn:E.
  - intros [= <- <-]. exists [], s, l. split; [done|]. split; [set_solver|]. split; [|exact E].
    apply List.find_some in E as [He _]. by rewrite <- list_elem_of_In, orderedEndpoints_perm in He.
  - intros Hp. destruct (IH Hp) as (l1 & s' & l2 & -> & H1 & H2 & H3).
    exists ((c', s) :: l1), s', l2. split; [done|]. split; [|done].
    intros x [->|Hx]%elem_of_cons; [|by apply H1].
    intros (e' & He & Hs). eapply find_none in E; [|apply orderedEndpoints_perm|exact He]. simpl in *. congruence.
Qed.

Lemma available_elem channels states c s :
  (c, s) ∈ available channels states <-> c ∈ channels /\ state_of states c = Some s /\ cs_allowed s = true.
Proof.
  unfold available. rewrite sort_asc_perm, list_elem_of_omap. split.
  - intros (c' & Hc & H). destruct (state_of states c') as [s'|] eqn:E; [|done].
    destruct (cs_allowed s') eqn:Ha; [|done]. injection H as <- <-. done.
  - intros (Hc & Hs & Ha). exists c. rewrite Hs, Ha. done.
Qed.

(** What the selection gives, for any report on the channels. *)
Lemma select_spec channels states sel :
  match (selectRelayChannel ice channels states sel).1 with
  | Some (c, e) =>
      exists s, c ∈ channels /\ state_of states c = Some s /\ cs_allowed s = true /\ e ∈ endpoints c
        /\ List.find (serves ice s c) (orderedEndpoints (active_of sel c) c) = Some e
        /\ forall x, x ∈ available channels states -> can_serve x -> (cs_usageMb s <= cs_usageMb x.2)%Q
  | None => forall x, x ∈ available channels states -> ~ can_serve x
  end.
Proof.
  unfold selectRelayChannel. set (avail := available channels states).
  pose proof (orderedChannels_perm (channelCursor sel) avail) as Hperm.
  assert (Hs : StronglySorted less_used (orderedChannels (channelCursor sel) avail))
    by apply orderedChannels_sorted, sort_asc_sorted.
  destruct (pick _ _ _) as [[c e]|] eqn:E; simpl.
  - apply pick_some in E as (l1 & s & l2 & Heq & H1 & He & Hf).
    assert (Hin : (c, s) ∈ avail) by (rewrite <- Hperm, Heq; set_solver).
    apply available_elem in Hin as (Hc & Hst & Ha). exists s. do 5 (split; [done|]).
    intros x Hx Hcan. rewrite <- Hperm, Heq in Hx. rewrite elem_of_app, elem_of_cons in Hx.
    destruct Hx as [Hx|[->|Hx]]; [by destruct (H1 x Hx)|apply Qle_refl|].
    rewrite Heq in Hs. clear -Hs Hx. induction l1 as [|y l1 IH]; simpl in Hs;
      apply StronglySorted_inv in Hs as [Hs Hf]; [|by apply IH].
    rewrite Forall_forall in Hf. by apply (Hf x).
  - intros x Hx. eapply pick_none; [exact E|]. by rewrite Hperm.
Qed.
End Picks.

(** ** The channels of a configuration *)

Import Relay.

Definition wf_endpoint (k : ChannelKind) (e : TurnEndpoint) : Prop :=
  ep_id e <> ""%string /\ (0 < monthlyLimitMb e)%Q /\
  match k with
  | Cloudflare => exists key token, keyId e = Some key /\ apiToken e = Some token /\ key <> ""%string
                                    /\ token <> ""%string /\ staticIceServers e = None
  | Static => exists l, staticIceServers e = Some l /\ l <> []
  end.

Definition wf_channel (c : TurnChannel) : Prop :=
  ch_id c <> ""%string /\ endpoints c <> [] /\ NoDup (map ep_id (endpoints c))
  /\ Forall (wf_endpoint (ch_kind c)) (endpoints c).

Definition wf_channels (l : list TurnChannel) : Prop := NoDup (map ch_id l) /\ Forall wf_channel l.

Section Parsing.
Context `{R : RelayEnv}.

Lemma is_blank_false s : is_blank s = false <-> s <> ""%string.
Proof. unfold is_blank. apply bool_decide_eq_false. Qed.

Lemma limit_of_pos j d : (0 < limit_of j d)%Q.
Proof.
  assert (H : (0 < DEFAULT_CHANNEL_LIMIT_MB)%Q) by done.
  unfold limit_of. destruct (match j with None => _ | _ => _ end); [|done|done].
  destruct (Qlt_bool _ _) eqn:E; [by apply Qlt_bool_iff|done].
Qed.

Lemma dashed_id channelId n : (channelId ++ "-" ++ pretty (S n))%string <> ""%string.
Proof. by destruct channelId. Qed.

Lemma parse_keys_wf channelId limit l : forall index seen eps,
  parse_keys channelId limit index seen l = Some eps ->
  length eps = length l /\ NoDup (map ep_id eps) /\ (forall i, i ∈ seen -> i ∉ map ep_id eps)
  /\ Forall (wf_endpoint Cloudflare) eps.
Proof.
  induction l as [|j l IH]; intros index seen eps; simpl.
  - intros [= <-]. repeat split; [constructor|set_solver|constructor].
  - destruct j; try done. destruct (is_blank _ || is_blank _) eqn:E; [done|].
    apply orb_false_iff in E as [Hk Ht]. rewrite is_blank_false in Hk, Ht.
    set (id := if is_blank (text_field "id" fields) then _ else _).
    assert (Hid : id <> ""%string).
    { unfold id. destruct (is_blank (text_field "id" fields)) eqn:Hb; [apply dashed_id|by apply is_blank_false]. }
    case_bool_decide as Hs; [done|]. intros H. apply bind_Some in H as (others & H & [= <-]).
    apply IH in H as (Hlen & Hnd & Hseen & Hwf). simpl. split; [by f_equal|]. split; [|split].
    + constructor; [|done]. apply Hseen. by left.
    + intros i Hi [->|Hx]%elem_of_cons; [done|]. eapply Hseen; [|exact Hx]. by right.
    + constructor; [|done]. split; [done|]. split; [apply limit_of_pos|]. simpl. eauto 10.
Qed.

Lemma single_key_wf (e : TurnEndpoint) k :
  wf_endpoint k e -> [e] <> [] /\ NoDup (map ep_id [e]) /\ Forall (wf_endpoint k) [e].
Proof. intros H. split; [done|]. split; [apply NoDup_singleton|by constructor]. Qed.

Lemma parseEndpoints_wf channelId value limit eps :
  (0 < limit)%Q -> parseEndpoints channelId value limit = Some eps ->
  eps <> [] /\ NoDup (map ep_id eps) /\ Forall (wf_endpoint Cloudflare) eps.
Proof.
  intros Hpos. unfold parseEndpoints.
  assert (Hsingle : (if is_blank (text_field "keyId" value) || is_blank (text_field "apiToken" value) then None
     else Some [MkEndpoint "default" limit (Some (text_field "keyId" value)) (Some (text_field "apiToken" value)) None])
     = Some eps -> eps <> [] /\ NoDup (map ep_id eps) /\ Forall (wf_endpoint Cloudflare) eps).
  { destruct (is_blank _ || is_blank _) eqn:E; [done|]. apply orb_false_iff in E as [Hk Ht].
    rewrite is_blank_false in Hk, Ht. intros [= <-]. apply single_key_wf.
    split; [done|]. split; [done|]. simpl. eauto 10. }
  destruct (map_get "keys"%string value) as [[| | | |l|]|]; try exact Hsingle.
  destruct l as [|j l]; [done|]. intros H. apply parse_keys_wf in H as (Hlen & Hnd & _ & Hwf).
  split; [|done]. by intros ->.
Qed.

Lemma parse_channel_wf conf id value c :
  id <> ""%string -> parse_channel conf id value = Some c -> ch_id c = id /\ wf_channel c.
Proof.
  intros Hid. unfold parse_channel. set (limit := limit_of _ _).
  assert (Hpos : (0 < limit)%Q) by apply limit_of_pos.
  assert (Hcf : (eps ← parseEndpoints id value limit; Some (MkChannel id Cloudflare eps)) = Some c ->
                ch_id c = id /\ wf_channel c).
  { intros H. apply bind_Some in H as (eps & H & [= <-]). split; [done|].
    apply parseEndpoints_wf in H as (H1 & H2 & H3); done. }
  destruct (map_get "kind"%string value) as [[| | |s| |]|]; try exact Hcf.
  destruct (decide (s = "static"%string)) as [->|Hs].
  - case_bool_decide as Hl; [done|]. intros [= <-]. split; [done|]. split; [done|].
    apply single_key_wf. split; [done|]. split; [done|]. simpl. eauto.
  - intros H. apply Hcf. rewrite <- H. clear -Hs.
    repeat (destruct s as [|[[] [] [] [] [] [] [] []] s]; try reflexivity). by destruct Hs.
Qed.

Lemma parse_channels_wf conf l : forall seen cs,
  parse_channels conf seen l = Some cs -> wf_channels cs /\ (forall i, i ∈ seen -> i ∉ map ch_id cs).
Proof.
  induction l as [|j l IH]; intros seen cs; simpl.
  - intros [= <-]. split; [split; constructor|set_solver].
  - destruct j; try done. set (id := text_field "id" fields). destruct (is_blank id || _) eqn:E; [done|].
    apply orb_false_iff in E as [Hb Hs]. rewrite is_blank_false in Hb. apply bool_decide_eq_false in Hs.
    intros H. apply bind_Some in H as (c & Hc & H). apply bind_Some in H as (others & H & [= <-]).
    apply parse_channel_wf in Hc as [Hid Hwf]; [|done].
    apply IH in H as [[Hnd Hall] Hseen]. split; [split|]; simpl.
    + constructor; [|done]. rewrite Hid. apply Hseen. by left.
    + by constructor.
    + intros i Hi [->|Hx]%elem_of_cons; [congruence|]. eapply Hseen; [|exact Hx]. by right.
Qed.

Lemma fallback_channels_wf conf : wf_channels (fallback_channels conf).
Proof.
  unfold fallback_channels. set (k := trim (cloudflare_key_id conf)). set (t := trim (cloudflare_api_token conf)).
  set (st := getStaticRelayIceServers conf).
  assert (Hcf : k <> ""%string -> t <> ""%string -> wf_channel (MkChannel "cloudflare" Cloudflare
             [MkEndpoint "default" DEFAULT_CHANNEL_LIMIT_MB (Some k) (Some t) None])).
  { intros. split; [done|]. apply single_key_wf. split; [done|]. split; [done|]. simpl. eauto 10. }
  assert (Hst : st <> [] -> wf_channel (MkChannel "static" Static
             [MkEndpoint "static" DEFAULT_CHANNEL_LIMIT_MB None None (Some st)])).
  { intros. split; [done|]. apply single_key_wf. split; [done|]. split; [done|]. simpl. eauto. }
  assert (Hk : is_blank k || is_blank t = false -> k <> ""%string /\ t <> ""%string).
  { intros [H1 H2]%orb_false_iff. by rewrite is_blank_false in H1, H2. }
  destruct (is_blank k || is_blank t); [|destruct (Hk eq_refl) as [Hk1 Hk2]]; case_bool_decide as Hs;
    (split; [by apply (bool_decide_unpack _)|cbn [app]; auto]).
Qed.

Lemma parseTurnChannels_wf conf : wf_channels (parseTurnChannels conf).
Proof.
  unfold parseTurnChannels. destruct (is_blank _); [apply fallback_channels_wf|].
  assert (Hnil : wf_channels []) by (split; constructor).
  destruct (JSON_parse _) as [[| | | |[|j l]|]|]; try exact Hnil.
  destruct (parse_channels _ _ _) as [cs|] eqn:E; [|exact Hnil]. by apply parse_channels_wf in E as [E _].
Qed.

Lemma parse_channels_length conf l : forall seen cs, parse_channels conf seen l = Some cs -> length cs = length l.
Proof.
  induction l as [|j l IH]; intros seen cs; simpl; [by intros [= <-]|].
  destruct j; try done. destruct (_ || _); [done|]. intros H.
  apply bind_Some in H as (c & _ & H). apply bind_Some in H as (others & H & [= <-]). simpl. f_equal. by eapply IH.
Qed.

(** whatever the operator writes into the settings, the channel list the server works with is
    well formed: channel ids are non-empty and distinct, every channel has an endpoint, endpoint
    ids are non-empty and distinct within their channel, every limit is positive, a Cloudflare
    account has its key and its token and a static channel its servers.  A malformed list gives
    no channel at all, instead of a part of it. *)
Theorem channels_well_formed (conf : Conf) :
  wf_channels (parseTurnChannels conf)
  /\ forall trimmed l, trimmed = trim (turn_channels conf) -> trimmed <> ""%string ->
     JSON_parse trimmed = Some (Arr l) ->
     parseTurnChannels conf = [] \/ length (parseTurnChannels conf) = length l.
Proof.
  split; [apply parseTurnChannels_wf|]. intros trimmed l -> Hb Hp. apply is_blank_false in Hb.
  unfold parseTurnChannels. rewrite Hb, Hp. destruct l as [|j l]; [by left|].
  destruct (parse_channels conf [] (j :: l)) as [cs|] eqn:E; [right|by left].
  by apply parse_channels_length in E.
Qed.
End Parsing.

(** ** The account picked *)

Lemma find_unique {A} (f : A -> string) (l : list A) x :
  NoDup (map f l) -> x ∈ l -> List.find (fun y => bool_decide (f y = f x)) l = Some x.
Proof.
  induction l as [|y l IH]; [set_solver|]. simpl. intros Hnd [->|Hx]%elem_of_cons.
  - by rewrite bool_decide_eq_true_2.
  - apply NoDup_cons in Hnd as [Hy Hnd]. rewrite bool_decide_eq_false_2; [by apply IH|].
    intros Heq. apply Hy. rewrite Heq. by apply (list_elem_of_fmap_2 f).
Qed.

Lemma rev_is_reverse {A} (l : list A) : rev l = reverse l.
Proof. apply rev_alt. Qed.

Lemma find_ext_map {A B} (f : A -> B) (p : B -> bool) (q : A -> bool) l :
  (forall x, p (f x) = q x) -> List.find p (map f l) = option_map f (List.find q l).
Proof. intros H. induction l as [|x l IH]; [done|]. simpl. rewrite H. by destruct (q x). Qed.

Section Choice.
Context (est : string -> string -> option Z) (act : string -> string -> option (option Z))
        (ice : string -> string -> list IceServer).

(** The bytes an account is held to have used: the measured ones, else the estimate; unknown when
    either counter cannot be read. *)
Definition used (c : TurnChannel) (e : TurnEndpoint) : option Q :=
  match est (ch_id c) (ep_id e), act (ch_id c) (ep_id e) with
  | Some n, Some a => Some (inject_Z (default n a))
  | _, _ => None
  end.

(** The account has quota left and yields servers. *)
Definition can_carry (c : TurnChannel) (e : TurnEndpoint) : bool :=
  match used c e with
  | Some u => Qlt_bool u (monthlyLimitMb e * BYTES_PER_MB)
              && negb (bool_decide (length (ice (ch_id c) (ep_id e)) = 0)%nat)
  | None => false
  end.

Lemma can_carry_state c e :
  can_carry c e = es_allowed (endpoint_state est act (ch_id c) e)
                  && negb (bool_decide (length (ice (ch_id c) (ep_id e)) = 0)%nat).
Proof.
  unfold can_carry, used, endpoint_state. simpl.
  destruct (est _ _) as [n|]; [|done]. destruct (act _ _) as [[a|]|]; done.
Qed.

Lemma serves_carries c e :
  NoDup (map ep_id (endpoints c)) -> e ∈ endpoints c ->
  serves ice (channel_state est act c) c e = can_carry c e.
Proof.
  intros Hnd He. rewrite can_carry_state. unfold serves, endpoint_allowed. simpl. rewrite <- map_rev.
  erewrite find_ext_map by (intros x; reflexivity). simpl.
  rewrite (find_unique ep_id (rev (endpoints c)) e); [done| |].
  - rewrite map_rev, rev_is_reverse. by rewrite reverse_Permutation.
  - rewrite rev_is_reverse. by rewrite reverse_Permutation.
Qed.

Lemma state_of_channel channels c :
  NoDup (map ch_id channels) -> c ∈ channels ->
  state_of (getChannelStates est act channels) c = Some (channel_state est act c).
Proof.
  intros Hnd Hc. unfold state_of, getChannelStates. erewrite find_ext_map by (intros x; reflexivity).
  simpl. by rewrite find_unique.
Qed.

Lemma carrier_allowed c e : e ∈ endpoints c -> can_carry c e = true -> cs_allowed (channel_state est act c) = true.
Proof.
  intros He Hcan. rewrite can_carry_state in Hcan. apply andb_true_iff in Hcan as [Ha _]. simpl.
  apply existsb_exists. exists (endpoint_state est act (ch_id c) e). split; [|done].
  by apply in_map, list_elem_of_In.
Qed.

Lemma can_serve_iff c :
  wf_channel c -> can_serve ice (c, channel_state est act c) <-> exists e, e ∈ endpoints c /\ can_carry c e = true.
Proof.
  intros (_ & _ & Hnd & _). unfold can_serve. simpl.
  split; intros (e & He & H); exists e; (split; [done|]); by rewrite serves_carries in *.
Qed.

(** The candidates, when channels are well formed. *)
Lemma carrier_available channels c e :
  wf_channels channels -> c ∈ channels -> e ∈ endpoints c -> can_carry c e = true ->
  (c, channel_state est act c) ∈ available channels (getChannelStates est act channels)
  /\ can_serve ice (c, channel_state est act c).
Proof.
  intros [Hnd Hall] Hc He Hcan. split.
  - apply available_elem. rewrite state_of_channel by done. by rewrite (carrier_allowed c e).
  - apply can_serve_iff; [|by exists e]. rewrite Forall_forall in Hall. by apply Hall.
Qed.

Lemma find_first_ext {A} (p q : A -> bool) l : (forall x, x ∈ l -> p x = q x) -> List.find p l = List.find q l.
Proof.
  induction l as [|x l IH]; intros H; [done|]. simpl. rewrite (H x) by left. rewrite IH; [done|].
  intros y Hy. apply H. by right.
Qed.

(** What the selection gives for well formed channels. *)
Lemma choice_spec channels sel :
  wf_channels channels ->
  match (selectRelayChannel ice channels (getChannelStates est act channels) sel).1 with
  | Some (c, e) =>
      c ∈ channels /\ e ∈ endpoints c
      /\ List.find (can_carry c) (orderedEndpoints (active_of sel c) c) = Some e
      /\ forall c' e', c' ∈ channels -> e' ∈ endpoints c' -> can_carry c' e' = true ->
         (cs_usageMb (channel_state est act c) <= cs_usageMb (channel_state est act c'))%Q
  | None => forall c e, c ∈ channels -> e ∈ endpoints c -> can_carry c e = false
  end.
Proof.
  intros Hwf. pose proof Hwf as [Hnd Hall].
  pose proof (select_spec ice channels (getChannelStates est act channels) sel) as H.
  destruct (selectRelayChannel _ _ _ _).1 as [[c e]|].
  - destruct H as (s & Hc & Hs & _ & He & Hf & Hmin). rewrite state_of_channel in Hs by done. injection Hs as <-.
    do 2 (split; [done|]). split.
    + rewrite <- Hf. apply find_first_ext. intros x Hx. rewrite orderedEndpoints_perm in Hx.
      symmetry. apply serves_carries; [|done]. rewrite Forall_forall in Hall. by destruct (Hall c Hc) as (_ & _ & ? & _).
    + intros c' e' Hc' He' Hcan. by destruct (carrier_available channels c' e') as [H1 H2]; [..|apply (Hmin _ H1 H2)].
  - intros c e Hc He. apply not_true_iff_false. intros Hcan.
    destruct (carrier_available channels c e) as [H1 H2]; [done..|]. by destruct (H _ H1).
Qed.
End Choice.

Section Chosen.
Context `{R : RelayEnv}.

(** the relay picked for a room is one of the configured accounts, it has quota left (its
    measured bytes, else the estimated ones, are below its own limit) and it yields servers; no
    channel that could carry the call has been used less.  No relay is picked only when no
    account of any channel could carry the call. *)
Theorem relay_choice (conf : Conf) est act ice (sel : Selector) :
  let channels := parseTurnChannels conf in
  match (selectRelayChannel ice channels (getChannelStates est act channels) sel).1 with
  | Some (c, e) =>
      c ∈ channels /\ e ∈ endpoints c /\ can_carry est act ice c e = true
      /\ forall c' e', c' ∈ channels -> e' ∈ endpoints c' -> can_carry est act ice c' e' = true ->
         (cs_usageMb (channel_state est act c) <= cs_usageMb (channel_state est act c'))%Q
  | None => forall c e, c ∈ channels -> e ∈ endpoints c -> can_carry est act ice c e = false
  end.
Proof.
  intros channels. pose proof (choice_spec est act ice channels sel (parseTurnChannels_wf conf)) as H.
  destruct (selectRelayChannel _ _ _ _).1 as [[c e]|]; [|done].
  destruct H as (Hc & He & Hf & Hmin). apply List.find_some in Hf as [_ Hf]. done.
Qed.
End Chosen.

(** ** Staying with an account *)

(** What the counters and Cloudflare say at one selection. *)
Record report := MkReport {
  r_est : string -> string -> option Z;
  r_act : string -> string -> option (option Z);
  r_ice : string -> string -> list IceServer;
}.

Definition select (channels : list TurnChannel) (r : report) (sel : Selector) :=
  selectRelayChannel (r_ice r) channels (getChannelStates (r_est r) (r_act r) channels) sel.

(** The picks of a sequence of selections, and the selector they leave. *)
Fixpoint selections (channels : list TurnChannel) (rs : list report) (sel : Selector)
    : list (option (TurnChannel * TurnEndpoint)) * Selector :=
  match rs with
  | [] => ([], sel)
  | r :: rs' =>
      let '(p, sel1) := select channels r sel in
      let '(ps, sel2) := selections channels rs' sel1 in
      (p :: ps, sel2)
  end.

Definition carries (r : report) : TurnChannel -> TurnEndpoint -> bool := can_carry (r_est r) (r_act r) (r_ice r).

Lemma select_active channels r sel p sel' id :
  select channels r sel = (p, sel') ->
  map_get id (activeEndpoints sel') =
    match p with
    | Some (c, e) => if decide (id = ch_id c) then Some (ep_id e) else map_get id (activeEndpoints sel)
    | None => map_get id (activeEndpoints sel)
    end.
Proof.
  unfold select, selectRelayChannel. destruct (pick _ _ _) as [[c e]|]; intros [= <- <-]; [|done].
  simpl. apply map_get_set.
Qed.

Lemma selections_active channels rs : forall sel ps sel' id,
  selections channels rs sel = (ps, sel') -> (forall c e, Some (c, e) ∈ ps -> ch_id c <> id) ->
  map_get id (activeEndpoints sel') = map_get id (activeEndpoints sel).
Proof.
  induction rs as [|r rs IH]; intros sel ps sel' id; simpl; [by intros [= <- <-]|].
  destruct (select _ _ _) as [p sel1] eqn:E. destruct (selections _ _ _) as [ps' sel2] eqn:E'.
  intros [= <- <-] Hps. rewrite (IH _ _ _ id E') by (intros c e H; apply (Hps c e); by right).
  rewrite (select_active _ _ _ _ _ id E). destruct p as [[c e]|]; [|done].
  rewrite decide_False; [done|]. intros ->. by apply (Hps c e); [left|].
Qed.

Lemma find_filter_first (p : TurnEndpoint -> bool) (a : string) l e :
  NoDup (map ep_id l) -> e ∈ l -> ep_id e = a ->
  List.find p (List.filter (fun x => bool_decide (ep_id x = a)) l
               ++ List.filter (fun x => negb (bool_decide (ep_id x = a))) l)
  = if p e then Some e else List.find p l.
Proof.
  intros Hnd He <-. 
  assert (H : List.filter (fun x => bool_decide (ep_id x = ep_id e)) l = [e]).
  { induction l as [|x l IH]; [set_solver|]. simpl in *. apply NoDup_cons in Hnd as [Hx Hnd].
    apply elem_of_cons in He as [<-|He].
    - rewrite bool_decide_eq_true_2 by done. f_equal. clear -Hx.
      induction l as [|y l IH]; [done|]. simpl in *. rewrite bool_decide_eq_false_2 by set_solver. set_solver.
    - rewrite bool_decide_eq_false_2; [auto|]. intros Heq. apply Hx. rewrite Heq. by apply (list_elem_of_fmap_2 ep_id). }
  rewrite H. simpl. destruct (p e) eqn:Hp; [done|]. clear H.
  induction l as [|x l IH]; [done|]. simpl. apply NoDup_cons in Hnd as [Hx Hnd].
  apply elem_of_cons in He as [<-|He].
  - rewrite bool_decide_eq_true_2, Hp by done. simpl.
    assert (H : List.filter (fun y => negb (bool_decide (ep_id y = ep_id e))) l = l); [|by rewrite H].
    clear -Hx. induction l as [|y l IH]; [done|]. simpl in *.
    rewrite bool_decide_eq_false_2 by set_solver. simpl. f_equal. set_solver.
  - rewrite bool_decide_eq_false_2; [simpl; destruct (p x); auto|].
    intros Heq. apply Hx. rewrite Heq. by apply (list_elem_of_fmap_2 ep_id).
Qed.

Section Sticky.
Context `{R : RelayEnv}.

(** once a room got an account of a channel, the next room that gets this channel stays with
    the account as long as it can carry the call, however many rooms got other channels in
    between; when it no longer can, the first account in configured order that can takes over. *)
Theorem relay_is_sticky (conf : Conf) (sel sel1 sel2 : Selector) (r0 r : report) (rs : list report)
    (c c' : TurnChannel) (e e' : TurnEndpoint) (ps : list (option (TurnChannel * TurnEndpoint))) :
  let channels := parseTurnChannels conf in
  select channels r0 sel = (Some (c, e), sel1) ->
  selections channels rs sel1 = (ps, sel2) ->
  (forall d f, Some (d, f) ∈ ps -> ch_id d <> ch_id c) ->
  (select channels r sel2).1 = Some (c', e') -> ch_id c' = ch_id c ->
  c' = c /\ (if carries r c e then e' = e else List.find (carries r c) (endpoints c) = Some e').
Proof.
  intros channels H0 Hrs Hps Hr Hid. pose proof (parseTurnChannels_wf conf) as Hwf. fold channels in Hwf.
  pose proof (choice_spec (r_est r0) (r_act r0) (r_ice r0) channels sel Hwf) as Hc0. fold (select channels r0 sel) in Hc0.
  rewrite H0 in Hc0. destruct Hc0 as (Hc & He & _ & _).
  pose proof (choice_spec (r_est r) (r_act r) (r_ice r) channels sel2 Hwf) as Hc1. fold (select channels r sel2) in Hc1.
  rewrite Hr in Hc1. destruct Hc1 as (Hc' & He' & Hf & _).
  destruct Hwf as [Hnd Hall].
  assert (c' = c) as ->.
  { pose proof (find_unique ch_id channels c Hnd Hc) as F1. pose proof (find_unique ch_id channels c' Hnd Hc') as F2.
    rewrite Hid in F2. congruence. }
  split; [done|]. rewrite Forall_forall in Hall. destruct (Hall c Hc) as (_ & _ & Hnde & Hwe).
  rewrite Forall_forall in Hwe. destruct (Hwe e He) as [Hne _].
  assert (Ha : active_of sel2 c = Some (ep_id e)).
  { unfold active_of. rewrite (selections_active _ _ _ _ _ _ Hrs Hps), (select_active _ _ _ _ _ _ H0).
    by rewrite decide_True, bool_decide_eq_false_2. }
  rewrite Ha in Hf. unfold orderedEndpoints in Hf. rewrite (find_filter_first _ _ _ e) in Hf by done.
  unfold carries. destruct (can_carry _ _ _ c e); [congruence|done].
Qed.
End Sticky.

(** ** Charges *)

(** Every participant's voice goes to every other one: a stream for each ordered pair. *)
Definition streams (n : nat) : nat :=
  length (List.filter (fun p => negb (fst p =? snd p)%nat) (list_prod (seq 0 n) (seq 0 n))).

(** The room talks over the account: two participants or more, and the account's two ids. *)
Definition talks_over (k : string * string) (r : VoiceRoomUsage) : bool :=
  (2 <=? participants r) && bool_decide (u_channelId r = Some k.1) && bool_decide (u_endpointId r = Some k.2).

(** The streams of all rooms of an account, and the bytes they come to: so many kilobits a
    second, a thousand bits to the kilobit and eight to the byte. *)
Definition streams_of (k : string * string) (rooms : list VoiceRoomUsage) : Z :=
  foldr Z.add 0 (map (fun r => Z.of_nat (streams (Z.to_nat (participants r)))) (List.filter (talks_over k) rooms)).
Definition due (kbps seconds : Q) (rooms : list VoiceRoomUsage) (k : string * string) : Z :=
  let bytes := (inject_Z (streams_of k rooms) * (kbps * 1000 / 8) * seconds)%Q in
  if Qle_bool bytes 0 then 0 else round bytes.

Lemma streams_row i l : NoDup l -> i ∈ l ->
  S (length (List.filter (fun p => negb (fst p =? snd p)%nat) (map (fun j => (i, j)) l))) = length l.
Proof.
  induction 1 as [|j l Hj Hl IH]; [by intros ?%not_elem_of_nil|]. intros Hi. simpl.
  destruct (i =? j)%nat eqn:E; cbn [negb length].
  - apply Nat.eqb_eq in E as ->. f_equal. clear -Hj. induction l as [|x l IH]; [done|]. simpl.
    apply not_elem_of_cons in Hj as [Hne Hj]. destruct (j =? x)%nat eqn:E; [apply Nat.eqb_eq in E; done|].
    simpl. f_equal. by apply IH.
  - apply elem_of_cons in Hi as [->|Hi]; [by rewrite Nat.eqb_refl in E|]. by rewrite IH.
Qed.

Lemma streams_rows l : NoDup l -> forall l', (forall i, i ∈ l' -> i ∈ l) ->
  length (List.filter (fun p => negb (fst p =? snd p)%nat) (list_prod l' l)) = (length l' * (length l - 1))%nat.
Proof.
  intros Hl l' Hin. induction l' as [|i l' IH]; [done|]. simpl. rewrite List.filter_app, length_app, IH by set_solver.
  pose proof (streams_row i l Hl ltac:(set_solver)). lia.
Qed.

Lemma streams_eq n : streams n = (n * (n - 1))%nat.
Proof. unfold streams. rewrite streams_rows; [by rewrite length_seq|apply NoDup_seq|done]. Qed.

Lemma talks_over_charged k r : talks_over k r = bool_decide (charged_to r = Some k).
Proof.
  unfold talks_over, charged_to. destruct k as [c e].
  destruct (participants r <? 2) eqn:E.
  - replace (2 <=? participants r) with false by lia. symmetry. by apply bool_decide_eq_false_2.
  - replace (2 <=? participants r) with true by lia. simpl.
    destruct (u_channelId r) as [c'|], (u_endpointId r) as [e'|]; simpl; repeat case_bool_decide; naive_solver.
Qed.

Lemma room_bytes_streams kbps seconds k r : talks_over k r = true ->
  (room_bytes kbps seconds r == inject_Z (Z.of_nat (streams (Z.to_nat (participants r)))) * (kbps * 1000 / 8) * seconds)%Q.
Proof.
  unfold talks_over. intros [[Hp _]%andb_true_iff _]%andb_true_iff. unfold room_bytes. rewrite streams_eq.
  replace (Z.of_nat (Z.to_nat (participants r) * (Z.to_nat (participants r) - 1))) with (participants r * (participants r - 1)) by lia.
  field.
Qed.

Fixpoint no_nul (s : string) : bool :=
  match s with
  | EmptyString => true
  | String c s' => negb (bool_decide (c = Ascii.zero)) && no_nul s'
  end.

Lemma nul_split (a a' b b' : string) :
  no_nul a = true -> no_nul a' = true -> (a ++ String Ascii.zero EmptyString ++ b = a' ++ String Ascii.zero EmptyString ++ b')%string -> a = a' /\ b = b'.
Proof.
  revert a'. induction a as [|c a IH]; intros [|c' a']; simpl.
  - intros _ _ [= H]. split; [done|exact H].
  - intros _ H [= Hc _]. subst c'. by rewrite bool_decide_eq_true_2 in H.
  - intros H _ [= Hc _]. subst c. by rewrite bool_decide_eq_true_2 in H.
  - intros [_ H]%andb_true_iff [_ H']%andb_true_iff [= -> Heq]. destruct (IH a' H H' Heq) as [-> ->]. done.
Qed.

Lemma perEndpointKey_inj k k' : no_nul k.1 = true -> no_nul k'.1 = true ->
  perEndpointKey k.1 k.2 = perEndpointKey k'.1 k'.2 -> k = k'.
Proof. destruct k, k'. intros H H' Heq. apply nul_split in Heq as [? ?]; [|done..]. simpl in *. by subst. Qed.

#[global] Instance round_proper : Proper (Qeq ==> eq) round.
Proof. intros x y H. unfold round. by rewrite H. Qed.

(** No channel id of a room holds a NUL, which no configuration file is expected to hold. *)
Definition plain_channels (rooms : list VoiceRoomUsage) : bool :=
  forallb (fun r => match u_channelId r with Some c => no_nul c | None => true end) rooms.

Section Charges.
Context (kbps seconds : Q).

Definition bytes_due (k : string * string) (rooms : list VoiceRoomUsage) : Q :=
  (inject_Z (streams_of k rooms) * (kbps * 1000 / 8) * seconds)%Q.
Definition account_of (x : EndpointBytes) : string * string := (eb_channelId x, eb_endpointId x).

Lemma bytes_due_snoc k rooms r :
  (bytes_due k (rooms ++ [r]) == bytes_due k rooms + if talks_over k r then room_bytes kbps seconds r else 0)%Q.
Proof.
  unfold bytes_due, streams_of. rewrite List.filter_app, map_app, foldr_app. simpl.
  assert (Hf : forall l a, foldr Z.add a l = foldr Z.add 0 l + a).
  { induction l as [|x l IH]; intros a; simpl; [lia|]. rewrite IH. lia. }
  destruct (talks_over k r) eqn:E; simpl; [|ring]. rewrite Hf, inject_Z_plus, (room_bytes_streams _ _ k r E).
  rewrite Z.add_0_r. ring.
Qed.

(** What has been gathered after some rooms: an entry for each account they talk over. *)
Record gathered (rooms : list VoiceRoomUsage) (m : list (string * EndpointBytes)) : Prop := {
  ga_keys : NoDup m.*1;
  ga_entry : forall key x, map_get key m = Some x ->
    key = perEndpointKey (eb_channelId x) (eb_endpointId x) /\ no_nul (eb_channelId x) = true
    /\ (exists r, r ∈ rooms /\ talks_over (account_of x) r = true)
    /\ (eb_bytes x == bytes_due (account_of x) rooms)%Q;
  ga_all : forall k r, r ∈ rooms -> talks_over k r = true -> exists x, map_get (perEndpointKey k.1 k.2) m = Some x /\ account_of x = k;
}.

Lemma map_get_entry {V} k (v : V) (m : list (string * V)) : NoDup m.*1 -> (k, v) ∈ m -> map_get k m = Some v.
Proof.
  induction m as [|[k' v'] m IH]; [by intros _ ?%not_elem_of_nil|]. simpl. intros [Hk Hm]%NoDup_cons [[= <- <-]|Hin]%elem_of_cons.
  - by rewrite decide_True.
  - rewrite decide_False; [by apply IH|]. intros Heq. apply Hk. apply list_elem_of_fmap. exists (k, v). by split.
Qed.

Lemma map_set_nodup {V} k (v : V) (m : list (string * V)) : NoDup m.*1 -> NoDup (map_set k v m).*1.
Proof.
  induction m as [|[k' v'] m IH]; intros Hm; [apply NoDup_singleton|]. simpl in *. apply NoDup_cons in Hm as [Hk Hm].
  case_decide as Hd; simpl; [by apply NoDup_cons|]. apply NoDup_cons. split; [|by apply IH].
  clear -Hk Hd. induction m as [|[k2 v2] m IHm]; simpl; [set_solver|]. case_decide; simpl; set_solver.
Qed.

(** One more room of the account [k], whose entry is [x] then. *)
Lemma gathered_room rooms m r k x : plain_channels (rooms ++ [r]) = true -> gathered rooms m ->
  charged_to r = Some k -> account_of x = k -> (eb_bytes x == bytes_due k rooms + room_bytes kbps seconds r)%Q ->
  gathered (rooms ++ [r]) (map_set (perEndpointKey k.1 k.2) x m).
Proof.
  intros Hp [Hk He Ha] Hch Hx Hb.
  assert (Ht : talks_over k r = true) by (rewrite talks_over_charged; by apply bool_decide_eq_true_2).
  assert (Hn : forall k' r', r' ∈ rooms ++ [r] -> talks_over k' r' = true -> no_nul k'.1 = true).
  { intros k' r' Hr' Ht'. unfold plain_channels in Hp. rewrite forallb_forall in Hp.
    specialize (Hp r' (proj1 (list_elem_of_In _ _) Hr')). unfold talks_over in Ht'.
    rewrite !andb_true_iff, !bool_decide_eq_true in Ht'. destruct Ht' as [[_ Hc] _]. by rewrite Hc in Hp. }
  assert (Hr : r ∈ rooms ++ [r]) by set_solver. pose proof (Hn k r Hr Ht) as Hnk.
  split; [by apply map_set_nodup|..].
  - intros key y. rewrite map_get_set. case_decide as Hd.
    + intros [= <-]. subst k. cbn [account_of fst snd] in *. split; [done|]. split; [done|]. split; [by exists r|].
      rewrite Hb, bytes_due_snoc. fold (account_of x). by rewrite Ht.
    + intros Hy. destruct (He key y Hy) as (Hkey & Hny & (r' & Hr' & Ht') & Hby). split; [done|]. split; [done|].
      split; [exists r'; split; [set_solver|done]|]. rewrite bytes_due_snoc, Hby.
      destruct (talks_over (account_of y) r) eqn:E; [|ring]. rewrite talks_over_charged in E.
      apply bool_decide_eq_true in E. rewrite Hch in E. injection E as ->. by subst key.
  - intros k' r' Hr' Ht'. rewrite map_get_set. case_decide as Hd; [exists x; split; [done|]|].
    + by apply perEndpointKey_inj in Hd as ->; [|apply (Hn k' r')|].
    + apply elem_of_app in Hr' as [Hr'| ->%list_elem_of_singleton]; [by apply (Ha k' r')|].
      rewrite talks_over_charged in Ht'. apply bool_decide_eq_true in Ht'. congruence.
Qed.

Lemma gathered_none rooms m r : charged_to r = None -> gathered rooms m -> gathered (rooms ++ [r]) m.
Proof.
  intros Hch [Hk He Ha].
  assert (Ht : forall k, talks_over k r = false) by (intros k; rewrite talks_over_charged, Hch; by apply bool_decide_eq_false_2).
  split; [done|..].
  - intros key x Hx. destruct (He key x Hx) as (? & ? & (r' & Hr' & ?) & Hb). split; [done|]. split; [done|].
    split; [exists r'; split; [set_solver|done]|]. rewrite bytes_due_snoc, Ht, Hb. ring.
  - intros k r' [Hr'| ->%list_elem_of_singleton]%elem_of_app Hr; [by apply (Ha k r')|congruence].
Qed.

Lemma perEndpoint_gathers rooms : plain_channels rooms = true -> gathered rooms (perEndpoint kbps seconds rooms).
Proof.
  induction rooms as [|r rooms IH] using rev_ind; intros Hp.
  - split; [constructor|done|]. by intros k r ?%not_elem_of_nil.
  - assert (Hp1 : plain_channels rooms = true) by (unfold plain_channels in *; rewrite forallb_app in Hp; by apply andb_true_iff in Hp as [? _]).
    specialize (IH Hp1). unfold perEndpoint. rewrite fold_left_app. fold (perEndpoint kbps seconds rooms). cbn [fold_left].
    destruct (charged_to r) as [[c e]|] eqn:Hch; [|by apply gathered_none].
    assert (Ht : talks_over (c, e) r = true) by (rewrite talks_over_charged; by apply bool_decide_eq_true_2).
    cbv zeta. destruct (map_get (perEndpointKey c e) (perEndpoint kbps seconds rooms)) as [x|] eqn:Hx.
    + destruct (ga_entry _ _ IH _ _ Hx) as (Hkey & Hn & _ & Hb).
      assert (Hc : no_nul c = true).
      { unfold plain_channels in Hp. rewrite forallb_app in Hp. apply andb_true_iff in Hp as [_ Hp].
        unfold talks_over in Ht. rewrite !andb_true_iff, !bool_decide_eq_true in Ht. destruct Ht as [[_ Hc] _].
        simpl in Hp, Hc. rewrite Hc, andb_true_r in Hp. done. }
      assert (Heq : (c, e) = account_of x) by by apply perEndpointKey_inj.
      apply (gathered_room rooms _ r (c, e)); [done..|by rewrite Heq|]. cbn [eb_bytes]. by rewrite Hb, Heq.
    + apply (gathered_room rooms _ r (c, e)); [done..|]. cbn [eb_bytes].
      enough (H0 : (bytes_due (c, e) rooms == 0)%Q) by (rewrite H0; ring).
      unfold bytes_due, streams_of. enough (Hf : List.filter (talks_over (c, e)) rooms = []) by (rewrite Hf; simpl; ring).
      destruct (List.filter _ rooms) as [|r' l] eqn:Hf; [done|].
      assert (Hin : In r' (List.filter (talks_over (c, e)) rooms)) by (rewrite Hf; by left).
      apply List.filter_In in Hin as [Hin Ht']. apply list_elem_of_In in Hin.
      destruct (ga_all _ _ IH _ _ Hin Ht') as (x & Hx' & _). simpl in Hx'. congruence.
Qed.
End Charges.

(** What the first [n] accounts add to the counter [key], each in the month it is counted in. *)
Definition added (at_ : nat -> string * reply) (kbps seconds : Q) (rooms : list VoiceRoomUsage) (key : string)
    (i : nat) (accounts : list (string * string)) : Z :=
  foldr Z.add 0 (imap (fun j k => if decide (endpointUsageKey (at_ (i + j)%nat).1 k.1 k.2 = key)
                                  then due kbps seconds rooms k else 0) accounts).

Lemma due_bytes kbps seconds rooms k b : (b == bytes_due kbps seconds k rooms)%Q ->
  due kbps seconds rooms k = if Qle_bool b 0 then 0 else round b.
Proof. intros H. unfold due. fold (bytes_due kbps seconds k rooms). by rewrite (round_proper _ _ H), (Qleb_comp _ _ H _ _ (Qeq_refl 0%Q)). Qed.

Lemma charge_adds at_ kbps seconds rooms : forall l i store,
  Forall (fun x => (eb_bytes x == bytes_due kbps seconds (account_of x) rooms)%Q) l ->
  exists n, (n <= length l)%nat /\ ((forall j, (at_ j).2 = Stored) -> n = length l)
    /\ forall key, default 0 (charge at_ i l store !! key)
                   = default 0 (store !! key) + added at_ kbps seconds rooms key i (take n (map account_of l)).
Proof.
  induction l as [|x l IH]; intros i store Hl; [exists 0%nat; split; [done|]; split; [done|]; intros; cbn; lia|].
  apply Forall_cons in Hl as [Hx Hl]. cbn [charge].
  pose proof (due_bytes _ _ _ _ _ Hx) as Hd. unfold addEndpointEstimatedBytes.
  assert (Hstep : forall (store' : gmap string Z) n, (n <= length l)%nat ->
    (forall key, default 0 (store' !! key) = default 0 (store !! key)
       + if decide (endpointUsageKey (at_ i).1 (eb_channelId x) (eb_endpointId x) = key) then due kbps seconds rooms (account_of x) else 0) ->
    forall (after : gmap string Z) key, default 0 (after !! key) = default 0 (store' !! key) + added at_ kbps seconds rooms key (S i) (take n (map account_of l)) ->
    default 0 (after !! key) = default 0 (store !! key) + added at_ kbps seconds rooms key i (take (S n) (map account_of (x :: l)))).
  { intros store' n Hn Hs after key ->. rewrite (Hs key). unfold added. cbn [map take imap foldr account_of fst snd].
    rewrite Nat.add_0_r. rewrite (imap_ext _ (fun j k => if decide (endpointUsageKey (at_ (i + S j)%nat).1 k.1 k.2 = key)
      then due kbps seconds rooms k else 0)) by (intros; by rewrite Nat.add_succ_comm).
    unfold compose. lia. }
  destruct (Qle_bool (eb_bytes x) 0) eqn:Hb.
  - destruct (IH (S i) store Hl) as (n & Hn & Hall & Hk). exists (S n). cbn [length]. split; [lia|]. split; [intros H; by rewrite Hall|].
    intros key. apply (Hstep store n Hn); [|done]. intros key'. rewrite Hd. case_decide; lia.
  - set (store' := <[_ := _]> store).
    assert (Hs : forall key, default 0 (store' !! key) = default 0 (store !! key)
       + if decide (endpointUsageKey (at_ i).1 (eb_channelId x) (eb_endpointId x) = key) then due kbps seconds rooms (account_of x) else 0).
    { intros key. subst store'. case_decide as Hkey; [subst key; rewrite lookup_insert_eq; simpl; lia|].
      rewrite lookup_insert_ne by done. lia. }
    destruct ((at_ i).2) eqn:Hr.
    + destruct (IH (S i) store' Hl) as (n & Hn & Hall & Hk). exists (S n). cbn [length]. split; [lia|].
      split; [intros H; by rewrite Hall|]. intros key. by apply (Hstep store' n Hn).
    + exists 1%nat. cbn [length]. split; [lia|]. split; [intros H; by rewrite H in Hr|].
      intros key. apply (Hstep store' 0%nat); [lia|done|]. symmetry. apply Z.add_0_r.
    + exists 0%nat. cbn [length]. split; [lia|]. split; [intros H; by rewrite H in Hr|].
      intros key. symmetry. apply Z.add_0_r.
Qed.

Lemma sum_nonneg {A} (l : list A) : forall f : nat -> A -> Z, (forall j x, 0 <= f j x) -> 0 <= foldr Z.add 0 (imap f l).
Proof.
  induction l as [|x l IH]; intros f Hf; [done|]. cbn [imap foldr]. pose proof (Hf 0%nat x).
  pose proof (IH (compose f S) (fun j => Hf (S j))). lia.
Qed.

Lemma added_nonneg at_ kbps seconds rooms key : forall l i, 0 <= added at_ kbps seconds rooms key i l.
Proof.
  assert (Hd : forall k, 0 <= due kbps seconds rooms k).
  { intros k. unfold due. set (b := (_ * seconds)%Q). destruct (Qle_bool b 0) eqn:E; [done|].
    apply not_true_iff_false in E. rewrite Qle_bool_iff in E. unfold round.
    apply Qnot_le_lt in E. change 0%Z with (Qfloor (0 # 1)). apply Qfloor_resp_le. lra. }
  intros l i. apply sum_nonneg. intros j k. by case_decide.
Qed.

(** C32: at every tick each account that a room of two or more participants talks over is charged
    once: for each such room as many streams as there are ordered pairs of participants, at the
    configured bitrate for the length of the tick, summed over the rooms and then rounded.  The
    charge goes to the counter of the account in the month of the command; two accounts whose ids
    join to the same key (they differ by the place of a colon) share a counter and are both
    charged to it.  A room with one participant and a room without a relay charge nobody; an
    error of the store ends the tick, so that the first accounts have their exact charge and the
    others none; and no counter ever goes down. *)
Theorem usage_is_charged (at_ : nat -> string * reply) (kbps seconds : Q) (rooms : list VoiceRoomUsage) (store : gmap string Z) :
  plain_channels rooms = true ->
  let after := recordUsage at_ kbps seconds rooms store in
  exists accounts n,
    NoDup accounts
    /\ (forall k, k ∈ accounts <-> exists r, r ∈ rooms /\ 2 <= participants r /\ u_channelId r = Some k.1 /\ u_endpointId r = Some k.2)
    /\ (n <= length accounts)%nat /\ ((forall i, (at_ i).2 = Stored) -> n = length accounts)
    /\ (forall key, default 0 (after !! key) = default 0 (store !! key) + added at_ kbps seconds rooms key 0 (take n accounts))
    /\ forall key, default 0 (store !! key) <= default 0 (after !! key).
Proof.
  intros Hp. cbv zeta. destruct (perEndpoint_gathers kbps seconds rooms Hp) as [Hk He Ha].
  unfold recordUsage. set (m := perEndpoint kbps seconds rooms) in *.
  assert (Hget : forall key x, (key, x) ∈ m -> map_get key m = Some x) by (intros key x; by apply map_get_entry).
  destruct (charge_adds at_ kbps seconds rooms (map snd m) 0 store) as (n & Hn & Hall & Hadd).
  { apply Forall_forall. intros x ([key x'] & -> & Hx)%list_elem_of_fmap. simpl. apply Hget in Hx. by destruct (He _ _ Hx) as (_ & _ & _ & ?). }
  exists (map account_of (map snd m)), n. split; [|split; [|split; [by rewrite length_map|split; [by rewrite length_map|split; [done|]]]]].
  - assert (Heq : map (fun k => perEndpointKey k.1 k.2) (map account_of (map snd m)) = m.*1).
    { rewrite !map_map. apply map_ext_in. intros [key x] Hin%list_elem_of_In%Hget. by destruct (He _ _ Hin). }
    rewrite <- Heq in Hk. exact (NoDup_fmap_1 (fun k => perEndpointKey k.1 k.2) _ Hk).
  - intros k. split.
    + intros (x & -> & ([key x'] & -> & Hx)%list_elem_of_fmap)%list_elem_of_fmap. simpl. apply Hget, He in Hx.
      destruct Hx as (_ & _ & (r & Hr & Ht) & _). exists r. unfold talks_over in Ht.
      rewrite !andb_true_iff, !bool_decide_eq_true in Ht. destruct Ht as [[? ?] ?]. split; [done|]. split; [lia|done].
    + intros (r & Hr & H2 & Hc & Hep). destruct (Ha k r Hr) as (x & Hx & <-).
      { unfold talks_over. rewrite !andb_true_iff, !bool_decide_eq_true. split; [|done]. split; [lia|done]. }
      apply list_elem_of_fmap. exists x. split; [done|]. apply list_elem_of_fmap. eexists (_, x). split; [done|].
      by apply map_get_In in Hx.
  - intros key. rewrite Hadd. pose proof (added_nonneg at_ kbps seconds rooms key (take n (map account_of (map snd m))) 0). lia.
Qed.

(** ** A configuration *)

Definition sample_list : json :=
  Arr [Obj [("id", Str " cf "); ("keys", Arr [
              Obj [("id", Str "a"); ("keyId", Str "k1"); ("apiToken", Str "t1"); ("monthlyLimitMb", Num (Fin 2))];
              Obj [("keyId", Str "k2"); ("apiToken", Str "t2")]])];
       Obj [("id", Str "spare"); ("keyId", Str "k3"); ("apiToken", Str "t3"); ("monthlyLimitMb", Num NaN)]]%string.

(** Two channels that differ by the place of a colon. *)
Definition colon_list : json :=
  Arr [Obj [("id", Str "a:b"); ("keys", Arr [Obj [("id", Str "c"); ("keyId", Str "k1"); ("apiToken", Str "t1")]])];
       Obj [("id", Str "a"); ("keys", Arr [Obj [("id", Str "b:c"); ("keyId", Str "k2"); ("apiToken", Str "t2")]])]]%string.

#[local] Instance sample_relay : RelayEnv := {|
  JSON_parse s := if bool_decide (s = "LIST"%string) then Some sample_list
                  else if bool_decide (s = "COLONS"%string) then Some colon_list
                  else None;
  coerce _ := NaN |}.

Definition sample_conf : Conf := MkConf " LIST " "" "" "" "" (Fin 86400).
Definition colon_conf : Conf := MkConf "COLONS" "" "" "" "" (Fin 600).

Example sample_channels :
  map (fun c => (ch_id c, map (fun e => (ep_id e, monthlyLimitMb e)) (endpoints c))) (parseTurnChannels sample_conf)
  = [("cf", [("a", 2%Q); ("cf-2", 700000%Q)]); ("spare", [("default", 700000%Q)])]%string.
Proof. vm_compute. reflexivity. Qed.

(** A bad entry disables every channel. *)
Example bad_list : parseTurnChannels (MkConf "[" "key" "token" "" "" (Fin 600)) = [].
Proof. vm_compute. reflexivity. Qed.

Lemma channels_well_formed_witness :
  wf_channels (parseTurnChannels sample_conf)
  /\ (parseTurnChannels sample_conf = [] \/ length (parseTurnChannels sample_conf) = 2%nat).
Proof.
  destruct (channels_well_formed sample_conf) as [H1 H2]. split; [exact H1|].
  refine (H2 "LIST"%string (match sample_list with Arr l => l | _ => [] end) _ _ _); [vm_compute; reflexivity|discriminate|vm_compute; reflexivity].
Defined.

(** The first account is spent, the second of its channel is not; a spare one has been used more. *)
Definition sample_report : report :=
  MkReport (fun ch ep => Some (if bool_decide (ep = "a"%string) then 2000000
                               else if bool_decide (ch = "spare"%string) then 5000000 else 0))
    (fun _ _ => Some None)
    (fun _ _ => [MkIce ["turn:relay"%string] None None]).

Definition fresh : Selector := MkSelector 0 [].
Definition picked (channels : list TurnChannel) (r : report) (sel : Selector) : option (string * string) :=
  option_map (fun p : TurnChannel * TurnEndpoint => (ch_id p.1, ep_id p.2)) (select channels r sel).1.

Example spent_account_is_passed_over :
  picked (parseTurnChannels sample_conf) sample_report fresh = Some ("cf", "cf-2")%string.
Proof. vm_compute. reflexivity. Qed.

Lemma relay_choice_witness :
  let channels := parseTurnChannels sample_conf in
  let est := r_est sample_report in let act := r_act sample_report in let ice := r_ice sample_report in
  match (selectRelayChannel ice channels (getChannelStates est act channels) fresh).1 with
  | Some (c, e) =>
      c ∈ channels /\ e ∈ endpoints c /\ can_carry est act ice c e = true
      /\ forall c' e', c' ∈ channels -> e' ∈ endpoints c' -> can_carry est act ice c' e' = true ->
         (cs_usageMb (channel_state est act c) <= cs_usageMb (channel_state est act c'))%Q
  | None => forall c e, c ∈ channels -> e ∈ endpoints c -> can_carry est act ice c e = false
  end.
Proof.
  exact (relay_choice sample_conf (r_est sample_report) (r_act sample_report) (r_ice sample_report) fresh).
Defined.

(** Quota is back, the account in use stays. *)
Definition later_report : report :=
  MkReport (fun ch _ => Some (if bool_decide (ch = "spare"%string) then 5000000 else 0)) (fun _ _ => Some None)
    (r_ice sample_report).

Definition chosen : TurnChannel := default (MkChannel "" Static []) (head (parseTurnChannels sample_conf)).
Definition chosen_endpoint : TurnEndpoint := default (MkEndpoint "" 0 None None None) (nth_error (endpoints chosen) 1).

Lemma relay_is_sticky_witness :
  chosen = chosen /\ (if carries later_report chosen chosen_endpoint then chosen_endpoint = chosen_endpoint
                      else List.find (carries later_report chosen) (endpoints chosen) = Some chosen_endpoint).
Proof.
  refine (relay_is_sticky sample_conf fresh _ _ sample_report later_report [] chosen chosen
            chosen_endpoint chosen_endpoint [] _ _ _ _ _); try (vm_compute; reflexivity).
  intros d f H. apply not_elem_of_nil in H. destruct H.
Defined.

Definition sample_rooms : list VoiceRoomUsage :=
  [MkUsage 3 (Some "cf") (Some "a"); MkUsage 1 (Some "cf") (Some "a"); MkUsage 2 (Some "cf") (Some "a");
   MkUsage 4 None None]%string.

(** Six streams and two, forty kilobits each, for fifteen seconds. *)
Definition sample_month : nat -> string * reply := fun _ => ("2026-01"%string, Stored).
Definition sample_store : gmap string Z := <[endpointUsageKey "2026-01" "cf" "a" := 10]> ∅.

Lemma usage_is_charged_witness :
  let after := recordUsage sample_month 40 15 sample_rooms sample_store in
  after !! endpointUsageKey "2026-01" "cf" "a" = Some 600010
  /\ due 40 15 sample_rooms ("cf", "a")%string = 600000
  /\ exists accounts n,
    NoDup accounts
    /\ (forall k, k ∈ accounts <-> exists r, r ∈ sample_rooms /\ 2 <= participants r /\ u_channelId r = Some k.1 /\ u_endpointId r = Some k.2)
    /\ (n <= length accounts)%nat /\ ((forall i, (sample_month i).2 = Stored) -> n = length accounts)
    /\ (forall key, default 0 (after !! key)
                    = default 0 (sample_store !! key) + added sample_month 40 15 sample_rooms key 0 (take n accounts))
    /\ forall key, default 0 (sample_store !! key) <= default 0 (after !! key).
Proof.
  cbv zeta. split; [vm_compute; reflexivity|]. split; [vm_compute; reflexivity|].
  exact (usage_is_charged sample_month 40 15 sample_rooms sample_store eq_refl).
Defined.

(** The counters are kept under keys that join the two ids with a colon, so that accounts whose
    ids differ by the place of a colon are charged to one counter. *)
Example colon_accounts_share_a_counter :
  let rooms := [MkUsage 2 (Some "a:b") (Some "c"); MkUsage 2 (Some "a") (Some "b:c")]%string in
  recordUsage sample_month 40 15 rooms ∅ !! endpointUsageKey "2026-01" "a" "b:c" = Some 300000
  /\ due 40 15 rooms ("a", "b:c")%string = 150000
  /\ length (parseTurnChannels colon_conf) = 2%nat.
Proof. by vm_compute. Qed.

(** What Redis may hold. *)
Example counters_read :
  map parseBytes [None; Some ""; Some "12 bytes"; Some " 7"; Some "-3"; Some "many"]%string
  = [None; None; Some 12; Some 7; Some 0; Some 0].
Proof. by vm_compute. Qed.
