(* ===== verification/VoiceCredentials.v ===== *)
(** * VoiceCredentials: whose relay credentials are handed out, and how often they are asked for

    The channel list a server remembers is the one its settings give; the credentials handed out
    under any order of requests and of answers from Cloudflare are live ones of the account asked
    for; an account that fails rests for thirty seconds; and two accounts whose ids differ by the
    place of a colon get each other's credentials. *)

From Stdlib Require Import Ascii Lqa.
From stdpp Require Import gmap pretty.
From S2P Require Import Prelude Types Voice VoiceRelay.
From S2P Require Import VoiceTheorems.
Import Voice Relay.

(** ** The remembered channel list *)

(** Environment variables hold no NUL. *)
Definition readable_conf (conf : Conf) : bool :=
  no_nul (turn_channels conf) && no_nul (cloudflare_key_id conf) && no_nul (cloudflare_api_token conf).

Section Cached.
Context `{R : RelayEnv}.

Lemma cache_key_inj conf conf' :
  readable_conf conf = true -> readable_conf conf' = true -> cache_key conf = cache_key conf' ->
  parseTurnChannels conf = parseTurnChannels conf'.
Proof.
  unfold readable_conf. rewrite !andb_true_iff. intros [[H1 H2] H3] [[H1' H2'] H3'] Heq.
  apply nul_split in Heq as [E1 Heq]; [|done..]. apply nul_split in Heq as [E2 Heq]; [|done..].
  apply nul_split in Heq as [E3 E4]; [|done..].
  destruct conf as [a b c d i t], conf' as [a' b' c' d' i' t']. simpl in *. subst.
  assert (Hc : forall v id, parse_channel (MkConf a' b' c' d' i t) id v = parse_channel (MkConf a' b' c' d' i' t') id v)
    by reflexivity.
  assert (Hl : forall l seen, parse_channels (MkConf a' b' c' d' i t) seen l = parse_channels (MkConf a' b' c' d' i' t') seen l).
  { induction l as [|[] l IH]; intros seen; try reflexivity. simpl. destruct (_ || _); [done|].
    rewrite Hc. destruct (parse_channel _ _ _); [|done]. cbn [mbind option_bind]. by rewrite IH. }
  unfold parseTurnChannels. simpl. destruct (is_blank _); [reflexivity|].
  destruct (JSON_parse _) as [[| | | |[|j l]|]|]; try reflexivity. by rewrite Hl.
Qed.

(** The lists that successive calls return, as the settings change between them. *)
Fixpoint reads (confs : list Conf) (cache : ChannelCache) : list (list TurnChannel) :=
  match confs with
  | [] => []
  | conf :: rest => let '(l, cache') := getTurnChannels conf cache in l :: reads rest cache'
  end.

Definition cache_sound (cache : ChannelCache) : Prop :=
  cache.1 = None \/ exists conf, readable_conf conf = true /\ cache = (Some (cache_key conf), parseTurnChannels conf).

Lemma getTurnChannels_sound conf cache :
  readable_conf conf = true -> cache_sound cache ->
  (getTurnChannels conf cache).1 = parseTurnChannels conf /\ cache_sound (getTurnChannels conf cache).2.
Proof.
  intros Hr Hc. unfold getTurnChannels. case_bool_decide as Hk; simpl; [|split; [done|right; by exists conf]].
  split; [|done]. destruct Hc as [Hn|(conf' & Hr' & ->)]; [congruence|]. simpl in *. injection Hk as Hk.
  by apply cache_key_inj.
Qed.

(** the list of channels is parsed again exactly when a setting it depends on changes: however
    the settings change between calls, every call returns what parsing the settings of that
    moment would give. *)
Theorem channels_are_current (confs : list Conf) :
  forallb readable_conf confs = true -> reads confs (None, []) = map parseTurnChannels confs.
Proof.
  intros Hall. assert (Hs : cache_sound (None, [])) by by left. revert Hs.
  generalize (@None string, @nil TurnChannel) as cache. induction confs as [|conf confs IH]; intros cache Hs; [done|].
  simpl in *. apply andb_true_iff in Hall as [Hr Hall].
  pose proof (getTurnChannels_sound conf cache Hr Hs) as [H1 H2].
  destruct (getTurnChannels conf cache) as [l cache']. simpl in *. subst l. f_equal. by apply IH.
Qed.
End Cached.

(** ** Requests and answers in any order *)

Inductive event :=
  | Asks (channelId : string) (endpointId : option string)
  | Settles (key : string) (result : option (list IceServer)).

(** Credentials that Cloudflare minted: for which account, when, and for how long. *)
Record Grant := MkGrant {
  g_key : string;
  g_account : string;
  g_ttl : Q;
  g_servers : list IceServer;
  g_at : Q;
}.

Definition grants_of (key : string) (result : option (list IceServer)) (now : Q) (s : Credentials) : list Grant :=
  match fetches s !! key, result with
  | Some f, Some l => [MkGrant key (default ""%string (keyId (for_endpoint f))) (with_ttl f) l now]
  | _, _ => []
  end.

Section Runs.
Context `{R : RelayEnv} (conf : Conf).

Notation channels := (parseTurnChannels conf).
Notation ttl := (getCloudflareTurnTtlSeconds conf).

Definition asked (ch : string) (ep : option string) (now : Q) (s : Credentials) : answer * Credentials :=
  getChannelRelayIceServers channels ttl ch ep now s.

Definition exec (now : Q) (x : event) (s : Credentials) : Credentials :=
  match x with
  | Asks ch ep => (asked ch ep now s).2
  | Settles key result => (settle key result now s).2
  end.

(** The states a server can be in at an instant, with what Cloudflare has minted so far. *)
Inductive reached : Q -> list Grant -> Credentials -> Prop :=
  | reached_start now : reached now [] no_credentials
  | reached_later now now' g s : reached now g s -> (now <= now')%Q -> reached now' g s
  | reached_ask now g s ch ep : reached now g s -> reached now g (exec now (Asks ch ep) s)
  | reached_settle now g s key result :
      reached now g s -> reached now (grants_of key result now s ++ g) (exec now (Settles key result) s).

Lemma ttl_bounds : (300 <= ttl /\ ttl <= 172800)%Q.
Proof.
  unfold getCloudflareTurnTtlSeconds, Qmin', Qmax', TURN_MIN_TTL_SECONDS, TURN_MAX_TTL_SECONDS.
  set (q := match ttl_seconds conf with Fin q => q | _ => _ end).
  destruct (Qle_bool q 300) eqn:E1; [by split|].
  destruct (Qle_bool q 172800) eqn:E2; [|by split]. apply Qle_bool_iff in E2.
  split; [|done]. apply not_true_iff_false in E1. rewrite Qle_bool_iff in E1. apply Qlt_le_weak. by apply Qnot_le_lt.
Qed.

(** [l] are credentials that Cloudflare minted for this account and that are still good. *)
Definition live (g : list Grant) (now : Q) (key account : string) (l : list IceServer) : Prop :=
  exists gr, gr ∈ g /\ g_key gr = key /\ g_account gr = account /\ g_servers gr = l
             /\ (g_at gr <= now)%Q /\ (now < g_at gr + g_ttl gr * 1000)%Q.

(** What is cached was minted, and expires when that does; a fetch carries the configured
    lifetime and the endpoint of its channel. *)
Definition cached_ok (now : Q) (g : list Grant) (key : string) (c : CloudflareTurnCache) : Prop :=
  exists gr, gr ∈ g /\ g_key gr = key /\ g_account gr = cache_keyId c /\ g_servers gr = cache_servers c
             /\ (g_at gr <= now)%Q /\ (expiresAt c == g_at gr + g_ttl gr * 1000)%Q
             /\ (refreshAt c <= expiresAt c)%Q.

Definition fetch_ok (key : string) (f : Fetch) : Prop :=
  with_ttl f = ttl
  /\ exists c, c ∈ channels /\ for_channel f = ch_id c /\ for_endpoint f ∈ endpoints c
            /\ staticIceServers (for_endpoint f) = None
            /\ key = endpointCacheKey (ch_id c) (ep_id (for_endpoint f)).

Definition ok (now : Q) (g : list Grant) (s : Credentials) : Prop :=
  (forall key c, caches s !! key = Some c -> cached_ok now g key c)
  /\ (forall key f, fetches s !! key = Some f -> fetch_ok key f).

Lemma find_channel_In l id c : findChannel l id = Some c -> c ∈ l /\ ch_id c = id.
Proof.
  unfold findChannel. intros H. apply List.find_some in H as [H1 H2]. apply bool_decide_eq_true in H2.
  split; [by apply list_elem_of_In|done].
Qed.

(** [e] is the endpoint of [c] that is asked for: the one with the id that is named, or the
    channel's first when none is named or no endpoint of the channel has the id. *)
Definition asked_for (c : TurnChannel) (ep : option string) (e : TurnEndpoint) : Prop :=
  e ∈ endpoints c
  /\ (ep = Some (ep_id e)
      \/ (head (endpoints c) = Some e
          /\ forall i e', ep = Some i -> e' ∈ endpoints c -> ep_id e' = i -> i = ""%string)).

Lemma find_endpoint_asked c ep e : findEndpoint c ep = Some e -> asked_for c ep e.
Proof.
  unfold findEndpoint, asked_for. intros H.
  assert (Hh : head (endpoints c) = Some e -> e ∈ endpoints c).
  { destruct (endpoints c); [done|]. intros [= ->]. by left. }
  destruct ep as [i|]; [|split; [by apply Hh|right; by split]].
  destruct (is_blank i) eqn:Hb; [split; [by apply Hh|right; split; [done|]]|].
  { intros ? ? [= <-] _ _. by apply bool_decide_eq_true in Hb. }
  destruct (List.find _ _) as [x|] eqn:E.
  - injection H as ->. apply List.find_some in E as [E Hid]. apply bool_decide_eq_true in Hid.
    split; [by apply list_elem_of_In|left; by rewrite Hid].
  - split; [by apply Hh|right; split; [done|]]. intros ? e' [= <-] He' Hid.
    apply list_elem_of_In in He'. apply (List.find_none _ _ E) in He'. by apply bool_decide_eq_false in He'.
Qed.
Lemma find_endpoint_In c ep e : findEndpoint c ep = Some e -> e ∈ endpoints c.
Proof. intros H. by apply find_endpoint_asked in H as [? _]. Qed.

(** A request changes nothing but the fetches, and adds at most the one of its own account. *)
Lemma refresh_fields c e now s :
  let s' := refreshCloudflareTurnCache c e ttl now s in
  let key := endpointCacheKey c (ep_id e) in
  caches s' = caches s /\ failures s' = failures s
  /\ forall k, fetches s' !! k = match fetches s !! k with
                                 | Some f => Some f
                                 | None => if decide (key = k) then Some (MkFetch c e ttl now) else None
                                 end.
Proof.
  unfold refreshCloudflareTurnCache. destruct (fetches s !! _) as [f|] eqn:E; simpl; (do 2 (split; [done|])); intros k.
  - case_decide as Hd; [subst k; by rewrite E|by destruct (fetches s !! k)].
  - case_decide as Hd; [subst k; by rewrite E, lookup_insert_eq|]. rewrite lookup_insert_ne by done.
    by destruct (fetches s !! k).
Qed.

Lemma get_after c e now s :
  (getCloudflareTurnIceServers c e ttl now s).2 = s
  \/ (getCloudflareTurnIceServers c e ttl now s).2 = refreshCloudflareTurnCache c e ttl now s.
Proof.
  unfold getCloudflareTurnIceServers.
  set (missing := match failures s !! _ with Some _ => _ | None => _ end).
  assert (Hm : missing.2 = s \/ missing.2 = refreshCloudflareTurnCache c e ttl now s).
  { unfold missing. destruct (failures s !! _) as [[k u]|]; [destruct (_ && _)|]; auto. }
  destruct (match caches s !! _ with Some _ => _ | None => _ end) as [k|]; [|exact Hm].
  destruct (Qlt_bool now (refreshAt k)); [by left|]. destruct (Qlt_bool now (expiresAt k)); [by right|exact Hm].
Qed.

Lemma refresh_ok now g s c e :
  ok now g s -> c ∈ channels -> e ∈ endpoints c -> staticIceServers e = None ->
  ok now g (refreshCloudflareTurnCache (ch_id c) e ttl now s).
Proof.
  intros [H1 H2] Hc He Hst. destruct (refresh_fields (ch_id c) e now s) as (Hca & _ & Hf). split.
  - intros key k Hk. rewrite Hca in Hk. by apply H1.
  - intros key f Hk. rewrite Hf in Hk. destruct (fetches s !! key) eqn:E; [injection Hk as <-; by apply H2|].
    case_decide as Hd; [|done]. injection Hk as <-. split; [done|]. exists c. done.
Qed.

Lemma ask_ok now g s ch ep : ok now g s -> ok now g (exec now (Asks ch ep) s).
Proof.
  intros H. unfold exec, asked, getChannelRelayIceServers.
  destruct (findChannel _ _) as [c|] eqn:Ec; [|done]. destruct (findEndpoint c ep) as [e|] eqn:Ee; [|done].
  destruct (staticIceServers e) eqn:Es; [done|].
  apply find_channel_In in Ec as [Hc _]. apply find_endpoint_In in Ee.
  destruct (get_after (ch_id c) e now s) as [-> | ->]; [done|]. by apply refresh_ok.
Qed.

Lemma later_ok now now' g s : ok now g s -> (now <= now')%Q -> ok now' g s.
Proof.
  intros [H1 H2] Hle. split; [|done]. intros key c Hk. destruct (H1 key c Hk) as (gr & ? & ? & ? & ? & ? & ? & ?).
  exists gr. repeat split; try done. lra.
Qed.

Lemma settle_ok now g s key result :
  ok now g s -> ok now (grants_of key result now s ++ g) (exec now (Settles key result) s).
Proof.
  intros [H1 H2]. unfold exec, settle, grants_of. destruct (fetches s !! key) as [f|] eqn:Ef; [|by split].
  assert (Hdel : forall k f', delete key (fetches s) !! k = Some f' -> fetch_ok k f').
  { intros k f' Hk. apply lookup_delete_Some in Hk as [_ Hk]. by apply H2. }
  destruct result as [l|]; simpl.
  - split; [|exact Hdel]. intros k c Hk. cbn [caches] in Hk. destruct (decide (k = key)) as [->|Hne].
    + rewrite lookup_insert_eq in Hk. injection Hk as <-.
      eexists. split; [by left|]. simpl. repeat split; try lra.
      destruct (H2 key f Ef) as [Ht _]. rewrite Ht. pose proof ttl_bounds.
      unfold TURN_REFRESH_RATIO. lra.
    + rewrite lookup_insert_ne in Hk by done. destruct (H1 k c Hk) as (gr & Hin & Hrest).
      exists gr. split; [by right|done].
  - destruct (caches s !! key) as [c|]; [destruct (_ && _)|]; (split; [exact H1|exact Hdel]).
Qed.

Lemma reached_ok now g s : reached now g s -> ok now g s.
Proof.
  induction 1 as [now|now now' g s _ IH Hle|now g s ch ep _ IH|now g s key result _ IH].
  - split; intros k c Hk; cbn [caches fetches no_credentials] in Hk; by rewrite lookup_empty in Hk.
  - by eapply later_ok.
  - by apply ask_ok.
  - by apply settle_ok.
Qed.

Lemma cached_live now g key c :
  cached_ok now g key c -> Qlt_bool now (expiresAt c) = true -> live g now key (cache_keyId c) (cache_servers c).
Proof.
  intros (gr & Hin & Hk & Ha & Hs & Hat & Hex & _) Hlt. apply Qlt_bool_iff in Hlt. exists gr.
  repeat split; try done. by rewrite <- Hex.
Qed.

Lemma get_servers now g s c e l :
  ok now g s -> (getCloudflareTurnIceServers c e ttl now s).1 = Servers l ->
  l = [] \/ exists account, keyId e = Some account /\ live g now (endpointCacheKey c (ep_id e)) account l.
Proof.
  intros [H1 _]. unfold getCloudflareTurnIceServers. set (key := endpointCacheKey c (ep_id e)).
  set (missing := match failures s !! _ with Some _ => _ | None => _ end).
  assert (Hm : missing.1 = Servers l -> l = []).
  { unfold missing. destruct (failures s !! _) as [[k u]|]; [destruct (_ && _)|]; simpl; congruence. }
  destruct (caches s !! key) as [k|] eqn:Ek; [|by intros; left; auto].
  destruct (same_account (cache_keyId k) e) eqn:Ea; [|by intros; left; auto]. simpl.
  destruct (Qeq_bool (cache_ttl k) ttl); [|by intros; left; auto].
  assert (Hc : Qlt_bool now (expiresAt k) = true ->
     exists account, keyId e = Some account /\ live g now key account (cache_servers k)).
  { intros Hlt. exists (cache_keyId k). split; [by apply bool_decide_eq_true in Ea|]. apply cached_live; auto. }
  destruct (Qlt_bool now (refreshAt k)) eqn:Er; simpl.
  - intros [= <-]. right. apply Hc. apply Qlt_bool_iff in Er. apply Qlt_bool_iff.
    destruct (H1 key k Ek) as (gr & _ & _ & _ & _ & _ & _ & Hle). lra.
  - destruct (Qlt_bool now (expiresAt k)) eqn:Ee; simpl; [intros [= <-]; right; by apply Hc|].
    intros H. left. by apply Hm.
Qed.

(** C33: whatever the order of requests and of Cloudflare's answers, the servers a request gets at
    once are none, or those of the endpoint asked for, which is the one with the id it names in the
    channel it names, and the channel's first only when it names none that the channel has: the
    endpoint's static servers, or credentials that Cloudflare minted for the very account of that
    endpoint and that have not expired.  A fetch that fails gives its callers nothing but such
    credentials either. *)
Theorem credentials_are_live (now : Q) (g : list Grant) (s : Credentials) (l : list IceServer) :
  reached now g s ->
  (forall ch ep, (asked ch ep now s).1 = Servers l -> l <> [] ->
     exists c e, c ∈ channels /\ ch_id c = ch /\ asked_for c ep e
       /\ (staticIceServers e = Some l
           \/ exists account, keyId e = Some account /\ live g now (endpointCacheKey ch (ep_id e)) account l))
  /\ (forall key f, fetches s !! key = Some f -> (settle key None now s).1 = l -> l <> [] ->
     exists account, keyId (for_endpoint f) = Some account /\ live g now key account l).
Proof.
  intros Hr. apply reached_ok in Hr. split.
  - intros ch ep. unfold asked, getChannelRelayIceServers.
    destruct (findChannel _ _) as [c|] eqn:Ec; [|intros [= <-]; done].
    destruct (findEndpoint c ep) as [e|] eqn:Ee; [|intros [= <-]; done].
    apply find_channel_In in Ec as [Hc <-]. apply find_endpoint_asked in Ee.
    intros H Hl. exists c, e. do 3 (split; [done|]).
    destruct (staticIceServers e) eqn:Es; simpl in H; [injection H as <-; by left|right].
    by destruct (get_servers now g s _ _ _ Hr H) as [?|?].
  - intros key f Hf. destruct Hr as [H1 _]. unfold settle. rewrite Hf.
    destruct (caches s !! key) as [c|] eqn:Ec; [|intros <-; done].
    destruct (same_account _ _ && Qlt_bool now (expiresAt c)) eqn:E; simpl; intros <-; [intros _|done].
    apply andb_true_iff in E as [Ea Ex]. exists (cache_keyId c).
    split; [by apply bool_decide_eq_true in Ea|]. apply cached_live; auto.
Qed.
End Runs.

(** ** Whose fetch a request waits for *)

Fixpoint no_colon (s : string) : bool :=
  match s with
  | EmptyString => true
  | String c s' => negb (bool_decide (c = ":"%char)) && no_colon s'
  end.

Lemma cache_key_split (a a' b b' : string) :
  no_colon a = true -> no_colon a' = true -> endpointCacheKey a b = endpointCacheKey a' b' -> a = a' /\ b = b'.
Proof.
  unfold endpointCacheKey. revert a'. induction a as [|c a IH]; intros [|c' a']; simpl.
  - intros _ _ [= H]. split; [done|exact H].
  - intros _ H [= Hc _]. subst c'. by rewrite bool_decide_eq_true_2 in H.
  - intros H _ [= Hc _]. subst c. by rewrite bool_decide_eq_true_2 in H.
  - intros [_ H]%andb_true_iff [_ H']%andb_true_iff [= -> Heq]. destruct (IH a' H H' Heq) as [-> ->]. done.
Qed.

Section Waiting.
Context `{R : RelayEnv} (conf : Conf).

Notation channels := (parseTurnChannels conf).
Notation ttl := (getCloudflareTurnTtlSeconds conf).

(** The channel ids of the configuration hold no colon. *)
Definition plain_ids : bool := forallb (fun c => no_colon (ch_id c)) channels.

Lemma account_of_key c e c' e' :
  plain_ids = true -> c ∈ channels -> e ∈ endpoints c -> c' ∈ channels -> e' ∈ endpoints c' ->
  endpointCacheKey (ch_id c) (ep_id e) = endpointCacheKey (ch_id c') (ep_id e') -> c = c' /\ e = e'.
Proof.
  intros Hp Hc He Hc' He' Hk. pose proof (parseTurnChannels_wf conf) as [Hnd Hall].
  unfold plain_ids in Hp. rewrite forallb_forall in Hp.
  apply cache_key_split in Hk as [Hid Hep]; [|apply Hp; by apply list_elem_of_In..].
  assert (c = c') as <-.
  { pose proof (find_unique ch_id channels c Hnd Hc) as F1. pose proof (find_unique ch_id channels c' Hnd Hc') as F2.
    rewrite Hid in F1. congruence. }
  split; [done|]. rewrite Forall_forall in Hall. destruct (Hall c Hc) as (_ & _ & Hn & _).
  pose proof (find_unique ep_id _ e Hn He) as F1. pose proof (find_unique ep_id _ e' Hn He') as F2.
  rewrite Hep in F1. congruence.
Qed.

Lemma cloudflare_key c e :
  c ∈ channels -> e ∈ endpoints c -> staticIceServers e = None -> exists k, keyId e = Some k.
Proof.
  intros Hc He Hs. pose proof (parseTurnChannels_wf conf) as [_ Hall]. rewrite Forall_forall in Hall.
  destruct (Hall c Hc) as (_ & _ & _ & Hwe). rewrite Forall_forall in Hwe. destruct (Hwe e He) as (_ & _ & Hk).
  destruct (ch_kind c); [destruct Hk as (k & t & Hk & _); eauto|].
  destruct Hk as (l & Hl & _). congruence.
Qed.

Lemma get_waits c e now s key s' :
  getCloudflareTurnIceServers c e ttl now s = (Awaits key, s') ->
  key = endpointCacheKey c (ep_id e) /\ s' = refreshCloudflareTurnCache c e ttl now s.
Proof.
  unfold getCloudflareTurnIceServers. set (missing := match failures s !! _ with Some _ => _ | None => _ end).
  assert (Hm : missing = (Awaits key, s') ->
      key = endpointCacheKey c (ep_id e) /\ s' = refreshCloudflareTurnCache c e ttl now s).
  { unfold missing. destruct (failures s !! _) as [[k u]|]; [destruct (_ && _)|]; try done; by intros [= <- <-]. }
  destruct (match caches s !! _ with Some _ => _ | None => _ end) as [k|]; [|exact Hm].
  destruct (Qlt_bool now (refreshAt k)); [done|]. destruct (Qlt_bool now (expiresAt k)); [done|exact Hm].
Qed.

(** a request that has to wait waits for a fetch that is under way; when no channel id holds
    a colon, it is the fetch of the very account asked for, so that what it brings are that
    account's credentials. *)
Theorem requests_await_their_account (now : Q) (g : list Grant) (s s' : Credentials)
    (ch key : string) (ep : option string) :
  reached conf now g s -> plain_ids = true -> asked conf ch ep now s = (Awaits key, s') ->
  exists c e f, c ∈ channels /\ ch_id c = ch /\ findEndpoint c ep = Some e
    /\ fetches s' !! key = Some f /\ for_channel f = ch /\ for_endpoint f = e /\ with_ttl f = ttl.
Proof.
  intros Hr Hp. apply reached_ok in Hr. unfold asked, getChannelRelayIceServers.
  destruct (findChannel _ _) as [c|] eqn:Ec; [|done]. destruct (findEndpoint c ep) as [e|] eqn:Ee; [|done].
  destruct (staticIceServers e) eqn:Es; [done|]. intros H. apply get_waits in H as [-> ->].
  apply find_channel_In in Ec as [Hc <-]. pose proof (find_endpoint_In _ _ _ Ee) as He.
  pose proof (refresh_ok conf now g s c e Hr Hc He Es) as [_ Hok].
  destruct (refresh_fields conf (ch_id c) e now s) as (_ & _ & Hf).
  set (key := endpointCacheKey (ch_id c) (ep_id e)) in *. specialize (Hf key).
  assert (Hsome : exists f, fetches (refreshCloudflareTurnCache (ch_id c) e ttl now s) !! key = Some f).
  { rewrite Hf. rewrite decide_True by done. destruct (fetches s !! key); eauto. }
  destruct Hsome as [f Hsome]. destruct (Hok key f Hsome) as (Ht & c' & Hc' & Hch & He' & _ & Hk).
  destruct (account_of_key c e c' (for_endpoint f)) as [<- Heq]; try done.
  exists c, e, f. done.
Qed.

(** ** An account that fails *)

(** What can happen from one state and instant to another. *)
Inductive runs : Q -> Credentials -> Q -> Credentials -> Prop :=
  | runs_refl now s : runs now s now s
  | runs_later now s now' s' now'' : runs now s now' s' -> (now' <= now'')%Q -> runs now s now'' s'
  | runs_event now s now' s' x : runs now s now' s' -> runs now s now' (exec conf now' x s').

Lemma runs_ok now g s now' s' : ok conf now g s -> runs now s now' s' -> (now <= now')%Q /\ exists g', ok conf now' g' s'.
Proof.
  intros Hok. induction 1 as [now s|now s now' s' now'' _ IH Hle|now s now' s' x _ IH].
  - split; [apply Qle_refl|by exists g].
  - destruct (IH Hok) as [H1 [g' H2]]. split; [lra|]. exists g'. by eapply later_ok.
  - destruct (IH Hok) as [H1 [g' H2]]. split; [done|]. destruct x as [ch ep|key result].
    + exists g'. by apply ask_ok.
    + eexists. apply settle_ok, H2.
Qed.

(** The key rests: nothing is under way, the failure is remembered, nothing cached is good. *)
Definition resting (key account : string) (since : Q) (s : Credentials) : Prop :=
  fetches s !! key = None
  /\ failures s !! key = Some (account, since + TURN_FAILURE_COOLDOWN_MS)%Q
  /\ forall c, caches s !! key = Some c -> cache_keyId c = account -> (expiresAt c <= since)%Q.

Lemma resting_get c e now since g s account :
  ok conf now g s -> resting (endpointCacheKey c (ep_id e)) account since s -> keyId e = Some account ->
  (since <= now)%Q -> (now < since + TURN_FAILURE_COOLDOWN_MS)%Q ->
  getCloudflareTurnIceServers c e ttl now s = (Servers [], s).
Proof.
  intros [Hok _] (Hf & Hfail & Hcache) Ha Hle Hlt. unfold getCloudflareTurnIceServers.
  set (missing := match failures s !! _ with Some _ => _ | None => _ end).
  assert (Hm : missing = (Servers [], s)).
  { unfold missing. rewrite Hfail. unfold same_account. rewrite Ha, bool_decide_eq_true_2 by done.
    by rewrite (proj2 (Qlt_bool_iff _ _) Hlt). }
  destruct (caches s !! endpointCacheKey c (ep_id e)) as [k|] eqn:Ek; [|exact Hm].
  destruct (same_account (cache_keyId k) e) eqn:Es; [|exact Hm].
  destruct (Qeq_bool (cache_ttl k) ttl); [|exact Hm]. simpl.
  apply bool_decide_eq_true in Es. assert (Hacc : cache_keyId k = account) by congruence.
  pose proof (Hcache k eq_refl Hacc) as Hex.
  destruct (Hok _ k Ek) as (gr & _ & _ & _ & _ & _ & _ & Hr).
  rewrite (proj2 (Qlt_bool_false now (refreshAt k))) by lra.
  by rewrite (proj2 (Qlt_bool_false now (expiresAt k))) by lra.
Qed.

Lemma refresh_other c e now s key account since :
  endpointCacheKey c (ep_id e) <> key -> resting key account since s ->
  resting key account since (refreshCloudflareTurnCache c e ttl now s).
Proof.
  intros Hne (H1 & H2 & H3). destruct (refresh_fields conf c e now s) as (Hc & Hf & Hk).
  split; [rewrite Hk, H1; by rewrite decide_False|]. rewrite Hf, Hc. done.
Qed.

Lemma resting_ask c e key account since now g s ch ep :
  plain_ids = true -> c ∈ channels -> e ∈ endpoints c -> key = endpointCacheKey (ch_id c) (ep_id e) ->
  keyId e = Some account -> ok conf now g s -> resting key account since s ->
  (since <= now)%Q -> (now < since + TURN_FAILURE_COOLDOWN_MS)%Q ->
  resting key account since (exec conf now (Asks ch ep) s).
Proof.
  intros Hp Hc He -> Ha Hok Hrest Hle Hlt. unfold exec, asked, getChannelRelayIceServers.
  destruct (findChannel _ _) as [c'|] eqn:Ec; [|done]. destruct (findEndpoint c' ep) as [e'|] eqn:Ee; [|done].
  destruct (staticIceServers e') eqn:Es; [done|].
  apply find_channel_In in Ec as [Hc' _]. apply find_endpoint_In in Ee.
  destruct (decide (endpointCacheKey (ch_id c') (ep_id e') = endpointCacheKey (ch_id c) (ep_id e))) as [Hk|Hk].
  - destruct (account_of_key c' e' c e) as [-> ->]; try done. by erewrite resting_get.
  - destruct (get_after conf (ch_id c') e' now s) as [-> | ->]; [done|]. by apply refresh_other.
Qed.

Lemma resting_settle key key' account since now result s :
  resting key account since s -> resting key account since (exec conf now (Settles key' result) s).
Proof.
  intros (H1 & H2 & H3). unfold exec, settle. destruct (fetches s !! key') as [f|] eqn:E; [|done].
  assert (Hne : key' <> key) by congruence.
  destruct result as [l|]; [|destruct (caches s !! key') as [c|]; [destruct (_ && _)|]];
    (split; [cbn [snd fetches]; by rewrite lookup_delete_ne|split;
       [cbn [snd failures]; by rewrite ?lookup_delete_ne, ?lookup_insert_ne|
        cbn [snd caches]; rewrite ?lookup_insert_ne by done; done]]).
Qed.

Lemma runs_resting c e key account since now g s now' s' :
  plain_ids = true -> c ∈ channels -> e ∈ endpoints c -> key = endpointCacheKey (ch_id c) (ep_id e) ->
  keyId e = Some account -> runs now s now' s' -> ok conf now g s -> resting key account since s ->
  (since <= now)%Q -> (now' < since + TURN_FAILURE_COOLDOWN_MS)%Q -> resting key account since s'.
Proof.
  intros Hp Hc He Hk Ha. induction 1 as [now s|now s now' s' now'' Hr IH Hle|now s now' s' x Hr IH]; intros Hok Hrest Hs Hlt.
  - done.
  - apply IH; try done. lra.
  - specialize (IH Hok Hrest Hs Hlt). destruct (runs_ok _ _ _ _ _ Hok Hr) as [Hle [g' Hok']].
    destruct x as [ch ep|key' result]; [|by apply resting_settle].
    apply (resting_ask c e key account since now' g'); try done. lra.
Qed.

(** after a fetch for an account failed with no credentials of the account left that are
    still good, Cloudflare is not asked for the account again within thirty seconds, and requests
    for it get no servers at once; when no channel id holds a colon. *)
Theorem failing_accounts_rest (now now' : Q) (g : list Grant) (s s' : Credentials) (key : string) (f : Fetch) :
  reached conf now g s -> plain_ids = true -> fetches s !! key = Some f ->
  (forall c, caches s !! key = Some c -> same_account (cache_keyId c) (for_endpoint f) = true ->
             (expiresAt c <= now)%Q) ->
  runs now (settle key None now s).2 now' s' -> (now' < now + TURN_FAILURE_COOLDOWN_MS)%Q ->
  fetches s' !! key = None
  /\ asked conf (for_channel f) (Some (ep_id (for_endpoint f))) now' s' = (Servers [], s').
Proof.
  intros Hr Hp Hf Hcache Hrun Hlt. apply reached_ok in Hr. pose proof Hr as [_ Hfetch].
  destruct (Hfetch key f Hf) as (_ & c & Hc & Hch & He & Hst & Hk).
  destruct (cloudflare_key c _ Hc He Hst) as [account Ha].
  pose proof (settle_ok conf now g s key None Hr) as Hok1.
  assert (Hrest : resting key account now (settle key None now s).2).
  { unfold settle. rewrite Hf. rewrite Ha. simpl.
    assert (H : forall l, resting key account now ((l : list IceServer, MkCredentials (caches s) (delete key (fetches s))
               (<[key:=(account, (now + TURN_FAILURE_COOLDOWN_MS)%Q)]> (failures s)))).2).
    { intros l. split; [cbn; apply lookup_delete_eq|split; [cbn; apply lookup_insert_eq|]].
      intros k Hk1 Hk2. apply (Hcache k Hk1). unfold same_account. rewrite Ha. apply bool_decide_eq_true_2. congruence. }
    destruct (caches s !! key) as [k|]; [destruct (_ && _)|]; apply H. }
  destruct (runs_ok _ _ _ _ _ Hok1 Hrun) as [Hle [g' Hok']].
  pose proof (runs_resting c _ key account now now _ _ _ _ Hp Hc He Hk Ha Hrun Hok1 Hrest (Qle_refl now) Hlt) as Hfin.
  split; [apply Hfin|]. unfold asked, getChannelRelayIceServers. rewrite Hch.
  pose proof (parseTurnChannels_wf conf) as [Hnd Hall].
  unfold findChannel. rewrite (find_unique ch_id channels c Hnd Hc).
  rewrite Forall_forall in Hall. destruct (Hall c Hc) as (_ & _ & Hn & Hwe).
  rewrite Forall_forall in Hwe. destruct (Hwe _ He) as [Hid _].
  unfold findEndpoint. rewrite (proj2 (is_blank_false _) Hid), (find_unique ep_id _ _ Hn He), Hst.
  subst key. by eapply resting_get.
Qed.
End Waiting.

(** ** A day of one server *)

#[local] Existing Instance sample_relay.

Lemma channels_are_current_witness :
  reads [sample_conf; sample_conf; colon_conf; sample_conf] (None, [])
  = map parseTurnChannels [sample_conf; sample_conf; colon_conf; sample_conf].
Proof. apply (channels_are_current [sample_conf; sample_conf; colon_conf; sample_conf]). vm_compute. reflexivity. Defined.

Definition turn_of (user : string) : list IceServer := [MkIce ["turn:relay"%string] (Some user) None].

(** The first request at noon starts a fetch, which brings credentials a second later. *)
Definition noon : Q := 43200000.
Definition asked_once : Credentials := exec sample_conf noon (Asks "cf" (Some "a"%string)) no_credentials.
Definition minted : Credentials := exec sample_conf (noon + 1000) (Settles "cf:a" (Some (turn_of "u1"))) asked_once.
Definition sample_grants : list Grant := grants_of "cf:a" (Some (turn_of "u1")) (noon + 1000) asked_once ++ [].

(** An hour later. *)
Definition later : Q := noon + 3600000.

Lemma minted_reached : reached sample_conf later sample_grants minted.
Proof.
  apply reached_later with (now := (noon + 1000)%Q); [|by vm_compute].
  apply reached_settle. apply reached_later with (now := noon); [|by vm_compute].
  apply reached_ask. apply reached_start.
Defined.

Lemma credentials_are_live_witness :
  (asked sample_conf "cf" (Some "a"%string) later minted).1 = Servers (turn_of "u1")
  /\ exists c e, c ∈ parseTurnChannels sample_conf /\ ch_id c = "cf"%string /\ asked_for c (Some "a"%string) e
       /\ (staticIceServers e = Some (turn_of "u1")
           \/ exists account, keyId e = Some account
                /\ live sample_grants later (endpointCacheKey "cf" (ep_id e)) account (turn_of "u1")).
Proof.
  assert (H : (asked sample_conf "cf" (Some "a"%string) later minted).1 = Servers (turn_of "u1")) by (vm_compute; reflexivity).
  split; [exact H|].
  refine (proj1 (credentials_are_live sample_conf later sample_grants minted (turn_of "u1") minted_reached)
            "cf"%string (Some "a"%string) H _).
  discriminate.
Defined.

Lemma requests_await_their_account_witness :
  exists c e f, c ∈ parseTurnChannels sample_conf /\ ch_id c = "cf"%string
    /\ findEndpoint c (Some "a"%string) = Some e
    /\ fetches asked_once !! "cf:a"%string = Some f /\ for_channel f = "cf"%string /\ for_endpoint f = e
    /\ with_ttl f = getCloudflareTurnTtlSeconds sample_conf.
Proof.
  refine (requests_await_their_account sample_conf noon [] no_credentials asked_once "cf" "cf:a" (Some "a"%string)
            (reached_start _ noon) _ _); vm_compute; reflexivity.
Defined.

(** The first fetch of the day fails, and a request comes ten seconds later. *)
Definition failed : Credentials := (settle "cf:a" None (noon + 1000) asked_once).2.
Definition in_flight : Fetch := default (MkFetch "" (MkEndpoint "" 0 None None None) 0 0) (fetches asked_once !! "cf:a"%string).

Lemma failing_accounts_rest_witness :
  let after := exec sample_conf (noon + 11000) (Asks "cf" (Some "a"%string)) failed in
  fetches after !! "cf:a"%string = None
  /\ asked sample_conf (for_channel in_flight) (Some (ep_id (for_endpoint in_flight))) (noon + 11000) after
     = (Servers [], after).
Proof.
  cbv zeta.
  refine (failing_accounts_rest sample_conf (noon + 1000) (noon + 11000) [] asked_once _ "cf:a" in_flight _ _ _ _ _ _).
  - apply reached_later with (now := noon); [|by vm_compute]. apply reached_ask, reached_start.
  - vm_compute. reflexivity.
  - vm_compute. reflexivity.
  - intros c Hc. vm_compute in Hc. discriminate Hc.
  - apply runs_event. eapply runs_later; [apply runs_refl|by vm_compute].
  - by vm_compute.
Defined.

(** ** What the cooldown does not cover

    Credentials past their refresh time are still handed out, and each time a fetch is started in
    the background; that a fetch failed a moment ago is not looked at.  Below, twenty hours after
    the credentials were minted Cloudflare fails; a request one second after the failure starts
    the next fetch. *)

Definition evening : Q := noon + 72000000.
Definition background : Credentials := exec sample_conf evening (Asks "cf" (Some "a"%string)) minted.
Definition background_failed : Credentials := (settle "cf:a" None (evening + 500) background).2.
Definition asked_again : answer * Credentials := asked sample_conf "cf" (Some "a"%string) (evening + 1500) background_failed.

Example stale_credentials_know_no_cooldown :
  fetches background_failed !! "cf:a"%string = None
  /\ failures background_failed !! "cf:a"%string = Some ("k1"%string, (evening + 500 + TURN_FAILURE_COOLDOWN_MS)%Q)
  /\ asked_again.1 = Servers (turn_of "u1")
  /\ option_map started (fetches asked_again.2 !! "cf:a"%string) = Some (evening + 1500)%Q.
Proof. by vm_compute. Qed.

(** ** Two accounts under one key

    The key of an account is its channel and its endpoint with a colon in between, and neither id
    is kept from holding one.  Channel [a:b] with endpoint [c] and channel [a] with endpoint
    [b:c] share the key, the fetch under way and with it the credentials: the second request gets
    those of the first one's account. *)

Example colon_accounts_share_a_fetch :
  let s := exec colon_conf noon (Asks "a:b" (Some "c"%string)) no_credentials in
  let '(a, s') := asked colon_conf "a" (Some "b:c"%string) noon s in
  a = Awaits "a:b:c"
  /\ option_map (fun f => keyId (for_endpoint f)) (fetches s' !! "a:b:c"%string) = Some (Some "k1"%string)
  /\ (e ← findChannel (parseTurnChannels colon_conf) "a" ≫= fun c => findEndpoint c (Some "b:c"%string); keyId e)
     = Some "k2"%string.
Proof. by vm_compute. Qed.
