(* ===== verification/ClientManager.v ===== *)
(** * ClientManager: the connections of a server and what they do to its rooms

    [server/client.ts] and [server/clientmanager.ts] on top of the room manager: clients come
    over a socket of their own or through a balancer, authenticate, join a room, send
    messages and go; what a room publishes is broadcast to the clients that joined it.
    Clients are objects in a heap.  Every handler is cut at the awaits behind which there is
    I/O; a handler that waits for a room waits for the call of the manager it made. *)

From S2P Require Import Prelude Types Permissions VideoQueue RoomModel RoomPlayback RoomRequests.
From S2P Require Import RoomLifecycle RoomManager Voice.
From Stdlib Require Import Ascii.

Module Clients.
Import Voice.

(** ** Clients *)

(** The codes of [OttWebsocketError]. *)
Definition AWAY : Z := 1001.
Definition UNKNOWN : Z := 4000.
Definition ROOM_NOT_FOUND : Z := 4002.
Definition ROOM_UNLOADED : Z := 4003.
Definition MISSING_TOKEN : Z := 4004.
Definition KICKED : Z := 4005.
Definition ROOM_PASSWORD_REQUIRED : Z := 4006.

Definition LATENCY_PROBE_INTERVAL_MS : Z := 1000.

(** [DirectClient] or [BalancerClient]. *)
Inductive Kind := Direct | Balancer (conn : string).
#[global] Instance Kind_eq : EqDecision Kind.
Proof. solve_decision. Defined.

(** [c_open] is the socket: it is open until its close event. *)
Record Client := MkClient {
  c_kind : Kind;
  c_id : ClientId;
  c_room : string;
  c_token : option AuthToken;
  c_session : option SessionInfo;
  c_joined : bool;
  c_isReconnect : bool;
  c_isAlive : bool;
  c_authTimeout : bool;
  c_lastLatencyReplyAt : Z;
  c_open : bool;
}.
#[global] Instance eta_Client : Eta Client := fun c =>
  MkClient (c_kind c) (c_id c) (c_room c) (c_token c) (c_session c) (c_joined c) (c_isReconnect c)
    (c_isAlive c) (c_authTimeout c) (c_lastLatencyReplyAt c) (c_open c).

Definition getClientInfo (c : Client) : ClientInfo :=
  match c_session c with
  | None => MkClientInfo (c_id c) None None None
  | Some (SessionUser uid) => MkClientInfo (c_id c) None (Some uid) None
  | Some (SessionGuest n) => MkClientInfo (c_id c) (Some n) None None
  end.

(** ** Messages *)

(** A room request as the socket carries it.  Settings come as the object [settings], with
    the grants as tuples; [None] is one the schema refuses for its shape. *)
Inductive WireRequest :=
| WSettings (settings : option (list SettingUpdate * option (list (Role * GrantMask))))
| WOther (request : RoomRequest).

Inductive ClientMessage :=
| CPing (t0 : Q)
| CKickme (reason : option Z)
| CStatus (status : PlayerStatus) (playbackPrepared : option PlaybackPrepared)
| CDiagnostics
| CReq (request : option WireRequest)
| CVoice (joined : bool)
| CSignal (to : ClientId) (signal : string)
| CNotify (usernameChanged : bool).

(** What arrives on a direct client's socket; [DInvalid] does not parse. *)
Inductive data := DInvalid | DAuth (token : AuthToken) | DReauthenticate (token : AuthToken)
                | DMessage (m : ClientMessage).

Inductive request_error :=
| TooManyRequests
| LengthOutOfRange (field : string)
| Refused (e : exn)
| VoiceFailed.

Inductive Message :=
| MState (roomName : string) (state : list (Prop_ * value))
| MPosition (q : Q)
| MNotes (notes : list RoomNote)
| MUsers (l : list RoomUserInfo)
| MYou (id : ClientId)
| MVoice (participants : list ClientId) (ice : list IceServer) (relay : bool)
    (denied : option VoiceDeniedReason)
| MSignal (from : ClientId) (signal : string)
| MPong (t0 : Q)
| MError (e : request_error)
| MEffect (e : Effect)
| MUserRemoved (id : ClientId)
| MAnnouncement (text : string).

(** What leaves the server: to one client, to a client as part of a broadcast to a room, to
    the balancer of such clients, and the closing of a connection. *)
Inductive output :=
| OSend (client : nat) (m : Message)
| OCast (client : nat) (roomName : string) (m : Message)
| ORoom (conn : string) (roomName : string) (m : Message)
| OClose (client : nat) (code : Z)
| OPing (client : nat)
| OTerminate (client : nat).

(** ** The message budget *)

Definition MESSAGE_BUCKET_CAPACITY : Q := 40.
Definition MESSAGE_BUCKET_REFILL_PER_SEC : Q := 10.
Definition CHAT_BUCKET_CAPACITY : Q := 5.
Definition CHAT_BUCKET_REFILL_PER_SEC : Q := 1 # 2.

Record TokenBucket := MkBucket { tokens : Q; updatedAt : Z }.

Definition takeToken (now : Z) (capacity refillPerSec : Q) (b : TokenBucket) : bool * TokenBucket :=
  let elapsedSec := (inject_Z (Z.max 0 (now - updatedAt b)) / 1000)%Q in
  let t := Qmin' capacity (tokens b + elapsedSec * refillPerSec)%Q in
  if Qlt_bool t 1 then (false, MkBucket t now) else (true, MkBucket (t - 1)%Q now).

Definition is_chat (m : ClientMessage) : bool :=
  match m with CReq (Some (WOther (ChatRequest _))) => true | _ => false end.

(** A client's two buckets, the general one and the one for chat. *)
Definition fresh_buckets (now : Z) : TokenBucket * TokenBucket :=
  (MkBucket MESSAGE_BUCKET_CAPACITY now, MkBucket CHAT_BUCKET_CAPACITY now).

Definition consume (now : Z) (m : ClientMessage) (b : TokenBucket * TokenBucket)
    : bool * (TokenBucket * TokenBucket) :=
  let '(ok, general) := takeToken now MESSAGE_BUCKET_CAPACITY MESSAGE_BUCKET_REFILL_PER_SEC b.1 in
  if negb ok then (false, (general, b.2))
  else if is_chat m then
    let '(ok, chat) := takeToken now CHAT_BUCKET_CAPACITY CHAT_BUCKET_REFILL_PER_SEC b.2 in
    (ok, (general, chat))
  else (true, (general, b.2)).

(** ** The state *)

(** What a handler does once the request it made has been processed, and once its voice
    message has gone out. *)
Inductive after_request :=
| AfterMessage
| AfterJoin (obj : nat)
| AfterModified (token : AuthToken) (next : nat).
Inductive after_voice := VReport | VDisconnect.

(** Where a handler waits. *)
Inductive task :=
| KAuth (c : nat) (token : AuthToken)
| KReauth (c : nat) (token : AuthToken)
| KReauthRoom (c : nat) (token : AuthToken) (id : nat)
| KJoinRoom (c : nat) (token : AuthToken) (session : SessionInfo) (id : nat)
| KJoinAccess (c obj : nat)
| KJoinNotes (c obj : nat)
| KJoinVoice (c : nat) (roomName : string) (selection : RelaySelection)
| KRequest (c obj : nat) (token : AuthToken) (request : RoomRequest) (k : after_request)
| KModified (c : nat) (token : AuthToken) (next : nat)
| KSelectRelay (c : nat) (roomName : string) (k : after_voice)
| KVoiceIce (c : nat) (roomName : string) (selection : option RelaySelection) (k : after_voice)
| KVoiceDecided (c : nat) (set : nat) (decision : VoiceJoinDecision)
| KAwaitJoin (c : nat).

(** What I/O answers; a session is looked up in the environment. *)
Inductive answer :=
| ADone
| AGranted (granted : bool)
| ARelay (selection : option RelaySelection)
| AIce (relay : list IceServer)
| AReject.

(** The [Set]s of participants are objects: [voiceSets] is the store of them, a new one goes to
    its end, and [voiceParticipants] keeps references.  A handler that waits may hold a set
    that is in the map no more.
    [admitted] is the model's record of whom [hasRoomAccess] let into which room, and
    [voiceOverlap] that of the most joins of voice that were being decided at a time. *)
Record Server := MkServer {
  mgr : Manager.Manager;
  clients : gmap nat Client;
  nextClient : nat;
  connections : list nat;
  roomJoins : gmap string (list nat);
  pendingRoomJoins : gset nat;
  voiceParticipants : gmap string nat;
  voiceSets : list (list ClientId);
  roomRelayChannels : gmap string RelaySelection;
  messageBuckets : gmap nat (TokenBucket * TokenBucket);
  tasks : list task;
  admitted : list (nat * string);
  voiceOverlap : nat;
  out : list output;
}.
#[global] Instance eta_Server : Eta Server := fun s =>
  MkServer (mgr s) (clients s) (nextClient s) (connections s) (roomJoins s) (pendingRoomJoins s)
    (voiceParticipants s) (voiceSets s) (roomRelayChannels s) (messageBuckets s) (tasks s) (admitted s)
    (voiceOverlap s) (out s).

Definition init : Server := MkServer Manager.init ∅ 0 [] ∅ ∅ ∅ [] ∅ ∅ [] [] 0 [].

Definition emit (o : output) (s : Server) : Server := s <| out ::= fun l => l ++ [o] |>.
Definition send (c : nat) (m : Message) (s : Server) : Server := emit (OSend c m) s.
Definition suspend (t : task) (s : Server) : Server := s <| tasks ::= fun l => l ++ [t] |>.
Definition on_client (c : nat) (f : Client -> Client) (s : Server) : Server := s <| clients ::= alter f c |>.

(** [with_client c s f]: the handlers of a client object. *)
Definition with_client (c : nat) (s : Server) (f : Client -> Server) : Server :=
  match clients s !! c with Some cl => f cl | None => s end.

Definition id_of (s : Server) (c : nat) : option ClientId := c_id <$> clients s !! c.

Definition getClient (s : Server) (id : ClientId) : option nat :=
  List.find (fun c => bool_decide (id_of s c = Some id)) (connections s).

Definition connected (s : Server) (c : nat) : bool := bool_decide (c ∈ connections s).

Definition remove_one (c : nat) (l : list nat) : list nat :=
  match list_find (eq c) l with Some (i, _) => delete i l | None => l end.

(** ** Broadcasting *)

(** The balancers behind which joined clients are. *)
Definition balancers (s : Server) (l : list nat) : list string :=
  fold_left (fun acc c => match clients s !! c with
                          | Some cl => match c_kind cl with Balancer b => set_add b acc | Direct => acc end
                          | None => acc
                          end) l [].

Definition cast_to (roomName : string) (m : Message) (s : Server) (c : nat) : Server :=
  match clients s !! c with
  | Some cl => match c_kind cl with Direct => emit (OCast c roomName m) s | Balancer _ => s end
  | None => s
  end.

Definition broadcast (roomName : string) (m : Message) (s : Server) : Server :=
  match roomJoins s !! roomName with
  | None => s
  | Some l =>
      let s' := fold_left (cast_to roomName m) l s in
      fold_left (fun s b => emit (ORoom b roomName m) s) (balancers s l) s'
  end.

Section Handlers.
Context `{E : Env} `{C : VoiceConf}.

(** ** Voice *)

(** A set object, and the participants of a room; a room that is not in the map has none. *)
Definition voice_set (s : Server) (n : nat) : list ClientId := default [] (voiceSets s !! n).
Definition participants_of (s : Server) (roomName : string) : list ClientId :=
  match voiceParticipants s !! roomName with Some n => voice_set s n | None => [] end.

(** [buildVoiceMessage], when the ICE servers are known; only a relay's are fetched. *)
Definition voice_message (s : Server) (roomName : string) (selection : option RelaySelection)
    (relay : list IceServer) (denied : option VoiceDeniedReason) : Message :=
  let ice := match selection with None => conf_direct_ice | Some _ => conf_direct_ice ++ relay end in
  MVoice (participants_of s roomName) ice
    (match selection with Some _ => existsb hasTurnUrl ice | None => false end) denied.

(** The room's new list goes out: once a relay is chosen, and its credentials are there. *)
Definition announce_voice (c : nat) (roomName : string) (anybody : bool) (k : after_voice) (s : Server)
    : Server :=
  if anybody then
    match roomRelayChannels s !! roomName with
    | Some sel => suspend (KVoiceIce c roomName (Some sel) k) s
    | None => suspend (KSelectRelay c roomName k) s
    end
  else suspend (KVoiceIce c roomName None k) s.

Definition end_voice (roomName : string) (s : Server) : Server :=
  s <| voiceParticipants ::= delete roomName |> <| roomRelayChannels ::= delete roomName |>.

Definition without (id : ClientId) (l : list ClientId) : list ClientId :=
  List.filter (fun x => negb (bool_decide (x = id))) l.

(** [participants.add] and [participants.delete], whatever room the set is of by now. *)
Definition add_to_set (n : nat) (id : ClientId) (s : Server) : Server :=
  if bool_decide (id ∈ voice_set s n) then s else s <| voiceSets ::= alter (fun l => l ++ [id]) n |>.
Definition delete_from_set (n : nat) (id : ClientId) (s : Server) : Server :=
  s <| voiceSets ::= alter (without id) n |>.

Definition otherVoiceRooms (n : nat) (s : Server) : nat :=
  length (List.filter (fun kv : string * nat => negb (bool_decide (kv.2 = n))
                                && negb (bool_decide (voice_set s kv.2 = []))) (map_to_list (voiceParticipants s))).

(** The set a room has in the map; one is made for it when it has none. *)
Definition open_set (roomName : string) (s : Server) : nat * Server :=
  match voiceParticipants s !! roomName with
  | Some n => (n, s)
  | None => let n := length (voiceSets s) in
            (n, s <| voiceSets ::= fun l => l ++ [[]] |> <| voiceParticipants ::= <[roomName := n]> |>)
  end.

(** An empty set ends the voice of the room the name of which the client has by now. *)
Definition end_if_empty (roomName : string) (n : nat) (s : Server) : Server :=
  if bool_decide (voice_set s n = []) then end_voice roomName s else s.

(** The end of [setVoicePresence]. *)
Definition presence_changed (c : nat) (roomName : string) (n : nat) (s : Server) : Server :=
  announce_voice c roomName (negb (bool_decide (voice_set s n = []))) VReport (end_if_empty roomName n s).

Definition is_decision (t : task) : bool := match t with KVoiceDecided _ _ _ => true | _ => false end.

(** The wait for [decideVoiceJoin]. *)
Definition await_decision (c n : nat) (d : VoiceJoinDecision) (s : Server) : Server :=
  let s := suspend (KVoiceDecided c n d) s in
  s <| voiceOverlap ::= Nat.max (length (List.filter is_decision (tasks s))) |>.

(** [setVoicePresence], up to its first await. *)
Definition setVoicePresence (c : nat) (joinedVoice : bool) (s : Server) : Server :=
  with_client c s (fun cl =>
    let roomName := c_room cl in
    if negb isVoiceEnabled || negb (c_joined cl) then
      if joinedVoice then send c (voice_message s roomName None [] (Some Disabled)) s else s
    else
      let '(n, s) := open_set roomName s in
      let participants := voice_set s n in
      if joinedVoice && negb (bool_decide (c_id cl ∈ participants)) then
        await_decision c n (decideVoiceJoin (length participants) (0 <? length participants)%nat
                              (otherVoiceRooms n s)) s
      else
        presence_changed c roomName n (if joinedVoice then s else delete_from_set n (c_id cl) s)).

(** The rest of a join of voice, once it is decided. *)
Definition voice_decided (c n : nat) (decision : VoiceJoinDecision) (s : Server) : Server :=
  with_client c s (fun cl =>
    if negb (allowed decision) then
      let s := end_if_empty (c_room cl) n s in
      send c (voice_message s (c_room cl) None [] (reason decision)) s
    else presence_changed c (c_room cl) n (add_to_set n (c_id cl) s)).

Definition relayVoiceSignal (c : nat) (to : ClientId) (signal : string) (s : Server) : Server :=
  with_client c s (fun cl =>
    let participants := participants_of s (c_room cl) in
    if negb (bool_decide (c_id cl ∈ participants)) || negb (bool_decide (to ∈ participants)) then s
    else match getClient s to with
         | Some target =>
             if bool_decide (c_room <$> clients s !! target = Some (c_room cl))
             then send target (MSignal (c_id cl) signal) s else s
         | None => s
         end).

(** [removeFromVoice], up to its first await, and what the disconnect awaits. *)
Definition removeFromVoice (c : nat) (s : Server) : Server :=
  with_client c s (fun cl =>
    match voiceParticipants s !! c_room cl with
    | Some n =>
        if bool_decide (c_id cl ∈ voice_set s n) then
          let s := delete_from_set n (c_id cl) s in
          announce_voice c (c_room cl) (negb (bool_decide (voice_set s n = []))) VDisconnect
            (end_if_empty (c_room cl) n s)
        else suspend (KAwaitJoin c) s
    | None => suspend (KAwaitJoin c) s
    end).

(** ** Going *)

(** [onClientDisconnect], up to its first await. *)
Definition onClientDisconnect (c : nat) (s : Server) : Server :=
  let s := if connected s c then
             with_client c (s <| connections ::= remove_one c |>) (fun cl =>
               s <| connections ::= remove_one c |> <| roomJoins ::= alter (remove_one c) (c_room cl) |>)
           else s in
  removeFromVoice c s.

(** [kick]: a socket is closed, its close event comes later; a balancer's client is gone at
    once. *)
Definition kick (c : nat) (code : Z) (s : Server) : Server :=
  with_client c s (fun cl =>
    match c_kind cl with
    | Direct => emit (OClose c code) (on_client c (fun cl => cl <| c_authTimeout := false |>) s)
    | Balancer _ => onClientDisconnect c (emit (OClose c code) s)
    end).

(** [for (const client of list) client.kick(code)] over an array that changes meanwhile:
    [fuel] is its length, which never grows. *)
Fixpoint kick_all (list_of : Server -> list nat) (code : Z) (fuel i : nat) (s : Server) : Server :=
  match fuel with
  | O => s
  | S fuel => match list_of s !! i with
              | Some c => kick_all list_of code fuel (S i) (kick c code s)
              | None => s
              end
  end.

(** ** What the rooms publish *)

Definition deliver (roomName : string) (s : Server) (e : Effect) : Server :=
  match e with
  | CommandKick id => match getClient s id with Some c => kick c KICKED s | None => s end
  | _ => broadcast roomName (MEffect e) s
  end.

(** Run a method on a room object, and hand on what it publishes. *)
Definition run_room (obj : nat) (f : Room -> Room) (s : Server) : Server :=
  match Manager.heap (mgr s) !! obj with
  | None => s
  | Some r => fold_left (deliver (name r)) (drop (length (outbox r)) (outbox (f r)))
                (s <| mgr ::= Manager.on_room obj f |>)
  end.

Definition unloadReason (reason : Manager.UnloadReason) : Z :=
  match reason with Manager.Keepalive | Manager.Admin => ROOM_UNLOADED
                  | Manager.Commanded | Manager.Shutdown => AWAY end.

Definition joins_of (roomName : string) (s : Server) : list nat := default [] (roomJoins s !! roomName).

Definition onRoomUnload (roomName : string) (reason : Manager.UnloadReason) (s : Server) : Server :=
  let s := kick_all (joins_of roomName) (unloadReason reason) (length (joins_of roomName s)) 0 s in
  end_voice roomName (s <| roomJoins ::= delete roomName |>).

Definition on_event (s : Server) (e : Manager.event) : Server :=
  match e with Manager.EUnload roomName reason => onRoomUnload roomName reason s | _ => s end.

(** What the objects of the new heap have published since the old. *)
Definition published (old : Manager.Manager) (s : Server) (obj : nat) : Server :=
  match Manager.heap (mgr s) !! obj with
  | Some r => fold_left (deliver (name r))
                (drop (match Manager.heap old !! obj with Some r0 => length (outbox r0) | None => 0 end)
                   (outbox r)) s
  | None => s
  end.

(** A step of the room manager, with what its bus brings. *)
Definition manage (c : Manager.call) (s : Server) : Server :=
  let old := mgr s in
  let m := Manager.run c old in
  let s := fold_left on_event (drop (length (Manager.trace old)) (Manager.trace m)) (s <| mgr := m |>) in
  fold_left (published old) (seq 0 (Manager.nextObject m)) s.

(** The answer to the manager's call [id], if it has returned. *)
Fixpoint returned (id : nat) (l : list Manager.event) : option Manager.result :=
  match l with
  | [] => None
  | Manager.EReturn i r :: l => if (i =? id)%nat then Some r else returned id l
  | _ :: l => returned id l
  end.

(** ** Requests *)

(** [makeRoomRequest], up to its await; [None] when the client has no token, and what is to be
    done at once when the room is not loaded. *)
Definition makeRoomRequest (c : nat) (request : RoomRequest) (k : after_request) (s : Server)
    : option (Server * bool) :=
  match clients s !! c with
  | None => Some (s, true)
  | Some cl =>
      match truthy_string (c_token cl) with
      | None => None
      | Some token =>
          match Manager.find_room (mgr s) (c_room cl) with
          | None => Some (s, true)
          | Some obj => Some (suspend (KRequest c obj token request k) s, false)
          end
      end
  end.

(** ** Joining *)

(** The promise of the join is settled. *)
Definition end_join (c : nat) (s : Server) : Server := s <| pendingRoomJoins ::= fun p => p ∖ {[c]} |>.

(** A join that threw: a client that is still there is kicked. *)
Definition fail_join (c : nat) (s : Server) : Server :=
  end_join c (if connected s c then kick c UNKNOWN s else s).

(** Ask the manager for the client's room, and wait for the answer. *)
Definition ask_room (c : nat) (k : nat -> task) (s : Server) : Server :=
  with_client c s (fun cl =>
    let id := Manager.nextCall (mgr s) in
    suspend (k id) (manage (Manager.GetRoom (c_room cl) false) s)).

(** [room.syncableState()] of the room object. *)
Definition full_state (obj : nat) (s : Server) : list (Prop_ * value) :=
  match Manager.heap (mgr s) !! obj with Some r => syncableState r | None => [] end.

Definition onClientAuth (c : nat) (token : AuthToken) (session : SessionInfo) (s : Server) : Server :=
  let s := ask_room c (KJoinRoom c token session) s in
  s <| pendingRoomJoins ::= fun p => p ∪ {[c]} |>.

Definition finish_join (c obj : nat) (notes : list RoomNote) (s : Server) : Server :=
  match Manager.heap (mgr s) !! obj, id_of s c with
  | Some r, Some id =>
      let s := send c (MNotes notes) s in
      let s := send c (MUsers (users r)) s in
      let s := send c (MYou id) s in
      if isVoiceEnabled then
        match roomRelayChannels s !! name r with
        | Some sel => suspend (KJoinVoice c (name r) sel) s
        | None => end_join c (send c (voice_message s (name r) None [] None) s)
        end
      else end_join c s
  | _, _ => end_join c s
  end.

(** The rest of the join, once the join request has been processed. *)
Definition after_join (c obj : nat) (s : Server) : Server :=
  if negb (connected s c) then end_join c s
  else match Manager.heap (mgr s) !! obj with
       | None => end_join c s
       | Some r =>
           let s := send c (MPosition (realPlaybackPosition r)) s in
           if isTemporary r then finish_join c obj [] s else suspend (KJoinNotes c obj) s
       end.

(** [hasRoomAccess] has let the client in. *)
Definition enter (c obj : nat) (s : Server) : Server :=
  match Manager.heap (mgr s) !! obj with
  | None => end_join c s
  | Some r =>
      let s := s <| admitted ::= fun l => l ++ [(c, name r)] |> in
      let s := on_client c (fun cl => cl <| c_room := name r |>) s in
      with_client c s (fun cl =>
        let s := run_room obj (holdEmptyPlaybackForJoin (c_isReconnect cl)) s in
        let s := send c (MState (name r) (full_state obj s)) s in
        let s := s <| roomJoins ::= <[name r := joins_of (name r) s ++ [c]]> |> in
        match makeRoomRequest c (JoinRequest (getClientInfo cl) (c_isReconnect cl)) (AfterJoin obj) s with
        | None => after_join c obj s
        | Some (s, done) => if done then after_join c obj s else s
        end)
  end.

(** [hasRoomAccess], where it answers without Redis. *)
Definition access_now (r : Room) (token : AuthToken) (session : SessionInfo) : option bool :=
  match truthy_string (passwordHash r) with
  | None => Some true
  | Some _ =>
      if match session, owner r with SessionUser uid, Some o => user_id o =? uid | _, _ => false end
      then Some true
      else if bool_decide (token = ""%string) then Some false else None
  end.

Definition refuse (c : nat) (s : Server) : Server := end_join c (kick c ROOM_PASSWORD_REQUIRED s).

Definition join_room (c : nat) (token : AuthToken) (session : SessionInfo) (res : Manager.result)
    (s : Server) : Server :=
  match res with
  | Manager.Thrown _ | Manager.Finished => fail_join c s
  | Manager.RoomErr =>
      if connected s c then end_join c (kick c ROOM_NOT_FOUND s) else end_join c s
  | Manager.RoomOk obj =>
      if negb (connected s c) then end_join c s
      else match Manager.heap (mgr s) !! obj with
           | None => end_join c s
           | Some r =>
               match access_now r token session with
               | Some true => enter c obj s
               | Some false => refuse c s
               | None => suspend (KJoinAccess c obj) s
               end
           end
  end.

(** ** Authentication *)

Definition valid_token (token : AuthToken) : bool :=
  negb (bool_decide (token = ""%string)) && (String.length token <=? 1024)%nat.

Definition auth (c : nat) (token : AuthToken) (s : Server) : Server :=
  with_client c s (fun cl =>
    if negb (valid_token token) || match c_token cl with Some _ => true | None => false end
    then kick c MISSING_TOKEN s
    else suspend (KAuth c token) (on_client c (fun cl => cl <| c_token := Some token |>) s)).

Definition after_auth (c : nat) (token : AuthToken) (s : Server) : Server :=
  match env_getSessionInfo token with
  | inl _ => kick c MISSING_TOKEN s
  | inr session =>
      let s := on_client c (fun cl => cl <| c_session := Some session |> <| c_joined := true |>) s in
      with_client c s (fun cl => onClientAuth c (default ""%string (c_token cl)) session s)
  end.

Definition reauthenticate (c : nat) (token : AuthToken) (s : Server) : Server :=
  if valid_token token then suspend (KReauth c token) s else s.

(** The new identity is in place; [onClientReauth] asks for the room. *)
Definition after_reauth (c : nat) (token : AuthToken) (s : Server) : Server :=
  match env_getSessionInfo token with
  | inl _ => s
  | inr session =>
      let s := on_client c (fun cl => cl <| c_token := Some token |> <| c_session := Some session |>) s in
      ask_room c (KReauthRoom c token) s
  end.

(** What [onClientReauth] does to the room: the member has the new token and the new
    identity, if the account is there. *)
Definition reauth_user (id : ClientId) (token : AuthToken) (info : ClientInfo) (r : Room) : Room :=
  match getUser r id with
  | None => r
  | Some u =>
      let '(_, u) := updateInfo info (u <| ru_token := token |>) in
      let r := set_user id u r in
      match getUserInfo r id with Some i => syncUser i r | None => r end
  end.

Definition reauth_room (c : nat) (token : AuthToken) (res : Manager.result) (s : Server) : Server :=
  match res with
  | Manager.RoomOk obj =>
      with_client c s (fun cl =>
        match Manager.heap (mgr s) !! obj with
        | Some r =>
            match getUser r (c_id cl) with
            | Some _ =>
                let s := run_room obj (reauth_user (c_id cl) token (getClientInfo cl)) s in
                send c (MState (name r) (full_state obj s)) s
            | None => s
            end
        | None => s
        end)
  | _ => s
  end.

(** ** Messages of clients *)

Definition consumeMessageBudget (c : nat) (m : ClientMessage) (s : Server) : bool * Server :=
  let '(ok, b) := consume now m (default (fresh_buckets now) (messageBuckets s !! c)) in
  (ok, s <| messageBuckets ::= <[c := b]> |>).

(** [CLIENT_ROOM_REQUEST_TYPES]. *)
Definition client_request_type (t : RequestType) : bool :=
  match t with TJoin | TLeave | TUpdateUser => false | _ => true end.

Definition wire_type (w : WireRequest) : RequestType :=
  match w with WSettings _ => TApplySettings | WOther r => request_type r end.

Definition newline (c : ascii) : bool := let n := nat_of_ascii c in ((n =? 10) || (n =? 13))%nat.
Definition has_newline (s : string) : bool := existsb newline (String.list_ascii_of_string s).

(** The lengths [RoomSettingsSchema] checks; a title or description that is too long is
    reported by name. *)
Definition settings_schema (l : list SettingUpdate) : option request_error :=
  let bad (p : SettingUpdate -> bool) := existsb p l in
  if bad (fun u => match u with STitle t => (254 <? String.length t)%nat | _ => false end)
  then Some (LengthOutOfRange "title")
  else if bad (fun u => match u with STitle t => has_newline t | _ => false end)
  then Some (Refused (BadApiArgument "settings"))
  else if bad (fun u => match u with SDescription t => (5000 <? String.length t)%nat | _ => false end)
  then Some (LengthOutOfRange "description")
  else if bad (fun u => match u with SGrants _ => true | _ => false end)
  then Some (Refused (BadApiArgument "settings"))
  else None.

(** The request a wire request stands for, checked. *)
Definition checked_request (w : WireRequest) : request_error + RoomRequest :=
  match w with
  | WSettings None | WOther (ApplySettingsRequest _) => inl (Refused (BadApiArgument "settings"))
  | WSettings (Some (l, g)) =>
      match settings_schema l with
      | Some e => inl e
      | None =>
          match g with
          | None => inr (ApplySettingsRequest l)
          | Some entries => match Grants.construct entries with
                            | inl e => inl (Refused e)
                            | inr g => inr (ApplySettingsRequest (l ++ [SGrants g]))
                            end
          end
      end
  | WOther (ChatRequest (Typed text)) =>
      if (String.length text =? 0)%nat || (MAX_CHAT_MESSAGE_LENGTH <? String.length text)%nat
      then inl (LengthOutOfRange "chat message") else inr (ChatRequest (Typed text))
  | WOther (ChatRequest IllTyped) => inl (LengthOutOfRange "chat message")
  | WOther r => inr r
  end.

(** A request of a client: without a token it is kicked. *)
Definition client_request (c : nat) (request : RoomRequest) (s : Server) : Server :=
  match makeRoomRequest c request AfterMessage s with
  | None => kick c MISSING_TOKEN s
  | Some (s, _) => s
  end.

(** [onUserModified]: the next connection with that token, from index [next] on. *)
Definition user_modified (token : AuthToken) (next : nat) (s : Server) : Server :=
  let same c := bool_decide ((clients s !! c ≫= c_token) = Some token) in
  match list_find (fun c => same c = true) (drop next (connections s)) with
  | Some (i, c) => suspend (KModified c token (S (next + i))) s
  | None => s
  end.

Definition process_message (c : nat) (m : ClientMessage) (s : Server) : Server :=
  with_client c s (fun cl =>
    match m with
    | CPing t0 => send c (MPong t0) s
    | CKickme reason => kick c (default UNKNOWN reason) s
    | CStatus status prepared =>
        client_request c (UpdateUser (MkClientInfo (c_id cl) None None (Some status)) prepared) s
    | CDiagnostics => client_request c (UpdateUser (MkClientInfo (c_id cl) None None None) None) s
    | CReq None => kick c UNKNOWN s
    | CReq (Some w) =>
        if negb (client_request_type (wire_type w)) then kick c UNKNOWN s
        else match checked_request w with
             | inl e => send c (MError e) s
             | inr request => client_request c request s
             end
    | CVoice joined => setVoicePresence c joined s
    | CSignal to signal => relayVoiceSignal c to signal s
    | CNotify changed =>
        if changed then match c_token cl with Some t => user_modified t 0 s | None => s end else s
    end).

Definition onClientMessage (c : nat) (m : ClientMessage) (s : Server) : Server :=
  let '(ok, s) := consumeMessageBudget c m s in
  if ok then process_message c m s else send c (MError TooManyRequests) s.

(** [onData] of a direct client. *)
Definition onData (c : nat) (d : data) (s : Server) : Server :=
  with_client c s (fun cl =>
    match d with
    | DInvalid => kick c UNKNOWN s
    | DAuth token => auth c token s
    | DReauthenticate token => reauthenticate c token s
    | DMessage m =>
        if negb (c_joined cl) then kick c MISSING_TOKEN s
        else match m with
             | CPing t0 =>
                 if now - c_lastLatencyReplyAt cl <? LATENCY_PROBE_INTERVAL_MS then s
                 else send c (MPong t0) (on_client c (fun cl => cl <| c_lastLatencyReplyAt := now |>) s)
             | _ => onClientMessage c m s
             end
    end).

(** ** Leaving *)

(** The disconnect after its awaits: the member leaves its room. *)
Definition leave (c : nat) (s : Server) : Server :=
  with_client c s (fun cl =>
    if negb (c_joined cl) then s
    else match Manager.find_room (mgr s) (c_room cl) with
         | None => s
         | Some obj =>
             match Manager.heap (mgr s) !! obj with
             | Some r =>
                 match getUser r (c_id cl) with
                 | None => s
                 | Some _ =>
                     broadcast (name r) (MUserRemoved (c_id cl))
                       (run_room obj (fun r => (processRequestUnsafe LeaveRequest (c_id cl) r).2) s)
                 end
             | None => s
             end
         end).

(** ** Resuming *)

(** A request is processed on the room it was made for. *)
Definition perform_request (c obj : nat) (token : AuthToken) (request : RoomRequest) (k : after_request)
    (s : Server) : Server :=
  match Manager.heap (mgr s) !! obj, clients s !! c with
  | Some r, Some cl =>
      let act := processUnauthorizedRequest request token (Some (c_id cl)) in
      let result := (act r).1 in
      let s := run_room obj (fun r => (act r).2) s in
      match k with
      | AfterMessage => match result with inl e => send c (MError (Refused e)) s | inr _ => s end
      | AfterJoin obj => after_join c obj s
      | AfterModified t next => match result with inl _ => s | inr _ => user_modified t next s end
      end
  | _, _ => s
  end.

(** A step of [onUserModified]: the session is read again, and the room told. *)
Definition modified_step (c : nat) (token : AuthToken) (next : nat) (s : Server) : Server :=
  match env_getSessionInfo token with
  | inl _ => s
  | inr session =>
      let s := on_client c (fun cl => cl <| c_session := Some session |>) s in
      with_client c s (fun cl =>
        match makeRoomRequest c (UpdateUser (getClientInfo cl) None) (AfterModified token next) s with
        | None => s
        | Some (s, done) => if done then user_modified token next s else s
        end)
  end.

(** After the voice message of a handler. *)
Definition after_voice_sent (c : nat) (k : after_voice) (failed : bool) (s : Server) : Server :=
  match k with
  | VReport => if failed then send c (MError VoiceFailed) s else s
  | VDisconnect => suspend (KAwaitJoin c) s
  end.

Definition voice_sent (c : nat) (roomName : string) (selection : option RelaySelection)
    (relay : list IceServer) (k : after_voice) (s : Server) : Server :=
  after_voice_sent c k false (broadcast roomName (voice_message s roomName selection relay None) s).

(** [roomRelayChannels.set], and the message to the room the client is in by now. *)
Definition relay_selected (c : nat) (roomName : string) (selection : option RelaySelection)
    (k : after_voice) (s : Server) : Server :=
  let s := match selection with
           | Some sel => s <| roomRelayChannels ::= <[roomName := sel]> |>
           | None => s
           end in
  with_client c s (fun cl => suspend (KVoiceIce c (c_room cl) selection k) s).

(** A waiting handler goes on with an answer; [None]: it cannot go on yet. *)
Definition resume (t : task) (a : answer) (s : Server) : option Server :=
  match t with
  | KAuth c token => Some (after_auth c token s)
  | KReauth c token => Some (after_reauth c token s)
  | KReauthRoom c token id => (fun res => reauth_room c token res s) <$> returned id (Manager.trace (mgr s))
  | KJoinRoom c token session id =>
      (fun res => join_room c token session res s) <$> returned id (Manager.trace (mgr s))
  | KJoinAccess c obj =>
      match a with
      | AGranted true => Some (enter c obj s)
      | AGranted false => Some (refuse c s)
      | AReject => Some (fail_join c s)
      | _ => None
      end
  | KJoinNotes c obj =>
      match a with
      | ADone => (fun r => finish_join c obj (db_notes r) s) <$> Manager.heap (mgr s) !! obj
      | AReject => Some (fail_join c s)
      | _ => None
      end
  | KJoinVoice c roomName sel =>
      match a with
      | AIce l => Some (end_join c (send c (voice_message s roomName (Some sel) l None) s))
      | AReject => Some (fail_join c s)
      | _ => None
      end
  | KRequest c obj token request k => Some (perform_request c obj token request k s)
  | KModified c token next => Some (modified_step c token next s)
  | KSelectRelay c roomName k =>
      match a with
      | ARelay sel => Some (relay_selected c roomName sel k s)
      | AReject => Some (after_voice_sent c k true s)
      | _ => None
      end
  | KVoiceIce c roomName sel k =>
      match a with
      | AIce l => Some (voice_sent c roomName sel l k s)
      | AReject => Some (after_voice_sent c k true s)
      | _ => None
      end
  | KVoiceDecided c n decision => Some (voice_decided c n decision s)
  | KAwaitJoin c => if bool_decide (c ∈ pendingRoomJoins s) then None else Some (leave c s)
  end.

(** ** What happens to a server *)

Inductive input :=
| IConnect (id : ClientId) (roomName : string) (reconnect : bool)
| IData (c : nat) (d : data)
| IPong (c : nat)
| IAuthTimeout (c : nat)
| IClose (c : nat)
| IBalancerJoin (conn : string) (id : ClientId) (roomName : string) (token : AuthToken)
| IBalancerLeave (id : ClientId)
| IBalancerMessage (id : ClientId) (m : ClientMessage)
| IBalancerGone (conn : string)
| IManage (c : Manager.call)
| IAnnounce (text : string)
| IUserModified (token : AuthToken)
| ISweepDead
| IShutdown
| IResume (i : nat) (a : answer).

Definition new_client (kind : Kind) (id : ClientId) (roomName : string) (reconnect : bool) (s : Server) : Server :=
  s <| clients ::= <[nextClient s := MkClient kind id roomName None None false reconnect true
                       (bool_decide (kind = Direct)) 0 true]> |>
    <| connections ::= fun l => l ++ [nextClient s] |> <| nextClient ::= S |>.

Definition is_balancer (s : Server) (c : nat) : bool :=
  match clients s !! c with Some cl => negb (bool_decide (c_kind cl = Direct)) | None => false end.

Definition behind (conn : string) (s : Server) (c : nat) : bool :=
  bool_decide (c_kind <$> clients s !! c = Some (Balancer conn)).

Definition sweep_client (s : Server) (c : nat) : Server :=
  with_client c s (fun cl =>
    match c_kind cl with
    | Direct => if c_isAlive cl then emit (OPing c) (on_client c (fun cl => cl <| c_isAlive := false |>) s)
                else emit (OTerminate c) s
    | Balancer _ => s
    end).

Definition run (i : input) (s : Server) : Server :=
  match i with
  | IConnect id roomName reconnect => new_client Direct id roomName reconnect s
  | IData c d => with_client c s (fun cl => if c_open cl then onData c d s else s)
  | IPong c => on_client c (fun cl => cl <| c_isAlive := true |>) s
  | IAuthTimeout c =>
      with_client c s (fun cl => if c_authTimeout cl && negb (c_joined cl) then kick c MISSING_TOKEN s else s)
  | IClose c =>
      with_client c s (fun cl =>
        if c_open cl && bool_decide (c_kind cl = Direct) then
          onClientDisconnect c (on_client c (fun cl => cl <| c_open := false |> <| c_authTimeout := false |>) s)
        else s)
  | IBalancerJoin conn id roomName token =>
      auth (nextClient s) token (new_client (Balancer conn) id roomName false s)
  | IBalancerLeave id =>
      match getClient s id with
      | Some c => if is_balancer s c then onClientDisconnect c s else s
      | None => s
      end
  | IBalancerMessage id m =>
      match getClient s id with
      | Some c => if is_balancer s c then onClientMessage c m s else s
      | None => s
      end
  | IBalancerGone conn =>
      fold_left (fun s c => onClientDisconnect c s) (List.filter (behind conn s) (connections s)) s
  | IManage c => manage c s
  | IAnnounce text => fold_left (fun s c => send c (MAnnouncement text) s) (connections s) s
  | IUserModified token => user_modified token 0 s
  | ISweepDead => fold_left sweep_client (connections s) s
  | IShutdown => kick_all connections AWAY (length (connections s)) 0 s
  | IResume i a =>
      match tasks s !! i with
      | Some t => default s (resume t a (s <| tasks ::= delete i |>))
      | None => s
      end
  end.

End Handlers.
End Clients.
