(* ===== verification/RoomManagerMembers.v ===== *)
(** * RoomManagerMembers: what the room manager does to the rooms it holds

    Whatever a step of the manager does, a room object keeps its name, nobody enters it, and
    an object that comes into the array is one the manager made itself. *)

From S2P Require Import Prelude Types Permissions VideoQueue Subtitles RoomModel RoomPlayback.
From S2P Require Import RoomRequests RoomLifecycle RoomInvariants RoomReach RoomMembers RoomStorage.
From S2P Require Import RoomManager RoomManagerFacts.

Import Manager.

(** Keeps the name, and adds nobody. *)
Definition quiet_method (f : Room -> Room) : Prop :=
  forall r, identity (f r) = identity r /\ member_ids (f r) `sublist_of` member_ids r.

(** An object a creation has in hand in [m0], or one younger than [m0]. *)
Definition made (m0 : Manager) (obj : nat) : Prop :=
  obj ∈ omap creating (pending m0) \/ (nextObject m0 <= obj)%nat.

(** [m] comes after [m0]. *)
Record ext (m0 m : Manager) : Prop := {
  e_old : forall obj r, heap m0 !! obj = Some r -> exists r', heap m !! obj = Some r' /\
    identity r' = identity r /\ member_ids r' `sublist_of` member_ids r;
  e_new : forall obj r', heap m0 !! obj = None -> heap m !! obj = Some r' -> member_ids r' = [];
  e_fresh : forall obj r, heap m !! obj = Some r -> (obj < nextObject m)%nat;
  e_next : (nextObject m0 <= nextObject m)%nat;
  e_rooms : forall obj, obj ∈ rooms m -> obj ∈ rooms m0 \/ made m0 obj;
  e_creating : forall k obj, k ∈ pending m -> creating k = Some obj -> made m0 obj;
}.

Section Methods.
Context `{E : Env} {LL : LodashLaws env_lodash}.

Lemma quiet_update : quiet_method update.
Proof. intros r. split; [apply safe_update|apply members_update]. Qed.
Lemma quiet_sync : quiet_method (fun r => (sync r).2).
Proof. intros r. split; [apply safe_sync|apply members_sync]. Qed.
Lemma quiet_unload : quiet_method (fun r => (onBeforeUnload r).2).
Proof. intros r. split; [apply safe_unload|apply members_unload]. Qed.
Lemma quiet_setPasswordHash h : quiet_method (setPasswordHash h).
Proof. by intros r. Qed.
Lemma quiet_perform s :
  match s with StepRequest req _ => is_join req = false | _ => True end -> quiet_method (perform s).
Proof. intros Hs r. split; [apply safe_perform|by apply members_step]. Qed.

(** Nobody is in a room that was just made. *)
Lemma constructed_members o : member_ids (construct_room o) = [].
Proof.
  unfold construct_room. cbv zeta.
  assert (Hu : forall r, member_ids (upgrade_permissions o r) = member_ids r)
    by (intros r; unfold upgrade_permissions; case_match; reflexivity).
  assert (Hp : forall v r, member_ids (set_prevQueue v r) = member_ids r)
    by (intros; apply members_view, aux_set_prevQueue).
  assert (Hr : forall r, member_ids (restore_prev_queue r) = member_ids r).
  { intros r. unfold restore_prev_queue. cbv zeta. repeat case_match; try reflexivity.
    match goal with |- member_ids ((set_prevQueue None ?x) <| restoredFromStorage := _ |>) = _ =>
      transitivity (member_ids (set_prevQueue None x)); [reflexivity|] end.
    rewrite Hp. reflexivity. }
  rewrite Hu, Hr. case_match; [rewrite Hp|]; reflexivity.
Qed.
End Methods.

Section Moves.
Implicit Types (m : Manager).

Lemma ext_refl m : (forall obj r, heap m !! obj = Some r -> (obj < nextObject m)%nat) -> ext m m.
Proof.
  intros H. split; try done.
  - intros obj r Hr. by exists r.
  - by intros obj r' ->.
  - by left.
  - intros k obj Hk Hc. left. apply list_elem_of_omap. by exists k.
Qed.

Lemma ext_same m0 m m' :
  heap m' = heap m -> rooms m' = rooms m -> nextObject m' = nextObject m -> pending m' = pending m ->
  ext m0 m -> ext m0 m'.
Proof. intros H1 H2 H3 H4 []. split; rewrite ?H1, ?H2, ?H3, ?H4; done. Qed.

Lemma ext_take i m : ext m m -> ext m (m <| pending ::= delete i |>).
Proof.
  intros [A B C D F G]. split; try done. intros k obj Hk Hc. apply (G k); [|done].
  eapply elem_of_sublist; [exact Hk|]. apply sublist_delete.
Qed.

Lemma ext_on_room m0 m obj f : quiet_method f -> ext m0 m -> ext m0 (on_room obj f m).
Proof.
  intros Hf [A B C D F G].
  assert (Hh : forall x r', heap (on_room obj f m) !! x = Some r' ->
    exists r, heap m !! x = Some r /\ identity r' = identity r /\ member_ids r' `sublist_of` member_ids r).
  { intros x r' Hx. change (heap (on_room obj f m)) with (alter f obj (heap m)) in Hx.
    apply lookup_alter_Some in Hx as [(<- & r & Hr & ->)|[_ Hx]].
    - exists r. split; [done|apply Hf].
    - by exists r'. }
  split; try done.
  - intros x r Hx. destruct (A x r Hx) as (r1 & H1 & Hi & Hs).
    assert (Hx' : is_Some (heap (on_room obj f m) !! x))
      by (change (heap (on_room obj f m)) with (alter f obj (heap m)); apply lookup_alter_is_Some; by eexists).
    destruct Hx' as [r2 H2]. exists r2. destruct (Hh x r2 H2) as (r3 & H3 & Hi3 & Hs3).
    assert (r3 = r1) as -> by congruence. split_and!; [done|congruence|by etransitivity].
  - intros x r' Hx Hr'. destruct (Hh x r' Hr') as (r1 & H1 & _ & Hs). rewrite (B x r1 Hx H1) in Hs.
    by apply sublist_nil_r.
  - intros x r' Hr'. destruct (Hh x r' Hr') as (r1 & H1 & _). by apply (C x r1).
Qed.

Lemma ext_suspend m0 m k :
  (forall obj, creating k = Some obj -> made m0 obj) -> ext m0 m -> ext m0 (suspend k m).
Proof.
  intros Hk [A B C D F G]. split; try done.
  intros k' obj [Hin| ->%list_elem_of_singleton]%elem_of_app; [by apply G|by apply Hk].
Qed.

Lemma ext_new_room m0 m r : member_ids r = [] -> ext m0 m -> ext m0 (new_room r m).2.
Proof.
  intros Hr [A B C D F G]. split; try done.
  - intros x r0 Hx. destruct (A x r0 Hx) as (r1 & H1 & H2). exists r1. split; [|done].
    change (heap (new_room r m).2) with (<[nextObject m := r]> (heap m)). rewrite lookup_insert_ne; [done|]. intros <-. specialize (C _ _ H1). lia.
  - intros x r' Hx. change (heap (new_room r m).2) with (<[nextObject m := r]> (heap m)).
    rewrite lookup_insert_Some. intros [[<- <-]|[_ H1]]; [done|by eapply B].
  - intros x r'. change (heap (new_room r m).2) with (<[nextObject m := r]> (heap m)).
    change (nextObject (new_room r m).2) with (S (nextObject m)). rewrite lookup_insert_Some. intros [[<- <-]|[_ H1]]; [lia|].
    specialize (C _ _ H1). lia.
  - cbn. lia.
Qed.

Lemma made_next m0 m : ext m0 m -> made m0 (nextObject m).
Proof. intros H. right. apply (e_next _ _ H). Qed.

Lemma ext_rooms m0 m l :
  (forall obj, obj ∈ l -> obj ∈ rooms m \/ made m0 obj) -> ext m0 m -> ext m0 (m <| rooms := l |>).
Proof. intros Hl [A B C D F G]. split; try done. intros obj [Hin|Hm]%Hl; [by apply F|by right]. Qed.
End Moves.

Section Pieces.
Context `{E : Env} {LL : LodashLaws env_lodash}.
Implicit Types (m : Manager) (t : caller).

Lemma ext_emit m0 e m : ext m0 m -> ext m0 (emit e m).
Proof. by apply ext_same. Qed.

Lemma ext_sweep_next m0 rest m : ext m0 m -> ext m0 (sweep_next rest m).
Proof.
  intros Hm. destruct rest; [by apply (ext_same _ m)|]. cbn. apply ext_suspend; [done|].
  apply ext_on_room; [apply quiet_update|done].
Qed.

Lemma ext_finish m0 t r m : ext m0 m -> ext m0 (finish t r m).
Proof. destruct t; [by apply ext_emit|by apply ext_sweep_next]. Qed.

Lemma ext_addRoom m0 t obj r m : made m0 obj -> ext m0 m -> ext m0 (addRoom t obj r m).
Proof.
  intros Ho Hm. unfold addRoom. apply ext_suspend; [done|].
  apply (ext_rooms m0 m (rooms m ++ [obj])); [|done].
  intros x [Hx| ->%list_elem_of_singleton]%elem_of_app; [by left|by right].
Qed.

Lemma ext_finish_create m0 t obj m : made m0 obj -> ext m0 m -> ext m0 (finish_create t obj m).
Proof.
  intros Ho Hm. apply ext_suspend; [by intros x [= <-]|]. apply ext_on_room; [apply quiet_update|done].
Qed.

Lemma ext_hold m0 k obj m : creating k = Some obj -> made m0 obj -> ext m0 m -> ext m0 (suspend k m).
Proof. intros Hk Ho. apply ext_suspend. intros x Hx. congruence. Qed.

Lemma ext_create_sync m0 t obj m : made m0 obj -> ext m0 m -> ext m0 (create_sync t obj m).
Proof.
  intros Ho Hm. unfold create_sync. case_match; [|done]. eapply ext_hold; [done|exact Ho|].
  apply ext_on_room; [apply quiet_sync|done].
Qed.

Lemma ext_create_password m0 t obj password m : made m0 obj -> ext m0 m -> ext m0 (create_password t obj password m).
Proof.
  intros Ho Hm. unfold create_password. repeat case_match; try by apply ext_finish_create.
  by eapply ext_hold.
Qed.

Lemma ext_create_construct m0 t o password m : ext m0 m -> ext m0 (create_construct t o password m).
Proof.
  intros Hm. unfold create_construct.
  pose proof (ext_new_room m0 m (construct_room o) (constructed_members o) Hm) as Hn. cbn [new_room] in *.
  pose proof (made_next m0 m Hm) as Ho.
  case_match; [by apply ext_create_password|by eapply ext_hold].
Qed.

Lemma ext_after_hash m0 t obj hash m : made m0 obj -> ext m0 m -> ext m0 (after_hash t obj hash m).
Proof.
  intros Ho Hm. unfold after_hash. repeat case_match; [|by eapply ext_hold|done].
  apply ext_finish_create; [done|]. apply ext_on_room; [apply quiet_setPasswordHash|done].
Qed.

Lemma ext_after_store m0 t obj hash updated m :
  made m0 obj -> ext m0 m -> ext m0 (after_store_password t obj hash updated m).
Proof.
  intros Ho Hm. unfold after_store_password. case_match; [|by apply ext_finish].
  apply ext_finish_create; [done|]. apply ext_on_room; [apply quiet_setPasswordHash|done].
Qed.

Lemma ext_load m0 t r res m :
  member_ids r = [] -> ext m0 m -> ext m0 (addRoom t (nextObject m) res (new_room r m).2).
Proof. intros Hr Hm. apply ext_addRoom; [by apply made_next|by apply ext_new_room]. Qed.

Lemma ext_load_state m0 t state m : ext m0 m -> ext m0 (load_state t state m).
Proof. apply (ext_load m0 t (construct_room state)), constructed_members. Qed.

Lemma ext_after_redis_get m0 t n s m : ext m0 m -> ext m0 (after_redis_get t n s m).
Proof.
  intros Hm. unfold after_redis_get. cbv zeta.
  repeat case_match; solve [by apply ext_suspend|by apply ext_load_state].
Qed.

Lemma ext_after_db m0 t opts m : ext m0 m -> ext m0 (after_db t opts m).
Proof.
  intros Hm. unfold after_db. destruct opts as [o|]; [|by apply ext_finish].
  apply (ext_load m0 t (restoreFromStorage (construct_room o))); [|done].
  apply (constructed_members o).
Qed.

Lemma ext_unload_rest m0 t obj reason preserve m : ext m0 m -> ext m0 (unload_rest t obj reason preserve m).
Proof.
  intros Hm. unfold unload_rest. destruct (indexOf _ _) as [idx|]; [|by apply ext_finish]. cbv zeta.
  assert (H1 : ext m0 (m <| rooms ::= delete idx |>)).
  { apply (ext_rooms m0 m (delete idx (rooms m))); [|done]. intros x Hx. left.
    eapply elem_of_sublist; [exact Hx|apply sublist_delete]. }
  case_match; [by apply ext_finish, ext_emit|by apply ext_suspend].
Qed.

Lemma ext_unloadRoom m0 t target reason preserve m : ext m0 m -> ext m0 (unloadRoom t target reason preserve m).
Proof.
  intros Hm. unfold unloadRoom. cbv zeta. destruct (resolve target m); [|by apply ext_finish].
  case_decide; [by apply ext_unload_rest|]. case_match; [|done].
  apply ext_suspend; [done|]. apply ext_on_room; [apply quiet_unload|done].
Qed.

Lemma ext_sweep_stale m0 obj rest m : ext m0 m -> ext m0 (sweep_stale obj rest m).
Proof. intros Hm. unfold sweep_stale. repeat case_match; [by apply ext_unloadRoom|by apply ext_sweep_next..]. Qed.

Lemma ext_sweep_sync m0 obj rest failed m : ext m0 m -> ext m0 (sweep_sync obj rest failed m).
Proof.
  intros Hm. unfold sweep_sync. case_match; [by apply ext_sweep_stale|].
  apply ext_suspend; [done|]. apply ext_on_room; [apply quiet_sync|done].
Qed.

Lemma ext_resume m0 k a m :
  (forall obj, creating k = Some obj -> made m0 obj) -> ext m0 m -> ext m0 (resume k a m).
Proof.
  intros Hk Hm. assert (Hback : ext m0 (suspend k m)) by by apply ext_suspend.
  destruct k; cbn [creating] in Hk; try (specialize (Hk _ eq_refl)).
  17: by apply ext_sweep_sync.
  17: by apply ext_sweep_stale.
  all: destruct a; cbn [resume]; try exact Hback; try (by apply ext_finish); try (by apply ext_suspend);
    try (by apply ext_finish, ext_emit);
    try (case_match; first [by apply ext_finish|by apply ext_unload_rest|by apply ext_suspend]; fail).
  - case_match; [by apply ext_finish|by apply ext_create_construct].
  - case_match; [by apply ext_create_password|by apply ext_finish].
  - case_match; [by apply ext_after_hash|exact Hback].
  - by apply ext_after_store.
  - by apply ext_create_sync.
  - case_match; [by apply ext_finish|by apply ext_addRoom].
  - unfold after_incr. cbv zeta. case_match; [by apply ext_suspend; [|apply (ext_same _ m)]|].
    apply ext_finish, ext_emit. by apply (ext_same _ m).
  - by apply ext_after_redis_get.
  - by apply ext_load_state.
  - by apply ext_after_db.
Qed.

Lemma ext_unload_all m0 names reason preserve m : ext m0 m -> ext m0 (unload_all names reason preserve m).
Proof.
  unfold unload_all. revert m. induction names as [|x names IH]; intros m Hm; [exact Hm|].
  cbn [fold_left fresh_call]. apply IH, ext_unloadRoom. by apply (ext_same _ m).
Qed.

(** The steps that let nobody into a room. *)
Definition adds_nobody (c : call) : bool :=
  match c with RoomActs _ (StepRequest req _) => negb (is_join req) | _ => true end.

Lemma ext_run c m : adds_nobody c = true -> ext m m -> ext m (run c m).
Proof.
  intros Hc Hm.
  assert (Hf : ext m (m <| nextCall ::= S |>)) by by apply (ext_same _ m).
  destruct c; cbn [run fresh_call].
  - by apply (ext_same _ m).
  - case_match; [|done]. unfold runUpdate. case_match; [done|]. apply ext_sweep_next. by apply (ext_same _ m).
  - unfold createRoom. case_match; [by apply ext_finish|by apply ext_suspend].
  - unfold getRoom. repeat case_match; [by apply ext_finish..|by apply ext_suspend].
  - by apply ext_unloadRoom.
  - unfold shutdown. cbv zeta. apply ext_unload_all. by apply (ext_same _ m).
  - unfold unloadAllRooms. by apply ext_unload_all.
  - apply ext_rooms; [by intros ? ?%not_elem_of_nil|done].
  - apply ext_on_room; [|done]. apply quiet_perform. destruct s; try done. cbn in Hc. by apply negb_true_iff in Hc.
  - destruct (pending m !! i) as [k|] eqn:Hi; [|done]. apply ext_resume; [|by apply ext_take].
    intros obj Hk. apply (e_creating _ _ Hm k); [|done]. by eapply list_elem_of_lookup_2.
Qed.
End Pieces.
