(* ===== verification/ClientManagerFacts.v ===== *)
(** * ClientManagerFacts: the invariant of a server

    Every handler is followed from the moment its task is resumed to the moment it suspends
    or ends; meanwhile the task is held, and the invariant counts it with those that wait. *)

From S2P Require Import Prelude Types Permissions VideoQueue RoomModel RoomPlayback RoomRequests.
From S2P Require Import RoomLifecycle RoomInvariants RoomSync RoomReach RoomMembers RoomManager.
From S2P Require Import RoomManagerFacts RoomManagerTheorems RoomManagerMembers Voice ClientManager.

Import Clients Voice.

(** ** Stages of a join and of a disconnect *)

(** The client a task brings into its room, from the authentication on. *)
Definition joiner (t : task) : option nat :=
  match t with
  | KAuth c _ | KJoinRoom c _ _ _ | KJoinAccess c _ | KRequest c _ _ _ (AfterJoin _) | KJoinNotes c _
  | KJoinVoice c _ _ => Some c
  | _ => None
  end.

(** After the authentication, a promise stands for the join. *)
Definition promised (t : task) : bool := match t with KAuth _ _ => false | _ => true end.

(** Past the check that the client is still connected, and before it is a member. *)
Definition past (t : task) : bool :=
  match t with KJoinAccess _ _ | KRequest _ _ _ _ (AfterJoin _) => true | _ => false end.
Definition entering (t : task) : bool :=
  match t with KJoinNotes _ _ | KJoinVoice _ _ _ => false | _ => true end.

(** The client a disconnect will take out of its room. *)
Definition leaver (t : task) : option nat :=
  match t with KAwaitJoin c | KSelectRelay c _ VDisconnect | KVoiceIce c _ _ VDisconnect => Some c | _ => None end.

Definition live (h : option task) (s : Server) : list task := option_list h ++ tasks s.

(** Connected, or on its way out. *)
Definition present (h : option task) (s : Server) (c : nat) : Prop :=
  c ∈ connections s \/ c ∈ omap leaver (live h s).

(** A room object that is not in the hands of a creation. *)
Definition settled (s : Server) (obj : nat) : Prop :=
  is_Some (Manager.heap (mgr s) !! obj) /\ obj ∉ omap creating (Manager.pending (mgr s)).

(** A client that may sit in a room. *)
Definition seated (cl : Client) : Prop := c_joined cl = true /\ is_Some (c_token cl).

(** A request of a connection: one that clients may send, or the client's own update. *)
Definition own_request (s : Server) (c : nat) (req : RoomRequest) : Prop :=
  client_request_type (request_type req) = true \/
  exists cl info p, clients s !! c = Some cl /\ req = UpdateUser info p /\ ci_id info = c_id cl.

Lemma own_no_join s c req : own_request s c req -> is_join req = false.
Proof. intros [H|(cl & info & p & _ & -> & _)]; [by destruct req|done]. Qed.

Lemma own_request_mono s s' c req :
  (forall x cl, clients s !! x = Some cl -> exists cl', clients s' !! x = Some cl' /\ c_id cl' = c_id cl) ->
  own_request s c req -> own_request s' c req.
Proof.
  intros Hc [H|(cl & info & p & Hcl & -> & Hid)]; [by left|right]. destruct (Hc c cl Hcl) as (cl' & Hcl' & Hid').
  exists cl', info, p. by rewrite Hid'.
Qed.

(** A join request is the one the join makes, for a room of the name the client has. *)
Definition request_ok (s : Server) (c obj : nat) (req : RoomRequest) (k : after_request) : Prop :=
  match k with
  | AfterJoin _ => exists cl info rc, clients s !! c = Some cl /\ req = JoinRequest info rc /\
      ci_id info = c_id cl /\ settled s obj /\ Manager.same_name (Manager.room_name (mgr s) obj) (c_room cl) = true /\
      (c, c_room cl) ∈ admitted s
  | _ => own_request s c req
  end.

Record SInv (h : option task) (s : Server) : Prop := {
  s_mgr : Inv false false None None (mgr s);
  s_clients : forall c cl, clients s !! c = Some cl -> (c < nextClient s)%nat;
  s_unique : forall c c' cl cl', clients s !! c = Some cl -> clients s !! c' = Some cl' -> c_id cl = c_id cl' -> c = c';
  s_joiners : NoDup (omap joiner (live h s));
  s_joiner : forall t c, t ∈ live h s -> joiner t = Some c -> exists cl, clients s !! c = Some cl /\
    is_Some (c_token cl) /\ (promised t = true -> c_joined cl = true /\ c ∈ pendingRoomJoins s);
  s_pending : forall c, c ∈ pendingRoomJoins s -> exists t, t ∈ live h s /\ joiner t = Some c /\ promised t = true;
  s_past : forall t c, t ∈ live h s -> joiner t = Some c -> past t = true -> present h s c;
  s_requests : forall c obj token req k, KRequest c obj token req k ∈ live h s -> request_ok s c obj req k;
  s_members : forall obj r id, Manager.heap (mgr s) !! obj = Some r -> id ∈ member_ids r ->
    exists c cl, clients s !! c = Some cl /\ c_id cl = id /\ seated cl /\
      Manager.same_name (name r) (c_room cl) = true /\ (c, c_room cl) ∈ admitted s /\
      (obj ∈ Manager.rooms (mgr s) -> present h s c);
  s_nodup : forall obj r, Manager.heap (mgr s) !! obj = Some r -> NoDup (member_ids r);
  s_entering : forall t c cl obj r, t ∈ live h s -> joiner t = Some c -> entering t = true ->
    clients s !! c = Some cl -> Manager.heap (mgr s) !! obj = Some r -> c_id cl ∉ member_ids r;
  s_creating : forall obj r, obj ∈ omap creating (Manager.pending (mgr s)) ->
    Manager.heap (mgr s) !! obj = Some r -> member_ids r = [];
  s_joins : forall n l c, roomJoins s !! n = Some l -> c ∈ l -> (c, n) ∈ admitted s;
}.

(** ** What the invariant does not see *)

Section Same.
Implicit Types (s : Server) (h : option task).

Lemma sinv_same h s s' :
  mgr s' = mgr s -> clients s' = clients s -> nextClient s' = nextClient s -> connections s' = connections s ->
  roomJoins s' = roomJoins s -> pendingRoomJoins s' = pendingRoomJoins s -> tasks s' = tasks s ->
  admitted s' = admitted s -> SInv h s -> SInv h s'.
Proof.
  intros H1 H2 H3 H4 H5 H6 H7 H8 [].
  assert (Hl : live h s' = live h s) by (unfold live; by rewrite H7).
  split; unfold present, request_ok, own_request, settled in *; rewrite ?Hl, ?H1, ?H2, ?H3, ?H4, ?H5, ?H6, ?H8; assumption.
Qed.

(** A client object changes in what the invariant does not read; it may get a token, and
    become joined. *)
Lemma sinv_on_client h s c f :
  (forall cl, c_id (f cl) = c_id cl /\ c_room (f cl) = c_room cl /\
     (is_Some (c_token cl) -> is_Some (c_token (f cl))) /\ (c_joined cl = true -> c_joined (f cl) = true)) ->
  SInv h s -> SInv h (on_client c f s).
Proof.
  intros Hf [].
  assert (Hc : forall x cl', clients (on_client c f s) !! x = Some cl' -> exists cl, clients s !! x = Some cl /\
    c_id cl' = c_id cl /\ c_room cl' = c_room cl).
  { intros x cl' Hx. change (clients (on_client c f s)) with (alter f c (clients s)) in Hx.
    apply lookup_alter_Some in Hx as [(<- & cl & Hcl & ->)|[_ Hx]]; [|by exists cl'].
    exists cl. by destruct (Hf cl) as (? & ? & _). }
  assert (Hc' : forall x cl, clients s !! x = Some cl -> exists cl', clients (on_client c f s) !! x = Some cl' /\
    c_id cl' = c_id cl /\ c_room cl' = c_room cl /\ (is_Some (c_token cl) -> is_Some (c_token cl')) /\
    (c_joined cl = true -> c_joined cl' = true)).
  { intros x cl Hx. change (clients (on_client c f s)) with (alter f c (clients s)).
    destruct (decide (c = x)) as [<-|Hne]; [|rewrite lookup_alter_ne by done; by exists cl].
    rewrite lookup_alter_eq, Hx. exists (f cl). split; [done|]. apply Hf. }
  split; try done.
  - intros x cl' (cl & Hcl & _)%Hc. by eapply s_clients0.
  - intros x y cl1 cl2 (a & Ha & Hia & _)%Hc (b & Hb & Hib & _)%Hc Heq. eapply s_unique0; [done..|congruence].
  - intros t x Ht Hj. destruct (s_joiner0 t x Ht Hj) as (cl & Hcl & Htok & Hp).
    destruct (Hc' x cl Hcl) as (cl' & Hcl' & _ & _ & H3 & H4). exists cl'. split; [done|]. split; [by apply H3|].
    intros Hpr. destruct (Hp Hpr) as [? ?]. split; [by apply H4|done].
  - intros x obj token req k Hin. specialize (s_requests0 x obj token req k Hin).
    destruct k; try (eapply own_request_mono; [|done]; intros y cl Hy; destruct (Hc' y cl Hy) as (? & ? & ? & _); eauto).
    destruct s_requests0 as (cl & info & rc & Hcl & -> & H1 & H2 & H3 & H4).
    destruct (Hc' x cl Hcl) as (cl' & Hcl' & Hid & Hrm & _). exists cl', info, rc.
    rewrite Hid, Hrm. split_and!; try done.
  - intros obj r id Hr Hid. destruct (s_members0 obj r id Hr Hid) as (x & cl & Hcl & H1 & H2 & H3 & H4 & H5).
    destruct (Hc' x cl Hcl) as (cl' & Hcl' & Hi & Hrm & Htk & Hjn). exists x, cl'. rewrite Hi, Hrm.
    split_and!; try done. destruct H2 as [? ?]. split; [by apply Hjn|by apply Htk].
  - intros t x cl' obj r Ht Hj He (cl & Hcl & -> & _)%Hc Hr. by eapply s_entering0.
Qed.
End Same.

(** ** Tasks *)

Section Tasks.
Implicit Types (s : Server) (h : option task).

Lemma live_suspend t s : live None (suspend t s) ≡ₚ live (Some t) s.
Proof. unfold live. cbn. by rewrite Permutation_app_comm. Qed.

(** The invariant up to the order of the tasks. *)
Lemma sinv_perm h h' s s' :
  live h' s' ≡ₚ live h s ->
  mgr s' = mgr s -> clients s' = clients s -> nextClient s' = nextClient s -> connections s' = connections s ->
  roomJoins s' = roomJoins s -> pendingRoomJoins s' = pendingRoomJoins s -> admitted s' = admitted s ->
  SInv h s -> SInv h' s'.
Proof.
  intros Hl H1 H2 H3 H4 H5 H6 H8 [].
  assert (Hin : forall t, t ∈ live h' s' <-> t ∈ live h s) by (intros t; by rewrite Hl).
  assert (Hlv : forall c, c ∈ omap leaver (live h' s') <-> c ∈ omap leaver (live h s)) by (intros c; by rewrite Hl).
  split; unfold present, request_ok, own_request, settled in *; rewrite ?H1, ?H2, ?H3, ?H4, ?H5, ?H6, ?H8; try assumption.
  - by rewrite Hl.
  - intros t c Ht%Hin. by apply s_joiner0.
  - intros c Hc. destruct (s_pending0 c Hc) as (t & Ht%Hin & H). by exists t.
  - intros t c Ht%Hin Hj Hp. destruct (s_past0 t c Ht Hj Hp) as [|Hx%Hlv]; [by left|by right].
  - intros c obj token req k Hk%Hin. by eapply s_requests0.
  - intros obj r id Hr Hid. destruct (s_members0 obj r id Hr Hid) as (c & cl & ? & ? & ? & ? & ? & Hp).
    exists c, cl. split_and!; try done. intros Ho. destruct (Hp Ho) as [|Hx%Hlv]; [by left|by right].
  - intros t c cl obj r Ht%Hin. by apply s_entering0.
Qed.

(** The held task waits. *)
Lemma sinv_suspend t s : SInv (Some t) s -> SInv None (suspend t s).
Proof. apply sinv_perm; [apply live_suspend|done..]. Qed.

Lemma sinv_take i t s : tasks s !! i = Some t -> SInv None s -> SInv (Some t) (s <| tasks ::= delete i |>).
Proof.
  intros Hi. apply sinv_perm; try done. unfold live. cbn. symmetry. by apply delete_Permutation.
Qed.

(** A held task is replaced by one that holds the same. *)
Lemma sinv_swap t t' s :
  joiner t' = joiner t -> (promised t' = true -> joiner t' <> None -> promised t = true) ->
  (promised t = true -> promised t' = true) ->
  (forall c, past t' = true -> joiner t' = Some c -> past t = true \/ present (Some t) s c) -> (entering t' = true -> joiner t' <> None -> entering t = true) ->
  leaver t' = leaver t ->
  (forall c obj token req k, t' = KRequest c obj token req k -> request_ok s c obj req k) ->
  SInv (Some t) s -> SInv (Some t') s.
Proof.
  intros Hj Hp Hp' Hpa He Hl Hr [].
  assert (Hlv : omap leaver (live (Some t') s) = omap leaver (live (Some t) s)) by (cbn; by rewrite Hl).
  assert (Hjn : omap joiner (live (Some t') s) = omap joiner (live (Some t) s)) by (cbn; by rewrite Hj).
  assert (Hin : forall x c, x ∈ live (Some t') s -> joiner x = Some c ->
    exists y, y ∈ live (Some t) s /\ joiner y = Some c /\ (promised x = true -> promised y = true) /\
      (past x = true -> past y = true \/ present (Some t) s c) /\ (entering x = true -> entering y = true)).
  { intros x c [->|Hx]%elem_of_cons Hc.
    - exists t. split; [by left|]. split; [congruence|]. assert (joiner t' <> None) by congruence. auto.
    - exists x. split; [by right|auto]. }
  split; unfold present in *; rewrite ?Hlv; try assumption.
  - by rewrite Hjn.
  - intros x c Hx Hc. destruct (Hin x c Hx Hc) as (y & Hy & Hc' & H1 & _).
    destruct (s_joiner0 y c Hy Hc') as (cl & ? & ? & H). exists cl. split_and!; try done. auto.
  - intros c Hc. destruct (s_pending0 c Hc) as (x & Hx & Hxj & Hxp). unfold live in Hx. cbn in Hx.
    apply elem_of_cons in Hx as [->|Hx].
    + exists t'. split; [by left|]. split; [congruence|auto].
    + exists x. split; [by right|done].
  - intros x c Hx Hc Hpx. destruct (Hin x c Hx Hc) as (y & Hy & Hc' & _ & H1 & _).
    destruct (H1 Hpx) as [|?]; [eapply s_past0; eauto|done].
  - intros c obj token req k [Heq|Hx]%elem_of_cons; [by eapply Hr|]. eapply s_requests0. by right.
  - intros x c cl obj r Hx Hc Hex. destruct (Hin x c Hx Hc) as (y & Hy & Hc' & _ & _ & H1).
    eapply s_entering0; eauto.
Qed.

(** A task that is no join and no disconnect. *)
Definition plain (t : task) : Prop := joiner t = None /\ leaver t = None.

Lemma live_suspend_perm h t s : live h (suspend t s) ≡ₚ t :: live h s.
Proof. unfold live. cbn. rewrite app_assoc. by rewrite Permutation_app_comm. Qed.

Lemma sinv_suspend_new h t s :
  joiner t = None ->
  (forall c obj token req k, t = KRequest c obj token req k -> request_ok s c obj req k) ->
  SInv h s -> SInv h (suspend t s).
Proof.
  intros Hj Hr []. pose proof (live_suspend_perm h t s) as Hl.
  assert (Hin : forall x, x ∈ live h (suspend t s) -> x = t \/ x ∈ live h s).
  { intros x Hx. rewrite Hl in Hx. by apply elem_of_cons. }
  assert (Hpr : forall c, present h s c -> present h (suspend t s) c).
  { intros c [|Hx]; [by left|right]. rewrite Hl. cbn. destruct (leaver t); [by right|done]. }
  split; try assumption.
  - rewrite Hl. cbn. by rewrite Hj.
  - intros x c [->|Hx]%Hin Hc; [congruence|]. by apply s_joiner0.
  - intros c Hc. destruct (s_pending0 c Hc) as (x & Hx & H). exists x. split; [|done]. rewrite Hl. by right.
  - intros x c [->|Hx]%Hin Hc Hp; [congruence|]. apply Hpr. by eapply s_past0.
  - intros c obj token req k [Heq|Hx]%Hin; [by eapply Hr|]. by eapply s_requests0.
  - intros obj r id Ho Hid. destruct (s_members0 obj r id Ho Hid) as (c & cl & ? & ? & ? & ? & ? & Hp).
    exists c, cl. split_and!; try done. auto.
  - intros x c cl obj r [->|Hx]%Hin Hc; [congruence|]. by apply s_entering0.
Qed.

(** A held task that neither joins nor leaves may be dropped. *)
Lemma sinv_drop t s : plain t -> SInv (Some t) s -> SInv None s.
Proof.
  intros [Hj Hl] [].
  assert (Hlv : omap leaver (live (Some t) s) = omap leaver (live None s)) by (cbn; by rewrite Hl).
  assert (Hin : forall x, x ∈ live None s -> x ∈ live (Some t) s) by (intros x Hx; by right).
  split; unfold present in *; rewrite ?Hlv in *; try assumption; eauto.
  - cbn in s_joiners0. by rewrite Hj in s_joiners0.
  - intros c Hc. destruct (s_pending0 c Hc) as (x & [->|Hx]%elem_of_cons & H); [destruct H; congruence|by exists x].
Qed.
End Tasks.

(** ** Disconnecting *)

Lemma remove_one_sub c l : remove_one c l `sublist_of` l.
Proof. unfold remove_one. destruct (list_find _ _) as [[i x]|]; [apply sublist_delete|done]. Qed.

Lemma remove_one_other c l x : x ∈ l -> x <> c -> x ∈ remove_one c l.
Proof.
  intros Hx Hne. unfold remove_one. destruct (list_find _ _) as [[i y]|] eqn:Hf; [|done].
  apply list_find_Some in Hf as (Hy & <- & _). rewrite (delete_Permutation l i c Hy) in Hx.
  by apply elem_of_cons in Hx as [->|Hx].
Qed.

Section Disconnect.
Context `{E : Env} {LL : LodashLaws env_lodash} `{C : VoiceConf}.
Implicit Types (s : Server) (h : option task).

(** A client goes, and a disconnect stands for it. *)
Lemma sinv_goes h s s' c t :
  mgr s' = mgr s -> clients s' = clients s -> nextClient s' = nextClient s ->
  pendingRoomJoins s' = pendingRoomJoins s -> admitted s' = admitted s ->
  (forall x, x ∈ connections s -> x <> c -> x ∈ connections s') ->
  (forall n l x, roomJoins s' !! n = Some l -> x ∈ l -> exists l0, roomJoins s !! n = Some l0 /\ x ∈ l0) ->
  tasks s' = tasks s ++ [t] -> joiner t = None -> leaver t = Some c ->
  SInv h s -> SInv h s'.
Proof.
  intros H1 H2 H3 H6 H8 Hc Hr Ht Hj Hlv [].
  assert (Hl : live h s' ≡ₚ t :: live h s).
  { unfold live. rewrite Ht, app_assoc. by rewrite Permutation_app_comm. }
  assert (Hin : forall x, x ∈ live h s' -> x = t \/ x ∈ live h s).
  { intros x Hx. rewrite Hl in Hx. by apply elem_of_cons. }
  assert (Hlv' : forall x, x ∈ omap leaver (live h s') <-> x = c \/ x ∈ omap leaver (live h s)).
  { intros x. rewrite Hl. cbn. rewrite Hlv. apply elem_of_cons. }
  assert (Hpr : forall x, present h s x -> present h s' x).
  { intros x [Hx|Hx]; [|right; apply Hlv'; by right].
    destruct (decide (x = c)) as [->|]; [right; apply Hlv'; by left|left; by apply Hc]. }
  assert (Hkr : forall x obj token req k, t = KRequest x obj token req k -> False).
  { intros x obj token req k ->. discriminate. }
  split; unfold request_ok, own_request, settled in *; rewrite ?H1, ?H2, ?H3, ?H6, ?H8; try assumption.
  - rewrite Hl. cbn. by rewrite Hj.
  - intros x y [->|Hx]%Hin Hy; [congruence|]. by apply s_joiner0.
  - intros x Hx. destruct (s_pending0 x Hx) as (y & Hy & H). exists y. split; [|done]. rewrite Hl. by right.
  - intros x y [->|Hx]%Hin Hy Hp; [congruence|]. apply Hpr. by eapply s_past0.
  - intros x obj token req k [Heq|Hx]%Hin; [by destruct (Hkr x obj token req k (eq_sym Heq))|]. by eapply s_requests0.
  - intros obj r id Ho Hid. destruct (s_members0 obj r id Ho Hid) as (x & cl & ? & ? & ? & ? & ? & Hp).
    exists x, cl. split_and!; try done. auto.
  - intros x y cl obj r [->|Hx]%Hin Hy; [congruence|]. by apply s_entering0.
  - intros n l x Hn Hx. destruct (Hr n l x Hn Hx) as (l0 & Hl0 & Hx0). by eapply s_joins0.
Qed.

(** What the voice part of a disconnect comes to. *)
Lemma removeFromVoice_spec c s :
  is_Some (clients s !! c) ->
  exists t, tasks (removeFromVoice c s) = tasks s ++ [t] /\ joiner t = None /\ leaver t = Some c /\
    mgr (removeFromVoice c s) = mgr s /\ clients (removeFromVoice c s) = clients s /\
    nextClient (removeFromVoice c s) = nextClient s /\ connections (removeFromVoice c s) = connections s /\
    roomJoins (removeFromVoice c s) = roomJoins s /\
    pendingRoomJoins (removeFromVoice c s) = pendingRoomJoins s /\ admitted (removeFromVoice c s) = admitted s.
Proof.
  intros [cl Hcl]. unfold removeFromVoice, with_client. rewrite Hcl. cbv zeta.
  destruct (voiceParticipants s !! c_room cl) as [n|]; [|by exists (KAwaitJoin c)].
  destruct (bool_decide (c_id cl ∈ _)); [|by exists (KAwaitJoin c)].
  unfold announce_voice, end_if_empty, end_voice.
  destruct (bool_decide (voice_set _ n = [])); cbn [negb];
    [|match goal with |- context [match ?x with Some _ => _ | None => _ end] => destruct x end];
    eexists; split_and!; reflexivity.
Qed.

Lemma sinv_disconnect h c s : SInv h s -> SInv h (onClientDisconnect c s).
Proof.
  intros Hs. unfold onClientDisconnect. cbv zeta.
  match goal with |- SInv h (removeFromVoice c ?x) => set (s1 := x) end.
  assert (H1 : mgr s1 = mgr s /\ clients s1 = clients s /\ nextClient s1 = nextClient s /\
    pendingRoomJoins s1 = pendingRoomJoins s /\ admitted s1 = admitted s /\ tasks s1 = tasks s /\
    (forall x, x ∈ connections s -> x <> c -> x ∈ connections s1) /\
    (forall n l x, roomJoins s1 !! n = Some l -> x ∈ l -> exists l0, roomJoins s !! n = Some l0 /\ x ∈ l0)).
  { subst s1. destruct (connected s c); [|split_and!; try done; intros n l x Hn Hx; by exists l].
    unfold with_client. change (clients (s <| connections ::= remove_one c |>)) with (clients s).
    destruct (clients s !! c) as [cl|]; split_and!; try done;
      try (intros x Hx Hne; by apply remove_one_other).
    - intros n l x Hn Hx. change (alter (remove_one c) (c_room cl) (roomJoins s) !! n = Some l) in Hn.
      apply lookup_alter_Some in Hn as [(<- & l0 & Hl0 & ->)|[_ Hn]]; [|by exists l].
      exists l0. split; [done|]. eapply elem_of_sublist; [exact Hx|apply remove_one_sub].
    - intros n l x Hn Hx. by exists l. }
  destruct H1 as (A1 & A2 & A3 & A4 & A5 & A6 & A7 & A8). clearbody s1.
  destruct (clients s1 !! c) as [cl|] eqn:Hcl.
  - destruct (removeFromVoice_spec c s1) as (t & Ht & Hj & Hlv & B1 & B2 & B3 & B4 & B5 & B6 & B7); [by eexists|].
    apply (sinv_goes h s _ c t); rewrite ?B1, ?B2, ?B3, ?B4, ?B5, ?B6, ?B7, ?Ht, ?A6; done.
  - unfold removeFromVoice, with_client. rewrite Hcl. rewrite A2 in Hcl.
    (* no client of that name: nothing stands for it *)
    assert (Hpr : forall x, is_Some (clients s !! x) -> present h s x -> present h s1 x).
    { intros x [cl' Hx] [Hc|Hc]; [left; apply A7; [done|congruence]|right]. unfold live. by rewrite A6. }
    assert (Hl : live h s1 = live h s) by (unfold live; by rewrite A6).
    destruct Hs. split; unfold request_ok, own_request, settled in *; rewrite ?Hl, ?A1, ?A2, ?A3, ?A4, ?A5; try assumption.
    + intros t x Ht Hj Hp. apply Hpr; [|by eapply s_past0]. destruct (s_joiner0 t x Ht Hj) as (cl & ? & _). by exists cl.
    + intros obj r id Ho Hid. destruct (s_members0 obj r id Ho Hid) as (x & cl & ? & ? & ? & ? & ? & Hp).
      exists x, cl. split_and!; try done. intros Hob. apply Hpr; [by eexists|auto].
    + intros n l x Hn Hx. destruct (A8 n l x Hn Hx) as (l0 & Hl0 & Hx0). by eapply s_joins0.
Qed.

Lemma sinv_emit h o s : SInv h s -> SInv h (emit o s).
Proof. by apply sinv_same. Qed.

Lemma sinv_kick h c code s : SInv h s -> SInv h (kick c code s).
Proof.
  intros Hs. unfold kick, with_client. destruct (clients s !! c) as [cl|]; [|done].
  destruct (c_kind cl); [|by apply sinv_disconnect, sinv_emit].
  apply sinv_emit, sinv_on_client; [|done]. by intros x.
Qed.

Lemma sinv_kick_all h get code fuel i s : SInv h s -> SInv h (kick_all get code fuel i s).
Proof.
  revert i s. induction fuel as [|fuel IH]; intros i s Hs; [done|]. cbn. destruct (get s !! i); [|done].
  by apply IH, sinv_kick.
Qed.

Lemma sinv_fold {A} h (f : Server -> A -> Server) (l : list A) s :
  (forall s x, SInv h s -> SInv h (f s x)) -> SInv h s -> SInv h (fold_left f l s).
Proof. intros Hf. revert s. induction l as [|x l IH]; intros s Hs; [done|]. cbn. by apply IH, Hf. Qed.

Lemma sinv_broadcast h n m s : SInv h s -> SInv h (broadcast n m s).
Proof.
  intros Hs. unfold broadcast. destruct (roomJoins s !! n); [|done]. apply sinv_fold.
  - intros s' b. apply sinv_emit.
  - apply sinv_fold; [|done]. intros s' c Hs'. unfold cast_to. repeat case_match; try done. by apply sinv_emit.
Qed.

Lemma sinv_deliver h n s e : SInv h s -> SInv h (deliver n s e).
Proof.
  intros Hs. destruct e; cbn; try by apply sinv_broadcast. destruct (getClient s _); [by apply sinv_kick|done].
Qed.

Lemma sinv_roomUnload h n reason s : SInv h s -> SInv h (onRoomUnload n reason s).
Proof.
  intros Hs. unfold onRoomUnload. cbv zeta.
  pose proof (sinv_kick_all h (joins_of n) (unloadReason reason) (length (joins_of n s)) 0 s Hs) as Hk.
  set (s1 := kick_all _ _ _ _ _) in *. clearbody s1. unfold end_voice.
  assert (H2 : SInv h (s1 <| roomJoins ::= delete n |>)).
  { destruct Hk. split; try assumption. intros n' l c Hn. rsimpl.
    change (delete n (roomJoins s1) !! n' = Some l) in Hn. apply lookup_delete_Some in Hn as [_ Hn]. by apply s_joins0. }
  by apply (sinv_same h (s1 <| roomJoins ::= delete n |>)).
Qed.

(** ** Rooms *)

Lemma same_name_sym a b : Manager.same_name a b = Manager.same_name b a.
Proof. unfold Manager.same_name. apply bool_decide_ext. by split. Qed.

(** The manager moves on, and lets nobody in. *)
Lemma sinv_ext h s m :
  Inv false false None None m -> ext (mgr s) m -> SInv h s -> SInv h (s <| mgr := m |>).
Proof.
  intros Hm [A B Cf Dn F G] [].
  assert (Hnew : forall obj, made (mgr s) obj -> forall r, Manager.heap m !! obj = Some r -> member_ids r = []).
  { intros obj [Hc|Hn] r Hr.
    - destruct (Manager.heap (mgr s) !! obj) as [r0|] eqn:H0; [|by eapply B].
      destruct (A obj r0 H0) as (r' & Hr' & _ & Hsub). assert (r' = r) as -> by congruence.
      rewrite (s_creating0 obj r0 Hc H0) in Hsub. by apply sublist_nil_r.
    - destruct (Manager.heap (mgr s) !! obj) as [r0|] eqn:H0; [|by eapply B].
      destruct (i_heap _ _ _ _ _ s_mgr0 obj r0 H0) as [Hlt _]. lia. }
  assert (Hst : forall obj, settled s obj -> settled (s <| mgr := m |>) obj).
  { intros obj [[r0 H0] Hc]. split.
    - destruct (A obj r0 H0) as (r' & Hr' & _). by exists r'.
    - intros Hin. change (obj ∈ omap creating (Manager.pending m)) in Hin.
      apply list_elem_of_omap in Hin as (k & Hk & Hck). destruct (G k obj Hk Hck) as [|Hn]; [done|].
      destruct (i_heap _ _ _ _ _ s_mgr0 obj r0 H0) as [Hlt _]. lia. }
  assert (Hnm : forall obj, settled s obj -> Manager.room_name m obj = Manager.room_name (mgr s) obj).
  { intros obj [[r0 H0] _]. unfold Manager.room_name. rewrite H0. destruct (A obj r0 H0) as (r' & -> & Hi & _).
    unfold identity in Hi. by injection Hi. }
  assert (Hback : forall obj r id, Manager.heap m !! obj = Some r -> id ∈ member_ids r ->
    exists r0, Manager.heap (mgr s) !! obj = Some r0 /\ name r = name r0 /\ id ∈ member_ids r0).
  { intros obj r id Hr Hid. destruct (Manager.heap (mgr s) !! obj) as [r0|] eqn:H0.
    - destruct (A obj r0 H0) as (r' & Hr' & Hi & Hsub). assert (r' = r) as -> by congruence.
      exists r0. split; [done|]. split; [unfold identity in Hi; by injection Hi|]. by eapply elem_of_sublist.
    - rewrite (B obj r H0 Hr) in Hid. by apply not_elem_of_nil in Hid. }
  split; try assumption.
  - intros c obj token req k Hk. specialize (s_requests0 c obj token req k Hk). destruct k; try done.
    destruct s_requests0 as (cl & info & rc & ? & ? & ? & Hso & Hnm' & ?). exists cl, info, rc.
    split_and!; try done; [by apply Hst|]. change (Manager.same_name (Manager.room_name m obj) (c_room cl) = true).
    by rewrite Hnm.
  - intros obj r id Hr Hid. destruct (Hback obj r id Hr Hid) as (r0 & H0 & Hnr & Hid0).
    destruct (s_members0 obj r0 id H0 Hid0) as (c & cl & ? & ? & ? & ? & ? & Hp). exists c, cl.
    rewrite Hnr. split_and!; try done. intros Ho. apply Hp. destruct (F obj Ho) as [|Hmade]; [done|].
    rewrite (Hnew obj Hmade r Hr) in Hid. by apply not_elem_of_nil in Hid.
  - intros obj r Hr. change (Manager.heap m !! obj = Some r) in Hr.
    destruct (Manager.heap (mgr s) !! obj) as [r0|] eqn:H0.
    + destruct (A obj r0 H0) as (r' & Hr' & _ & Hsub). assert (r' = r) as -> by congruence.
      eapply sublist_NoDup; [|exact Hsub]. by eapply s_nodup0.
    + rewrite (B obj r H0 Hr). constructor.
  - intros t c cl obj r Ht Hj He Hcl Hr Hid. destruct (Hback obj r _ Hr Hid) as (r0 & H0 & _ & Hid0).
    by eapply (s_entering0 t c cl obj r0).
  - intros obj r Hc. apply Hnew. change (obj ∈ omap creating (Manager.pending m)) in Hc.
    apply list_elem_of_omap in Hc as (k & Hk & Hck). by eapply G.
Qed.

Lemma bound_of h s : SInv h s -> forall obj r, Manager.heap (mgr s) !! obj = Some r -> (obj < Manager.nextObject (mgr s))%nat.
Proof. intros Hs obj r Hr. by destruct (i_heap _ _ _ _ _ (s_mgr _ _ Hs) obj r Hr). Qed.

Lemma sinv_on_room h s obj f :
  safe_method f -> quiet_method f -> SInv h s -> SInv h (s <| mgr ::= Manager.on_room obj f |>).
Proof.
  intros Hf Hq Hs. apply (sinv_ext h s (Manager.on_room obj f (mgr s))); [|apply ext_on_room; [done|]|done].
  - apply inv_on_room; [done|apply Hs].
  - apply ext_refl. by eapply bound_of.
Qed.

Lemma sinv_run_room h s obj f : safe_method f -> quiet_method f -> SInv h s -> SInv h (run_room obj f s).
Proof.
  intros Hf Hq Hs. unfold run_room. destruct (Manager.heap (mgr s) !! obj); [|done].
  apply sinv_fold; [intros; by apply sinv_deliver|]. by apply sinv_on_room.
Qed.

Lemma sinv_manage h c s : adds_nobody c = true -> SInv h s -> SInv h (manage c s).
Proof.
  intros Hc Hs. unfold manage. cbv zeta.
  assert (H1 : SInv h (s <| mgr := Manager.run c (mgr s) |>)).
  { apply sinv_ext; [|apply ext_run; [done|apply ext_refl; by eapply bound_of]|done].
    apply inv_run; [done..|apply Hs]. }
  apply sinv_fold.
  - intros s' obj Hs'. unfold published. destruct (Manager.heap (mgr s') !! obj); [|done].
    apply sinv_fold; [intros; by apply sinv_deliver|done].
  - apply sinv_fold; [|done]. intros s' e Hs'. destruct e; try done. by apply sinv_roomUnload.
Qed.
End Disconnect.

(** ** The methods the handlers run on a room *)

Section RoomMethods.
Context `{E : Env} {LL : LodashLaws env_lodash}.

Lemma safe_holdEmpty x : safe_method (holdEmptyPlaybackForJoin x).
Proof. apply safe_stable. intros I HI r. apply HI, m_holdEmpty. Qed.
Lemma quiet_holdEmpty x : quiet_method (holdEmptyPlaybackForJoin x).
Proof. intros r. split; [apply safe_holdEmpty|by rewrite members_holdEmpty]. Qed.

(** A request of a token leaves the room alone, or is a request in some context. *)
Lemma unauthorized_cases req token c r :
  (processUnauthorizedRequest req token c r).2 = r \/
  exists ctx, (processUnauthorizedRequest req token c r).2 = (processRequest req ctx r).2.
Proof.
  unfold processUnauthorizedRequest. rewrite bind_get. cbv zeta.
  match goal with |- context [deriveRequestContext token ?x] => set (c' := x) end.
  assert (Hd : (deriveRequestContext token c' r).2 = r).
  { unfold deriveRequestContext. rewrite bind_get. destruct (_ ≫= _); [done|].
    unfold bind, lift_res. destruct (env_getSessionInfo token) as [|se]; [done|].
    by destruct (session_username se). }
  destruct (deriveRequestContext token c' r) as [[e|ctx] r'] eqn:Hder; cbn [snd] in Hd; subst r'.
  - left. by rewrite (bind_fail _ _ r e r Hder).
  - right. exists ctx. by rewrite (bind_run _ _ r ctx r Hder).
Qed.

Lemma safe_unauthorized req token c : safe_method (fun r => (processUnauthorizedRequest req token c r).2).
Proof.
  apply safe_stable. intros I HI r Hr. cbv beta.
  destruct (unauthorized_cases req token c r) as [->|[ctx ->]]; [done|].
  exact (keeps_processRequest I HI req ctx r Hr).
Qed.
Lemma quiet_unauthorized req token c :
  is_join req = false -> quiet_method (fun r => (processUnauthorizedRequest req token c r).2).
Proof. intros Hj r. split; [apply safe_unauthorized|by apply members_unauthorized]. Qed.

Lemma members_unauthorized_join info rc token c r :
  member_ids (processUnauthorizedRequest (JoinRequest info rc) token c r).2 `sublist_of` member_ids r ++ [ci_id info].
Proof.
  destruct (unauthorized_cases (JoinRequest info rc) token c r) as [->|[ctx ->]];
    [by apply sublist_inserts_r|apply members_join_request].
Qed.

(** The unsafe leave is no request, or a leave request in some context. *)
Lemma leave_cases id r :
  (processRequestUnsafe LeaveRequest id r).2 = r \/
  exists ctx, (processRequestUnsafe LeaveRequest id r).2 = (processRequest LeaveRequest ctx r).2.
Proof.
  unfold processRequestUnsafe. destruct (getUserInfo r id) as [i|] eqn:Hi.
  - right. eexists. rewrite (bind_run _ _ r i r); [reflexivity|]. unfold need_info. by rewrite bind_get, Hi.
  - left. rewrite (bind_fail _ _ r (Error "Client not found") r); [reflexivity|].
    unfold need_info. by rewrite bind_get, Hi.
Qed.

Lemma safe_leave id : safe_method (fun r => (processRequestUnsafe LeaveRequest id r).2).
Proof.
  apply safe_stable. intros I HI r Hr. cbv beta. destruct (leave_cases id r) as [->|[ctx ->]]; [done|].
  exact (keeps_processRequest I HI LeaveRequest ctx r Hr).
Qed.
Lemma quiet_leave id : quiet_method (fun r => (processRequestUnsafe LeaveRequest id r).2).
Proof.
  intros r. split; [apply safe_leave|]. destruct (leave_cases id r) as [->|[ctx ->]]; [done|].
  by apply members_request.
Qed.

Lemma reauth_stable adds (I : Room -> Prop) id token info :
  StableFor adds I -> forall r, I r -> I (reauth_user id token info r).
Proof.
  intros HI r Hr. unfold reauth_user. destruct (getUser r id) as [u|] eqn:Hu; [|done].
  assert (Hid : ru_id (updateInfo info (u <| ru_token := token |>)).2 = id).
  { rewrite updateInfo_id. unfold getUser in Hu. apply find_some in Hu as [_ Hu]. by apply bool_decide_eq_true in Hu. }
  destruct (updateInfo _ _) as [x u']. cbv zeta. cbn [snd] in Hid.
  assert (H1 : I (set_user id u' r)) by (eapply HI; [by apply m_set_user|done]).
  set (r1 := set_user id u' r) in *. clearbody r1. destruct (getUserInfo r1 id); [|done].
  apply (I_frame _ HI r1); [reflexivity..|told_tac|done].
Qed.
Lemma safe_reauth id token info : safe_method (reauth_user id token info).
Proof. apply safe_stable. intros I HI r. by apply (reauth_stable (fun _ => True)). Qed.
Lemma quiet_reauth id token info : quiet_method (reauth_user id token info).
Proof.
  intros r. split; [apply safe_reauth|].
  apply (reauth_stable nobody (members_within (member_ids r))); [apply members_stable|].
  by unfold members_within.
Qed.
End RoomMethods.

(** ** Joining *)

Section Joining.
Context `{E : Env} {LL : LodashLaws env_lodash} `{C : VoiceConf}.
Implicit Types (s : Server) (h : option task).

(** Only the held task is about its client. *)
Lemma joiner_alone t c s :
  SInv (Some t) s -> joiner t = Some c -> forall x, x ∈ tasks s -> joiner x <> Some c.
Proof.
  intros Hs Hj x Hx Hxj. pose proof (s_joiners _ _ Hs) as Hnd. cbn in Hnd. rewrite Hj in Hnd.
  apply NoDup_cons in Hnd as [Hn _]. apply Hn. apply list_elem_of_omap. by exists x.
Qed.

Lemma sinv_end_join t c s :
  joiner t = Some c -> promised t = true -> leaver t = None -> SInv (Some t) s -> SInv None (end_join c s).
Proof.
  intros Hj Hp Hlv Hs. pose proof (joiner_alone t c s Hs Hj) as Halone. destruct Hs.
  assert (Hl : omap leaver (live (Some t) s) = omap leaver (tasks s)) by (cbn; by rewrite Hlv).
  unfold present in *. rewrite Hl in *. unfold end_join.
  split; unfold present; try assumption; change (live None (s <| pendingRoomJoins ::= _ |>)) with (tasks s).
  - cbn in s_joiners0. rewrite Hj in s_joiners0. by apply NoDup_cons in s_joiners0 as [_ ?].
  - intros x d Hx Hd. destruct (s_joiner0 x d) as (cl & ? & ? & Hpr); [by right|done|]. exists cl.
    split_and!; try done. intros Hxp. destruct (Hpr Hxp) as [? Hin]. split; [done|].
    change (d ∈ pendingRoomJoins s ∖ {[c]}). apply elem_of_difference. split; [done|].
    intros ->%elem_of_singleton. by apply (Halone x).
  - intros d Hd. change (d ∈ pendingRoomJoins s ∖ {[c]}) in Hd. apply elem_of_difference in Hd as [Hd Hne].
    destruct (s_pending0 d Hd) as (x & [->|Hx]%elem_of_cons & Hxj & Hxp); [|by exists x].
    exfalso. apply Hne. rewrite Hj in Hxj. injection Hxj as ->. by apply elem_of_singleton.
  - intros x d Hx. apply (s_past0 x d). by right.
  - intros d obj token req k Hk. apply (s_requests0 d obj token req k). by right.
  - intros x d cl obj r Hx. apply (s_entering0 x d cl obj r). by right.
Qed.

Lemma sinv_fail_join t c s :
  joiner t = Some c -> promised t = true -> leaver t = None -> SInv (Some t) s -> SInv None (fail_join c s).
Proof.
  intros Hj Hp Hl Hs. unfold fail_join. apply (sinv_end_join t); try done.
  case_match; [by apply sinv_kick|done].
Qed.

(** The method of a join runs on the room: the client becomes a member. *)
Lemma sinv_add_member h s obj f c cl :
  safe_method f ->
  (forall r, Manager.heap (mgr s) !! obj = Some r -> member_ids (f r) `sublist_of` member_ids r ++ [c_id cl]) ->
  clients s !! c = Some cl -> seated cl -> present h s c -> settled s obj ->
  Manager.same_name (Manager.room_name (mgr s) obj) (c_room cl) = true -> (c, c_room cl) ∈ admitted s ->
  (forall obj r, Manager.heap (mgr s) !! obj = Some r -> c_id cl ∉ member_ids r) ->
  (forall t, t ∈ live h s -> joiner t = Some c -> entering t = false) ->
  SInv h s -> SInv h (s <| mgr ::= Manager.on_room obj f |>).
Proof.
  intros Hf Hadd Hcl Hseat Hpres Hset Hname Hadm Hnot Hent [].
  set (m := Manager.on_room obj f (mgr s)).
  assert (Hh : forall x r', Manager.heap m !! x = Some r' -> exists r, Manager.heap (mgr s) !! x = Some r /\
    name r' = name r /\ (forall id, id ∈ member_ids r' -> id ∈ member_ids r \/ (id = c_id cl /\ x = obj)) /\
    NoDup (member_ids r')).
  { intros x r' Hx. change (Manager.heap m) with (alter f obj (Manager.heap (mgr s))) in Hx.
    apply lookup_alter_Some in Hx as [(<- & r & Hr & ->)|[_ Hx]].
    - exists r. split; [done|]. destruct (Hf r) as [Hi _]. unfold identity in Hi. injection Hi as Hi _.
      split; [done|]. specialize (Hadd r Hr). split.
      + intros id Hid. apply (elem_of_sublist _ _ _ Hid) in Hadd.
        apply elem_of_app in Hadd as [?| ->%list_elem_of_singleton]; [by left|by right].
      + eapply sublist_NoDup; [|exact Hadd]. apply NoDup_snoc; [by eapply s_nodup0|by eapply Hnot].
    - exists r'. split_and!; try done; [by left|by eapply s_nodup0]. }
  assert (Hst : forall x, settled s x -> settled (s <| mgr := m |>) x).
  { intros x [Hx1 Hx2]. split; [|done]. change (is_Some (alter f obj (Manager.heap (mgr s)) !! x)).
    by apply lookup_alter_is_Some. }
  assert (Hnm : forall x, Manager.room_name m x = Manager.room_name (mgr s) x).
  { intros x. unfold Manager.room_name. destruct (Manager.heap m !! x) as [r'|] eqn:Hx.
    - destruct (Hh x r' Hx) as (r & -> & -> & _). done.
    - change (Manager.heap m) with (alter f obj (Manager.heap (mgr s))) in Hx.
      apply lookup_alter_None in Hx. by rewrite Hx. }
  change (s <| mgr ::= Manager.on_room obj f |>) with (s <| mgr := m |>).
  split; try assumption.
  - by apply inv_on_room.
  - intros d x token req k Hk. specialize (s_requests0 d x token req k Hk). destruct k; try done.
    destruct s_requests0 as (cl' & info & rc & ? & ? & ? & Hso & Hn & ?). exists cl', info, rc.
    split_and!; try done; [by apply Hst|]. change (Manager.same_name (Manager.room_name m x) (c_room cl') = true).
    by rewrite Hnm.
  - intros x r' id Hx Hid. destruct (Hh x r' Hx) as (r & Hr & Hnr & Hin & _).
    destruct (Hin id Hid) as [Hold|[-> ->]].
    + destruct (s_members0 x r id Hr Hold) as (d & cl' & ? & ? & ? & ? & ? & ?). exists d, cl'.
      by rewrite Hnr.
    + exists c, cl. unfold Manager.room_name in Hname. rewrite Hr in Hname. rewrite Hnr. split_and!; done.
  - intros x r' Hx. by destruct (Hh x r' Hx) as (_ & _ & _ & _ & ?).
  - intros t d cl' x r' Ht Hj He Hcl' Hx Hid. destruct (Hh x r' Hx) as (r & Hr & _ & Hin & _).
    destruct (Hin _ Hid) as [Hold|[Heq ->]]; [by eapply s_entering0|].
    assert (d = c) as -> by by eapply s_unique0. by rewrite (Hent t Ht Hj) in He.
  - intros x r' Hc Hx. destruct (Hh x r' Hx) as (r & Hr & _ & Hin & _).
    destruct (member_ids r') as [|id l] eqn:Hm; [done|]. exfalso.
    destruct (Hin id) as [Hold|[-> ->]]; [by left| |by destruct Hset].
    rewrite (s_creating0 x r Hc Hr) in Hold. by apply not_elem_of_nil in Hold.
Qed.

(** The join request is processed. *)
Lemma sinv_join c obj o token req s :
  SInv (Some (KRequest c obj token req (AfterJoin o))) s -> 
  forall cl, clients s !! c = Some cl ->
  SInv (Some (KJoinNotes c o)) (run_room obj (fun r => (processUnauthorizedRequest req token (Some (c_id cl)) r).2) s).
Proof.
  intros Hs cl Hcl. set (t := KRequest c obj token req (AfterJoin o)) in *.
  destruct (s_requests _ _ Hs c obj token req (AfterJoin o)) as (cl' & info & rc & Hcl' & -> & Hid & Hset & Hnm & Hadm);
    [by left|]. assert (cl' = cl) as -> by congruence.
  destruct (s_joiner _ _ Hs t c) as (cl' & Hcl2 & Htok & Hpr); [by left|done|].
  assert (cl' = cl) as -> by congruence. destruct (Hpr eq_refl) as [Hjn _].
  pose proof (s_past _ _ Hs t c ltac:(by left) eq_refl eq_refl) as Hpres.
  assert (Hnot : forall obj r, Manager.heap (mgr s) !! obj = Some r -> c_id cl ∉ member_ids r).
  { intros x r Hr. by apply (s_entering _ _ Hs t c cl x r); [left|..]. }
  pose proof (joiner_alone t c s Hs eq_refl) as Halone.
  assert (Hs' : SInv (Some (KJoinNotes c o)) s) by by apply (sinv_swap t (KJoinNotes c o)).
  unfold run_room. destruct (Manager.heap (mgr s) !! obj) as [r|] eqn:Hr; [|done].
  apply sinv_fold; [intros; by apply sinv_deliver|].
  apply (sinv_add_member _ _ _ _ c cl); try done.
  - apply safe_unauthorized.
  - intros r0 _. rewrite <- Hid. apply members_unauthorized_join.
  - intros x [->|Hx]%elem_of_cons Hxj; [done|]. by destruct (Halone x Hx).
Qed.
End Joining.

(** ** The rest of a join *)

Section Enter.
Context `{E : Env} {LL : LodashLaws env_lodash} `{C : VoiceConf}.
Implicit Types (s : Server) (h : option task).

Lemma sinv_finish_join c obj notes s : SInv (Some (KJoinNotes c obj)) s -> SInv None (finish_join c obj notes s).
Proof.
  intros Hs. assert (Hend : forall s', SInv (Some (KJoinNotes c obj)) s' -> SInv None (end_join c s'))
    by (intros s'; by apply sinv_end_join).
  unfold finish_join. destruct (Manager.heap (mgr s) !! obj) as [r|]; [|by apply Hend].
  destruct (id_of s c) as [id|]; [|by apply Hend]. cbv zeta.
  match goal with |- context [if isVoiceEnabled then match roomRelayChannels ?x !! _ with _ => _ end else _] =>
    assert (H1 : SInv (Some (KJoinNotes c obj)) x) by (by do 3 apply sinv_emit); set (s1 := x) in * end.
  clearbody s1. destruct isVoiceEnabled; [|by apply Hend].
  destruct (roomRelayChannels s1 !! name r) as [sel|]; [|by apply Hend, sinv_emit].
  apply sinv_suspend. by apply (sinv_swap (KJoinNotes c obj)).
Qed.

Lemma sinv_after_join c obj s : SInv (Some (KJoinNotes c obj)) s -> SInv None (after_join c obj s).
Proof.
  intros Hs. assert (Hend : forall s', SInv (Some (KJoinNotes c obj)) s' -> SInv None (end_join c s'))
    by (intros s'; by apply sinv_end_join).
  unfold after_join. destruct (connected s c); cbn [negb]; [|by apply Hend].
  destruct (Manager.heap (mgr s) !! obj) as [r|]; [|by apply Hend]. cbv zeta.
  set (s1 := send c _ s). assert (H1 : SInv (Some (KJoinNotes c obj)) s1) by by apply sinv_emit.
  clearbody s1. case_match; [by apply sinv_finish_join|by apply sinv_suspend].
Qed.

(** The held join gives its client the room's name. *)
Lemma sinv_set_room c obj n s :
  SInv (Some (KJoinAccess c obj)) s ->
  SInv (Some (KJoinAccess c obj)) (on_client c (fun cl => cl <| c_room := n |>)
                                     (s <| admitted ::= fun l => l ++ [(c, n)] |>)).
Proof.
  intros Hs. pose proof (joiner_alone _ c s Hs eq_refl) as Halone.
  set (f := fun cl : Client => cl <| c_room := n |>). set (t := KJoinAccess c obj) in *.
  set (s' := on_client c f _).
  assert (Hc : forall x cl', clients s' !! x = Some cl' -> exists cl, clients s !! x = Some cl /\
    c_id cl' = c_id cl /\ (x <> c -> cl' = cl)).
  { intros x cl' Hx. change (clients s') with (alter f c (clients s)) in Hx.
    apply lookup_alter_Some in Hx as [(<- & cl & Hcl & ->)|[_ Hx]]; [|by exists cl'].
    exists cl. done. }
  assert (Hc' : forall x cl, clients s !! x = Some cl -> exists cl', clients s' !! x = Some cl' /\
    c_id cl' = c_id cl /\ c_token cl' = c_token cl /\ c_joined cl' = c_joined cl /\ (x <> c -> cl' = cl)).
  { intros x cl Hx. change (clients s') with (alter f c (clients s)).
    destruct (decide (c = x)) as [<-|Hne]; [|rewrite lookup_alter_ne by done; by exists cl].
    rewrite lookup_alter_eq, Hx. by exists (f cl). }
  destruct (s_joiner _ _ Hs t c) as (clc & Hclc & _); [by left|done|].
  assert (Hadm : forall x, x ∈ admitted s -> x ∈ admitted s') by (intros x Hx; apply elem_of_app; by left).
  destruct Hs. split; try assumption.
  - intros x cl' (cl & Hcl & _)%Hc. by eapply s_clients0.
  - intros x y cl1 cl2 (a & Ha & Hia & _)%Hc (b & Hb & Hib & _)%Hc Heq. eapply s_unique0; [done..|congruence].
  - intros x d Hx Hd. destruct (s_joiner0 x d Hx Hd) as (cl & Hcl & Htok & Hp).
    destruct (Hc' d cl Hcl) as (cl' & Hcl' & _ & H3 & H4 & _). exists cl'. rewrite H3, H4. done.
  - intros d x token req k Hin. specialize (s_requests0 d x token req k Hin).
    destruct k; try (eapply own_request_mono; [|done]; intros y cl Hy; destruct (Hc' y cl Hy) as (? & ? & ? & _); eauto).
    destruct s_requests0 as (cl & info & rc & Hcl & -> & H1 & H2 & H3 & H4).
    destruct (Hc' d cl Hcl) as (cl' & Hcl' & _ & _ & _ & Heq).
    assert (Hne : d <> c).
    { intros ->. apply elem_of_cons in Hin as [|Hin]; [done|]. by apply (Halone _ Hin). }
    rewrite (Heq Hne) in Hcl'. exists cl, info, rc. split_and!; try done. by apply Hadm.
  - intros x r id Hr Hid. destruct (s_members0 x r id Hr Hid) as (d & cl & Hcl & H1 & H2 & H3 & H4 & H5).
    assert (Hne : d <> c).
    { intros ->. assert (cl = clc) as -> by congruence. apply (s_entering0 t c clc x r); [by left|done..|].
      by rewrite H1. }
    destruct (Hc' d cl Hcl) as (cl' & Hcl' & _ & _ & _ & Heq). rewrite (Heq Hne) in Hcl'.
    exists d, cl. split_and!; try done. by apply Hadm.
  - intros x d cl' y r Hx Hd He (cl & Hcl & -> & _)%Hc Hr. by eapply s_entering0.
  - intros m l d Hm Hd. apply Hadm. by eapply s_joins0.
Qed.

Lemma find_room_settled h s roomName obj :
  SInv h s -> Manager.find_room (mgr s) roomName = Some obj ->
  settled s obj /\ Manager.same_name (Manager.room_name (mgr s) obj) roomName = true.
Proof.
  intros Hs Hf. pose proof (find_room_loaded _ _ _ Hf) as Hin.
  apply List.find_some in Hf as [_ Hn]. split; [|exact Hn].
  pose proof (s_mgr _ _ Hs) as Hm. split.
  - apply (i_objects _ _ _ _ _ Hm). apply elem_of_app. by left.
  - intros Hc. pose proof (i_once _ _ _ _ _ Hm) as Hnd. apply NoDup_app in Hnd as (_ & Hd & _).
    apply (Hd obj Hin). unfold new_objects. rewrite app_nil_r. exact Hc.
Qed.

(** A change of what is broadcast to whom; whoever is in a list was admitted. *)
Lemma sinv_joins h s j :
  (forall n l c, j !! n = Some l -> c ∈ l -> (c, n) ∈ admitted s) -> SInv h s -> SInv h (s <| roomJoins := j |>).
Proof. intros Hj []. by split. Qed.

(** A room's method leaves the clients' fields alone, but for their timers. *)
Definition same_seat (cl cl' : Client) : Prop :=
  c_id cl' = c_id cl /\ c_room cl' = c_room cl /\ c_token cl' = c_token cl /\ c_session cl' = c_session cl /\
  c_isReconnect cl' = c_isReconnect cl /\ c_joined cl' = c_joined cl /\ c_kind cl' = c_kind cl.
Definition same_clients s s' : Prop :=
  (forall c cl, clients s !! c = Some cl -> exists cl', clients s' !! c = Some cl' /\ same_seat cl cl') /\
  (forall x, x ∈ admitted s -> x ∈ admitted s').

#[global] Instance same_clients_preorder : PreOrder same_clients.
Proof.
  split.
  - intros s. split; [|done]. intros c cl Hcl. exists cl. by split.
  - intros s1 s2 s3 [H1 A1] [H2 A2]. split; [|auto]. intros c cl Hcl. destruct (H1 c cl Hcl) as (cl2 & Hcl2 & K2).
    destruct (H2 c cl2 Hcl2) as (cl3 & Hcl3 & K3). exists cl3. split; [done|].
    unfold same_seat in *. destruct_and!. split_and!; congruence.
Qed.

Lemma sc_same s s' : clients s' = clients s -> admitted s' = admitted s -> same_clients s s'.
Proof. intros H1 H2. split; [|by rewrite H2]. intros c cl Hcl. exists cl. rewrite H1. by split. Qed.

Lemma sc_disconnect c s : same_clients s (onClientDisconnect c s).
Proof.
  apply sc_same; unfold onClientDisconnect, removeFromVoice, announce_voice, end_if_empty, end_voice, with_client;
    cbv zeta; repeat case_match; done.
Qed.

Lemma sc_kick c code s : same_clients s (kick c code s).
Proof.
  unfold kick, with_client. destruct (clients s !! c) as [cl|] eqn:Hcl; [|reflexivity].
  destruct (c_kind cl).
  - split; [|done]. intros x clx Hx. change (clients (emit _ _)) with (alter (fun cl : Client => cl <| c_authTimeout := false |>) c (clients s)).
    destruct (decide (c = x)) as [<-|Hne]; [|rewrite lookup_alter_ne by done; exists clx; by split].
    rewrite lookup_alter_eq, Hx. eexists. split; [reflexivity|]. by split_and!.
  - transitivity (emit (OClose c code) s); [by apply sc_same|apply sc_disconnect].
Qed.

Lemma sc_fold {A} (f : Server -> A -> Server) (l : list A) s :
  (forall s x, same_clients s (f s x)) -> same_clients s (fold_left f l s).
Proof.
  intros Hf. revert s. induction l as [|x l IH]; intros s; [reflexivity|]. cbn. etransitivity; [apply Hf|apply IH].
Qed.

Lemma sc_broadcast n m s : same_clients s (broadcast n m s).
Proof.
  unfold broadcast. destruct (roomJoins s !! n); [|reflexivity].
  etransitivity; [|apply sc_fold; intros; by apply sc_same].
  apply sc_fold. intros s' c. unfold cast_to. repeat case_match; try reflexivity. by apply sc_same.
Qed.

Lemma sc_deliver n s e : same_clients s (deliver n s e).
Proof. destruct e; cbn; try apply sc_broadcast. destruct (getClient s _); [apply sc_kick|reflexivity]. Qed.

Lemma sc_run_room obj f s : same_clients s (run_room obj f s).
Proof.
  unfold run_room. destruct (Manager.heap (mgr s) !! obj); [|reflexivity].
  etransitivity; [|apply sc_fold; intros; apply sc_deliver]. by apply sc_same.
Qed.

Lemma sc_kick_all get code fuel i s : same_clients s (kick_all get code fuel i s).
Proof.
  revert i s. induction fuel as [|fuel IH]; intros i s; [reflexivity|]. cbn. destruct (get s !! i); [|reflexivity].
  etransitivity; [apply sc_kick|apply IH].
Qed.

Lemma sc_manage c s : same_clients s (manage c s).
Proof.
  unfold manage. cbv zeta. etransitivity; [|apply sc_fold; intros; unfold published].
  - etransitivity; [|apply sc_fold; intros s' e].
    + by apply sc_same.
    + destruct e; try reflexivity. cbn. unfold onRoomUnload. cbv zeta.
      etransitivity; [apply sc_kick_all|]. by apply sc_same.
  - destruct (Manager.heap (mgr s0) !! x); [|reflexivity]. apply sc_fold. intros. apply sc_deliver.
Qed.

Lemma sinv_enter c obj s : SInv (Some (KJoinAccess c obj)) s -> SInv None (enter c obj s).
Proof.
  intros Hs. unfold enter. destruct (Manager.heap (mgr s) !! obj) as [r|] eqn:Hr; [|by apply (sinv_end_join (KJoinAccess c obj))].
  cbv zeta. pose proof (sinv_set_room c obj (name r) s Hs) as H1.
  set (s1 := on_client c _ _) in *.
  assert (Hadm : (c, name r) ∈ admitted s1) by (apply elem_of_app; right; by left).
  unfold with_client at 1. destruct (clients s1 !! c) as [cl|] eqn:Hcl.
  2: { destruct (s_joiner _ _ H1 (KJoinAccess c obj) c) as (? & ? & _); [by left|done|]. congruence. }
  assert (Hroom : c_room cl = name r).
  { change (clients s1) with (alter (fun cl : Client => cl <| c_room := name r |>) c (clients s)) in Hcl.
    apply lookup_alter_Some in Hcl as [(_ & cl0 & _ & ->)|[? _]]; done. }
  clearbody s1.
  pose proof (sinv_run_room _ s1 obj _ (safe_holdEmpty (c_isReconnect cl)) (quiet_holdEmpty _) H1) as H2.
  destruct (sc_run_room obj (holdEmptyPlaybackForJoin (c_isReconnect cl)) s1) as [S1 S2].
  set (s2 := run_room obj _ s1) in *. clearbody s2.
  destruct (S1 c cl Hcl) as (cl2 & Hcl2 & Hid2 & Hrm2 & Htok2 & _). specialize (S2 _ Hadm).
  set (s3 := _ <| roomJoins ::= _ |>).
  assert (H3 : SInv (Some (KJoinAccess c obj)) s3).
  { apply sinv_joins; [|by apply sinv_emit]. intros n l d Hn Hd. change (admitted (send _ _ _)) with (admitted s2).
    change (roomJoins (send c (MState (name r) (full_state obj s2)) s2)) with (roomJoins s2) in Hn.
    apply lookup_insert_Some in Hn as [[<- <-]|[_ Hn]]; [|by eapply s_joins].
    apply elem_of_app in Hd as [Hd| ->%list_elem_of_singleton]; [|done].
    unfold joins_of in Hd. change (roomJoins (send c (MState (name r) (full_state obj s2)) s2)) with (roomJoins s2) in Hd.
    destruct (roomJoins s2 !! name r) as [l0|] eqn:Hl0; [by eapply s_joins|]. by apply not_elem_of_nil in Hd. }
  assert (Hjoin : SInv None (after_join c obj s3)).
  { apply sinv_after_join. by apply (sinv_swap (KJoinAccess c obj)). }
  assert (Hcl3 : clients s3 !! c = Some cl2) by exact Hcl2.
  assert (Hadm3 : (c, name r) ∈ admitted s3) by exact S2. clearbody s3.
  unfold makeRoomRequest. rewrite Hcl3. destruct (truthy_string (c_token cl2)) as [token|]; [|exact Hjoin].
  destruct (Manager.find_room (mgr s3) (c_room cl2)) as [obj'|] eqn:Hf; [|exact Hjoin].
  destruct (find_room_settled _ _ _ _ H3 Hf) as [Hset Hnm]. apply sinv_suspend.
  apply (sinv_swap (KJoinAccess c obj)); try done; [by left|].
  intros d o tok req k [= <- <- <- <- <-]. exists cl2, (getClientInfo cl), (c_isReconnect cl).
  split_and!; try done; [|by rewrite Hrm2, Hroom].
  rewrite Hid2. unfold getClientInfo. by destruct (c_session cl) as [[|]|].
Qed.
End Enter.

(** ** Authentication *)

Section Auth.
Context `{E : Env} {LL : LodashLaws env_lodash} `{C : VoiceConf}.
Implicit Types (s : Server) (h : option task).

Lemma connected_iff s c : connected s c = true <-> c ∈ connections s.
Proof. unfold connected. apply bool_decide_eq_true. Qed.

Lemma sinv_join_room c token session id res s :
  SInv (Some (KJoinRoom c token session id)) s -> SInv None (join_room c token session res s).
Proof.
  intros Hs. set (t := KJoinRoom c token session id) in *.
  assert (Hend : forall s', SInv (Some t) s' -> SInv None (end_join c s')) by (intros s'; by apply sinv_end_join).
  assert (Hfail : SInv None (fail_join c s)) by by apply (sinv_fail_join t).
  unfold join_room. destruct res as [obj| | |e]; try exact Hfail.
  2: { destruct (connected s c); [by apply Hend, sinv_kick|by apply Hend]. }
  destruct (connected s c) eqn:Hc; cbn [negb]; [|by apply Hend]. apply connected_iff in Hc.
  destruct (Manager.heap (mgr s) !! obj) as [r|]; [|by apply Hend].
  assert (Ha : SInv (Some (KJoinAccess c obj)) s).
  { apply (sinv_swap t); try done. intros d _ [= <-]. right. by left. }
  destruct (access_now r token session) as [[]|]; [by apply sinv_enter| |by apply sinv_suspend].
  apply (sinv_end_join (KJoinAccess c obj)); try done. by apply sinv_kick.
Qed.

(** Asking for a room keeps what is held. *)
Lemma sinv_ask h c k s :
  (forall id, joiner (k id) = None /\ forall d o tok req a, k id <> KRequest d o tok req a) ->
  SInv h s -> SInv h (ask_room c k s).
Proof.
  intros Hk Hs. unfold ask_room, with_client. destruct (clients s !! c); [|done].
  apply sinv_suspend_new; [apply Hk| |by apply sinv_manage].
  intros d o tok req a Heq. destruct (proj2 (Hk _) d o tok req a Heq).
Qed.

(** The authentication is over, and a promise stands for the join that begins. *)
Lemma sinv_promise t t' c s cl :
  joiner t = Some c -> joiner t' = Some c -> promised t' = true -> past t' = false -> entering t = true -> leaver t = None -> leaver t' = None ->
  (forall d o tok req a, t' <> KRequest d o tok req a) ->
  clients s !! c = Some cl -> c_joined cl = true ->
  SInv (Some t) s -> SInv (Some t') (s <| pendingRoomJoins ::= fun p => p ∪ {[c]} |>).
Proof.
  intros Hj Hj' Hpt Hpa He Hl Hl' Hnr Hcl Hjn Hs. pose proof (joiner_alone t c s Hs Hj) as Halone. destruct Hs.
  set (s' := s <| pendingRoomJoins ::= _ |>).
  assert (Hlv : omap leaver (live (Some t') s') = omap leaver (live (Some t) s)) by (cbn; by rewrite Hl, Hl').
  split; unfold present in *; rewrite ?Hlv; try assumption.
  - cbn in *. rewrite Hj in s_joiners0. by rewrite Hj'.
  - intros x d [->|Hx]%elem_of_cons Hd.
    + assert (d = c) as -> by congruence. destruct (s_joiner0 t c) as (cl' & Hcl' & Htok & _); [by left|done|].
      exists cl'. split_and!; try done. intros _. split; [congruence|].
      change (c ∈ pendingRoomJoins s ∪ {[c]}). apply elem_of_union. right. by apply elem_of_singleton.
    + destruct (s_joiner0 x d) as (cl' & ? & ? & Hp); [by right|done|]. exists cl'. split_and!; try done.
      intros Hxp. destruct (Hp Hxp) as [? ?]. split; [done|]. change (d ∈ pendingRoomJoins s ∪ {[c]}).
      apply elem_of_union. by left.
  - intros d Hd. change (d ∈ pendingRoomJoins s ∪ {[c]}) in Hd.
    destruct (decide (d = c)) as [->|Hne].
    + exists t'. split; [by left|]. done.
    + apply elem_of_union in Hd as [Hd|Hd%elem_of_singleton]; [|done].
      destruct (s_pending0 d Hd) as (x & [->|Hx]%elem_of_cons & Hxj & Hxp); [congruence|].
      exists x. split; [by right|done].
  - intros x d [->|Hx]%elem_of_cons Hd Hp; [congruence|]. eapply s_past0; [by right|done..].
  - intros d o tok req k [Heq|Hx]%elem_of_cons; [by destruct (Hnr d o tok req k)|].
    eapply s_requests0. by right.
  - intros x d cl' o r [->|Hx]%elem_of_cons Hd Hxe.
    + assert (d = c) as -> by congruence. apply (s_entering0 t c cl' o r); [by left|done..].
    + apply (s_entering0 x d cl' o r); [by right|done..].
Qed.

Lemma sinv_drop_auth c token s : SInv (Some (KAuth c token)) s -> SInv None s.
Proof.
  intros []. split; unfold present in *; try assumption.
  - cbn in s_joiners0. by apply NoDup_cons in s_joiners0 as [_ ?].
  - intros x d Hx. apply (s_joiner0 x d). by right.
  - intros d Hd. destruct (s_pending0 d Hd) as (x & [->|Hx]%elem_of_cons & Hxj & Hxp); [done|by exists x].
  - intros x d Hx. apply (s_past0 x d). by right.
  - intros d o tok req k Hk. apply (s_requests0 d o tok req k). by right.
  - intros x d cl o r Hx. apply (s_entering0 x d cl o r). by right.
Qed.

Lemma sc_lookup s s' c cl : same_clients s s' -> clients s !! c = Some cl ->
  exists cl', clients s' !! c = Some cl' /\ same_seat cl cl'.
Proof. intros [H _]. apply H. Qed.

Lemma sinv_after_auth c token s : SInv (Some (KAuth c token)) s -> SInv None (after_auth c token s).
Proof.
  intros Hs. unfold after_auth. destruct (env_getSessionInfo token) as [e|session].
  { apply sinv_kick. by eapply sinv_drop_auth. }
  cbv zeta. set (f := fun cl : Client => cl <| c_session := Some session |> <| c_joined := true |>).
  assert (H1 : SInv (Some (KAuth c token)) (on_client c f s)) by by apply sinv_on_client.
  destruct (s_joiner _ _ Hs (KAuth c token) c) as (cl0 & Hcl0 & _); [by left|done|].
  assert (Hcl : clients (on_client c f s) !! c = Some (f cl0)).
  { change (alter f c (clients s) !! c = Some (f cl0)). by rewrite lookup_alter_eq, Hcl0. }
  set (s1 := on_client c f s) in *. clearbody s1. unfold with_client at 1. rewrite Hcl.
  unfold onClientAuth, ask_room, with_client. rewrite Hcl. cbv zeta.
  set (id := Manager.nextCall (mgr s1)). set (tok := default ""%string (c_token (f cl0))).
  pose proof (sinv_manage _ (Manager.GetRoom (c_room (f cl0)) false) s1 eq_refl H1) as H2.
  destruct (sc_lookup _ _ _ _ (sc_manage (Manager.GetRoom (c_room (f cl0)) false) s1) Hcl) as (cl2 & Hcl2 & Hs2).
  set (s2 := manage _ s1) in *. clearbody s2.
  assert (Hj2 : c_joined cl2 = true).
  { destruct Hs2 as (_ & _ & _ & _ & _ & -> & _). done. }
  pose proof (sinv_promise (KAuth c token) (KJoinRoom c tok session id) c s2 cl2 eq_refl eq_refl eq_refl eq_refl eq_refl eq_refl eq_refl
    ltac:(done) Hcl2 Hj2 H2) as H3.
  apply sinv_suspend in H3. revert H3. apply sinv_perm; done.
Qed.

(** A client that had no token starts to authenticate. *)
Lemma sinv_auth c token s : SInv None s -> SInv None (auth c token s).
Proof.
  intros Hs. unfold auth, with_client. destruct (clients s !! c) as [cl|] eqn:Hcl; [|done].
  destruct (c_token cl) eqn:Htok; [rewrite orb_true_r; by apply sinv_kick|].
  destruct (valid_token token); cbn [negb orb]; [|by apply sinv_kick].
  set (f := fun cl : Client => cl <| c_token := Some token |>).
  assert (Hnone : forall t, t ∈ live None s -> joiner t <> Some c).
  { intros t Ht Hj. destruct (s_joiner _ _ Hs t c Ht Hj) as (cl' & Hcl' & [x Hx] & _). congruence. }
  assert (Hout : forall o r, Manager.heap (mgr s) !! o = Some r -> c_id cl ∉ member_ids r).
  { intros o r Hr Hid. destruct (s_members _ _ Hs o r _ Hr Hid) as (d & cl' & Hcl' & Hid' & [_ [x Hx]] & _).
    assert (d = c) as -> by by eapply s_unique. congruence. }
  assert (H1 : SInv None (on_client c f s)) by (apply sinv_on_client; [|done]; intros x; split_and!; by eauto).
  assert (Hcl1 : clients (on_client c f s) !! c = Some (f cl)).
  { change (alter f c (clients s) !! c = Some (f cl)). by rewrite lookup_alter_eq, Hcl. }
  assert (Hl : live None (on_client c f s) = live None s) by done.
  assert (Hm : mgr (on_client c f s) = mgr s) by done.
  set (s1 := on_client c f s) in *. clearbody s1.
  pose proof (live_suspend_perm None (KAuth c token) s1) as Hp.
  assert (Hin : forall x, x ∈ live None (suspend (KAuth c token) s1) -> x = KAuth c token \/ x ∈ live None s).
  { intros x Hx. rewrite Hp in Hx. apply elem_of_cons in Hx as [|Hx]; [by left|right]. by rewrite <- Hl. }
  assert (Hlv : forall x, x ∈ omap leaver (live None s1) -> x ∈ omap leaver (live None (suspend (KAuth c token) s1))).
  { intros x Hx. rewrite Hp. exact Hx. }
  destruct H1. split; unfold present in *; try assumption.
  - rewrite Hp. cbn. apply NoDup_cons. split; [|done].
    intros (x & Hx & Hxj)%list_elem_of_omap. apply (Hnone x); [by rewrite <- Hl|done].
  - intros x d [->|Hx]%Hin Hd.
    + injection Hd as <-. exists (f cl). split; [done|]. split; [by eexists|]. done.
    + rewrite <- Hl in Hx. by apply s_joiner0.
  - intros d Hd. destruct (s_pending0 d Hd) as (x & Hx & H). exists x. split; [|done]. rewrite Hp. by right.
  - intros x d [->|Hx]%Hin Hd Hpa; [done|]. rewrite <- Hl in Hx.
    destruct (s_past0 x d Hx Hd Hpa) as [|Hq]; [by left|right]. by apply Hlv.
  - intros d o tok req k [Heq|Hx]%Hin; [done|]. rewrite <- Hl in Hx. by eapply s_requests0.
  - intros o r id Ho Hid. destruct (s_members0 o r id Ho Hid) as (d & cl' & ? & ? & ? & ? & ? & Hpr).
    exists d, cl'. split_and!; try done. intros Hob. destruct (Hpr Hob) as [|Hq]; [by left|right]. by apply Hlv.
  - intros x d cl' o r [->|Hx]%Hin Hd He Hcl' Hr.
    + injection Hd as <-. change (clients s1 !! c = Some cl') in Hcl'.
      assert (cl' = f cl) as -> by congruence. apply (Hout o). by rewrite <- Hm.
    + rewrite <- Hl in Hx. by apply (s_entering0 x d cl' o r).
Qed.
End Auth.

(** ** Leaving *)

(** No two loaded rooms have the same name up to case. *)
Definition names_unique (m : Manager.Manager) : Prop := NoDup (map (low_name m) (Manager.rooms m)).

Lemma names_unique_eq m a b :
  names_unique m -> a ∈ Manager.rooms m -> b ∈ Manager.rooms m -> low_name m a = low_name m b -> a = b.
Proof.
  intros Hn [i Hi]%list_elem_of_lookup [j Hj]%list_elem_of_lookup Heq.
  assert (Hij : i = j).
  { apply (NoDup_lookup _ _ _ (low_name m a) Hn); rewrite list_lookup_fmap; [by rewrite Hi|by rewrite Hj, Heq]. }
  congruence.
Qed.

Section Leaving.
Context `{E : Env} {LL : LodashLaws env_lodash} `{C : VoiceConf}.
Implicit Types (s : Server) (h : option task).

(** A disconnect that has nothing more to wait for may end when its client is in no loaded room. *)
Lemma sinv_gone t c s :
  joiner t = None -> leaver t = Some c -> SInv (Some t) s ->
  (c ∉ pendingRoomJoins s \/ clients s !! c = None) ->
  (forall cl obj r, clients s !! c = Some cl -> obj ∈ Manager.rooms (mgr s) ->
     Manager.heap (mgr s) !! obj = Some r -> c_id cl ∉ member_ids r) ->
  SInv None s.
Proof.
  intros Hj Hlv [] Hc Hout.
  assert (Hl : omap leaver (live (Some t) s) = c :: omap leaver (tasks s)) by (cbn; by rewrite Hlv).
  split; unfold present in *; rewrite ?Hl in *; try assumption.
  - cbn in s_joiners0. by rewrite Hj in s_joiners0.
  - intros x d Hx. apply (s_joiner0 x d). by right.
  - intros d Hd. destruct (s_pending0 d Hd) as (x & [->|Hx]%elem_of_cons & Hxj & Hxp); [congruence|by exists x].
  - intros x d Hx Hxj Hp. destruct (s_past0 x d) as [|Hq]; [by right|done..|by left|].
    apply elem_of_cons in Hq as [->|Hq]; [|by right].
    destruct (s_joiner0 x c) as (cl & Hcl & _ & Hpr); [by right|done|]. destruct Hc as [[]|Hc]; [|congruence].
    apply Hpr. by destruct x.
  - intros d o tok req k Hk. apply (s_requests0 d o tok req k). by right.
  - intros o r id Hr Hid. destruct (s_members0 o r id Hr Hid) as (d & cl & Hcl & H2 & H3 & H4 & H5 & Hpr).
    exists d, cl. split_and!; try done. intros Hob. destruct (Hpr Hob) as [|Hq]; [by left|].
    apply elem_of_cons in Hq as [->|Hq]; [|by right].
    exfalso. apply (Hout cl o r Hcl Hob Hr). by rewrite H2.
  - intros x d cl o r Hx. apply (s_entering0 x d cl o r). by right.
Qed.

#[local] Ltac gone := match goal with Hs : SInv (Some (KAwaitJoin ?c)) _ |- _ =>
  apply (sinv_gone (KAwaitJoin c) c); try done; [by left|] end.

Lemma sinv_leave c s :
  SInv (Some (KAwaitJoin c)) s -> c ∉ pendingRoomJoins s -> names_unique (mgr s) -> SInv None (leave c s).
Proof.
  intros Hs Hc Hn. unfold leave, with_client. destruct (clients s !! c) as [cl|] eqn:Hcl.
  2: { gone. intros cl' obj r Hcl'. congruence. }
  (* a member of a loaded room is in the room of its name *)
  assert (Hmem : forall obj r, obj ∈ Manager.rooms (mgr s) -> Manager.heap (mgr s) !! obj = Some r ->
    c_id cl ∈ member_ids r -> c_joined cl = true /\ Manager.find_room (mgr s) (c_room cl) = Some obj).
  { intros obj r Ho Hr Hid. destruct (s_members _ _ Hs obj r _ Hr Hid) as (d & cl' & Hcl' & Hid' & [Hj _] & Hnm & _).
    assert (d = c) as -> by by eapply s_unique. assert (cl' = cl) as -> by congruence. split; [done|].
    assert (Hnm' : Manager.same_name (Manager.room_name (mgr s) obj) (c_room cl) = true)
      by (unfold Manager.room_name; by rewrite Hr).
    destruct (Manager.find_room (mgr s) (c_room cl)) as [o|] eqn:Hf.
    - pose proof (find_room_loaded _ _ _ Hf) as Hoin. apply List.find_some in Hf as [_ Ho'].
      f_equal. eapply names_unique_eq; try done. unfold low_name.
      apply bool_decide_eq_true in Ho', Hnm'. congruence.
    - exfalso. pose proof (List.find_none _ _ Hf obj (proj1 (list_elem_of_In _ _) Ho)) as Hf'. cbn in Hf'. congruence. }
  destruct (c_joined cl) eqn:Hj; cbn [negb].
  2: { gone. intros cl' obj r Hcl' Ho Hr Hid. assert (cl' = cl) as -> by congruence.
       by destruct (Hmem obj r Ho Hr Hid). }
  destruct (Manager.find_room (mgr s) (c_room cl)) as [obj|] eqn:Hf.
  2: { gone. intros cl' o r Hcl' Ho Hr Hid. assert (cl' = cl) as -> by congruence.
       by destruct (Hmem o r Ho Hr Hid). }
  destruct (find_room_settled _ _ _ _ Hs Hf) as [[[r Hr] _] _]. rewrite Hr.
  destruct (getUser r (c_id cl)) as [u|] eqn:Hu.
  2: { gone. intros cl' o r' Hcl' Ho Hr' Hid. assert (cl' = cl) as -> by congruence.
       destruct (Hmem o r' Ho Hr' Hid) as [_ [= <-]]. assert (r' = r) as -> by congruence.
       apply member_iff in Hid. rewrite Hu in Hid. by destruct Hid. }
  apply sinv_broadcast. unfold run_room. rewrite Hr. apply sinv_fold; [intros; by apply sinv_deliver|].
  set (f := fun r => (processRequestUnsafe LeaveRequest (c_id cl) r).2).
  apply (sinv_gone (KAwaitJoin c) c); [done..|by apply sinv_on_room; [apply safe_leave|apply quiet_leave|]|by left|].
  intros cl' o r' Hcl' Ho Hr' Hid. change (clients s !! c = Some cl') in Hcl'. assert (cl' = cl) as -> by congruence.
  change (o ∈ Manager.rooms (mgr s)) in Ho. change (alter f obj (Manager.heap (mgr s)) !! o = Some r') in Hr'.
  destruct (decide (obj = o)) as [<-|Hne].
  - rewrite lookup_alter_eq, Hr in Hr'. injection Hr' as <-.
    destruct (members_leave (c_id cl) r) as [Hnot _]; [by eapply s_nodup|apply member_iff; by eexists|]. done.
  - rewrite lookup_alter_ne in Hr' by done. by destruct (Hmem o r' Ho Hr' Hid) as [_ [= ->]].
Qed.
End Leaving.
