(* ===== verification/ClientManagerSteps.v ===== *)
(** * ClientManagerSteps: every input keeps the invariant of a server

    The handlers that neither join nor leave, the resumption of every waiting handler, and the
    servers that a run of orderly inputs reaches. *)

From S2P Require Import Prelude Types Permissions VideoQueue RoomModel RoomPlayback RoomRequests.
From S2P Require Import RoomLifecycle RoomInvariants RoomReach RoomMembers RoomManager.
From S2P Require Import RoomManagerFacts RoomManagerTheorems RoomManagerMembers Voice ClientManager.
From S2P Require Import ClientManagerFacts.

Import Clients Voice.

Section Steps.
Context `{E : Env} {LL : LodashLaws env_lodash} `{C : VoiceConf}.
Implicit Types (s : Server) (h : option task).

(** ** Voice *)

(** The task of a voice announcement. *)
Definition leaves_after (c : nat) (k : after_voice) : option nat :=
  match k with VReport => None | VDisconnect => Some c end.

Lemma sinv_announce h c roomName anybody k s : SInv h s -> SInv h (announce_voice c roomName anybody k s).
Proof. intros Hs. unfold announce_voice. repeat case_match; by apply sinv_suspend_new. Qed.

Lemma sinv_end_if_empty h roomName n s : SInv h s -> SInv h (end_if_empty roomName n s).
Proof. unfold end_if_empty, end_voice. case_match; by apply sinv_same. Qed.

Lemma sinv_presence h c roomName n s : SInv h s -> SInv h (presence_changed c roomName n s).
Proof. intros Hs. by apply sinv_announce, sinv_end_if_empty. Qed.

Lemma sinv_open_set h roomName s : SInv h s -> SInv h (open_set roomName s).2.
Proof. unfold open_set. case_match; by apply sinv_same. Qed.

Lemma sinv_sets h f s : SInv h s -> SInv h (s <| voiceSets ::= f |>).
Proof. by apply sinv_same. Qed.

Lemma sinv_setVoicePresence h c b s : SInv h s -> SInv h (setVoicePresence c b s).
Proof.
  intros Hs. unfold setVoicePresence, with_client. destruct (clients s !! c) as [cl|]; [|done]. cbv zeta.
  destruct (_ || _); [destruct b; [by apply sinv_emit|done]|].
  pose proof (sinv_open_set h (c_room cl) s Hs) as H1. destruct (open_set (c_room cl) s) as [n s1]. cbn [snd] in H1.
  destruct (b && _).
  - unfold await_decision. cbv zeta.
    match goal with |- SInv h (over _ ?x) => apply (sinv_same h x); [done..|] end. by apply sinv_suspend_new.
  - apply sinv_presence. destruct b; [done|by apply sinv_sets].
Qed.

Lemma sinv_voice_decided h c n d s : SInv h s -> SInv h (voice_decided c n d s).
Proof.
  intros Hs. unfold voice_decided, with_client. destruct (clients s !! c) as [cl|]; [|done]. cbv zeta.
  destruct (negb (allowed d)); [by apply sinv_emit, sinv_end_if_empty|]. apply sinv_presence.
  unfold add_to_set. case_bool_decide; [done|by apply sinv_sets].
Qed.

Lemma sinv_relayVoiceSignal h c to x s : SInv h s -> SInv h (relayVoiceSignal c to x s).
Proof.
  intros Hs. unfold relayVoiceSignal, with_client. repeat case_match; try done. by apply sinv_emit.
Qed.

Lemma sinv_after_voice t c k failed s :
  joiner t = None -> promised t = true -> leaver t = leaves_after c k ->
  SInv (Some t) s -> SInv None (after_voice_sent c k failed s).
Proof.
  intros Hj Hp Hl Hs. destruct k; cbn in *.
  - assert (Hd : SInv None s) by by apply (sinv_drop t). destruct failed; [by apply sinv_emit|done].
  - apply sinv_suspend. by apply (sinv_swap t).
Qed.

Lemma sinv_relay_selected c roomName sel k s :
  SInv (Some (KSelectRelay c roomName k)) s -> SInv None (relay_selected c roomName sel k s).
Proof.
  intros Hs. unfold relay_selected. cbv zeta.
  assert (H1 : SInv (Some (KSelectRelay c roomName k))
                 match sel with Some x => s <| roomRelayChannels ::= <[roomName := x]> |> | None => s end).
  { destruct sel; [by apply (sinv_same _ s)|done]. }
  set (s1 := match sel with Some _ => _ | None => _ end) in *. clearbody s1.
  unfold with_client. destruct (clients s1 !! c) as [cl|] eqn:Hcl.
  - apply sinv_suspend. by apply (sinv_swap (KSelectRelay c roomName k)).
  - destruct k; [by apply (sinv_drop (KSelectRelay c roomName VReport))|].
    apply (sinv_gone (KSelectRelay c roomName VDisconnect) c); try done; [by right|]. intros cl obj r Hcl'. congruence.
Qed.

(** ** Requests that are no joins *)

Lemma sinv_makeRequest h c req k s s' now :
  makeRoomRequest c req k s = Some (s', now) -> (forall o, k <> AfterJoin o) -> own_request s c req ->
  SInv h s -> SInv h s'.
Proof.
  intros Hm Hk Hj Hs. unfold makeRoomRequest in Hm.
  destruct k as [|o|]; [|by destruct (Hk o)|].
  all: repeat case_match; simplify_eq; try assumption; apply sinv_suspend_new; try done.
  all: by intros ? ? ? ? ? [= <- <- <- <- <-].
Qed.

Lemma sinv_client_request h c req s : own_request s c req -> SInv h s -> SInv h (client_request c req s).
Proof.
  intros Hj Hs. unfold client_request. destruct (makeRoomRequest _ _ _ _) as [[s' d]|] eqn:Hm; [|by apply sinv_kick].
  by apply (sinv_makeRequest _ _ _ _ _ _ _ Hm).
Qed.

(** What a client's request is checked to is of the type it was sent as. *)
Lemma checked_type w req : checked_request w = inr req -> request_type req = wire_type w.
Proof.
  unfold checked_request. intros H. destruct w as [l|r]; cbn.
  - repeat case_match; simplify_eq; done.
  - destruct r; repeat case_match; simplify_eq; done.
Qed.

Lemma sinv_user_modified h token next s : SInv h s -> SInv h (user_modified token next s).
Proof.
  intros Hs. unfold user_modified. cbv zeta. destruct (list_find _ _) as [[i c]|]; [|done]. by apply sinv_suspend_new.
Qed.

Lemma sinv_process_message h c m s : SInv h s -> SInv h (process_message c m s).
Proof.
  intros Hs. unfold process_message, with_client. destruct (clients s !! c) as [cl|] eqn:Hcl; [|done].
  destruct m as [t0|rs|st p| |[w|]|j|to x|ch].
  - by apply sinv_emit.
  - by apply sinv_kick.
  - apply sinv_client_request; [|done]. right. eexists cl, _, _. split_and!; [exact Hcl|reflexivity..].
  - apply sinv_client_request; [|done]. right. eexists cl, _, _. split_and!; [exact Hcl|reflexivity..].
  - destruct (client_request_type (wire_type w)) eqn:Ht; cbn [negb]; [|by apply sinv_kick].
    destruct (checked_request w) as [e|req] eqn:Hw; [by apply sinv_emit|].
    apply sinv_client_request; [|done]. left. by rewrite (checked_type w req Hw).
  - by apply sinv_kick.
  - by apply sinv_setVoicePresence.
  - by apply sinv_relayVoiceSignal.
  - destruct ch; [|done]. destruct (c_token cl); [by apply sinv_user_modified|done].
Qed.

Lemma sinv_onClientMessage h c m s : SInv h s -> SInv h (onClientMessage c m s).
Proof.
  intros Hs. unfold onClientMessage, consumeMessageBudget.
  destruct (consume _ _ _) as [ok b].
  assert (H1 : SInv h (s <| messageBuckets ::= <[c := b]> |>)) by by apply (sinv_same _ s).
  destruct ok; [by apply sinv_process_message|by apply sinv_emit].
Qed.

Lemma sinv_onData c d s : SInv None s -> SInv None (onData c d s).
Proof.
  intros Hs. unfold onData, with_client. destruct (clients s !! c) as [cl|]; [|done]. destruct d as [|t|t|m].
  - by apply sinv_kick.
  - by apply sinv_auth.
  - unfold reauthenticate. case_match; [|done]. by apply sinv_suspend_new.
  - destruct (c_joined cl); cbn [negb]; [|by apply sinv_kick].
    destruct m; try by apply sinv_onClientMessage. case_match; [done|]. apply sinv_emit, sinv_on_client; [|done].
    by intros x.
Qed.

(** ** New identities *)

Lemma sinv_after_reauth h c token s : SInv h s -> SInv h (after_reauth c token s).
Proof.
  intros Hs. unfold after_reauth. destruct (env_getSessionInfo token) as [e|session]; [done|]. cbv zeta.
  apply sinv_ask; [done|]. apply sinv_on_client; [|done]. intros x. split_and!; done.
Qed.

Lemma sinv_reauth_room h c token res s : SInv h s -> SInv h (reauth_room c token res s).
Proof.
  intros Hs. unfold reauth_room, with_client. repeat case_match; try done.
  apply sinv_emit, sinv_run_room; [apply safe_reauth|apply quiet_reauth|done].
Qed.

Lemma sinv_modified_step h c token next s : SInv h s -> SInv h (modified_step c token next s).
Proof.
  intros Hs. unfold modified_step. destruct (env_getSessionInfo token) as [e|session]; [done|]. cbv zeta.
  set (f := fun cl : Client => cl <| c_session := Some session |>).
  assert (H1 : SInv h (on_client c f s)) by (apply sinv_on_client; [|done]; by intros x).
  set (s1 := on_client c f s) in *. clearbody s1. unfold with_client.
  destruct (clients s1 !! c) as [cl|] eqn:Hcl; [|done].
  destruct (makeRoomRequest _ _ _ _) as [[s' d]|] eqn:Hm; [|done].
  assert (Ho : own_request s1 c (UpdateUser (getClientInfo cl) None)).
  { right. eexists cl, _, _. split_and!; [exact Hcl|reflexivity|]. unfold getClientInfo. by repeat case_match. }
  assert (H2 : SInv h s') by by apply (sinv_makeRequest _ _ _ _ _ _ _ Hm). destruct d; [by apply sinv_user_modified|done].
Qed.

(** ** A request is processed *)

Lemma sinv_perform_request c obj token req k s :
  SInv (Some (KRequest c obj token req k)) s -> SInv None (perform_request c obj token req k s).
Proof.
  intros Hs. pose proof (s_requests _ _ Hs c obj token req k ltac:(by left)) as Hok. unfold perform_request.
  destruct k as [|o|t next].
  - assert (Hp : forall s', SInv (Some (KRequest c obj token req AfterMessage)) s' -> SInv None s')
      by (intros s'; by apply sinv_drop).
    repeat case_match; auto; cbv zeta.
    all: try apply sinv_emit; apply Hp, sinv_run_room; [apply safe_unauthorized|apply quiet_unauthorized; by eapply own_no_join|done].
  - destruct Hok as (cl & info & rc & Hcl & _ & _ & [[r Hr] _] & _). rewrite Hr, Hcl. cbv zeta.
    apply sinv_after_join. by apply (sinv_join c obj o token req).
  - assert (Hp : forall s', SInv (Some (KRequest c obj token req (AfterModified t next))) s' -> SInv None s')
      by (intros s'; by apply sinv_drop).
    repeat case_match; auto; cbv zeta.
    all: try apply sinv_user_modified; apply Hp, sinv_run_room; [apply safe_unauthorized|apply quiet_unauthorized; by eapply own_no_join|done].
Qed.

(** ** Resuming *)

Lemma sinv_resume t a s s' :
  names_unique (mgr s) -> SInv (Some t) s -> resume t a s = Some s' -> SInv None s'.
Proof.
  intros Hn Hs Hr. destruct t as [c token|c token|c token id|c token session id|c obj|c obj|c roomName sel
    |c obj token req k|c token next|c roomName k|c roomName sel k|c n d|c]; cbn in Hr.
  - simplify_eq. by apply sinv_after_auth.
  - simplify_eq. apply sinv_after_reauth. by apply (sinv_drop (KReauth c token)).
  - apply fmap_Some in Hr as (res & _ & ->). apply sinv_reauth_room. by apply (sinv_drop (KReauthRoom c token id)).
  - apply fmap_Some in Hr as (res & _ & ->). by apply (sinv_join_room c token session id).
  - destruct a as [|[]| | |]; simplify_eq; [by apply sinv_enter|..].
    + unfold refuse. apply (sinv_end_join (KJoinAccess c obj)); try done. by apply sinv_kick.
    + by apply (sinv_fail_join (KJoinAccess c obj)).
  - destruct a; simplify_eq.
    + apply fmap_Some in Hr as (r & _ & ->). by apply sinv_finish_join.
    + by apply (sinv_fail_join (KJoinNotes c obj)).
  - destruct a; simplify_eq.
    + apply (sinv_end_join (KJoinVoice c roomName sel)); try done. by apply sinv_emit.
    + by apply (sinv_fail_join (KJoinVoice c roomName sel)).
  - simplify_eq. by apply sinv_perform_request.
  - simplify_eq. apply sinv_modified_step. by apply (sinv_drop (KModified c token next)).
  - destruct a; simplify_eq; [by apply sinv_relay_selected|].
    apply (sinv_after_voice (KSelectRelay c roomName k)); done.
  - destruct a; simplify_eq.
    + unfold voice_sent. apply (sinv_after_voice (KVoiceIce c roomName sel k)); try done.
      by apply sinv_broadcast.
    + apply (sinv_after_voice (KVoiceIce c roomName sel k)); done.
  - simplify_eq. apply sinv_voice_decided. by apply (sinv_drop (KVoiceDecided c n d)).
  - case_bool_decide; simplify_eq. by apply sinv_leave.
Qed.

(** ** Inputs *)

(** The ids of new clients are fresh. *)
Definition fresh_id (s : Server) (id : ClientId) : Prop := forall c cl, clients s !! c = Some cl -> c_id cl <> id.

Lemma sinv_new_client kind id roomName rc s : fresh_id s id -> SInv None s -> SInv None (new_client kind id roomName rc s).
Proof.
  intros Hid []. unfold new_client. set (n := nextClient s).
  set (new := MkClient kind id roomName None None false rc true (bool_decide (kind = Direct)) 0 true).
  set (s1 := s <| clients ::= _ |> <| connections ::= _ |> <| nextClient ::= _ |>).
  assert (Hc : forall x cl, clients s1 !! x = Some cl -> (x = n /\ cl = new) \/ (x <> n /\ clients s !! x = Some cl)).
  { intros x cl Hx. change (<[n := new]> (clients s) !! x = Some cl) in Hx.
    apply lookup_insert_Some in Hx as [[<- <-]|[Hne Hx]]; [by left|right]. by split. }
  assert (Hold : forall x cl, clients s !! x = Some cl -> clients s1 !! x = Some cl).
  { intros x cl Hx. change (<[n := new]> (clients s) !! x = Some cl).
    rewrite lookup_insert_ne; [done|]. intros Heq. specialize (s_clients x cl Hx). unfold n in Heq. lia. }
  assert (Hpr : forall x, present None s x -> present None s1 x).
  { intros x [Hx|Hx]; [left|by right]. change (x ∈ connections s ++ [n]). apply elem_of_app. by left. }
  split; try assumption.
  - intros x cl Hx. change (nextClient s1) with (S n). destruct (Hc x cl Hx) as [[-> _]|[_ Hx']]; [lia|].
    specialize (s_clients x cl Hx'). unfold n. lia.
  - intros x y cl cl' [[-> ->]|[_ Hx]]%Hc [[-> ->]|[_ Hy]]%Hc Heq; try done.
    + by destruct (Hid y cl' Hy).
    + by destruct (Hid x cl Hx).
    + by eapply s_unique.
  - intros t x Ht Hj. destruct (s_joiner t x Ht Hj) as (cl & Hcl & H). exists cl. split; [by apply Hold|done].
  - intros t x Ht Hj Hp. apply Hpr. by eapply s_past.
  - intros x obj token req k Hk. specialize (s_requests x obj token req k Hk).
    destruct k; try (eapply own_request_mono; [|done]; intros y cl Hy; exists cl; by split; [apply Hold|]).
    destruct s_requests as (cl & info & rc' & Hcl & H). exists cl, info, rc'. split; [by apply Hold|done].
  - intros obj r i Hr Hi. destruct (s_members obj r i Hr Hi) as (x & cl & Hcl & H1 & H2 & H3 & H4 & H5).
    exists x, cl. split; [by apply Hold|]. split_and!; try done. auto.
  - intros t x cl obj r Ht Hj He Hx Hr. destruct (Hc x cl Hx) as [[-> _]|[_ Hx']]; [|by eapply s_entering].
    destruct (s_joiner t n Ht Hj) as (cl' & Hcl' & _). specialize (s_clients n cl' Hcl'). unfold n in s_clients. lia.
Qed.

(** What comes from outside: clients have fresh ids, and nobody is put into a room but by
    its connection. *)
Definition orderly (i : input) (s : Server) : Prop :=
  match i with
  | IConnect id _ _ | IBalancerJoin _ id _ _ => fresh_id s id
  | IManage c => adds_nobody c = true
  | _ => True
  end.

Lemma sinv_sweep_client h s c : SInv h s -> SInv h (sweep_client s c).
Proof.
  intros Hs. unfold sweep_client, with_client. repeat case_match; try done; [|by apply sinv_emit].
  apply sinv_emit, sinv_on_client; [|done]. by intros x.
Qed.

Lemma sinv_run i s : orderly i s -> names_unique (mgr s) -> SInv None s -> SInv None (run i s).
Proof.
  intros Ho Hn Hs. destruct i as [id roomName rc|c d|c|c|c|conn id roomName token|id|id m|conn|c|text|token| | |i a]; cbn [run].
  - by apply sinv_new_client.
  - unfold with_client. repeat case_match; try done. by apply sinv_onData.
  - apply sinv_on_client; [|done]. by intros x.
  - unfold with_client. repeat case_match; try done. by apply sinv_kick.
  - unfold with_client. repeat case_match; try done. apply sinv_disconnect, sinv_on_client; [|done]. by intros x.
  - by apply sinv_auth, sinv_new_client.
  - repeat case_match; try done. by apply sinv_disconnect.
  - repeat case_match; try done. by apply sinv_onClientMessage.
  - apply sinv_fold; [|done]. intros s' c. apply sinv_disconnect.
  - by apply sinv_manage.
  - apply sinv_fold; [|done]. intros s' c. apply sinv_emit.
  - by apply sinv_user_modified.
  - apply sinv_fold; [|done]. intros s' c. apply sinv_sweep_client.
  - by apply sinv_kick_all.
  - destruct (tasks s !! i) as [t|] eqn:Ht; [|done]. pose proof (sinv_take i t s Ht Hs) as H1.
    destruct (resume t a _) as [s'|] eqn:Hr; cbn [default]; [|done]. refine (sinv_resume t a _ _ _ H1 Hr). exact Hn.
Qed.

End Steps.

(** The servers a run reaches, in any environments; no two rooms of the same name are loaded
    on the way. *)
Inductive reachable `{C : VoiceConf} : Server -> Prop :=
| reachable_init : reachable init
| reachable_run (E : Env) i s :
    LodashLaws (@env_lodash E) -> reachable s -> orderly i s -> names_unique (mgr s) -> reachable (run i s).

Lemma sinv_init : SInv None init.
Proof.
  split; cbn; try done; try (by intros ? ? ?%not_elem_of_nil); try (by intros ? ?%not_elem_of_empty).
  - apply inv_init.
  - apply NoDup_nil_2.
  - by intros ? ? ? ? ? ?%not_elem_of_nil.
Qed.

Lemma sinv_reachable `{C : VoiceConf} s : reachable s -> SInv None s.
Proof. induction 1 as [|E i s HL Hr IH Ho Hn]; [apply sinv_init|by apply sinv_run]. Qed.
