(* ===== verification/ClientManagerOutputs.v ===== *)
(** * ClientManagerOutputs: who is shown a room

    What leaves the server about a room goes to clients that [hasRoomAccess] let into it: the
    invariant of the outputs, and that nothing but [enter] lets anybody in. *)

From S2P Require Import Prelude Types Permissions VideoQueue RoomModel RoomPlayback RoomRequests.
From S2P Require Import RoomLifecycle RoomInvariants RoomReach RoomMembers RoomManager.
From S2P Require Import RoomManagerFacts RoomManagerTheorems RoomManagerMembers Voice ClientManager.
From S2P Require Import ClientManagerFacts ClientManagerSteps.

Import Clients Voice.

(** Whom the resumption of a task lets in: where [hasRoomAccess] needs no Redis, and where
    Redis answers that the token has unlocked the room. *)
Definition admission (t : task) (a : answer) (s : Server) (x : nat * string) : Prop :=
  exists obj r, Manager.heap (mgr s) !! obj = Some r /\ name r = x.2 /\
    match t with
    | KJoinRoom c token session id => x.1 = c /\ access_now r token session = Some true
    | KJoinAccess c obj' => x.1 = c /\ obj' = obj /\ a = AGranted true
    | _ => False
    end.

(** The client was let into a room of that name, up to case, or into some room. *)
Definition let_into (s : Server) (c : nat) (roomName : string) : Prop :=
  exists n, (c, n) ∈ admitted s /\ Manager.same_name roomName n = true.
Definition let_in (s : Server) (c : nat) : Prop := exists n, (c, n) ∈ admitted s.

Definition shown_ok (s : Server) (o : output) : Prop :=
  match o with
  | OSend c (MState n _) => let_into s c n
  | OSend c (MPosition _ | MNotes _ | MUsers _ | MYou _) => let_in s c
  | OCast c n _ => (c, n) ∈ admitted s
  | ORoom b n _ => exists c, (c, n) ∈ admitted s /\ c_kind <$> clients s !! c = Some (Balancer b)
  | _ => True
  end.

(** The tasks of clients that are in. *)
Definition inside (t : task) : option nat :=
  match t with KJoinNotes c _ | KRequest c _ _ _ (AfterJoin _) => Some c | _ => None end.

(** ** Voice: sets in the map, sets being joined *)

(** The set a task will add its client to. *)
Definition deciding (t : task) : option nat :=
  match t with KVoiceDecided _ n d => if allowed d then Some n else None | _ => None end.

Definition set_at (h : list (list ClientId)) (n : nat) : list ClientId := default [] (h !! n).

(** Of the sets [rooms] in the map: how many have somebody in them, and how many of the joins
    [pend] under way will put somebody into an empty one. *)
Definition talking (rooms : list nat) (h : list (list ClientId)) : nat :=
  length (filter (fun n => set_at h n <> []) rooms).
Definition starting (rooms : list nat) (h : list (list ClientId)) (pend : list nat) : nat :=
  length (filter (fun n => n ∈ rooms /\ set_at h n = []) pend).
Definition joins_to (n : nat) (pend : list nat) : nat := length (filter (fun m => m = n) pend).

(** Nobody is twice in a set, and the limits hold with [K] joins decided at a time, those that
    are under way included. *)
Record voice_ok `{C : VoiceConf} (rooms : list nat) (h : list (list ClientId)) (pend : list nat) (K : nat) : Prop := {
  vk_rooms : NoDup rooms;
  vk_known : forall n, n ∈ rooms \/ n ∈ pend -> (n < length h)%nat;
  vk_sets : forall n, NoDup (set_at h n);
  vk_pend : (length pend <= K)%nat;
  vk_participants : forall n, 0 < conf_max_participants_per_room ->
    Z.of_nat (length (set_at h n) + joins_to n pend) <= conf_max_participants_per_room - 1 + Z.of_nat (Nat.max 1 K);
  vk_talking : 0 < conf_max_concurrent_rooms ->
    Z.of_nat (talking rooms h + starting rooms h pend) <= conf_max_concurrent_rooms - 1 + Z.of_nat (Nat.max 1 K);
}.

Lemma filter_length_mono {A} (P Q : A -> Prop) `{!forall x, Decision (P x)} `{!forall x, Decision (Q x)} l :
  (forall x, x ∈ l -> P x -> Q x) -> (length (filter P l) <= length (filter Q l))%nat.
Proof.
  induction l as [|x l IH]; intros HPQ; [done|]. rewrite !filter_cons.
  assert (IH' := IH (fun y Hy => HPQ y (list_elem_of_further _ _ _ Hy))). pose proof (HPQ x (list_elem_of_here _ _)).
  destruct (decide (P x)), (decide (Q x)); cbn; try lia. tauto.
Qed.

(** One element more, at most. *)
Lemma filter_length_one {A} (P Q : A -> Prop) `{!forall x, Decision (P x)} `{!forall x, Decision (Q x)} n l :
  NoDup l -> (forall x, x ∈ l -> P x -> Q x \/ x = n) -> (length (filter P l) <= S (length (filter Q l)))%nat.
Proof.
  induction l as [|x l IH]; intros Hnd HPQ; [cbn; lia|]. apply NoDup_cons in Hnd as [Hx Hnd]. rewrite !filter_cons.
  pose proof (HPQ x (list_elem_of_here _ _)) as H1.
  assert (Hl : forall y, y ∈ l -> P y -> Q y \/ y = n) by (intros y Hy; apply HPQ; by right).
  destruct (decide (P x)) as [Hp|]; [|specialize (IH Hnd Hl); destruct (decide (Q x)); cbn; lia].
  destruct (decide (Q x)); [specialize (IH Hnd Hl); cbn; lia|].
  assert (x = n) as -> by tauto. cbn. apply le_n_S, filter_length_mono. intros y Hy Hpy.
  destruct (Hl y Hy Hpy) as [? | ->]; done.
Qed.

Lemma starting_mono rooms rooms' h h' pend :
  (forall n, n ∈ pend -> n ∈ rooms' /\ set_at h' n = [] -> n ∈ rooms /\ set_at h n = []) ->
  (starting rooms' h' pend <= starting rooms h pend)%nat.
Proof. apply filter_length_mono. Qed.

Lemma talking_mono rooms h h' :
  (forall n, n ∈ rooms -> set_at h' n <> [] -> set_at h n <> []) -> (talking rooms h' <= talking rooms h)%nat.
Proof. apply filter_length_mono. Qed.

Lemma set_at_insert h n l m : (n < length h)%nat -> set_at (<[n := l]> h) m = if decide (m = n) then l else set_at h m.
Proof.
  intros Hn. unfold set_at. destruct (decide (m = n)) as [->|Hne]; [by rewrite list_lookup_insert_eq|].
  by rewrite list_lookup_insert_ne.
Qed.

Section VoiceSets.
Context `{C : VoiceConf}.
Implicit Types (rooms pend : list nat) (h : list (list ClientId)) (K n : nat).

Lemma voice_perm rooms rooms' h pend pend' K :
  rooms ≡ₚ rooms' -> pend ≡ₚ pend' -> voice_ok rooms h pend K -> voice_ok rooms' h pend' K.
Proof.
  intros Hr Hp [H1 H2 H3 H4 H5 H6]. split.
  - by rewrite <- Hr.
  - intros n Hn. apply H2. by rewrite Hr, Hp.
  - done.
  - by rewrite <- Hp.
  - intros n. unfold joins_to. rewrite <- Hp. apply H5.
  - intros Hm. specialize (H6 Hm).
    assert (Ht : talking rooms' h = talking rooms h) by (unfold talking; by rewrite Hr).
    assert (Hs : starting rooms' h pend' = starting rooms' h pend) by (unfold starting; by rewrite Hp).
    assert (starting rooms' h pend <= starting rooms h pend)%nat by (apply starting_mono; intros n _; by rewrite Hr). lia.
Qed.

(** A set leaves the map. *)
Lemma voice_detach n rooms h pend K : voice_ok (n :: rooms) h pend K -> voice_ok rooms h pend K.
Proof.
  intros [H1 H2 H3 H4 H5 H6]. split; try done.
  - by apply NoDup_cons in H1 as [_ ?].
  - intros m [Hm|Hm]; apply H2; [left; by right|by right].
  - intros Hm. specialize (H6 Hm).
    assert (talking rooms h <= talking (n :: rooms) h)%nat
      by (unfold talking; rewrite filter_cons; destruct (decide _); cbn; lia).
    assert (starting rooms h pend <= starting (n :: rooms) h pend)%nat
      by (apply starting_mono; intros m _ [? ?]; split; [by right|done]).
    lia.
Qed.

(** A new set enters it. *)
Lemma voice_open rooms h pend K : voice_ok rooms h pend K -> voice_ok (length h :: rooms) (h ++ [[]]) pend K.
Proof.
  intros [H1 H2 H3 H4 H5 H6].
  assert (Hs : forall n, set_at (h ++ [[]]) n = set_at h n).
  { intros n. unfold set_at. destruct (decide (n < length h)%nat) as [Hn|Hn]; [by rewrite lookup_app_l|].
    rewrite lookup_app_r by lia. rewrite (lookup_ge_None_2 h n) by lia.
    destruct (n - length h)%nat as [|k]; [done|]. by rewrite lookup_ge_None_2 by (cbn; lia). }
  split.
  - apply NoDup_cons. split; [|done]. intros Hn. specialize (H2 _ (or_introl Hn)). lia.
  - intros n Hn. rewrite length_app. cbn. destruct Hn as [[-> | Hn]%elem_of_cons | Hn]; [lia|..];
      [specialize (H2 n (or_introl Hn))|specialize (H2 n (or_intror Hn))]; lia.
  - intros n. rewrite Hs. apply H3.
  - done.
  - intros n. rewrite Hs. apply H5.
  - intros Hm. specialize (H6 Hm).
    assert (talking (length h :: rooms) (h ++ [[]]) <= talking rooms h)%nat.
    { unfold talking at 1. rewrite filter_cons_False.
      - apply talking_mono. intros n _. by rewrite Hs.
      - rewrite Hs. unfold set_at. rewrite lookup_ge_None_2 by lia. by intros Hx. }
    assert (starting (length h :: rooms) (h ++ [[]]) pend <= starting rooms h pend)%nat.
    { apply starting_mono. intros n Hn. rewrite Hs. intros [[-> | ?]%elem_of_cons ?]; [|done].
      specialize (H2 _ (or_intror Hn)). lia. }
    lia.
Qed.

(** A join is to be decided; those who ask an empty set have counted the rooms that talk. *)
Lemma voice_ask n rooms h pend K K' : voice_ok rooms h pend K ->
  (n < length h)%nat -> (K <= K')%nat -> (S (length pend) <= K')%nat ->
  (0 < conf_max_participants_per_room -> Z.of_nat (length (set_at h n)) < conf_max_participants_per_room) ->
  (0 < conf_max_concurrent_rooms -> set_at h n = [] -> Z.of_nat (talking rooms h) < conf_max_concurrent_rooms) ->
  voice_ok rooms h (pend ++ [n]) K'.
Proof.
  intros [H1 H2 H3 H4 H5 H6] Hn HK Hlen Hp Hr. split; try done.
  - intros m [Hm|[Hm|Hm%list_elem_of_singleton]%elem_of_app]; [auto..|by subst].
  - rewrite length_app. cbn. lia.
  - intros m Hm. specialize (H5 m Hm). unfold joins_to in *. rewrite filter_app, length_app.
    destruct (decide (n = m)) as [<-|Hne]; [|rewrite (filter_cons_False _ n) by done; cbn; lia].
    pose proof (length_filter (fun m => m = n) pend). specialize (Hp Hm).
    rewrite (filter_cons_True _ n) by done. cbn. lia.
  - intros Hm. specialize (H6 Hm). unfold starting in *. rewrite filter_app, length_app.
    destruct (decide (n ∈ rooms /\ set_at h n = [])) as [[Hin He]|Hne]; [|rewrite (filter_cons_False _ n) by done; cbn; lia].
    pose proof (length_filter (fun n => n ∈ rooms /\ set_at h n = []) pend). specialize (Hr Hm He).
    rewrite (filter_cons_True _ n) by done. cbn. lia.
Qed.

(** Somebody leaves a set that stays in use, or that is in the map no more. *)
Lemma voice_shrink n l rooms h pend K : voice_ok rooms h pend K -> (n < length h)%nat ->
  l `sublist_of` set_at h n -> (l <> [] \/ n ∉ rooms) -> voice_ok rooms (<[n := l]> h) pend K.
Proof.
  intros [H1 H2 H3 H4 H5 H6] Hn Hl Hu. split; try done.
  - intros m Hm. rewrite length_insert. auto.
  - intros m. rewrite set_at_insert by done. destruct (decide (m = n)); [|done]. by eapply sublist_NoDup.
  - intros m Hm. specialize (H5 m Hm). rewrite set_at_insert by done. destruct (decide (m = n)); [|done]. subst m.
    pose proof (sublist_length _ _ Hl). lia.
  - intros Hm. specialize (H6 Hm).
    assert (talking rooms (<[n:=l]> h) <= talking rooms h)%nat.
    { apply talking_mono. intros m Hin. rewrite set_at_insert by done. destruct (decide (m = n)) as [->|]; [|done].
      intros Hne He. rewrite He in Hl. by apply sublist_nil_r in Hl. }
    assert (starting rooms (<[n:=l]> h) pend <= starting rooms h pend)%nat.
    { apply starting_mono. intros m _. rewrite set_at_insert by done. destruct (decide (m = n)) as [->|]; [|done].
      intros [Hin He]. by destruct Hu. }
    lia.
Qed.

(** A join is decided: it is no longer under way, and its client is added. *)
Lemma voice_drop n rooms h pend K : voice_ok rooms h (n :: pend) K -> voice_ok rooms h pend K.
Proof.
  intros [H1 H2 H3 H4 H5 H6]. split; try done.
  - intros m [Hm|Hm]; apply H2; [by left|by right; right].
  - cbn in H4. lia.
  - intros m Hm. specialize (H5 m Hm). unfold joins_to in *. rewrite filter_cons in H5. destruct (decide _); cbn in H5; lia.
  - intros Hm. specialize (H6 Hm). unfold starting in *. rewrite filter_cons in H6. destruct (decide _); cbn in H6; lia.
Qed.

Lemma voice_add n id rooms h pend K : voice_ok rooms h (n :: pend) K -> id ∉ set_at h n ->
  voice_ok rooms (<[n := set_at h n ++ [id]]> h) pend K.
Proof.
  intros Hok Hid. pose proof (voice_drop _ _ _ _ _ Hok) as [_ _ _ H4' _ _]. destruct Hok as [H1 H2 H3 H4 H5 H6].
  assert (Hn : (n < length h)%nat) by (apply H2; right; by left). set (l := set_at h n ++ [id]).
  split; try done.
  - intros m Hm. rewrite length_insert. apply H2. destruct Hm; [by left|by right; right].
  - intros m. rewrite set_at_insert by done. destruct (decide (m = n)); [|done]. apply NoDup_app.
    split_and!; [done| |apply NoDup_singleton]. by intros x Hx Hx'%list_elem_of_singleton; subst.
  - intros m Hm. specialize (H5 m Hm). unfold joins_to in *. rewrite filter_cons in H5. rewrite set_at_insert by done.
    destruct (decide (m = n)) as [->|]; [|destruct (decide (n = m)); [congruence|done]].
    rewrite decide_True in H5 by done. unfold l. rewrite length_app. cbn in *. lia.
  - intros Hm. specialize (H6 Hm).
    assert (Hst : (starting rooms (<[n:=l]> h) pend <= starting rooms h pend)%nat).
    { apply starting_mono. intros m _. rewrite set_at_insert by done. destruct (decide (m = n)) as [->|]; [|done].
      intros [_ He]. unfold l in He. by destruct (set_at h n). }
    unfold starting at 1 in H6. rewrite filter_cons in H6. fold (starting rooms h pend) in H6.
    destruct (decide (n ∈ rooms /\ set_at h n = [])) as [[Hin He]|Hne]; cbn [length] in H6.
    + assert (talking rooms (<[n:=l]> h) <= S (talking rooms h))%nat; [|unfold starting in *; lia].
      apply (filter_length_one _ _ n); [done|]. intros m _. rewrite set_at_insert by done.
      destruct (decide (m = n)); [by right|by left].
    + assert (talking rooms (<[n:=l]> h) <= talking rooms h)%nat; [|unfold starting in *; lia].
      apply talking_mono. intros m Hm'. rewrite set_at_insert by done. destruct (decide (m = n)) as [->|]; [|done].
      intros _ He. by apply Hne.
Qed.
End VoiceSets.

(** The sets in the map, and the joins under way. *)
Definition voice_rooms (s : Server) : list nat := (map_to_list (voiceParticipants s)).*2.
Definition voice_pend (s : Server) : list nat := omap deciding (tasks s).

(** The invariant, for a property [P] of whom the run lets in. *)
Section Outputs.
Context `{C : VoiceConf} (P : nat * string -> Prop).

Record OInv (s : Server) : Prop := {
  o_admitted : forall x, x ∈ admitted s -> P x;
  o_out : forall o, o ∈ out s -> shown_ok s o;
  o_joins : forall n l c, roomJoins s !! n = Some l -> c ∈ l -> (c, n) ∈ admitted s;
  o_tasks : forall t c, t ∈ tasks s -> inside t = Some c -> let_in s c;
  o_voice : voice_ok (voice_rooms s) (voiceSets s) (voice_pend s) (voiceOverlap s);
}.

(** More clients are let in, and those that are there keep their kind. *)
Definition grows (s s' : Server) : Prop :=
  (forall x, x ∈ admitted s -> x ∈ admitted s') /\
  (forall c k, c_kind <$> clients s !! c = Some k -> c_kind <$> clients s' !! c = Some k).

#[global] Instance grows_preorder : PreOrder grows.
Proof. split; [done|]. intros x y z [] []. split; eauto. Qed.

Lemma grows_shown s s' o : grows s s' -> shown_ok s o -> shown_ok s' o.
Proof.
  intros [Ha Hk]. destruct o as [c []| | | | |]; cbn; try done; try by intros [n ?]; exists n; auto.
  - intros (n & ? & ?). exists n. auto.
  - apply Ha.
  - intros (c & ? & ?). exists c. auto.
Qed.

(** What changes neither outputs, nor joins, nor tasks, and lets nobody in. *)
Lemma oinv_same s s' :
  out s' = out s -> roomJoins s' = roomJoins s -> tasks s' = tasks s -> admitted s' = admitted s ->
  voiceParticipants s' = voiceParticipants s -> voiceSets s' = voiceSets s -> voiceOverlap s' = voiceOverlap s ->
  (forall c k, c_kind <$> clients s !! c = Some k -> c_kind <$> clients s' !! c = Some k) -> OInv s -> OInv s'.
Proof.
  intros H1 H2 H3 H4 H5 H6 H7 Hk [].
  assert (Hg : grows s s') by (split; [by rewrite H4|done]).
  split; unfold voice_rooms, voice_pend; rewrite ?H1, ?H2, ?H3, ?H4, ?H5, ?H6, ?H7; try done.
  - intros o Ho. eapply grows_shown; eauto.
  - intros t c Ht Hc. destruct (o_tasks0 t c Ht Hc) as [n Hn]. exists n. by rewrite H4.
Qed.

(** A client is let in. *)
Lemma oinv_admit x s : P x -> OInv s -> OInv (s <| admitted ::= fun l => l ++ [x] |>).
Proof.
  intros Hx []. set (s' := s <| admitted ::= _ |>).
  assert (Hg : grows s s') by (split; [intros y Hy; apply elem_of_app; by left|done]).
  split; try done.
  - intros y [Hy|Hy%list_elem_of_singleton]%elem_of_app; [by apply o_admitted0|by subst].
  - intros o Ho. apply (grows_shown s s' o Hg). by apply o_out0.
  - intros n l c Hn Hc. apply (proj1 Hg). by eapply o_joins0.
  - intros t c Ht Hc. destruct (o_tasks0 t c Ht Hc) as [n Hn]. exists n. by apply (proj1 Hg).
Qed.

Lemma oinv_emit o s : shown_ok s o -> OInv s -> OInv (emit o s).
Proof.
  intros Ho []. split; try done. intros o' [Ho'|Ho'%list_elem_of_singleton]%elem_of_app; [by apply o_out0|by subst].
Qed.

Lemma voice_pend_app s t : voice_pend (suspend t s) = voice_pend s ++ option_list (deciding t).
Proof. unfold voice_pend. change (tasks (suspend t s)) with (tasks s ++ [t]). rewrite omap_app. cbn. by destruct (deciding t). Qed.

Lemma oinv_suspend t s : (forall c, inside t = Some c -> let_in s c) -> deciding t = None ->
  OInv s -> OInv (suspend t s).
Proof.
  intros Ht Hd []. split; try done.
  - intros t' c [Ho'|Ho'%list_elem_of_singleton]%elem_of_app; [by apply o_tasks0|subst; apply Ht].
  - rewrite voice_pend_app, Hd. cbn. by rewrite app_nil_r.
Qed.

(** A task that is taken, apart. *)
Lemma pend_taken i t s : tasks s !! i = Some t ->
  option_list (deciding t) ++ omap deciding (delete i (tasks s)) ≡ₚ voice_pend s.
Proof.
  intros Ht. unfold voice_pend. rewrite (delete_Permutation (tasks s) i t Ht) at 2. cbn. by destruct (deciding t).
Qed.

Lemma delete_beyond {A} (l : list A) i : l !! i = None -> delete i l = l.
Proof. revert i. induction l as [|x l IH]; intros [|i] Hi; cbn in *; [done..|]. f_equal. by apply IH. Qed.

Lemma oinv_take i s : OInv s -> OInv (s <| tasks ::= delete i |>).
Proof.
  intros []. split; try done.
  - intros t c Ht. apply o_tasks0. eapply elem_of_sublist; [exact Ht|apply sublist_delete].
  - change (voice_ok (voice_rooms s) (voiceSets s) (omap deciding (delete i (tasks s))) (voiceOverlap s)).
    destruct (tasks s !! i) as [t|] eqn:Ht.
    + pose proof (pend_taken i t s Ht) as Hp. destruct (deciding t) as [n|]; cbn in Hp.
      * apply (voice_drop n). by eapply voice_perm; [reflexivity|symmetry|].
      * by eapply voice_perm; [reflexivity|symmetry|].
    + by rewrite delete_beyond.
Qed.

Lemma oinv_on_client c f s : (forall cl, c_kind (f cl) = c_kind cl) -> OInv s -> OInv (on_client c f s).
Proof.
  intros Hf. apply oinv_same; try done. intros x k Hx.
  change (clients (on_client c f s)) with (alter f c (clients s)).
  destruct (decide (c = x)) as [<-|Hne]; [|by rewrite lookup_alter_ne].
  rewrite lookup_alter_eq. destruct (clients s !! c) as [cl|]; cbn in *; [by rewrite Hf|done].
Qed.

Lemma oinv_roomJoins j s :
  (forall n l c, j !! n = Some l -> c ∈ l -> (c, n) ∈ admitted s) -> OInv s -> OInv (s <| roomJoins := j |>).
Proof. intros Hj []. by split. Qed.

Lemma oinv_fold {A} (f : Server -> A -> Server) (l : list A) s :
  (forall s x, OInv s -> OInv (f s x)) -> OInv s -> OInv (fold_left f l s).
Proof. intros Hf. revert s. induction l as [|x l IH]; intros s Hs; [done|]. apply IH, Hf, Hs. Qed.

Create HintDb oinv.
#[local] Hint Resolve oinv_emit oinv_suspend oinv_take oinv_on_client oinv_fold : oinv.
#[local] Hint Extern 1 (OInv (over _ ?s)) => apply (oinv_same s); [done..|] : oinv.
#[local] Hint Extern 1 (shown_ok _ _) => exact I : oinv.
#[local] Hint Extern 1 (let_in _ _) => discriminate : oinv.
#[local] Hint Extern 1 (deciding _ = None) => reflexivity : oinv.

(** Follow the branches of a handler. *)
#[local] Ltac handler := cbv zeta; repeat case_match; simplify_eq; eauto 8 with oinv.

Section Handlers.
Context `{E : Env} {LL : LodashLaws env_lodash}.
Implicit Types (s : Server).

Lemma oinv_announce c roomName anybody k s : OInv s -> OInv (announce_voice c roomName anybody k s).
Proof. intros Hs. unfold announce_voice. handler. Qed.
#[local] Hint Resolve oinv_announce : oinv.

(** What touches voice only. *)
Lemma oinv_voice s s' : clients s' = clients s -> out s' = out s -> roomJoins s' = roomJoins s ->
  tasks s' = tasks s -> admitted s' = admitted s ->
  voice_ok (voice_rooms s') (voiceSets s') (voice_pend s') (voiceOverlap s') -> OInv s -> OInv s'.
Proof.
  intros H1 H2 H3 H4 H5 Hv []. assert (Hg : grows s s') by (split; [by rewrite H5|by rewrite H1]).
  split; rewrite ?H2, ?H3, ?H4, ?H5; try done.
  - intros o Ho. eapply grows_shown; eauto.
  - intros t c Ht Hc. destruct (o_tasks0 t c Ht Hc) as [n Hn]. exists n. by rewrite H5.
Qed.

Lemma voice_rooms_delete roomName n s : voiceParticipants s !! roomName = Some n ->
  n :: voice_rooms (end_voice roomName s) ≡ₚ voice_rooms s.
Proof.
  intros Hn. unfold voice_rooms. change (voiceParticipants (end_voice roomName s)) with (delete roomName (voiceParticipants s)).
  by rewrite <- (map_to_list_delete _ roomName n Hn).
Qed.

Lemma voice_ended roomName s h pend K : voice_ok (voice_rooms s) h pend K ->
  voice_ok (voice_rooms (end_voice roomName s)) h pend K.
Proof.
  intros Hv. destruct (voiceParticipants s !! roomName) as [n|] eqn:Hn.
  - apply (voice_detach n). eapply voice_perm; [symmetry; by apply voice_rooms_delete|reflexivity|done].
  - unfold voice_rooms in *. change (voiceParticipants (end_voice roomName s)) with (delete roomName (voiceParticipants s)).
    by rewrite delete_id.
Qed.

Lemma oinv_end_voice roomName s : OInv s -> OInv (end_voice roomName s).
Proof. intros Hs. apply (oinv_voice s); try done. apply voice_ended, (o_voice s Hs). Qed.
#[local] Hint Resolve oinv_end_voice : oinv.

Lemma oinv_end_if_empty roomName n s : OInv s -> OInv (end_if_empty roomName n s).
Proof. intros Hs. unfold end_if_empty. case_bool_decide; auto with oinv. Qed.
#[local] Hint Resolve oinv_end_if_empty : oinv.

Lemma oinv_presence c roomName n s : OInv s -> OInv (presence_changed c roomName n s).
Proof. intros Hs. unfold presence_changed. auto with oinv. Qed.

Lemma without_sublist id l : without id l `sublist_of` l.
Proof. unfold without. induction l as [|x l IH]; [done|]. cbn. case_match; by constructor. Qed.

Lemma alter_insert (f : list ClientId -> list ClientId) n h : (n < length h)%nat -> alter f n h = <[n := f (set_at h n)]> h.
Proof.
  intros Hn. destruct (lookup_lt_is_Some_2 h n Hn) as [l Hl]. unfold set_at. rewrite Hl. cbn.
  apply list_eq. intros m. destruct (decide (m = n)) as [->|Hne].
  - by rewrite list_lookup_alter_eq, Hl, list_lookup_insert_eq.
  - by rewrite list_lookup_alter_ne, list_lookup_insert_ne.
Qed.

Lemma room_set_known s roomName n : OInv s -> voiceParticipants s !! roomName = Some n ->
  (n < length (voiceSets s))%nat.
Proof.
  intros Hs Hn. apply (vk_known _ _ _ _ (o_voice s Hs)). left. unfold voice_rooms.
  apply list_elem_of_fmap. exists (roomName, n). split; [done|]. by apply elem_of_map_to_list.
Qed.

(** Leaving: with nobody left the room is in voice no more. *)
Lemma oinv_leave_set roomName n id s : OInv s -> voiceParticipants s !! roomName = Some n ->
  OInv (end_if_empty roomName n (delete_from_set n id s)).
Proof.
  intros Hs Hn. pose proof (room_set_known s roomName n Hs Hn) as Hlt. pose proof (o_voice s Hs) as Hv.
  assert (Hh : voiceSets (delete_from_set n id s) = <[n := without id (set_at (voiceSets s) n)]> (voiceSets s))
    by (change (alter (without id) n (voiceSets s) = <[n := without id (set_at (voiceSets s) n)]> (voiceSets s)); by apply alter_insert).
  unfold end_if_empty. case_bool_decide as He.
  - apply (oinv_voice s); try done.
    change (voice_ok (voice_rooms (end_voice roomName s)) (voiceSets (delete_from_set n id s)) (voice_pend s) (voiceOverlap s)).
    assert (Hd : voice_ok (n :: voice_rooms (end_voice roomName s)) (voiceSets s) (voice_pend s) (voiceOverlap s))
      by (eapply voice_perm; [symmetry; by apply voice_rooms_delete|reflexivity|done]).
    rewrite Hh. apply voice_shrink; [by apply (voice_detach n)|done|apply without_sublist|right].
    by destruct (proj1 (NoDup_cons _ _) (vk_rooms _ _ _ _ Hd)).
  - apply (oinv_voice s); try done.
    change (voice_ok (voice_rooms s) (voiceSets (delete_from_set n id s)) (voice_pend s) (voiceOverlap s)).
    rewrite Hh. apply voice_shrink; [done..|apply without_sublist|left].
    intros Hw. apply He. unfold voice_set. rewrite Hh. rewrite list_lookup_insert_eq by done. exact Hw.
Qed.

(** A set is there once it is asked for. *)
Lemma oinv_open_set roomName s : OInv s ->
  OInv (open_set roomName s).2 /\ voiceParticipants (open_set roomName s).2 !! roomName = Some (open_set roomName s).1.
Proof.
  intros Hs. unfold open_set. destruct (voiceParticipants s !! roomName) as [n|] eqn:Hn; [by split|]. cbv zeta. cbn [fst snd].
  set (s1 := s <| voiceSets ::= _ |> <| voiceParticipants ::= _ |>).
  assert (Hv1 : voiceParticipants s1 = <[roomName := length (voiceSets s)]> (voiceParticipants s)) by done.
  split; [|by rewrite Hv1, lookup_insert_eq]. apply (oinv_voice s); try done.
  change (voice_ok (voice_rooms s1) (voiceSets s ++ [[]]) (voice_pend s) (voiceOverlap s)).
  eapply voice_perm; [|reflexivity|apply voice_open, (o_voice s Hs)].
  unfold voice_rooms. by rewrite Hv1, (map_to_list_insert _ _ _ Hn).
Qed.

(** The rooms another join counts. *)
Lemma other_rooms s n : set_at (voiceSets s) n = [] -> otherVoiceRooms n s = talking (voice_rooms s) (voiceSets s).
Proof.
  intros Hn. unfold otherVoiceRooms, talking, voice_rooms, voice_set.
  induction (map_to_list (voiceParticipants s)) as [|[k m] l IH]; [done|]. cbn [List.filter fmap list_fmap snd].
  rewrite filter_cons. change (default [] (voiceSets s !! m)) with (set_at (voiceSets s) m).
  destruct (bool_decide (m = n)) eqn:Hm; cbn [negb andb].
  - apply bool_decide_eq_true in Hm as ->. rewrite decide_False by by intros Hx. exact IH.
  - destruct (bool_decide (set_at (voiceSets s) m = [])) eqn:He; cbn [negb].
    + apply bool_decide_eq_true in He. rewrite decide_False by by intros Hx. exact IH.
    + apply bool_decide_eq_false in He. rewrite decide_True by done. cbn [length]. by rewrite IH.
Qed.

Lemma pend_decisions (l : list task) : (length (omap deciding l) <= length (List.filter is_decision l))%nat.
Proof.
  induction l as [|t l IH]; [done|]. cbn. destruct t; cbn; try done. destruct (allowed _); cbn; lia.
Qed.

Lemma oinv_await c n d s : OInv s -> (n < length (voiceSets s))%nat ->
  d = decideVoiceJoin (length (voice_set s n)) (0 <? length (voice_set s n))%nat (otherVoiceRooms n s) ->
  OInv (await_decision c n d s).
Proof.
  intros Hs Hlt Hd. unfold await_decision. cbv zeta. set (s1 := suspend _ s). set (s2 := s1 <| voiceOverlap ::= _ |>).
  assert (Hk : voiceOverlap s2 = Nat.max (length (List.filter is_decision (tasks s1))) (voiceOverlap s)) by done.
  pose proof (pend_decisions (tasks s1)) as Hlen. fold (voice_pend s1) in Hlen.
  set (D := length (List.filter is_decision (tasks s1))) in *. clearbody D.
  assert (Hv : voice_ok (voice_rooms s2) (voiceSets s2) (voice_pend s2) (voiceOverlap s2)).
  { change (voice_ok (voice_rooms s) (voiceSets s) (voice_pend s1) (voiceOverlap s2)).
    pose proof (o_voice s Hs) as Hv. unfold s1 in Hlen |- *. rewrite voice_pend_app in Hlen |- *. cbn [deciding] in Hlen |- *.
    assert (Hmono : voice_ok (voice_rooms s) (voiceSets s) (voice_pend s) (voiceOverlap s2)).
    { destruct Hv as [V1 V2 V3 V4 V5 V6]. split; try done; [rewrite Hk; lia|..]; intros; rewrite Hk;
        [specialize (V5 n0 ltac:(done))|specialize (V6 ltac:(done))]; lia. }
    destruct (allowed d) eqn:Ha; cbn [option_list]; [|by rewrite app_nil_r]. cbn [option_list] in Hlen.
    rewrite length_app in Hlen. cbn in Hlen.
    rewrite Hd in Ha. unfold decideVoiceJoin in Ha.
    destruct ((0 <? conf_max_participants_per_room) && _) eqn:A1; [done|].
    destruct ((0 <? conf_max_concurrent_rooms) && _ && _) eqn:A2; [done|].
    apply (voice_ask n _ _ _ (voiceOverlap s2)); [done|done|lia|rewrite Hk; lia|..].
    - intros Hp. change (set_at (voiceSets s) n) with (voice_set s n). apply andb_false_iff in A1 as [A1|A1]; lia.
    - intros Hp He. rewrite (other_rooms s n He) in A2. change (voice_set s n) with (set_at (voiceSets s) n) in A2.
      rewrite He in A2. cbn in A2. apply andb_false_iff in A2 as [A2|A2]; lia. }
  destruct Hs. split; try done.
  intros t' c' [Ho'|Ho'%list_elem_of_singleton]%elem_of_app; [by apply o_tasks0|by subst].
Qed.

Lemma oinv_setVoicePresence c b s : OInv s -> OInv (setVoicePresence c b s).
Proof.
  intros Hs. unfold setVoicePresence, with_client. destruct (clients s !! c) as [cl|]; [|done]. cbv zeta.
  destruct (negb isVoiceEnabled || negb (c_joined cl)); [handler|].
  destruct (oinv_open_set (c_room cl) s Hs) as [H1 Hn]. destruct (open_set (c_room cl) s) as [n s1]. cbn [fst snd] in *.
  destruct (b && _); [apply oinv_await; [done|by eapply room_set_known|done]|].
  destruct b; [by apply oinv_presence|]. unfold presence_changed. apply oinv_announce. by apply oinv_leave_set.
Qed.

(** The decision is there: the task is taken, and its client comes in, or is refused. *)
Lemma oinv_voice_decided i c n d s : tasks s !! i = Some (KVoiceDecided c n d) -> OInv s ->
  OInv (voice_decided c n d (s <| tasks ::= delete i |>)).
Proof.
  intros Ht Hs. pose proof (oinv_take i s Hs) as H1. set (s1 := s <| tasks ::= delete i |>) in *.
  unfold voice_decided, with_client. destruct (clients s1 !! c) as [cl|]; [|done]. cbv zeta.
  destruct (allowed d) eqn:Ha; cbn [negb];
    [|by apply oinv_emit, oinv_end_if_empty]. apply oinv_presence.
  unfold add_to_set. case_bool_decide as Hid; [done|].
  assert (Hp : voice_ok (voice_rooms s1) (voiceSets s1) (n :: voice_pend s1) (voiceOverlap s1)).
  { change (voice_ok (voice_rooms s) (voiceSets s) (n :: omap deciding (delete i (tasks s))) (voiceOverlap s)).
    pose proof (pend_taken i _ s Ht) as Hp. cbn [deciding] in Hp. rewrite Ha in Hp. cbn in Hp.
    eapply voice_perm; [reflexivity|by symmetry|apply (o_voice s Hs)]. }
  assert (Hlt : (n < length (voiceSets s1))%nat) by (apply (vk_known _ _ _ _ Hp); right; by left).
  apply (oinv_voice s1); try done.
  change (voice_ok (voice_rooms s1) (alter (fun l => l ++ [c_id cl]) n (voiceSets s1)) (voice_pend s1) (voiceOverlap s1)).
  rewrite alter_insert by done. by apply voice_add.
Qed.

Lemma oinv_relayVoiceSignal c to x s : OInv s -> OInv (relayVoiceSignal c to x s).
Proof. intros Hs. unfold relayVoiceSignal, with_client. handler. Qed.

Lemma oinv_removeFromVoice c s : OInv s -> OInv (removeFromVoice c s).
Proof. intros Hs. unfold removeFromVoice, with_client. handler. apply oinv_announce. by apply oinv_leave_set. Qed.
#[local] Hint Resolve oinv_setVoicePresence oinv_relayVoiceSignal oinv_removeFromVoice : oinv.

Lemma oinv_disconnect c s : OInv s -> OInv (onClientDisconnect c s).
Proof.
  intros Hs. unfold onClientDisconnect, with_client. cbv zeta. apply oinv_removeFromVoice.
  repeat case_match; eauto with oinv.
  apply oinv_roomJoins; [|by eauto with oinv]. intros n l x Hn Hx.
  apply lookup_alter_Some in Hn as [(<- & l0 & Hl0 & ->)|[_ Hn]]; [|exact (o_joins s Hs n l x Hn Hx)].
  apply (o_joins s Hs _ l0 x Hl0). eapply elem_of_sublist; [exact Hx|apply remove_one_sub].
Qed.
#[local] Hint Resolve oinv_disconnect : oinv.

Lemma oinv_kick c code s : OInv s -> OInv (kick c code s).
Proof. intros Hs. unfold kick, with_client. handler. Qed.
#[local] Hint Resolve oinv_kick : oinv.

Lemma oinv_kick_all get code fuel i s : OInv s -> OInv (kick_all get code fuel i s).
Proof. revert i s. induction fuel as [|fuel IH]; intros i s Hs; [done|]. cbn. handler. Qed.
#[local] Hint Resolve oinv_kick_all : oinv.

(** ** Broadcasts *)

Lemma balancers_spec s l b : b ∈ balancers s l -> exists c, c ∈ l /\ c_kind <$> clients s !! c = Some (Balancer b).
Proof.
  unfold balancers. assert (H : forall l acc, b ∈ fold_left (fun acc c => match clients s !! c with
    | Some cl => match c_kind cl with Balancer b => set_add b acc | Direct => acc end | None => acc end) l acc ->
    b ∈ acc \/ exists c, c ∈ l /\ c_kind <$> clients s !! c = Some (Balancer b)).
  { clear l. intros l. induction l as [|c l IH]; intros acc Hb; [by left|]. cbn in Hb.
    destruct (IH _ Hb) as [Ha|(x & Hx & Hk)]; [|right; exists x; by split; [right|]].
    destruct (clients s !! c) as [cl|] eqn:Hc; [|by left]. destruct (c_kind cl) as [|b'] eqn:Hk; [by left|].
    unfold set_add in Ha. case_decide; [by left|]. apply elem_of_app in Ha as [Ha|Ha%list_elem_of_singleton]; [by left|].
    right. exists c. split; [by left|]. rewrite Hc. cbn. by rewrite Hk, Ha. }
  intros Hb. by destruct (H l [] Hb) as [?%not_elem_of_nil|].
Qed.

Lemma grows_emit o s : grows s (emit o s).
Proof. by split. Qed.

Lemma oinv_broadcast n m s : OInv s -> OInv (broadcast n m s).
Proof.
  intros Hs. unfold broadcast. destruct (roomJoins s !! n) as [l|] eqn:Hl; [|done]. cbv zeta.
  assert (H1 : forall l' s', (forall c, c ∈ l' -> (c, n) ∈ admitted s') -> OInv s' ->
    OInv (fold_left (cast_to n m) l' s') /\ grows s' (fold_left (cast_to n m) l' s')).
  { intros l'. induction l' as [|c l' IH]; intros s' Hl' Hs'; [by split|]. cbn.
    assert (Hc : OInv (cast_to n m s' c) /\ grows s' (cast_to n m s' c)).
    { unfold cast_to. repeat case_match; try by split. split; [|apply grows_emit].
      apply oinv_emit; [|done]. apply Hl'. by left. }
    destruct Hc as [Hc Hg]. destruct (IH (cast_to n m s' c)) as [H2 H3]; [|done|].
    - intros x Hx. apply (proj1 Hg), Hl'. by right.
    - split; [done|by etransitivity]. }
  destruct (H1 l s) as [Ho Hg]; [intros c Hc; by eapply o_joins|done|]. set (s1 := fold_left (cast_to n m) l s) in *.
  clearbody s1. clear H1. assert (H2 : forall bs s', (forall b, b ∈ bs -> b ∈ balancers s l) -> grows s s' -> OInv s' ->
    OInv (fold_left (fun s b => emit (ORoom b n m) s) bs s')).
  { intros bs. induction bs as [|b bs IH]; intros s' Hb Hg' Hs'; [done|]. cbn. apply IH.
    - intros x Hx. apply Hb. by right.
    - etransitivity; [exact Hg'|apply grows_emit].
    - apply oinv_emit; [|done]. destruct (balancers_spec s l b) as (c & Hc & Hk); [apply Hb; by left|].
      exists c. split; [apply (proj1 Hg'); by eapply o_joins|by apply (proj2 Hg')]. }
  by apply H2.
Qed.
#[local] Hint Resolve oinv_broadcast : oinv.

(** ** Rooms and the manager *)

Lemma oinv_deliver n s e : OInv s -> OInv (deliver n s e).
Proof. intros Hs. unfold deliver. handler. Qed.
#[local] Hint Resolve oinv_deliver : oinv.

Lemma oinv_run_room obj f s : OInv s -> OInv (run_room obj f s).
Proof. intros Hs. unfold run_room. handler. Qed.
#[local] Hint Resolve oinv_run_room : oinv.

Lemma oinv_roomUnload n reason s : OInv s -> OInv (onRoomUnload n reason s).
Proof.
  intros Hs. unfold onRoomUnload. cbv zeta. apply oinv_end_voice.
  match goal with |- OInv (over _ ?x) => assert (H1 : OInv x) by auto with oinv; set (s1 := x) in * end.
  clearbody s1. apply oinv_roomJoins; [|done]. intros n' l c Hn Hc.
  apply lookup_delete_Some in Hn as [_ Hn]. exact (o_joins s1 H1 n' l c Hn Hc).
Qed.
#[local] Hint Resolve oinv_roomUnload : oinv.

Lemma oinv_manage c s : OInv s -> OInv (manage c s).
Proof.
  intros Hs. unfold manage. cbv zeta. apply oinv_fold.
  - intros s' obj Hs'. unfold published. handler.
  - apply oinv_fold; [|auto with oinv]. intros s' e Hs'. unfold on_event. handler.
Qed.
#[local] Hint Resolve oinv_manage : oinv.

Lemma oinv_ask c k s : (forall id, inside (k id) = None /\ deciding (k id) = None) -> OInv s -> OInv (ask_room c k s).
Proof.
  intros Hk Hs. unfold ask_room, with_client. destruct (clients s !! c); [|done]. cbv zeta.
  apply oinv_suspend; [|apply Hk|auto with oinv]. intros d. by rewrite (proj1 (Hk _)).
Qed.

(** ** Joining *)

Lemma oinv_end_join c s : OInv s -> OInv (end_join c s).
Proof. intros Hs. unfold end_join. handler. Qed.
#[local] Hint Resolve oinv_end_join : oinv.

Lemma oinv_fail_join c s : OInv s -> OInv (fail_join c s).
Proof. intros Hs. unfold fail_join. handler. Qed.

Lemma oinv_makeRequest c req k s s' d :
  makeRoomRequest c req k s = Some (s', d) -> (forall o, k = AfterJoin o -> let_in s c) -> OInv s -> OInv s'.
Proof.
  intros Hm Hk Hs. unfold makeRoomRequest in Hm. repeat case_match; simplify_eq; try done.
  apply oinv_suspend; [|done..]. intros x. cbn. destruct k; try done. intros [= <-]. by eapply Hk.
Qed.

Lemma oinv_finish_join c obj notes s : let_in s c -> OInv s -> OInv (finish_join c obj notes s).
Proof.
  intros Hc Hs. unfold finish_join, send.
  assert (H3 : forall r id, OInv (emit (OSend c (MYou id)) (emit (OSend c (MUsers (users r)))
                              (emit (OSend c (MNotes notes)) s)))).
  { intros r id. do 3 (apply oinv_emit; [exact Hc|]). exact Hs. }
  handler.
Qed.

Lemma oinv_after_join c obj s : let_in s c -> OInv s -> OInv (after_join c obj s).
Proof.
  intros Hc Hs. unfold after_join, send. cbv zeta. repeat case_match; auto with oinv.
  - apply oinv_finish_join; [done|]. by apply oinv_emit.
  - apply oinv_suspend; [by intros d [= <-]|done|]. by apply oinv_emit.
Qed.

Lemma same_name_refl n : Manager.same_name n n = true.
Proof. unfold Manager.same_name. by apply bool_decide_eq_true. Qed.

Lemma oinv_enter c obj s :
  (forall r, Manager.heap (mgr s) !! obj = Some r -> P (c, name r)) -> OInv s -> OInv (enter c obj s).
Proof.
  intros HP Hs. unfold enter. destruct (Manager.heap (mgr s) !! obj) as [r|] eqn:Hr; [|auto with oinv]. cbv zeta.
  set (s1 := on_client c _ _).
  assert (H1 : OInv s1).
  { apply oinv_on_client; [done|]. apply oinv_admit; [by apply HP|done]. }
  assert (Hadm : (c, name r) ∈ admitted s1) by (apply elem_of_app; right; by left).
  clearbody s1. unfold with_client. destruct (clients s1 !! c) as [cl|]; [|done].
  set (f := holdEmptyPlaybackForJoin (c_isReconnect cl)).
  assert (H2 : OInv (run_room obj f s1)) by auto with oinv.
  assert (Hadm2 : (c, name r) ∈ admitted (run_room obj f s1)) by (by apply (sc_run_room obj f s1)).
  set (s2 := run_room obj f s1) in *. clearbody s2.
  assert (H3 : OInv (send c (MState (name r) (full_state obj s2)) s2)).
  { apply oinv_emit; [|done]. exists (name r). split; [done|apply same_name_refl]. }
  assert (Hadm3 : (c, name r) ∈ admitted (send c (MState (name r) (full_state obj s2)) s2)) by done.
  set (s3 := send c (MState (name r) (full_state obj s2)) s2) in *. clearbody s3. clear s2 H2 Hadm2.
  match goal with |- context [makeRoomRequest c ?q ?k ?x] => set (req := q); set (s4 := x) end.
  assert (H4 : OInv s4).
  { apply oinv_roomJoins; [|done]. intros n l x Hn Hx.
    apply lookup_insert_Some in Hn as [[<- <-]|[_ Hn]]; [|exact (o_joins s3 H3 n l x Hn Hx)].
    apply elem_of_app in Hx as [Hx|Hx%list_elem_of_singleton]; [|by subst].
    unfold joins_of in Hx. destruct (roomJoins s3 !! name r) as [l0|] eqn:Hl0; [|by apply not_elem_of_nil in Hx].
    exact (o_joins s3 H3 _ l0 x Hl0 Hx). }
  assert (Hin : let_in s4 c) by by exists (name r). clearbody s4.
  destruct (makeRoomRequest c req (AfterJoin obj) s4) as [[s5 []]|] eqn:Hm;
    [|by eapply oinv_makeRequest|by apply oinv_after_join].
  assert (s5 = s4) as -> by (unfold makeRoomRequest in Hm; repeat case_match; by simplify_eq).
  by apply oinv_after_join.
Qed.
#[local] Hint Resolve oinv_fail_join : oinv.

Lemma oinv_join_room c token session res id s :
  (forall x, admission (KJoinRoom c token session id) ADone s x -> P x) ->
  OInv s -> OInv (join_room c token session res s).
Proof.
  intros HP Hs. unfold join_room, refuse. handler. apply oinv_enter; [|done]. intros r' Hr. simplify_eq.
  apply HP. by eexists _, _.
Qed.

(** ** Authentication and messages *)

Lemma oinv_auth c token s : OInv s -> OInv (auth c token s).
Proof. intros Hs. unfold auth, with_client. handler. Qed.

Lemma oinv_after_auth c token s : OInv s -> OInv (after_auth c token s).
Proof.
  intros Hs. unfold after_auth, onClientAuth, with_client. cbv zeta. repeat case_match; auto with oinv.
  match goal with |- OInv (over _ ?x) => apply (oinv_same x); [done..|] end.
  apply oinv_ask; [done|]. auto with oinv.
Qed.

Lemma oinv_client_request c req s : OInv s -> OInv (client_request c req s).
Proof.
  intros Hs. unfold client_request. destruct (makeRoomRequest _ _ _ _) as [[s' d]|] eqn:Hm; [|auto with oinv].
  by eapply oinv_makeRequest.
Qed.

Lemma oinv_user_modified token next s : OInv s -> OInv (user_modified token next s).
Proof. intros Hs. unfold user_modified. handler. Qed.
#[local] Hint Resolve oinv_auth oinv_client_request oinv_user_modified oinv_setVoicePresence oinv_relayVoiceSignal : oinv.

Lemma oinv_process_message c m s : OInv s -> OInv (process_message c m s).
Proof. intros Hs. unfold process_message, with_client. handler. Qed.
#[local] Hint Resolve oinv_process_message : oinv.

Lemma oinv_onClientMessage c m s : OInv s -> OInv (onClientMessage c m s).
Proof. intros Hs. unfold onClientMessage, consumeMessageBudget. handler. Qed.
#[local] Hint Resolve oinv_onClientMessage : oinv.

Lemma oinv_onData c d s : OInv s -> OInv (onData c d s).
Proof. intros Hs. unfold onData, reauthenticate, with_client. handler. Qed.

Lemma oinv_modified_step c token next s : OInv s -> OInv (modified_step c token next s).
Proof.
  intros Hs. unfold modified_step, with_client. cbv zeta. repeat case_match; auto with oinv; simplify_eq;
    try apply oinv_user_modified; eapply oinv_makeRequest; try done; auto with oinv.
Qed.

Lemma oinv_after_reauth c token s : OInv s -> OInv (after_reauth c token s).
Proof.
  intros Hs. unfold after_reauth. cbv zeta. repeat case_match; auto with oinv. apply oinv_ask; [done|]. auto with oinv.
Qed.

(** A member of a room was let into it. *)
Lemma oinv_reauth_room h c token res s : SInv h s -> OInv s -> OInv (reauth_room c token res s).
Proof.
  intros Hi Hs. unfold reauth_room, with_client. destruct res as [obj| | |]; try done.
  destruct (clients s !! c) as [cl|] eqn:Hcl; [|done].
  destruct (Manager.heap (mgr s) !! obj) as [r|] eqn:Hr; [|done].
  destruct (getUser r (c_id cl)) as [u|] eqn:Hu; [|done]. apply oinv_emit; [|auto with oinv].
  destruct (s_members _ _ Hi obj r (c_id cl) Hr) as (d & cl' & Hcl' & Hid & _ & Hn & Ha & _).
  { apply member_iff. by eexists. }
  assert (d = c) as -> by by eapply (s_unique _ _ Hi). exists (c_room cl'). split; [|done].
  by apply (sc_run_room obj (reauth_user (c_id cl) token (getClientInfo cl)) s).
Qed.

Lemma oinv_perform_request c obj token req k s :
  (forall o, k = AfterJoin o -> let_in s c) -> OInv s -> OInv (perform_request c obj token req k s).
Proof.
  intros Hk Hs. unfold perform_request. cbv zeta.
  destruct (Manager.heap (mgr s) !! obj); [|done]. destruct (clients s !! c) as [cl|]; [|done].
  set (f := fun r : Room => _).
  assert (H1 : OInv (run_room obj f s)) by auto with oinv.
  destruct k as [|o|]; [handler| |handler].
  apply oinv_after_join; [|done]. destruct (Hk o eq_refl) as [n Hn]. exists n. by apply (sc_run_room obj f s).
Qed.

Lemma oinv_leave c s : OInv s -> OInv (leave c s).
Proof. intros Hs. unfold leave, with_client. handler. Qed.

Lemma oinv_after_voice c k failed s : OInv s -> OInv (after_voice_sent c k failed s).
Proof. intros Hs. unfold after_voice_sent. handler. Qed.
#[local] Hint Resolve oinv_after_voice : oinv.

Lemma oinv_relay_selected c roomName sel k s : OInv s -> OInv (relay_selected c roomName sel k s).
Proof. intros Hs. unfold relay_selected, with_client. handler. Qed.

(** ** Steps *)

Lemma oinv_resume t a s s' :
  (forall x, admission t a s x -> P x) -> (forall c, inside t = Some c -> let_in s c) ->
  is_decision t = false -> SInv (Some t) s -> OInv s -> resume t a s = Some s' -> OInv s'.
Proof.
  intros HP Ht Hdec Hi Hs Hr. destruct t as [c token|c token|c token id|c token session id|c obj|c obj|c roomName sel
    |c obj token req k|c token next|c roomName k|c roomName sel k|c n d|c]; cbn in Hr.
  - simplify_eq. by apply oinv_after_auth.
  - simplify_eq. by apply oinv_after_reauth.
  - apply fmap_Some in Hr as (res & _ & ->). by eapply oinv_reauth_room.
  - apply fmap_Some in Hr as (res & _ & ->). apply (oinv_join_room c token session res id); [exact HP|done].
  - destruct a as [|[]| | |]; simplify_eq; unfold refuse; auto with oinv.
    apply oinv_enter; [|done]. intros r Hr. apply HP. by exists obj, r.
  - destruct a; simplify_eq; [|auto with oinv]. apply fmap_Some in Hr as (r & _ & ->).
    apply oinv_finish_join; [by apply Ht|done].
  - destruct a; simplify_eq; auto with oinv. apply oinv_end_join. by apply oinv_emit.
  - simplify_eq. apply oinv_perform_request; [|done]. intros o ->. by apply Ht.
  - simplify_eq. by apply oinv_modified_step.
  - destruct a; simplify_eq; [by apply oinv_relay_selected|auto with oinv].
  - destruct a; simplify_eq; [unfold voice_sent|]; auto with oinv.
  - done.
  - case_bool_decide; simplify_eq. by apply oinv_leave.
Qed.

Lemma oinv_new_client kind id roomName rc s : SInv None s -> OInv s -> OInv (new_client kind id roomName rc s).
Proof.
  intros Hi. apply oinv_same; try done. intros c k Hc. unfold new_client.
  change (c_kind <$> <[nextClient s := MkClient kind id roomName None None false rc true
    (bool_decide (kind = Direct)) 0 true]> (clients s) !! c = Some k).
  rewrite lookup_insert_ne; [done|]. intros Heq. destruct (clients s !! c) as [cl|] eqn:Hcl; [|done].
  pose proof (s_clients _ _ Hi c cl Hcl). lia.
Qed.

Lemma oinv_run i s :
  (forall j a t x, i = IResume j a -> tasks s !! j = Some t -> admission t a s x -> P x) ->
  SInv None s -> OInv s -> OInv (run i s).
Proof.
  intros HP Hi Hs. destruct i as [id roomName rc|c d|c|c|c|conn id roomName token|id|id m|conn|c|text|token| | |i a]; cbn [run].
  - by apply oinv_new_client.
  - unfold with_client. repeat case_match; try done. by apply oinv_onData.
  - auto with oinv.
  - unfold with_client. handler.
  - unfold with_client. repeat case_match; auto with oinv.
  - by apply oinv_auth, oinv_new_client.
  - handler.
  - handler.
  - auto with oinv.
  - by apply oinv_manage.
  - apply oinv_fold; [|done]. intros s' c Hs'. by apply oinv_emit.
  - by apply oinv_user_modified.
  - apply oinv_fold; [|done]. intros s' c Hs'. unfold sweep_client, with_client. handler.
  - by apply oinv_kick_all.
  - destruct (tasks s !! i) as [t|] eqn:Ht; [|done]. pose proof (sinv_take i t s Ht Hi) as H1.
    destruct (resume t a _) as [s'|] eqn:Hr; cbn [default]; [|done].
    destruct (is_decision t) eqn:Hdec.
    { destruct t; try done. cbn in Hr. injection Hr as <-. by apply oinv_voice_decided. }
    refine (oinv_resume t a _ _ _ _ Hdec H1 (oinv_take i s Hs) Hr).
    { intros x Hx. by apply (HP i a t). }
    intros c Hc. apply (o_tasks s Hs t c); [|done]. by eapply list_elem_of_lookup_2.
Qed.
End Handlers.
End Outputs.

Lemma oinv_reachable `{C : VoiceConf} s : reachable s -> OInv (fun _ => True) s.
Proof.
  induction 1 as [|E i s HL Hr IH Ho Hn]; [|apply oinv_run; [done|by apply sinv_reachable|done]].
  split; cbn; [done|by intros ? ?%not_elem_of_nil|done|by intros ? ? ?%not_elem_of_nil|].
  split; cbn; try done; try lia; try constructor.
  - by intros n [Hn%not_elem_of_nil|Hn%not_elem_of_nil].
  - intros n Hp. assert (set_at [] n = []) as -> by done. cbn. lia.
  - intros Hp. assert (talking (voice_rooms init) [] = 0%nat) as -> by (by vm_compute). lia.
Qed.
