(* ===== verification/ClientManagerTheorems.v ===== *)
(** * ClientManagerTheorems: what the connections of a server may do

    Who is in a room, who is shown it and who is let in; whose requests a connection makes
    and how many; the limits of voice; and what an unload does to the connections. *)

From S2P Require Import Prelude Types Permissions VideoQueue RoomModel RoomPlayback RoomRequests.
From S2P Require Import RoomLifecycle RoomInvariants RoomReach RoomMembers RoomSamples RoomManager.
From S2P Require Import RoomManagerFacts RoomManagerTheorems RoomManagerMembers Voice ClientManager.
From S2P Require Import ClientManagerFacts ClientManagerSteps ClientManagerOutputs.
From Stdlib Require Import Lqa.

Import Clients Voice.

(** ** A sample server *)

#[local] Instance sample_voice : VoiceConf := {|
  conf_voice_enabled := true; conf_max_participants_per_room := 2; conf_max_concurrent_rooms := 2;
  conf_turn_channels := []; conf_direct_ice := [] |}.

(** Inputs, each at its instant. *)
Definition serve (l : list (Z * input)) (s : Server) : Server :=
  fold_left (fun s i => run (E := sample_env i.1) i.2 s) l s.

(** The side conditions of [reachable], decided along a script. *)
Definition input_ok (i : input) (s : Server) : bool :=
  bool_decide (NoDup (map (low_name (mgr s)) (Manager.rooms (mgr s)))) &&
  match i with
  | IConnect id _ _ | IBalancerJoin _ id _ _ =>
      forallb (fun kv : nat * Client => negb (bool_decide (c_id kv.2 = id))) (map_to_list (clients s))
  | IManage c => adds_nobody c
  | _ => true
  end.
Fixpoint serve_ok (l : list (Z * input)) (s : Server) : bool :=
  match l with
  | [] => true
  | (t, i) :: l => input_ok i s && serve_ok l (run (E := sample_env t) i s)
  end.

Lemma fresh_decided id s :
  forallb (fun kv : nat * Client => negb (bool_decide (c_id kv.2 = id))) (map_to_list (clients s)) = true ->
  fresh_id s id.
Proof.
  intros Hf c cl Hcl Hid. rewrite forallb_forall in Hf.
  specialize (Hf (c, cl) (proj1 (list_elem_of_In _ _) (proj2 (elem_of_map_to_list _ _ _) Hcl))). cbn in Hf.
  by rewrite bool_decide_true in Hf.
Qed.

Lemma serve_reachable l s : serve_ok l s = true -> reachable s -> reachable (serve l s).
Proof.
  revert s. induction l as [|[t i] l IH]; intros s Hl Hs; [done|]. cbn [serve_ok] in Hl.
  apply andb_true_iff in Hl as [[Hn%bool_decide_eq_true Hi]%andb_true_iff Hl]. cbn [serve fold_left].
  apply IH; [exact Hl|]. apply reachable_run; [apply (sample_laws true t)|done| |done].
  destruct i; try done; by apply fresh_decided.
Qed.

(** A client asks for the locked room; Redis knows no snapshot, and the row is there. *)
Definition knock : list (Z * input) :=
  [(0, IConnect "c1" "ROOM" false); (1, IData 0 (DAuth "tok")); (2, IResume 0 ADone);
   (3, IManage (Manager.Resume 0 (Manager.RSnapshot None))); (4, IManage (Manager.Resume 0 row_answer));
   (5, IManage (Manager.Resume 0 (Manager.RNumber 1))); (6, IResume 0 ADone)].
Definition knocking : Server := serve knock init.
Definition let_in_calls : list (Z * input) :=
  [(7, IResume 0 (AGranted true)); (8, IResume 0 ADone); (9, IResume 0 ADone)].
Definition joined_server : Server := serve let_in_calls knocking.

Lemma knocking_reachable : reachable knocking.
Proof. apply serve_reachable; [by vm_compute|apply reachable_init]. Qed.
Lemma joined_reachable : reachable joined_server.
Proof. apply serve_reachable; [by vm_compute|apply knocking_reachable]. Qed.

(** ** Who is in a room *)

(** C11: There are no ghosts in a loaded room: whoever is a member, once, is the user of a
    connection that authenticated, was let into a room of that name, and is still there, unless
    its disconnect is under way and will take it out. *)
Theorem members_are_present `{C : VoiceConf} (s : Server) (obj : nat) (r : Room) (id : ClientId) :
  reachable s -> obj ∈ Manager.rooms (mgr s) -> Manager.heap (mgr s) !! obj = Some r -> id ∈ member_ids r ->
  NoDup (member_ids r) /\
  exists c cl, clients s !! c = Some cl /\ c_id cl = id /\ c_joined cl = true /\
    Manager.same_name (name r) (c_room cl) = true /\ (c, c_room cl) ∈ admitted s /\
    (c ∈ connections s \/ exists t, t ∈ tasks s /\ leaver t = Some c).
Proof.
  intros Hs Ho Hr Hid. pose proof (sinv_reachable s Hs) as Hi.
  split; [by apply (s_nodup _ _ Hi obj)|].
  destruct (s_members _ _ Hi obj r id Hr Hid) as (c & cl & Hcl & H1 & [H2 _] & H3 & H4 & H5).
  exists c, cl. split_and!; try done. destruct (H5 Ho) as [|Hl]; [by left|right].
  by apply list_elem_of_omap in Hl.
Qed.

Lemma members_are_present_witness :
  exists r, Manager.heap (mgr joined_server) !! 0%nat = Some r /\ member_ids r = ["c1"%string] /\
  NoDup (member_ids r) /\
  exists c cl, clients joined_server !! c = Some cl /\ c_id cl = "c1"%string /\ c_joined cl = true /\
    Manager.same_name (name r) (c_room cl) = true /\ (c, c_room cl) ∈ admitted joined_server /\
    (c ∈ connections joined_server \/ exists t, t ∈ tasks joined_server /\ leaver t = Some c).
Proof.
  destruct (Manager.heap (mgr joined_server) !! 0%nat) as [r|] eqn:Hr; [|by vm_compute in Hr].
  exists r. split; [done|]. assert (Hm : member_ids r = ["c1"%string]).
  { vm_compute in Hr. injection Hr as <-. reflexivity. }
  split; [done|]. apply (members_are_present joined_server 0%nat r "c1"%string).
  - apply joined_reachable.
  - vm_compute. by left.
  - exact Hr.
  - rewrite Hm. by left.
Defined.

(** ** Who is shown a room, and who is let in *)

(** C13: What a server tells about a room goes to clients that were let into it: every broadcast
    goes to a connection that was let into the room of that name, or to a balancer that has one,
    the state of a room to a client let into a room of that name up to case, and the rest of
    the greeting (the position, the notes, the users) to a client let into some room. *)
Theorem rooms_are_shown_to_the_admitted `{C : VoiceConf} (s : Server) (o : output) :
  reachable s -> o ∈ out s ->
  match o with
  | OSend c (MState n _) => exists n', (c, n') ∈ admitted s /\ Manager.same_name n n' = true
  | OSend c (MPosition _ | MNotes _ | MUsers _ | MYou _) => exists n, (c, n) ∈ admitted s
  | OCast c n _ => (c, n) ∈ admitted s
  | ORoom b n _ => exists c, (c, n) ∈ admitted s /\ c_kind <$> clients s !! c = Some (Balancer b)
  | _ => True
  end.
Proof.
  intros Hs Ho. pose proof (o_out _ s (oinv_reachable s Hs) o Ho) as Hok. by destruct o as [c []| | | | |].
Qed.

Lemma rooms_are_shown_to_the_admitted_witness :
  exists i st, out joined_server !! i = Some (OSend 0 (MState "room" st)) /\
  exists n', (0%nat, n') ∈ admitted joined_server /\ Manager.same_name "room" n' = true.
Proof.
  assert (H : exists i st, out joined_server !! i = Some (OSend 0 (MState "room" st)))
    by (eexists 0%nat, _; vm_compute; reflexivity).
  destruct H as (i & st & Hi). exists i, st. split; [exact Hi|].
  exact (rooms_are_shown_to_the_admitted joined_server (OSend 0 (MState "room" st)) joined_reachable
    (list_elem_of_lookup_2 _ _ _ Hi)).
Defined.

(** C12: A client is let into a room only by a join that found the room without a password, or was
    made by the room's owner, or for whose token Redis answered that it had unlocked the room. *)
Theorem rooms_admit_by_password `{E : Env} {LL : LodashLaws env_lodash} `{C : VoiceConf}
    (i : input) (s : Server) (c : nat) (n : string) :
  reachable s -> (c, n) ∈ admitted (run i s) -> (c, n) ∉ admitted s ->
  exists obj r, Manager.heap (mgr s) !! obj = Some r /\ name r = n /\
    ((exists j a token session id, i = IResume j a /\ tasks s !! j = Some (KJoinRoom c token session id) /\
        (truthy_string (passwordHash r) = None \/
         exists uid o, session = SessionUser uid /\ owner r = Some o /\ user_id o = uid)) \/
     exists j, i = IResume j (AGranted true) /\ tasks s !! j = Some (KJoinAccess c obj)).
Proof.
  intros Hs Hin Hout.
  set (P := fun x : nat * string => x ∈ admitted s \/
    exists j a t, i = IResume j a /\ tasks s !! j = Some t /\ admission t a s x).
  assert (Ho : OInv P s).
  { destruct (oinv_reachable s Hs). split; try done. intros x Hx. by left. }
  pose proof (oinv_run P i s) as Hrun. destruct (o_admitted P (run i s)) with (x := (c, n)) as [|Ha]; [|done|done|].
  { apply Hrun; [|by apply sinv_reachable|done]. intros j a t x -> Ht Hx. right. by exists j, a, t. }
  destruct Ha as (j & a & t & -> & Ht & obj & r & Hr & Hn & Hcase). exists obj, r. split; [done|]. split; [done|].
  destruct t; try done.
  - left. destruct Hcase as [Hc Ha]. cbn in Hc. subst c0. exists j, a, token, session, id. split; [done|]. split; [done|].
    unfold access_now in Ha. destruct (truthy_string (passwordHash r)); [|by left].
    destruct session as [uid|], (owner r) as [o|]; cbn in Ha; try (by case_bool_decide).
    destruct (user_id o =? uid) eqn:Hu; [|by case_bool_decide]. right. exists uid, o. split_and!; [done..|lia].
  - right. destruct Hcase as (Hc & -> & ->). cbn in Hc. subst c0. by exists j.
Qed.

Lemma rooms_admit_by_password_witness :
  let s := knocking in let s' := run (E := sample_env 7) (IResume 0 (AGranted true)) s in
  (0%nat, "room"%string) ∈ admitted s' /\ (0%nat, "room"%string) ∉ admitted s /\
  exists obj r, Manager.heap (mgr s) !! obj = Some r /\ name r = "room"%string /\
    ((exists j a token session id, IResume 0 (AGranted true) = IResume j a /\
        tasks s !! j = Some (KJoinRoom 0 token session id) /\
        (truthy_string (passwordHash r) = None \/
         exists uid o, session = SessionUser uid /\ owner r = Some o /\ user_id o = uid)) \/
     exists j, IResume 0 (AGranted true) = IResume j (AGranted true) /\ tasks s !! j = Some (KJoinAccess 0 obj)).
Proof.
  cbv zeta.
  assert (Hin : (0%nat, "room"%string) ∈ admitted (run (E := sample_env 7) (IResume 0 (AGranted true)) knocking))
    by (vm_compute; by left).
  assert (Hout : (0%nat, "room"%string) ∉ admitted knocking) by (vm_compute; apply not_elem_of_nil).
  split; [exact Hin|]. split; [exact Hout|].
  exact (rooms_admit_by_password (E := sample_env 7) (LL := sample_laws true 7) (IResume 0 (AGranted true)) knocking
    0%nat "room"%string knocking_reachable Hin Hout).
Defined.

(** ** Whose requests a connection makes *)

(** C14: A request a connection has on its way is one of the types a client may send, or an update
    of the connection's own user, unless it is the join of the connection itself into a room it
    was let into: nobody joins, leaves or updates a user in another's name. *)
Theorem requests_in_own_name `{C : VoiceConf} (s : Server) (c obj : nat) (token : AuthToken)
    (req : RoomRequest) (k : after_request) :
  reachable s -> KRequest c obj token req k ∈ tasks s ->
  match req with
  | JoinRequest info _ => exists cl, clients s !! c = Some cl /\ ci_id info = c_id cl /\
      (c, c_room cl) ∈ admitted s /\ exists o, k = AfterJoin o
  | UpdateUser info _ => exists cl, clients s !! c = Some cl /\ ci_id info = c_id cl
  | LeaveRequest => False
  | _ => True
  end.
Proof.
  intros Hs Hk. pose proof (s_requests _ _ (sinv_reachable s Hs) c obj token req k Hk) as Hok.
  assert (Hown : own_request s c req -> match req with JoinRequest _ _ | LeaveRequest => False
    | UpdateUser info _ => exists cl, clients s !! c = Some cl /\ ci_id info = c_id cl | _ => True end).
  { intros [Ht|(cl & info & p & Hcl & -> & Hid)]; [by destruct req|by exists cl]. }
  destruct k as [|o|t next]; cbn in Hok.
  - apply Hown in Hok. by destruct req.
  - destruct Hok as (cl & info & rc & Hcl & -> & Hid & _ & _ & Ha). exists cl. split_and!; try done. by exists o.
  - apply Hown in Hok. by destruct req.
Qed.

(** The client says that it is ready while its join request is on its way. *)
Definition busy_server : Server :=
  serve [(7, IResume 0 (AGranted true)); (7, IData 0 (DMessage (CStatus StatusReady None)))] knocking.

Lemma requests_in_own_name_witness :
  exists req k, KRequest 0 0 "tok" req k ∈ tasks busy_server /\ k = AfterMessage /\
  match req with
  | JoinRequest info _ => exists cl, clients busy_server !! 0%nat = Some cl /\ ci_id info = c_id cl /\
      (0%nat, c_room cl) ∈ admitted busy_server /\ exists o, k = AfterJoin o
  | UpdateUser info _ => exists cl, clients busy_server !! 0%nat = Some cl /\ ci_id info = c_id cl
  | LeaveRequest => False
  | _ => True
  end.
Proof.
  exists (UpdateUser (MkClientInfo "c1" None None (Some StatusReady)) None), AfterMessage.
  assert (Hk : KRequest 0 0 "tok" (UpdateUser (MkClientInfo "c1" None None (Some StatusReady)) None) AfterMessage
    ∈ tasks busy_server) by (vm_compute; set_solver).
  split; [exact Hk|]. split; [done|].
  assert (Hs : reachable busy_server) by (apply serve_reachable; [by vm_compute|apply knocking_reachable]).
  exact (requests_in_own_name busy_server 0 0 "tok"%string
    (UpdateUser (MkClientInfo "c1" None None (Some StatusReady)) None) AfterMessage Hs Hk).
Defined.

(** ** The limits of voice *)

(** The rooms that have somebody in voice. *)
Definition rooms_in_voice (s : Server) : nat :=
  length (List.filter (fun kv : string * nat => negb (bool_decide (voice_set s kv.2 = [])))
    (map_to_list (voiceParticipants s))).

Lemma rooms_in_voice_talking s : rooms_in_voice s = talking (voice_rooms s) (voiceSets s).
Proof.
  unfold rooms_in_voice, talking, voice_rooms. induction (map_to_list _) as [|[k m] l IH]; [done|].
  cbn [List.filter fmap list_fmap snd]. rewrite filter_cons.
  change (voice_set s m) with (set_at (voiceSets s) m).
  destruct (bool_decide (set_at (voiceSets s) m = [])) eqn:He; cbn [negb].
  - apply bool_decide_eq_true in He. rewrite decide_False by by intros Hx. exact IH.
  - apply bool_decide_eq_false in He. rewrite decide_True by done. cbn [length]. by rewrite IH.
Qed.

(** C15: Voice stays within its limits, up to the joins that are decided at the same time.  A join
    is decided by numbers read before the decision is awaited.  If no more than [K] joins were
    ever waiting for their decisions at a time, then no room has more than [limit - 1 + K]
    participants in voice, and no more than [limit - 1 + K] rooms have somebody in voice, for
    the two limits of the configuration; so the limits themselves hold when decisions do not
    overlap ([K = 1]).  Nobody is twice in a room's voice, and no two rooms share a set. *)
Theorem voice_within_limits `{C : VoiceConf} (s : Server) (K : nat) :
  reachable s -> (1 <= K)%nat -> (voiceOverlap s <= K)%nat ->
  (forall n, NoDup (participants_of s n) /\
     (0 < conf_max_participants_per_room ->
      Z.of_nat (length (participants_of s n)) <= conf_max_participants_per_room - 1 + Z.of_nat K)) /\
  (forall n n' set, voiceParticipants s !! n = Some set -> voiceParticipants s !! n' = Some set -> n = n') /\
  (0 < conf_max_concurrent_rooms ->
   Z.of_nat (rooms_in_voice s) <= conf_max_concurrent_rooms - 1 + Z.of_nat K).
Proof.
  intros Hs HK Ho. destruct (o_voice _ s (oinv_reachable s Hs)) as [V1 _ V3 _ V5 V6]. split_and!.
  - intros n. unfold participants_of, voice_set. destruct (voiceParticipants s !! n) as [m|].
    + split; [apply V3|]. intros Hp. specialize (V5 m Hp). unfold set_at in V5. lia.
    + split; [constructor|]. intros Hp. cbn. lia.
  - intros n n' m Hn Hn'. unfold voice_rooms in V1.
    apply elem_of_map_to_list in Hn, Hn'. apply list_elem_of_lookup in Hn as [i Hi], Hn' as [j Hj].
    assert (i = j) as ->; [|congruence]. apply (NoDup_lookup _ i j m V1); rewrite list_lookup_fmap.
    + by rewrite Hi.
    + by rewrite Hj.
  - intros Hr. specialize (V6 Hr). rewrite rooms_in_voice_talking. lia.
Qed.

Definition talking_server : Server :=
  serve [(10, IData 0 (DMessage (CVoice true))); (10, IResume 0 ADone)] joined_server.

Lemma voice_within_limits_witness :
  participants_of talking_server "room" = ["c1"%string] /\ voiceOverlap talking_server = 1%nat /\
  (0 < 2 -> Z.of_nat (length (participants_of talking_server "room")) <= 2) /\
  (0 < 2 -> Z.of_nat (rooms_in_voice talking_server) <= 2).
Proof.
  assert (Ho : voiceOverlap talking_server = 1%nat) by by vm_compute.
  assert (Hs : reachable talking_server) by (apply serve_reachable; [by vm_compute|apply joined_reachable]).
  destruct (voice_within_limits talking_server 1 Hs (le_n 1) ltac:(rewrite Ho; exact (le_n 1))) as (H1 & _ & H2).
  split; [by vm_compute|]. split; [exact Ho|]. split; [exact (proj2 (H1 "room"%string))|exact H2].
Defined.

(** A client comes into the room that is loaded. *)
Definition comes (c : nat) (id : string) : list (Z * input) :=
  [(11, IConnect id "room" false); (11, IData c (DAuth id)); (12, IResume 0 ADone); (12, IResume 0 ADone);
   (12, IResume 0 (AGranted true)); (12, IResume 0 ADone); (12, IResume 0 ADone)].

(** The limit of two is passed when two clients ask for the second place at the same time. *)
Example voice_limit_is_overrun :
  let s := serve ((10, IResume 0 (ARelay None)) :: (10, IResume 0 (AIce [])) :: comes 1 "c2" ++ comes 2 "c3" ++
    [(13, IData 1 (DMessage (CVoice true))); (13, IData 2 (DMessage (CVoice true)));
     (14, IResume 0 ADone); (14, IResume 0 ADone)]) talking_server in
  reachable s /\ participants_of s "room" = ["c1"; "c2"; "c3"]%string /\ voiceOverlap s = 2%nat.
Proof.
  cbv zeta. split; [|by vm_compute]. apply serve_reachable; [by vm_compute|].
  apply serve_reachable; [by vm_compute|apply joined_reachable].
Qed.

(** ** The message budget *)

(** What a client sends, each message at its instant, the clock going forward: what of it is
    processed, and the buckets after it. *)
Fixpoint timely (from : Z) (l : list (Z * ClientMessage)) (til : Z) : Prop :=
  match l with [] => from <= til | (t, _) :: l => from <= t /\ timely t l til end.
Fixpoint processed (l : list (Z * ClientMessage)) (b : TokenBucket * TokenBucket) : list (Z * ClientMessage) :=
  match l with
  | [] => []
  | (t, m) :: l => let '(ok, b) := consume t m b in if ok then (t, m) :: processed l b else processed l b
  end.
Definition spent (l : list (Z * ClientMessage)) (b : TokenBucket * TokenBucket) : TokenBucket * TokenBucket :=
  fold_left (fun b x => (consume x.1 x.2 b).2) l b.
Definition chats (l : list (Z * ClientMessage)) : list (Z * ClientMessage) := List.filter (fun x => is_chat x.2) l.
Definition count {A} (l : list A) : Q := inject_Z (Z.of_nat (length l)).

(** What is refilled in a stretch of time, and what a bucket has at an instant. *)
Definition earned (refill : Q) (from til : Z) : Q := (inject_Z (til - from) / 1000 * refill)%Q.
Definition available (capacity refill : Q) (b : TokenBucket) (t : Z) : Q :=
  Qmin' capacity (tokens b + earned refill (updatedAt b) t)%Q.

Lemma earned_split refill a b c : (earned refill a c == earned refill a b + earned refill b c)%Q.
Proof. unfold earned. replace (c - a) with ((b - a) + (c - b)) by lia. rewrite inject_Z_plus. field. Qed.

Lemma earned_nonneg refill a b : (0 <= refill)%Q -> a <= b -> (0 <= earned refill a b)%Q.
Proof.
  intros Hr Hab. unfold earned. apply Qmult_le_0_compat; [|done]. apply Qle_shift_div_l; [lra|].
  rewrite Qmult_0_l. change 0%Q with (inject_Z 0). rewrite <- Zle_Qle. lia.
Qed.

Lemma Qmin'_spec x y : (Qmin' x y <= x /\ Qmin' x y <= y /\ (Qmin' x y == x \/ Qmin' x y == y))%Q.
Proof.
  unfold Qmin'. destruct (Qle_bool x y) eqn:H.
  - apply Qle_bool_iff in H. split_and!; [lra..|]. by left.
  - assert (Hn : ~ (x <= y)%Q) by (rewrite <- Qle_bool_iff; by rewrite H). split_and!; [lra..|]. by right.
Qed.

(** Waiting gives no more than what is refilled meanwhile. *)
Lemma available_later capacity refill b from t :
  (0 <= refill)%Q -> from <= t -> (available capacity refill b t <= available capacity refill b from + earned refill from t)%Q.
Proof.
  intros Hr Ht. unfold available. pose proof (earned_nonneg refill from t Hr Ht).
  pose proof (earned_split refill (updatedAt b) from t) as Hs.
  destruct (Qmin'_spec capacity (tokens b + earned refill (updatedAt b) t)) as (H1 & H2 & _).
  destruct (Qmin'_spec capacity (tokens b + earned refill (updatedAt b) from)) as (_ & _ & [H4|H4]); lra.
Qed.

(** A bucket within its bounds, not used since [from]. *)
Definition bucket_ok (capacity : Q) (from : Z) (b : TokenBucket) : Prop :=
  (0 <= tokens b <= capacity)%Q /\ updatedAt b <= from.

Lemma takeToken_spec now capacity refill b ok b' from :
  (1 <= capacity)%Q -> (0 <= refill)%Q -> bucket_ok capacity from b -> from <= now ->
  takeToken now capacity refill b = (ok, b') ->
  bucket_ok capacity now b' /\
  ((if ok then 1 else 0) + available capacity refill b' now <= available capacity refill b from + earned refill from now)%Q.
Proof.
  intros Hc Hr [[Hb0 Hb1] Hu] Hf Ht. pose proof (available_later capacity refill b from now Hr Hf) as Hlater.
  assert (He : (0 <= earned refill (updatedAt b) now)%Q) by (apply earned_nonneg; [done|lia]).
  assert (Heq : (inject_Z (Z.max 0 (now - updatedAt b)) / 1000 * refill)%Q = earned refill (updatedAt b) now)
    by (unfold earned; by rewrite Z.max_r by lia).
  unfold takeToken in Ht. cbv zeta in Ht. rewrite Heq in Ht.
  change (Qmin' capacity (tokens b + earned refill (updatedAt b) now)) with (available capacity refill b now) in Ht.
  assert (Ha : (0 <= available capacity refill b now <= capacity)%Q).
  { unfold available. destruct (Qmin'_spec capacity (tokens b + earned refill (updatedAt b) now)) as (? & ? & [?|?]); lra. }
  assert (Hnew : forall x, (available capacity refill (MkBucket x now) now <= x)%Q).
  { intros x. unfold available. cbn [tokens updatedAt].
    destruct (Qmin'_spec capacity (x + earned refill now now)) as (_ & H & _).
    assert (H0 : (earned refill now now == 0)%Q) by (unfold earned; rewrite Z.sub_diag; field). lra. }
  destruct (Qlt_bool (available capacity refill b now) 1) eqn:Hq; injection Ht as <- <-.
  - specialize (Hnew (available capacity refill b now)). split; [by split|lra].
  - apply Qlt_bool_false in Hq. specialize (Hnew (available capacity refill b now - 1)%Q).
    split; [split; [cbn [tokens]; lra|done]|lra].
Qed.

(** A pair of buckets. *)
Definition buckets_ok (from : Z) (b : TokenBucket * TokenBucket) : Prop :=
  bucket_ok MESSAGE_BUCKET_CAPACITY from b.1 /\ bucket_ok CHAT_BUCKET_CAPACITY from b.2.
Definition general_at (b : TokenBucket * TokenBucket) : Z -> Q :=
  available MESSAGE_BUCKET_CAPACITY MESSAGE_BUCKET_REFILL_PER_SEC b.1.
Definition chat_at (b : TokenBucket * TokenBucket) : Z -> Q :=
  available CHAT_BUCKET_CAPACITY CHAT_BUCKET_REFILL_PER_SEC b.2.

Lemma timely_le l from til : timely from l til -> from <= til.
Proof. revert from. induction l as [|[t m] l IH]; intros from; cbn; [done|]. intros [H Hl%IH]. lia. Qed.

Lemma count_cons {A} (x : A) l : (count (x :: l) == 1 + count l)%Q.
Proof. unfold count. cbn [length]. rewrite Nat2Z.inj_succ, <- Z.add_1_l, inject_Z_plus. reflexivity. Qed.

(** A message: the general bucket pays for what is processed, the one for chat for what is chat. *)
Lemma consume_spec t m b ok b' from :
  buckets_ok from b -> from <= t -> consume t m b = (ok, b') ->
  buckets_ok t b' /\
  ((if ok then 1 else 0) + general_at b' t <= general_at b from + earned MESSAGE_BUCKET_REFILL_PER_SEC from t)%Q /\
  ((if ok && is_chat m then 1 else 0) + chat_at b' t <= chat_at b from + earned CHAT_BUCKET_REFILL_PER_SEC from t)%Q.
Proof.
  intros [H1 H2] Ht Hc. unfold consume in Hc.
  destruct (takeToken t MESSAGE_BUCKET_CAPACITY _ b.1) as [ok1 g] eqn:Hg.
  apply (takeToken_spec _ _ _ _ _ _ from) in Hg as [G1 G2]; [|done..].
  assert (Hkeep : bucket_ok CHAT_BUCKET_CAPACITY t b.2) by (destruct H2; split; [done|lia]).
  pose proof (available_later CHAT_BUCKET_CAPACITY CHAT_BUCKET_REFILL_PER_SEC b.2 from t ltac:(done) Ht) as Hlater.
  unfold general_at, chat_at. destruct ok1; cbn [negb] in Hc.
  - destruct (is_chat m) eqn:Hm.
    + destruct (takeToken t CHAT_BUCKET_CAPACITY _ b.2) as [ok2 h] eqn:Hh. injection Hc as -> <-.
      apply (takeToken_spec _ _ _ _ _ _ from) in Hh as [J1 J2]; [|done..].
      split; [by split|]. cbn [fst snd]. rewrite andb_true_r. split; [destruct ok; lra|lra].
    + injection Hc as <- <-. split; [by split|]. cbn [fst snd andb]. split; lra.
  - injection Hc as <- <-. split; [by split|]. cbn [fst snd andb]. split; lra.
Qed.

Lemma budget_spent l from til b :
  buckets_ok from b -> timely from l til ->
  (count (processed l b) <= general_at b from + earned MESSAGE_BUCKET_REFILL_PER_SEC from til /\
   count (chats (processed l b)) <= chat_at b from + earned CHAT_BUCKET_REFILL_PER_SEC from til)%Q.
Proof.
  revert from b. induction l as [|[t m] l IH]; intros from b Hb Hl.
  - assert (H0 : forall cap refill x, (0 <= refill)%Q -> bucket_ok cap from x -> (0 <= cap)%Q ->
      (0 <= available cap refill x from + earned refill from til)%Q).
    { intros cap refill x Hr [[? ?] Hx] Hcap. unfold available. pose proof (earned_nonneg refill from til Hr Hl).
      pose proof (earned_nonneg refill (updatedAt x) from Hr Hx).
      destruct (Qmin'_spec cap (tokens x + earned refill (updatedAt x) from)) as (_ & _ & [?|?]); lra. }
    destruct Hb as [Hg Hc]. change (count _) with 0%Q. change (count (chats (processed [] b))) with 0%Q.
    split; by apply H0.
  - destruct Hl as [Ht Hl]. cbn [processed]. destruct (consume t m b) as [ok b'] eqn:Hc.
    apply (consume_spec t m b ok b' from Hb Ht) in Hc as (Hb' & H1 & H2).
    destruct (IH t b' Hb' Hl) as [I1 I2].
    rewrite (earned_split MESSAGE_BUCKET_REFILL_PER_SEC from t til), (earned_split CHAT_BUCKET_REFILL_PER_SEC from t til).
    destruct ok; cbn [andb] in *; [|split; lra].
    unfold chats in *. cbn [List.filter snd]. destruct (is_chat m); rewrite ?count_cons; split; lra.
Qed.

Lemma spent_ok l from til b : buckets_ok from b -> timely from l til -> buckets_ok til (spent l b).
Proof.
  revert from b. induction l as [|[t m] l IH]; intros from b Hb Hl.
  - destruct Hb as [[? H1] [? H2]]. cbn in Hl. split; (split; [done|cbn; lia]).
  - destruct Hl as [Ht Hl]. cbn [spent fold_left fst snd]. destruct (consume t m b) as [ok b'] eqn:Hc.
    apply (consume_spec t m b ok b' from Hb Ht) in Hc as (Hb' & _). by apply (IH t).
Qed.

(** However fast a connection sends and whatever it sent before, what is processed of its
    messages over a stretch of time stays within the budget: the capacity of its bucket and what
    is refilled meanwhile, and of chat messages what the smaller bucket gives. *)
Theorem message_budget (t0 from til : Z) (earlier l : list (Z * ClientMessage)) :
  timely t0 earlier from -> timely from l til ->
  let b := spent earlier (fresh_buckets t0) in
  (count (processed l b) <= 40 + 10 * (inject_Z (til - from) / 1000) /\
   count (chats (processed l b)) <= 5 + (1 # 2) * (inject_Z (til - from) / 1000))%Q.
Proof.
  intros He Hl b. assert (Hb : buckets_ok from b).
  { apply (spent_ok earlier t0); [|done]. split; (split; [by vm_compute|done]). }
  destruct (budget_spent l from til b Hb Hl) as [H1 H2].
  assert (G : (general_at b from <= 40)%Q) by apply (Qmin'_spec MESSAGE_BUCKET_CAPACITY).
  assert (C : (chat_at b from <= 5)%Q) by apply (Qmin'_spec CHAT_BUCKET_CAPACITY).
  unfold earned, MESSAGE_BUCKET_REFILL_PER_SEC, CHAT_BUCKET_REFILL_PER_SEC in *. split; lra.
Qed.

(** Fifty messages within a second, ten of them chat, after a quiet minute. *)
Definition burst : list (Z * ClientMessage) :=
  map (fun i => (60000 + Z.of_nat i * 20,
                 if (i mod 5 =? 0)%nat then CReq (Some (WOther (ChatRequest (Typed "hi")))) else CPing 0)) (seq 0 50).

Lemma message_budget_witness :
  let b := spent [(10, CPing 0)] (fresh_buckets 0) in
  (length burst, length (processed burst b), length (chats (processed burst b))) = (50, 44, 5)%nat /\
  (count (processed burst b) <= 40 + 10 * (inject_Z (61000 - 60000) / 1000) /\
   count (chats (processed burst b)) <= 5 + (1 # 2) * (inject_Z (61000 - 60000) / 1000))%Q.
Proof.
  split; [by vm_compute|]. apply (message_budget 0 60000 61000 [(10, CPing 0)] burst); vm_compute; by split_and!.
Defined.

(** ** Unloading *)

(** Closing the sockets of a list of clients does not change the list. *)
Lemma kick_all_direct get code s fuel i :
  (forall s s', roomJoins s' = roomJoins s -> get s' = get s) ->
  (forall c, c ∈ get s -> c_kind <$> clients s !! c = Some Direct) ->
  (length (get s) <= i + fuel)%nat ->
  out (kick_all get code fuel i s) = out s ++ map (fun c => OClose c code) (drop i (get s)) /\
  roomJoins (kick_all get code fuel i s) = roomJoins s.
Proof.
  intros Hget. revert i s. induction fuel as [|fuel IH]; intros i s Hd Hlen; cbn [kick_all].
  { rewrite drop_ge by lia. by rewrite app_nil_r. }
  destruct (get s !! i) as [c|] eqn:Hc.
  2: { apply lookup_ge_None in Hc. rewrite drop_ge by done. by rewrite app_nil_r. }
  pose proof (Hd c ltac:(by eapply list_elem_of_lookup_2)) as Hk.
  unfold kick, with_client at 1 2. destruct (clients s !! c) as [cl|] eqn:Hcl; [|done]. cbn in Hk. simplify_eq.
  rewrite Hk. set (s1 := emit (OClose c code) _).
  assert (Hg : get s1 = get s) by by apply Hget.
  destruct (IH (S i) s1) as [H1 H2].
  - intros x Hx. rewrite Hg in Hx. specialize (Hd x Hx). unfold s1.
    change (clients (emit _ _)) with (alter (fun cl : Client => cl <| c_authTimeout := false |>) c (clients s)).
    destruct (decide (c = x)) as [<-|Hne]; [|by rewrite lookup_alter_ne].
    rewrite lookup_alter_eq, Hcl. cbn. by rewrite Hk.
  - rewrite Hg. lia.
  - rewrite H1, H2, Hg. split; [|done]. rewrite (drop_S (get s) c i Hc). cbn [map].
    change (out s1) with (out s ++ [OClose c code]). by rewrite <- app_assoc.
Qed.

(** When a room unloads, every client that joined it over a socket of its own is sent away,
    in the order of the joins and each once, and neither the joins nor the voice of the room are
    kept.  (The sockets close later: the clients leave with their close events.) *)
Theorem unload_sends_everybody_away (roomName : string) (reason : Manager.UnloadReason) (s : Server) :
  (forall c, c ∈ joins_of roomName s -> c_kind <$> clients s !! c = Some Direct) ->
  let s' := onRoomUnload roomName reason s in
  out s' = out s ++ map (fun c => OClose c (unloadReason reason)) (joins_of roomName s) /\
  roomJoins s' = delete roomName (roomJoins s) /\
  voiceParticipants s' !! roomName = None /\ roomRelayChannels s' !! roomName = None.
Proof.
  intros Hd. cbv zeta. unfold onRoomUnload. cbv zeta.
  destruct (kick_all_direct (joins_of roomName) (unloadReason reason) s (length (joins_of roomName s)) 0) as [H1 H2].
  - intros x y Hxy. unfold joins_of. by rewrite Hxy.
  - done.
  - done.
  - set (s1 := kick_all _ _ _ _ _) in *. clearbody s1. split_and!.
    + exact H1.
    + change (delete roomName (roomJoins s1) = delete roomName (roomJoins s)). by rewrite H2.
    + apply lookup_delete_eq.
    + apply lookup_delete_eq.
Qed.

Lemma unload_sends_everybody_away_witness :
  joins_of "room" talking_server = [0%nat] /\
  let s' := onRoomUnload "room" Manager.Admin talking_server in
  out s' = out talking_server ++ map (fun c => OClose c 4003) (joins_of "room" talking_server) /\
  roomJoins s' = delete "room"%string (roomJoins talking_server) /\
  voiceParticipants s' !! "room"%string = None /\ roomRelayChannels s' !! "room"%string = None.
Proof.
  assert (Hj : joins_of "room" talking_server = [0%nat]) by (vm_compute; reflexivity). split; [exact Hj|].
  apply (unload_sends_everybody_away "room" Manager.Admin talking_server).
  intros c Hc. rewrite Hj in Hc. apply list_elem_of_singleton in Hc as ->. vm_compute. reflexivity.
Defined.

(** ** What the code does not do *)

(** A client is joined once its session is known, before the password is checked: while it
    waits, its requests are processed on the locked room.  It is refused in the end, and the
    video it put on plays on. *)
Example refused_client_acts :
  let s := serve [(7, IData 0 (DMessage (CReq (Some (WOther (PlayNowRequest (Typed (MkVideoAdd "direct" "v1" None None None))))))));
                 (8, IResume 1 ADone); (9, IResume 0 (AGranted false))] knocking in
  reachable s /\ OClose 0 ROOM_PASSWORD_REQUIRED ∈ out s /\ admitted s = [] /\
  (qi_id <$> (Manager.heap (mgr s) !! 0%nat ≫= currentSource)) = Some "v1"%string.
Proof.
  cbv zeta. split; [|split; [|split]].
  - apply serve_reachable; [by vm_compute|apply knocking_reachable].
  - vm_compute. by left.
  - by vm_compute.
  - by vm_compute.
Qed.

(** Three clients of one balancer join the room. *)
Definition behind_balancer : Server :=
  serve [(0, IBalancerJoin "b" "c1" "room" "tok"); (0, IBalancerJoin "b" "c2" "room" "tok");
        (0, IBalancerJoin "b" "c3" "room" "tok"); (2, IResume 0 ADone);
        (3, IManage (Manager.Resume 0 (Manager.RSnapshot None))); (4, IManage (Manager.Resume 0 row_answer));
        (5, IManage (Manager.Resume 0 (Manager.RNumber 1))); (6, IResume 0 ADone); (6, IResume 0 ADone);
        (6, IResume 0 ADone); (6, IResume 0 ADone); (6, IResume 0 ADone); (7, IResume 0 (AGranted true));
        (7, IResume 0 (AGranted true)); (7, IResume 0 (AGranted true)); (8, IResume 0 ADone);
        (8, IResume 0 ADone); (8, IResume 0 ADone); (8, IResume 0 ADone); (8, IResume 0 ADone);
        (8, IResume 0 ADone)] init.

(** A balancer's client is taken out of the list while the list is walked: of three clients the
    second is not told that the room unloads, and stays connected. *)
Example unload_skips_balancer_clients :
  let s' := onRoomUnload "room" Manager.Admin behind_balancer in
  reachable behind_balancer /\ joins_of "room" behind_balancer = [0; 1; 2]%nat /\
  OClose 0 ROOM_UNLOADED ∈ out s' /\ OClose 1 ROOM_UNLOADED ∉ out s' /\ OClose 2 ROOM_UNLOADED ∈ out s' /\
  connections s' = [1%nat].
Proof.
  cbv zeta. split; [apply serve_reachable; [by vm_compute|apply reachable_init]|].
  split; [by vm_compute|].
  assert (Ho : out (onRoomUnload "room" Manager.Admin behind_balancer)
               = out behind_balancer ++ [OClose 0 ROOM_UNLOADED; OClose 2 ROOM_UNLOADED]) by by vm_compute.
  assert (Hn : forallb (fun o => match o with OClose _ _ => false | _ => true end) (out behind_balancer) = true) by by vm_compute.
  set (l := out behind_balancer) in *. clearbody l. rewrite Ho. split_and!.
  - apply elem_of_app. right. by left.
  - intros [Hin|Hin]%elem_of_app.
    + rewrite forallb_forall in Hn. by specialize (Hn _ (proj1 (list_elem_of_In _ _) Hin)).
    + apply list_elem_of_In in Hin. by destruct Hin as [Hin|[Hin|[]]].
  - apply elem_of_app. right. right. by left.
  - by vm_compute.
Qed.

(** A client that goes while Redis is asked about its password joins the list of the room after
    it has left, and stays in it; all its tasks are done. *)
Example late_join_stays_in_the_list :
  let s := serve [(7, IClose 0); (8, IResume 0 (AGranted true)); (9, IResume 1 ADone); (10, IResume 0 ADone)] knocking in
  reachable s /\ connections s = [] /\ tasks s = [] /\ joins_of "room" s = [0%nat].
Proof.
  cbv zeta. split; [apply serve_reachable; [by vm_compute|apply knocking_reachable]|]. split_and!; by vm_compute.
Qed.

(** Voice is keyed by the name the client has: a client that joins voice under the URL's spelling
    of the name, before its join gives it the room's, is looked for under the room's when it
    goes, and stays a participant. *)
Example voice_keeps_a_ghost :
  let s := serve [(6, IData 0 (DMessage (CVoice true))); (6, IResume 1 ADone); (7, IResume 0 (AGranted true)); (8, IResume 0 (ARelay None));
                 (9, IResume 0 ADone); (10, IResume 0 (AIce [])); (10, IResume 0 ADone); (11, IClose 0);
                 (12, IResume 0 ADone)] knocking in
  reachable s /\ connections s = [] /\ tasks s = [] /\ participants_of s "ROOM" = ["c1"%string].
Proof.
  cbv zeta. split; [apply serve_reachable; [by vm_compute|apply knocking_reachable]|]. split_and!; by vm_compute.
Qed.
