(* ===== verification/Accounts.v ===== *)
(** * Accounts: users, their passwords and their sessions

    [server/usermanager.ts], [server/auth/tokens.ts], the routes of [server/auth/index.ts] and
    [server/api/user.ts], with [consumeRateLimitPoints] of [server/rate-limit.ts].  A request is
    handled in one piece; it changes the tables and Redis, and what it answers is kept in
    [sent], since a handler may answer twice.  Commands to Redis and the database find something
    or nothing; that they fail as such is left out. *)

From Stdlib Require Import Ascii.
From S2P Require Import Prelude Types Subtitles RoomModel RoomPlayback.

Module Accounts.

(** ** What the code asks of others *)

Inductive EnvName := Production | Development | Test.
#[global] Instance EnvName_eq : EqDecision EnvName.
Proof. solve_decision. Defined.

(** The limiters of rate-limiter-flexible this code keeps. *)
Inductive LimiterName := ApiLimiter | SlowBruteByIP | ConsecutiveFails | RoomPasswordFail.
Record LimiterInfo := MkInfo { consumedPoints : Z; msBeforeNext : Z }.

(** [consume] resolves, rejects with the state of the key, or rejects with an error. *)
Inductive LimiterAnswer := Consumed (i : LimiterInfo) | Refused (i : LimiterInfo) | LimiterError.

Class Limiter := {
  Limits : Type;
  limiter_consume : Z -> LimiterName -> string -> Z -> Limits -> LimiterAnswer * Limits;
  limiter_get : Z -> LimiterName -> string -> Limits -> option LimiterInfo;
  limiter_delete : LimiterName -> string -> Limits -> Limits;
  limiter_reward : LimiterName -> string -> Z -> Limits -> Limits;
}.

(** What stays the same while the server runs: the configuration, argon2, the validators of the
    models and of the request schemas, the two SQL functions, and whether the database refuses a
    second row with the name or the address of another (the models ask it to; the comments of
    [usermanager.ts] say that it does not). *)
Class Platform := {
  conf_env : EnvName;
  conf_rate_limit : bool;
  conf_enable_registration : bool;
  conf_mail_enabled : bool;
  conf_api_key : option string;
  argon_hash : string -> string -> string;
  argon_verify : string -> string -> option bool;
  argon_needsRehash : string -> bool;
  model_isEmail : string -> bool;
  schema_isEmail : string -> bool;
  sql_lower : string -> string;
  sql_findOne : (User -> bool) -> list User -> option User;
  db_unique : bool;
}.

(** One call: its instant, the random values it would draw, whether the session store of express
    goes along, and whether the mail service takes a mail. *)
Class AccountEnv := {
  acc_now : Z;
  random_token : AuthToken;
  random_salt : string;
  random_nonce : string;
  random_key : string;
  random_nickname : string;
  session_ok : bool;
  mail_ok : bool;
}.

(** ** The state *)

Inductive BusEvent := UserModified (t : option AuthToken) | LoggedInEvent (u : User) (t : AuthToken)
                    | LoggedOutEvent (u : User) (t : option AuthToken).

(** What a handler throws. *)
Inductive error :=
| BadPassword | UsernameTaken | EmailAlreadyInUse | FeatureDisabled | LengthOutOfRange
| InvalidVerifyKey | NoEmail | UserNotFound | UniqueConstraint (fields : list string)
| ValidationFailed | ZodError | HeadersSent | MailFailed | OtherError.

(** The name in the body of an error response. *)
Inductive Body :=
| Success
| Failed (name : string)
| SessionToken (t : AuthToken)
| Entered (email : option string) (name : string) (t : AuthToken)
| Recovered (t : option AuthToken)
| UserName (name : string) (loggedIn discordLinked : bool)
| AccountInfo (name : string) (email : option string) (discordLinked hasPassword : bool)
| OwnedRooms (rooms : list string)
| Redirect (target : string).

Record Response := MkResponse { status : Z; body : Body }.

(** The request, as the middleware has filled it in. *)
Record Req := MkReq {
  ip : string;
  token : option AuthToken;
  ottsession : option SessionInfo;
  user : option User;
}.
#[global] Instance eta_Req : Eta Req := fun q => MkReq (ip q) (token q) (ottsession q) (user q).

Section State.
Context `{L : Limiter}.

Record State := MkState {
  table : list User;
  nextId : Z;
  roomOwners : list (string * option Z);
  sessions : gmap AuthToken (SessionInfo * Z);
  recovery : gmap string (string * Z);
  userByIdCache : list (Z * (User * Z));
  limits : Limits;
  mails : list (string * string);
  bus : list BusEvent;
  sent : list Response;
}.
#[global] Instance eta_State : Eta State := fun s =>
  MkState (table s) (nextId s) (roomOwners s) (sessions s) (recovery s) (userByIdCache s) (limits s)
    (mails s) (bus s) (sent s).

Definition AM : Type -> Type := M State error.

Section Code.
Context `{P : Platform} `{E : AccountEnv}.
Implicit Types (s : State) (u : User) (q : Req).

(** ** Answering *)

(** [res.set], [res.cookie], [res.status] before the body: not after an answer is out. *)
Definition headers : AM unit := s <- get ;; if sent s then ret tt else throw HeadersSent.
Definition respond (st : Z) (b : Body) : AM unit :=
  headers ;;; modify (fun s => s <| sent ::= fun l => l ++ [MkResponse st b] |>).

(** ** Rate limits *)

(** [handleRateLimit] sets a header and answers. *)
Definition handleRateLimit : AM unit := respond 429 (Failed "TooManyRequests").

Definition consumeRateLimitPoints (key : string) (points : Z) : AM bool :=
  if negb conf_rate_limit then ret true
  else
    s <- get ;;
    let a := limiter_consume acc_now ApiLimiter key points (limits s) in
    modify (fun s => s <| limits := a.2 |>) ;;;
    match a.1 with
    | Consumed _ => headers ;;; ret true
    | Refused _ => handleRateLimit ;;; ret false
    | LimiterError => throw OtherError
    end.

(** ** Tokens *)

Definition EXPIRATION_TIME : Z := 14 * 24 * 60 * 60.
Definition EXPIRATION_TIME_LOGGED_IN : Z := 120 * 24 * 60 * 60 * 2.

(** A key of Redis, until it expires. *)
Definition live {A} (m : gmap string (A * Z)) (k : string) : option A :=
  match m !! k with Some (a, until) => if acc_now <? until then Some a else None | None => None end.

Definition validate (t : AuthToken) s : bool :=
  match live (sessions s) t with Some _ => true | None => false end.
Definition mint : AuthToken := random_token.
Definition getSessionInfo (t : AuthToken) : AM SessionInfo :=
  s <- get ;; match live (sessions s) t with Some i => ret i | None => throw OtherError end.
Definition setSessionInfo (t : AuthToken) (session : SessionInfo) : AM unit :=
  let expiration := match session with SessionUser _ => EXPIRATION_TIME_LOGGED_IN | _ => EXPIRATION_TIME end in
  modify (fun s => s <| sessions ::= <[t := (session, acc_now + 1000 * expiration)]> |>).
Definition revoke (t : AuthToken) : AM unit := modify (fun s => s <| sessions ::= delete t |>).

(** ** The table of users *)

Definition truthy (o : option string) : bool := match o with Some e => negb (bool_decide (e = ""%string)) | None => false end.
Definition present {A} (o : option A) : bool := match o with Some _ => true | None => false end.

(** The validators of the model, on what a save changes. *)
Definition valid_username (n : string) : bool := (1 <=? String.length n)%nat && (String.length n <=? 255)%nat.
Definition valid_email (e : option string) : bool := match e with Some e => model_isEmail e | None => true end.
Definition ensureCredentials u : bool :=
  negb (bool_decide (user_username u = ""%string)) && present (user_hash u) && present (user_salt u)
  || truthy (user_discordId u).

(** The columns whose unique constraint [u] would break among these rows. *)
Definition conflicts u (l : list User) : list string :=
  (if existsb (fun v => bool_decide (user_username v = user_username u)) l then ["username"%string] else [])
  ++ (if present (user_email u) && existsb (fun v => bool_decide (user_email v = user_email u)) l then ["email"%string] else []).

(** What the database answers about them. *)
Definition refused u (l : list User) : list string := if db_unique then conflicts u l else [].

Definition others u (l : list User) : list User := List.filter (fun v => negb (user_id v =? user_id u)) l.

(** [user.save()], [old] being the row the object was read from. *)
Definition save (old u : User) : AM unit :=
  s <- get ;;
  if (bool_decide (user_username u = user_username old) || valid_username (user_username u))
     && (bool_decide (user_email u = user_email old) || valid_email (user_email u)) && ensureCredentials u
  then match refused u (others u (table s)) with
       | [] => modify (fun s => s <| table ::= map (fun v => if user_id v =? user_id u then u else v) |>)
       | fields => throw (UniqueConstraint fields)
       end
  else throw ValidationFailed.

(** [UserModel.create]. *)
Definition create (email : option string) (name : string) (salt hash discordId : option string) : AM User :=
  s <- get ;;
  let u := MkUser (nextId s) name email salt hash discordId in
  if valid_username name && valid_email email && ensureCredentials u
  then match refused u (table s) with
       | [] => modify (fun s => s <| table ::= fun l => l ++ [u] |> <| nextId ::= Z.succ |>) ;;; ret u
       | fields => throw (UniqueConstraint fields)
       end
  else throw ValidationFailed.

Definition findOne (p : User -> bool) : AM (option User) := s <- get ;; ret (sql_findOne p (table s)).

(** [getUser], by what the caller gives. *)
Inductive UserQuery := ByUser (name : string) | ById (id : Z) | ByDiscord (id : string).

Definition matches (w : UserQuery) u : bool :=
  match w with
  | ByUser n => bool_decide (user_email u = Some n) || bool_decide (sql_lower (user_username u) = sql_lower n)
  | ById i => user_id u =? i
  | ByDiscord d => bool_decide (user_discordId u = Some d)
  end.

Definition valid_query (w : UserQuery) : bool :=
  match w with
  | ByUser n | ByDiscord n => negb (bool_decide (n = ""%string))
  | ById i => negb (i =? 0)
  end.

Definition getUser (w : UserQuery) : AM User :=
  if negb (valid_query w) then throw OtherError
  else o <- findOne (matches w) ;; match o with Some u => ret u | None => throw UserNotFound end.

Definition isUsernameTaken (n : string) : AM bool :=
  o <- findOne (fun u => bool_decide (user_username u = n)) ;; ret (present o).
Definition isEmailTaken (e : string) : AM bool :=
  o <- findOne (fun u => bool_decide (user_email u = Some e)) ;; ret (present o).

(** ** The cache of users by id *)

Definition USER_CACHE_TTL_MS : Z := 60000.
Definition USER_CACHE_MAX : nat := 2048.

(** The loop that drops the oldest entries: as many as there are too many. *)
Definition pruneUserByIdCache (now : Z) (c : list (Z * (User * Z))) : list (Z * (User * Z)) :=
  let c := List.filter (fun e => now - e.2.2 <? USER_CACHE_TTL_MS) c in
  drop (length c - USER_CACHE_MAX) c.

Definition getUserCachedById (id : Z) : AM User :=
  s <- get ;;
  let fetch :=
    modify (fun s => s <| userByIdCache ::= map_delete id |>) ;;;
    u <- getUser (ById id) ;;
    modify (fun s => s <| userByIdCache ::= fun c => pruneUserByIdCache acc_now (map_set id (u, acc_now) c) |>) ;;;
    ret u in
  match map_get id (userByIdCache s) with
  | Some (u, at_) => if acc_now - at_ <? USER_CACHE_TTL_MS then ret u else fetch
  | None => fetch
  end.

Definition emit (e : BusEvent) : AM unit := modify (fun s => s <| bus ::= fun l => l ++ [e] |>).
Definition onUserModified (t : option AuthToken) : AM unit :=
  modify (fun s => s <| userByIdCache := [] |>) ;;; emit (UserModified t).
Definition onUserLogIn u (t : AuthToken) : AM unit := onUserModified (Some t) ;;; emit (LoggedInEvent u t).
Definition onUserLogOut u (t : option AuthToken) : AM unit := onUserModified t ;;; emit (LoggedOutEvent u t).

(** ** Passwords *)

Definition attempt {A} (m : AM A) (h : error -> AM A) : AM A :=
  fun s => match m s with (inl e, s') => h e s' | r => r end.

(** What [.] of a regular expression matches from the start: the first line. *)
Fixpoint first_line (p : string) : string :=
  match p with
  | EmptyString => EmptyString
  | String c p' => if Ascii.eqb c "010"%char || Ascii.eqb c "013"%char then EmptyString else String c (first_line p')
  end.

Definition between (a b c : ascii) : bool :=
  (nat_of_ascii a <=? nat_of_ascii c)%nat && (nat_of_ascii c <=? nat_of_ascii b)%nat.
Definition is_lower (c : ascii) : bool := between "a"%char "z"%char c.
Definition is_upper (c : ascii) : bool := between "A"%char "Z"%char c.
Definition is_digit (c : ascii) : bool := between "0"%char "9"%char c.
Definition is_symbol (c : ascii) : bool := str_contains c "!@#$%^&*"%string.

(** [/^(?=.*[...])/] *)
Definition has (p : ascii -> bool) (password : string) : bool :=
  negb (str_forall (fun c => negb (p c)) (first_line password)).

Definition isPasswordValid (password : string) : bool :=
  if bool_decide (conf_env = Development) && bool_decide (password = "1"%string) then true
  else
    let conditions := map (fun p => Z.b2z (has p password)) [is_lower; is_upper; is_digit; is_symbol] in
    (2 <=? foldr Z.add 0 conditions) && (8 <=? String.length (first_line password))%nat.

(** [hash.toString().replace(/\0+$/, "")] *)
Fixpoint trim_nulls (h : string) : string :=
  match h with
  | EmptyString => EmptyString
  | String c h' => match trim_nulls h' with
                   | EmptyString => if Ascii.eqb c "000"%char then EmptyString else String c EmptyString
                   | t => String c t
                   end
  end.

(** The user object comes back, with a new hash when the old one was made with other settings;
    [old] is the row it was read from. *)
Definition verifyUserPassword (old u : User) (password : string) : AM (bool * User) :=
  match user_hash u, user_salt u with
  | Some h, Some salt =>
      let hash := trim_nulls h in
      match argon_verify hash (salt ++ password)%string with
      | None => throw OtherError
      | Some true =>
          if argon_needsRehash hash then
            let u' := MkUser (user_id u) (user_username u) (user_email u) (user_salt u)
                        (Some (argon_hash random_nonce (salt ++ password)%string)) (user_discordId u) in
            save old u' ;;; ret (true, u')
          else ret (true, u)
      | Some false => ret (false, u)
      end
  | _, _ => ret (false, u)
  end.

Definition changeUserPassword (old u : User) (newPassword : string) (validatePassword : bool) : AM User :=
  if validatePassword && negb (isPasswordValid newPassword) then throw BadPassword
  else
    let u' := MkUser (user_id u) (user_username u) (user_email u) (Some random_salt)
                (Some (argon_hash random_nonce (random_salt ++ newPassword)%string)) (user_discordId u) in
    save old u' ;;; ret u'.

(** [hash.indexOf("$argon2$") > -1] *)
Fixpoint is_argon (h : string) : bool :=
  String.prefix "$argon2$"%string h || match h with EmptyString => false | String _ h' => is_argon h' end.

(** What the strategy tells passport: an error, a user, or no user. *)
Inductive AuthResult := AuthError (message : string) | AuthUser (u : User) | AuthNobody.

Definition incorrect : AuthResult := AuthError "Email or password is incorrect.".
Definition unknown : AuthResult := AuthError "An unknown error occurred. Please try again later.".

Definition authCallback (emailOrUser password : string) : AM AuthResult :=
  attempt
    (u <- getUser (ByUser emailOrUser) ;;
     match user_hash u, user_salt u with
     | Some h, Some _ =>
         attempt
           (r <- verifyUserPassword u u password ;;
            ret (if (r.1 : bool) then AuthUser r.2
                 else if is_argon (trim_nulls h) then incorrect else AuthNobody))
           (fun _ => ret unknown)
     | _, _ => ret unknown
     end)
    (fun e => ret match e with UserNotFound => incorrect | _ => unknown end).

(** ** Registration *)

Definition USERNAME_LENGTH_MAX : nat := 48.

(** A missing password is tested and hashed as the word that stands for it; a missing name has
    no length. *)
Definition registerUser (email name password : option string) : AM User :=
  if negb conf_enable_registration then throw FeatureDisabled
  else if negb (isPasswordValid (default "undefined"%string password)) then throw BadPassword
  else match name with
  | None => throw OtherError
  | Some name =>
      if (USERNAME_LENGTH_MAX <? String.length name)%nat then throw LengthOutOfRange
      else
        let email := if bool_decide (email = Some ""%string) then None else email in
        taken <- isUsernameTaken name ;;
        when taken (throw UsernameTaken) ;;;
        (match email with
         | Some e => taken <- isEmailTaken e ;; when taken (throw EmailAlreadyInUse)
         | None => ret tt
         end) ;;;
        create email name (Some random_salt)
          (Some (argon_hash random_nonce (random_salt ++ default "undefined"%string password)%string)) None
  end.

Definition registerUserSocial (name : string) (discordId : string) : AM User :=
  if negb conf_enable_registration then throw FeatureDisabled
  else create None name None None (Some discordId).

(** ** Discord accounts *)

Record Profile := MkProfile {
  p_id : string;
  discriminator : option string;
  global_name : option string;
  p_username : string;
}.

Definition buildUsernameFromDiscordProfile (p : Profile) : string :=
  if bool_decide (discriminator p = Some "0"%string) then
    match global_name p with
    | Some g => if bool_decide (g = ""%string) then p_username p else g
    | None => p_username p
    end
  else (p_username p ++ "#" ++ default "undefined" (discriminator p))%string.

Definition try_get {A} (m : AM A) : AM (error + A) := attempt (a <- m ;; ret (inr a)) (fun e => ret (inl e)).

Definition with_discord u (d : option string) : User :=
  MkUser (user_id u) (user_username u) (user_email u) (user_salt u) (user_hash u) d.

Definition connectSocial u (discordId : string) : AM unit :=
  let u' := with_discord u (Some discordId) in
  r <- try_get (getUser (ByDiscord discordId)) ;;
  match r with
  | inr social =>
      if truthy (user_email social) || present (user_salt social) || present (user_hash social)
      then throw OtherError
      else modify (fun s => s <| roomOwners ::= map (fun r => if bool_decide (r.2 = Some (user_id social))
                                                          then (r.1, Some (user_id u)) else r) |>
                          <| table ::= others social |>)
  | inl _ => ret tt
  end ;;;
  save u u'.

Definition authCallbackDiscord (current : option User) (p : Profile) : AM User :=
  match current with
  | Some u => connectSocial u (p_id p) ;;; ret (with_discord u (Some (p_id p)))
  | None =>
      r <- try_get (getUser (ByDiscord (p_id p))) ;;
      match r with
      | inr u => ret u
      | inl _ =>
          let name := buildUsernameFromDiscordProfile p in
          taken <- isUsernameTaken name ;;
          registerUserSocial (if (taken : bool) then random_nickname else name) (p_id p)
      end
  end.

(** ** The routes *)

(** [safeCompareApiKey] of [admin.ts]. *)
Definition safeCompareApiKey (input : option string) : bool :=
  truthy conf_api_key && truthy input && bool_decide (input = conf_api_key).

Definition word2 (header : string) : option string := split_on " "%char header !! 1%nat.

(** The token of a request: of the header when it is there, else of the cookie. *)
Definition request_token (authorization cookie : option string) : option AuthToken :=
  match authorization with
  | Some a => if String.prefix "Bearer"%string a then word2 a else cookie
  | None => cookie
  end.

(** [None] when the request was answered here. *)
Definition authTokenMiddleware (apikey authorization cookie : option string) (addr : string)
    : AM (option Req) :=
  if truthy apikey then
    if safeCompareApiKey apikey then ret (Some (MkReq addr None None None))
    else respond 400 (Failed "OttException") ;;; ret None
  else
    let t := request_token authorization cookie in
    match t with
    | Some tok =>
        if negb (truthy t) then respond 400 (Failed "MissingToken") ;;; ret None
        else
          r <- try_get (getSessionInfo tok) ;;
          match r with
          | inl _ => respond 401 (Failed "MissingToken") ;;; ret None
          | inr (SessionUser uid) =>
              o <- try_get (getUser (ById uid)) ;;
              match o with
              | inr u => ret (Some (MkReq addr t (Some (SessionUser uid)) (Some u)))
              | inl _ =>
                  setSessionInfo tok (SessionGuest random_nickname) ;;;
                  ret (Some (MkReq addr t (Some (SessionUser uid)) None))
              end
          | inr g => ret (Some (MkReq addr t (Some g) None))
          end
    | None => respond 400 (Failed "MissingToken") ;;; ret None
    end.

(** A new token with that session takes the place of the old one; [entered] is done between. *)
Definition rotate (session : SessionInfo) (entered : AM unit) (old : option AuthToken) : AM AuthToken :=
  let t := mint in
  setSessionInfo t session ;;;
  entered ;;;
  match old with Some o => revoke o | None => ret tt end ;;;
  headers ;;;
  ret t.

Definition grant (addr : string) (authorization : option string) : AM unit :=
  go <- consumeRateLimitPoints addr 20 ;;
  if negb (go : bool) then ret tt
  else
    s <- get ;;
    let given := match authorization with
                 | Some a => if String.prefix "Bearer"%string a then Some (default "undefined"%string (word2 a)) else None
                 | None => None
                 end in
    match given with
    | Some t => if validate t s then respond 200 (SessionToken t)
                else setSessionInfo mint (SessionGuest random_nickname) ;;; respond 200 (SessionToken mint)
    | None => setSessionInfo mint (SessionGuest random_nickname) ;;; respond 200 (SessionToken mint)
    end.

(** The target after a social login: same-site paths only. *)
Definition safe_redirect (requested : option string) : string :=
  let redirect := default "/"%string requested in
  if negb (String.prefix "/" redirect) || String.prefix "//" redirect || str_contains "\"%char redirect
  then "/"%string else redirect.

(** The route stands before the middleware that finds the user of a token. *)
Definition discordCallback (p : Profile) (cookie requested : option string) : AM unit :=
  u <- authCallbackDiscord None p ;;
  if negb (truthy cookie) then respond 400 (Failed "no token found on request")
  else
    t <- rotate (SessionUser (user_id u)) (ret tt) cookie ;;
    respond 302 (Redirect (safe_redirect requested)).

Definition whoami q : AM unit :=
  match user q, ottsession q with
  | Some u, _ => respond 200 (UserName (user_username u) true (truthy (user_discordId u)))
  | None, Some (SessionGuest n) => respond 200 (UserName n false false)
  | None, None => respond 200 (UserName "" false false)
  | None, Some (SessionUser _) => ret tt
  end.

Definition rename u (n : string) : User :=
  MkUser (user_id u) n (user_email u) (user_salt u) (user_hash u) (user_discordId u).

Definition changeUsername q (name : option string) : AM unit :=
  match name with
  | None => respond 400 (Failed "Missing argument (username)")
  | Some n =>
      if bool_decide (n = ""%string) then respond 400 (Failed "Missing argument (username)")
      else if (USERNAME_LENGTH_MAX <? String.length n)%nat then respond 400 (Failed "LengthOutOfRangeException")
      else
        match user q, ottsession q with
        | Some u, _ =>
            r <- try_get (taken <- isUsernameTaken n ;;
                          when taken (throw UsernameTaken) ;;;
                          save u (rename u n)) ;;
            match r with
            | inl (UniqueConstraint _ | UsernameTaken) => respond 400 (Failed "UsernameTaken")
            | inl _ => respond 500 (Failed "An unknown error occurred.")
            | inr _ => respond 200 Success ;;; onUserModified (token q)
            end
        | None, None => respond 200 (Failed "ottsession missing")
        | None, Some _ =>
            match token q with
            | Some t => setSessionInfo t (SessionGuest n)
            | None => ret tt
            end ;;;
            respond 200 Success ;;; onUserModified (token q)
        end
  end.

(** *** Logging in and out *)

Definition maxWrongAttemptsByIPperDay : Z := if bool_decide (conf_env = Test) then 9999999999 else 100.
Definition maxConsecutiveFailsByUsernameAndIP : Z := if bool_decide (conf_env = Test) then 9999999999 else 10.

(** [Math.round(ms / 1000) || 1] *)
Definition retry_seconds (ms : Z) : Z := let r := (ms + 500) / 1000 in if r =? 0 then 1 else r.

Definition retry_of (max : Z) (i : option LimiterInfo) : Z :=
  match i with Some i => if max <? consumedPoints i then retry_seconds (msBeforeNext i) else 0 | None => 0 end.

(** How long the two counters of failed logins block this attempt. *)
Definition login_retry (key addr : string) s : Z :=
  let slow := limiter_get acc_now SlowBruteByIP addr (limits s) in
  let cons := limiter_get acc_now ConsecutiveFails key (limits s) in
  match slow with
  | Some i => if maxWrongAttemptsByIPperDay <? consumedPoints i then retry_seconds (msBeforeNext i)
              else retry_of maxConsecutiveFailsByUsernameAndIP cons
  | None => retry_of maxConsecutiveFailsByUsernameAndIP cons
  end.

Definition recordFailedLogin (key addr : string) : AM unit :=
  when conf_rate_limit
    (modify (fun s => s <| limits ::= fun l =>
       (limiter_consume acc_now SlowBruteByIP addr 1 (limiter_consume acc_now ConsecutiveFails key 1 l).2).2 |>)).

Definition clearUsernameFailurePoints (key : string) : AM unit :=
  when conf_rate_limit (modify (fun s => s <| limits ::= limiter_delete ConsecutiveFails key |>)).

Definition login_key (name : option string) (addr : string) : string :=
  (default "undefined" name ++ "_" ++ addr)%string.

(** What [passport-local] asks of the request: no attempt without both fields. *)
Definition local_strategy (name password : option string) : AM AuthResult :=
  match name, password with
  | Some n, Some p => if bool_decide (n = ""%string) || bool_decide (p = ""%string) then ret AuthNobody
                      else authCallback n p
  | _, _ => ret AuthNobody
  end.

(** [name] is [body.user ?? body.email ?? body.username]. *)
Definition login q (name password : option string) : AM unit :=
  let key := login_key name (ip q) in
  s <- get ;;
  if conf_rate_limit && (0 <? login_retry key (ip q) s) then respond 429 (Failed "TooManyRequests")
  else
    r <- local_strategy name password ;;
    match r with
    | AuthError m => recordFailedLogin key (ip q) ;;; respond 401 (Failed m)
    | AuthNobody =>
        recordFailedLogin key (ip q) ;;;
        respond 401 (Failed "Either the user or password was not provided.")
    | AuthUser u =>
        clearUsernameFailurePoints key ;;;
        if negb session_ok then respond 500 (Failed "An unknown error occurred when logging in.")
        else
          t <- rotate (SessionUser (user_id u)) (onUserLogIn u mint) (token q) ;;
          respond 200 (Entered (user_email u) (user_username u) t)
    end.

Definition logout q : AM unit :=
  match user q with
  | Some u =>
      when session_ok
        (match token q with
         | Some t => setSessionInfo t (SessionGuest random_nickname)
         | None => ret tt
         end ;;;
         onUserLogOut u (token q) ;;;
         respond 200 Success)
  | None => respond 400 (Failed "Not logged in.")
  end.

Definition register_failed (e : error) : AM unit :=
  match e with
  | UniqueConstraint _ | UsernameTaken | EmailAlreadyInUse => respond 400 (Failed "AlreadyInUse")
  | FeatureDisabled => respond 403 (Failed "FeatureDisabledException")
  | ValidationFailed | BadPassword | LengthOutOfRange => respond 400 (Failed "ValidationError")
  | _ => respond 500 (Failed "Unknown")
  end.

Definition register q (email name password : option string) : AM unit :=
  go <- consumeRateLimitPoints (ip q) 100 ;;
  if negb (go : bool) then ret tt
  else
    r <- try_get (registerUser email name password) ;;
    match r with
    | inl e => register_failed e
    | inr u =>
        t <- rotate (SessionUser (user_id u)) (onUserLogIn u mint) (token q) ;;
        respond 201 (Entered (user_email u) (user_username u) t)
    end.

(** *** Recovering an account *)

Definition error_name (e : error) : string :=
  match e with
  | BadPassword => "BadPasswordError" | FeatureDisabled => "FeatureDisabledException"
  | LengthOutOfRange => "LengthOutOfRangeException" | InvalidVerifyKey => "InvalidVerifyKey"
  | NoEmail => "NoEmail" | UserNotFound => "UserNotFound" | UsernameTaken => "UsernameTakenError"
  | EmailAlreadyInUse => "EmailAlreadyInUseError" | ZodError => "ZodValidationError"
  | UniqueConstraint _ => "SequelizeUniqueConstraintError" | ValidationFailed => "SequelizeValidationError"
  | MailFailed => "MailerError" | HeadersSent | OtherError => "Error"
  end.

(** [errorHandler]: what the request got wrong, and everything else. *)
Definition error_response (e : error) : AM unit :=
  match e with
  | UniqueConstraint _ | ValidationFailed | MailFailed | HeadersSent | OtherError => respond 500 (Failed "Unknown")
  | _ => respond 400 (Failed (error_name e))
  end.

Definition valid_email_field (e : string) : bool := schema_isEmail e && (3 <=? String.length e)%nat.

(** The request schema: the account by its email or by its name. *)
Definition recovery_query (email name : option string) : error + string :=
  match email, name with
  | Some e, n => if valid_email_field e then inr e else match n with Some n => inr n | None => inl ZodError end
  | None, Some n => inr n
  | None, None => inl ZodError
  end.

Definition RECOVERY_TTL_MS : Z := 1000 * (60 * 10).

Definition sendPasswordResetEmail (email : string) : AM unit :=
  if negb conf_mail_enabled then throw FeatureDisabled
  else
    modify (fun s => s <| recovery ::= <[random_key := (email, acc_now + RECOVERY_TTL_MS)]> |>) ;;;
    if mail_ok then modify (fun s => s <| mails ::= fun l => l ++ [(email, random_key)] |>)
    else throw MailFailed.

Definition accountRecoveryStart q (email name : option string) : AM unit :=
  n <- lift_res (recovery_query email name) ;;
  consumeRateLimitPoints (ip q) 100 ;;;
  u <- getUser (ByUser n) ;;
  match user_email u with
  | Some e => if bool_decide (e = ""%string) then throw NoEmail else sendPasswordResetEmail e
  | None => throw NoEmail
  end ;;;
  respond 200 Success.

Definition accountRecoveryVerify q (verifyKey newPassword : string) : AM unit :=
  consumeRateLimitPoints (ip q) 10 ;;;
  if negb (isPasswordValid newPassword) then throw BadPassword
  else
    s <- get ;;
    match live (recovery s) verifyKey with
    | Some accountEmail =>
        if bool_decide (accountEmail = ""%string) then throw InvalidVerifyKey
        else
          o <- findOne (fun u => bool_decide (user_email u = Some accountEmail)) ;;
          match o with
          | None => throw UserNotFound
          | Some u =>
              changeUserPassword u u newPassword false ;;;
              modify (fun s => s <| recovery ::= delete verifyKey |>) ;;;
              t <- match token q with
                   | Some old => t <- rotate (SessionUser (user_id u)) (ret tt) (Some old) ;; ret (Some t)
                   | None => ret None
                   end ;;
              modify (fun s => if conf_rate_limit
                               then s <| limits ::= limiter_reward ApiLimiter (ip q) 100 |> else s) ;;;
              respond 200 (Recovered t)
          end
    | None => throw InvalidVerifyKey
    end.

Definition recover_start q (email name : option string) : AM unit :=
  attempt (accountRecoveryStart q email name) error_response.
Definition recover_verify q (verifyKey newPassword : string) : AM unit :=
  attempt (accountRecoveryVerify q verifyKey newPassword) error_response.

(** *** The account page *)

Definition unauthorized : AM unit := respond 401 (Failed "Unauthorized").

Definition getAccount q : AM unit :=
  match user q with
  | None => unauthorized
  | Some u =>
      go <- consumeRateLimitPoints (ip q) 1 ;;
      when go (respond 200 (AccountInfo (user_username u) (user_email u) (truthy (user_discordId u))
                             (present (user_hash u) && present (user_salt u))))
  end.

Definition with_email u (e : option string) : User :=
  MkUser (user_id u) (user_username u) e (user_salt u) (user_hash u) (user_discordId u).

Definition patchAccount q (email currentPassword newPassword : option string) : AM unit :=
  match user q with
  | None => unauthorized
  | Some u0 =>
      go <- consumeRateLimitPoints (ip q) 10 ;;
      if negb (go : bool) then ret tt
      else if negb (present email || present newPassword)
              || negb (match email with Some e => valid_email_field e | None => true end)
      then respond 400 (Failed "ValidationError")
      else
        clash <- (match email with
                  | Some e => if bool_decide (user_email u0 <> Some e) then isEmailTaken e else ret false
                  | None => ret false
                  end) ;;
        if clash : bool then respond 400 (Failed "AlreadyInUse")
        else
          let u := match email with Some e => with_email u0 (Some e) | None => u0 end in
          match newPassword with
          | None => (match email with Some _ => save u0 u | None => ret tt end) ;;; respond 200 Success
          | Some new =>
              let change (v : User) :=
                r <- try_get (changeUserPassword u0 v new true) ;;
                match r with
                | inl e => respond 400 (Failed (error_name e))
                | inr _ => respond 200 Success
                end in
              if present (user_hash u) || present (user_salt u) then
                if negb (truthy currentPassword) then respond 400 (Failed "CurrentPasswordRequired")
                else
                  r <- verifyUserPassword u0 u (default "" currentPassword)%string ;;
                  if (r.1 : bool) then change r.2 else respond 400 (Failed "InvalidPassword")
              else change u
          end
  end.

Definition deleteDiscordLink q : AM unit :=
  match user q with
  | None => unauthorized
  | Some u =>
      go <- consumeRateLimitPoints (ip q) 10 ;;
      if negb (go : bool) then ret tt
      else if negb (truthy (user_discordId u)) then respond 400 (Failed "DiscordNotLinked")
      else if negb (present (user_hash u) && present (user_salt u)) then respond 400 (Failed "PasswordRequired")
      else save u (with_discord u None) ;;; respond 200 Success
  end.

Definition getOwnedRooms q : AM unit :=
  match user q with
  | None => unauthorized
  | Some u =>
      go <- consumeRateLimitPoints (ip q) 5 ;;
      s <- get ;;
      when go (respond 200 (OwnedRooms (List.filter (fun r => bool_decide (r.2 = Some (user_id u))) (roomOwners s)).*1))
  end.

(** ** A request, from its headers to what it leaves *)

Inductive Call :=
| Grant | DiscordCallback (p : Profile) (requested : option string)
| WhoAmI | ChangeUsername (name : option string) | Login (name password : option string) | Logout
| Register (email name password : option string)
| RecoverStart (email name : option string) | RecoverVerify (verifyKey newPassword : string)
| GetAccount | PatchAccount (email currentPassword newPassword : option string)
| DeleteDiscordLink | GetOwnedRooms.

Record Headers := MkHeaders { apikey : option string; authorization : option string; cookie : option string; addr : string }.

Definition route q (c : Call) : AM unit :=
  match c with
  | Grant | DiscordCallback _ _ => ret tt
  | WhoAmI => whoami q
  | ChangeUsername n => changeUsername q n
  | Login n p => login q n p
  | Logout => logout q
  | Register e n p => register q e n p
  | RecoverStart e n => recover_start q e n
  | RecoverVerify k p => recover_verify q k p
  | GetAccount => getAccount q
  | PatchAccount e c n => patchAccount q e c n
  | DeleteDiscordLink => deleteDiscordLink q
  | GetOwnedRooms => getOwnedRooms q
  end.

Definition serve (h : Headers) (c : Call) : AM unit :=
  modify (fun s => s <| sent := [] |>) ;;;
  match c with
  | Grant => grant (addr h) (authorization h)
  | DiscordCallback p r => discordCallback p (cookie h) r
  | _ =>
      o <- authTokenMiddleware (apikey h) (authorization h) (cookie h) (addr h) ;;
      match o with Some q => route q c | None => ret tt end
  end.

(** Everything that happens to the module: requests, and a room that looks a user up. *)
Inductive Step := Request (h : Headers) (c : Call) | LookUp (id : Z).

Definition perform (st : Step) s : State :=
  match st with
  | Request h c => (serve h c s).2
  | LookUp id => (getUserCachedById id s).2
  end.
End Code.
End State.

End Accounts.
