(* ===== verification/AccountsTheorems.v ===== *)
(** * AccountsTheorems: who gets into an account, and what a session is worth *)

From Stdlib Require Import Ascii.
From S2P Require Import Prelude Types Subtitles RoomModel RoomPlayback Accounts.
Import Accounts.

(** ** Sessions *)

Section Sessions.
Context `{L : Limiter} `{P : Platform} `{E : AccountEnv}.
Implicit Types (s : State) (q : Req) (u : User).

(** What a request shows for the account [uid]: the password of the account; that it has just
    made it; its Discord account; or a key that was mailed to the address of the account. *)
Definition proves_identity (c : Call) s (uid : Z) : Prop :=
  match c with
  | Login (Some n) (Some p) => exists u h salt,
      sql_findOne (matches (ByUser n)) (table s) = Some u /\ user_id u = uid /\
      user_hash u = Some h /\ user_salt u = Some salt /\ argon_verify (trim_nulls h) (salt ++ p)%string = Some true
  | Register _ _ _ => uid = nextId s
  | DiscordCallback p _ =>
      (exists u, sql_findOne (matches (ByDiscord (p_id p))) (table s) = Some u /\ user_id u = uid) \/ uid = nextId s
  | RecoverVerify k _ => exists e u,
      live (recovery s) k = Some e /\
      sql_findOne (fun u => bool_decide (user_email u = Some e)) (table s) = Some u /\ user_id u = uid
  | _ => False
  end.

(** The logged in sessions of [s] are those of [m], and the one of the new token. *)
Definition earned (m : gmap AuthToken (SessionInfo * Z)) (auth : Z -> Prop) s : Prop :=
  forall t uid until, sessions s !! t = Some (SessionUser uid, until) ->
    m !! t = Some (SessionUser uid, until) \/ (t = random_token /\ auth uid).

Section Earned.
Variables (m : gmap AuthToken (SessionInfo * Z)) (auth : Z -> Prop).

Lemma earned_guest t n : keeps (earned m auth) (setSessionInfo t (SessionGuest n)).
Proof.
  apply keeps_modify. intros s Hs t' uid until. cbn [sessions over].
  rewrite lookup_insert_Some. intros [[_ [=]]|[_ H]]. by apply Hs.
Qed.

Lemma earned_user uid : auth uid -> keeps (earned m auth) (setSessionInfo mint (SessionUser uid)).
Proof.
  intros Ha. apply keeps_modify. intros s Hs t' uid' until. cbn [sessions over].
  rewrite lookup_insert_Some. intros [[<- [= <- <-]]|[_ H]]; [by right|by apply Hs].
Qed.

Lemma earned_revoke t : keeps (earned m auth) (revoke t).
Proof.
  apply keeps_modify. intros s Hs t' uid until. cbn [sessions over].
  rewrite lookup_delete_Some. intros [_ H]. by apply Hs.
Qed.

Lemma keeps_attempt {A} (I : State -> Prop) (m' : AM A) h :
  keeps I m' -> (forall e, keeps I (h e)) -> keeps I (attempt m' h).
Proof.
  intros Hm Hh s Hs. specialize (Hm s Hs). unfold attempt. destruct (m' s) as [[e|a] s']; [by apply Hh|done].
Qed.
End Earned.
End Sessions.

(** Go through a handler that gives no session away. *)
Ltac acc_unfold :=
  unfold headers, getSessionInfo, findOne, getUser, isUsernameTaken, isEmailTaken, emit, onUserModified,
    onUserLogIn, onUserLogOut, verifyUserPassword, changeUserPassword, authCallback, registerUser,
    registerUserSocial, connectSocial, consumeRateLimitPoints, handleRateLimit, try_get, local_strategy,
    recordFailedLogin, clearUsernameFailurePoints, respond, register_failed, error_response,
    sendPasswordResetEmail, unauthorized, authCallbackDiscord.
Ltac acc_step :=
  match goal with
  | |- keeps _ (attempt _ _) => apply keeps_attempt; [|intros ?]
  | |- keeps _ (setSessionInfo _ (SessionGuest _)) => apply earned_guest
  | |- keeps _ (revoke _) => apply earned_revoke
  | |- keeps _ (modify _) => apply keeps_modify; intros ? Hkept; first [exact Hkept | by case_match | by right]
  | |- _ => keeps_step
  end.
Ltac acc_tac := repeat first [acc_step | progress acc_unfold | progress unfold save, create].

Section Requests.
Context `{L : Limiter} `{P : Platform} `{E : AccountEnv}.
Implicit Types (s : State) (q : Req) (u : User).
Variables (m : gmap AuthToken (SessionInfo * Z)) (auth : Z -> Prop).
Notation I := (earned m auth).

Lemma earned_rotate uid entered old : auth uid -> keeps I entered -> keeps I (rotate (SessionUser uid) entered old).
Proof. intros Ha He. unfold rotate. cbv zeta. apply keeps_bind; [by apply earned_user|intros _]. acc_tac. Qed.

Lemma earned_respond st b : keeps I (respond st b).
Proof. acc_tac. Qed.
Lemma earned_consume key n : keeps I (consumeRateLimitPoints key n).
Proof. acc_tac. Qed.
Lemma earned_auth n p : keeps I (local_strategy n p).
Proof. acc_tac. Qed.
Lemma earned_register e n p : keeps I (registerUser e n p).
Proof. acc_tac. Qed.
Lemma earned_discord p : keeps I (authCallbackDiscord None p).
Proof. acc_tac. Qed.

(** A request that gives no session away. *)
Lemma earned_quiet q c :
  match c with Login _ _ | Register _ _ _ | RecoverVerify _ _ => False | _ => True end -> keeps I (route q c).
Proof.
  destruct c; try done; intros _; unfold route.
  - apply keeps_ret.
  - apply keeps_ret.
  - unfold whoami. acc_tac.
  - unfold changeUsername. acc_tac.
  - unfold logout. acc_tac.
  - unfold recover_start, accountRecoveryStart. acc_tac.
  - unfold getAccount. acc_tac.
  - unfold patchAccount. cbv zeta. acc_tac.
  - unfold deleteDiscordLink. acc_tac.
  - unfold getOwnedRooms. acc_tac.
Qed.

Lemma earned_middleware a b c d : keeps I (authTokenMiddleware a b c d).
Proof. unfold authTokenMiddleware. cbv zeta. acc_tac. Qed.
End Requests.

Section Results.
Context `{L : Limiter} `{P : Platform} `{E : AccountEnv}.
Implicit Types (s : State) (q : Req) (u : User).

Lemma getUser_run w s :
  getUser w s = (if valid_query w
                 then match sql_findOne (matches w) (table s) with Some u => inr u | None => inl UserNotFound end
                 else inl OtherError, s).
Proof.
  unfold getUser, findOne. destruct (valid_query w); [|done]. cbv [negb bind ret get]. by destruct (sql_findOne _ _).
Qed.

(** A login that finds a user has seen the password. *)
Lemma authCallback_user n p s u s' : authCallback n p s = (inr (AuthUser u), s') ->
  exists row h salt, sql_findOne (matches (ByUser n)) (table s) = Some row /\ user_id row = user_id u /\
    user_hash row = Some h /\ user_salt row = Some salt /\ argon_verify (trim_nulls h) (salt ++ p)%string = Some true.
Proof.
  unfold authCallback, attempt at 1. destruct (bind _ _ s) as [[e|a] s1] eqn:Hb; [by destruct e; intros Hx; discriminate Hx|intros [= -> ->]].
  revert Hb. unfold bind at 1. rewrite getUser_run. destruct (valid_query _); [|done].
  destruct (sql_findOne _ _) as [row|]; [|done]. intros Hb. exists row. revert Hb.
  destruct (user_hash row) as [h|] eqn:Hh; [|intros Hx; discriminate Hx].
  destruct (user_salt row) as [salt|] eqn:Hs; [|intros Hx; discriminate Hx].
  intros Hb. exists h, salt. revert Hb. unfold attempt, verifyUserPassword. rewrite Hh, Hs. unfold bind at 1.
  destruct (argon_verify _ _) as [[]|]; cbn [throw ret]; [|by destruct (is_argon _)|intros Hx; discriminate Hx].
  destruct (argon_needsRehash _).
  - unfold bind. destruct (save row _ s) as [[e|[]] s2]; [done|]. intros [= <- <-]. by split_and!.
  - intros [= <- <-]. by split_and!.
Qed.

Lemma create_result e n a h d s u s' : create e n a h d s = (inr u, s') -> user_id u = nextId s.
Proof.
  unfold create. rewrite bind_get. cbv zeta. destruct (_ && _ && _); [|done].
  destruct (refused _ _); [|done]. rewrite bind_modify. by intros [= <- <-].
Qed.

(** A computation that only looks does not change what comes after it. *)
Lemma isTaken_pure p s : findOne p s = (inr (sql_findOne p (table s)), s).
Proof. done. Qed.

Lemma registerUser_result e n p s u s' : registerUser e n p s = (inr u, s') -> user_id u = nextId s.
Proof.
  unfold registerUser, isUsernameTaken, isEmailTaken. destruct conf_enable_registration; [|done]. cbn [negb].
  destruct (isPasswordValid _); [|done]. cbn [negb]. destruct n as [n|]; [|done]. destruct (_ <? _)%nat; [done|].
  cbv zeta. rewrite !bind_assoc. rewrite (bind_run _ _ _ _ _ (isTaken_pure _ _)). unfold bind at 1. cbn [ret].
  destruct (present _); [done|]. unfold bind at 1. cbn [when ret].
  destruct (if bool_decide _ then _ else e) as [e'|].
  - rewrite !bind_assoc. rewrite (bind_run _ _ _ _ _ (isTaken_pure _ _)). unfold bind at 1. cbn [ret].
    unfold bind at 1. destruct (present _); [done|]. cbn [when ret]. apply create_result.
  - unfold bind at 1. cbn [ret]. apply create_result.
Qed.

Lemma discord_result p s u s' : authCallbackDiscord None p s = (inr u, s') ->
  (exists u', sql_findOne (matches (ByDiscord (p_id p))) (table s) = Some u' /\ user_id u' = user_id u) \/ user_id u = nextId s.
Proof.
  unfold authCallbackDiscord, try_get. unfold bind at 1, attempt. unfold bind at 1. rewrite getUser_run.
  destruct (if valid_query _ then _ else _) as [e|u'] eqn:Hr; cbn.
  2: { intros [= <- <-]. left. destruct (valid_query _); [|done].
       destruct (sql_findOne _ _) as [u1|]; [|done]. injection Hr as <-. eauto. }
  - unfold registerUserSocial. destruct conf_enable_registration; [|done]. cbn [negb]. intros H. right. by eapply create_result.
Qed.
End Results.

Section Provenance.
Context `{L : Limiter} `{P : Platform} `{E : AccountEnv}.
Implicit Types (s : State) (q : Req) (u : User).

(** One step whose result is known, then the rest. *)
Lemma bind_keeps {A B} (I : State -> Prop) (m : AM A) (k : A -> AM B) s :
  keeps I m -> I s -> (forall a s', m s = (inr a, s') -> I s' -> I (k a s').2) -> I (bind m k s).2.
Proof.
  intros Hm Hs Hk. specialize (Hm s Hs). unfold bind. destruct (m s) as [[e|a] s'] eqn:Hr; [done|]. by apply Hk.
Qed.

(** What a request starts from, and what the rest of it may look at. *)
Definition same_tables s0 s : Prop :=
  table s = table s0 /\ nextId s = nextId s0 /\ recovery s = recovery s0.

Lemma consume_tables s0 key n : keeps (same_tables s0) (consumeRateLimitPoints key n).
Proof. acc_tac. Qed.

Lemma middleware_tables s0 a b c d : keeps (same_tables s0) (authTokenMiddleware a b c d).
Proof. unfold authTokenMiddleware, setSessionInfo. cbv zeta. acc_tac. Qed.

Lemma keeps_use {A} (I : State -> Prop) (m : AM A) s : keeps I m -> I s -> I (m s).2.
Proof. auto. Qed.

Lemma earned_login m q n p s0 s : same_tables s0 s ->
  earned m (proves_identity (Login n p) s0) s -> earned m (proves_identity (Login n p) s0) (login q n p s).2.
Proof.
  intros (Ht & _ & _) Hs. unfold login. cbv zeta. rewrite bind_get. destruct (_ && _); [by apply earned_respond|].
  apply bind_keeps; [apply earned_auth|done|]. intros r s1 Hr Hs1.
  destruct r as [msg|u|]; [apply keeps_use; [acc_tac|done]| |apply keeps_use; [acc_tac|done]].
  apply keeps_use; [|done]. apply keeps_bind; [acc_tac|intros _]. destruct (negb session_ok); [acc_tac|].
  apply keeps_bind; [|intros t; acc_tac]. apply earned_rotate; [|acc_tac].
  unfold local_strategy in Hr. destruct n as [n|], p as [p|]; try done. destruct (_ || _); [done|].
  apply authCallback_user in Hr as (row & h & salt & H1 & H2 & H3 & H4 & H5). rewrite Ht in H1. by exists row, h, salt.
Qed.

Lemma earned_registering m q e n p s0 s : same_tables s0 s ->
  earned m (proves_identity (Register e n p) s0) s -> earned m (proves_identity (Register e n p) s0) (register q e n p s).2.
Proof.
  intros Ht Hs. unfold register. apply bind_keeps; [apply earned_consume|done|]. intros go s1 Hr Hs1.
  assert (Ht1 : same_tables s0 s1) by (pose proof (consume_tables s0 (ip q) 100 s Ht) as H; by rewrite Hr in H).
  destruct go; [|exact Hs1]. cbn [negb]. apply bind_keeps; [unfold try_get; acc_tac; apply earned_register|done|].
  intros r s2 Hr2 Hs2. apply keeps_use; [|done]. destruct r as [er|u]; [acc_tac|].
  apply keeps_bind; [|intros t; acc_tac]. apply earned_rotate; [|acc_tac].
  cbn [proves_identity]. destruct Ht1 as (_ & <- & _). revert Hr2. unfold try_get, attempt, bind.
  destruct (registerUser e n p s1) as [[er|u'] s3] eqn:Hreg; [done|]. intros [= <- <-]. by eapply registerUser_result.
Qed.

Lemma earned_verify m q k p s0 s : same_tables s0 s ->
  earned m (proves_identity (RecoverVerify k p) s0) s -> earned m (proves_identity (RecoverVerify k p) s0) (recover_verify q k p s).2.
Proof.
  intros Ht Hs. unfold recover_verify, attempt.
  assert (H : earned m (proves_identity (RecoverVerify k p) s0) (accountRecoveryVerify q k p s).2).
  { unfold accountRecoveryVerify. apply bind_keeps; [apply earned_consume|done|]. intros go s1 Hr Hs1.
    assert (Ht1 : same_tables s0 s1) by (pose proof (consume_tables s0 (ip q) 10 s Ht) as H; by rewrite Hr in H).
    destruct (negb _); [done|]. rewrite bind_get. destruct Ht1 as (Htab & _ & Hrec). rewrite Hrec.
    destruct (live (recovery s0) k) as [e|] eqn:Hk; [|done]. case_bool_decide; [done|].
    rewrite (bind_run _ _ _ _ _ (isTaken_pure _ _)), Htab.
    destruct (sql_findOne _ _) as [u|] eqn:Hu; [|done]. apply keeps_use; [|done].
    apply keeps_bind; [acc_tac|intros _]. apply keeps_bind; [acc_tac|intros _].
    apply keeps_bind; [|intros t; acc_tac]. destruct (token q); [|acc_tac].
    apply keeps_bind; [|intros t; acc_tac]. apply earned_rotate; [|acc_tac]. by exists e, u. }
  destruct (accountRecoveryVerify q k p s) as [[e|a] s1]; [|done]. apply keeps_use; [acc_tac|done].
Qed.

(** C30: A session is a user's only when it was earned.  After any request, a token is logged in
    as a user only if it was before, or if it is the token this request drew and the request
    showed that it may: the password of the account, an account it has just made, the Discord
    account, or a live key mailed to the address of the account.  In particular no token that
    is not logged in (one planted before a login) ever becomes so. *)
Theorem sessions_are_earned (h : Headers) (c : Call) s t uid until :
  sessions (perform (Request h c) s) !! t = Some (SessionUser uid, until) ->
  sessions s !! t = Some (SessionUser uid, until) \/ (t = random_token /\ proves_identity c s uid).
Proof.
  revert t uid until. change (earned (sessions s) (proves_identity c s) (perform (Request h c) s)).
  unfold perform, serve. rewrite bind_modify. set (s0 := s <| sent := [] |>).
  assert (Hs0 : earned (sessions s) (proves_identity c s) s0) by (intros ???; by left).
  assert (Ht0 : same_tables s s0) by done. clearbody s0.
  assert (Hmid : forall k : option Req -> AM unit,
    (forall o s1, same_tables s s1 -> earned (sessions s) (proves_identity c s) s1 ->
       earned (sessions s) (proves_identity c s) (k o s1).2) ->
    earned (sessions s) (proves_identity c s)
      (bind (authTokenMiddleware (apikey h) (authorization h) (cookie h) (addr h)) k s0).2).
  { intros k Hk. apply bind_keeps; [apply earned_middleware|done|]. intros o s1 Ho Hs1. apply Hk; [|done].
    pose proof (middleware_tables s (apikey h) (authorization h) (cookie h) (addr h) s0 Ht0) as H. by rewrite Ho in H. }
  destruct c; try (apply Hmid; intros [q|] s1 Ht1 Hs1; [|done]).
  1: { unfold grant. apply keeps_use; [acc_tac|done]. }
  1: { unfold discordCallback. apply bind_keeps; [apply earned_discord|done|]. intros u s1 Hr Hs1.
       apply keeps_use; [|done]. destruct (negb _); [acc_tac|]. apply keeps_bind; [|intros t; acc_tac].
       apply earned_rotate; [|acc_tac]. apply discord_result in Hr. destruct Ht0 as (Ht & Hn & _). rewrite Ht, Hn in Hr. exact Hr. }
  all: try (by apply earned_quiet).
  - by apply earned_login.
  - by apply earned_registering.
  - by apply earned_verify.
Qed.
End Provenance.

(** ** Recovering an account *)

(** What the code relies on of argon2 and of the database: a hash accepts what it was made from,
    is not made anew at once and ends in no null byte; a query finds a row that matches when
    there is one. *)
Class AccountLaws `{Platform} : Prop := {
  argon_accepts r p : argon_verify (argon_hash r p) p = Some true;
  argon_fresh r p : argon_needsRehash (argon_hash r p) = false;
  argon_trimmed r p : trim_nulls (argon_hash r p) = argon_hash r p;
  findOne_sound p l u : sql_findOne p l = Some u -> p u = true /\ u ∈ l;
  findOne_complete p l u : u ∈ l -> p u = true -> exists v, sql_findOne p l = Some v;
}.

Section Recovery.
Context `{L : Limiter} `{P : Platform} {AL : AccountLaws}.
Implicit Types (s : State) (q : Req) (u : User).

(** The limiter takes the points. *)
Definition lets_through `{E : AccountEnv} (key : string) (points : Z) s : Prop :=
  conf_rate_limit = false \/ exists i, (limiter_consume acc_now ApiLimiter key points (limits s)).1 = Consumed i.

Lemma consume_run `{E : AccountEnv} key n s : sent s = [] -> lets_through key n s ->
  exists l, consumeRateLimitPoints key n s = (inr true, s <| limits := l |>).
Proof.
  intros Hs [Hc|[i Hc]]; unfold consumeRateLimitPoints.
  - rewrite Hc. exists (limits s). by destruct s.
  - destruct conf_rate_limit; cbn [negb]; [|exists (limits s); by destruct s].
    rewrite bind_get. cbv zeta. rewrite bind_modify, Hc. unfold headers. rewrite bind_assoc, bind_get.
    cbn [sent over]. rewrite Hs. by eexists.
Qed.

Lemma respond_run `{E : AccountEnv} st b s : sent s = [] -> respond st b s = (inr tt, s <| sent := [MkResponse st b] |>).
Proof.
  intros Hs. unfold respond, headers. rewrite bind_assoc, bind_get, Hs. destruct s. cbn in Hs. by rewrite Hs.
Qed.

Lemma findOne_only p l u :
  u ∈ l -> p u = true -> (forall v, v ∈ l -> p v = true -> v = u) -> sql_findOne p l = Some u.
Proof.
  intros Hin Hp Honly. destruct (findOne_complete p l u Hin Hp) as [v Hv].
  pose proof (findOne_sound _ _ _ Hv) as [Hpv Hlv]. by rewrite Hv, (Honly v).
Qed.

(** Asking for the recovery of an account leaves a key with the address, in the mail only. *)
Lemma recover_start_run `{E : AccountEnv} q n s u e :
  sent s = [] -> lets_through (ip q) 100 s -> valid_query (ByUser n) = true ->
  sql_findOne (matches (ByUser n)) (table s) = Some u -> user_email u = Some e -> e <> ""%string ->
  conf_mail_enabled = true -> mail_ok = true ->
  exists l, recover_start q None (Some n) s =
    (inr tt, s <| limits := l |> <| recovery ::= <[random_key := (e, acc_now + RECOVERY_TTL_MS)]> |>
               <| mails ::= fun l => l ++ [(e, random_key)] |> <| sent := [MkResponse 200 Success] |>).
Proof.
  intros Hs Hl Hq Hu He Hne Hm Hok. destruct (consume_run _ _ _ Hs Hl) as [l Hc]. exists l.
  unfold recover_start, attempt, accountRecoveryStart. unfold bind at 1. cbn [lift_res recovery_query].
  rewrite (bind_run _ _ _ _ _ Hc). unfold bind at 1. rewrite getUser_run, Hq. cbn [table over]. rewrite Hu, He.
  rewrite bool_decide_eq_false_2 by done. unfold sendPasswordResetEmail. rewrite Hm, Hok. cbn [negb].
  rewrite bind_assoc, !bind_modify. by rewrite respond_run.
Qed.

(** The account with a new password. *)
Definition with_password `{E : AccountEnv} u (p : string) : User :=
  MkUser (user_id u) (user_username u) (user_email u) (Some random_salt)
    (Some (argon_hash random_nonce (random_salt ++ p)%string)) (user_discordId u).

Definition put u (l : list User) : list User := map (fun v => if user_id v =? user_id u then u else v) l.

Lemma changePassword_run `{E : AccountEnv} u p s :
  user_username u <> ""%string -> conflicts u (others u (table s)) = [] ->
  changeUserPassword u u p false s = (inr (with_password u p), s <| table ::= put (with_password u p) |>).
Proof.
  intros Hn Hc. unfold changeUserPassword. cbn [andb]. cbv zeta. unfold save, bind, get.
  rewrite !bool_decide_eq_true_2 by done. cbn [orb andb].
  replace (ensureCredentials _) with true.
  2: { unfold ensureCredentials. cbn. by rewrite bool_decide_eq_false_2. }
  cbn [user_id]. change (refused _ _) with (refused u (others u (table s))). unfold refused. rewrite Hc. by destruct db_unique.
Qed.

Lemma rotate_run `{E : AccountEnv} uid old s : sent s = [] ->
  rotate (SessionUser uid) (ret tt) (Some old) s =
    (inr random_token, s <| sessions ::= fun m =>
       delete old (<[random_token := (SessionUser uid, acc_now + 1000 * EXPIRATION_TIME_LOGGED_IN)]> m) |>).
Proof.
  intros Hs. unfold rotate, setSessionInfo, revoke, headers, bind, modify, get, ret. cbv zeta. cbn [sent over].
  by rewrite Hs.
Qed.

(** The key sets the password of the account it was mailed to, is used up by that, and the
    request's token gives way to a new one. *)
Lemma recover_verify_run `{E : AccountEnv} q old k p s u e until :
  sent s = [] -> lets_through (ip q) 10 s -> token q = Some old -> isPasswordValid p = true ->
  recovery s !! k = Some (e, until) -> acc_now < until -> e <> ""%string ->
  u ∈ table s -> user_email u = Some e -> user_username u <> ""%string ->
  (forall v, v ∈ table s -> user_email v = Some e -> v = u) ->
  conflicts u (others u (table s)) = [] ->
  exists s', recover_verify q k p s = (inr tt, s') /\
    sent s' = [MkResponse 200 (Recovered (Some random_token))] /\ recovery s' = delete k (recovery s) /\
    table s' = put (with_password u p) (table s) /\
    sessions s' = delete old (<[random_token := (SessionUser (user_id u), acc_now + 1000 * EXPIRATION_TIME_LOGGED_IN)]> (sessions s)).
Proof.
  intros Hs Hl Hq Hp Hk Hlive Hne Hin He Hname Honly Hconf. destruct (consume_run _ _ _ Hs Hl) as [l Hc].
  unfold recover_verify, attempt, accountRecoveryVerify. rewrite (bind_run _ _ _ _ _ Hc), Hp. cbn [negb].
  assert (Hsame : exists s1, s1 = s <| limits := l |> /\ sent s1 = [] /\ recovery s1 = recovery s /\
    table s1 = table s /\ sessions s1 = sessions s) by by eexists.
  destruct Hsame as (s1 & Heq & Hs1 & Hr & Ht & Hss). rewrite <- Heq, <- Hr, <- Ht, <- Hss.
  rewrite <- Hr in Hk. rewrite <- Ht in Hin, Honly, Hconf. clear Heq Hc Hs Hl Hr Ht Hss s.
  rewrite bind_get. unfold live. rewrite Hk. rewrite (proj2 (Z.ltb_lt _ _) Hlive).
  rewrite bool_decide_eq_false_2 by done. rewrite (bind_run _ _ _ _ _ (isTaken_pure _ _)).
  rewrite (findOne_only _ (table s1) u Hin) by
    (try (intros v Hv Hb; apply Honly; [done|]; by apply bool_decide_eq_true in Hb); by apply bool_decide_eq_true_2).
  rewrite (bind_run _ _ _ _ _ (changePassword_run u p s1 Hname Hconf)). rewrite bind_modify, Hq.
  rewrite bind_assoc. match goal with |- context [bind (rotate _ _ _) _ ?st] =>
    rewrite (bind_run _ _ _ _ _ (rotate_run (user_id u) old st Hs1)) end.
  unfold bind at 1. cbn [ret].
  rewrite bind_modify. destruct conf_rate_limit; rewrite respond_run by done; eexists; by split_and!.
Qed.
(** A password opens the account whose hash was made from it. *)
Lemma login_run `{E : AccountEnv} q n p s u r salt :
  sent s = [] -> (conf_rate_limit = true -> login_retry (login_key (Some n) (ip q)) (ip q) s = 0) ->
  n <> ""%string -> p <> ""%string -> session_ok = true ->
  sql_findOne (matches (ByUser n)) (table s) = Some u ->
  user_hash u = Some (argon_hash r (salt ++ p)%string) -> user_salt u = Some salt ->
  let s' := (login q (Some n) (Some p) s).2 in
  sent s' = [MkResponse 200 (Entered (user_email u) (user_username u) random_token)] /\
  (token q <> Some random_token -> live (sessions s') random_token = Some (SessionUser (user_id u))).
Proof.
  intros Hs Hl Hn Hp Hok Hu Hh Hsalt. cbv zeta. unfold login. cbv zeta. rewrite bind_get.
  replace (conf_rate_limit && _) with false.
  2: { destruct conf_rate_limit; [|done]. by rewrite Hl. }
  assert (Ha : local_strategy (Some n) (Some p) s = (inr (AuthUser u), s)).
  { unfold local_strategy. rewrite !bool_decide_eq_false_2 by done. cbn [orb]. unfold authCallback, attempt at 1.
    unfold bind at 1. rewrite getUser_run. cbn [valid_query]. rewrite bool_decide_eq_false_2 by done. cbn [negb].
    rewrite Hu, Hh, Hsalt. unfold attempt, verifyUserPassword. rewrite Hh, Hsalt.
    rewrite argon_trimmed, argon_accepts, argon_fresh. done. }
  rewrite (bind_run _ _ _ _ _ Ha).
  assert (Hc : exists l, clearUsernameFailurePoints (login_key (Some n) (ip q)) s = (inr tt, s <| limits := l |>)).
  { unfold clearUsernameFailurePoints. destruct conf_rate_limit; cbn [when]; [by eexists|exists (limits s); by destruct s]. }
  destruct Hc as [l Hc]. rewrite (bind_run _ _ _ _ _ Hc), Hok. cbn [negb].
  assert (H1 : exists s1, s1 = s <| limits := l |> /\ sent s1 = []) by by eexists.
  destruct H1 as (s1 & <- & Hs1). clear Hc Hs.
  assert (Hr : exists s2, rotate (SessionUser (user_id u)) (onUserLogIn u mint) (token q) s1 = (inr random_token, s2) /\
    sent s2 = [] /\ (token q <> Some random_token -> live (sessions s2) random_token = Some (SessionUser (user_id u)))).
  { unfold rotate, setSessionInfo, revoke, headers, onUserLogIn, onUserModified, emit, mint. cbv zeta.
    assert (Hlt : acc_now <? acc_now + 1000 * EXPIRATION_TIME_LOGGED_IN = true) by (apply Z.ltb_lt; unfold EXPIRATION_TIME_LOGGED_IN; lia).
    destruct (token q) as [old|]; unfold bind, ret, get, modify; cbn [sent over]; rewrite Hs1; eexists; (split; [done|]);
      (split; [done|]); intros Hne; unfold live; cbn [sessions over].
    - rewrite lookup_delete_ne by congruence. rewrite lookup_insert_eq. by rewrite Hlt.
    - rewrite lookup_insert_eq. by rewrite Hlt. }
  destruct Hr as (s2 & Hr & Hs2 & Hlive). rewrite (bind_run _ _ _ _ _ Hr). by rewrite respond_run.
Qed.

(** A key that is gone does nothing. *)
Lemma recover_verify_spent `{E : AccountEnv} q k p s :
  sent s = [] -> lets_through (ip q) 10 s -> isPasswordValid p = true -> recovery s !! k = None ->
  sent (recover_verify q k p s).2 = [MkResponse 400 (Failed "InvalidVerifyKey")] /\
  table (recover_verify q k p s).2 = table s /\ sessions (recover_verify q k p s).2 = sessions s.
Proof.
  intros Hs Hl Hp Hk. destruct (consume_run _ _ _ Hs Hl) as [l Hc].
  unfold recover_verify, attempt, accountRecoveryVerify. rewrite (bind_run _ _ _ _ _ Hc), Hp. cbn [negb].
  rewrite bind_get. unfold live. cbn [recovery over]. rewrite Hk. cbn [throw error_response].
  by rewrite respond_run.
Qed.

Lemma valid_nonempty p : isPasswordValid p = true -> p <> ""%string.
Proof. intros H ->. unfold isPasswordValid in H. by destruct (bool_decide (conf_env = Development)). Qed.

Lemma put_unique u p (l : list User) `{E : AccountEnv} e :
  u ∈ l -> user_email u = Some e ->
  (forall v, v ∈ l -> matches (ByUser e) v = true -> v = u) ->
  sql_findOne (matches (ByUser e)) (put (with_password u p) l) = Some (with_password u p).
Proof.
  intros Hin He Honly. apply findOne_only.
  - unfold put. apply list_elem_of_fmap. exists u. split; [|done]. cbn [user_id with_password]. by rewrite Z.eqb_refl.
  - cbn [matches user_email with_password]. by rewrite bool_decide_eq_true_2.
  - intros v Hv Hm. unfold put in Hv. apply list_elem_of_fmap in Hv as (w & -> & Hw). cbn [user_id with_password] in *.
    destruct (user_id w =? user_id u) eqn:Hid; [done|]. rewrite (Honly w Hw Hm) in Hid. by rewrite Z.eqb_refl in Hid.
Qed.

(** Recovering an account works, once.  The key that was mailed to the address of an account
    sets a new password when it is used within ten minutes; with that password and the address
    one gets in; and used again the key does nothing.  (The requests must be within their
    limits, the address must be no one else's address or name.) *)
Theorem recovery_roundtrip (E1 E2 E3 : AccountEnv) q1 q2 q3 q4 old n p p' u e s :
  sent s = [] -> u ∈ table s -> user_email u = Some e -> e <> ""%string -> user_username u <> ""%string ->
  conflicts u (others u (table s)) = [] ->
  (forall v, v ∈ table s -> matches (ByUser e) v = true -> v = u) ->
  conf_mail_enabled = true -> @mail_ok E1 = true -> @session_ok E3 = true ->
  n <> ""%string -> sql_findOne (matches (ByUser n)) (table s) = Some u ->
  token q2 = Some old -> isPasswordValid p = true -> isPasswordValid p' = true ->
  @acc_now E2 < @acc_now E1 + RECOVERY_TTL_MS ->
  let s1 := (recover_start (E := E1) q1 None (Some n) s).2 <| sent := [] |> in
  let s2 := (recover_verify (E := E2) q2 (@random_key E1) p s1).2 <| sent := [] |> in
  lets_through (E := E1) (ip q1) 100 s -> lets_through (E := E2) (ip q2) 10 s1 -> lets_through (E := E3) (ip q4) 10 s2 ->
  (conf_rate_limit = true -> login_retry (E := E3) (login_key (Some e) (ip q3)) (ip q3) s2 = 0) ->
  last (mails s1) = Some (e, @random_key E1) /\
  sent (login (E := E3) q3 (Some e) (Some p) s2).2
    = [MkResponse 200 (Entered (Some e) (user_username u) (@random_token E3))] /\
  sent (recover_verify (E := E3) q4 (@random_key E1) p' s2).2 = [MkResponse 400 (Failed "InvalidVerifyKey")].
Proof.
  intros Hs Hin He Hne Hname Hconf Honly Hmail Hok1 Hok3 Hn Hu Hq2 Hp Hp' Htime s1 s2 Hl1 Hl2 Hl4 Hl3.
  assert (Hemail : forall v, v ∈ table s -> user_email v = Some e -> v = u).
  { intros v Hv Hev. apply Honly; [done|]. cbn [matches]. by rewrite (bool_decide_eq_true_2 (user_email v = Some e)). }
  assert (Hq : valid_query (ByUser n) = true) by (cbn; by rewrite bool_decide_eq_false_2).
  destruct (recover_start_run (E := E1) q1 n s u e Hs Hl1 Hq Hu He Hne Hmail Hok1) as [l H1].
  assert (Hs1 : sent s1 = [] /\ table s1 = table s /\
    recovery s1 !! @random_key E1 = Some (e, @acc_now E1 + RECOVERY_TTL_MS) /\ mails s1 = mails s ++ [(e, @random_key E1)]).
  { unfold s1. rewrite H1. split_and!; try done. apply lookup_insert_eq. }
  clearbody s1. destruct Hs1 as (Hs1 & Ht1 & Hr1 & Hm1). split; [by rewrite Hm1, last_snoc|].
  rewrite <- Ht1 in Hin, Hemail, Hconf, Honly.
  destruct (recover_verify_run (E := E2) q2 old _ p s1 u e _ Hs1 Hl2 Hq2 Hp Hr1 Htime Hne Hin He Hname Hemail Hconf)
    as (s' & Hrun & _ & Hrec & Htab & _).
  assert (Hs2 : sent s2 = [] /\ table s2 = put (with_password (E := E2) u p) (table s1) /\ recovery s2 !! @random_key E1 = None).
  { unfold s2. rewrite Hrun. split_and!; [done|done|]. cbn [recovery over snd]. rewrite Hrec. apply lookup_delete_eq. }
  clearbody s2. destruct Hs2 as (Hs2 & Ht2 & Hr2). split.
  - pose proof (put_unique u p (table s1) (E := E2) e Hin He Honly) as Hfind. rewrite <- Ht2 in Hfind.
    pose proof (login_run (E := E3) q3 e p s2 _ _ _ Hs2 Hl3 Hne (valid_nonempty p Hp) Hok3 Hfind eq_refl eq_refl) as [Hlog _].
    cbn [with_password user_email user_username] in Hlog. by rewrite He in Hlog.
  - by apply recover_verify_spent.
Qed.
End Recovery.

(** ** The limit on recoveries

    [consumeRateLimitPoints] answers 429 and returns false; the two recovery handlers do not
    look at what it returns. *)

Section Unlimited.
Context `{L : Limiter} `{P : Platform} `{E : AccountEnv}.

Lemma refused_run key n s i : sent s = [] -> conf_rate_limit = true ->
  (limiter_consume acc_now ApiLimiter key n (limits s)).1 = Refused i ->
  exists l, consumeRateLimitPoints key n s = (inr false, s <| limits := l |> <| sent := [MkResponse 429 (Failed "TooManyRequests")] |>).
Proof.
  intros Hs Hc Hi. unfold consumeRateLimitPoints. rewrite Hc. cbn [negb]. rewrite bind_get. cbv zeta.
  rewrite bind_modify, Hi. unfold handleRateLimit. match goal with |- context [bind (respond _ _) _ ?st] =>
    rewrite (bind_run _ _ _ _ _ (respond_run 429 _ st Hs)) end. by eexists.
Qed.

(** A mail goes out to an address whose owner never asked for it, however many were asked for. *)
Theorem recovery_ignores_the_limit q n s u e i :
  sent s = [] -> conf_rate_limit = true ->
  (limiter_consume acc_now ApiLimiter (ip q) 100 (limits s)).1 = Refused i ->
  valid_query (ByUser n) = true -> sql_findOne (matches (ByUser n)) (table s) = Some u ->
  user_email u = Some e -> e <> ""%string -> conf_mail_enabled = true -> mail_ok = true ->
  let s' := (recover_start q None (Some n) s).2 in
  sent s' = [MkResponse 429 (Failed "TooManyRequests")] /\ mails s' = mails s ++ [(e, random_key)].
Proof.
  intros Hs Hc Hi Hq Hu He Hne Hm Hok. cbv zeta. destruct (refused_run _ _ _ _ Hs Hc Hi) as [l Hr].
  assert (H : exists s', recover_start q None (Some n) s = (inl HeadersSent, s') /\
    sent s' = [MkResponse 429 (Failed "TooManyRequests")] /\ mails s' = mails s ++ [(e, random_key)]);
    [|by destruct H as (s' & -> & H)].
  unfold recover_start, attempt, accountRecoveryStart. unfold bind at 1. cbn [lift_res recovery_query].
  rewrite (bind_run _ _ _ _ _ Hr). unfold bind at 1. rewrite getUser_run, Hq. cbn [table over]. rewrite Hu, He.
  rewrite bool_decide_eq_false_2 by done. unfold sendPasswordResetEmail. rewrite Hm, Hok. cbn [negb].
  rewrite bind_assoc, !bind_modify. eexists. split_and!; reflexivity.
Qed.
End Unlimited.

(** ** The cache of users *)

Section Cache.
Context `{L : Limiter} `{P : Platform}.
Implicit Types (s : State) (u : User).

(** The states a server went through since its cache was empty, latest first, each with the
    call that came then; time does not go back. *)
Inductive history : list (AccountEnv * State) -> State -> Prop :=
| history_start s : userByIdCache s = [] -> history [] s
| history_step h (E : AccountEnv) st s :
    history h s -> (forall E' s', (E', s') ∈ h -> @acc_now E' <= @acc_now E) ->
    history ((E, s) :: h) (perform (E := E) st s).

(** Each entry is what the table had at its instant. *)
Definition seen (h : list (AccountEnv * State)) (e : Z * (User * Z)) : Prop :=
  exists E s, (E, s) ∈ h /\ @acc_now E = e.2.2 /\ sql_findOne (matches (ById e.1)) (table s) = Some e.2.1.

Definition cached_or (c : list (Z * (User * Z))) s : Prop := userByIdCache s = c \/ userByIdCache s = [].

(** A request leaves the cache alone or clears it. *)
Lemma request_cache `{E : AccountEnv} h c s : cached_or (userByIdCache s) (perform (Request h c) s).
Proof.
  apply (keeps_use (cached_or (userByIdCache s)) (serve h c) s); [|by left]. unfold serve.
  apply keeps_bind; [acc_tac|intros _].
  assert (Hmid : forall k : option Req -> AM unit, (forall o, keeps (cached_or (userByIdCache s)) (k o)) ->
    keeps (cached_or (userByIdCache s)) (bind (authTokenMiddleware (apikey h) (authorization h) (cookie h) (addr h)) k)).
  { intros k Hk. apply keeps_bind; [unfold authTokenMiddleware, setSessionInfo; cbv zeta; acc_tac|done]. }
  assert (Hrot : forall uid ent old, keeps (cached_or (userByIdCache s)) ent ->
    keeps (cached_or (userByIdCache s)) (rotate (SessionUser uid) ent old)).
  { intros uid ent old He. unfold rotate, setSessionInfo, revoke. cbv zeta. acc_tac. }
  destruct c; try (apply Hmid; intros [q|]; [|apply keeps_ret]); unfold route.
  1: unfold grant, setSessionInfo; acc_tac.
  1: unfold discordCallback; acc_tac.
  - unfold whoami. acc_tac.
  - unfold changeUsername, setSessionInfo. acc_tac.
  - unfold login. acc_tac. apply Hrot. acc_tac.
  - unfold logout, setSessionInfo. acc_tac.
  - unfold register. acc_tac. apply Hrot. acc_tac.
  - unfold recover_start, accountRecoveryStart. acc_tac.
  - unfold recover_verify, accountRecoveryVerify. acc_tac.
  - unfold getAccount. acc_tac.
  - unfold patchAccount. cbv zeta. acc_tac.
  - unfold deleteDiscordLink. acc_tac.
  - unfold getOwnedRooms. acc_tac.
Qed.

Lemma map_delete_sub (id : Z) (c : list (Z * (User * Z))) e : e ∈ map_delete id c -> e ∈ c.
Proof. unfold map_delete. by intros [_ H]%list_elem_of_filter. Qed.

Lemma map_set_elem (id : Z) (v : User * Z) c e : e ∈ map_set id v c -> e = (id, v) \/ e ∈ c.
Proof.
  induction c as [|[k w] c IH]; simpl; [intros ->%list_elem_of_singleton; by left|].
  case_decide as Hk; [subst|]; intros [->|H]%elem_of_cons; [by left|right; by right|right; by left|].
  destruct (IH H); [by left|right; by right].
Qed.

Lemma prune_sub now c e : e ∈ pruneUserByIdCache now c -> e ∈ c.
Proof.
  unfold pruneUserByIdCache. intros H. rewrite list_elem_of_In.
  apply (List.filter_In (fun e => now - e.2.2 <? USER_CACHE_TTL_MS)). rewrite <- list_elem_of_In.
  set (l := List.filter _ c) in *. clearbody l.
  rewrite <- (take_drop (length l - USER_CACHE_MAX) l), elem_of_app. by right.
Qed.

(** What a lookup gives and what it leaves in the cache. *)
Lemma lookup_run `{E : AccountEnv} id s u s' : getUserCachedById id s = (inr u, s') ->
  (exists at_, (id, (u, at_)) ∈ userByIdCache s /\ acc_now - at_ < USER_CACHE_TTL_MS) \/
  sql_findOne (matches (ById id)) (table s) = Some u.
Proof.
  unfold getUserCachedById. rewrite bind_get. cbv zeta. set (fetch := bind (modify _) _).
  assert (Hf : fetch s = (inr u, s') -> sql_findOne (matches (ById id)) (table s) = Some u).
  { unfold fetch. rewrite bind_modify. unfold bind at 1. rewrite getUser_run. cbn [table over].
    destruct (valid_query _); [|done]. destruct (sql_findOne _ _) as [v|]; [|done].
    rewrite bind_modify. by intros [= -> _]. }
  clearbody fetch. destruct (map_get id (userByIdCache s)) as [[v at_]|] eqn:Hg; [|by right; apply Hf].
  destruct (acc_now - at_ <? USER_CACHE_TTL_MS) eqn:Ht; [|by right; apply Hf].
  intros [= -> <-]. left. exists at_. split; [by apply map_get_In|by apply Z.ltb_lt].
Qed.

Lemma lookup_cache `{E : AccountEnv} id s :
  (length (userByIdCache s) <= USER_CACHE_MAX)%nat ->
  (length (userByIdCache (getUserCachedById id s).2) <= USER_CACHE_MAX)%nat /\
  forall e, e ∈ userByIdCache (getUserCachedById id s).2 ->
    e ∈ userByIdCache s \/ (exists u, e = (id, (u, acc_now)) /\ sql_findOne (matches (ById id)) (table s) = Some u).
Proof.
  intros Hlen. unfold getUserCachedById. rewrite bind_get. cbv zeta. set (fetch := bind (modify _) _).
  assert (Hf : (length (userByIdCache (fetch s).2) <= USER_CACHE_MAX)%nat /\
    forall e, e ∈ userByIdCache (fetch s).2 ->
      e ∈ userByIdCache s \/ (exists u, e = (id, (u, acc_now)) /\ sql_findOne (matches (ById id)) (table s) = Some u)).
  { assert (Hd : (length (map_delete id (userByIdCache s)) <= USER_CACHE_MAX)%nat).
    { unfold map_delete. etrans; [apply length_filter|done]. }
    assert (Hrun : fetch s = (match getUser (ById id) s with (inl e, _) => (inl e, s <| userByIdCache ::= map_delete id |>)
      | (inr u, _) => (inr u, s <| userByIdCache ::= fun c => pruneUserByIdCache acc_now (map_set id (u, acc_now) (map_delete id c)) |>) end)).
    { unfold fetch. rewrite bind_modify. unfold bind at 1. rewrite !getUser_run. cbn [table over].
      by destruct (if valid_query _ then _ else _). }
    rewrite Hrun, getUser_run. clear Hrun fetch.
    destruct (if valid_query _ then _ else _) as [e|v] eqn:Hg; cbn [snd userByIdCache over].
    { split; [done|]. intros e' He. left. exact (map_delete_sub id _ _ He). }
    split.
    - unfold pruneUserByIdCache. rewrite length_drop. lia.
    - intros e He%prune_sub%map_set_elem. destruct He as [->|He]; [|left; by eapply map_delete_sub].
      right. exists v. split; [done|]. destruct (valid_query _); [|done]. destruct (sql_findOne _ _); [|done]. by injection Hg as ->. }
  clearbody fetch. destruct (map_get _ _) as [[v at_]|]; [|done]. destruct (_ <? _); [|done].
  split; [done|by left].
Qed.

Lemma history_cache h s : history h s ->
  (length (userByIdCache s) <= USER_CACHE_MAX)%nat /\ forall e, e ∈ userByIdCache s -> seen h e.
Proof.
  intros H. induction H as [s Hs|h E st s H [Hl Hseen] Ht].
  { rewrite Hs. split; [simpl; lia|by intros e ?%elem_of_nil]. }
  assert (Hmore : forall e, seen h e -> seen ((E, s) :: h) e).
  { intros e (E' & s' & Hin & He). exists E', s'. split; [by right|done]. }
  destruct st as [hd c|id]; cbn [perform].
  - destruct (request_cache hd c s) as [He|He]; unfold perform in He; rewrite He; [|split; [simpl; lia|by intros e ?%elem_of_nil]].
    split; [done|]. intros e ?. by apply Hmore, Hseen.
  - destruct (lookup_cache id s Hl) as [Hl' Hc]. split; [done|]. intros e He.
    destruct (Hc e He) as [?|(u & -> & Hu)]; [by apply Hmore, Hseen|]. exists E, s. split; [by left|done].
Qed.

(** Looking a user up gives the account as it is or as it was less than a minute ago, however
    lookups and requests were mixed, and the cache never holds more than its limit. *)
Theorem lookups_are_recent h s (E : AccountEnv) id u s' :
  history h s -> getUserCachedById id s = (inr u, s') ->
  (length (userByIdCache s') <= USER_CACHE_MAX)%nat /\
  (sql_findOne (matches (ById id)) (table s) = Some u \/
   exists E0 s0, (E0, s0) ∈ h /\ @acc_now E - @acc_now E0 < USER_CACHE_TTL_MS /\
     sql_findOne (matches (ById id)) (table s0) = Some u).
Proof.
  intros Hh Hr. destruct (history_cache h s Hh) as [Hl Hseen]. split.
  - pose proof (lookup_cache id s Hl) as [H _]. by rewrite Hr in H.
  - apply lookup_run in Hr as [(at_ & Hin & Ht)|Hu]; [|by left].
    destruct (Hseen _ Hin) as (E0 & s0 & Hh0 & Hn & Hu). right. exists E0, s0. cbn [fst snd] in Hn, Hu, Ht. split_and!; [done|by rewrite Hn|done].
Qed.
End Cache.

(** ** The table *)

Section Table.
Context `{L : Limiter} `{P : Platform}.
Implicit Types (s : State) (u : User) (l : list User).

(** Rows differ in their ids, and as far as the database sees to it in their names and their
    addresses, ids are the ones given out, and each account can be entered. *)
Record well_formed s : Prop := {
  wf_ids : NoDup (map user_id (table s));
  wf_next u : u ∈ table s -> 1 <= user_id u < nextId s;
  wf_names u v : db_unique = true -> u ∈ table s -> v ∈ table s -> user_username u = user_username v -> u = v;
  wf_emails u v e : db_unique = true -> u ∈ table s -> v ∈ table s -> user_email u = Some e -> user_email v = Some e -> u = v;
  wf_enter u : u ∈ table s -> ensureCredentials u = true;
  wf_start : 1 <= nextId s;
}.

Lemma refused_none u l : refused u l = [] -> db_unique = true -> forall v, v ∈ l ->
  user_username v <> user_username u /\ (forall e, user_email u = Some e -> user_email v <> Some e).
Proof.
  unfold refused, conflicts. intros H Hdb. rewrite Hdb in H. apply app_eq_nil in H as [Hn He]. intros v Hv. rewrite list_elem_of_In in Hv. split.
  - intros Heq. destruct (existsb _ l) eqn:Hx in Hn; [done|]. rewrite <- not_true_iff_false in Hx. apply Hx.
    apply existsb_exists. exists v. split; [done|]. by apply bool_decide_eq_true_2.
  - intros e Hu Hve. rewrite Hu in He. cbn [present andb] in He. destruct (existsb _ l) eqn:Hx in He; [done|].
    rewrite <- not_true_iff_false in Hx. apply Hx. apply existsb_exists. exists v. split; [done|].
    by apply bool_decide_eq_true_2.
Qed.

Lemma others_elem u l v : v ∈ others u l <-> v ∈ l /\ user_id v <> user_id u.
Proof.
  unfold others. rewrite !list_elem_of_In, filter_In. rewrite negb_true_iff, Z.eqb_neq. done.
Qed.

Lemma put_elem u l v : v ∈ put u l -> (v = u /\ exists w, w ∈ l /\ user_id w = user_id u) \/ v ∈ others u l.
Proof.
  unfold put. intros (w & -> & Hw)%list_elem_of_fmap. destruct (user_id w =? user_id u) eqn:Hid.
  - left. split; [done|]. exists w. split; [done|]. by apply Z.eqb_eq.
  - right. apply others_elem. split; [done|]. by apply Z.eqb_neq.
Qed.

Lemma put_ids u l : map user_id (put u l) = map user_id l.
Proof.
  unfold put. rewrite map_map. apply map_ext. intros v. destruct (user_id v =? user_id u) eqn:H; [|done].
  by apply Z.eqb_eq in H.
Qed.

Lemma wf_save old u : keeps well_formed (save old u).
Proof.
  intros s Hwf. unfold save. rewrite bind_get. destruct (_ && _ && ensureCredentials u) eqn:Hok; [|done].
  destruct (refused _ _) eqn:Hc; [|done]. pose proof (refused_none _ _ Hc) as Hno. cbn [snd modify].
  change (map _ (table s)) with (put u (table s)). destruct Hwf as [Hi Hn Hu He Hen Hst].
  assert (Hsub : forall v, v ∈ others u (table s) -> v ∈ table s) by (intros v Hv; by apply others_elem in Hv as []).
  split; cbn [table nextId over]; change (map (fun v => if user_id v =? user_id u then u else v) (table s)) with (put u (table s)).
  - by rewrite put_ids.
  - intros v [[-> (w & Hw & <-)]|Hv]%put_elem; auto.
  - intros v w Hdb Hv Hw Heq. specialize (Hno Hdb). apply put_elem in Hv as [[-> _]|Hv], Hw as [[-> _]|Hw]; [done| | |auto].
    + by destruct (Hno w Hw) as [[] _].
    + by destruct (Hno v Hv) as [[] _].
  - intros v w e Hdb Hv Hw H1 H2. specialize (Hno Hdb). apply put_elem in Hv as [[-> _]|Hv], Hw as [[-> _]|Hw]; [done| | |eauto].
    + by destruct (Hno w Hw) as [_ Hx]; destruct (Hx e H1).
    + by destruct (Hno v Hv) as [_ Hx]; destruct (Hx e H2).
  - intros v [[-> _]|Hv]%put_elem; [by apply andb_true_iff in Hok as []|auto].
  - done.
Qed.

Lemma wf_create e n a h d : keeps well_formed (create e n a h d).
Proof.
  intros s Hwf. unfold create. rewrite bind_get. cbv zeta. destruct (_ && _ && ensureCredentials _) eqn:Hok; [|done].
  destruct (refused _ _) eqn:Hc; [|done]. pose proof (refused_none _ _ Hc) as Hno. rewrite bind_modify.
  set (u := MkUser _ _ _ _ _ _) in *. cbn [snd ret]. destruct Hwf as [Hi Hn Hu He Hen Hst].
  assert (Hel : forall v, v ∈ table s ++ [u] -> v ∈ table s \/ v = u).
  { intros v [?|?%list_elem_of_singleton]%elem_of_app; auto. }
  split; cbn [table nextId over].
  - rewrite map_app. apply NoDup_app. split; [done|]. split; [|apply NoDup_singleton].
    intros i (v & -> & Hv)%list_elem_of_fmap Hx%list_elem_of_singleton. apply Hn in Hv. subst u. cbn in Hx. lia.
  - intros v [Hv| ->]%Hel; [specialize (Hn v Hv); lia|]. cbn. lia.
  - intros v w Hdb [Hv| ->]%Hel [Hw| ->]%Hel Heq; specialize (Hno Hdb); [auto| | |done].
    + by destruct (Hno v Hv) as [[] _].
    + by destruct (Hno w Hw) as [[] _].
  - intros v w e0 Hdb [Hv| ->]%Hel [Hw| ->]%Hel H1 H2; specialize (Hno Hdb); [eauto| | |done].
    + by destruct (Hno v Hv) as [_ Hx]; destruct (Hx e0 H2).
    + by destruct (Hno w Hw) as [_ Hx]; destruct (Hx e0 H1).
  - intros v [Hv| ->]%Hel; [auto|]. by apply andb_true_iff in Hok as [].
  - lia.
Qed.

(** What leaves the table alone. *)
Lemma wf_table s s' : table s' = table s -> nextId s' = nextId s -> well_formed s -> well_formed s'.
Proof. intros Ht Hn [H1 H2 H3 H4 H5 H6]. split; rewrite ?Ht, ?Hn; done. Qed.

Lemma wf_remove u f : (forall s, table (f s) = others u (table s) /\ nextId (f s) = nextId s) ->
  keeps (E := error) well_formed (modify f).
Proof.
  intros Hf. apply keeps_modify. intros s [H1 H2 H3 H4 H5 H6]. destruct (Hf s) as [Ht Hn].
  assert (Hsub : forall v, v ∈ others u (table s) -> v ∈ table s) by (intros v Hv; by apply others_elem in Hv as []).
  split; rewrite ?Ht, ?Hn; auto; [|eauto].
  unfold others. clear -H1. induction (table s) as [|w l IH]; [done|]. cbn [map] in H1. apply NoDup_cons in H1 as [Hw Hl].
  simpl. destruct (negb _); [|auto]. cbn [map]. apply NoDup_cons. split; [|auto].
  intros (v & Hid & Hv)%list_elem_of_fmap. apply Hw. rewrite Hid. apply list_elem_of_fmap. exists v. split; [done|].
  rewrite !list_elem_of_In in *. by apply filter_In in Hv as [].
Qed.
End Table.

(** Go through a handler that touches the table by [save], [create] and the merge only. *)
Ltac wf_same :=
  match goal with H : well_formed ?s |- well_formed ?s' => exact (wf_table s s' eq_refl eq_refl H) end.
Ltac wf_step :=
  match goal with
  | |- keeps _ (save _ _) => apply wf_save
  | |- keeps _ (create _ _ _ _ _) => apply wf_create
  | |- keeps _ (attempt _ _) => apply keeps_attempt; [|intros ?]
  | |- keeps _ (modify _) =>
      first [ apply keeps_modify; intros ? ?; first [wf_same | case_match; first [assumption | wf_same]]
            | eapply wf_remove; intros ?; split; reflexivity ]
  | |- _ => keeps_step
  end.
Ltac wf_tac := repeat first [wf_step | progress acc_unfold | progress unfold setSessionInfo, revoke].

Section TableKept.
Context `{L : Limiter} `{P : Platform}.

Lemma wf_rotate `{E : AccountEnv} i m o : keeps well_formed m -> keeps well_formed (rotate i m o).
Proof. intros Hm. unfold rotate. cbv zeta. wf_tac. Qed.

(** Whatever the requests, one at a time, the table stays one of accounts: no two rows share an
    id, and none a name or an address when the database refuses that, ids are those given out, and
    every account keeps something to get in with, a name with a password or a Discord account.
    (Names are compared letter by letter.) *)
Theorem accounts_well_formed (E : AccountEnv) st s : well_formed s -> well_formed (perform (E := E) st s).
Proof.
  destruct st as [h c|id]; cbn [perform].
  2: { apply (keeps_use well_formed (getUserCachedById id) s). unfold getUserCachedById. cbv zeta. wf_tac. }
  apply (keeps_use well_formed (serve h c) s). unfold serve. apply keeps_bind; [wf_tac|intros _].
  assert (Hmid : forall k : option Req -> AM unit, (forall o, keeps well_formed (k o)) ->
    keeps well_formed (bind (authTokenMiddleware (apikey h) (authorization h) (cookie h) (addr h)) k)).
  { intros k Hk. apply keeps_bind; [unfold authTokenMiddleware; cbv zeta; wf_tac|done]. }
  pose proof @wf_rotate as Hrot.
  destruct c; try (apply Hmid; intros [q|]; [|apply keeps_ret]); unfold route.
  - unfold grant. wf_tac.
  - unfold discordCallback. wf_tac; apply wf_rotate; wf_tac.
  - unfold whoami. wf_tac.
  - unfold changeUsername. wf_tac.
  - unfold login. wf_tac; apply wf_rotate; wf_tac.
  - unfold logout. wf_tac.
  - unfold register. wf_tac; apply wf_rotate; wf_tac.
  - unfold recover_start, accountRecoveryStart. wf_tac.
  - unfold recover_verify, accountRecoveryVerify. wf_tac; apply wf_rotate; wf_tac.
  - unfold getAccount. wf_tac.
  - unfold patchAccount. cbv zeta. wf_tac.
  - unfold deleteDiscordLink. wf_tac.
  - unfold getOwnedRooms. wf_tac.
Qed.
End TableKept.

(** ** At work

    A limiter that counts, a hash that can be read, and the first row that matches. *)

Section Samples.

Definition cell := (LimiterName * string)%type.
#[local] Instance LimiterName_eq : EqDecision LimiterName.
Proof. solve_decision. Defined.

Definition limit_of (n : LimiterName) : Z :=
  match n with ApiLimiter => 1000 | SlowBruteByIP => 100 | ConsecutiveFails | RoomPasswordFail => 10 end.

#[local] Instance counting : Limiter := {|
  Limits := list (cell * Z);
  limiter_consume _ n k p l :=
    let c := default 0 (map_get (n, k) l) + p in
    ((if limit_of n <? c then Refused else Consumed) (MkInfo c 60000), map_set (n, k) c l);
  limiter_get _ n k l := match map_get (n, k) l with Some c => Some (MkInfo c 60000) | None => None end;
  limiter_delete n k l := map_delete (n, k) l;
  limiter_reward n k p l := map_set (n, k) (default 0 (map_get (n, k) l) - p) l;
|}.

Definition sample_hash (p : string) : string := ("$argon2id$" ++ p ++ ".")%string.

#[local] Instance sample_platform : Platform := {|
  conf_env := Production;
  conf_rate_limit := true;
  conf_enable_registration := true;
  conf_mail_enabled := true;
  conf_api_key := None;
  argon_hash _ p := sample_hash p;
  argon_verify h p := Some (bool_decide (h = sample_hash p));
  argon_needsRehash _ := false;
  model_isEmail _ := true;
  schema_isEmail _ := true;
  sql_lower := toLowerCase;
  sql_findOne := fun p l => List.find p l;
  db_unique := true;
|}.

Lemma trim_dot (s : string) : trim_nulls (s ++ ".")%string = (s ++ ".")%string.
Proof.
  induction s as [|c s IH]; [done|]. change ((String c s ++ ".")%string) with (String c (s ++ ".")%string).
  cbn [trim_nulls]. rewrite IH. by destruct s.
Qed.

#[local] Instance sample_laws : AccountLaws.
Proof.
  split; try done.
  - intros r p. cbn. by rewrite bool_decide_eq_true_2.
  - intros r p. cbn [argon_hash sample_platform]. unfold sample_hash. exact (trim_dot ("$argon2id$" ++ p)%string).
  - intros p l u Hf. cbn in Hf. split; [by apply find_some in Hf as []|]. apply list_elem_of_In. by apply find_some in Hf as [].
  - intros p l u Hin Hp. cbn. destruct (List.find p l) as [v|] eqn:Hf; [by eexists|].
    pose proof (find_none _ _ Hf u (proj1 (list_elem_of_In _ _) Hin)). congruence.
Qed.

(** The call at [t], with the [n]th random values. *)
Definition at_time (t : Z) (tok : string) : AccountEnv := {|
  acc_now := t; random_token := tok; random_salt := ("salt-" ++ tok)%string; random_nonce := tok; random_key := ("key-" ++ tok)%string;
  random_nickname := "guest"; session_ok := true; mail_ok := true |}.

Definition empty_state : State := MkState [] 1 [] ∅ ∅ [] [] [] [] [].
Definition anonymous : Headers := MkHeaders None None None "10.0.0.1".
Definition with_token (t : string) : Headers := MkHeaders None None (Some t) "10.0.0.1".

Definition go (l : list (AccountEnv * Step)) (s : State) : State :=
  fold_left (fun s es => perform (E := es.1) es.2 s) l s.

(** A guest gets a token and registers. *)
Definition registered : State :=
  go [(at_time 1000 "t0", Request anonymous Grant);
      (at_time 2000 "t1", Request (with_token "t0") (Register (Some "bob@example.org") (Some "Bob") (Some "Secret123")))] empty_state.

Example registered_ok :
  sent registered = [MkResponse 201 (Entered (Some "bob@example.org") "Bob" "t1")] /\ sessions registered !! "t0"%string = None.
Proof. by vm_compute. Qed.

(** The hashes argon2 makes say which variant they are, and the code looks for one that does
    not: a wrong password is answered as if a field were missing, a name nobody has as a wrong
    password, so the answer tells which names have an account. *)
Example wrong_password_is_called_missing :
  sent (go [(at_time 3000 "t2", Request (with_token "t1") (Login (Some "Bob") (Some "Wrong1234")))] registered)
    = [MkResponse 401 (Failed "Either the user or password was not provided.")] /\
  sent (go [(at_time 3000 "t2", Request (with_token "t1") (Login (Some "Alice") (Some "Wrong1234")))] registered)
    = [MkResponse 401 (Failed "Email or password is incorrect.")].
Proof. by vm_compute. Qed.

(** Two names that differ in case can both be registered, but a login finds one of them. *)
Definition two_bobs : State :=
  go [(at_time 3000 "t2", Request anonymous Grant);
      (at_time 4000 "t3", Request (with_token "t2") (Register None (Some "bob") (Some "Another456")))] registered.

Example second_bob_is_locked_out :
  map user_username (table two_bobs) = ["Bob"; "bob"] /\
  sent (go [(at_time 5000 "t4", Request (with_token "t3") (Login (Some "bob") (Some "Another456")))] two_bobs)
    = [MkResponse 401 (Failed "Either the user or password was not provided.")].
Proof. by vm_compute. Qed.

(** ** The hypotheses can hold *)

Definition granted : State := go [(at_time 1000 "t0", Request anonymous Grant)] empty_state.
Definition registering : Call := Register (Some "bob@example.org") (Some "Bob") (Some "Secret123").

Lemma sessions_are_earned_witness :
  exists until, sessions (perform (E := at_time 2000 "t1") (Request (with_token "t0") registering) granted) !! "t1"%string
    = Some (SessionUser 1, until) /\
  (sessions granted !! "t1"%string = Some (SessionUser 1, until) \/
   ("t1"%string = "t1"%string /\ proves_identity (E := at_time 2000 "t1") registering granted 1)).
Proof.
  assert (H : sessions (perform (E := at_time 2000 "t1") (Request (with_token "t0") registering) granted) !! "t1"%string
    = Some (SessionUser 1, 20736002000)) by by vm_compute.
  exists 20736002000. split; [exact H|].
  exact (sessions_are_earned (E := at_time 2000 "t1") (with_token "t0") registering granted "t1" 1 20736002000 H).
Defined.

Definition bob : User := MkUser 1 "Bob" (Some "bob@example.org") (Some "salt-t1") (Some (sample_hash "salt-t1Secret123")) None.
Definition quiet_state : State := registered <| sent := [] |>.
Definition guest_req (t : string) : Req := MkReq "10.0.0.2" (Some t) (Some (SessionGuest "guest")) None.

Lemma recovery_roundtrip_witness :
  let s1 := (recover_start (E := at_time 3000 "t5") (guest_req "g") None (Some "Bob") quiet_state).2 <| sent := [] |> in
  let s2 := (recover_verify (E := at_time 4000 "t6") (guest_req "g") "key-t5" "Renewed789" s1).2 <| sent := [] |> in
  last (mails s1) = Some ("bob@example.org", "key-t5")%string /\
  sent (login (E := at_time 5000 "t7") (guest_req "h") (Some "bob@example.org") (Some "Renewed789") s2).2
    = [MkResponse 200 (Entered (Some "bob@example.org") "Bob" "t7")] /\
  sent (recover_verify (E := at_time 5000 "t7") (guest_req "h") "key-t5" "Renewed789" s2).2
    = [MkResponse 400 (Failed "InvalidVerifyKey")].
Proof.
  assert (Ht : table quiet_state = [bob]) by by vm_compute.
  assert (Hin : bob ∈ table quiet_state) by (rewrite Ht; by left).
  assert (Hconf : conflicts bob (others bob (table quiet_state)) = []) by by vm_compute.
  assert (Honly : forall v, v ∈ table quiet_state -> matches (ByUser "bob@example.org") v = true -> v = bob)
    by (intros v Hv _; rewrite Ht in Hv; by apply list_elem_of_singleton in Hv).
  assert (Hname : user_username bob <> ""%string) by done.
  assert (He : "bob@example.org"%string <> ""%string) by done.
  assert (Hn : "Bob"%string <> ""%string) by done.
  refine (recovery_roundtrip (at_time 3000 "t5") (at_time 4000 "t6") (at_time 5000 "t7")
    (guest_req "g") (guest_req "g") (guest_req "h") (guest_req "h") "g" "Bob" "Renewed789" "Renewed789" bob "bob@example.org"
    quiet_state eq_refl Hin eq_refl He Hname Hconf Honly eq_refl eq_refl eq_refl Hn _ eq_refl _ _ _ _ _ _ _);
    try (by vm_compute).
  - right. eexists. vm_compute. reflexivity.
  - right. eexists. vm_compute. reflexivity.
  - right. eexists. vm_compute. reflexivity.
Defined.

Lemma lookups_are_recent_witness :
  let h := [(at_time 3000 "t2", quiet_state)] in
  let s := perform (E := at_time 3000 "t2") (LookUp 1) quiet_state in
  exists u s', getUserCachedById (E := at_time 9000 "t3") 1 s = (inr u, s') /\
  (length (userByIdCache s') <= USER_CACHE_MAX)%nat /\
  (sql_findOne (matches (ById 1)) (table s) = Some u \/
   exists E0 s0, (E0, s0) ∈ h /\ 9000 - @acc_now E0 < USER_CACHE_TTL_MS /\
     sql_findOne (matches (ById 1)) (table s0) = Some u).
Proof.
  cbv zeta.
  assert (Hh : history [(at_time 3000 "t2", quiet_state)] (perform (E := at_time 3000 "t2") (LookUp 1) quiet_state)).
  { apply history_step; [apply history_start; by vm_compute|by intros E' s' ?%elem_of_nil]. }
  assert (Hr : getUserCachedById (E := at_time 9000 "t3") 1 (perform (E := at_time 3000 "t2") (LookUp 1) quiet_state)
    = (inr bob, perform (E := at_time 3000 "t2") (LookUp 1) quiet_state)) by by vm_compute.
  exists bob, (perform (E := at_time 3000 "t2") (LookUp 1) quiet_state). split; [exact Hr|].
  exact (lookups_are_recent _ _ (at_time 9000 "t3") 1 bob _ Hh Hr).
Defined.

Lemma accounts_well_formed_witness : well_formed granted /\
  well_formed (perform (E := at_time 2000 "t1") (Request (with_token "t0") registering) granted).
Proof.
  assert (H : well_formed granted).
  { assert (Ht : table granted = []) by by vm_compute.
    split; rewrite ?Ht; try (by intros ? ?%elem_of_nil); try (by intros ? ? _ ?%elem_of_nil); try (by intros ? ? ? _ ?%elem_of_nil);
      [apply NoDup_nil_2|by vm_compute]. }
  split; [exact H|]. exact (accounts_well_formed (at_time 2000 "t1") (Request (with_token "t0") registering) granted H).
Defined.
End Samples.
