(* ===== verification/RoomPassword.v ===== *)
(** * RoomPassword: the locks on rooms

    [server/room-password.ts] with the two handlers of [server/api/room.ts] that check and set
    a password.  Argon2 runs in two slots, which calls wait for in line; every call is cut at
    its awaits.  What a grant is kept under carries the version of the hash. *)

From S2P Require Import Prelude Types Permissions VideoQueue RoomModel RoomPlayback RoomLifecycle Accounts.

Module Password.
Import Accounts.

Definition GRANT_TTL_SECONDS : Z := 60 * 60 * 24.
Definition MAX_WRONG_ATTEMPTS : Z := 10.
Definition MAX_CONCURRENT_PASSWORD_HASHES : nat := 2.

(** The first sixteen digits of the SHA-256 of a hash. *)
Class Digest := sha_version : string -> string.

(** What a slot is wanted for. *)
Inductive Work :=
| VerifyWork (obj : nat) (token : option AuthToken) (ip password : string)
| SetWork (obj : nat) (password : string).

(** Where a call stands while it awaits: the answer of the limiter, a slot, argon2 (which was
    given that hash), the limiter again, the grant, the row of a permanent room. *)
Inductive Where :=
| AwaitConsume (obj : nat) (token : option AuthToken) (ip password : string) (retry : Z)
| AwaitSlot (w : Work)
| Hashing (w : Work) (hash : option string)
| AwaitClear (obj : nat) (token : option AuthToken)
| AwaitGrant
| AwaitStore (obj : nat) (hash : option string).

Inductive Answer := Granted | TooManyRequests (retry : Z) | InvalidRoomPassword | Crashed.

Definition is_hashing (w : Where) : bool := match w with Hashing _ _ => true | _ => false end.

Section State.
Context `{L : Limiter}.

Record Locks := MkLocks {
  heap : gmap nat Room;
  granted : gmap (string * string * option AuthToken) Z;
  attempts : Limits;
  activePasswordHashes : nat;
  passwordHashWaiters : list nat;
  woken : list nat;
  calls : gmap nat Where;
  answers : list (nat * Answer);
}.
#[global] Instance eta_Locks : Eta Locks := fun s =>
  MkLocks (heap s) (granted s) (attempts s) (activePasswordHashes s) (passwordHashWaiters s) (woken s) (calls s) (answers s).

Section Code.
Context `{P : Platform} `{D : Digest} `{E : AccountEnv}.
Implicit Types (s : Locks) (r : Room).

Definition truthy (o : option string) : option string :=
  match o with Some h => if bool_decide (h = ""%string) then None else Some h | None => None end.

(** ** Grants *)

Definition grantKey r (token : option AuthToken) : string * string * option AuthToken :=
  (name r, sha_version (default ""%string (passwordHash r)), token).

Definition hasGrant r (token : option AuthToken) s : bool :=
  match granted s !! grantKey r token with Some until => acc_now <? until | None => false end.

Definition hasRoomAccess r (token : option AuthToken) (session : option SessionInfo) s : bool :=
  match truthy (passwordHash r) with
  | None => true
  | Some _ =>
      match session, owner r with
      | Some (SessionUser uid), Some o => (user_id o =? uid) || (Accounts.truthy token && hasGrant r token s)
      | _, _ => Accounts.truthy token && hasGrant r token s
      end
  end.

(** ** The two slots *)

Definition at_ (id : nat) (w : Where) s : Locks := s <| calls ::= <[id := w]> |>.
Definition answer (id : nat) (a : Answer) s : Locks := s <| calls ::= delete id |> <| answers ::= fun l => l ++ [(id, a)] |>.

(** The hash a check starts from is the one the room has when its slot comes. *)
Definition hash_of (obj : nat) s : option string := heap s !! obj ≫= passwordHash.

Definition enter (id : nat) (w : Work) s : Locks :=
  let hash := match w with VerifyWork obj _ _ _ => hash_of obj s | SetWork _ _ => None end in
  at_ id (Hashing w hash) (s <| activePasswordHashes ::= S |>).

(** [withPasswordHashSlot] *)
Definition withPasswordHashSlot (id : nat) (w : Work) s : Locks :=
  if (MAX_CONCURRENT_PASSWORD_HASHES <=? activePasswordHashes s)%nat
  then at_ id (AwaitSlot w) (s <| passwordHashWaiters ::= fun l => l ++ [id] |>)
  else enter id w s.

(** Its [finally]: the slot is given back, and the first in line is told. *)
Definition release s : Locks :=
  let s := s <| activePasswordHashes ::= pred |> in
  match passwordHashWaiters s with
  | id :: rest => s <| passwordHashWaiters := rest |> <| woken ::= fun l => l ++ [id] |>
  | [] => s
  end.

(** ** Checking a password *)

(** [consumeRoomPasswordAttempt], answered before the password is looked at. *)
Definition consumeRoomPasswordAttempt (roomName ip : string) s : Z * Locks :=
  if negb conf_rate_limit then (0, s)
  else
    let a := limiter_consume acc_now RoomPasswordFail (roomName ++ "_" ++ ip)%string 1 (attempts s) in
    (match a.1 with
     | Consumed i => if MAX_WRONG_ATTEMPTS <? consumedPoints i then retry_seconds (msBeforeNext i) else 0
     | Refused i => retry_seconds (msBeforeNext i)
     | LimiterError => 0
     end, s <| attempts := a.2 |>).

Definition clearRoomPasswordFailures (roomName ip : string) s : Locks :=
  if negb conf_rate_limit then s
  else s <| attempts ::= limiter_delete RoomPasswordFail (roomName ++ "_" ++ ip)%string |>.

Definition room_of (obj : nat) s : string := match heap s !! obj with Some r => name r | None => ""%string end.

(** [verifyRoomPasswordHandler], up to its first await. *)
Definition verify_request (id obj : nat) (token : option AuthToken) (ip password : string) s : Locks :=
  match truthy (hash_of obj s) with
  | None => answer id Granted s
  | Some _ => let a := consumeRoomPasswordAttempt (room_of obj s) ip s in
              at_ id (AwaitConsume obj token ip password a.1) a.2
  end.

(** The password was right. *)
Definition accepted (id obj : nat) (token : option AuthToken) (ip : string) s : Locks :=
  at_ id (AwaitClear obj token) (clearRoomPasswordFailures (room_of obj s) ip s).

Definition verifyRoomPassword (id obj : nat) (token : option AuthToken) (ip password : string) s : Locks :=
  match truthy (hash_of obj s) with
  | None => accepted id obj token ip s
  | Some _ => withPasswordHashSlot id (VerifyWork obj token ip password) s
  end.

Definition grantRoomAccess (obj : nat) (token : option AuthToken) s : Locks :=
  match heap s !! obj with
  | Some r => s <| granted ::= <[grantKey r token := acc_now + 1000 * GRANT_TTL_SECONDS]> |>
  | None => s
  end.

(** ** Setting a password *)

Definition store_hash (id obj : nat) (hash : option string) s : Locks :=
  match heap s !! obj with
  | Some r => if isTemporary r then answer id Granted (s <| heap ::= alter (setPasswordHash hash) obj |>)
              else at_ id (AwaitStore obj hash) s
  | None => answer id Crashed s
  end.

(** [setRoomPassword], which the owner asks for. *)
Definition set_request (id obj : nat) (password : option string) s : Locks :=
  match password with
  | None => store_hash id obj None s
  | Some p => withPasswordHashSlot id (SetWork obj p) s
  end.

(** ** The steps *)

(** Argon2 is done: a check that throws counts as a wrong password. *)
Definition hashed (id : nat) (w : Work) (hash : option string) s : Locks :=
  let s := release s in
  match w with
  | VerifyWork obj token ip password =>
      if match hash with Some h => default false (argon_verify h password) | None => false end
      then accepted id obj token ip s
      else answer id InvalidRoomPassword s
  | SetWork obj password => store_hash id obj (Some (argon_hash random_nonce password)) s
  end.

(** What the call [id] awaits is there; [ok] is whether a row was updated. *)
Definition resume (id : nat) (ok : bool) s : Locks :=
  match calls s !! id with
  | Some (AwaitConsume obj token ip password retry) =>
      if 0 <? retry then answer id (TooManyRequests retry) s else verifyRoomPassword id obj token ip password s
  | Some (AwaitSlot w) =>
      match woken s with
      | i :: rest => if bool_decide (i = id) then enter id w (s <| woken := rest |>) else s
      | [] => s
      end
  | Some (Hashing w hash) => hashed id w hash s
  | Some (AwaitClear obj token) => at_ id AwaitGrant (grantRoomAccess obj token s)
  | Some AwaitGrant => answer id Granted s
  | Some (AwaitStore obj hash) =>
      if ok then answer id Granted (s <| heap ::= alter (setPasswordHash hash) obj |>) else answer id Crashed s
  | None => s
  end.

Inductive Event :=
| Verify (id obj : nat) (token : option AuthToken) (ip password : string)
| SetPassword (id obj : nat) (password : option string)
| Resume (id : nat) (ok : bool).

Definition perform (e : Event) s : Locks :=
  match e with
  | Verify id obj token ip p => match calls s !! id with Some _ => s | None => verify_request id obj token ip p s end
  | SetPassword id obj p => match calls s !! id with Some _ => s | None => set_request id obj p s end
  | Resume id ok => resume id ok s
  end.

(** Someone woken runs before anything else gets a turn: the rest of the function that woke it
    is a microtask. *)
Definition legal (e : Event) s : Prop :=
  match woken s with
  | [] => True
  | id :: _ => exists ok, e = Resume id ok
  end.
End Code.
End State.

End Password.
