(* ===== verification/RoomPasswordTheorems.v ===== *)
(** * RoomPasswordTheorems: the two slots, and what a grant is worth *)

From S2P Require Import Prelude Types Permissions VideoQueue RoomModel RoomPlayback RoomLifecycle.
From S2P Require Import RoomSamples Accounts AccountsTheorems RoomPassword.
Import Accounts Password.

(** ** Counting the calls in argon2 *)

Definition hashers (m : gmap nat Where) : gmap nat Where := filter (fun kv => is_hashing kv.2 = true) m.
Definition hashes_at (m : gmap nat Where) (id : nat) : nat :=
  match m !! id with Some w => if is_hashing w then 1%nat else 0%nat | None => 0%nat end.

Lemma hashers_lookup m id : hashers m !! id = match m !! id with Some w => if is_hashing w then Some w else None | None => None end.
Proof.
  unfold hashers. destruct (m !! id) as [w|] eqn:Hw.
  - destruct (is_hashing w) eqn:Hh; [by apply map_lookup_filter_Some|].
    apply map_lookup_filter_None. right. intros w' Hw'. simpl. rewrite Hw in Hw'. by injection Hw' as <-; rewrite Hh.
  - apply map_lookup_filter_None. by left.
Qed.

Lemma size_insert m id w :
  (size (hashers (<[id := w]> m)) + hashes_at m id = size (hashers m) + (if is_hashing w then 1 else 0))%nat.
Proof.
  pose proof (hashers_lookup m id) as Hl. unfold hashes_at. destruct (is_hashing w) eqn:Hw.
  - unfold hashers at 1. rewrite map_filter_insert_True by done. fold (hashers m).
    destruct (m !! id) as [v|] eqn:Hv; [destruct (is_hashing v)|].
    + rewrite map_size_insert_Some by done. lia.
    + rewrite map_size_insert_None by done. lia.
    + rewrite map_size_insert_None by done. lia.
  - unfold hashers at 1. rewrite map_filter_insert_False by (simpl; congruence). rewrite map_filter_delete. fold (hashers m).
    destruct (m !! id) as [v|] eqn:Hv; [destruct (is_hashing v)|].
    + rewrite map_size_delete_Some by eauto. assert (size (hashers m) <> 0)%nat; [|lia].
      intros H0%map_size_empty_inv. rewrite H0 in Hl. by rewrite lookup_empty in Hl.
    + rewrite map_size_delete_None by done. lia.
    + rewrite map_size_delete_None by done. lia.
Qed.

Lemma size_delete m id : (size (hashers (delete id m)) + hashes_at m id = size (hashers m))%nat.
Proof.
  pose proof (hashers_lookup m id) as Hl. unfold hashers at 1. rewrite map_filter_delete. fold (hashers m). unfold hashes_at.
  destruct (m !! id) as [v|] eqn:Hv; [destruct (is_hashing v)|].
  - rewrite map_size_delete_Some by eauto. assert (size (hashers m) <> 0)%nat; [|lia].
    intros H0%map_size_empty_inv. rewrite H0 in Hl. by rewrite lookup_empty in Hl.
  - rewrite map_size_delete_None by done. lia.
  - rewrite map_size_delete_None by done. lia.
Qed.

Section Slots.
Context `{L : Limiter} `{P : Platform} `{D : Digest}.
Implicit Types (s : Locks).

(** The counter counts; nobody waits while a slot is free; those who wait stand in line once. *)
Record slots s : Prop := {
  sl_count : size (hashers (calls s)) = activePasswordHashes s;
  sl_sum : (activePasswordHashes s + length (woken s) <= MAX_CONCURRENT_PASSWORD_HASHES)%nat;
  sl_full : passwordHashWaiters s <> [] ->
    (activePasswordHashes s + length (woken s) = MAX_CONCURRENT_PASSWORD_HASHES)%nat;
  sl_line id : id ∈ woken s ++ passwordHashWaiters s <-> exists w, calls s !! id = Some (AwaitSlot w);
  sl_once : NoDup (woken s ++ passwordHashWaiters s);
}.

Definition waits s (id : nat) : bool := match calls s !! id with Some (AwaitSlot _) => true | _ => false end.

Lemma waits_line s id : slots s -> waits s id = bool_decide (id ∈ woken s ++ passwordHashWaiters s).
Proof.
  intros H. unfold waits. pose proof (sl_line _ H id) as Hl. case_bool_decide as Hd.
  - apply Hl in Hd as [w ->]. done.
  - destruct (calls s !! id) as [[]|] eqn:Hc; try done. destruct Hd. apply Hl. eauto.
Qed.

(** One call moves, none that waits before or after, and the line stays as it is. *)
Lemma slots_move s s' id :
  slots s -> waits s id = false -> waits s' id = false ->
  (forall i, i <> id -> calls s' !! i = calls s !! i) ->
  woken s' ++ passwordHashWaiters s' = woken s ++ passwordHashWaiters s ->
  size (hashers (calls s')) = activePasswordHashes s' ->
  (activePasswordHashes s' + length (woken s') <= MAX_CONCURRENT_PASSWORD_HASHES)%nat ->
  (passwordHashWaiters s' <> [] -> (activePasswordHashes s' + length (woken s') = MAX_CONCURRENT_PASSWORD_HASHES)%nat) ->
  slots s'.
Proof.
  intros H Hw Hw' Hc Hl H1 H2 H3. split; try done.
  - intros i. rewrite Hl. destruct (decide (i = id)) as [->|Hne]; [|rewrite Hc by done; by apply H].
    rewrite (waits_line s id H) in Hw. apply bool_decide_eq_false in Hw.
    split; [by intros ?|]. intros [v Hv]. unfold waits in Hw'. by rewrite Hv in Hw'.
  - rewrite Hl. by apply H.
Qed.

(** It moves without a slot before or after. *)
Lemma slots_quiet s s' id :
  slots s -> waits s id = false -> hashes_at (calls s) id = 0%nat ->
  activePasswordHashes s' = activePasswordHashes s -> woken s' = woken s ->
  passwordHashWaiters s' = passwordHashWaiters s ->
  (calls s' = delete id (calls s) \/
   exists w, calls s' = <[id := w]> (calls s) /\ is_hashing w = false /\ forall v, w <> AwaitSlot v) ->
  slots s'.
Proof.
  intros H Hw Hh Ha Hwk Hwt Hc. apply (slots_move s s' id); rewrite ?Ha, ?Hwk, ?Hwt; try done; try by apply H.
  - unfold waits. destruct Hc as [->|(w & -> & _ & Hn)]; [by rewrite lookup_delete_eq|].
    rewrite lookup_insert_eq. destruct w; try done. by destruct (Hn w).
  - intros i Hi. destruct Hc as [->|(w & -> & _)]; [by rewrite lookup_delete_ne|by rewrite lookup_insert_ne].
  - pose proof (sl_count _ H) as H1. destruct Hc as [->|(w & -> & Hn & _)].
    + pose proof (size_delete (calls s) id). lia.
    + pose proof (size_insert (calls s) id w) as Hx. rewrite Hn in Hx. lia.
Qed.

Lemma slots_enter id w s `{E : AccountEnv} :
  slots s -> waits s id = false -> hashes_at (calls s) id = 0%nat -> woken s = [] ->
  slots (withPasswordHashSlot id w s).
Proof.
  intros H Hw Hh Hwk. pose proof (sl_sum _ H) as Hs. pose proof (sl_full _ H) as Hf. rewrite Hwk in Hs, Hf. simpl in Hs, Hf.
  unfold withPasswordHashSlot. destruct (_ <=? _)%nat eqn:Hle; [apply Nat.leb_le in Hle|apply Nat.leb_gt in Hle].
  - split; cbn [at_ calls activePasswordHashes woken passwordHashWaiters over]; rewrite ?Hwk; simpl.
    + pose proof (size_insert (calls s) id (AwaitSlot w)) as Hx. pose proof (sl_count _ H). simpl in Hx. lia.
    + lia.
    + lia.
    + intros i. pose proof (sl_line _ H i) as Hi. rewrite Hwk in Hi. simpl in Hi. rewrite elem_of_app, Hi, list_elem_of_singleton.
      destruct (decide (i = id)) as [->|Hne]; [rewrite lookup_insert_eq|rewrite lookup_insert_ne by done]; naive_solver.
    + pose proof (sl_once _ H) as Ho. rewrite Hwk in Ho. simpl in Ho. apply NoDup_app. split; [done|].
      split; [|apply NoDup_singleton]. intros i Hi ->%list_elem_of_singleton.
      rewrite (waits_line s id H), Hwk in Hw. apply bool_decide_eq_false in Hw. by apply Hw.
  - assert (Hwt : passwordHashWaiters s = []) by (destruct (passwordHashWaiters s); [done|]; specialize (Hf ltac:(done)); lia).
    assert (Hcalls : exists h, calls (enter id w s) = <[id := Hashing w h]> (calls s)) by by eexists.
    destruct Hcalls as [h Hcalls].
    apply (slots_move s (enter id w s) id); try done; rewrite ?Hcalls.
    + unfold waits. by rewrite Hcalls, lookup_insert_eq.
    + intros i Hi. by rewrite lookup_insert_ne.
    + pose proof (size_insert (calls s) id (Hashing w h)) as Hx. pose proof (sl_count _ H). simpl in Hx |- *. lia.
    + cbn [enter at_ activePasswordHashes woken over]. rewrite Hwk. simpl. lia.
Qed.

(** The first in line takes its slot. *)
Lemma slots_woken id rest w s `{E : AccountEnv} :
  slots s -> woken s = id :: rest -> calls s !! id = Some (AwaitSlot w) ->
  slots (enter id w (s <| woken := rest |>)).
Proof.
  intros H Hwk Hc. destruct H as [H1 H2 H3 H4 H5]. rewrite Hwk in *. cbn [length app] in *.
  assert (Hcalls : exists h, calls (enter id w (s <| woken := rest |>)) = <[id := Hashing w h]> (calls s)) by by eexists.
  destruct Hcalls as [h Hcalls]. apply NoDup_cons in H5 as [Hnot H5].
  split; rewrite ?Hcalls; cbn [enter at_ activePasswordHashes woken passwordHashWaiters over].
  - pose proof (size_insert (calls s) id (Hashing w h)) as Hx. unfold hashes_at in Hx. rewrite Hc in Hx. simpl in Hx. lia.
  - lia.
  - intros Hne. specialize (H3 Hne). lia.
  - intros i. destruct (decide (i = id)) as [->|Hne].
    + rewrite lookup_insert_eq. split; [done|]. by intros [? ?].
    + rewrite lookup_insert_ne by done. rewrite <- H4. rewrite elem_of_cons. naive_solver.
  - done.
Qed.

(** A slot is given back, and the call goes on without one. *)
Lemma slots_release id s s' `{E : AccountEnv} :
  slots s -> woken s = [] -> hashes_at (calls s) id = 1%nat -> waits s id = false ->
  activePasswordHashes s' = activePasswordHashes (release s) -> woken s' = woken (release s) ->
  passwordHashWaiters s' = passwordHashWaiters (release s) ->
  (calls s' = delete id (calls s) \/
   exists w, calls s' = <[id := w]> (calls s) /\ is_hashing w = false /\ forall v, w <> AwaitSlot v) ->
  slots s'.
Proof.
  intros H Hwk Hh Hw Ha Hwk' Hwt Hc. pose proof (sl_count _ H) as H1. pose proof (sl_sum _ H) as H2.
  pose proof (sl_full _ H) as H3. rewrite Hwk in H2, H3. simpl in H2, H3.
  assert (Hact : activePasswordHashes (release s) = pred (activePasswordHashes s)).
  { unfold release. cbv zeta. cbn [passwordHashWaiters over]. by destruct (passwordHashWaiters s). }
  assert (Hline : woken (release s) ++ passwordHashWaiters (release s) = woken s ++ passwordHashWaiters s /\
    (passwordHashWaiters s = [] /\ woken (release s) = [] /\ passwordHashWaiters (release s) = [] \/
     passwordHashWaiters s <> [] /\ length (woken (release s)) = 1%nat)).
  { unfold release. cbv zeta. cbn [passwordHashWaiters over]. destruct (passwordHashWaiters s) as [|i l] eqn:Hl.
    - cbn [woken passwordHashWaiters over]. rewrite Hwk, Hl. split; [done|]. by left.
    - cbn [woken passwordHashWaiters over]. rewrite Hwk. split; [done|]. by right. }
  destruct Hline as [Hline Hcase].
  assert (Hpos : (size (hashers (calls s)) <> 0)%nat).
  { intros H0. pose proof (size_delete (calls s) id). lia. }
  apply (slots_move s s' id); rewrite ?Ha, ?Hwk', ?Hwt; try done.
  - unfold waits. destruct Hc as [->|(w & -> & _ & Hn)]; [by rewrite lookup_delete_eq|].
    rewrite lookup_insert_eq. destruct w; try done. by destruct (Hn w).
  - intros i Hi. destruct Hc as [->|(w & -> & _)]; [by rewrite lookup_delete_ne|by rewrite lookup_insert_ne].
  - rewrite Hact. destruct Hc as [->|(w & -> & Hn & _)].
    + pose proof (size_delete (calls s) id). lia.
    + pose proof (size_insert (calls s) id w) as Hx. rewrite Hn in Hx. lia.
  - rewrite Hact. destruct Hcase as [(_ & -> & _)|[_ ->]]; simpl; lia.
  - rewrite Hact. destruct Hcase as [(_ & _ & ->)|[Hne ->]]; [done|]. intros _. specialize (H3 Hne). lia.
Qed.

Lemma step_slots `{E : AccountEnv} e s : legal e s -> slots s -> slots (perform e s).
Proof.
  intros Hleg H. unfold legal in Hleg. destruct (woken s) as [|i rest] eqn:Hwk.
  2: { destruct Hleg as [ok ->]. assert (Hi : exists w, calls s !! i = Some (AwaitSlot w)).
       { apply (sl_line _ H). rewrite Hwk. by left. }
       destruct Hi as [w Hc]. cbn [perform]. unfold resume. rewrite Hc, Hwk, bool_decide_eq_true_2 by done.
       by apply slots_woken. }
  assert (Hnone : forall id, calls s !! id = None -> waits s id = false /\ hashes_at (calls s) id = 0%nat).
  { intros id Hc. unfold waits, hashes_at. by rewrite Hc. }
  assert (Hstore : forall id obj h, waits s id = false -> hashes_at (calls s) id = 0%nat -> slots (store_hash id obj h s)).
  { intros id obj h Hw Hh. unfold store_hash. destruct (heap s !! obj) as [r|]; [destruct (isTemporary r)|];
      apply (slots_quiet s _ id); try done; try (by left); right; eexists; by split_and!. }
  assert (Hacc : forall id obj t ip, waits s id = false -> hashes_at (calls s) id = 0%nat -> slots (accepted id obj t ip s)).
  { intros id obj t ip Hw Hh. unfold accepted, clearRoomPasswordFailures. destruct (negb conf_rate_limit);
      apply (slots_quiet s _ id); try done; right; eexists; by split_and!. }
  destruct e as [id obj t ip p|id obj p|id ok]; cbn [perform].
  - destruct (calls s !! id) eqn:Hc; [done|]. destruct (Hnone id Hc) as [Hw Hh]. unfold verify_request.
    destruct (truthy _); [|apply (slots_quiet s _ id); try done; by left].
    unfold consumeRoomPasswordAttempt. destruct (negb conf_rate_limit);
      apply (slots_quiet s _ id); try done; right; eexists; by split_and!.
  - destruct (calls s !! id) eqn:Hc; [done|]. destruct (Hnone id Hc) as [Hw Hh]. unfold set_request.
    destruct p; [by apply slots_enter|by apply Hstore].
  - unfold resume. destruct (calls s !! id) as [[obj t ip p retry|w|w h|obj t| |obj h]|] eqn:Hc; [| | | | | |done].
    + assert (Hw : waits s id = false) by (unfold waits; by rewrite Hc).
      assert (Hh : hashes_at (calls s) id = 0%nat) by (unfold hashes_at; by rewrite Hc).
      destruct (0 <? retry); [apply (slots_quiet s _ id); try done; by left|].
      unfold verifyRoomPassword. destruct (truthy _); [by apply slots_enter|by apply Hacc].
    + by rewrite Hwk.
    + assert (Hw : waits s id = false) by (unfold waits; by rewrite Hc).
      assert (Hh : hashes_at (calls s) id = 1%nat) by (unfold hashes_at; by rewrite Hc).
      assert (Hcr : calls (release s) = calls s).
      { unfold release. cbv zeta. by destruct (passwordHashWaiters _). }
      apply (slots_release id s); try done; unfold hashed; cbv zeta; destruct w as [obj t ip p|obj p];
        unfold accepted, clearRoomPasswordFailures, store_hash, at_, answer;
        repeat case_match; cbn [calls activePasswordHashes woken passwordHashWaiters over]; rewrite ?Hcr; try done;
        solve [by left | right; eexists; by split_and!].
    + apply (slots_quiet s _ id); try (unfold waits, hashes_at; by rewrite Hc);
        unfold grantRoomAccess; destruct (heap s !! obj); try done; right; eexists; by split_and!.
    + apply (slots_quiet s _ id); try (unfold waits, hashes_at; by rewrite Hc); try done. by left.
    + destruct ok; apply (slots_quiet s _ id); try (unfold waits, hashes_at; by rewrite Hc); try done; by left.
Qed.

(** Any run of legal steps, in any environments, from a state with nobody in argon2. *)
Inductive runs (s0 : Locks) : Locks -> Prop :=
| runs_start : runs s0 s0
| runs_step (E : AccountEnv) e s : runs s0 s -> legal e s -> runs s0 (perform (E := E) e s).

Definition idle s : Prop := calls s = ∅ /\ activePasswordHashes s = 0%nat /\ passwordHashWaiters s = [] /\ woken s = [].

(** However checks and changes of passwords overlap, at most two of them are in argon2, the
    counter is their number, and no slot is free while someone waits for one: once those woken
    have run, a call waits only if both slots are taken. *)
Theorem password_slots s0 s : idle s0 -> runs s0 s ->
  (size (hashers (calls s)) <= MAX_CONCURRENT_PASSWORD_HASHES)%nat /\
  size (hashers (calls s)) = activePasswordHashes s /\
  (woken s = [] -> (exists id w, calls s !! id = Some (AwaitSlot w)) ->
   activePasswordHashes s = MAX_CONCURRENT_PASSWORD_HASHES).
Proof.
  intros (Hc & Ha & Hw & Hwk) Hr. assert (H : slots s).
  { induction Hr as [|E e s Hr IH Hleg]; [|by apply step_slots].
    split; rewrite ?Hc, ?Ha, ?Hw, ?Hwk.
    - unfold hashers. by rewrite map_filter_empty.
    - simpl. lia.
    - done.
    - intros i. split; [by intros ?%elem_of_nil|]. intros [v Hv]. by rewrite lookup_empty in Hv.
    - apply NoDup_nil_2. }
  destruct H as [H1 H2 H3 H4 H5]. split_and!; [lia|done|].
  intros Hnil (id & w & Hcall). assert (Hin : id ∈ woken s ++ passwordHashWaiters s) by (apply H4; eauto).
  rewrite Hnil in *. simpl in *. rewrite Nat.add_0_r in H3. apply H3. intros H0. rewrite H0 in Hin. by apply elem_of_nil in Hin.
Qed.
End Slots.

(** ** At work *)

#[local] Existing Instance AccountsTheorems.counting.
#[local] Existing Instance AccountsTheorems.sample_platform.
#[local] Instance plain_digest : Digest := fun h => h.

Definition locked_room : Room := RoomSamples.sample_room <| isTemporary := true |> <| passwordHash := Some (AccountsTheorems.sample_hash "old") |>.
Definition locked : Locks := MkLocks {[0%nat := locked_room]} ∅ [] 0 [] [] ∅ [].
Definition run_at (l : list Event) (s : Locks) : Locks :=
  fold_left (fun s e => perform (E := AccountsTheorems.at_time 1000 "n") e s) l s.

Fixpoint all_legal (l : list Event) (s : Locks) : Prop :=
  match l with [] => True | e :: l => legal e s /\ all_legal l (perform (E := AccountsTheorems.at_time 1000 "n") e s) end.

Lemma runs_list l s0 s : runs s0 s -> all_legal l s -> runs s0 (run_at l s).
Proof. revert s. induction l as [|e l IH]; intros s Hr Hl; [done|]. destruct Hl. apply IH; [by apply runs_step|done]. Qed.

(** Three checks: two run, one waits, and takes the slot of the first that is done. *)
Definition three_checks : Locks :=
  run_at [Verify 0 0 (Some "a") "ip" "x"; Verify 1 0 (Some "b") "ip" "y"; Verify 2 0 (Some "c") "ip" "old";
          Resume 0 true; Resume 1 true; Resume 2 true] locked.

Example third_waits :
  passwordHashWaiters three_checks = [2%nat] /\ activePasswordHashes three_checks = 2%nat /\
  passwordHashWaiters (run_at [Resume 0 true; Resume 2 true] three_checks) = [] /\
  answers (run_at [Resume 0 true; Resume 2 true; Resume 2 true; Resume 2 true; Resume 2 true] three_checks)
    = [(0%nat, InvalidRoomPassword); (2%nat, Granted)].
Proof. by vm_compute. Qed.

(** The bound rests on the microtask: were a new check let in between the release of a slot and
    the turn of the one that was woken, three would run. *)
Example a_turn_between_would_break_it :
  activePasswordHashes (run_at [Verify 3 0 (Some "d") "ip" "z"; Resume 3 true; Resume 0 true] three_checks) = 1%nat /\
  activePasswordHashes (run_at [Verify 3 0 (Some "d") "ip" "z"; Resume 0 true; Resume 3 true; Resume 2 true] three_checks) = 3%nat.
Proof. by vm_compute. Qed.

(** A grant is kept under the hash the room has when the check is over, not under the one that
    was checked: who enters the old password while the owner changes it gets in for good. *)
Definition changed_meanwhile : Locks :=
  run_at [Verify 0 0 (Some "guest") "ip" "old"; Resume 0 true; SetPassword 1 0 (Some "new"); Resume 1 true;
          Resume 0 true; Resume 0 true; Resume 0 true] locked.

Example old_password_opens_the_new_lock :
  answers changed_meanwhile = [(1%nat, Granted); (0%nat, Granted)] /\
  match heap changed_meanwhile !! 0%nat with
  | Some r => passwordHash r = Some (AccountsTheorems.sample_hash "new") /\
              hasRoomAccess (E := AccountsTheorems.at_time 2000 "n") r (Some "guest") None changed_meanwhile = true
  | None => False
  end.
Proof. by vm_compute. Qed.

Lemma locked_idle : idle locked.
Proof. done. Qed.

Lemma password_slots_witness :
  (size (hashers (calls three_checks)) <= MAX_CONCURRENT_PASSWORD_HASHES)%nat /\
  size (hashers (calls three_checks)) = activePasswordHashes three_checks /\
  (woken three_checks = [] -> (exists id w, calls three_checks !! id = Some (AwaitSlot w)) ->
   activePasswordHashes three_checks = MAX_CONCURRENT_PASSWORD_HASHES).
Proof.
  assert (Hr : runs locked three_checks).
  { apply runs_list; [apply runs_start|by vm_compute]. }
  exact (password_slots locked three_checks locked_idle Hr).
Defined.
