(* ===== verification/InfoExtractor.v ===== *)
(** * InfoExtractor: from what a user types to videos

    [server/infoextractor.ts], the cache of video metadata under it
    ([server/storage/cachedvideo.ts]), the base class of the adapters
    ([server/serviceadapter.ts]), [server/mime.ts] and the preview route of
    [server/api/data.ts].  What an adapter does is its own: it is a record of functions.  A call
    is handled in one piece, the cache writes it does not await included; the groups of
    [Promise.all] are taken in turn, and of several failing ones the first counts. *)

From Stdlib Require Import Ascii.
From stdpp Require Import gmap.
From S2P Require Import Prelude Types.
From S2P Require RoomRequests.

Module Extract.
Import RoomRequests(trim).

(** ** Media types *)

Definition is_mime_char (c : ascii) : bool :=
  let n := nat_of_ascii c in
  (((97 <=? n) && (n <=? 122)) || ((48 <=? n) && (n <=? 57)) || (n =? 45))%nat.

Fixpoint all_chars (p : ascii -> bool) (s : string) : bool :=
  match s with EmptyString => true | String c s' => p c && all_chars p s' end.

Fixpoint strip (p s : string) : option string :=
  match p, s with
  | EmptyString, _ => Some s
  | String a p', String b s' => if bool_decide (a = b) then strip p' s' else None
  | _, _ => None
  end.

(** [/^type\/(?!a)(?!b)...[a-z0-9-]+$/] *)
Definition matches_type (type_ : string) (excluded : list string) (mime : string) : bool :=
  match strip type_ mime with
  | Some rest => negb (bool_decide (rest = ""%string)) && all_chars is_mime_char rest
                 && forallb (fun x => negb (String.prefix x rest)) excluded
  | None => false
  end.

Definition isSupportedMimeType (mime : string) : bool :=
  if bool_decide (mime = "application/x-mpegURL"%string) || bool_decide (mime = "application/dash+xml"%string) then true
  else if matches_type "video/" ["x-flv"; "x-matroska"; "x-ms-wmv"; "x-msvideo"]%string mime then true
  else matches_type "audio/" ["x-aiff"; "x-wav"; "aac"; "flac"]%string mime.

(** ** Metadata *)

(** The columns of a cached video that are metadata, in their order. *)
Inductive Field := FTitle | FDescription | FThumbnail | FLength | FMime.
#[global] Instance Field_eq : EqDecision Field.
Proof. solve_decision. Defined.

Definition getVideoInfoFields (service : string) : list Field :=
  [FTitle]
  ++ (if bool_decide (service = "googledrive"%string) then [] else [FDescription])
  ++ [FThumbnail; FLength]
  ++ (if bool_decide (service = "youtube"%string) || bool_decide (service = "vimeo"%string) then [] else [FMime]).

Definition text_set (o : option string) : bool :=
  match o with Some s => negb (bool_decide (s = ""%string)) | None => false end.
Definition number_set (o : option num) : bool :=
  match o with Some (Fin q) => negb (Qeq_bool q 0) | Some (Inf _) => true | _ => false end.

(** [!!video[p]] *)
Definition has_field (v : QueueItem) (p : Field) : bool :=
  match p with
  | FTitle => text_set (qi_title v)
  | FDescription => text_set (qi_description v)
  | FThumbnail => text_set (qi_thumbnail v)
  | FLength => number_set (qi_length v)
  | FMime => text_set (qi_mime v)
  end.

Definition missing_info (v : QueueItem) : list Field :=
  List.filter (fun p => negb (has_field v p)) (getVideoInfoFields (qi_service v)).

Definition over {A} (set : option A -> bool) (a b : option A) : option A := if set b then b else a.
Definition present {A} (o : option A) : bool := match o with Some _ => true | None => false end.

(** [Object.assign(a, _.pickBy(b, x => !!x))] *)
Definition mergeVideo (a b : QueueItem) : QueueItem :=
  MkQueueItem
    (if bool_decide (qi_service b = ""%string) then qi_service a else qi_service b)
    (if bool_decide (qi_id b = ""%string) then qi_id a else qi_id b)
    (over text_set (qi_title a) (qi_title b)) (over text_set (qi_description a) (qi_description b))
    (over number_set (qi_length a) (qi_length b)) (qi_isLive a || qi_isLive b)
    (over text_set (qi_thumbnail a) (qi_thumbnail b)) (over text_set (qi_mime a) (qi_mime b))
    (over (fun o => match o with Some n => negb (n =? 0) | None => false end) (qi_width a) (qi_width b))
    (over (fun o => match o with Some n => negb (n =? 0) | None => false end) (qi_height a) (qi_height b))
    (over (fun o => bool_decide (o = Some true)) (qi_cors a) (qi_cors b))
    (over present (qi_mediaAccess a) (qi_mediaAccess b)) (qi_highlight a || qi_highlight b)
    (over text_set (qi_hls_url a) (qi_hls_url b)) (over text_set (qi_dash_url a) (qi_dash_url b))
    (over text_set (qi_src_url a) (qi_src_url b)) (over text_set (qi_subtitleUrl a) (qi_subtitleUrl b))
    (over (fun o => match o with Some q => negb (Qeq_bool q 0) | None => false end) (qi_startAt a) (qi_startAt b))
    (over number_set (qi_endAt a) (qi_endAt b)).

(** ** Adapters *)

(** What is thrown. *)
Inductive exn :=
  | UnknownService | UnsupportedService | UnsupportedMimeType | OutOfQuota
  | InvalidAddPreviewInput | FeatureDisabled | BadApiArgument | AdapterError (name : string).

Definition res (A : Type) : Type := A + exn.

(** What a link to a collection resolves to: videos and further links, or videos and one that is
    pointed out. *)
Inductive LinkResult :=
  | Entries (l : list (QueueItem + string))
  | Bulk (videos : list QueueItem) (highlighted : option QueueItem).

(** An id the cache gave back may be missing. *)
Record VideoRequest := MkRequest { req_id : option string; req_missing : list Field }.

Record ServiceAdapter := MkAdapter {
  serviceId : string;
  isCacheSafe : bool;
  canHandleURL : string -> bool;
  isCollectionURL : string -> res bool;
  resolveShortLink : string -> res string;
  getVideoId : string -> res string;
  fetchVideoInfo : option string -> list Field -> res QueueItem;
  fetchManyVideoInfo : list VideoRequest -> res (list QueueItem);
  resolveURL : string -> res LinkResult;
  adapter_search : string -> res (list QueueItem);
  postProcessVideo : QueueItem -> QueueItem;
}.

(** The base class's [fetchManyVideoInfo]: one by one, failures skipped. *)
Definition fetch_each (fetch : option string -> list Field -> res QueueItem) (requests : list VideoRequest)
    : res (list QueueItem) :=
  inl (omap (fun r => match fetch (req_id r) (req_missing r) with inl v => Some v | inr _ => None end) requests).

(** ** The cache *)

(** A row of the table; its service and id are the key. *)
Record Row := MkRow {
  row_title : option string;
  row_description : option string;
  row_thumbnail : option string;
  row_length : option num;
  row_mime : option string;
  createdAt : Q;
  updatedAt : Q;
}.

(** Key and row, as a query returns it. *)
Definition Found : Type := (string * string) * Row.

(** The adapters in use, the settings, [new URL(s).host], and the order in which the database
    returns rows. *)
Class ExtractEnv := {
  adapters : list ServiceAdapter;
  isURL : string -> bool;
  ENABLE_SEARCH : bool;
  ADD_PREVIEW_SEARCH_MIN_LENGTH : nat;
  db_order : list Found -> list Found;
}.

(** [initExtractor]: the adapters pushed for the enabled services, in the order in which a link is
    offered to them; two of them need a key of their own. *)
Definition initExtractor (enabled : list string) (youtube_key google_drive_key : string) : list string :=
  List.filter (fun service =>
      bool_decide (service ∈ enabled)
      && negb (bool_decide (service = "youtube"%string) && bool_decide (youtube_key = ""%string))
      && negb (bool_decide (service = "googledrive"%string) && bool_decide (google_drive_key = ""%string)))
    ["youtube"; "vimeo"; "googledrive"; "reddit"; "tubi"; "peertube"; "direct"; "hls"; "dash"; "pluto"; "invidious";
     "odysee"; "bilibili"]%string.

(** "Does not guarantee order". *)
Class ExtractLaws (E : ExtractEnv) : Prop := { db_order_perm : forall l, db_order l ≡ₚ l }.

Definition day : Q := 86400000.

(** [today.diff(t, "days") <= n]: whole days, rounded towards zero. *)
Definition days_at_most (n : Z) (today t : Q) : bool := Qlt_bool (today - t) (inject_Z (n + 1) * day).

Definition kept {A} (set : option A -> bool) (o : option A) : option A := if set o then o else None.

Definition filtered (key : string * string) (valid : bool) (r : Row) : QueueItem :=
  let when {A} (set : option A -> bool) (o : option A) := if valid then kept set o else None in
  MkQueueItem key.1 key.2 (when text_set (row_title r)) (when text_set (row_description r))
    (when number_set (row_length r)) false (when text_set (row_thumbnail r)) (kept text_set (row_mime r))
    None None None None false None None None None None None.

Definition isCachedInfoValid (now : Q) (r : Row) : bool :=
  let intervalDays := if days_at_most 7 now (createdAt r) then 7 else 30 in
  days_at_most intervalDays now (updatedAt r).

Definition filterVideoInfo (now : Q) (f : Found) : QueueItem := filtered f.1 (isCachedInfoValid now f.2) f.2.

(** [toDbVideo]; the dates are the database's. *)
Definition toDbVideo (now : Q) (v : QueueItem) : Row :=
  MkRow (qi_title v) (qi_description v) (qi_thumbnail v) (qi_length v) (qi_mime v) now now.

Definition key_of (v : QueueItem) : string * string := (qi_service v, qi_id v).

(** The search results kept in Redis: what is stored, unreadable or not, and until when. *)
Definition SearchCache : Type := gmap string (option (list QueueItem) * Q).

Record World := MkWorld {
  now : Q;
  db_up : bool;
  cache : gmap (string * string) Row;
  searches : SearchCache;
  asked : list (string * list VideoRequest);   (* what was asked of the adapters, the latest first *)
}.
#[global] Instance eta_World : Eta World := fun w => MkWorld (now w) (db_up w) (cache w) (searches w) (asked w).

(** ** Effects: the world and exceptions *)

Definition XM (A : Type) : Type := World -> res A * World.
#[global] Instance XM_ret : MRet XM := fun _ a w => (inl a, w).
#[global] Instance XM_bind : MBind XM := fun _ _ k m w =>
  match m w with (inl a, w') => k a w' | (inr e, w') => (inr e, w') end.
Definition throw {A} (e : exn) : XM A := fun w => (inr e, w).
Definition get : XM World := fun w => (inl w, w).
Definition modify (f : World -> World) : XM unit := fun w => (inl tt, f w).
Definition lift {A} (r : res A) : XM A := fun w => (r, w).
(** [try { m } catch (e) { h e }] *)
Definition catch {A} (m : XM A) (h : exn -> XM A) : XM A := fun w =>
  match m w with (inl a, w') => (inl a, w') | (inr e, w') => h e w' end.

(** *** Reading the cache *)

Definition storage_getVideoInfo (service id : string) : XM QueueItem :=
  w ← get;
  mret (if db_up w then
          match cache w !! (service, id) with
          | Some r => filterVideoInfo (now w) ((service, id), r)
          | None => bare_video service id
          end
        else bare_video service id).

(** What [foundVideos] holds: rows, and objects of the request that were appended. *)
Inductive Source := Stored (f : Found) | Appended (v : QueueItem).

(** [_.find(foundVideos, video)]: every property the video has must be there and equal; a row has
    the columns only. *)
Definition agrees {A} `{EqDecision A} (asked found : option A) : bool :=
  match asked with Some _ => bool_decide (asked = found) | None => true end.
Definition agrees_num (asked found : option num) : bool :=
  match asked, found with
  | None, _ => true
  | Some (Fin a), Some (Fin b) => Qeq_bool a b
  | Some NaN, Some NaN => true
  | Some (Inf a), Some (Inf b) => bool_decide (a = b)
  | _, _ => false
  end.
Definition agrees_Q (asked found : option Q) : bool :=
  match asked, found with None, _ => true | Some a, Some b => Qeq_bool a b | _, _ => false end.

(** A row, seen as the object it is compared with. *)
Definition row_object (f : Found) : QueueItem :=
  MkQueueItem f.1.1 f.1.2 (row_title f.2) (row_description f.2) (row_length f.2) false (row_thumbnail f.2)
    (row_mime f.2) None None None None false None None None None None None.
Definition source_object (x : Source) : QueueItem := match x with Stored f => row_object f | Appended v => v end.

Definition object_matches (v u : QueueItem) : bool :=
  bool_decide (qi_service v = qi_service u) && bool_decide (qi_id v = qi_id u)
  && agrees (qi_title v) (qi_title u) && agrees (qi_description v) (qi_description u)
  && agrees_num (qi_length v) (qi_length u) && (negb (qi_isLive v) || qi_isLive u)
  && agrees (qi_thumbnail v) (qi_thumbnail u) && agrees (qi_mime v) (qi_mime u)
  && agrees (qi_width v) (qi_width u) && agrees (qi_height v) (qi_height u) && agrees (qi_cors v) (qi_cors u)
  && agrees (qi_mediaAccess v) (qi_mediaAccess u) && (negb (qi_highlight v) || qi_highlight u)
  && agrees (qi_hls_url v) (qi_hls_url u) && agrees (qi_dash_url v) (qi_dash_url u)
  && agrees (qi_src_url v) (qi_src_url u) && agrees (qi_subtitleUrl v) (qi_subtitleUrl u)
  && agrees_Q (qi_startAt v) (qi_startAt u) && agrees_num (qi_endAt v) (qi_endAt u).

(** An appended object has no dates, and [dayjs(undefined)] is now. *)
Definition filter_source (now : Q) (x : Source) : QueueItem :=
  match x with
  | Stored f => filterVideoInfo now f
  | Appended v => filtered (key_of v) true (toDbVideo now v)
  end.

Section Extractor.
Context `{E : ExtractEnv}.

(** The rows whose key is asked for. *)
Definition findAll (keys : list (string * string)) (rows : gmap (string * string) Row) : list Found :=
  db_order (map_to_list (filter (fun kv => kv.1 ∈ keys) rows)).

(** What is not among the rows is appended as it was asked for, and can be found in its turn. *)
Fixpoint append_missing (videos : list QueueItem) (found : list Source) : list Source :=
  match videos with
  | [] => found
  | v :: rest =>
      append_missing rest
        (if existsb (fun x => object_matches v (source_object x)) found then found else found ++ [Appended v])
  end.

(** A video with its id, or, after a failure, with the id gone: the catch returns objects whose
    [id] was renamed to [serviceId]. *)
Definition storage_getManyVideoInfo (videos : list QueueItem) : XM (list (option string * QueueItem)) :=
  w ← get;
  mret (if db_up w then
          let rows := map Stored (findAll (map key_of videos) (cache w)) in
          let found := if bool_decide (length videos = length rows) then rows else append_missing videos rows in
          map (fun x => let v := filter_source (now w) x in (Some (qi_id v), v)) found
        else map (fun v => (None, v)) videos).

(** *** Writing it *)

Definition fresher {A} (old new : option A) : option A := match new with Some _ => new | None => old end.

(** "Omitted properties will not be overwritten." *)
Definition upsert (now : Q) (v : QueueItem) (rows : gmap (string * string) Row) : gmap (string * string) Row :=
  match rows !! key_of v with
  | Some r =>
      <[key_of v := MkRow (fresher (row_title r) (qi_title v)) (fresher (row_description r) (qi_description v))
                      (fresher (row_thumbnail r) (qi_thumbnail v)) (fresher (row_length r) (qi_length v))
                      (fresher (row_mime r) (qi_mime v)) (createdAt r) now]> rows
  | None => <[key_of v := toDbVideo now v]> rows
  end.

Definition updateVideoInfo (v : QueueItem) : XM unit :=
  modify (fun w =>
    if bool_decide (qi_service v = ""%string) || bool_decide (qi_id v = ""%string) || negb (db_up w) then w
    else w <| cache ::= upsert (now w) v |>).

(** Rows are created all together or, when two have one key, not at all. *)
Definition bulkCreate (now : Q) (l : list QueueItem) (rows : gmap (string * string) Row)
    : gmap (string * string) Row :=
  if bool_decide (NoDup (map key_of l)) then fold_left (fun m v => <[key_of v := toDbVideo now v]> m) l rows else rows.

Definition updateManyVideoInfo (videos : list QueueItem) : XM unit :=
  modify (fun w =>
    if db_up w then
      let exists_ v := present (cache w !! key_of v) in
      let toUpdate := List.filter exists_ videos in
      let toCreate := List.filter (fun v => negb (exists_ v)) videos in
      let write m v := if bool_decide (qi_service v = ""%string) || bool_decide (qi_id v = ""%string) then m
                       else upsert (now w) v m in
      w <| cache ::= fun m => bulkCreate (now w) toCreate (fold_left write toUpdate m) |>
    else w).

(** ** Videos by id *)

Definition getServiceAdapter (service : string) : XM ServiceAdapter :=
  match List.find (fun a => bool_decide (serviceId a = service)) adapters with
  | Some a => mret a
  | None => throw UnknownService
  end.

Definition getServiceAdapterForURL (url : string) : XM ServiceAdapter :=
  match List.find (fun a => canHandleURL a url) adapters with
  | Some a => mret a
  | None => throw UnsupportedService
  end.

Definition getCachedVideo (service videoId : string) : XM (QueueItem * list Field) :=
  video ← storage_getVideoInfo service videoId;
  match qi_mime video with
  | Some m => if negb (bool_decide (m = ""%string)) && negb (isSupportedMimeType m) then throw UnsupportedMimeType
              else mret (video, missing_info video)
  | None => mret (video, missing_info video)
  end.

Definition note_request (service : string) (requests : list VideoRequest) : XM unit :=
  modify (fun w => w <| asked ::= cons (service, requests) |>).

Definition fetched_one (adapter : ServiceAdapter) (cachedVideo : QueueItem) (missing : list Field) : XM QueueItem :=
  note_request (serviceId adapter) [MkRequest (Some (qi_id cachedVideo)) missing];;
  fetchedVideo ← lift (fetchVideoInfo adapter (Some (qi_id cachedVideo)) missing);
  if bool_decide (qi_service fetchedVideo = qi_service cachedVideo) then
    let video := mergeVideo cachedVideo fetchedVideo in
    (if isCacheSafe adapter then updateVideoInfo video else mret tt);; mret video
  else
    newadapter ← getServiceAdapter (qi_service fetchedVideo);
    (if isCacheSafe newadapter then updateVideoInfo fetchedVideo else mret tt);; mret fetchedVideo.

Definition getVideoInfo (service videoId : string) : XM QueueItem :=
  adapter ← getServiceAdapter service;
  '(cachedVideo, missingInfo) ← getCachedVideo service videoId;
  if bool_decide (missingInfo = []) then mret (postProcessVideo adapter cachedVideo)
  else catch (fetched_one adapter cachedVideo missingInfo) (fun e =>
    match e with
    | OutOfQuota =>
        if (length missingInfo <? length (getVideoInfoFields (qi_service cachedVideo)))%nat
        then mret cachedVideo else throw e
    | _ => throw e
    end).

(** [_.groupBy(videoIds, "service")] *)
Definition groups (videoIds : list QueueItem) : list (string * list QueueItem) :=
  fold_left (fun m v => map_set (qi_service v) (default [] (map_get (qi_service v) m) ++ [v]) m) videoIds [].

Definition requests_of (cached : list (option string * QueueItem)) : list VideoRequest :=
  List.filter (fun r => negb (bool_decide (req_missing r = [])))
    (map (fun c => MkRequest c.1 (missing_info c.2)) cached).

Definition merge_fetched (fetched : list QueueItem) (c : option string * QueueItem) : option string * QueueItem :=
  match List.find (fun v => bool_decide (Some (qi_id v) = c.1)) fetched with
  | Some f => (Some (qi_id f), mergeVideo c.2 f)
  | None => c
  end.

Definition group_info (service : string) (serviceVideos : list QueueItem) : XM (list (option string * QueueItem)) :=
  adapter ← getServiceAdapter service;
  cachedVideos ← (if isCacheSafe adapter then storage_getManyVideoInfo serviceVideos
                  else mret (map (fun v => (Some (qi_id v), v)) serviceVideos));
  let requests := requests_of cachedVideos in
  if bool_decide (requests = []) && isCacheSafe adapter then mret cachedVideos
  else
    note_request (serviceId adapter) requests;;
    fetchedVideos ← lift (fetchManyVideoInfo adapter requests);
    mret (map (merge_fetched fetchedVideos) cachedVideos).

(** [Promise.all]: every group runs; the whole fails when one does. *)
Fixpoint all_groups (l : list (string * list QueueItem)) : XM (list (option string * QueueItem)) :=
  match l with
  | [] => mret []
  | (service, videos) :: rest => fun w =>
      let '(r1, w1) := group_info service videos w in
      let '(r2, w2) := all_groups rest w1 in
      (match r1, r2 with inl a, inl b => inl (a ++ b) | inr e, _ => inr e | _, inr e => inr e end, w2)
  end.

(** [flattened.find(v => v.id === video.id)] *)
Definition pick_result (flattened : list (option string * QueueItem)) (v : QueueItem) : option QueueItem :=
  option_map snd (List.find (fun f => bool_decide (f.1 = Some (qi_id v))) flattened).

(** The adapters of a list of results: [getServiceAdapter] throws for one that is not in use. *)
Fixpoint cache_safe_ones (l : list QueueItem) : XM (list QueueItem) :=
  match l with
  | [] => mret []
  | v :: rest =>
      adapter ← getServiceAdapter (qi_service v);
      others ← cache_safe_ones rest;
      mret (if isCacheSafe adapter then v :: others else others)
  end.

Definition getManyVideoInfo (videoIds : list QueueItem) : XM (list QueueItem) :=
  flattened ← all_groups (groups videoIds);
  let result := omap (pick_result flattened) videoIds in
  safe ← cache_safe_ones result;
  updateManyVideoInfo safe;;
  mret result.

(** ** Queries *)

Definition MAX_PREVIEW_LINES : nat := 50.

Record AddPreview := MkPreview { videos : list QueueItem; cacheDuration : Z; highlighted : option QueueItem }.

(** [query.split("\n")] *)
Fixpoint split_lines (acc s : string) : list string :=
  match s with
  | EmptyString => [acc]
  | String c s' => if bool_decide (c = "010"%char) then acc :: split_lines "" s'
                   else split_lines (acc ++ String c EmptyString) s'
  end.

Fixpoint includes_newline (s : string) : bool :=
  match s with EmptyString => false | String c s' => bool_decide (c = "010"%char) || includes_newline s' end.

Definition adapter_for (forceAdapter : option string) (url : string) : XM ServiceAdapter :=
  match forceAdapter with
  | Some a => if bool_decide (a = ""%string) then getServiceAdapterForURL url else getServiceAdapter a
  | None => getServiceAdapterForURL url
  end.

(** The id behind a link. *)
Definition id_of_link (adapter : ServiceAdapter) (url : string) : XM QueueItem :=
  canonical ← lift (resolveShortLink adapter url);
  id ← lift (getVideoId adapter canonical);
  mret (bare_video (serviceId adapter) id).

Fixpoint resolve_lines (forceAdapter : option string) (lines : list string) : XM (list QueueItem) :=
  match lines with
  | [] => mret []
  | line :: rest =>
      adapter ← adapter_for forceAdapter line;
      v ← id_of_link adapter line;
      others ← resolve_lines forceAdapter rest;
      mret (v :: others)
  end.

(** A link inside a collection; one that cannot be resolved is skipped. *)
Definition resolve_link (url : string) : XM (list QueueItem) :=
  catch (adapter ← getServiceAdapterForURL url;
         collection ← lift (isCollectionURL adapter url);
         if collection : bool then mret []
         else v ← id_of_link adapter url; mret [v])
    (fun _ => mret []).

Fixpoint resolve_entries (l : list (QueueItem + string)) : XM (list QueueItem) :=
  match l with
  | [] => mret []
  | inl v :: rest => others ← resolve_entries rest; mret (v :: others)
  | inr url :: rest => found ← resolve_link url; others ← resolve_entries rest; mret (found ++ others)
  end.

Definition search_key (service query : string) : string := ("search:" ++ service ++ ":" ++ query)%string.

(** A value that cannot be parsed is deleted. *)
Definition getCachedSearchResults (service query : string) : XM (list QueueItem) :=
  w ← get;
  match searches w !! search_key service query with
  | Some (value, until) =>
      if Qlt_bool (now w) until then
        match value with
        | Some l => mret l
        | None => modify (fun w => w <| searches ::= delete (search_key service query) |>);; mret []
        end
      else mret []
  | None => mret []
  end.

Definition cacheSearchResults (service query : string) (results : list QueueItem) : XM unit :=
  modify (fun w => w <| searches ::= <[search_key service query := (Some results, now w + day)%Q]> |>).

Definition searchVideos (service query : string) : XM (list QueueItem) :=
  if ENABLE_SEARCH then
    cachedResults ← getCachedSearchResults service query;
    if negb (bool_decide (length cachedResults = 0)%nat) then getManyVideoInfo cachedResults
    else
      adapter ← getServiceAdapter service;
      searchResults ← lift (adapter_search adapter query);
      completeResults ← getManyVideoInfo searchResults;
      cacheSearchResults service query searchResults;;
      mret completeResults
  else throw FeatureDisabled.

Definition resolve_collection (adapter : ServiceAdapter) (query : string) (cacheDuration : Z) : XM AddPreview :=
  fetchResults ← lift (resolveURL adapter query);
  match fetchResults with
  | Entries l =>
      resolvedResults ← resolve_entries l;
      completeResults ← getManyVideoInfo resolvedResults;
      mret (MkPreview completeResults cacheDuration None)
  | Bulk vs h =>
      completeResults ← getManyVideoInfo vs;
      highlighted ← match h with
                    | Some v => video ← getVideoInfo (qi_service v) (qi_id v); mret (Some video)
                    | None => mret None
                    end;
      mret (MkPreview completeResults cacheDuration highlighted)
  end.

Definition hour : Z := 3600.
Definition week : Z := 604800.

Definition resolveVideoQuery (query searchService : string) (forceAdapter : option string) : XM AddPreview :=
  if includes_newline query then
    let lines := List.filter isURL (split_lines "" (trim query)) in
    if (MAX_PREVIEW_LINES <? length lines)%nat then throw BadApiArgument
    else
      videoIds ← resolve_lines forceAdapter lines;
      results ← getManyVideoInfo videoIds;
      mret (MkPreview results hour None)
  else if isURL query then
    adapter ← adapter_for forceAdapter query;
    let cacheDuration := if isCacheSafe adapter then week else hour in
    collection ← lift (isCollectionURL adapter query);
    if collection : bool then resolve_collection adapter query cacheDuration
    else
      v ← id_of_link adapter query;
      video ← getVideoInfo (serviceId adapter) (qi_id v);
      mret (MkPreview [video] cacheDuration None)
  else if (String.length query <? ADD_PREVIEW_SEARCH_MIN_LENGTH)%nat then throw InvalidAddPreviewInput
  else
    searchResults ← searchVideos searchService query;
    mret (MkPreview searchResults week None).

(** ** The preview route *)

(** What a request is charged before it is carried out. *)
Definition preview_points (input : string) : nat :=
  if includes_newline input
  then 5 * Nat.max 1 (length (List.filter (fun line => isURL (trim line)) (split_lines "" input)))
  else if isURL input then 5 else 75.

Definition exn_name (e : exn) : string :=
  match e with
  | UnknownService => "OttException"
  | UnsupportedService => "UnsupportedServiceException"
  | UnsupportedMimeType => "UnsupportedMimeTypeException"
  | OutOfQuota => "OutOfQuotaException"
  | InvalidAddPreviewInput => "InvalidAddPreviewInputException"
  | FeatureDisabled => "FeatureDisabledException"
  | BadApiArgument => "BadApiArgumentException"
  | AdapterError name => name
  end.

(** The errors that are told to the client. *)
Definition client_errors : list string :=
  ["UnsupportedServiceException"; "InvalidAddPreviewInputException"; "OutOfQuotaException"; "InvalidVideoIdException";
   "FeatureDisabledException"; "UnsupportedMimeTypeException"; "LocalFileException"; "MissingMetadataException";
   "UnsupportedVideoType"; "UpstreamInvidiousException"; "VideoNotFoundException"; "FfprobeTimeoutError";
   "FfprobeError"; "M3u8ParseError"; "OdyseeUnavailableVideo"; "OttException"]%string.

Inductive PreviewAnswer :=
  | Preview (p : AddPreview)
  | FileMissing
  | Refused (status : Z) (name : string).

(** [mediaFileStatus] of a link; [None] when nothing could be learnt. *)
Definition unavailable (verify : bool) (status : option Z) : bool :=
  match status with
  | None => verify
  | Some s => if verify then (s <? 200) || (400 <=? s) else (s =? 404) || (s =? 410)
  end.

Definition addPreview (mediaFileStatus : string -> option Z) (provider input : string) (adapter : option string)
    (verify : bool) (w : World) : PreviewAnswer * World :=
  if bool_decide (trim input = ""%string) then (Refused 400 "BadApiArgumentException", w)
  else
    let '(r, w') := resolveVideoQuery (trim input) provider adapter w in
    (match r with
     | inl p =>
         match videos p with
         | [v] => if bool_decide (qi_service v = "direct"%string) && unavailable verify (mediaFileStatus (qi_id v))
                  then FileMissing else Preview p
         | _ => Preview p
         end
     | inr e => if bool_decide (exn_name e ∈ client_errors) then Refused 400 (exn_name e) else Refused 500 "Unknown"
     end, w').
End Extractor.

End Extract.
