(* ===== verification/InfoExtractorTheorems.v ===== *)
(** * InfoExtractorTheorems: what the extractor answers

    A list of ids is answered in its order, one video each, as long as no two services share an
    id; what was fetched once is served from the cache for a week without asking again; what is
    served without asking is complete and recent; and the links of one request are bounded and
    paid for.  The examples at the end show where this stops. *)

From Stdlib Require Import Ascii Lqa.
From stdpp Require Import gmap.
From S2P Require Import Prelude Types.
From S2P Require RoomRequests.
From S2P Require Import InfoExtractor.
Import RoomRequests(trim) Extract.

(** ** Keys are kept *)

Definition keyed (f : option string * QueueItem) : Prop := f.1 = Some (qi_id f.2).

Lemma mergeVideo_key a b :
  qi_service b = qi_service a -> qi_id b = qi_id a -> key_of (mergeVideo a b) = key_of a.
Proof. intros Hs Hi. unfold key_of. simpl. rewrite Hs, Hi. by repeat case_bool_decide. Qed.

Lemma merge_fetched_key s fetched c :
  keyed c -> qi_service c.2 = s -> Forall (fun v => qi_service v = s) fetched ->
  keyed (merge_fetched fetched c) /\ key_of (merge_fetched fetched c).2 = key_of c.2.
Proof.
  intros Hk Hs Hf. unfold merge_fetched. destruct (List.find _ _) as [f|] eqn:E; [|done].
  apply List.find_some in E as [Hin E]. apply bool_decide_eq_true in E. unfold keyed in *.
  rewrite Hk in E. injection E as E. rewrite Forall_forall in Hf.
  assert (Hfs : qi_service f = s) by (apply Hf; by apply list_elem_of_In).
  assert (Hm : key_of (mergeVideo c.2 f) = key_of c.2) by (apply mergeVideo_key; congruence).
  split; [|exact Hm]. simpl. unfold key_of in Hm. simpl in Hm. rewrite E. by destruct (bool_decide (qi_id c.2 = ""%string)).
Qed.

Lemma filter_source_key now x : key_of (filter_source now x) = key_of (source_object x).
Proof. by destruct x as [[[s i] r]|v]. Qed.

Lemma object_matches_key v u : object_matches v u = true -> key_of v = key_of u.
Proof.
  unfold object_matches. rewrite !andb_true_iff. intros H.
  repeat match goal with H : _ /\ _ |- _ => destruct H end.
  repeat match goal with H : bool_decide _ = true |- _ => apply bool_decide_eq_true in H end.
  unfold key_of. congruence.
Qed.

Section Lists.
Context `{E : ExtractEnv} `{L : !ExtractLaws E}.

(** ** What the cache gives for a list *)

Lemma findAll_spec keys rows :
  NoDup (findAll keys rows).*1 /\ (forall f, f ∈ findAll keys rows <-> rows !! f.1 = Some f.2 /\ f.1 ∈ keys).
Proof.
  unfold findAll. set (m := filter _ rows). split.
  - rewrite (fmap_Permutation fst _ _ (db_order_perm (map_to_list m))). apply NoDup_fst_map_to_list.
  - intros [k r]. rewrite (db_order_perm (map_to_list m)), elem_of_map_to_list. unfold m.
    rewrite map_lookup_filter_Some. done.
Qed.

Lemma append_missing_spec vs : forall found,
  (forall x, x ∈ append_missing vs found -> x ∈ found \/ exists v, v ∈ vs /\ x = Appended v)
  /\ (forall x, x ∈ found -> x ∈ append_missing vs found)
  /\ (forall v, v ∈ vs -> exists x, x ∈ append_missing vs found /\ key_of (source_object x) = key_of v).
Proof.
  induction vs as [|v vs IH]; intros found; simpl; [repeat split; [by left|done|set_solver]|].
  set (found' := if existsb _ found then _ else _). destruct (IH found') as (H1 & H2 & H3). repeat split.
  - intros x Hx. destruct (H1 x Hx) as [Hf|(v' & Hv & ->)]; [|right; exists v'; set_solver].
    unfold found' in Hf. destruct (existsb _ _); [by left|].
    apply elem_of_app in Hf as [Hf|Hf]; [by left|right]. apply list_elem_of_singleton in Hf. exists v. set_solver.
  - intros x Hx. apply H2. unfold found'. destruct (existsb _ _); [done|]. apply elem_of_app. by left.
  - intros v' [->|Hv]%elem_of_cons; [|by apply H3].
    assert (Hx : exists x, x ∈ found' /\ key_of (source_object x) = key_of v).
    { unfold found'. destruct (existsb _ _) eqn:Ex.
      - apply existsb_exists in Ex as (x & Hx & Hm). exists x. split; [by apply list_elem_of_In|].
        symmetry. by apply object_matches_key.
      - exists (Appended v). split; [apply elem_of_app; right; by apply list_elem_of_singleton|done]. }
    destruct Hx as (x & Hx & Hk). exists x. split; [by apply H2|done].
Qed.

(** The results of a group: keyed, of the keys asked for, and all of them. *)
Definition answers (vs : list QueueItem) (l : list (option string * QueueItem)) : Prop :=
  (forall f, f ∈ l -> keyed f /\ key_of f.2 ∈ map key_of vs)
  /\ (forall v, v ∈ vs -> exists f, f ∈ l /\ key_of f.2 = key_of v).

Lemma cached_answers vs w :
  db_up w = true ->
  exists l, storage_getManyVideoInfo vs w = (inl l, w) /\ answers vs l.
Proof.
  intros Hup. eexists. split; [reflexivity|]. rewrite Hup.
  set (rows := map Stored (findAll _ _)). destruct (findAll_spec (map key_of vs) (cache w)) as [Hnd Hin].
  set (found := if bool_decide (length vs = length rows) then rows else append_missing vs rows).
  assert (Hrows : forall x, x ∈ rows -> key_of (source_object x) ∈ map key_of vs).
  { intros x Hx. apply (list_elem_of_fmap_1 Stored) in Hx as ([[s i] r] & -> & Hf). apply Hin in Hf as [_ Hf]. exact Hf. }
  assert (H1 : forall x, x ∈ found -> key_of (source_object x) ∈ map key_of vs).
  { intros x Hx. unfold found in Hx. case_bool_decide; [by apply Hrows|].
    destruct (append_missing_spec vs rows) as (Ha & _). destruct (Ha x Hx) as [Hr|(v & Hv & ->)]; [by apply Hrows|].
    simpl. by apply (list_elem_of_fmap_2 key_of). }
  assert (H2 : forall v, v ∈ vs -> exists x, x ∈ found /\ key_of (source_object x) = key_of v).
  { intros v Hv. unfold found. case_bool_decide as Hlen; [|by apply append_missing_spec].
    assert (Hp : (findAll (map key_of vs) (cache w)).*1 ≡ₚ map key_of vs).
    { apply submseteq_length_Permutation.
      - apply NoDup_submseteq; [exact Hnd|]. intros k Hk. apply list_elem_of_fmap in Hk as ([k' r] & -> & Hf).
        by apply Hin in Hf as [_ Hf].
      - pose proof (length_map Stored (findAll (map key_of vs) (cache w))) as L1.
        pose proof (length_fmap fst (findAll (map key_of vs) (cache w))) as L2.
        apply Nat.eq_le_incl. etransitivity; [apply (length_map key_of vs)|].
        etransitivity; [exact Hlen|]. etransitivity; [exact L1|]. symmetry. exact L2. }
    assert (Hk : key_of v ∈ (findAll (map key_of vs) (cache w)).*1).
    { rewrite Hp. by apply (list_elem_of_fmap_2 key_of). }
    apply list_elem_of_fmap in Hk as ([[s i] r] & Hk & Hf). exists (Stored ((s, i), r)).
    split; [by apply (list_elem_of_fmap_2 Stored)|]. simpl in Hk. by rewrite Hk. }
  split.
  - intros f Hf. apply list_elem_of_fmap in Hf as (x & -> & Hx). split; [done|]. simpl.
    rewrite filter_source_key. by apply H1.
  - intros v Hv. destruct (H2 v Hv) as (x & Hx & Hk). eexists. split.
    + apply (list_elem_of_fmap_2 (fun x => let v := filter_source (now w) x in (Some (qi_id v), v))), Hx.
    + cbv zeta. simpl. by rewrite filter_source_key.
Qed.

(** ** The adapters *)

Definition adapter_of (service : string) : option ServiceAdapter :=
  List.find (fun a => bool_decide (serviceId a = service)) adapters.

Lemma adapter_of_run service w :
  getServiceAdapter service w = (match adapter_of service with Some a => inl a | None => inr UnknownService end, w).
Proof. unfold getServiceAdapter, adapter_of. by destruct (List.find _ _). Qed.

Lemma adapter_of_some service a : adapter_of service = Some a -> serviceId a = service /\ a ∈ adapters.
Proof.
  intros H. apply List.find_some in H as [Hin H]. apply bool_decide_eq_true in H.
  split; [done|by apply list_elem_of_In].
Qed.

(** An adapter answers requests for several videos, with videos of its own service. *)
Definition answering (a : ServiceAdapter) : Prop :=
  forall requests, exists l, fetchManyVideoInfo a requests = inl l /\ Forall (fun v => qi_service v = serviceId a) l.

Lemma answers_map s vs l fetched :
  Forall (fun v => qi_service v = s) vs -> Forall (fun v => qi_service v = s) fetched ->
  answers vs l -> answers vs (map (merge_fetched fetched) l).
Proof.
  intros Hs Hf [H1 H2].
  assert (Hl : forall f, f ∈ l -> qi_service f.2 = s).
  { intros f Hin. destruct (H1 f Hin) as [_ Hk]. apply list_elem_of_fmap in Hk as (v & Hk & Hv).
    rewrite Forall_forall in Hs. pose proof (Hs v Hv). unfold key_of in Hk. congruence. }
  split.
  - intros f Hin. apply list_elem_of_fmap in Hin as (c & -> & Hc). destruct (H1 c Hc) as [Hk Hkey].
    destruct (merge_fetched_key s fetched c Hk (Hl c Hc) Hf) as [K1 K2]. by rewrite K2.
  - intros v Hv. destruct (H2 v Hv) as (c & Hc & Hk). exists (merge_fetched fetched c).
    split; [by apply (list_elem_of_fmap_2 (merge_fetched fetched))|].
    destruct (H1 c Hc) as [Hkc _]. by destruct (merge_fetched_key s fetched c Hkc (Hl c Hc) Hf) as [_ ->].
Qed.

(** Apart from what is noted as asked, reading leaves the world as it is. *)
Definition same_store (w w' : World) : Prop :=
  now w' = now w /\ db_up w' = db_up w /\ cache w' = cache w /\ searches w' = searches w.

Lemma same_store_trans w1 w2 w3 : same_store w1 w2 -> same_store w2 w3 -> same_store w1 w3.
Proof. unfold same_store. intuition congruence. Qed.

Lemma group_answers s vs w a :
  db_up w = true -> adapter_of s = Some a -> answering a -> Forall (fun v => qi_service v = s) vs ->
  exists l w', group_info s vs w = (inl l, w') /\ same_store w w' /\ answers vs l.
Proof.
  intros Hup Ha Hans Hs. destruct (adapter_of_some _ _ Ha) as [Hid _].
  assert (Hc : exists l, (if isCacheSafe a then storage_getManyVideoInfo vs
                          else mret (map (fun v => (Some (qi_id v), v)) vs)) w = (inl l, w) /\ answers vs l).
  { destruct (isCacheSafe a); [by apply cached_answers|]. eexists. split; [reflexivity|]. split.
    - intros f Hf. apply list_elem_of_fmap in Hf as (v & -> & Hv). split; [done|]. by apply (list_elem_of_fmap_2 key_of).
    - intros v Hv. exists (Some (qi_id v), v). split; [by apply (list_elem_of_fmap_2 (fun v => (Some (qi_id v), v)))|done]. }
  destruct Hc as (l & Hl & Hal).
  unfold group_info, mbind, XM_bind. rewrite adapter_of_run, Ha, Hl.
  destruct (bool_decide (requests_of l = []) && isCacheSafe a).
  - exists l, w. done.
  - destruct (Hans (requests_of l)) as (fetched & Hf & Hfs). cbn. rewrite Hf. eexists _, _. split; [reflexivity|].
    split; [done|]. rewrite Hid in Hfs. by eapply answers_map.
Qed.

(** ** Grouping by service *)

Lemma map_get_groups s ids : forall m,
  map_get s (fold_left (fun m v => map_set (qi_service v) (default [] (map_get (qi_service v) m) ++ [v]) m) ids m)
  = match map_get s m, List.filter (fun v => bool_decide (qi_service v = s)) ids with
    | None, [] => None
    | o, l => Some (default [] o ++ l)
    end.
Proof.
  induction ids as [|v ids IH]; intros m; simpl.
  - destruct (map_get s m); [|done]. by rewrite app_nil_r.
  - rewrite IH, map_get_set. case_decide as Hd; simpl.
    + subst s. rewrite bool_decide_eq_true_2 by done. rewrite <- app_assoc. by destruct (map_get _ m).
    + by rewrite bool_decide_eq_false_2 by congruence.
Qed.

Lemma groups_keys ids : forall m : list (string * list QueueItem), NoDup m.*1 ->
  NoDup (fold_left (fun m v => map_set (qi_service v) (default [] (map_get (qi_service v) m) ++ [v]) m) ids m).*1.
Proof.
  induction ids as [|v ids IH]; intros m Hm; simpl; [done|]. apply IH. clear IH.
  generalize (default [] (map_get (qi_service v) m) ++ [v]) as l. intros l.
  induction m as [|[k' l'] m IH]; simpl; [apply NoDup_singleton|]. apply NoDup_cons in Hm as [Hk Hm].
  case_decide as Hd; simpl; [by apply NoDup_cons|]. apply NoDup_cons. split; [|by apply IH].
  intros Hin. apply Hk. clear -Hin Hd. revert Hin. induction m as [|[k2 l2] m IH]; simpl; [set_solver|].
  case_decide; simpl; set_solver.
Qed.

Lemma groups_elem s vs ids : (s, vs) ∈ groups ids -> vs = List.filter (fun v => bool_decide (qi_service v = s)) ids /\ vs <> [].
Proof.
  intros Hin. pose proof (groups_keys ids [] (NoDup_nil_2)) as Hnd.
  assert (Hget : map_get s (groups ids) = Some vs).
  { clear -Hin Hnd. unfold groups in *. induction (fold_left _ ids []) as [|[k l] m IH]; [set_solver|].
    simpl in *. apply NoDup_cons in Hnd as [Hk Hnd]. apply elem_of_cons in Hin as [[= -> ->]|Hin]; [by rewrite decide_True|].
    rewrite decide_False; [by apply IH|]. intros ->. apply Hk. by apply (list_elem_of_fmap_2 fst _ (k, vs)). }
  unfold groups in Hget. rewrite map_get_groups in Hget. simpl in Hget.
  destruct (List.filter _ ids) eqn:F; [done|]. by injection Hget as <-.
Qed.

Lemma groups_cover v ids : v ∈ ids -> exists vs, (qi_service v, vs) ∈ groups ids /\ v ∈ vs.
Proof.
  intros Hv. pose proof (map_get_groups (qi_service v) ids []) as Hg. simpl in Hg.
  assert (Hin : v ∈ List.filter (fun u => bool_decide (qi_service u = qi_service v)) ids).
  { apply list_elem_of_In, filter_In. split; [by apply list_elem_of_In|by apply bool_decide_eq_true_2]. }
  destruct (List.filter _ ids) as [|x l] eqn:F; [set_solver|]. exists (x :: l). split; [|done].
  by apply map_get_In.
Qed.
(** ** All groups together *)

Lemma all_groups_answer gs : forall w,
  db_up w = true ->
  (forall s vs, (s, vs) ∈ gs -> Forall (fun v => qi_service v = s) vs /\ exists a, adapter_of s = Some a /\ answering a) ->
  exists l w', all_groups gs w = (inl l, w') /\ same_store w w'
    /\ (forall f, f ∈ l -> keyed f /\ exists s vs, (s, vs) ∈ gs /\ key_of f.2 ∈ map key_of vs)
    /\ (forall s vs v, (s, vs) ∈ gs -> v ∈ vs -> exists f, f ∈ l /\ key_of f.2 = key_of v).
Proof.
  induction gs as [|[s vs] gs IH]; intros w Hup Hgs.
  - exists [], w. simpl. repeat split; try set_solver.
  - destruct (Hgs s vs) as [Hs (a & Ha & Hans)]; [by left|].
    destruct (group_answers s vs w a Hup Ha Hans Hs) as (l1 & w1 & H1 & Hst1 & [A1 A2]).
    destruct (IH w1) as (l2 & w2 & H2 & Hst2 & B1 & B2).
    { destruct Hst1 as (_ & -> & _). exact Hup. }
    { intros s' vs' Hin. apply Hgs. by right. }
    exists (l1 ++ l2), w2. simpl. rewrite H1, H2. split; [done|]. split; [by eapply same_store_trans|]. split.
    + intros f [Hf|Hf]%elem_of_app.
      * destruct (A1 f Hf) as [K1 K2]. split; [done|]. exists s, vs. split; [by left|done].
      * destruct (B1 f Hf) as [K1 (s' & vs' & K2 & K3)]. split; [done|]. exists s', vs'. split; [by right|done].
    + intros s' vs' v [[= -> ->]|Hin]%elem_of_cons Hv.
      * destruct (A2 v Hv) as (f & Hf & Hk). exists f. split; [apply elem_of_app; by left|done].
      * destruct (B2 s' vs' v Hin Hv) as (f & Hf & Hk). exists f. split; [apply elem_of_app; by right|done].
Qed.

Lemma groups_services s vs ids : (s, vs) ∈ groups ids -> Forall (fun v => qi_service v = s) vs /\ (forall v, v ∈ vs -> v ∈ ids).
Proof.
  intros Hin. apply groups_elem in Hin as [-> _]. split.
  - apply Forall_forall. intros v Hv. apply list_elem_of_In, filter_In in Hv as [_ Hv]. by apply bool_decide_eq_true in Hv.
  - intros v Hv. apply list_elem_of_In, filter_In in Hv as [Hv _]. by apply list_elem_of_In.
Qed.

(** Ids say which service they are of. *)
Definition unambiguous (ids : list QueueItem) : Prop :=
  forall u v, u ∈ ids -> v ∈ ids -> qi_id u = qi_id v -> qi_service u = qi_service v.

Lemma picked_in_order ids flattened :
  unambiguous ids ->
  (forall f, f ∈ flattened -> keyed f /\ key_of f.2 ∈ map key_of ids) ->
  (forall v, v ∈ ids -> exists f, f ∈ flattened /\ key_of f.2 = key_of v) ->
  forall l, (forall v, v ∈ l -> v ∈ ids) ->
  map key_of (omap (pick_result flattened) l) = map key_of l
  /\ (forall v, v ∈ omap (pick_result flattened) l -> exists f, f ∈ flattened /\ v = f.2).
Proof.
  intros Hun H1 H2. induction l as [|v l IH]; intros Hl; [split; [done|set_solver]|].
  destruct IH as [IH1 IH2]; [intros u Hu; apply Hl; by right|].
  assert (Hv : v ∈ ids) by (apply Hl; by left). simpl.
  destruct (pick_result flattened v) as [x|] eqn:P; unfold pick_result in P;
    destruct (List.find _ flattened) as [f|] eqn:F; try discriminate P.
  - injection P as <-. apply List.find_some in F as [Hf Hid]. apply list_elem_of_In in Hf.
    apply bool_decide_eq_true in Hid.
    destruct (H1 f Hf) as [Hk Hin]. unfold keyed in Hk. rewrite Hk in Hid. injection Hid as Hid.
    apply list_elem_of_fmap in Hin as (u & Hu & Hui). simpl. split.
    + f_equal; [|exact IH1]. unfold key_of in *. injection Hu as Hs Hi. rewrite Hs, Hid. f_equal.
      apply Hun; try done. congruence.
    + intros x [->|Hx]%elem_of_cons; [by exists f|by apply IH2].
  - exfalso. destruct (H2 v Hv) as (f & Hf & Hk). destruct (H1 f Hf) as [Hkf _].
    eapply List.find_none in F; [|by apply list_elem_of_In].
    apply bool_decide_eq_false in F. apply F. unfold keyed in Hkf. rewrite Hkf. unfold key_of in Hk. congruence.
Qed.

Lemma cache_safe_run l w :
  (forall v, v ∈ l -> exists a, adapter_of (qi_service v) = Some a) -> exists safe, cache_safe_ones l w = (inl safe, w).
Proof.
  induction l as [|v l IH]; intros H; [by exists []|].
  destruct IH as [safe Hs]; [intros u Hu; apply H; by right|]. destruct (H v) as [a Ha]; [by left|].
  cbn [cache_safe_ones]. unfold mbind, XM_bind. rewrite adapter_of_run, Ha, Hs. by eexists.
Qed.

Lemma key_service ids l :
  map key_of l = map key_of ids -> forall v, v ∈ l -> exists u, u ∈ ids /\ qi_service u = qi_service v.
Proof.
  intros Hk v Hv. assert (Hin : key_of v ∈ map key_of ids) by (rewrite <- Hk; by apply (list_elem_of_fmap_2 key_of)).
  apply list_elem_of_fmap in Hin as (u & Hu & Hui). exists u. split; [done|]. unfold key_of in Hu. congruence.
Qed.

(** What a list comes to, once its groups have been answered. *)
Lemma list_of_groups ids w fl w1 :
  unambiguous ids -> (forall v, v ∈ ids -> exists a, adapter_of (qi_service v) = Some a) ->
  all_groups (groups ids) w = (inl fl, w1) ->
  (forall f, f ∈ fl -> keyed f /\ exists s vs, (s, vs) ∈ groups ids /\ key_of f.2 ∈ map key_of vs) ->
  (forall s vs v, (s, vs) ∈ groups ids -> v ∈ vs -> exists f, f ∈ fl /\ key_of f.2 = key_of v) ->
  exists l w', getManyVideoInfo ids w = (inl l, w') /\ map key_of l = map key_of ids /\ asked w' = asked w1
    /\ (forall v, v ∈ l -> exists f, f ∈ fl /\ v = f.2).
Proof.
  intros Hun Had Hrun F1 F2. destruct (picked_in_order ids fl Hun) with (l := ids) as [Hk Hpick].
  { intros f Hf. destruct (F1 f Hf) as [K1 (s & vs & Hin & Hkey)]. split; [done|].
    destruct (groups_services s vs ids Hin) as [_ Hsub]. apply list_elem_of_fmap in Hkey as (v & -> & Hv).
    apply (list_elem_of_fmap_2 key_of). by apply Hsub. }
  { intros v Hv. destruct (groups_cover v ids Hv) as (vs & Hin & Hvs). by apply (F2 (qi_service v) vs). }
  { done. }
  set (l := omap (pick_result fl) ids) in *.
  destruct (cache_safe_run l w1) as [safe Hsafe].
  { intros v Hv. destruct (key_service ids l Hk v Hv) as (u & Hu & <-). by apply Had. }
  unfold getManyVideoInfo, mbind, XM_bind. rewrite Hrun. fold l. rewrite Hsafe. eexists _, _. split; [reflexivity|].
  split; [done|]. split; [cbn; by destruct (db_up w1)|done].
Qed.

Lemma groups_adapters ids (P : ServiceAdapter -> Prop) s vs :
  (forall v, v ∈ ids -> exists a, adapter_of (qi_service v) = Some a /\ P a) -> (s, vs) ∈ groups ids ->
  exists a, adapter_of s = Some a /\ P a.
Proof.
  intros Had Hin. destruct (groups_services s vs ids Hin) as [Hs Hsub].
  destruct (groups_elem s vs ids Hin) as [_ Hne]. destruct vs as [|v vs]; [done|].
  destruct (Had v) as (a & Ha & HP); [apply Hsub; by left|]. exists a. split; [|done].
  rewrite Forall_forall in Hs. by rewrite (Hs v) in Ha by by left.
Qed.

(** C34: a list of ids is answered in its order, one video for each id and of that id: nothing is
    dropped, doubled or mixed up, whatever is cached and however the adapters order what they
    found; when the database can be reached, every service has an adapter that answers with its
    own videos, and no two services of the list share an id. *)
Theorem lists_are_answered_in_order (ids : list QueueItem) (w : World) :
  db_up w = true -> unambiguous ids ->
  (forall v, v ∈ ids -> exists a, adapter_of (qi_service v) = Some a /\ answering a) ->
  exists l w', getManyVideoInfo ids w = (inl l, w') /\ map key_of l = map key_of ids.
Proof.
  intros Hup Hun Had. destruct (all_groups_answer (groups ids) w Hup) as (fl & w1 & Hrun & _ & F1 & F2).
  { intros s vs Hin. split; [by apply (groups_services s vs ids)|by apply (groups_adapters ids answering s vs)]. }
  destruct (list_of_groups ids w fl w1 Hun) as (l & w' & H & Hk & _); try done.
  - intros v Hv. destruct (Had v Hv) as (a & Ha & _). by exists a.
  - by exists l, w'.
Qed.
(** ** What is cached is not asked for *)

Definition row_complete (w : World) (key : string * string) : Prop :=
  exists r, cache w !! key = Some r /\ missing_info (filterVideoInfo (now w) (key, r)) = [].

(** The cached answer for a video. *)
Definition from_row (w : World) (key : string * string) (u : QueueItem) : Prop :=
  exists r, cache w !! key = Some r /\ u = filterVideoInfo (now w) (key, r).

Lemma findAll_length vs w :
  NoDup (map key_of vs) -> (forall v, v ∈ vs -> row_complete w (key_of v)) ->
  length vs = length (findAll (map key_of vs) (cache w)).
Proof.
  intros Hnd Hall. destruct (findAll_spec (map key_of vs) (cache w)) as [Hnd' Hin].
  assert (Hp : (findAll (map key_of vs) (cache w)).*1 ≡ₚ map key_of vs).
  { apply NoDup_Permutation; [exact Hnd'|exact Hnd|]. intros k. split.
    - intros Hk. apply list_elem_of_fmap in Hk as (f & -> & Hf). by apply Hin in Hf as [_ Hf].
    - intros Hk. pose proof Hk as Hk'. apply list_elem_of_fmap in Hk as (v & -> & Hv).
      destruct (Hall v Hv) as (r & Hr & _). apply (list_elem_of_fmap_2 fst _ (key_of v, r)). by apply Hin. }
  apply Permutation_length in Hp. rewrite length_fmap in Hp.
  etransitivity; [symmetry; apply (length_map key_of)|]. symmetry. exact Hp.
Qed.

Lemma requests_none (l : list (option string * QueueItem)) :
  (forall f, f ∈ l -> missing_info f.2 = []) -> requests_of l = [].
Proof.
  unfold requests_of. induction l as [|f l IH]; intros H; [done|]. simpl.
  rewrite (H f) by by left. simpl. apply IH. intros g Hg. apply H. by right.
Qed.

Lemma cached_group s vs w a :
  db_up w = true -> adapter_of s = Some a -> isCacheSafe a = true -> NoDup (map key_of vs) ->
  (forall v, v ∈ vs -> row_complete w (key_of v)) ->
  exists l, group_info s vs w = (inl l, w) /\ forall f, f ∈ l -> from_row w (key_of f.2) f.2.
Proof.
  intros Hup Ha Hsafe Hnd Hall. unfold group_info, mbind, XM_bind. rewrite adapter_of_run, Ha, Hsafe.
  unfold storage_getManyVideoInfo, mbind, XM_bind, get, mret, XM_ret. rewrite Hup. cbv zeta.
  pose proof (findAll_length vs w Hnd Hall) as Hlen. 
  rewrite (bool_decide_eq_true_2 (length vs = length (map Stored _)))
    by (etransitivity; [exact Hlen|]; symmetry; apply (length_map Stored)).
  destruct (findAll_spec (map key_of vs) (cache w)) as [_ Hin].
  assert (Hrows : forall f, f ∈ map (fun x => (Some (qi_id (filter_source (now w) x)), filter_source (now w) x))
                    (map Stored (findAll (map key_of vs) (cache w))) ->
            from_row w (key_of f.2) f.2 /\ missing_info f.2 = []).
  { intros f Hf. apply list_elem_of_fmap in Hf as (x & -> & Hx). apply list_elem_of_fmap in Hx as ([[k1 k2] r] & -> & Hx).
    apply Hin in Hx as [Hr Hk]. simpl in Hr, Hk. apply list_elem_of_fmap in Hk as (v & Hk & Hv).
    split; [by exists r|]. destruct (Hall v Hv) as (r' & Hr' & Hm). rewrite <- Hk, Hr in Hr'. injection Hr' as <-.
    rewrite <- Hk in Hm. exact Hm. }
  rewrite requests_none by (intros f Hf; by apply Hrows). rewrite bool_decide_eq_true_2 by done. simpl.
  eexists. split; [reflexivity|]. intros f Hf. by apply Hrows.
Qed.

Lemma cached_groups gs w :
  db_up w = true ->
  (forall s vs, (s, vs) ∈ gs -> NoDup (map key_of vs)
     /\ (exists a, adapter_of s = Some a /\ isCacheSafe a = true) /\ forall v, v ∈ vs -> row_complete w (key_of v)) ->
  exists l, all_groups gs w = (inl l, w) /\ forall f, f ∈ l -> from_row w (key_of f.2) f.2.
Proof.
  intros Hup. induction gs as [|[s vs] gs IH]; intros H; [exists []; split; [done|set_solver]|].
  destruct IH as (l2 & H2 & F2); [intros s' vs' Hin; apply H; by right|].
  destruct (H s vs) as (Hnd & (a & Ha & Hsafe) & Hall); [by left|].
  destruct (cached_group s vs w a Hup Ha Hsafe Hnd Hall) as (l1 & H1 & F1).
  exists (l1 ++ l2). simpl. rewrite H1, H2. split; [done|]. intros f [Hf|Hf]%elem_of_app; auto.
Qed.

Lemma NoDup_filter_keys (p : QueueItem -> bool) l : NoDup (map key_of l) -> NoDup (map key_of (List.filter p l)).
Proof.
  induction l as [|v l IH]; [done|]. simpl. intros [Hv Hnd]%NoDup_cons. destruct (p v); [|by apply IH].
  simpl. apply NoDup_cons. split; [|by apply IH]. intros Hin. apply Hv.
  apply list_elem_of_fmap in Hin as (u & Hu & Hin). rewrite Hu. apply (list_elem_of_fmap_2 key_of).
  apply list_elem_of_In in Hin. apply filter_In in Hin as [Hin _]. by apply list_elem_of_In.
Qed.

(** A list whose videos are all cached, fresh and complete is answered from the cache, and no
    adapter is asked. *)
Theorem complete_lists_ask_nobody (ids : list QueueItem) (w : World) :
  db_up w = true -> unambiguous ids -> NoDup (map key_of ids) ->
  (forall v, v ∈ ids -> row_complete w (key_of v)
     /\ exists a, adapter_of (qi_service v) = Some a /\ isCacheSafe a = true /\ answering a) ->
  exists l w', getManyVideoInfo ids w = (inl l, w') /\ asked w' = asked w
    /\ map key_of l = map key_of ids /\ Forall (fun u => from_row w (key_of u) u) l.
Proof.
  intros Hup Hun Hnd Hall.
  assert (Had : forall v, v ∈ ids -> exists a, adapter_of (qi_service v) = Some a /\ isCacheSafe a = true /\ answering a)
    by (intros v Hv; by apply Hall).
  destruct (cached_groups (groups ids) w Hup) as (fl & Hrun & Hrows).
  { intros s vs Hin. split; [|split].
    - destruct (groups_elem s vs ids Hin) as [-> _]. by apply NoDup_filter_keys.
    - destruct (groups_adapters ids _ s vs Had Hin) as (a & Ha & Hsafe & _). by exists a.
    - intros v Hv. apply Hall. by apply (groups_services s vs ids Hin). }
  destruct (all_groups_answer (groups ids) w Hup) as (fl' & w1 & Hrun' & _ & F1 & F2).
  { intros s vs Hin. split; [by apply (groups_services s vs ids)|].
    destruct (groups_adapters ids _ s vs Had Hin) as (a & Ha & _ & Hans). by exists a. }
  rewrite Hrun in Hrun'. injection Hrun' as <- <-.
  destruct (list_of_groups ids w fl w Hun) as (l & w' & H & Hk & Hasked & Hl); try done.
  - intros v Hv. destruct (Had v Hv) as (a & Ha & _). by exists a.
  - exists l, w'. split; [done|]. split; [done|]. split; [done|].
    apply Forall_forall. intros u Hu. destruct (Hl u Hu) as (f & Hf & ->). by apply Hrows.
Qed.
End Lists.

(** ** One video *)

Definition same_field (p : Field) (u v : QueueItem) : Prop :=
  match p with
  | FTitle => qi_title u = qi_title v
  | FDescription => qi_description u = qi_description v
  | FThumbnail => qi_thumbnail u = qi_thumbnail v
  | FLength => qi_length u = qi_length v
  | FMime => qi_mime u = qi_mime v
  end.

Definition mime_ok (v : QueueItem) : bool :=
  match qi_mime v with Some m => bool_decide (m = ""%string) || isSupportedMimeType m | None => true end.

Lemma missing_none v : missing_info v = [] <-> forall p, p ∈ getVideoInfoFields (qi_service v) -> has_field v p = true.
Proof.
  unfold missing_info. generalize (getVideoInfoFields (qi_service v)) as l.
  induction l as [|p l IH]; simpl; [split; [set_solver|done]|]. destruct (has_field v p) eqn:E; simpl.
  - rewrite IH. split; [intros H q [->|Hq]%elem_of_cons; auto|intros H q Hq; apply H; by right].
  - split; [done|]. intros H. rewrite H in E by by left. done.
Qed.

Lemma title_is_a_field s : FTitle ∈ getVideoInfoFields s.
Proof. unfold getVideoInfoFields. set_solver. Qed.

Section One.
Context `{E : ExtractEnv}.

Lemma getCachedVideo_run s i w :
  let c := (match storage_getVideoInfo s i w with (inl v, _) => v | _ => bare_video s i end) in
  key_of c = (s, i)
  /\ getCachedVideo s i w = (if mime_ok c then inl (c, missing_info c) else inr UnsupportedMimeType, w).
Proof.
  unfold getCachedVideo, mbind, XM_bind, storage_getVideoInfo, mret, XM_ret, get. simpl.
  set (c := if db_up w then _ else _).
  assert (Hk : key_of c = (s, i)).
  { unfold c. destruct (db_up w); [|done]. destruct (cache w !! (s, i)); done. }
  split; [exact Hk|]. unfold mime_ok. destruct (qi_mime c) as [m|]; [|done].
  destruct (bool_decide (m = ""%string)); simpl; [done|]. by destruct (isSupportedMimeType m).
Qed.

Lemma valid_soon r t now' :
  updatedAt r = t -> (now' < t + 8 * day)%Q -> isCachedInfoValid now' r = true.
Proof.
  intros Hu Hlt. unfold isCachedInfoValid, days_at_most. rewrite Hu.
  destruct (Qlt_bool (now' - createdAt r) _); apply Qlt_bool_iff; unfold day in *;
    [change (inject_Z (7 + 1)) with 8%Q|change (inject_Z (30 + 1)) with 31%Q]; lra.
Qed.

(** What is cached under the key after [updateVideoInfo v]. *)
Lemma upsert_row t v rows :
  exists r, upsert t v rows !! key_of v = Some r /\ updatedAt r = t
    /\ (forall p, has_field v p = true -> same_field p (row_object (key_of v, r)) v)
    /\ (text_set (row_mime r) = true -> has_field v FMime = false ->
        exists o, rows !! key_of v = Some o /\ text_set (row_mime o) = true).
Proof.
  unfold upsert. destruct (rows !! key_of v) as [o|] eqn:Hr; rewrite lookup_insert_eq; eexists; (split; [reflexivity|]).
  - split; [done|]. split.
    + intros p Hp. destruct p; simpl in *; unfold text_set, number_set, fresher in *; repeat case_match; congruence.
    + simpl. intros Ht Hf. exists o. split; [done|]. unfold fresher in Ht. destruct (qi_mime v); [congruence|done].
  - split; [done|]. split; [by intros []|]. simpl. congruence.
Qed.

Lemma kept_mime s i w c m o :
  getCachedVideo s i w = (inl (c, m), w) -> db_up w = true -> cache w !! (s, i) = Some o ->
  text_set (row_mime o) = true -> has_field c FMime = true.
Proof.
  intros Hc Hup Ho Ht. pose proof (getCachedVideo_run s i w) as [_ Hc']. rewrite Hc in Hc'.
  unfold storage_getVideoInfo, mbind, XM_bind, get, mret, XM_ret in Hc'. rewrite Hup, Ho in Hc'.
  destruct (mime_ok _); [|done]. injection Hc' as -> _. simpl. unfold kept. by rewrite Ht.
Qed.
End One.

(** ** Fetched once, cached for a week *)

Section Once.
Context `{E : ExtractEnv}.

Lemma kept_set {A} (set : option A -> bool) o : set o = true -> kept set o = o.
Proof. unfold kept. by intros ->. Qed.

Lemma cached_field w s i r p :
  isCachedInfoValid (now w) r = true -> has_field (row_object ((s, i), r)) p = true ->
  same_field p (filterVideoInfo (now w) ((s, i), r)) (row_object ((s, i), r))
  /\ has_field (filterVideoInfo (now w) ((s, i), r)) p = true.
Proof.
  unfold filterVideoInfo. simpl. intros ->. unfold filtered.
  destruct p; simpl; intros H; rewrite !kept_set by done; done.
Qed.

Lemma same_has p u v : same_field p u v -> has_field u p = has_field v p.
Proof. by destruct p; simpl; intros ->. Qed.

Lemma same_trans p u v x : same_field p u v -> same_field p v x -> same_field p u x.
Proof. destruct p; simpl; congruence. Qed.

(** a video that was fetched once is served from the cache for eight days: the adapter found
    what was missing, the answer is cached, and any later request within that time is answered
    with the same metadata and without asking an adapter. *)
Theorem fetched_once_is_cached (s i : string) (a : ServiceAdapter) (w : World) (c fv : QueueItem) (missing : list Field) :
  let v := mergeVideo c fv in
  adapter_of s = Some a -> isCacheSafe a = true -> db_up w = true -> s <> ""%string -> i <> ""%string ->
  getCachedVideo s i w = (inl (c, missing), w) -> missing <> [] ->
  fetchVideoInfo a (Some i) missing = inl fv -> key_of fv = (s, i) ->
  missing_info v = [] -> mime_ok v = true ->
  exists w', getVideoInfo s i w = (inl v, w')
    /\ forall later, db_up later = true -> cache later = cache w' -> (now later < now w + 8 * day)%Q ->
       exists u, getVideoInfo s i later = (inl (postProcessVideo a u), later)
         /\ forall p, p ∈ getVideoInfoFields s -> same_field p u v.
Proof.
  intros v Ha Hsafe Hup Hs Hi Hc Hmiss Hf Hkf Hfull Hmime.
  pose proof (getCachedVideo_run s i w) as [Hkc Hc']. set (c0 := match storage_getVideoInfo s i w with (inl v, _) => v | _ => _ end) in *.
  rewrite Hc in Hc'. assert (Hmc : mime_ok c0 = true) by (destruct (mime_ok c0); congruence).
  rewrite Hmc in Hc'. injection Hc' as Hc0 Hm0. rewrite <- Hc0 in Hkc.
  assert (Hkv : key_of v = (s, i)).
  { unfold v. unfold key_of in Hkf, Hkc. injection Hkf as F1 F2. injection Hkc as C1 C2.
    rewrite mergeVideo_key by congruence. unfold key_of. congruence. }
  destruct (upsert_row (now w) v (cache w)) as (r & Hr & Hupd & Hfields & Hold). rewrite Hkv in Hr, Hold.
  assert (Hvs : qi_service v = s) by (clearbody v; unfold key_of in Hkv; congruence).
  assert (Hvi : qi_id v = i) by (clearbody v; unfold key_of in Hkv; congruence).
  set (w1 := w <| asked ::= cons (serviceId a, [MkRequest (Some (qi_id c)) missing]) |>).
  exists (w1 <| cache ::= upsert (now w) v |>). split.
  - unfold getVideoInfo, mbind, XM_bind. rewrite adapter_of_run, Ha, Hc. rewrite bool_decide_eq_false_2 by done.
    unfold catch, fetched_one, mbind, XM_bind, note_request, modify. fold w1.
    assert (qi_id c = i /\ qi_service c = s) as [Hci Hcs] by (unfold key_of in Hkc; split; congruence).
    assert (Hfs : qi_service fv = s) by (unfold key_of in Hkf; congruence).
    unfold lift. rewrite Hci, Hf. rewrite bool_decide_eq_true_2 by congruence. rewrite Hsafe. cbv zeta. fold v.
    unfold updateVideoInfo, modify. rewrite Hvs, Hvi.
    rewrite !bool_decide_eq_false_2 by done. cbn. by rewrite Hup.
  - intros later Hup' Hcache Hlt. cbn in Hcache.
    assert (Hst : storage_getVideoInfo s i later = (inl (filterVideoInfo (now later) ((s, i), r)), later)).
    { unfold storage_getVideoInfo, mbind, XM_bind, get, mret, XM_ret. rewrite Hup', Hcache, Hr. done. }
    set (u := filterVideoInfo (now later) ((s, i), r)) in *.
    pose proof (getCachedVideo_run s i later) as [_ Hcu]. rewrite Hst in Hcu. cbv beta iota zeta in Hcu.
    pose proof (valid_soon r (now w) (now later) Hupd Hlt) as Hvalid.
    assert (Hall : forall p, p ∈ getVideoInfoFields s -> same_field p u v /\ has_field u p = true).
    { intros p Hp. pose proof (proj1 (missing_none v) Hfull p) as Hv.
      rewrite Hvs in Hv. specialize (Hv Hp).
      pose proof (Hfields p Hv) as Hsame. unfold key_of in Hsame. rewrite Hvs, Hvi in Hsame.
      destruct (cached_field later s i r p Hvalid) as [H1 H2]; [by rewrite (same_has p _ v)|].
      split; [by eapply same_trans|done]. }
    assert (Hmu : mime_ok u = true).
    { unfold mime_ok, u, filterVideoInfo. simpl. unfold kept. destruct (text_set (row_mime r)) eqn:Et; [|done].
      destruct (has_field v FMime) eqn:Em.
      - pose proof (Hfields FMime Em) as Hmf. simpl in Hmf. rewrite Hmf. exact Hmime.
      - destruct (Hold eq_refl eq_refl) as (o & Ho & Hto).
        pose proof (kept_mime s i w c missing o Hc Hup Ho Hto) as Hcm.
        exfalso. unfold v in Em. simpl in Em, Hcm. unfold over in Em. destruct (text_set (qi_mime fv)) eqn:Ef; congruence. }
    unfold getVideoInfo, mbind, XM_bind. rewrite adapter_of_run, Ha, Hcu, Hmu.
    assert (Hmiss' : missing_info u = []) by (apply missing_none; intros p Hp; by apply Hall).
    rewrite Hmiss', bool_decide_eq_true_2 by done. exists u. split; [done|]. intros p Hp. by apply Hall.
Qed.
End Once.

(** ** Served without asking *)

Section Served.
Context `{E : ExtractEnv}.

Lemma valid_row_recent r t : isCachedInfoValid t r = true -> (t < updatedAt r + 31 * day)%Q.
Proof.
  unfold isCachedInfoValid, days_at_most. intros H.
  destruct (Qlt_bool (t - createdAt r) _); apply Qlt_bool_iff in H; unfold day in *;
    [change (inject_Z (7 + 1)) with 8%Q in H|change (inject_Z (30 + 1)) with 31%Q in H]; lra.
Qed.

Lemma fetched_one_asks a c missing w r w1 :
  fetched_one a c missing w = (r, w1) -> length (asked w1) = S (length (asked w)).
Proof.
  unfold fetched_one, mbind, XM_bind, note_request, modify, lift.
  destruct (fetchVideoInfo a _ _) as [fv|e]; [|by intros [= _ <-]].
  assert (Hu : forall v w2, asked (updateVideoInfo v w2).2 = asked w2).
  { intros v w2. unfold updateVideoInfo, modify. simpl. by destruct (_ || _). }
  destruct (bool_decide _).
  - destruct (isCacheSafe a); unfold mret, XM_ret; cbn; [|by intros [= _ <-]].
    intros [= _ <-]. by destruct (_ || _).
  - rewrite adapter_of_run. destruct (adapter_of _) as [b|]; [|by intros [= _ <-]].
    destruct (isCacheSafe b); unfold mret, XM_ret; cbn; [|by intros [= _ <-]].
    intros [= _ <-]. by destruct (_ || _).
Qed.

(** what a request for a video answers without asking an adapter is complete, playable and
    recent: it comes from a row that was written less than thirty-one days ago, every field of
    the service is there, and the media type, when there is one, is a supported one. *)
Theorem answers_from_the_cache (s i : string) (v : QueueItem) (w w' : World) :
  getVideoInfo s i w = (inl v, w') -> asked w' = asked w ->
  exists a r c, adapter_of s = Some a /\ v = postProcessVideo a c /\ w' = w
    /\ cache w !! (s, i) = Some r /\ (now w < updatedAt r + 31 * day)%Q
    /\ key_of c = (s, i) /\ missing_info c = [] /\ mime_ok c = true
    /\ forall p, p ∈ getVideoInfoFields s -> same_field p c (row_object ((s, i), r)).
Proof.
  intros H Hasked. unfold getVideoInfo, mbind, XM_bind in H. rewrite adapter_of_run in H.
  destruct (adapter_of s) as [a|] eqn:Ha; [|done].
  pose proof (getCachedVideo_run s i w) as [Hk Hc]. rewrite Hc in H.
  set (c := match storage_getVideoInfo s i w with (inl v, _) => v | _ => _ end) in *.
  destruct (mime_ok c) eqn:Hm; [|done]. case_bool_decide as Hmiss.
  - injection H as <- <-. 
    assert (Hrow : exists r, cache w !! (s, i) = Some r /\ c = filterVideoInfo (now w) ((s, i), r)).
    { pose proof (proj1 (missing_none c) Hmiss FTitle (title_is_a_field _)) as Ht. unfold c in *.
      unfold storage_getVideoInfo, mbind, XM_bind, get, mret, XM_ret in *.
      destruct (db_up w); [|done]. destruct (cache w !! (s, i)) as [r|]; [|done]. by exists r. }
    destruct Hrow as (r & Hr & Hcr). exists a, r, c. do 4 (split; [done|]).
    assert (Hvalid : isCachedInfoValid (now w) r = true).
    { pose proof (proj1 (missing_none c) Hmiss FTitle (title_is_a_field _)) as Ht. rewrite Hcr in Ht.
      unfold filterVideoInfo, filtered in Ht. simpl in Ht. by destruct (isCachedInfoValid _ _). }
    split; [by apply valid_row_recent|]. do 3 (split; [done|]). intros p Hp.
    assert (Hcs : qi_service c = s) by (unfold key_of in Hk; congruence).
    pose proof (proj1 (missing_none c) Hmiss p) as Hv. rewrite Hcs in Hv. specialize (Hv Hp).
    rewrite Hcr in Hv |- *. unfold filterVideoInfo in *. simpl in *. rewrite Hvalid in *. unfold filtered in *.
    destruct p; simpl in *; unfold kept in *; repeat case_match; done.
  - exfalso. unfold catch in H. destruct (fetched_one a c (missing_info c) w) as [[u|e] w1] eqn:F;
      apply fetched_one_asks in F.
    + injection H as _ <-. rewrite Hasked in F. lia.
    + assert (w' = w1) as -> by (destruct e; try (injection H as _ <-; done); destruct (_ <? _)%nat; by injection H as _ <-).
      rewrite Hasked in F. lia.
Qed.
End Served.

(** ** Many links at once *)

Section Links.
Context `{E : ExtractEnv}.

(** [new URL] ignores the spaces around a link. *)
Definition isURL_trims : Prop := forall l, isURL l = true -> isURL (trim l) = true.

Lemma resolve_lines_length force lines : forall w l w',
  resolve_lines force lines w = (inl l, w') -> length l = length lines.
Proof.
  induction lines as [|line lines IH]; intros w l w'; [by intros [= <- _]|].
  cbn [resolve_lines]. unfold mbind, XM_bind. destruct (adapter_for force line w) as [[a|e] w1]; [|done].
  destruct (id_of_link a line w1) as [[v|e] w2]; [|done].
  destruct (resolve_lines force lines w2) as [[l2|e] w3] eqn:R; [|done]. intros [= <- _]. simpl. f_equal. by eapply IH.
Qed.

Lemma getMany_length ids w l w' : getManyVideoInfo ids w = (inl l, w') -> (length l <= length ids)%nat.
Proof.
  unfold getManyVideoInfo, mbind, XM_bind. destruct (all_groups _ w) as [[fl|e] w1]; [|done].
  destruct (cache_safe_ones _ w1) as [[safe|e] w2]; [|done]. destruct (updateManyVideoInfo safe w2) as [[[]|e] w3]; [|done].
  unfold mret, XM_ret. intros [= <- _]. clear. induction ids as [|v ids IH]; [done|].
  unfold omap in IH. simpl. destruct (pick_result fl v); simpl in *; lia.
Qed.

Lemma filter_shorter {A} (p q : A -> bool) l :
  (forall x, p x = true -> q x = true) -> (length (List.filter p l) <= length (List.filter q l))%nat.
Proof.
  intros H. induction l as [|x l IH]; simpl; [lia|]. destruct (p x) eqn:P; [rewrite (H x P); simpl; lia|].
  destruct (q x); simpl; lia.
Qed.

(** a request with several links is bounded and paid for: a preview shows at most fifty
    videos, not more than there are links, and each link was charged five points before it was
    followed. *)
Theorem links_are_bounded_and_paid (query provider : string) (force : option string) (p : AddPreview) (w w' : World) :
  isURL_trims -> trim query = query -> includes_newline query = true ->
  resolveVideoQuery query provider force w = (inl p, w') ->
  let links := List.filter isURL (split_lines "" query) in
  (length (videos p) <= length links <= 50)%nat /\ (5 * length links <= preview_points query)%nat.
Proof.
  intros Htrim Hq Hn H links. unfold resolveVideoQuery in H. rewrite Hn, Hq in H. fold links in H. cbv zeta in H.
  destruct (MAX_PREVIEW_LINES <? length links)%nat eqn:Hmax; [done|].
  unfold mbind, XM_bind in H. destruct (resolve_lines force links w) as [[ids|e] w1] eqn:R; [|done].
  destruct (getManyVideoInfo ids w1) as [[l|e] w2] eqn:G; [|done]. injection H as <- _. simpl.
  apply resolve_lines_length in R. apply getMany_length in G. unfold MAX_PREVIEW_LINES in Hmax.
  apply Nat.ltb_ge in Hmax. split; [lia|]. unfold preview_points. rewrite Hn. unfold links.
  pose proof (filter_shorter isURL (fun line => isURL (trim line)) (split_lines "" query) Htrim). lia.
Qed.
End Links.

(** ** Two services and an afternoon *)

Definition found (s i title mime : string) : QueueItem :=
  MkQueueItem s i (Some title) (Some "about"%string) (Some (Fin 60)) false (Some "pic"%string) (Some mime)
    None None None None false None None None None None None.

(** An adapter of links [<service>/<id>] that knows every id. *)
Definition sample_adapter (s : string) : ServiceAdapter :=
  let fetch (id : option string) (_ : list Field) : res QueueItem :=
    match id with Some i => inl (found s i (s ++ " " ++ i) "video/mp4") | None => inr (AdapterError "InvalidVideoIdException") end in
  MkAdapter s true (String.prefix s) (fun _ => inl false) inl
    (fun url => inl (String.substring (S (String.length s)) (String.length url) url))
    fetch (fetch_each fetch) (fun _ => inl (Entries [])) (fun _ => inl []) (fun v => v).

#[local] Instance sample_extractor : ExtractEnv := {|
  adapters := [sample_adapter "tubi"; sample_adapter "pluto"];
  isURL s := match s with String c _ => is_mime_char c | EmptyString => false end;
  ENABLE_SEARCH := true;
  ADD_PREVIEW_SEARCH_MIN_LENGTH := 3;
  db_order l := l |}.

#[local] Instance sample_laws : ExtractLaws sample_extractor.
Proof. by split. Qed.

Definition noon : Q := 43200000.
Definition world0 : World := MkWorld noon true ∅ ∅ [].

Definition wanted : list QueueItem := [bare_video "pluto" "7"; bare_video "tubi" "9"; bare_video "pluto" "8"].

Lemma sample_answers s : answering (sample_adapter s).
Proof.
  intros requests. eexists. split; [reflexivity|]. apply Forall_forall. intros v Hv.
  apply list_elem_of_omap in Hv as (r & _ & Hr). simpl in Hr. destruct (req_id r); [|done]. by injection Hr as <-.
Qed.

Lemma lists_are_answered_in_order_witness :
  exists l w', getManyVideoInfo wanted world0 = (inl l, w') /\ map key_of l = map key_of wanted.
Proof.
  refine (lists_are_answered_in_order wanted world0 eq_refl _ _).
  - intros u v Hu Hv. repeat (apply elem_of_cons in Hu as [->|Hu]); try (by apply not_elem_of_nil in Hu);
      repeat (apply elem_of_cons in Hv as [->|Hv]); try (by apply not_elem_of_nil in Hv); done.
  - intros v Hv. repeat (apply elem_of_cons in Hv as [->|Hv]); try (by apply not_elem_of_nil in Hv);
      eexists; (split; [vm_compute; reflexivity|apply sample_answers]).
Defined.

Definition tubi_7 : QueueItem := found "tubi" "7" "tubi 7" "video/mp4".

Lemma fetched_once_is_cached_witness :
  exists w', getVideoInfo "tubi" "7" world0 = (inl tubi_7, w')
    /\ forall later, db_up later = true -> cache later = cache w' -> (now later < noon + 8 * day)%Q ->
       exists u, getVideoInfo "tubi" "7" later = (inl u, later)
         /\ forall p, p ∈ getVideoInfoFields "tubi" -> same_field p u tubi_7.
Proof.
  refine (fetched_once_is_cached "tubi" "7" (sample_adapter "tubi") world0 (bare_video "tubi" "7") tubi_7
            (getVideoInfoFields "tubi") _ _ _ _ _ _ _ _ _ _ _); try (vm_compute; reflexivity); discriminate.
Defined.

(** The second request of the day. *)
Definition world1 : World := (getVideoInfo "tubi" "7" world0).2.

Lemma answers_from_the_cache_witness :
  exists a r c, adapter_of "tubi" = Some a /\ tubi_7 = postProcessVideo a c /\ world1 = world1
    /\ cache world1 !! ("tubi", "7")%string = Some r /\ (now world1 < updatedAt r + 31 * day)%Q
    /\ key_of c = ("tubi", "7")%string /\ missing_info c = [] /\ mime_ok c = true
    /\ forall p, p ∈ getVideoInfoFields "tubi" -> same_field p c (row_object (("tubi", "7")%string, r)).
Proof. refine (answers_from_the_cache "tubi" "7" tubi_7 world1 world1 _ _); vm_compute; reflexivity. Defined.

Definition two_links : string := "tubi/7" ++ String "010" "pluto/8".
Definition two_found : AddPreview := match resolveVideoQuery two_links "tubi" None world0 with (inl p, _) => p | _ => MkPreview [] 0 None end.

Lemma sample_isURL_trims : isURL_trims.
Proof.
  intros [|c l]; [done|]. simpl. intros Hc. unfold trim. simpl.
  assert (Hsp : RoomRequests.is_space c = false).
  { revert Hc. clear. by destruct c as [[] [] [] [] [] [] [] []]. }
  rewrite Hsp. simpl. destruct (RoomRequests.trim_right l); simpl; [by rewrite Hsp|done].
Qed.

Lemma links_are_bounded_and_paid_witness :
  let links := List.filter isURL (split_lines "" two_links) in
  (length (videos two_found) <= length links <= 50)%nat /\ (5 * length links <= preview_points two_links)%nat.
Proof.
  refine (links_are_bounded_and_paid two_links "tubi" None two_found world0
            (resolveVideoQuery two_links "tubi" None world0).2 sample_isURL_trims _ _ _); vm_compute; reflexivity.
Defined.

(** ** Where this stops *)

(** One id of two services: the flattened results are searched by id alone, and the second video
    is answered with the first one. *)
Example services_that_share_an_id_mix :
  let ids := [bare_video "tubi" "7"; bare_video "pluto" "7"] in
  match getManyVideoInfo ids world0 with
  | (inl l, _) => map key_of l = [("tubi", "7"); ("tubi", "7")]%string
  | _ => False
  end.
Proof. by vm_compute. Qed.

(** The same link twice: the rows to create have one key twice, the bulk insert fails, and none of
    the new videos of the request is cached. *)
Example repeated_link_is_not_cached :
  let ids := [bare_video "tubi" "7"; bare_video "tubi" "7"; bare_video "tubi" "8"] in
  match getManyVideoInfo ids world0 with
  | (inl l, w) => map key_of l = [("tubi", "7"); ("tubi", "7"); ("tubi", "8")]%string /\ size (cache w) = 0%nat
  | _ => False
  end.
Proof. by vm_compute. Qed.

(** Without the database a single video is fetched, but a list loses its ids and comes back empty. *)
Example failed_cache_loses_the_list :
  let w := world0 <| db_up := false |> in
  (getVideoInfo "tubi" "7" w).1 = inl tubi_7
  /\ (getManyVideoInfo [bare_video "tubi" "7"] w).1 = inl [].
Proof. by vm_compute. Qed.

(** More than fifty links are refused with an error that the route does not know. *)
Definition many_links : string := Nat.iter 51 (fun s => "tubi/7" ++ String "010" s)%string "tubi/8"%string.

Example too_many_links_is_a_server_error :
  (addPreview (fun _ => None) "tubi" many_links None false world0).1 = Refused 500 "Unknown".
Proof. by vm_compute. Qed.

(** Media types by prefix: [audio/aacp] is refused along with [audio/aac]. *)
Example mime_types :
  map isSupportedMimeType ["video/mp4"; "video/x-flv"; "audio/mpeg"; "audio/aacp"; "application/dash+xml"; "text/html"]%string
  = [true; false; true; false; true; false].
Proof. by vm_compute. Qed.
