(* ===== verification/RoomApi.v ===== *)
(** * RoomApi: what the HTTP routes of a room do

    The handlers of [server/api/room.ts] with their error handler, [getPermanentRoomList] and the
    schemas of the bodies.  A handler is a program over events: what it asks of the rate limiter,
    the room manager, the room, the storage and the password module, and what it answers.  Every
    event may throw.  A run is a program with the answers it got, so that a statement about all
    runs holds whatever the rest of the server does in between. *)

From Stdlib Require Import Ascii.
From S2P Require Import Prelude Types Permissions VideoQueue Subtitles RoomModel RoomPlayback RoomLifecycle.
From S2P Require Import Accounts.

Module Api.
Import Accounts(Req, ip, token, ottsession, user).

(** ** Programs *)

(** What a handler throws. *)
Inductive thrown :=
  | Room_exn (e : exn)          (* an error of the room or of the modules under it *)
  | OttNamed (name : string)    (* any other [OttException], by its name *)
  | ZodFailed
  | Unexpected.

(** The owner, title and so on a room is created with; the fields of the body. *)
Record CreateBody := MkCreate {
  cb_name : string;
  cb_title : option string;
  cb_description : option string;
  cb_isTemporary : bool;
  cb_visibility : option Visibility;
  cb_queueMode : option QueueMode;
  cb_autoSkip : option (list string);
  cb_password : option string;
}.

Record RoomListItem := MkItem {
  li_name : string;
  li_title : string;
  li_description : string;
  li_isTemporary : bool;
  li_visibility : Visibility;
  li_queueMode : QueueMode;
  li_currentSource : option QueueItem;
  li_users : nat;
  li_hasPassword : bool;
}.

(** The fields of a room that [GET] shows. *)
Record RoomView := MkView {
  vw_name : string;
  vw_title : string;
  vw_description : string;
  vw_isTemporary : bool;
  vw_visibility : Visibility;
  vw_queueMode : QueueMode;
  vw_users : list RoomUserInfo;
  vw_grants : Grants;
  vw_autoSkipSegmentCategories : list string;
  vw_restoreQueueBehavior : BehaviorOption;
  vw_enableVoteSkip : bool;
  vw_bufferGateMode : BufferGateMode;
  vw_queue : list QueueItem;
  vw_hasOwner : bool;
}.

Inductive Body :=
  | Success
  | Created (room : string)
  | Shown (obj : nat) (v : RoomView)
  | Listed (l : list RoomListItem)
  | Failed (name : string).

(** Rooms and connections are objects, named by numbers. *)
Inductive event :=
  | Consume (points : Z)
  | GetRoom (roomName : string)
  | Look (obj : nat)
  | HasAccess (obj : nat)
  | Perform (obj : nat) (r : RoomRequest)
  | ClientByToken (roomName : string)
  | ClientRequest (client : nat) (r : RoomRequest)
  | CreateRoom (b : CreateBody) (owner : option User)
  | Claim (obj : nat) (u : User)
  | SaveRoom (obj : nat)
  | UnloadRoom (roomName : string)
  | DeleteRow (roomName : string)
  | StoredRooms (includeUnlisted : bool)
  | LoadedRooms
  | SetPassword (obj : nat) (password : option string)
  | Attempt (roomName : string)
  | VerifyPassword (obj : nat) (password : string)
  | ClearFailures (roomName : string)
  | GrantAccess (obj : nat)
  | Respond (status : Z) (b : Body).

Definition answer (e : event) : Type :=
  match e with
  | Consume _ | HasAccess _ | VerifyPassword _ _ => bool
  | GetRoom _ | ClientByToken _ => nat
  | Look _ => Room
  | StoredRooms _ => list RoomListItem
  | LoadedRooms => list (nat * Room)
  | Attempt _ => Z
  | _ => unit
  end.

Inductive prog (A : Type) :=
  | Ret (a : A)
  | Throw (t : thrown)
  | Do (e : event) (k : answer e + thrown -> prog A).
Arguments Ret {_}.
Arguments Throw {_}.
Arguments Do {_}.

#[global] Instance prog_ret : MRet prog := @Ret.
#[global] Instance prog_bind : MBind prog := fun A B f =>
  fix go (p : prog A) : prog B :=
    match p with Ret a => f a | Throw t => Throw t | Do e k => Do e (fun r => go (k r)) end.

Definition ask (e : event) : prog (answer e) :=
  Do e (fun r => match r with inl a => Ret a | inr t => Throw t end).

(** [try { p } catch (t) { h t }] *)
Fixpoint catch {A} (p : prog A) (h : thrown -> prog A) : prog A :=
  match p with Ret a => Ret a | Throw t => h t | Do e k => Do e (fun r => catch (k r) h) end.

(** Answering does not fail. *)
Definition respond (status : Z) (b : Body) : prog unit := Do (Respond status b) (fun _ => Ret tt).
Definition ok : prog unit := respond 200 Success.
Definition refuse {A} (t : thrown) : prog A := Throw t.

(** ** Errors *)

Definition exn_name (e : exn) : string :=
  match e with
  | BadApiArgument _ => "BadApiArgumentException"
  | PermissionDenied _ => "PermissionDeniedException"
  | InvalidRole _ => "InvalidRoleException"
  | VideoAlreadyQueued => "VideoAlreadyQueuedException"
  | VideoNotFound => "VideoNotFoundException"
  | UnsupportedSubtitleType => "UnsupportedSubtitleType"
  | UnsupportedSubtitleUrl => "UnsupportedSubtitleUrl"
  | ClientNotFoundInRoom => "ClientNotFoundInRoomException"
  | ImpossiblePromotion => "ImpossiblePromotionException"
  | FeatureDisabled => "FeatureDisabledException"
  | NoteTooLong => "NoteTooLongException"
  | TooManyNotes => "TooManyNotesException"
  | NoteNotFound => "NoteNotFoundException"
  | UndoEventUnavailable => "UndoEventUnavailable"
  | OttException _ => "OttException"
  | Error _ => "Error"
  end.

(** The name of an [OttException], if it is one. *)
Definition ott_name (t : thrown) : option string :=
  match t with
  | Room_exn (Error _) => None
  | Room_exn e => Some (exn_name e)
  | OttNamed n => Some n
  | ZodFailed | Unexpected => None
  end.

Definition error_status (t : thrown) : Z * string :=
  match ott_name t with
  | Some n =>
      if bool_decide (n = "RoomNotFoundException"%string) then (404, n)
      else if bool_decide (n = "RoomPasswordRequired"%string) || bool_decide (n = "InvalidRoomPassword"%string) then (401, n)
      else if bool_decide (n = "FeatureDisabledException"%string) then (403, n)
      else (400, n)
  | None => match t with ZodFailed => (400, "ValidationError"%string) | _ => (500, "Unknown"%string) end
  end.

Definition errorHandler (t : thrown) : prog unit := let '(s, n) := error_status t in respond s (Failed n).

(** ** Bodies *)

Fixpoint all_chars (p : ascii -> bool) (s : string) : bool :=
  match s with EmptyString => true | String c s' => p c && all_chars p s' end.

Definition is_name_char (c : ascii) : bool :=
  let n := nat_of_ascii c in
  (((97 <=? n) && (n <=? 122)) || ((65 <=? n) && (n <=? 90)) || ((48 <=? n) && (n <=? 57)) || (n =? 95) || (n =? 45))%nat.
Definition is_line_break (c : ascii) : bool := let n := nat_of_ascii c in ((n =? 10) || (n =? 13))%nat.

Definition RESERVED_ROOM_NAMES : list string := ["list"; "create"; "generate"]%string.

Definition valid_password (p : string) : bool := ((4 <=? String.length p) && (String.length p <=? 64))%nat.

Definition create_schema (b : CreateBody) : bool :=
  ((3 <=? String.length (cb_name b)) && (String.length (cb_name b) <=? 32))%nat
  && all_chars is_name_char (cb_name b) && negb (bool_decide (cb_name b ∈ RESERVED_ROOM_NAMES))
  && match cb_title b with
     | Some t => (String.length t <=? 255)%nat && all_chars (fun c => negb (is_line_break c)) t
     | None => true
     end
  && match cb_password b with Some p => valid_password p | None => true end.

(** A patch is a list of settings, with the entries of [grants] as they came, or a claim. *)
Inductive PatchBody := PatchSettings (l : list SettingUpdate) (grants : option (list (Z * Z))) | PatchClaim (claim : bool).

(** What is added to the queue. *)
Inductive AddBody := AddVideos (l : list VideoAdd) | AddUrl (url : string) | AddVideo (v : VideoAdd).

(** ** Handlers *)

Section Handlers.
(** The configuration, the api key of the request, the address in the path, and the request the
    middleware prepared. *)
Context `{P : Accounts.Platform} (enable_create_temporary enable_create_permanent : bool).
Context (apikey : option string) (roomName : string) (req : Req).

Definition isAuthorized : bool := Accounts.safeCompareApiKey apikey.

(** The points of the request; when they are refused the limiter has answered. *)
Definition charge (points : Z) (rest : prog unit) : prog unit :=
  allowed ← ask (Consume points);
  if allowed : bool then rest else Ret tt.

Definition getRoomChecked : prog nat :=
  room ← ask (GetRoom roomName);
  if isAuthorized then Ret room
  else
    access ← ask (HasAccess room);
    if access : bool then Ret room else refuse (OttNamed "RoomPasswordRequired").

(** *** [GET /list] *)

Definition toLower (s : string) : string :=
  (fix go s := match s with
                  | EmptyString => EmptyString
                  | String c s' =>
                      let n := nat_of_ascii c in
                      String (if ((65 <=? n) && (n <=? 90))%nat then ascii_of_nat (n + 32) else c) (go s')
                  end) s.

Definition item_of (r : Room) : RoomListItem :=
  MkItem (name r) (title r) (description r) (isTemporary r) (visibility r) (queueMode r) (currentSource r)
    (length (users r)) (hasPassword r).

Definition merge_lists (authorized : bool) (stored : list RoomListItem) (loaded : list (nat * Room))
    : list RoomListItem :=
  let loadedNames := map (fun r : nat * Room => toLower (name r.2)) loaded in
  List.filter (fun i => negb (bool_decide (toLower (li_name i) ∈ loadedNames))) stored
  ++ map (fun r : nat * Room => item_of r.2)
       (List.filter (fun r : nat * Room => authorized || bool_decide (visibility r.2 = Public)) loaded).

(** [_.orderBy(rooms, ["users", "name"], ["desc", "asc"])] *)
Variable orderBy_users_name : list RoomListItem -> list RoomListItem.

Definition listRooms : prog unit :=
  charge 5 (
    if Accounts.truthy apikey && negb isAuthorized then respond 400 (Failed "apikey is invalid")
    else
      stored ← catch (rooms ← ask (StoredRooms isAuthorized); Ret (Some rooms)) (fun _ => Ret None);
      match stored with
      | Some rooms =>
          loaded ← Do LoadedRooms (fun r => match r with inl l => Ret l | inr _ => Ret [] end);
          respond 200 (Listed (orderBy_users_name (merge_lists isAuthorized rooms loaded)))
      | None => respond 500 (Failed "Error")
      end).

(** *** Creating *)

Definition generateRoom (body : option (option (list string) * option string)) (roomId : string) : prog unit :=
  if enable_create_temporary then
    match body with
    | None => refuse ZodFailed
    | Some (autoSkip, password) =>
        charge 50 (
          ask (CreateRoom (MkCreate roomId None None true None None autoSkip password) (user req)) ≫= fun _ =>
          respond 201 (Created roomId))
    end
  else refuse (Room_exn FeatureDisabled).

Definition createRoom (body : option CreateBody) : prog unit :=
  match body with
  | Some b =>
      if negb (create_schema b) then refuse ZodFailed
      else if cb_isTemporary b && negb enable_create_temporary then refuse (Room_exn FeatureDisabled)
      else if negb (cb_isTemporary b) && negb enable_create_permanent then refuse (Room_exn FeatureDisabled)
      else if bool_decide (cb_visibility b = Some Private)
              && match cb_password b with Some p => bool_decide (p = ""%string) | None => true end
      then refuse (Room_exn (BadApiArgument "visibility"))
      else charge (if cb_isTemporary b then 50 else 50 * 4) (
        ask (CreateRoom b (user req)) ≫= fun _ => respond 201 Success)
  | None => refuse ZodFailed
  end.

(** *** Reading *)

Definition view_of (r : Room) : RoomView :=
  MkView (name r) (title r) (description r) (isTemporary r) (visibility r) (queueMode r) (users r) (grants r)
    (autoSkipSegmentCategories r) (restoreQueueBehavior r) (enableVoteSkip r) (bufferGateMode r) (items (queue r))
    (match owner r with Some _ => true | None => false end).

Definition getRoom : prog unit :=
  charge 5 (
    room ← getRoomChecked;
    r ← ask (Look room);
    respond 200 (Shown room (view_of r))).

(** *** Changing *)

(** [room.owner = req.user], and the info of the first member of that account is sent again. *)
Definition claim_room (u : User) (r : Room) : Room :=
  let r := set_owner (Some u) r in
  match find (fun m => bool_decide (ru_user_id m = Some (user_id u))) (realusers r) with
  | Some m => match getUserInfo r (ru_id m) with Some info => syncUser info r | None => r end
  | None => r
  end.

Definition claim (room : nat) : prog bool :=
  r ← ask (Look room);
  match owner r with
  | Some _ => refuse (Room_exn (BadApiArgument "claim"))
  | None =>
      match user req with
      | Some u => ask (Claim room u) ≫= fun _ => Ret true
      | None => respond 401 (Failed "Error") ≫= fun _ => Ret false
      end
  end.

Definition patch_settings (room : nat) (l : list SettingUpdate) (grants : option (list (Z * Z))) : prog bool :=
  match grants with
  | None => ask (Perform room (ApplySettingsRequest l)) ≫= fun _ => Ret true
  | Some entries =>
      match Grants.construct entries with
      | inl e => refuse (Room_exn e)
      | inr g => ask (Perform room (ApplySettingsRequest (l ++ [SGrants g]))) ≫= fun _ => Ret true
      end
  end.

(** A failing row is answered on the spot. *)
Definition save_if_permanent (room : nat) : prog unit :=
  r ← ask (Look room);
  if isTemporary r then ok
  else
    saved ← catch (ask (SaveRoom room) ≫= fun _ => Ret true) (fun _ => Ret false);
    if saved : bool then ok else respond 500 (Failed "Error").

Definition patchRoom (body : option PatchBody) : prog unit :=
  match body with
  | None => refuse ZodFailed
  | Some b =>
      charge 10 (
        match token req with
        | None => refuse (OttNamed "OttException")
        | Some _ =>
            room ← getRoomChecked;
            goes_on ← match b with
                      | PatchClaim c => if c then claim room else Ret true
                      | PatchSettings l g => patch_settings room l g
                      end;
            if goes_on : bool then save_if_permanent room else Ret tt
        end)
  end.

Definition deleteRoom (permanent : bool) : prog unit :=
  if permanent then
    match user req with
    | None => respond 401 (Failed "Unauthorized")
    | Some u =>
        room ← getRoomChecked;
        r ← ask (Look room);
        if isTemporary r then respond 400 (Failed "BadApiArgumentException")
        else
          let own := match owner r with Some o => user_id o =? user_id u | None => false end in
          if negb own then respond 403 (Failed "PermissionDeniedException")
          else
            ask (UnloadRoom roomName) ≫= fun _ =>
            deleted ← catch (ask (DeleteRow roomName) ≫= fun _ => Ret true) (fun _ => Ret false);
            if deleted : bool then ok else respond 500 (Failed "Unknown")
    end
  else if isAuthorized then ask (UnloadRoom roomName) ≫= fun _ => ok
  else respond 400 (Failed "Unauthorized").

(** *** Requests in the name of a connection, and in that of a token *)

Definition as_client (r : RoomRequest) : prog unit :=
  match token req with
  | None => refuse (OttNamed "OttException")
  | Some _ =>
      client ← ask (ClientByToken roomName);
      ask (ClientRequest client r) ≫= fun _ => ok
  end.

Definition undoEvent (event : option UndoEcho) : prog unit :=
  match token req, event with
  | None, _ => refuse (OttNamed "OttException")
  | Some _, None => refuse (Room_exn (BadApiArgument "event"))
  | Some _, Some e => as_client (UndoRequest (Some e))
  end.

Definition vote (body : option VideoId) (add : bool) : prog unit :=
  match body with None => refuse ZodFailed | Some v => as_client (VoteRequest v add) end.

Definition as_token (points : Z) (r : RoomRequest) : prog unit :=
  charge points (
    room ← getRoomChecked;
    ask (Perform room r) ≫= fun _ => ok).

Definition addToQueue (body : option AddBody) : prog unit :=
  match body with
  | None => refuse ZodFailed
  | Some (AddVideos l) =>
      as_token (3 * Z.of_nat (length l)) (ReqAdd (MkAddRequest None (Some (Typed (map Typed l))) None))
  | Some (AddUrl url) => as_token 5 (ReqAdd (MkAddRequest None None (Some (Typed url))))
  | Some (AddVideo v) => as_token 5 (ReqAdd (MkAddRequest (Some (Typed v)) None None))
  end.

Definition removeFromQueue (body : option VideoId) : prog unit :=
  match body with None => refuse ZodFailed | Some v => as_token 5 (RemoveRequest v) end.

(** An omitted [subtitleUrl] leaves the track alone, [null] clears it. *)
Definition updateQueueItem (body : option (VideoId * option (option string))) : prog unit :=
  match body with None => refuse ZodFailed | Some (v, s) => as_token 5 (UpdateQueueItemRequest v s) end.

(** *** Passwords *)

Definition setRoomPasswordHandler (body : option (option string)) : prog unit :=
  match body with
  | None => refuse ZodFailed
  | Some p =>
      room ← ask (GetRoom roomName);
      r ← ask (Look room);
      match user req, owner r with
      | Some u, Some o =>
          if user_id o =? user_id u then ask (SetPassword room p) ≫= fun _ => ok
          else refuse (Room_exn (PermissionDenied "configure-room.password"))
      | _, _ => refuse (Room_exn (PermissionDenied "configure-room.password"))
      end
  end.

Definition verifyRoomPasswordHandler (body : option string) : prog unit :=
  match body with
  | None => refuse ZodFailed
  | Some p =>
      room ← ask (GetRoom roomName);
      r ← ask (Look room);
      if hasPassword r then
        retrySeconds ← ask (Attempt (name r));
        if 0 <? retrySeconds then respond 429 (Failed "TooManyRequests")
        else
          right ← ask (VerifyPassword room p);
          if right : bool then
            ask (ClearFailures (name r)) ≫= fun _ => ask (GrantAccess room) ≫= fun _ => ok
          else refuse (OttNamed "InvalidRoomPassword")
      else ok
  end.

(** ** Routes *)

Inductive Call :=
  | CallList
  | CallGenerate (body : option (option (list string) * option string)) (roomId : string)
  | CallCreate (body : option CreateBody)
  | CallGet
  | CallPatch (body : option PatchBody)
  | CallDelete (permanent : bool)
  | CallUndo (event : option UndoEcho)
  | CallVote (body : option VideoId) (add : bool)
  | CallAdd (body : option AddBody)
  | CallUpdate (body : option (VideoId * option (option string)))
  | CallRemove (body : option VideoId)
  | CallSetPassword (body : option (option string))
  | CallVerifyPassword (body : option string).

Definition handler (c : Call) : prog unit :=
  match c with
  | CallList => listRooms
  | CallGenerate body roomId => generateRoom body roomId
  | CallCreate body => createRoom body
  | CallGet => getRoom
  | CallPatch body => patchRoom body
  | CallDelete permanent => deleteRoom permanent
  | CallUndo event => undoEvent event
  | CallVote body add => vote body add
  | CallAdd body => addToQueue body
  | CallUpdate body => updateQueueItem body
  | CallRemove body => removeFromQueue body
  | CallSetPassword body => setRoomPasswordHandler body
  | CallVerifyPassword body => verifyRoomPasswordHandler body
  end.

(** Every route but the list hands what was thrown to [errorHandler]. *)
Definition route (c : Call) : prog unit :=
  match c with CallList => handler c | _ => catch (handler c) errorHandler end.
End Handlers.

(** ** Runs *)

(** An event with what it came to. *)
Record Obs := MkObs { ob_event : event; ob_answer : answer ob_event + thrown }.

Fixpoint runs {A} (p : prog A) (tr : list Obs) (out : A + thrown) : Prop :=
  match p with
  | Ret a => tr = [] /\ out = inl a
  | Throw t => tr = [] /\ out = inr t
  | Do e k => exists r tr', tr = MkObs e r :: tr' /\ runs (k r) tr' out
  end.

(** A run with the answers of an oracle, for a number of events. *)
Fixpoint follow {A} (oracle : nat -> forall e, answer e + thrown) (n : nat) (p : prog A) : list Obs * (A + thrown) :=
  match p with
  | Ret a => ([], inl a)
  | Throw t => ([], inr t)
  | Do e k => let r := oracle n e in let '(tr, out) := follow oracle (S n) (k r) in (MkObs e r :: tr, out)
  end.

(** [getPermanentRoomList]: the rows as list items, those that are public or all of them. *)
Definition getPermanentRoomList (rows : list RoomListItem) (includeUnlisted : bool) : list RoomListItem :=
  List.filter (fun i => includeUnlisted || bool_decide (li_visibility i = Public)) rows.

End Api.
