(* ===== verification/RoomApiTheorems.v ===== *)
(** * RoomApiTheorems: who gets at a room over HTTP

    A handler is followed event by event with the history it has seen; a property of every event
    given its history is shown by walking through the program once ([holds]), and then holds of
    every run, whatever the answers were. *)

From S2P Require Import Prelude Types Permissions VideoQueue Subtitles RoomModel RoomPlayback RoomLifecycle.
From S2P Require Import RoomSamples Accounts AccountsTheorems RoomApi.
Import Accounts(Req, ip, token, ottsession, user) Api.

(** ** Walking through a program *)

Section Walk.
Context (good : list Obs -> Obs -> Prop).

(** Every event is good after what came before it, and the end is as [fin] says. *)
Fixpoint holds {A} (hist : list Obs) (p : prog A) (fin : list Obs -> A + thrown -> Prop) : Prop :=
  match p with
  | Ret a => fin hist (inl a)
  | Throw t => fin hist (inr t)
  | Do e k => forall r, good hist (MkObs e r) /\ holds (hist ++ [MkObs e r]) (k r) fin
  end.

Lemma holds_runs {A} (p : prog A) : forall hist fin tr out,
  holds hist p fin -> runs p tr out ->
  fin (hist ++ tr) out /\ forall pre ob post, tr = pre ++ ob :: post -> good (hist ++ pre) ob.
Proof.
  induction p as [a|t|e k IH]; intros hist fin tr out H Hr; simpl in *.
  - destruct Hr as [-> ->]. rewrite app_nil_r. split; [done|]. by intros [] ? ?.
  - destruct Hr as [-> ->]. rewrite app_nil_r. split; [done|]. by intros [] ? ?.
  - destruct Hr as (r & tr' & -> & Hr). destruct (H r) as [Hg Hk].
    destruct (IH r _ _ _ _ Hk Hr) as [Hfin Hall]. rewrite <- app_assoc in Hfin. split; [exact Hfin|].
    intros [|x pre] ob post [= ? ?]; subst; [by rewrite app_nil_r|].
    pose proof (Hall pre ob post eq_refl) as Hob. by rewrite <- app_assoc in Hob.
Qed.

Lemma holds_mono {A} (p : prog A) : forall hist (fin fin' : list Obs -> A + thrown -> Prop),
  (forall h o, fin h o -> fin' h o) -> holds hist p fin -> holds hist p fin'.
Proof.
  induction p as [a|t|e k IH]; intros hist fin fin' Hf H; simpl in *; auto.
  intros r. destruct (H r) as [Hg Hk]. split; [done|]. by eapply IH.
Qed.

Lemma holds_do {A} hist e (k : answer e + thrown -> prog A) fin :
  (forall r, good hist (MkObs e r) /\ holds (hist ++ [MkObs e r]) (k r) fin) -> holds hist (Do e k) fin.
Proof. done. Qed.

Lemma holds_ret {A} hist (a : A) (fin : list Obs -> A + thrown -> Prop) : fin hist (inl a) -> holds hist (Ret a) fin.
Proof. done. Qed.

Lemma holds_throw {A} hist t (fin : list Obs -> A + thrown -> Prop) : fin hist (inr t) -> holds hist (Throw t) fin.
Proof. done. Qed.

Lemma holds_bind {A B} (p : prog A) (f : A -> prog B) : forall hist fin,
  holds hist p (fun h o => match o with inl a => holds h (f a) fin | inr t => fin h (inr t) end) ->
  holds hist (p ≫= f) fin.
Proof.
  induction p as [a|t|e k IH]; intros hist fin H; simpl in *; auto.
  intros r. destruct (H r) as [Hg Hk]. split; [done|]. by apply IH.
Qed.

Lemma holds_catch {A} (p : prog A) (h : thrown -> prog A) : forall hist fin,
  holds hist p (fun hh o => match o with inl a => fin hh (inl a) | inr t => holds hh (h t) fin end) ->
  holds hist (catch p h) fin.
Proof.
  induction p as [a|t|e k IH]; intros hist fin H; simpl in *; auto.
  intros r. destruct (H r) as [Hg Hk]. split; [done|]. by apply IH.
Qed.
End Walk.

(** One step into a program: into a sequence, a handler for errors, an event or a case. *)
Ltac walk_case :=
  match goal with
  | |- context [match ?x with _ => _ end] => is_var x; destruct x
  | |- context [match ?x with _ => _ end] =>
      lazymatch x with context [match _ with _ => _ end] => fail | _ => destruct x eqn:? end
  end.
Ltac walk1 :=
  match goal with
  | |- holds _ _ (_ ≫= _) _ => apply holds_bind
  | |- holds _ _ (catch _ _) _ => apply holds_catch
  | |- holds _ _ (ask _) _ => apply holds_do; intros [?|?]
  | |- holds _ _ (Do _ _) _ => apply holds_do; intros [?|?]
  | |- holds _ _ (Ret _) _ => apply holds_ret; cbv beta iota
  | |- holds _ _ (Throw _) _ => apply holds_throw; cbv beta iota
  | |- holds _ _ (refuse _) _ => apply holds_throw; cbv beta iota
  | |- holds _ _ (match _ with _ => _ end) _ => walk_case
  end.

Section Routes.
Context `{P : Accounts.Platform} (temp perm : bool) (apikey : option string) (roomName : string) (req : Req).
Context (order : list RoomListItem -> list RoomListItem).

Notation call c := (route temp perm apikey roomName req order c).
Notation admin := (isAuthorized apikey).

(** ** What every route shares *)

(** Events that tell or change nothing of a room. *)
Definition quiet (e : event) : bool :=
  match e with
  | Consume _ | GetRoom _ | HasAccess _ | Look _ | Respond _ (Success | Failed _) => true
  | _ => false
  end.

Section Shared.
Context (good : list Obs -> Obs -> Prop) (Hquiet : forall h ob, quiet (ob_event ob) = true -> good h ob).
Notation walks h p := (holds good h p (fun _ _ => True)).

Lemma walk_route c hist :
  walks hist (handler temp perm apikey roomName req order c) -> walks hist (call c).
Proof.
  intros H. assert (Hc : walks hist (catch (handler temp perm apikey roomName req order c) errorHandler)).
  { apply holds_catch. eapply holds_mono; [|exact H]. intros h [[]|t] _; [done|].
    unfold errorHandler. destruct (error_status t) as [st n]. apply holds_do. intros r. split; [by apply Hquiet|done]. }
  by destruct c.
Qed.

Lemma walk_charge hist points p :
  (forall h, MkObs (Consume points) (inl true) ∈ h -> walks h p) -> walks hist (charge points p).
Proof.
  intros Hp. apply holds_bind. walk1; (split; [by apply Hquiet|]); cbv beta iota; [|exact I].
  walk1. destruct a; [apply Hp; set_solver|exact I].
Qed.

(** After [getRoomChecked] the room was found and the caller may enter it. *)
Lemma walk_checked hist (f : nat -> prog unit) :
  (forall h o, MkObs (GetRoom roomName) (inl o) ∈ h -> admin = true \/ MkObs (HasAccess o) (inl true) ∈ h ->
    walks h (f o)) ->
  walks hist (getRoomChecked apikey roomName ≫= f).
Proof.
  intros Hf. apply holds_bind. unfold getRoomChecked. apply holds_bind.
  walk1; (split; [by apply Hquiet|]); cbv beta iota; walk1; [|exact I].
  destruct (admin); [walk1; apply Hf; [set_solver|by left]|].
  apply holds_bind. walk1; (split; [by apply Hquiet|]); cbv beta iota; walk1; [|exact I].
  destruct a0; walk1; [apply Hf; [set_solver|right; set_solver]|exact I].
Qed.

Lemma walk_token hist points q :
  (forall h o r, MkObs (GetRoom roomName) (inl o) ∈ h -> admin = true \/ MkObs (HasAccess o) (inl true) ∈ h ->
    good h (MkObs (Perform o q) r)) ->
  walks hist (as_token apikey roomName points q).
Proof.
  intros Hq. unfold as_token, ok, respond. apply walk_charge. intros h _. apply walk_checked. intros h' o H1 H2.
  apply holds_bind. apply holds_do. intros r. split; [by apply Hq|].
  destruct r; [|exact I]. walk1. apply holds_do. intros r. split; [by apply Hquiet|exact I].
Qed.
End Shared.

(** ** Access *)

(** The object [o] is the one the room manager gave for the name in the path, and the caller may
    enter it: with the server's own api key, or because the object was asked and said so. *)
Definition opened (hist : list Obs) (o : nat) : Prop :=
  MkObs (GetRoom roomName) (inl o) ∈ hist /\ (admin = true \/ MkObs (HasAccess o) (inl true) ∈ hist).

(** What must have come before an event that shows something of a room or changes one. *)
Definition admitted (hist : list Obs) (ob : Obs) : Prop :=
  match ob_event ob with
  | Perform o _ | Claim o _ | SaveRoom o | Respond _ (Shown o _) => opened hist o
  | UnloadRoom n | DeleteRow n => n = roomName /\ (admin = true \/ exists o, opened hist o)
  | SetPassword o _ =>
      MkObs (GetRoom roomName) (inl o) ∈ hist
      /\ exists r u ow, MkObs (Look o) (inl r) ∈ hist /\ user req = Some u /\ owner r = Some ow /\ user_id ow = user_id u
  | GrantAccess o =>
      MkObs (GetRoom roomName) (inl o) ∈ hist /\ exists password, MkObs (VerifyPassword o password) (inl true) ∈ hist
  | ClientRequest k q =>
      MkObs (ClientByToken roomName) (inl k) ∈ hist /\ token req <> None
      /\ match q with UndoRequest _ | VoteRequest _ _ => True | _ => False end
  | _ => True
  end.

Lemma admitted_quiet h ob : quiet (ob_event ob) = true -> admitted h ob.
Proof.
  intros Hq. destruct ob as [e r]. unfold admitted. cbn [ob_event] in *. destruct e; try done.
  match goal with x : Body |- _ => by destruct x end.
Qed.

Lemma opened_after h o ob : opened h o -> opened (h ++ [ob]) o.
Proof. intros [H1 H2]. split; [set_solver|]. destruct H2; [by left|right; set_solver]. Qed.

(** The event at hand is let through: it touches no room, or the one that was opened. *)
Ltac let_through :=
  match goal with
  | |- admitted _ _ /\ _ => split; [solve [exact I|unfold admitted; cbn [ob_event]; eauto 10 using opened_after]|cbv beta iota]
  end.
Ltac walk := repeat (walk1; try let_through; try exact I); try exact I.

Lemma delete_admitted permanent : holds admitted [] (deleteRoom apikey roomName req permanent) (fun _ _ => True).
Proof.
  unfold deleteRoom, ok, respond. destruct permanent.
  - destruct (user req) as [u|]; [|solve [walk]].
    apply (walk_checked _ admitted_quiet). intros h o Hg Ha.
    assert (Ho : forall h', opened (h ++ h') o).
    { intros h'. split; [set_solver|]. destruct Ha; [by left|right; set_solver]. }
    apply holds_bind. walk1; let_through; walk1; [|exact I].
    destruct (isTemporary a); [solve [walk]|].
    destruct (negb _); [solve [walk]|].
    apply holds_bind. apply holds_do. intros r0.
    split; [by split; [done|right; exists o; apply Ho]|]. destruct r0; [|exact I]. cbv beta iota.
    walk1. walk1. walk1. walk1. apply holds_do. intros r1.
    split; [by split; [done|right; exists o; rewrite <- app_assoc; apply Ho]|].
    destruct r1; cbv beta iota; solve [walk].
  - destruct (admin) eqn:Ha; [|solve [walk]]. apply holds_bind. apply holds_do. intros r0.
    split; [by split; [done|left]|]. destruct r0; cbv beta iota; solve [walk].
Qed.

Lemma client_admitted q hist :
  match q with UndoRequest _ | VoteRequest _ _ => True | _ => False end ->
  holds admitted hist (as_client roomName req q) (fun _ _ => True).
Proof.
  intros Hq. unfold as_client, ok, respond. destruct (token req) eqn:Ht; [|exact I].
  apply holds_bind. walk1; let_through; walk1; [|exact I]. apply holds_bind. apply holds_do. intros r0.
  split; [split; [set_solver|by split; [congruence|]]|]. destruct r0; cbv beta iota; solve [walk].
Qed.

Lemma password_admitted body : holds admitted [] (setRoomPasswordHandler roomName req body) (fun _ _ => True).
Proof.
  unfold setRoomPasswordHandler, ok, respond. destruct body as [p|]; [|exact I].
  apply holds_bind. walk1; let_through; walk1; [|exact I].
  apply holds_bind. walk1; let_through; walk1; [|exact I].
  destruct (user req) as [u|] eqn:Hu; [|exact I]. destruct (owner a0) as [ow|] eqn:How; [|exact I].
  destruct (user_id ow =? user_id u) eqn:Hid; [|exact I]. apply Z.eqb_eq in Hid.
  apply holds_bind. apply holds_do. intros r0. split; [split; [set_solver|exists a0, u, ow; split; [set_solver|done]]|].
  destruct r0; cbv beta iota; solve [walk].
Qed.

Lemma verify_admitted body : holds admitted [] (verifyRoomPasswordHandler roomName body) (fun _ _ => True).
Proof.
  unfold verifyRoomPasswordHandler, ok, respond. destruct body as [p|]; [|exact I].
  apply holds_bind. walk1; let_through; walk1; [|exact I].
  apply holds_bind. walk1; let_through; walk1; [|exact I].
  destruct (hasPassword a0); [|solve [walk]].
  apply holds_bind. walk1; let_through; walk1; [|exact I].
  destruct (0 <? a1); [solve [walk]|].
  apply holds_bind. walk1; let_through; walk1; [|exact I]. destruct a2; [|exact I].
  apply holds_bind. walk1; let_through; walk1; [|exact I].
  apply holds_bind. apply holds_do. intros r0. split; [split; [set_solver|exists p; set_solver]|].
  destruct r0; cbv beta iota; solve [walk].
Qed.

(** C35: over HTTP a room opens only to those who may enter it.  In any run of any route, and
    whatever the rest of the server answers: before a room is shown, and before a request in the
    name of a token is performed on it, it is claimed or saved, the object was found under the name
    in the path and either the request carried the server's own api key or that object answered
    that the caller has access (it has no password, the caller owns it, or holds a grant); the room
    that is unloaded or deleted is the one the path names, and that for the same two reasons only;
    its password is set only for the account that was seen to own the object, and a grant is given
    only after the object accepted a password.  Undoing and voting are the exception: they are done
    in the name of the connection that the caller's token has in the room, and nothing else can be
    asked of it, but whether that connection was admitted is not asked here.  (The list of rooms
    shows public rooms to everybody.) *)
Theorem rooms_open_only_with_access (c : Call) (tr pre post : list Obs) (ob : Obs) (out : unit + thrown) :
  runs (call c) tr out -> tr = pre ++ ob :: post -> admitted pre ob.
Proof.
  intros Hr Heq. assert (H : holds admitted [] (call c) (fun _ _ => True)).
  { apply (walk_route _ admitted_quiet). destruct c; cbn [handler].
    - unfold listRooms, charge, respond. walk.
    - unfold generateRoom, charge, respond. walk.
    - unfold createRoom, charge, respond. walk.
    - unfold getRoom, respond. apply (walk_charge _ admitted_quiet). intros h _.
      apply (walk_checked _ admitted_quiet). intros h' o' Hg Ho. assert (Hop : opened h' o') by done. walk.
    - unfold patchRoom. destruct body as [b|]; [|exact I]. apply (walk_charge _ admitted_quiet). intros h _.
      destruct (token req); [|exact I]. apply (walk_checked _ admitted_quiet).
      intros h' o' Hg Ho. assert (Hop : opened h' o') by done. unfold claim, patch_settings, save_if_permanent, ok, respond. walk.
    - apply delete_admitted.
    - unfold undoEvent. destruct (token req); [|exact I]. case_match; [by apply client_admitted|exact I].
    - unfold vote. destruct body; [by apply client_admitted|exact I].
    - unfold addToQueue. destruct body as [[]|]; [..|exact I]; by apply (walk_token _ admitted_quiet).
    - unfold updateQueueItem. destruct body as [[]|]; [|exact I]. by apply (walk_token _ admitted_quiet).
    - unfold removeFromQueue. destruct body; [|exact I]. by apply (walk_token _ admitted_quiet).
    - apply password_admitted.
    - apply verify_admitted. }
  exact (proj2 (holds_runs admitted _ _ _ _ _ H Hr) pre ob post Heq).
Qed.

(** ** One answer *)

(** The events that answer the request: a response, or a refusal by the limiter. *)
Definition sends (ob : Obs) : bool :=
  match ob with
  | MkObs (Respond _ _) _ => true
  | MkObs (Consume _) (inl false) => true
  | _ => false
  end.
Definition sent (tr : list Obs) : nat := length (List.filter sends tr).

Definition answered (h : list Obs) (o : unit + thrown) : Prop :=
  match o with inl _ => sent h = 1%nat | inr _ => sent h = 0%nat end.

Ltac pass := match goal with |- True /\ _ => split; [exact I|cbv beta iota] end.
Ltac roam := repeat (walk1; try pass; try reflexivity); try reflexivity.

Notation free := (fun (_ : list Obs) (_ : Obs) => True).

Lemma checked_answer hist (f : nat -> prog unit) :
  sent hist = 0%nat ->
  (forall h o, sent h = 0%nat -> holds free h (f o) answered) ->
  holds free hist (getRoomChecked apikey roomName ≫= f) answered.
Proof.
  intros H0 Hf.
  assert (Hs : forall e r h, sends (MkObs e r) = false -> sent h = 0%nat -> sent (h ++ [MkObs e r]) = 0%nat).
  { intros e r h He Hh. unfold sent in *. rewrite List.filter_app, length_app, Hh. cbn [List.filter]. by rewrite He. }
  apply holds_bind. unfold getRoomChecked. apply holds_bind. walk1; pass; [|by apply Hs].
  destruct (admin); [walk1; apply Hf; by apply Hs|].
  apply holds_bind. walk1; pass; [|by repeat apply Hs]. destruct a0; walk1; [apply Hf|]; by repeat apply Hs.
Qed.

Lemma sent_after h ob : sent h = 0%nat -> sent (h ++ [ob]) = (if sends ob then 1 else 0)%nat.
Proof. intros H. unfold sent in *. rewrite List.filter_app, length_app, H. simpl. by destruct (sends ob). Qed.

(** A history in which nothing was sent yet, and then perhaps one answer. *)
Ltac count :=
  cbv [answered]; repeat first [assumption | rewrite sent_after; [reflexivity|] | (rewrite sent_after; [|]) ].
Ltac roam_from := repeat (walk1; try pass; try solve [count]); try solve [count].

Lemma token_answer hist points r :
  sent hist = 0%nat -> holds free hist (as_token apikey roomName points r) answered.
Proof.
  intros H0. unfold as_token, charge, ok, respond. apply holds_bind. walk1; pass; walk1; [|count].
  destruct a; [|walk1; count]. apply checked_answer; [count|]. intros h o Hh. roam_from.
Qed.

Lemma handler_answers c : c <> CallList -> holds free [] (handler temp perm apikey roomName req order c) answered.
Proof.
  intros Hc. destruct c; cbn [handler]; [done|..].
  - unfold generateRoom, charge, respond. roam.
  - unfold createRoom, charge, respond. roam.
  - unfold getRoom, charge, respond. apply holds_bind. walk1; pass; walk1; [|done]. destruct a; [|done].
    apply checked_answer; [done|]. intros h o Hh. roam_from.
  - unfold patchRoom, charge. destruct body as [b|]; [|done]. apply holds_bind. walk1; pass; walk1; [|done].
    destruct a; [|done]. destruct (token req); [|done]. apply checked_answer; [done|].
    intros h o Hh. unfold claim, patch_settings, save_if_permanent, ok, respond. roam_from.
  - unfold deleteRoom, ok, respond. destruct permanent; [|roam]. destruct (user req); [|roam].
    apply checked_answer; [done|]. intros h o Hh. roam_from.
  - unfold undoEvent, as_client, ok, respond. roam.
  - unfold vote, as_client, ok, respond. roam.
  - unfold addToQueue. destruct body as [[]|]; [..|done]; by apply token_answer.
  - unfold updateQueueItem. destruct body as [[]|]; [|done]. by apply token_answer.
  - unfold removeFromQueue. destruct body; [|done]. by apply token_answer.
  - unfold setRoomPasswordHandler, ok, respond. roam.
  - unfold verifyRoomPasswordHandler, ok, respond. roam.
Qed.

(** C37: a request is answered exactly once: in any run of any route, whatever throws, there is one
    response, or one refusal by the rate limiter and nothing after it; the list of rooms alone
    goes unanswered, when the rate limiter itself fails. *)
Theorem answered_once (c : Call) (tr : list Obs) (out : unit + thrown) :
  runs (call c) tr out ->
  (sent tr = 1%nat /\ out = inl tt)
  \/ (c = CallList /\ sent tr = 0%nat /\ exists t, tr = [MkObs (Consume 5) (inr t)] /\ out = inr t).
Proof.
  intros Hr. assert (Hc : c = CallList \/ c <> CallList) by (destruct c; [by left|by right..]). destruct Hc as [->|Hc].
  - set (fin := fun (h : list Obs) (o : unit + thrown) => (sent h = 1%nat /\ o = inl tt)
      \/ (CallList = CallList /\ sent h = 0%nat /\ exists t, h = [MkObs (Consume 5) (inr t)] /\ o = inr t)).
    assert (H : holds free [] (call CallList) fin).
    { cbn [route handler]. unfold listRooms, charge, respond.
      repeat (walk1; try pass; try (left; split; reflexivity); try (right; split; [|split]; [..|eexists]; done)). }
    exact (proj1 (holds_runs free _ _ _ _ _ H Hr)).
  - left. assert (H : holds free [] (call c) (fun h o => sent h = 1%nat /\ o = inl tt)).
    { assert (He : holds free [] (catch (handler temp perm apikey roomName req order c) errorHandler)
                     (fun h o => sent h = 1%nat /\ o = inl tt)).
      { apply holds_catch. eapply holds_mono; [|by apply handler_answers]. intros h [[]|t] Ha; [by split|].
        unfold errorHandler. destruct (error_status t) as [st n]. unfold respond. walk1; pass; split; try done; count. }
      by destruct c. }
    exact (proj1 (holds_runs free _ _ _ _ _ H Hr)).
Qed.

(** ** Owners *)

(** The caller was seen to own the object that the path names. *)
Definition owner_seen (hist : list Obs) (o : nat) (r : Room) : Prop :=
  MkObs (GetRoom roomName) (inl o) ∈ hist /\ MkObs (Look o) (inl r) ∈ hist
  /\ exists u ow, user req = Some u /\ owner r = Some ow /\ user_id ow = user_id u.

Definition entitled (hist : list Obs) (ob : Obs) : Prop :=
  match ob_event ob with
  | UnloadRoom n => n = roomName /\ (admin = true \/ exists o r, owner_seen hist o r)
  | DeleteRow n => n = roomName /\ exists o r, owner_seen hist o r /\ isTemporary r = false
  | SetPassword o _ => exists r, owner_seen hist o r
  | Claim o u => user req = Some u /\ exists r, MkObs (Look o) (inl r) ∈ hist /\ owner r = None
  | _ => True
  end.

Ltac easy_step := match goal with |- entitled _ _ /\ _ => split; [solve [exact I]|cbv beta iota] end.
Ltac roam_entitled := repeat (walk1; try easy_step; try exact I); try exact I.

Lemma entitled_quiet h ob : quiet (ob_event ob) = true -> entitled h ob.
Proof. by destruct ob as [[] ?]. Qed.

Lemma owner_here u ow o r hist :
  user req = Some u -> owner r = Some ow -> (user_id ow =? user_id u) = true ->
  MkObs (GetRoom roomName) (inl o) ∈ hist -> MkObs (Look o) (inl r) ∈ hist -> owner_seen hist o r.
Proof. intros Hu Ho Hid H1 H2. split; [done|]. split; [done|]. exists u, ow. split; [done|]. split; [done|]. lia. Qed.

Lemma delete_entitled permanent : holds entitled [] (deleteRoom apikey roomName req permanent) (fun _ _ => True).
Proof.
  unfold deleteRoom, ok, respond. destruct permanent.
  - destruct (user req) as [u|] eqn:Hu; [|roam_entitled].
    apply (walk_checked _ entitled_quiet). intros h o Ho _. apply holds_bind. walk1; easy_step; walk1; [|exact I].
    destruct (isTemporary a) eqn:Ht; [solve [roam_entitled]|].
    destruct (owner a) as [ow|] eqn:How; cbv beta iota zeta delta [negb]; [|solve [roam_entitled]].
    destruct (user_id ow =? user_id u) eqn:Hid; cbv beta iota zeta delta [negb]; [|solve [roam_entitled]].
    assert (Hseen : forall h', owner_seen ((h ++ [MkObs (Look o) (inl a)]) ++ h') o a).
    { intros h'. apply (owner_here u ow); try done; set_solver. }
    pose proof (Hseen []) as Hs0. rewrite app_nil_r in Hs0.
    apply holds_bind. apply holds_do. intros r0. split; [by split; [done|right; eauto]|].
    destruct r0; [|exact I]. cbv beta iota. walk1. walk1. walk1. walk1. apply holds_do. intros r1.
    split; [split; [done|exists o, a; split; [apply Hseen|done]]|]. destruct r1; cbv beta iota; roam_entitled.
  - destruct (admin) eqn:Ha; [|roam_entitled].
    apply holds_bind. apply holds_do. intros r0. split; [by split; [done|left]|].
    destruct r0; cbv beta iota; roam_entitled.
Qed.

Lemma claim_entitled hist b o :
  holds entitled hist (goes_on ← match b with
                      | PatchClaim c => if c then claim req o else Ret true
                      | PatchSettings l g => patch_settings o l g
                      end;
            if goes_on : bool then save_if_permanent o else Ret tt) (fun _ _ => True).
Proof.
  apply holds_bind. unfold patch_settings, claim, save_if_permanent, ok, respond. destruct b as [l [g|]|[]]; [roam_entitled..| |roam_entitled].
  apply holds_bind. walk1; easy_step; walk1; [|exact I]. destruct (owner a) eqn:How; [roam_entitled|].
  destruct (user req) as [u|] eqn:Hu; [|roam_entitled].
  apply holds_bind. apply holds_do. intros r0. split; [split; [done|exists a; split; [set_solver|done]]|].
  destruct r0; cbv beta iota; roam_entitled.
Qed.

Lemma password_entitled body : holds entitled [] (setRoomPasswordHandler roomName req body) (fun _ _ => True).
Proof.
  unfold setRoomPasswordHandler, ok, respond. destruct body as [p|]; [|exact I].
  apply holds_bind. walk1; easy_step; walk1; [|exact I].
  apply holds_bind. walk1; easy_step; walk1; [|exact I].
  destruct (user req) as [u|] eqn:Hu; [|exact I]. destruct (owner a0) as [ow|] eqn:How; [|exact I].
  destruct (user_id ow =? user_id u) eqn:Hid; [|exact I].
  apply holds_bind. apply holds_do. intros r0. split; [exists a0; apply (owner_here u ow); try done; set_solver|].
  destruct r0; cbv beta iota; roam_entitled.
Qed.

(** C36: a room is its owner's: in any run of any route, a room is deleted from the database only
    after the caller was seen to own the permanent room that the path names, it is unloaded only
    for that owner or for the server's api key, its password is changed only for that owner, and
    it is claimed only when it was seen to have no owner, for the account of the caller. *)
Theorem rooms_belong_to_their_owners (c : Call) (tr pre post : list Obs) (ob : Obs) (out : unit + thrown) :
  runs (call c) tr out -> tr = pre ++ ob :: post -> entitled pre ob.
Proof.
  intros Hr Heq. assert (H : holds entitled [] (call c) (fun _ _ => True)).
  { apply (walk_route _ entitled_quiet). destruct c; cbn [handler].
    - unfold listRooms, charge, respond. roam_entitled.
    - unfold generateRoom, charge, respond. roam_entitled.
    - unfold createRoom, charge, respond. roam_entitled.
    - unfold getRoom, respond. apply (walk_charge _ entitled_quiet). intros h _.
      apply (walk_checked _ entitled_quiet). intros h' o _ _. roam_entitled.
    - unfold patchRoom. destruct body as [b|]; [|exact I]. apply (walk_charge _ entitled_quiet). intros h _.
      destruct (token req); [|exact I]. apply (walk_checked _ entitled_quiet). intros h' o _ _. apply claim_entitled.
    - apply delete_entitled.
    - unfold undoEvent, as_client, ok, respond. roam_entitled.
    - unfold vote, as_client, ok, respond. roam_entitled.
    - unfold addToQueue. destruct body as [[]|]; [..|exact I]; by apply (walk_token _ entitled_quiet).
    - unfold updateQueueItem. destruct body as [[]|]; [|exact I]. by apply (walk_token _ entitled_quiet).
    - unfold removeFromQueue. destruct body; [|exact I]. by apply (walk_token _ entitled_quiet).
    - apply password_entitled.
    - unfold verifyRoomPasswordHandler, ok, respond. roam_entitled. }
  exact (proj2 (holds_runs entitled _ _ _ _ _ H Hr) pre ob post Heq).
Qed.

(** What a claim does to the room object: it has an owner, and nobody came or went. *)
Lemma claim_room_owner u r :
  owner (claim_room u r) = Some u /\ realusers (claim_room u r) = realusers r /\ isTemporary (claim_room u r) = isTemporary r.
Proof.
  unfold claim_room. cbv zeta. repeat case_match; done.
Qed.

(** ** Creating and listing *)

(** What a room may be created with, given what the limiter answered. *)
Definition within_rules (hist : list Obs) (ob : Obs) : Prop :=
  match ob_event ob with
  | CreateRoom b ow =>
      ow = user req
      /\ (if cb_isTemporary b then temp else perm) = true
      /\ MkObs (Consume (if cb_isTemporary b then 50 else 200)) (inl true) ∈ hist
      /\ (cb_visibility b = Some Private -> exists p, cb_password b = Some p /\ p <> ""%string)
  | _ => True
  end.

Ltac plain := match goal with |- within_rules _ _ /\ _ => split; [solve [exact I]|cbv beta iota] end.
Ltac roam_rules := repeat (walk1; try plain; try exact I); try exact I.

Lemma rules_quiet h ob : quiet (ob_event ob) = true -> within_rules h ob.
Proof. by destruct ob as [[] ?]. Qed.

Lemma creating hist b points :
  (if cb_isTemporary b then temp else perm) = true -> points = (if cb_isTemporary b then 50 else 200) ->
  (cb_visibility b = Some Private -> exists p, cb_password b = Some p /\ p <> ""%string) ->
  forall status body,
  holds within_rules hist (charge points (ask (CreateRoom b (user req)) ≫= fun _ => respond status body))
    (fun _ _ => True).
Proof.
  intros Hon -> Hpriv status body. apply (walk_charge _ rules_quiet). intros h Hh. unfold respond.
  apply holds_bind. apply holds_do. intros r.
  split; [done|]. destruct r; cbv beta iota; roam_rules.
Qed.

Lemma create_within hist b : holds within_rules hist (createRoom temp perm req (Some b)) (fun _ _ => True).
Proof.
  unfold createRoom. destruct (create_schema b); cbv beta iota delta [negb]; [|exact I].
  match goal with |- context [if ?x then _ else _] => destruct x eqn:H1 end; [exact I|].
  match goal with |- context [if ?x then refuse _ else if _ then _ else _] => destruct x eqn:H2 end; [exact I|].
  match goal with |- context [if ?x then refuse _ else _] => destruct x eqn:H3 end; [exact I|].
  apply creating.
  - destruct (cb_isTemporary b), temp, perm; done.
  - by destruct (cb_isTemporary b).
  - intros Hv. rewrite Hv, bool_decide_eq_true_2 in H3 by done. destruct (cb_password b) as [p|]; [|done].
    exists p. split; [done|]. intros ->. by rewrite bool_decide_eq_true_2 in H3 by done.
Qed.

(** rooms are created within the rules of the server: in any run of any route, a temporary or a
    permanent room is created only on a server that has such rooms enabled, after the limiter took
    50 points for a temporary and 200 for a permanent one, for the account of the caller, and a
    private room only with a password. *)
Theorem rooms_are_created_within_rules (c : Call) (tr pre post : list Obs) (ob : Obs) (out : unit + thrown) :
  runs (call c) tr out -> tr = pre ++ ob :: post -> within_rules pre ob.
Proof.
  intros Hr Heq. assert (H : holds within_rules [] (call c) (fun _ _ => True)).
  { apply (walk_route _ rules_quiet). destruct c; cbn [handler].
    - unfold listRooms, charge, respond. roam_rules.
    - unfold generateRoom. destruct temp eqn:Htemp; [|exact I]. destruct body as [[skip pw]|]; [|exact I].
      by apply creating.
    - destruct body as [b|]; [|exact I]. apply create_within.
    - unfold getRoom, respond. apply (walk_charge _ rules_quiet). intros h _.
      apply (walk_checked _ rules_quiet). intros h' o _ _. roam_rules.
    - unfold patchRoom. destruct body as [b|]; [|exact I]. apply (walk_charge _ rules_quiet). intros h _.
      destruct (token req); [|exact I]. apply (walk_checked _ rules_quiet). intros h' o _ _.
      unfold claim, patch_settings, save_if_permanent, ok, respond. roam_rules.
    - unfold deleteRoom, ok, respond. destruct permanent; [|roam_rules]. destruct (user req); [|roam_rules].
      apply (walk_checked _ rules_quiet). intros h o _ _. roam_rules.
    - unfold undoEvent, as_client, ok, respond. roam_rules.
    - unfold vote, as_client, ok, respond. roam_rules.
    - unfold addToQueue. destruct body as [[]|]; [..|exact I]; by apply (walk_token _ rules_quiet).
    - unfold updateQueueItem. destruct body as [[]|]; [|exact I]. by apply (walk_token _ rules_quiet).
    - unfold removeFromQueue. destruct body; [|exact I]. by apply (walk_token _ rules_quiet).
    - unfold setRoomPasswordHandler, ok, respond. roam_rules.
    - unfold verifyRoomPasswordHandler, ok, respond. roam_rules. }
  exact (proj2 (holds_runs within_rules _ _ _ _ _ H Hr) pre ob post Heq).
Qed.

Definition shown_public (hist : list Obs) (ob : Obs) : Prop :=
  match ob_event ob with
  | Respond _ (Listed l) =>
      admin = false ->
      (forall l0, MkObs (StoredRooms false) (inl l0) ∈ hist -> exists rows, l0 = getPermanentRoomList rows false) ->
      Forall (fun i => li_visibility i = Public) l
  | _ => True
  end.

Lemma shown_public_quiet h ob : quiet (ob_event ob) = true -> shown_public h ob.
Proof.
  destruct ob as [e r]. destruct e; try discriminate; try by intros _.
  match goal with x : Body |- _ => by destruct x end.
Qed.

Lemma stored_public rows : Forall (fun i => li_visibility i = Public) (getPermanentRoomList rows false).
Proof.
  apply Forall_forall. intros i Hi. unfold getPermanentRoomList in Hi. apply list_elem_of_In in Hi.
  apply filter_In in Hi as [_ Hi]. by apply bool_decide_eq_true_1 in Hi.
Qed.

Lemma merged_public stored loaded :
  Forall (fun i => li_visibility i = Public) stored ->
  Forall (fun i => li_visibility i = Public) (merge_lists false stored loaded).
Proof.
  intros Hs. rewrite Forall_forall in Hs. apply Forall_app. split; apply Forall_forall; intros i Hi; apply list_elem_of_In in Hi.
  - apply filter_In in Hi as [Hi _]. apply Hs. by apply list_elem_of_In.
  - apply in_map_iff in Hi as (x & <- & Hx). apply filter_In in Hx as [_ Hx]. by apply bool_decide_eq_true_1 in Hx.
Qed.

Lemma list_shown hist (b : bool) stored loaded status r :
  (forall l i, i ∈ order l -> i ∈ l) -> b = admin -> MkObs (StoredRooms b) (inl stored) ∈ hist ->
  shown_public hist (MkObs (Respond status (Listed (order (merge_lists admin stored loaded)))) r).
Proof.
  intros Horder Hb Hin. unfold shown_public. cbn [ob_event]. intros Ha Hrows. rewrite Ha in *. subst b.
  destruct (Hrows _ Hin) as [rows ->]. apply Forall_forall. intros i Hi. apply Horder in Hi.
  pose proof (merged_public _ loaded (stored_public rows)) as Hm. rewrite Forall_forall in Hm. by apply Hm.
Qed.

(** the list of rooms keeps rooms that are not public to itself: what a caller without the
    server's api key is shown, from memory and from the database, are public rooms. *)
Theorem lists_show_public_rooms (tr pre post : list Obs) (ob : Obs) (out : unit + thrown) :
  (forall l i, i ∈ order l -> i ∈ l) ->
  runs (call CallList) tr out -> tr = pre ++ ob :: post -> shown_public pre ob.
Proof.
  intros Horder Hr Heq.
  assert (H : holds shown_public [] (call CallList) (fun _ _ => True)).
  { cbn [route handler]. unfold listRooms. apply (walk_charge _ shown_public_quiet). intros h _. unfold respond.
    walk1; [apply holds_do; intros r; by split|]. apply holds_bind, holds_catch, holds_bind.
    apply holds_do. intros [stored|t]; (split; [exact I|]); cbv beta iota; walk1.
    - apply holds_ret. cbv beta iota. apply holds_bind. apply holds_do. intros loaded. split; [exact I|].
      destruct loaded; cbv beta iota; walk1; apply holds_do; intros r;
        (split; [eapply list_shown; [done|reflexivity|set_solver]|exact I]).
    - cbv beta iota. apply holds_ret. cbv beta iota. apply holds_do. intros r. by split. }
  exact (proj2 (holds_runs shown_public _ _ _ _ _ H Hr) pre ob post Heq).
Qed.
End Routes.

(** ** Samples *)

Lemma follow_runs {A} oracle (p : prog A) : forall n tr out,
  follow oracle n p = (tr, out) -> runs p tr out.
Proof.
  induction p as [a|t|e k IH]; intros n tr out H; simpl in *; try (by simplify_eq).
  destruct (follow oracle (S n) (k (oracle n e))) as [tr' out'] eqn:Hf. simplify_eq.
  exists (oracle n e), tr'. split; [done|]. by eapply IH.
Qed.

Lemma followed {A} oracle (p : prog A) out :
  (follow oracle 0 p).2 = out -> runs p (follow oracle 0 p).1 out.
Proof. intros <-. eapply follow_runs, surjective_pairing. Qed.

Definition ann : User := MkUser 7 "ann" None None None None.
Definition ann_req : Req := Accounts.MkReq "1.2.3.4" (Some "t") None (Some ann).
Definition anns_room (ow : option User) : Room :=
  sample_room <| owner := ow |> <| isTemporary := false |>.

(** A server on which every event succeeds, in a room with the given owner. *)
Definition willing (ow : option User) (access : bool) (n : nat) (e : event) : answer e + thrown :=
  match e with
  | Consume _ => inl true
  | HasAccess _ => inl access
  | VerifyPassword _ _ => inl true
  | GetRoom _ | ClientByToken _ => inl 3%nat
  | Look _ => inl (anns_room ow)
  | StoredRooms _ => inl (getPermanentRoomList
      [MkItem "open" "" "" false Public Manual None 0 false; MkItem "hidden" "" "" false Unlisted Manual None 0 false] false)
  | LoadedRooms => inl [(3%nat, anns_room ow)]
  | Attempt _ => inl 0
  | _ => inl tt
  end.
Notation ann_calls ow access c :=
  (follow (willing ow access) 0 (route (P := AccountsTheorems.sample_platform) true true None "room" ann_req id c)).

(** The n-th event of a run, and what came before it. *)
Definition last_of (tr : list Obs) : Obs := List.last tr (MkObs LoadedRooms (inr Unexpected)).

Lemma rooms_open_only_with_access_witness :
  let tr := (ann_calls None true CallGet).1 in
  ob_event (last_of tr) = Respond 200 (Shown 3 (view_of (anns_room None)))
  /\ admitted (P := sample_platform) None "room" ann_req (removelast tr) (last_of tr).
Proof.
  cbv zeta. split; [reflexivity|].
  refine (rooms_open_only_with_access (P := sample_platform) true true None "room" ann_req id CallGet
    (ann_calls None true CallGet).1 _ [] (last_of (ann_calls None true CallGet).1) (inl tt) _ _);
    [apply followed|]; reflexivity.
Defined.

Lemma answered_once_witness :
  let tr := (ann_calls None false CallGet).1 in
  (sent tr = 1%nat /\ inl tt = inl tt :> unit + thrown)
  \/ (CallGet = CallList /\ sent tr = 0%nat /\ exists t, tr = [MkObs (Consume 5) (inr t)] /\ inl tt = inr t :> unit + thrown).
Proof.
  cbv zeta. refine (answered_once (P := sample_platform) true true None "room" ann_req id CallGet
    (ann_calls None false CallGet).1 (inl tt) _). apply followed. reflexivity.
Defined.

Lemma rooms_belong_to_their_owners_witness :
  let tr := (ann_calls (Some ann) true (CallDelete true)).1 in
  ob_event (last_of (removelast tr)) = DeleteRow "room"
  /\ entitled (P := sample_platform) None "room" ann_req (removelast (removelast tr)) (last_of (removelast tr)).
Proof.
  cbv zeta. split; [reflexivity|].
  refine (rooms_belong_to_their_owners (P := sample_platform) true true None "room" ann_req id (CallDelete true)
    (ann_calls (Some ann) true (CallDelete true)).1 _ [last_of (ann_calls (Some ann) true (CallDelete true)).1] _ (inl tt) _ _);
    [apply followed|..]; reflexivity.
Defined.

Definition anns_private : CreateBody := MkCreate "anns" None None false (Some Private) None None (Some "opener").

Lemma rooms_are_created_within_rules_witness :
  let tr := (ann_calls None true (CallCreate (Some anns_private))).1 in
  ob_event (last_of (removelast tr)) = CreateRoom anns_private (Some ann)
  /\ within_rules true true ann_req (removelast (removelast tr)) (last_of (removelast tr)).
Proof.
  cbv zeta. split; [reflexivity|].
  refine (rooms_are_created_within_rules (P := sample_platform) true true None "room" ann_req id (CallCreate (Some anns_private))
    (ann_calls None true (CallCreate (Some anns_private))).1 _
    [last_of (ann_calls None true (CallCreate (Some anns_private))).1] _ (inl tt) _ _);
    [apply followed|..]; reflexivity.
Defined.

Lemma lists_show_public_rooms_witness :
  let tr := (ann_calls None true CallList).1 in
  shown_public (P := sample_platform) None (removelast tr) (last_of tr).
Proof.
  cbv zeta. refine (lists_show_public_rooms (P := sample_platform) true true None "room" ann_req id
    (ann_calls None true CallList).1 _ [] _ (inl tt) _ _ _); [done|apply followed; reflexivity|reflexivity].
Defined.

(** When the limiter cannot be asked, the list of rooms is never answered; every other route says
    that something went wrong. *)
Example list_hangs_without_redis :
  let down (n : nat) (e : event) : answer e + thrown := match e with Respond _ _ => inl tt | _ => inr Unexpected end in
  let run c := (follow down 0 (route (P := sample_platform) true true None "room" ann_req id c)).1 in
  sent (run CallList) = 0%nat /\ sent (run CallGet) = 1%nat.
Proof. split; reflexivity. Qed.

(** A patch that declines to claim writes the row of a permanent room, for anybody who may enter. *)
Example declined_claim_saves_the_room :
  let req := Accounts.MkReq "1.2.3.4" (Some "t") None None in
  let tr := (follow (willing (Some ann) true) 0
    (route (P := sample_platform) true true None "room" req id (CallPatch (Some (PatchClaim false))))).1 in
  map ob_event tr = [Consume 10; GetRoom "room"; HasAccess 3; Look 3; SaveRoom 3; Respond 200 Success].
Proof. reflexivity. Qed.
