(* ===== verification/MediaRecovery.v ===== *)
(** * MediaRecovery: how a player gets over a failing source

    [createMediaRecovery] of [client/src/util/media-recovery.ts] on top of [createMediaSeek] of
    [client/src/util/media-seek.ts]: the retries of a failed request, their deadline, the place
    the viewer was at, and the ladder for playback that stops advancing.

    The media element is part of the state; between two calls it changes as it likes.  What the
    browser makes of an assignment to [currentTime] or [playbackRate] is a function of the call's
    [World], which may refuse; so is what the player's [restart] does: it may report an error of
    its own before it returns, it may throw, and the promise it returns settles later.  Timers are
    due instants. *)

From S2P Require Import Prelude.

Module Recovery.

Definition NETWORK_RETRY_DELAYS_MS : list Z := [1000; 3000; 6000].
Definition RECOVERY_TIMEOUT_MS : Z := 30000.
Definition STALL_TRIGGER_MS : Z := 8000.
Definition STALL_CHECK_INTERVAL_MS : Z := 1000.
Definition STALL_NUDGE_SECONDS : Q := 3 # 10.
Definition STALL_SKIP_SECONDS : Q := 3.
Definition STALL_POSITION_EPSILON : Q := 1 # 2.
Definition RESTORE_SEEK_TOLERANCE_SECONDS : Q := 1 # 4.
Definition SEEK_TOLERANCE_SECONDS : Q := 1 # 20.

(** ** The element, errors, and what a call finds *)

Record Media := MkMedia {
  currentTime : Q;
  playbackRate : Q;
  duration : num;
  readyState : Z;
  paused : bool;
  m_seeking : bool;
  m_error : bool;
  hasSource : bool;
}.
#[global] Instance eta_Media : Eta Media := fun m =>
  MkMedia (currentTime m) (playbackRate m) (duration m) (readyState m) (paused m) (m_seeking m)
    (m_error m) (hasSource m).

Inductive ErrorType := Unknown | Network | Decode | Unsupported.
#[global] Instance ErrorType_eq : EqDecision ErrorType.
Proof. solve_decision. Defined.

(** A [MediaPlayerError] without its message. *)
Record MediaPlayerError := MkError { e_type : ErrorType; retryable : option bool }.

(** [nativeMediaError]: the code of the element's error. *)
Definition nativeMediaError (code : option Z) : option MediaPlayerError :=
  match code with
  | Some c =>
      if c =? 2 then Some (MkError Network None)
      else if c =? 3 then Some (MkError Decode None)
      else if c =? 4 then Some (MkError Unsupported (Some false))
      else None
  | None => None
  end.

Record World := MkWorld {
  now : Z;
  hidden : bool;
  stallFirstResponse_reload : bool;
  restart_reports : option MediaPlayerError;
  restart_throws : bool;
  set_currentTime : Media -> Q -> option Media;
  set_playbackRate : Media -> Q -> option Media;
}.

(** ** The state *)

Inductive Phase := Loading | Ready | Scheduled | Recovering | Failed | Disposed.
#[global] Instance Phase_eq : EqDecision Phase.
Proof. solve_decision. Defined.

Record PlaybackSnapshot := MkSnapshot { position : Q; rate : Q }.
#[global] Instance eta_Snapshot : Eta PlaybackSnapshot := fun p => MkSnapshot (position p) (rate p).

(** The one timer is a retry or the deadline of an attempt. *)
Inductive Timer := RetryAt (due : Z) | DeadlineAt (due : Z).
Definition due_of (t : Timer) : Z := match t with RetryAt d | DeadlineAt d => d end.

(** What is told to the player and asked of the element; [OStall] notes
    a tick that found playback stopped: where the element was, and the rung of the ladder. *)
Inductive effect :=
| ORecovering
| OError (e : MediaPlayerError)
| ORestart (e : MediaPlayerError) (manual : bool)
| OStall (at_position : Q) (rung : Z)
| OStallSkip
| OPlay
| OPause
| OThrow.

Record Rec := MkRec {
  phase : Phase;
  desiredPlaying : bool;
  snapshot : option PlaybackSnapshot;
  networkAttempts : nat;
  decodeAttempts : nat;
  generation : Z;
  timer : option Timer;
  lastError : MediaPlayerError;
  stallWatch : option Z;
  lastStallPosition : Q;
  lastStallProgressAt : Z;
  stallAnchor : option Q;
  stallAttemptsAtAnchor : Z;
  target : option Q;
  media : option Media;
  restarts : list Z;
  trace : list effect;
}.
#[global] Instance eta_Rec : Eta Rec := fun s =>
  MkRec (phase s) (desiredPlaying s) (snapshot s) (networkAttempts s) (decodeAttempts s) (generation s)
    (timer s) (lastError s) (stallWatch s) (lastStallPosition s) (lastStallProgressAt s) (stallAnchor s)
    (stallAttemptsAtAnchor s) (target s) (media s) (restarts s) (trace s).

Definition createMediaRecovery : Rec :=
  MkRec Loading false (Some (MkSnapshot 0 1)) 0 0 0 None (MkError Network None) None (-1) 0 None 0 None None [] [].

Definition emit (e : effect) (s : Rec) : Rec := s <| trace ::= fun t => t ++ [e] |>.

(** ** Seeking *)

Definition pause_media (s : Rec) : Rec :=
  match media s with Some m => emit OPause (s <| media := Some (m <| paused := true |>) |>) | None => s end.
Definition play_media (s : Rec) : Rec :=
  match media s with Some m => emit OPlay (s <| media := Some (m <| paused := false |>) |>) | None => s end.

(** Whether it threw comes with the state. *)
Definition seek (w : World) (position : num) (s : Rec) : Rec * bool :=
  match media s, position with
  | Some m, Fin p =>
      if Qlt_bool p 0 then (s, false)
      else if Qle_bool (Qabs' (currentTime m - p)) SEEK_TOLERANCE_SECONDS then (s, false)
      else
        let s := pause_media (s <| target := Some p |>) in
        match set_currentTime w (m <| paused := true |>) p with
        | Some m' => (s <| media := Some m' |>, false)
        | None => (s <| target := None |>, true)
        end
  | _, _ => (s, false)
  end.

Definition seek_ready (s : Rec) : Rec * bool :=
  match media s with
  | None => (s, false)
  | Some m =>
      if m_error m || m_seeking m || (readyState m <? 2) then (s, false)
      else
        match target s with
        | Some t => if Qlt_bool (1 # 2) (Qabs' (currentTime m - t)) then (s, false) else (s <| target := None |>, true)
        | None => (s <| target := None |>, true)
        end
  end.

Definition pending (s : Rec) : bool := match target s with Some _ => true | None => false end.

(** ** Recovery *)

Definition clearTimer (s : Rec) : Rec := s <| timer := None |>.
Definition stopStallWatch (s : Rec) : Rec := s <| stallWatch := None |>.

Definition capture (s : Rec) : Rec :=
  match snapshot s with
  | Some _ => s
  | None =>
      s <| snapshot := Some (match media s with
                             | Some m => MkSnapshot (Qmax' 0 (currentTime m)) (playbackRate m)
                             | None => MkSnapshot 0 1
                             end) |>
  end.

Definition media_rate (s : Rec) : Q := match media s with Some m => playbackRate m | None => 1 end.

Definition reset (s : Rec) : Rec :=
  let s := s <| generation ::= Z.succ |> <| target := None |> in
  let s := stopStallWatch (clearTimer s) in
  s <| stallAnchor := None |> <| stallAttemptsAtAnchor := 0 |> <| networkAttempts := 0%nat |>
    <| decodeAttempts := 0%nat |> <| lastError := MkError Network None |>
    <| snapshot := Some (MkSnapshot 0 (media_rate s)) |> <| phase := Loading |>.

Definition fail (e : MediaPlayerError) (s : Rec) : Rec :=
  emit (OError e) (stopStallWatch (clearTimer s) <| phase := Failed |>).

Definition retriable (e : MediaPlayerError) : bool :=
  negb (bool_decide (retryable e = Some false)) && bool_decide (e_type e = Network \/ e_type e = Decode).

(** The wait before the next attempt, with the attempt counted. *)
Definition next_delay (e : MediaPlayerError) (s : Rec) : option Z * Rec :=
  if decide (e_type e = Network) then
    (NETWORK_RETRY_DELAYS_MS !! networkAttempts s, s <| networkAttempts ::= S |>)
  else (if (decodeAttempts s =? 0)%nat then Some 1000 else None, s <| decodeAttempts ::= S |>).

Definition handleError (w : World) (e : MediaPlayerError) (s : Rec) : Rec :=
  if decide (phase s = Disposed \/ phase s = Failed) then s
  else
    let s := capture s in
    if negb (retriable e) then fail e (s <| lastError := e |>)
    else if decide (phase s = Scheduled) then s
    else
      let '(delay, s) := next_delay e (clearTimer (s <| lastError := e |>)) in
      match delay with
      | None => fail e s
      | Some d => emit ORecovering (s <| phase := Scheduled |>) <| timer := Some (RetryAt (now w + d)) |>
      end.

Definition runRecovery (w : World) (manual : bool) (s : Rec) : Rec :=
  let s := clearTimer s <| target := None |> <| phase := Recovering |> in
  let currentGeneration := generation s in
  let s := s <| timer := Some (DeadlineAt (now w + RECOVERY_TIMEOUT_MS)) |> in
  let s := emit (ORestart (lastError s) manual) s in
  let s := match restart_reports w with Some e => handleError w e s | None => s end in
  if restart_throws w then handleError w (lastError s) s
  else s <| restarts ::= fun l => l ++ [currentGeneration] |>.

(** The promise of a restart settles. *)
Definition restart_settles (w : World) (i : nat) (rejected : bool) (s : Rec) : Rec :=
  match restarts s !! i with
  | None => s
  | Some g =>
      let s := s <| restarts ::= fun l => take i l ++ drop (S i) l |> in
      if rejected && (generation s =? g) && negb (bool_decide (phase s = Disposed))
      then handleError w (lastError s) s else s
  end.

(** The timer fires when it is due. *)
Definition timer_fires (w : World) (s : Rec) : Rec :=
  match timer s with
  | Some (RetryAt d) => if d <=? now w then runRecovery w false s else s
  | Some (DeadlineAt d) => if d <=? now w then handleError w (lastError s) (clearTimer s) else s
  | None => s
  end.

Definition retry (w : World) (s : Rec) : Rec :=
  if decide (phase s = Disposed) then s
  else
    let s := capture (s <| generation ::= Z.succ |>) in
    let s := s <| networkAttempts := 0%nat |> <| decodeAttempts := 0%nat |> in
    runRecovery w true (emit ORecovering s).

(** ** Playback that stops advancing *)

Definition noteStallProgress (w : World) (m : Media) (s : Rec) : Rec :=
  s <| lastStallPosition := currentTime m |> <| lastStallProgressAt := now w |>.

Definition recoverFromStall (w : World) (m : Media) (s : Rec) : Rec :=
  let position := currentTime m in
  let sameSpot := match stallAnchor s with
                  | Some a => Qle_bool (Qabs' (position - a)) STALL_POSITION_EPSILON
                  | None => false
                  end in
  let s := s <| stallAttemptsAtAnchor ::= fun n => if sameSpot then n + 1 else 1 |> <| stallAnchor := Some position |> in
  let s := emit (OStall position (stallAttemptsAtAnchor s)) (noteStallProgress w m s) in
  if stallAttemptsAtAnchor s =? 1 then
    if stallFirstResponse_reload w then runRecovery w false (capture s) else s
  else
    let skipped := if stallAttemptsAtAnchor s =? 2 then STALL_NUDGE_SECONDS else STALL_SKIP_SECONDS in
    let '(s, thrown) := seek w (Fin (position + skipped)) s in
    if thrown : bool then emit OThrow s
    else
      let s := play_media s in
      if 3 <=? stallAttemptsAtAnchor s then emit OStallSkip s else s.

Definition startStallWatch (w : World) (s : Rec) : Rec :=
  match stallWatch s with
  | Some _ => s
  | None =>
      let s := match media s with Some m => noteStallProgress w m s | None => s end in
      s <| stallWatch := Some (now w + STALL_CHECK_INTERVAL_MS) |>
  end.

Definition stall_check (w : World) (s : Rec) : Rec :=
  match media s with
  | None => s
  | Some m =>
      if decide (phase s <> Ready) then s
      else if hidden w then noteStallProgress w m s
      else if paused m || m_seeking m || (3 <=? readyState m) then noteStallProgress w m s
      else if Qlt_bool (1 # 20) (Qabs' (currentTime m - lastStallPosition s)) then noteStallProgress w m s
      else if now w - lastStallProgressAt s <? STALL_TRIGGER_MS then s
      else recoverFromStall w m s
  end.

(** The interval runs its callback when it is due, and again a second later. *)
Definition stall_tick (w : World) (s : Rec) : Rec :=
  match stallWatch s with
  | Some d => if d <=? now w then stall_check w (s <| stallWatch := Some (now w + STALL_CHECK_INTERVAL_MS) |>) else s
  | None => s
  end.

(** ** The calls of the player *)

(** Where in the new source the saved place is. *)
Definition restored_position (m : Media) (snap : PlaybackSnapshot) : Q :=
  match duration m with
  | Fin d => if Qlt_bool 0 d then Qmin' (position snap) (Qmax' 0 (d - (1 # 10))) else position snap
  | _ => position snap
  end.

Definition restoreMetadata (w : World) (s : Rec) : Rec * bool :=
  match media s with
  | None => (s, false)
  | Some m =>
      if (readyState m <? 1) || bool_decide (phase s = Scheduled \/ phase s = Failed \/ phase s = Disposed) then (s, false)
      else
        match snapshot s with
        | None => (s, true)
        | Some snap =>
            let place := restored_position m snap in
            let '(s, thrown) :=
              if Qlt_bool (1 # 10) (position snap)
                 && Qlt_bool RESTORE_SEEK_TOLERANCE_SECONDS (Qabs' (currentTime m - place))
              then seek w (Fin place) s else (s, false) in
            if thrown : bool then (s, false)
            else
              match media s with
              | Some m' =>
                  match set_playbackRate w m' (rate snap) with
                  | Some m'' => (s <| media := Some m'' |>, true)
                  | None => (s, false)
                  end
              | None => (s, false)
              end
        end
  end.

Definition canPlay (w : World) (s : Rec) : Rec * bool :=
  let readyState := match media s with Some m => readyState m | None => 0 end in
  if bool_decide (phase s = Scheduled \/ phase s = Failed \/ phase s = Disposed) || (readyState <? 2) then (s, false)
  else
    let '(s, restored) := restoreMetadata w s in
    if negb restored then (s, false)
    else
      let '(s, ready) := seek_ready s in
      if negb ready then (s, false)
      else
        let s := clearTimer (s <| snapshot := None |>) <| phase := Ready |> in
        let s := startStallWatch w s in
        (if desiredPlaying s then s else pause_media s, true).

Definition play (userInitiated : bool) (s : Rec) : Rec :=
  let s := s <| desiredPlaying := true |> in
  let source := match media s with Some m => hasSource m | None => false end in
  if (negb (pending s) || userInitiated)
     && (bool_decide (phase s = Ready) || (bool_decide (phase s = Loading) && source))
  then play_media s else s.

Definition pause (s : Rec) : Rec := pause_media (s <| desiredPlaying := false |>).

Definition getPosition (s : Rec) : Q :=
  match snapshot s, media s with
  | Some snap, _ => position snap
  | None, Some m => currentTime m
  | None, None => 0
  end.

Definition setPosition (w : World) (p : num) (s : Rec) : Rec :=
  match p with
  | Fin q =>
      if Qlt_bool q 0 then s
      else
        match snapshot s with
        | Some snap => s <| snapshot := Some (snap <| position := q |>) |>
        | None => let '(s, thrown) := seek w p s in if thrown : bool then emit OThrow s else s
        end
  | _ => s
  end.

Definition setPlaybackRate (w : World) (r : Q) (s : Rec) : Rec :=
  let s := match snapshot s with Some snap => s <| snapshot := Some (snap <| rate := r |>) |> | None => s end in
  match media s with
  | Some m =>
      match set_playbackRate w m r with
      | Some m' => s <| media := Some m' |>
      | None => emit OThrow s
      end
  | None => s
  end.

Definition dispose (s : Rec) : Rec :=
  stopStallWatch (clearTimer (s <| generation ::= Z.succ |> <| phase := Disposed |>)).

Definition isRecovering (s : Rec) : bool :=
  bool_decide (phase s = Loading \/ phase s = Scheduled \/ phase s = Recovering).
Definition isSeeking (s : Rec) : bool :=
  pending s || match media s with Some m => m_seeking m | None => false end.
Definition isFailed (s : Rec) : bool := bool_decide (phase s = Failed).

(** ** Runs *)

Inductive Call :=
| CReset | CRetry | CError (e : MediaPlayerError) | CMetadata | CCanPlay | CPlay (userInitiated : bool) | CPause
| CSetPosition (p : num) | CSetRate (r : Q) | CDispose
| CTimer | CStallTick | CSettles (i : nat) (rejected : bool) | CMedia (m : option Media).

Definition perform (w : World) (c : Call) (s : Rec) : Rec :=
  match c with
  | CReset => reset s
  | CRetry => retry w s
  | CError e => handleError w e s
  | CMetadata => (restoreMetadata w s).1
  | CCanPlay => (canPlay w s).1
  | CPlay u => play u s
  | CPause => pause s
  | CSetPosition p => setPosition w p s
  | CSetRate r => setPlaybackRate w r s
  | CDispose => dispose s
  | CTimer => timer_fires w s
  | CStallTick => stall_tick w s
  | CSettles i rejected => restart_settles w i rejected s
  | CMedia m => s <| media := m |>
  end.

Definition run (l : list (World * Call)) (s : Rec) : Rec := fold_left (fun s x => perform x.1 x.2 s) l s.

(** The states the engine gets to, with the instant of the last call. *)
Inductive reachable : Z -> Rec -> Prop :=
| reach_new t : reachable t createMediaRecovery
| reach_step t s w c : reachable t s -> t <= now w -> reachable (now w) (perform w c s).

End Recovery.
