(* ===== verification/MediaRecoveryTheorems.v ===== *)
(** * MediaRecoveryTheorems: recovery ends, is bounded, and brings the viewer back

    The shape of a state in each phase; how an error and an attempt change it; that an attempt to
    recover is over in bounded time whatever else is called; that a source is fetched again a
    bounded number of times; and that a viewer comes back where it was. *)

From Stdlib Require Import Lqa Qminmax.
From S2P Require Import Prelude MediaRecovery.
Import Recovery.

(** ** What a call leaves alone *)

(** The part of the state the retries depend on. *)
Definition core (s : Rec) : Phase * nat * nat * Z * option Timer * MediaPlayerError * option Z :=
  (phase s, networkAttempts s, decodeAttempts s, generation s, timer s, lastError s, stallWatch s).

Lemma core_pause s : core (pause_media s) = core s.
Proof. unfold pause_media. by destruct (media s). Qed.
Lemma core_play s : core (play_media s) = core s.
Proof. unfold play_media. by destruct (media s). Qed.
Lemma core_target v s : core (s <| target := v |>) = core s.
Proof. done. Qed.
Lemma core_seek w p s : core (seek w p s).1 = core s.
Proof. unfold seek, pause_media. cbv zeta. repeat case_match; done. Qed.
Lemma core_capture s : core (capture s) = core s.
Proof. unfold capture. by destruct (snapshot s). Qed.
Lemma core_emit e s : core (emit e s) = core s.
Proof. done. Qed.
Lemma core_progress w m s : core (noteStallProgress w m s) = core s.
Proof. done. Qed.
Lemma core_metadata w s : core (restoreMetadata w s).1 = core s.
Proof.
  unfold restoreMetadata. destruct (media s) as [m|]; [|done].
  destruct (_ || _); [done|]. destruct (snapshot s) as [snap|]; [|done]. cbv zeta.
  pose proof (core_seek w (Fin (restored_position m snap)) s) as Hs.
  destruct (Qlt_bool _ _ && _).
  - destruct (seek w _ s) as [s1 b]. cbn [fst] in Hs. destruct b; [done|]. repeat case_match; done.
  - repeat case_match; done.
Qed.
Lemma core_ready s : core (seek_ready s).1 = core s.
Proof. unfold seek_ready. repeat case_match; done. Qed.

Lemma snapshot_pause s : snapshot (pause_media s) = snapshot s.
Proof. unfold pause_media. by destruct (media s). Qed.
Lemma snapshot_play s : snapshot (play_media s) = snapshot s.
Proof. unfold play_media. by destruct (media s). Qed.
Lemma snapshot_seek w p s : snapshot (seek w p s).1 = snapshot s.
Proof. unfold seek, pause_media. cbv zeta. repeat case_match; done. Qed.
Lemma snapshot_metadata w s : snapshot (restoreMetadata w s).1 = snapshot s.
Proof.
  unfold restoreMetadata. destruct (media s) as [m|]; [|done].
  destruct (_ || _); [done|]. destruct (snapshot s) as [snap|] eqn:Hsnap; [|done]. cbv zeta.
  pose proof (snapshot_seek w (Fin (restored_position m snap)) s) as Hs.
  destruct (Qlt_bool _ _ && _).
  - destruct (seek w _ s) as [s1 b]. cbn [fst] in Hs. rewrite Hsnap in Hs. destruct b; [done|]. repeat case_match; done.
  - repeat case_match; done.
Qed.
Lemma snapshot_ready s : snapshot (seek_ready s).1 = snapshot s.
Proof. unfold seek_ready. repeat case_match; done. Qed.
Lemma capture_some s : is_Some (snapshot (capture s)).
Proof. unfold capture. destruct (snapshot s) eqn:H; [by rewrite H|by eexists]. Qed.
Lemma capture_keeps s snap : snapshot s = Some snap -> capture s = s.
Proof. unfold capture. by intros ->. Qed.

(** The attempts that are left. *)
Definition rem (s : Rec) : nat := (3 - networkAttempts s + (1 - decodeAttempts s))%nat.
Definition busy (s : Rec) : Prop := phase s = Scheduled \/ phase s = Recovering.
(** How many turns of the timer are left at most. *)
Definition turns (s : Rec) : nat := (2 * rem s + if decide (phase s = Recovering) then 1 else 2)%nat.

(** ** Errors *)

(** What [handleError] comes to. *)
Inductive errored (w : World) (s s' : Rec) : Prop :=
| errored_same :
    core s' = core s -> trace s' = trace s -> (phase s = Disposed \/ phase s = Failed \/ phase s = Scheduled) ->
    (snapshot s' = snapshot s \/ phase s = Scheduled /\ snapshot s' = snapshot (capture s)) -> errored w s s'
| errored_failed e :
    phase s <> Disposed -> phase s <> Failed ->
    phase s' = Failed -> timer s' = None -> stallWatch s' = None -> (rem s' <= rem s)%nat -> generation s' = generation s ->
    trace s' = trace s ++ [OError e] -> snapshot s' = snapshot (capture s) -> errored w s s'
| errored_scheduled d :
    phase s <> Disposed -> phase s <> Failed -> phase s <> Scheduled ->
    phase s' = Scheduled -> timer s' = Some (RetryAt (now w + d)) -> 1000 <= d <= 6000 ->
    stallWatch s' = stallWatch s -> S (rem s') = rem s -> generation s' = generation s ->
    trace s' = trace s ++ [ORecovering] -> snapshot s' = snapshot (capture s) -> errored w s s'.

Lemma next_delay_spec e s :
  let '(d, s') := next_delay e s in
  (phase s', generation s', timer s', stallWatch s', trace s', snapshot s')
    = (phase s, generation s, timer s, stallWatch s, trace s, snapshot s)
  /\ (rem s' <= rem s)%nat
  /\ match d with Some d => 1000 <= d <= 6000 /\ S (rem s') = rem s | None => True end.
Proof.
  unfold next_delay, rem. case_decide; cbn.
  - destruct (networkAttempts s) as [|[|[|n]]]; cbn; repeat split; try lia; done.
  - destruct (decodeAttempts s) as [|n]; cbn; repeat split; try lia; done.
Qed.

Lemma trace_capture s : trace (capture s) = trace s.
Proof. unfold capture. by destruct (snapshot s). Qed.

Lemma handleError_spec w e s : errored w s (handleError w e s).
Proof.
  unfold handleError. case_decide as Hd.
  { apply errored_same; [done..|naive_solver|by left]. }
  pose proof (core_capture s) as Hc. pose proof (trace_capture s) as Ht.
  unfold core in Hc. injection Hc as Hph Hna Hda Hg Htm Hle Hsw. cbv zeta.
  destruct (retriable e); cbn [negb].
  - case_decide as Hs.
    { apply errored_same; [unfold core; congruence|done|right; right; congruence|right; split; [congruence|done]]. }
    assert (Hr : rem (clearTimer ((capture s) <| lastError := e |>)) = rem s) by (unfold rem; cbn; congruence).
    pose proof (next_delay_spec e (clearTimer ((capture s) <| lastError := e |>))) as Hn. rewrite Hr in Hn.
    destruct (next_delay e _) as [[d|] s1]; destruct Hn as (Heq & Hrem & Hd'); cbn in Heq; injection Heq as ? ? ? ? ? ?.
    + destruct Hd' as [? ?]. eapply (errored_scheduled w s _ d); try done; try (cbn; congruence); naive_solver.
    + eapply (errored_failed w s _ e); try done; try (cbn; congruence); naive_solver.
  - assert (Hr : rem (capture s) = rem s) by (unfold rem; congruence).
    eapply (errored_failed w s _ e); cbn; try congruence; try naive_solver.
    change (rem (capture s) <= rem s)%nat. lia.
Qed.

(** ** Attempts *)

(** What [runRecovery] starts with. *)
Definition attempt (w : World) (manual : bool) (s : Rec) : Rec :=
  emit (ORestart (lastError s) manual)
    (s <| target := None |> <| phase := Recovering |> <| timer := Some (DeadlineAt (now w + RECOVERY_TIMEOUT_MS)) |>).

(** From there it meets no error or up to two. *)
Inductive erroring (w : World) : Rec -> Rec -> Prop :=
| erring_none s s' : core s' = core s -> trace s' = trace s -> snapshot s' = snapshot s -> erroring w s s'
| erring_more s s1 s2 : errored w s s1 -> erroring w s1 s2 -> erroring w s s2.

Lemma runRecovery_spec w manual s : erroring w (attempt w manual s) (runRecovery w manual s).
Proof.
  unfold runRecovery. cbv zeta. fold (attempt w manual s).
  change (emit _ _) with (attempt w manual s).
  assert (Hend : forall s1, erroring w s1 (if restart_throws w then handleError w (lastError s1) s1
                                           else s1 <| restarts ::= fun l => l ++ [generation s] |>)).
  { intros s1. destruct (restart_throws w).
    - eapply erring_more; [apply handleError_spec|]. by apply erring_none.
    - by apply erring_none. }
  destruct (restart_reports w) as [e|]; [|apply Hend].
  eapply erring_more; [apply handleError_spec|apply Hend].
Qed.

(** ** The shape of a state *)

Definition well_formed (t : Z) (s : Rec) : Prop :=
  match phase s with
  | Loading => timer s = None /\ is_Some (snapshot s) /\ stallWatch s = None
  | Ready => timer s = None /\ snapshot s = None
  | Scheduled => (exists d, timer s = Some (RetryAt d) /\ d <= t + 6000) /\ is_Some (snapshot s)
  | Recovering => (exists d, timer s = Some (DeadlineAt d) /\ d <= t + RECOVERY_TIMEOUT_MS) /\ is_Some (snapshot s)
  | Failed => timer s = None /\ is_Some (snapshot s) /\ stallWatch s = None
  | Disposed => timer s = None /\ stallWatch s = None
  end.

Lemma well_formed_later t t' s : t <= t' -> well_formed t s -> well_formed t' s.
Proof. unfold well_formed. intros Ht H. destruct (phase s); try done; destruct H as [(d & ? & ?) ?]; (split; [exists d; split; [done|lia]|done]). Qed.

(** A call that leaves the core alone, and a snapshot where it is. *)
Lemma well_formed_core t s s' :
  core s' = core s -> (is_Some (snapshot s') <-> is_Some (snapshot s)) -> well_formed t s -> well_formed t s'.
Proof.
  unfold core, well_formed. intros Hc Hs H. injection Hc as -> _ _ _ -> _ ->.
  destruct (phase s); try done; try naive_solver.
  destruct H as [? H]. split; [done|]. destruct (snapshot s'); [|done]. rewrite H in Hs. naive_solver.
Qed.

Lemma errored_well_formed w s s' : well_formed (now w) s -> errored w s s' -> well_formed (now w) s'.
Proof.
  intros H [Hc _ Hp Hs|e _ _ Hp Ht Hsw _ _ _ Hs|d _ _ _ Hp Ht ? _ _ _ _ Hs].
  - apply (well_formed_core _ s); try done. destruct Hs as [->|[Hsch ->]]; [done|].
    unfold well_formed in H. rewrite Hsch in H. split; intros _; [tauto|apply capture_some].
  - unfold well_formed. rewrite Hp, Hs. split; [done|]. split; [apply capture_some|done].
  - unfold well_formed. rewrite Hp, Hs. split; [exists (now w + d); split; [done|lia]|apply capture_some].
Qed.

Lemma erroring_well_formed w s s' : erroring w s s' -> well_formed (now w) s -> well_formed (now w) s'.
Proof.
  induction 1 as [s s' Hc _ Hs|s s1 s2 H1 _ IH]; intros H.
  - apply (well_formed_core _ s); [done|by rewrite Hs|done].
  - apply IH. by eapply errored_well_formed.
Qed.

Lemma attempt_well_formed w manual s : is_Some (snapshot s) -> well_formed (now w) (attempt w manual s).
Proof. intros H. split; [|done]. exists (now w + RECOVERY_TIMEOUT_MS). split; [done|lia]. Qed.

Lemma recovery_well_formed w manual s : is_Some (snapshot s) -> well_formed (now w) (runRecovery w manual s).
Proof. intros H. eapply erroring_well_formed; [apply runRecovery_spec|]. by apply attempt_well_formed. Qed.

Lemma errored_shape w s s' :
  phase s <> Disposed -> phase s <> Failed -> phase s <> Scheduled -> errored w s s' -> well_formed (now w) s'.
Proof.
  intros ? ? ? [_ _ Hp _|e _ _ Hp Ht Hsw _ _ _ Hs|d _ _ _ Hp Ht ? _ _ _ _ Hs]; [naive_solver|..];
    unfold well_formed; rewrite Hp, Hs.
  - split; [done|]. split; [apply capture_some|done].
  - split; [exists (now w + d); split; [done|lia]|apply capture_some].
Qed.

(** ** The calls of the player *)

(** [canPlay] either changes nothing that matters or ends the recovery. *)
Lemma canPlay_spec w s :
  let '(s', b) := canPlay w s in
  if b then (phase s = Loading \/ phase s = Ready \/ phase s = Recovering) /\ phase s' = Ready /\ timer s' = None /\ snapshot s' = None
            /\ networkAttempts s' = networkAttempts s /\ decodeAttempts s' = decodeAttempts s
  else core s' = core s /\ snapshot s' = snapshot s.
Proof.
  unfold canPlay. cbv zeta. destruct (bool_decide _ || _) eqn:Hb; [done|].
  pose proof (core_metadata w s) as Hc. pose proof (snapshot_metadata w s) as Hs.
  destruct (restoreMetadata w s) as [s1 b1]. cbn [fst] in *. destruct b1; cbn [negb]; [|done].
  pose proof (core_ready s1) as Hc2. pose proof (snapshot_ready s1) as Hs2.
  destruct (seek_ready s1) as [s2 b2]. cbn [fst] in *. destruct b2; cbn [negb]; [|split; congruence].
  apply orb_false_iff in Hb as [Hb _]. apply bool_decide_eq_false_1 in Hb.
  split; [destruct (phase s); naive_solver|].
  set (s3 := startStallWatch w _).
  assert (H3 : phase s3 = Ready /\ timer s3 = None /\ snapshot s3 = None
               /\ networkAttempts s3 = networkAttempts s2 /\ decodeAttempts s3 = decodeAttempts s2).
  { subst s3. unfold startStallWatch. cbn. by destruct (stallWatch s2), (media s2). }
  unfold core in Hc, Hc2. injection Hc as _ ? ? _ _ _ _. injection Hc2 as _ ? ? _ _ _ _.
  destruct (desiredPlaying s3); [by naive_solver congruence|].
  pose proof (core_pause s3) as Hp. pose proof (snapshot_pause s3) as Hps. unfold core in Hp. injection Hp as ? ? ? _ ? _ _.
  naive_solver congruence.
Qed.

Lemma setPosition_core w p s :
  core (setPosition w p s) = core s /\ (is_Some (snapshot (setPosition w p s)) <-> is_Some (snapshot s)).
Proof.
  unfold setPosition. destruct p as [q| |]; [|done..]. destruct (Qlt_bool q 0); [done|].
  destruct (snapshot s) as [snap|] eqn:Hs; [split; [done|by split; eexists]|].
  pose proof (core_seek w (Fin q) s) as Hc. pose proof (snapshot_seek w (Fin q) s) as Hk.
  destruct (seek w (Fin q) s) as [s1 b]. cbn [fst] in *. rewrite <- Hs. destruct b; (split; [done|by cbn; rewrite Hk]).
Qed.

Lemma setPlaybackRate_core w r s :
  core (setPlaybackRate w r s) = core s /\ (is_Some (snapshot (setPlaybackRate w r s)) <-> is_Some (snapshot s)).
Proof.
  unfold setPlaybackRate. destruct (snapshot s) as [snap|] eqn:Hs; cbn.
  - destruct (media s) as [m|]; [destruct (set_playbackRate w m r)|]; cbn; (split; [done|split; by eexists]).
  - destruct (media s) as [m|]; [destruct (set_playbackRate w m r)|]; cbn; by rewrite ?Hs.
Qed.

Lemma play_core u s : core (play u s) = core s /\ snapshot (play u s) = snapshot s.
Proof. unfold play. cbv zeta. destruct (_ && _); [rewrite core_play, snapshot_play|]; done. Qed.

(** What a tick of the stall watch does. *)
Inductive stalled (w : World) (s s' : Rec) : Prop :=
| stalled_idle d : core s' = core (s <| stallWatch := d |>) -> (stallWatch s = None -> d = None) -> snapshot s' = snapshot s ->
    trace s' = trace s -> stalled w s s'
| stalled_waits d l : phase s = Ready -> core s' = core (s <| stallWatch := Some d |>) -> snapshot s' = snapshot s -> trace s' = trace s ++ l ->
    (forall e, e ∈ l -> match e with ORestart _ _ | ORecovering | OError _ => False | _ => True end) -> stalled w s s'
| stalled_reloads s1 d : phase s = Ready -> core s1 = core (s <| stallWatch := Some d |>) -> is_Some (snapshot s1) ->
    (exists p, trace s1 = trace s ++ [OStall p 1]) -> s' = runRecovery w false s1 -> stalled w s s'.

Lemma seek_trace w p s : exists l, trace (seek w p s).1 = trace s ++ l /\ forall e, e ∈ l -> e = OPause.
Proof.
  unfold seek, pause_media. destruct (media s) as [m|] eqn:Hm; [|exists []; rewrite app_nil_r; by split; [|intros ? ?%elem_of_nil]].
  destruct p as [q| |]; cbv zeta; [|exists []; rewrite app_nil_r; by split; [|intros ? ?%elem_of_nil]..].
  destruct (Qlt_bool q 0); [exists []; rewrite app_nil_r; by split; [|intros ? ?%elem_of_nil]|].
  destruct (Qle_bool _ _); [exists []; rewrite app_nil_r; by split; [|intros ? ?%elem_of_nil]|].
  exists [OPause]. cbn. rewrite Hm. split; [by case_match|]. intros e He. by apply list_elem_of_singleton in He.
Qed.

Definition silent (l : list effect) : Prop :=
  forall e, e ∈ l -> match e with ORestart _ _ | ORecovering | OError _ => False | _ => True end.

Lemma silent_app l l' : silent l -> silent l' -> silent (l ++ l').
Proof. intros H H' e He. apply elem_of_app in He as [He|He]; [by apply H|by apply H']. Qed.
Lemma silent_one e : match e with ORestart _ _ | ORecovering | OError _ => False | _ => True end -> silent [e].
Proof. by intros H ? ->%list_elem_of_singleton. Qed.
Lemma silent_nil : silent [].
Proof. by intros ? ?%elem_of_nil. Qed.

Lemma play_media_trace s : exists l, trace (play_media s) = trace s ++ l /\ silent l.
Proof.
  unfold play_media. destruct (media s); [exists [OPlay]; split; [done|by apply silent_one]|].
  exists []. rewrite app_nil_r. split; [done|apply silent_nil].
Qed.

(** The later rungs of the ladder only move the element. *)
Lemma rung_moves w p s :
  let s' := (let '(s1, thrown) := seek w p s in
             if thrown : bool then emit OThrow s1
             else let s1 := play_media s1 in if 3 <=? stallAttemptsAtAnchor s1 then emit OStallSkip s1 else s1) in
  core s' = core s /\ snapshot s' = snapshot s /\ exists l, trace s' = trace s ++ l /\ silent l.
Proof.
  cbv zeta. pose proof (core_seek w p s) as Hc. pose proof (snapshot_seek w p s) as Hs.
  destruct (seek_trace w p s) as (l & Hl & Hp). assert (Hsil : silent l) by (intros e He; by rewrite (Hp _ He)).
  destruct (seek w p s) as [s1 b]. cbn [fst] in *. destruct b.
  - split; [done|]. split; [done|]. exists (l ++ [OThrow]). cbn. rewrite Hl, app_assoc. split; [done|].
    apply silent_app; [done|by apply silent_one].
  - destruct (play_media_trace s1) as (l' & Hl' & Hp'). pose proof (core_play s1). pose proof (snapshot_play s1).
    destruct (3 <=? _).
    + split; [rewrite core_emit; congruence|]. split; [change (snapshot (play_media s1) = snapshot s); congruence|].
      exists ((l ++ l') ++ [OStallSkip]).
      change (trace (play_media s1) ++ [OStallSkip] = trace s ++ (l ++ l') ++ [OStallSkip] /\ silent ((l ++ l') ++ [OStallSkip])).
      rewrite Hl', Hl, <- !app_assoc. split; [done|]. rewrite app_assoc. apply silent_app; [by apply silent_app|by apply silent_one].
    + split; [congruence|]. split; [congruence|]. exists (l ++ l'). rewrite Hl', Hl, <- app_assoc. split; [done|by apply silent_app].
Qed.

Lemma recoverFromStall_spec w m s d : phase s = Ready ->
  stalled w s (recoverFromStall w m (s <| stallWatch := Some d |>)).
Proof.
  intros Hr. unfold recoverFromStall. cbv zeta.
  set (s0 := noteStallProgress w m _). set (s1 := emit _ s0).
  assert (Hc : core s1 = core (s <| stallWatch := Some d |>)) by done.
  assert (Hs : snapshot s1 = snapshot s) by done.
  assert (Ht : trace s1 = trace s ++ [OStall (currentTime m) (stallAttemptsAtAnchor s0)]) by done.
  change (stallAttemptsAtAnchor s1) with (stallAttemptsAtAnchor s0).
  destruct (stallAttemptsAtAnchor s0 =? 1) eqn:H1.
  - apply Z.eqb_eq in H1. rewrite H1 in Ht. destruct (stallFirstResponse_reload w).
    + apply (stalled_reloads w s _ (capture s1) d); [done|by rewrite core_capture|apply capture_some| |done].
      eexists. by rewrite trace_capture.
    + eapply (stalled_waits w s _ d [_]); [done..|exact Ht|]. apply silent_one. done.
  - destruct (rung_moves w (Fin (currentTime m + (if stallAttemptsAtAnchor s0 =? 2 then STALL_NUDGE_SECONDS else STALL_SKIP_SECONDS))) s1)
      as (Hc2 & Hs2 & l & Hl & Hp).
    apply (stalled_waits w s _ d ([OStall (currentTime m) (stallAttemptsAtAnchor s0)] ++ l)); [done|etransitivity; [exact Hc2|exact Hc]|etransitivity; [exact Hs2|exact Hs]| |].
    + etransitivity; [exact Hl|]. by rewrite Ht, <- app_assoc.
    + apply silent_app; [by apply silent_one|done].
Qed.

Lemma stall_tick_spec w s : stalled w s (stall_tick w s).
Proof.
  unfold stall_tick. destruct (stallWatch s) as [d|] eqn:Hd; [|apply (stalled_idle w s _ None); [|done..]].
  2:{ unfold core. cbn. by rewrite Hd. }
  destruct (d <=? now w); [|apply (stalled_idle w s _ (Some d)); [|by rewrite Hd|done..]].
  2:{ unfold core. cbn. by rewrite Hd. }
  set (d' := now w + STALL_CHECK_INTERVAL_MS). unfold stall_check. change (media (s <| stallWatch := Some d' |>)) with (media s).
  assert (Hidle : forall s', core s' = core (s <| stallWatch := Some d' |>) -> snapshot s' = snapshot s -> trace s' = trace s -> stalled w s s').
  { intros s' ? ? ?. apply (stalled_idle w s _ (Some d')); [done|by rewrite Hd|done..]. }
  destruct (media s) as [m|]; [|by apply Hidle].
  case_decide as Hp; [by apply Hidle|].
  destruct (hidden w); [by apply Hidle|]. destruct (_ || _); [by apply Hidle|].
  destruct (Qlt_bool _ _); [by apply Hidle|]. destruct (_ <? _); [by apply Hidle|].
  apply recoverFromStall_spec. by destruct (decide (phase s = Ready)).
Qed.

(** ** Every state is well formed *)

Lemma perform_well_formed t w c s : t <= now w -> well_formed t s -> well_formed (now w) (perform w c s).
Proof.
  intros Ht H. apply (well_formed_later _ _ _ Ht) in H. clear t Ht. destruct c; cbn [perform].
  - split; [done|]. split; [by eexists|done].
  - unfold retry. case_decide; [done|]. apply recovery_well_formed. apply capture_some.
  - eapply errored_well_formed; [done|apply handleError_spec].
  - apply (well_formed_core _ s); [apply core_metadata|by rewrite snapshot_metadata|done].
  - pose proof (canPlay_spec w s) as Hc. destruct (canPlay w s) as [s' []]; cbn [fst].
    + destruct Hc as (_ & Hp & Htm & Hs & _). unfold well_formed. by rewrite Hp.
    + destruct Hc as [Hc Hs]. apply (well_formed_core _ s); [done|by rewrite Hs|done].
  - destruct (play_core userInitiated s) as [Hc Hs]. apply (well_formed_core _ s); [done|by rewrite Hs|done].
  - apply (well_formed_core _ s); [unfold pause; by rewrite core_pause|unfold pause; by rewrite snapshot_pause|done].
  - destruct (setPosition_core w p s) as [Hc Hs]. by apply (well_formed_core _ s).
  - destruct (setPlaybackRate_core w r s) as [Hc Hs]. by apply (well_formed_core _ s).
  - done.
  - unfold timer_fires. destruct (timer s) as [[d|d]|] eqn:Htm; [..|done]; (destruct (d <=? now w); [|done]).
    + apply recovery_well_formed. unfold well_formed in H. destruct (phase s); naive_solver.
    + eapply (errored_shape w (clearTimer s)); [..|apply handleError_spec]; unfold well_formed in H; cbn;
        intros Hp; rewrite Hp in H; naive_solver.
  - destruct (stall_tick_spec w s) as [d Hc Hd Hs _|d l Hp Hc Hs _ _|s1 d Hp Hc Hs _ Hrun].
    + unfold core in Hc. injection Hc as Hph _ _ _ Htm _ Hsw. unfold well_formed in *. rewrite Hph, Htm, Hs, Hsw.
      cbn. destruct (phase s); try done; naive_solver.
    + unfold core in Hc. injection Hc as Hph _ _ _ Htm _ Hsw. unfold well_formed in *. rewrite Hph, Htm, Hs. cbn.
      by rewrite Hp in *.
    + rewrite Hrun. by apply recovery_well_formed.
  - unfold restart_settles. destruct (restarts s !! i) as [g|]; [|done]. cbv zeta.
    set (s1 := s <| restarts ::= _ |>). assert (H1 : well_formed (now w) s1) by exact H.
    destruct (_ && _); [|done]. eapply errored_well_formed; [exact H1|apply handleError_spec].
  - exact H.
Qed.

Lemma reachable_well_formed t s : reachable t s -> well_formed t s.
Proof.
  induction 1 as [t|t s w c _ IH Ht]; [by split; [|split; [eexists|]]|]. by eapply perform_well_formed.
Qed.

(** ** Recovery ends *)

Lemma turns_recovering s : phase s = Recovering -> turns s = (2 * rem s + 1)%nat.
Proof. unfold turns. by intros ->. Qed.
Lemma turns_scheduled s : phase s = Scheduled -> turns s = (2 * rem s + 2)%nat.
Proof. unfold turns. by intros ->. Qed.

(** A recovery under way goes on as it was, has fewer turns left, or has failed and said so. *)
Definition settling (s s' : Rec) : Prop :=
  (busy s' /\ timer s' = timer s /\ turns s' = turns s)
  \/ (busy s' /\ (turns s' < turns s)%nat)
  \/ (phase s' = Failed /\ exists e pre, trace s' = pre ++ [OError e]).

Lemma settling_core s s' : busy s -> core s' = core s -> settling s s'.
Proof.
  unfold core. intros Hb Hc. injection Hc as Hp Hna Hda _ Ht _ _. left.
  unfold busy, turns, rem. rewrite Hp, Hna, Hda. by split.
Qed.

Lemma errored_settling w s s1 s2 : settling s s1 -> errored w s1 s2 -> settling s s2.
Proof.
  intros H [Hc Ht Hp _|e Hd Hf Hp _ _ _ _ Ht _|d Hd Hf Hs Hp _ _ _ Hr _ _ _].
  - unfold core in Hc. injection Hc as Hp' Hna Hda _ Htm _ _.
    unfold settling, busy, turns, rem in *. rewrite Hp', Hna, Hda, Htm, Ht. exact H.
  - right. right. split; [done|]. by eexists _, _.
  - pose proof (turns_scheduled s2 Hp) as H2. right. left.
    assert (H1 : busy s1 /\ (turns s1 <= turns s)%nat).
    { destruct H as [(Hb & _ & H)|[[Hb H]|[H _]]]; [split; [done|lia]..|done]. }
    destruct H1 as [[Hb|Hb] H1]; [done|]. rewrite (turns_recovering s1 Hb) in H1.
    split; [by left|lia].
Qed.

Lemma erroring_settling w s s1 s2 : erroring w s1 s2 -> settling s s1 -> settling s s2.
Proof.
  induction 1 as [s1 s2 Hc Ht _|s1 s' s2 H1 _ IH]; intros H.
  - unfold core in Hc. injection Hc as Hp Hna Hda _ Htm _ _.
    unfold settling, busy, turns, rem in *. by rewrite Hp, Hna, Hda, Htm, Ht.
  - apply IH. by eapply errored_settling.
Qed.

Lemma settling_refl s : busy s -> settling s s.
Proof. intros H. by apply settling_core. Qed.

(** A timer that is due moves the recovery on. *)
Lemma due_timer_moves t w s tm : t <= now w -> well_formed t s -> busy s -> timer s = Some tm -> due_of tm <= now w ->
  let s' := perform w CTimer s in
  (busy s' /\ (turns s' < turns s)%nat) \/ (phase s' = Failed /\ exists e pre, trace s' = pre ++ [OError e]).
Proof.
  intros Ht H Hb Htm Hdue. cbn [perform]. unfold timer_fires. rewrite Htm.
  unfold well_formed in H. destruct tm as [d|d]; cbn [due_of] in Hdue; rewrite (proj2 (Z.leb_le _ _)) by done.
  - assert (Hp : phase s = Scheduled) by (destruct Hb as [Hb|Hb]; rewrite Hb in H; naive_solver).
    assert (Ha : busy (attempt w false s)) by by right.
    assert (Hlt : (turns (attempt w false s) < turns s)%nat).
    { rewrite (turns_scheduled s Hp), turns_recovering by done. change (rem (attempt w false s)) with (rem s). lia. }
    destruct (erroring_settling w (attempt w false s) _ _ (runRecovery_spec w false s) (settling_refl _ Ha)) as [(? & _ & ?)|[[? ?]|?]];
      [left; split; [done|lia]..|by right].
  - assert (Hp : phase s = Recovering) by (destruct Hb as [Hb|Hb]; rewrite Hb in H; naive_solver).
    destruct (handleError_spec w (lastError s) (clearTimer s)) as [_ _ Hn _|e _ _ Hp' _ _ _ _ Htr _|d' _ _ _ Hp' _ _ _ Hr _ _ _].
    + cbn in Hn. rewrite Hp in Hn. naive_solver.
    + right. split; [done|]. by eexists _, _.
    + left. split; [by left|]. change (rem (clearTimer s)) with (rem s) in Hr.
      rewrite (turns_recovering s Hp), turns_scheduled by done. lia.
Qed.

(** Whatever is called but [retry], a recovery under way settles, unless the player ends it. *)
Lemma busy_settles t w c s : t <= now w -> well_formed t s -> busy s -> c <> CRetry ->
  settling s (perform w c s) \/ c = CReset \/ c = CDispose \/ (c = CCanPlay /\ (canPlay w s).2 = true).
Proof.
  intros Ht H Hb Hc. pose proof (settling_core s) as Hcore.
  destruct c; try (by right; auto); cbn [perform].
  - left. eapply errored_settling; [by apply settling_refl|apply handleError_spec].
  - left. apply Hcore; [done|apply core_metadata].
  - pose proof (canPlay_spec w s) as Hp. destruct (canPlay w s) as [s' []]; [by right; right; right|].
    left. apply Hcore; [done|apply Hp].
  - left. apply Hcore; [done|apply play_core].
  - left. apply Hcore; [done|]. unfold pause. by rewrite core_pause.
  - left. apply Hcore; [done|apply setPosition_core].
  - left. apply Hcore; [done|apply setPlaybackRate_core].
  - destruct (timer s) as [tm|] eqn:Htm.
    + destruct (due_of tm <=? now w) eqn:Hd; [|].
      * apply Z.leb_le in Hd. left. right. by eapply (due_timer_moves t).
      * left. unfold timer_fires. rewrite Htm. destruct tm; cbn [due_of] in Hd; rewrite Hd; by apply settling_refl.
    + left. unfold timer_fires. rewrite Htm. by apply settling_refl.
  - left. destruct (stall_tick_spec w s) as [d Hc' _ _ _|d l Hp _ _ _ _|s1 d Hp _ _ _ _];
      [|by destruct Hb; congruence..].
    unfold core in Hc'. cbn in Hc'. injection Hc' as Hp Hna Hda _ Htm _ _. left.
    unfold busy, turns, rem. by rewrite Hp, Hna, Hda.
  - left. unfold restart_settles. destruct (restarts s !! i) as [g|]; [|by apply settling_refl]. cbv zeta.
    destruct (_ && _); [|by apply Hcore]. eapply errored_settling; [|apply handleError_spec]. by apply Hcore.
  - left. by apply Hcore.
Qed.

(** A stretch of calls during which a recovery stays under way, its timer never fires late, and
    [retry] is not called. *)
Inductive unresolved (t : Z) (s : Rec) : Z -> Rec -> Prop :=
| unresolved_here : unresolved t s t s
| unresolved_step t' s' w c :
    unresolved t s t' s' -> t' <= now w -> (forall tm, timer s' = Some tm -> now w <= due_of tm) ->
    c <> CRetry -> busy (perform w c s') -> unresolved t s (now w) (perform w c s').

Lemma turns_le s : (turns s <= 10)%nat.
Proof. unfold turns, rem. case_decide; lia. Qed.
Lemma turns_pos s : (1 <= turns s)%nat.
Proof. unfold turns. case_decide; lia. Qed.

Lemma busy_timer t s : well_formed t s -> busy s -> exists tm, timer s = Some tm /\ due_of tm <= t + RECOVERY_TIMEOUT_MS.
Proof.
  unfold well_formed, RECOVERY_TIMEOUT_MS. intros H [Hp|Hp]; rewrite Hp in H; destruct H as [(d & -> & Hd) _]; eexists; (split; [done|cbn; lia]).
Qed.

Lemma unresolved_due t s t' s' : well_formed t s -> busy s -> unresolved t s t' s' ->
  busy s' /\ well_formed t' s' /\ t <= t' <= t + RECOVERY_TIMEOUT_MS * Z.of_nat (turns s)
  /\ exists tm, timer s' = Some tm
       /\ due_of tm <= t + RECOVERY_TIMEOUT_MS * (Z.of_nat (turns s) - Z.of_nat (turns s') + 1).
Proof.
  intros H Hb. induction 1 as [|t' s' w c _ IH Ht Hdue Hc Hbusy].
  { destruct (busy_timer t s H Hb) as (tm & Htm & Hd). unfold RECOVERY_TIMEOUT_MS in *.
    repeat split; [done..|lia|lia|]. exists tm. split; [done|lia]. }
  destruct IH as (Hb' & Hwf & Htt & tm & Htm & Hd).
  pose proof (perform_well_formed t' w c s' Ht Hwf) as Hwf'. specialize (Hdue tm Htm).
  pose proof (turns_pos s') as Hpos. unfold RECOVERY_TIMEOUT_MS in *.
  split; [done|]. split; [done|]. split; [lia|].
  destruct (busy_timer (now w) _ Hwf' Hbusy) as (tm' & Htm' & Hd'). exists tm'. split; [done|].
  unfold RECOVERY_TIMEOUT_MS in *.
  destruct (busy_settles t' w c s' Ht Hwf Hb' Hc) as [Hs|Hs].
  - destruct Hs as [(_ & E1 & E2)|[[_ Hlt]|[Hf _]]].
    + rewrite E1, Htm in Htm'. injection Htm' as <-. rewrite E2. lia.
    + lia.
    + destruct Hbusy; congruence.
  - exfalso. destruct Hs as [->|[->|[-> Hp]]]; cbn [perform] in Hbusy; [by destruct Hbusy..|].
    pose proof (canPlay_spec w s') as Hs. destruct (canPlay w s') as [s2 b]. cbn in Hp, Hbusy. subst b.
    destruct Hs as (_ & Hr & _). destruct Hbusy; congruence.
Qed.

(** C38: a recovery ends: from any reachable state in which one is scheduled or under way, and
    whatever is called, reported or rejected meanwhile, it is not under way any more after five
    minutes, unless [retry] is called, and provided that the timers fire when they are due.  The
    timer it waits for moves it on, and when it ends, then with a working player, by the player
    being reset or disposed of, or by telling the player that the source has failed. *)
Theorem recovery_ends (t t' : Z) (s s' : Rec) :
  reachable t s -> busy s -> unresolved t s t' s' ->
  t' <= t + 300000
  /\ (forall w tm, t' <= now w -> timer s' = Some tm -> due_of tm <= now w ->
       (turns (perform w CTimer s') < turns s')%nat \/ phase (perform w CTimer s') = Failed)
  /\ (forall w c, t' <= now w -> c <> CRetry -> ~ busy (perform w c s') ->
       c = CReset \/ c = CDispose \/ (c = CCanPlay /\ (canPlay w s').2 = true)
       \/ (phase (perform w c s') = Failed /\ exists e pre, trace (perform w c s') = pre ++ [OError e])).
Proof.
  intros Hr Hb Hu. apply reachable_well_formed in Hr.
  destruct (unresolved_due t s t' s' Hr Hb Hu) as (Hb' & Hwf & Htt & _). split; [|split].
  - pose proof (turns_le s). unfold RECOVERY_TIMEOUT_MS in *. lia.
  - intros w tm Ht Htm Hd. destruct (due_timer_moves t' w s' tm Ht Hwf Hb' Htm Hd) as [[_ ?]|[? _]]; [by left|by right].
  - intros w c Ht Hc Hn. destruct (busy_settles t' w c s' Ht Hwf Hb' Hc) as [[[? _]|[[? _]|?]]|[?|[?|?]]]; tauto.
Qed.

(** ** Fetching again is bounded *)

Definition is_auto (e : effect) : bool := match e with ORestart _ false => true | _ => false end.
Definition is_first_stall (e : effect) : bool := match e with OStall _ n => n =? 1 | _ => false end.
Definition count (f : effect -> bool) (l : list effect) : nat := length (List.filter f l).
#[local] Arguments count : simpl never.

Lemma count_app f l l' : count f (l ++ l') = (count f l + count f l')%nat.
Proof. unfold count. by rewrite List.filter_app, length_app. Qed.

(** The restarts there were, with those that errors can still cause; a first stall pays for one. *)
Definition due_restarts (s : Rec) : nat :=
  (count is_auto (trace s) + rem s + if decide (phase s = Scheduled) then 1 else 0)%nat.
Definition stalls (s : Rec) : nat := count is_first_stall (trace s).
Definition paid (s s' : Rec) : Prop := (stalls s <= stalls s' /\ due_restarts s' + stalls s <= due_restarts s + stalls s')%nat.

Lemma paid_refl s : paid s s.
Proof. unfold paid. lia. Qed.
Lemma paid_trans s1 s2 s3 : paid s1 s2 -> paid s2 s3 -> paid s1 s3.
Proof. unfold paid. lia. Qed.

Lemma paid_core s s' l : core s' = core s -> trace s' = trace s ++ l -> count is_auto l = 0%nat -> paid s s'.
Proof.
  intros Hc Ht Hl. unfold core in Hc. injection Hc as Hp Hna Hda _ _ _ _.
  unfold paid, due_restarts, stalls, rem. rewrite Hp, Hna, Hda, Ht, !count_app, Hl. lia.
Qed.

Lemma paid_errored w s s' : errored w s s' -> paid s s'.
Proof.
  intros [Hc Ht _ _|e _ _ Hp _ _ Hr _ Ht _|d _ _ Hn Hp _ _ _ Hr _ Ht _].
  - apply (paid_core s s' []); [done|by rewrite app_nil_r|done].
  - unfold paid, due_restarts, stalls. rewrite Hp, Ht, !count_app.
    change (count is_auto [OError e]) with 0%nat. change (count is_first_stall [OError e]) with 0%nat. repeat case_decide; try done; lia.
  - unfold paid, due_restarts, stalls. rewrite Hp, Ht, !count_app.
    change (count is_auto [ORecovering]) with 0%nat. change (count is_first_stall [ORecovering]) with 0%nat. repeat case_decide; try done; lia.
Qed.

Lemma paid_erroring w s s' : erroring w s s' -> paid s s'.
Proof.
  induction 1 as [s s' Hc Ht _|s s1 s2 H _ IH].
  - apply (paid_core s s' []); [done|by rewrite app_nil_r|done].
  - eapply paid_trans; [by eapply paid_errored|done].
Qed.

(** The calls that only touch the element: nothing is fetched again and no stop is noted. *)
Definition calm (e : effect) : bool := match e with ORestart _ false | OStall _ _ => false | _ => true end.
Definition ladder (s : Rec) : option Q * Z := (stallAnchor s, stallAttemptsAtAnchor s).
Definition grows (s s' : Rec) : Prop := ladder s' = ladder s /\ exists l, trace s' = trace s ++ l /\ Forall (fun e => calm e = true) l.

Lemma calm_count l : Forall (fun e => calm e = true) l -> count is_auto l = 0%nat.
Proof.
  induction 1 as [|e l He _ IH]; [done|]. change (e :: l) with ([e] ++ l). rewrite count_app, IH.
  by destruct e as [| |? []| | | | |].
Qed.
Lemma grows_refl s s' : ladder s' = ladder s -> trace s' = trace s -> grows s s'.
Proof. intros Hl Ht. split; [done|]. exists []. by rewrite app_nil_r. Qed.
Lemma grows_one s s' e : ladder s' = ladder s -> trace s' = trace s ++ [e] -> calm e = true -> grows s s'.
Proof. intros Hl Ht He. split; [done|]. exists [e]. split; [done|]. by constructor. Qed.
Lemma grows_trans s1 s2 s3 : grows s1 s2 -> grows s2 s3 -> grows s1 s3.
Proof.
  intros (Hd & l & H & Hl) (Hd' & l' & H' & Hl'). split; [congruence|]. exists (l ++ l').
  rewrite H', H, app_assoc. split; [done|by apply Forall_app].
Qed.

Lemma silent_count l : silent l -> count is_auto l = 0%nat.
Proof.
  intros H. unfold count. induction l as [|e l IH]; [done|]. cbn.
  assert (He : is_auto e = false) by (pose proof (H e ltac:(by left)); by destruct e as [| |? []| | | | |]).
  rewrite He. apply IH. intros x Hx. apply H. by right.
Qed.

Lemma grows_pause s : grows s (pause_media s).
Proof. unfold pause_media. destruct (media s); [by apply (grows_one _ _ OPause)|by apply grows_refl]. Qed.
Lemma grows_play_media s : grows s (play_media s).
Proof. unfold play_media. destruct (media s); [by apply (grows_one _ _ OPlay)|by apply grows_refl]. Qed.
Lemma grows_seek w p s : grows s (seek w p s).1.
Proof.
  unfold seek. destruct (media s) as [m|] eqn:Hm; [|by apply grows_refl].
  destruct p as [q| |]; cbv zeta; [|by apply grows_refl..].
  destruct (Qlt_bool q 0); [by apply grows_refl|]. destruct (Qle_bool _ _); [by apply grows_refl|].
  pose proof (grows_pause (s <| target := Some q |>)) as Hp.
  destruct (set_currentTime w _ q); exact Hp.
Qed.
Lemma grows_play u s : grows s (play u s).
Proof.
  unfold play. cbv zeta. destruct (_ && _); [|by apply grows_refl].
  eapply grows_trans; [|apply grows_play_media]. by apply grows_refl.
Qed.
Lemma grows_metadata w s : grows s (restoreMetadata w s).1.
Proof.
  unfold restoreMetadata. destruct (media s) as [m|]; [|by apply grows_refl].
  destruct (_ || _); [by apply grows_refl|]. destruct (snapshot s) as [snap|]; [|by apply grows_refl]. cbv zeta.
  pose proof (grows_seek w (Fin (restored_position m snap)) s) as Hs.
  destruct (Qlt_bool _ _ && _).
  - destruct (seek w _ s) as [s1 b]. cbn [fst] in Hs. destruct b; [done|].
    destruct (media s1); [|done]. by destruct (set_playbackRate _ _ _).
  - destruct (media s); [|by apply grows_refl]. destruct (set_playbackRate _ _ _); by apply grows_refl.
Qed.
Lemma grows_canPlay w s : grows s (canPlay w s).1.
Proof.
  unfold canPlay. cbv zeta. destruct (_ || _); [by apply grows_refl|].
  pose proof (grows_metadata w s) as Hm. destruct (restoreMetadata w s) as [s1 []]; cbn [fst negb] in *; [|done].
  assert (Hr : grows s1 (seek_ready s1).1) by (apply grows_refl; unfold seek_ready; repeat case_match; done).
  destruct (seek_ready s1) as [s2 []]; cbn [fst negb] in *; [|by eapply grows_trans].
  eapply grows_trans; [exact Hm|]. eapply grows_trans; [exact Hr|].
  set (s3 := startStallWatch w _).
  assert (H3 : grows s2 s3) by (apply grows_refl; subst s3; unfold startStallWatch; by repeat case_match).
  destruct (desiredPlaying s3); [done|]. eapply grows_trans; [exact H3|apply grows_pause].
Qed.
Lemma grows_setPosition w p s : grows s (setPosition w p s).
Proof.
  unfold setPosition. destruct p as [q| |]; [|by apply grows_refl..]. destruct (Qlt_bool q 0); [by apply grows_refl|].
  destruct (snapshot s); [by apply grows_refl|]. pose proof (grows_seek w (Fin q) s) as H.
  destruct (seek w (Fin q) s) as [s1 []]; [|done]. eapply grows_trans; [exact H|by apply (grows_one _ _ OThrow)].
Qed.
Lemma grows_setPlaybackRate w r s : grows s (setPlaybackRate w r s).
Proof.
  unfold setPlaybackRate. cbv zeta. destruct (snapshot s); cbn; (destruct (media s); [|by apply grows_refl]);
    (destruct (set_playbackRate _ _ _); [by apply grows_refl|by apply (grows_one _ _ OThrow)]).
Qed.

Lemma paid_grows s s' : core s' = core s -> grows s s' -> paid s s'.
Proof. intros Hc (_ & l & Ht & Hl). apply (paid_core s s' l); [done..|by apply calm_count]. Qed.

Lemma paid_attempt w s s1 : paid s (attempt w false s1) -> paid s (runRecovery w false s1).
Proof. intros H. eapply paid_trans; [exact H|]. eapply paid_erroring, runRecovery_spec. Qed.

Lemma due_attempt w manual s :
  due_restarts (attempt w manual s) = (count is_auto (trace s) + (if manual then 0 else 1) + rem s)%nat
  /\ stalls (attempt w manual s) = stalls s.
Proof.
  unfold due_restarts, stalls. change (trace (attempt w manual s)) with (trace s ++ [ORestart (lastError s) manual]).
  change (rem (attempt w manual s)) with (rem s). rewrite !count_app. unfold attempt. cbn [phase].
  destruct manual; cbn [count List.filter is_auto is_first_stall length]; case_decide; try done; unfold count; cbn; split; lia.
Qed.

(** Every call but a reset pays for the restarts it makes possible; a call of [retry] buys four. *)
Lemma perform_paid t w c s : t <= now w -> well_formed t s -> c <> CReset ->
  (stalls s <= stalls (perform w c s)
   /\ due_restarts (perform w c s) + stalls s
      <= due_restarts s + stalls (perform w c s) + (match c with CRetry => 4 | _ => 0 end))%nat.
Proof.
  intros Ht H Hc. enough (Hp : c <> CRetry -> paid s (perform w c s)).
  { destruct c; try (destruct (Hp ltac:(done)); split; lia). clear Hp. cbn [perform]. unfold retry. case_decide; [lia|]. cbv zeta.
    set (s1 := emit ORecovering _).
    pose proof (paid_erroring w _ _ (runRecovery_spec w true s1)) as [H1 H2].
    destruct (due_attempt w true s1) as [Ha Hs]. rewrite Ha, Hs in *.
    assert (Htr : trace s1 = trace s ++ [ORecovering]) by (unfold s1; cbn; by rewrite trace_capture).
    assert (E1 : stalls s1 = stalls s) by (unfold stalls; rewrite Htr, count_app; apply Nat.add_0_r).
    assert (E2 : count is_auto (trace s1) = count is_auto (trace s)) by (rewrite Htr, count_app; apply Nat.add_0_r).
    assert (E3 : rem s1 = 4%nat) by done. unfold due_restarts in *. split; lia. }
  intros Hr. destruct c; try done; cbn [perform].
  - eapply paid_errored, handleError_spec.
  - apply paid_grows; [apply core_metadata|apply grows_metadata].
  - pose proof (canPlay_spec w s) as Hs. pose proof (grows_canPlay w s) as Hg.
    destruct (canPlay w s) as [s' []]; cbn [fst] in *; [|apply paid_grows; tauto].
    destruct Hg as (_ & l & Hl & Hl0%calm_count).
    destruct Hs as (_ & Hp & _ & _ & Hna & Hda). unfold paid, due_restarts, stalls, rem.
    rewrite Hp, Hna, Hda, Hl, !count_app, Hl0. repeat case_decide; try done; lia.
  - apply paid_grows; [apply play_core|apply grows_play].
  - eapply paid_trans; [|apply paid_grows; [apply core_pause|apply grows_pause]]. by apply (paid_core _ _ []); [|rewrite app_nil_r|].
  - apply paid_grows; [apply setPosition_core|apply grows_setPosition].
  - apply paid_grows; [apply setPlaybackRate_core|apply grows_setPlaybackRate].
  - unfold paid, due_restarts, stalls, rem. cbn. repeat case_decide; try done; lia.
  - unfold timer_fires. destruct (timer s) as [[d|d]|] eqn:Htm; [..|apply paid_refl]; (destruct (d <=? now w); [|apply paid_refl]).
    + apply paid_attempt. destruct (due_attempt w false s) as [Ha Hs]. unfold paid. rewrite Ha, Hs. unfold due_restarts.
      assert (Hp : phase s = Scheduled) by (unfold well_formed in H; destruct (phase s); naive_solver). case_decide; [lia|done].
    + eapply paid_trans; [|eapply paid_errored, handleError_spec]. unfold paid, due_restarts, stalls, rem. cbn. lia.
  - destruct (stall_tick_spec w s) as [d Hc' _ _ Htr|d l Hp Hc' _ Htr Hl|s1 d Hp Hc' _ [pos Htr] ->].
    + unfold core in Hc'. injection Hc' as Hp Hna Hda _ _ _ _. unfold paid, due_restarts, stalls, rem. rewrite Hp, Hna, Hda, Htr. cbn. lia.
    + unfold core in Hc'. injection Hc' as Hp' Hna Hda _ _ _ _. unfold paid, due_restarts, stalls, rem.
      rewrite Hp', Hna, Hda, Htr, !count_app, (silent_count l Hl). cbn. lia.
    + unfold core in Hc'. injection Hc' as Hp' Hna Hda _ _ _ _. apply paid_attempt.
      destruct (due_attempt w false s1) as [Ha Hs]. unfold paid. rewrite Ha, Hs. unfold due_restarts, stalls, rem.
      rewrite Hna, Hda, Htr, !count_app. unfold count; cbn. lia.
  - unfold restart_settles. destruct (restarts s !! i) as [g|]; [|apply paid_refl]. cbv zeta. set (s1 := s <| restarts ::= _ |>).
    assert (H1 : paid s s1) by (by apply (paid_core _ _ []); [|rewrite app_nil_r|]).
    destruct (_ && _); [|done]. eapply paid_trans; [done|eapply paid_errored, handleError_spec].
Qed.

(** A stretch of calls without a reset, with the number of calls of [retry]. *)
Inductive onward (t : Z) (s : Rec) : nat -> Z -> Rec -> Prop :=
| onward_here : onward t s 0 t s
| onward_step n t' s' w c : onward t s n t' s' -> t' <= now w -> c <> CReset ->
    onward t s (match c with CRetry => S n | _ => n end) (now w) (perform w c s').

Lemma onward_paid t s n t' s' : well_formed t s -> onward t s n t' s' ->
  well_formed t' s' /\ (stalls s <= stalls s' /\ due_restarts s' + stalls s <= due_restarts s + stalls s' + 4 * n)%nat.
Proof.
  intros H. induction 1 as [|n t' s' w c _ (Hwf & IH1 & IH2) Ht Hc]; [split; [done|lia]|].
  split; [by eapply perform_well_formed|]. pose proof (perform_paid t' w c s' Ht Hwf Hc) as [H1 H2].
  destruct c; lia.
Qed.

(** ** One reload for each place

    A place is counted from where the element was at the ticks that found it stopped, and not
    from the rung of the ladder the engine took: the next stop is at the same place when it is
    within half a second of the one before. *)

Definition stopped_at (l : list effect) : list Q := omap (fun e => match e with OStall p _ => Some p | _ => None end) l.
Definition same_place (p q : Q) : bool := Qle_bool (Qabs' (p - q)) (1 # 2).
Fixpoint places (before : option Q) (l : list Q) : nat :=
  match l with
  | [] => 0
  | p :: l => ((if match before with Some q => same_place p q | None => false end then 0 else 1) + places (Some p) l)%nat
  end.

Lemma stopped_app l l' : stopped_at (l ++ l') = stopped_at l ++ stopped_at l'.
Proof. apply omap_app. Qed.

Lemma places_snoc l p : forall before,
  places before (l ++ [p])
    = (places before l
       + if match (match last l with Some q => Some q | None => before end) with Some q => same_place p q | None => false end
         then 0 else 1)%nat.
Proof.
  induction l as [|q l IH]; intros before; [cbn; lia|].
  cbn [app places]. rewrite IH, Nat.add_assoc. destruct l as [|q' l]; [done|].
  change (last (q :: q' :: l)) with (last (q' :: l)). by destruct (last (q' :: l)) eqn:H; [|apply last_None in H].
Qed.

(** What a call does to the ladder: nothing, or the rung of the stop it has found. *)
Definition next_rung (s : Rec) (p : Q) : Z :=
  if match stallAnchor s with Some a => same_place p a | None => false end then stallAttemptsAtAnchor s + 1 else 1.
Definition climbs (s s' : Rec) : Prop :=
  (ladder s' = ladder s /\ exists l, trace s' = trace s ++ l /\ stopped_at l = [])
  \/ exists p l, ladder s' = (Some p, next_rung s p) /\ trace s' = trace s ++ OStall p (next_rung s p) :: l /\ stopped_at l = [].

Lemma calm_stopped l : Forall (fun e => calm e = true) l -> stopped_at l = [].
Proof. induction 1 as [|e l He _ IH]; [done|]. by destruct e. Qed.

Definition steady (s s' : Rec) : Prop := ladder s' = ladder s /\ exists l, trace s' = trace s ++ l /\ stopped_at l = [].

Lemma steady_trans s1 s2 s3 : steady s1 s2 -> steady s2 s3 -> steady s1 s3.
Proof.
  intros (Hd & l & H & Hl) (Hd' & l' & H' & Hl'). split; [congruence|]. exists (l ++ l').
  rewrite H', H, app_assoc, stopped_app, Hl, Hl'. done.
Qed.
Lemma steady_grows s s' : grows s s' -> steady s s'.
Proof. intros (Hd & l & Hl & Hc). split; [done|]. exists l. split; [done|by apply calm_stopped]. Qed.
Lemma steady_error w e s : steady s (handleError w e s).
Proof.
  split.
  - unfold handleError, next_delay, capture, fail. repeat (case_match || case_decide || cbv zeta); simplify_eq; done.
  - destruct (handleError_spec w e s) as [_ Ht _ _|e' _ _ _ _ _ _ _ Ht _|d _ _ _ _ _ _ _ _ _ Ht _]; rewrite Ht;
      [exists []; by rewrite app_nil_r|by eexists..].
Qed.
Lemma steady_recovery w manual s : steady s (runRecovery w manual s).
Proof.
  unfold runRecovery. cbv zeta. change (emit _ _) with (attempt w manual s).
  assert (Ha : steady s (attempt w manual s)) by (split; [done|by eexists]).
  assert (Hend : forall s1, steady s1 (if restart_throws w then handleError w (lastError s1) s1
                                       else s1 <| restarts ::= fun l => l ++ [generation s] |>)).
  { intros s1. destruct (restart_throws w); [apply steady_error|]. apply steady_grows. by apply grows_refl. }
  destruct (restart_reports w) as [e|].
  - eapply steady_trans; [exact Ha|]. eapply steady_trans; [apply (steady_error w e)|apply Hend].
  - eapply steady_trans; [exact Ha|apply Hend].
Qed.

Lemma climbs_stall w m s : media s = Some m -> climbs s (recoverFromStall w m s).
Proof.
  intros Hm. right. unfold recoverFromStall. cbv zeta. fold (same_place (currentTime m)).
  set (s1 := emit _ _). exists (currentTime m).
  assert (H1 : ladder s1 = (Some (currentTime m), next_rung s (currentTime m))
               /\ trace s1 = trace s ++ [OStall (currentTime m) (next_rung s (currentTime m))]) by done.
  enough (Hs : steady s1 (if stallAttemptsAtAnchor s1 =? 1 then if stallFirstResponse_reload w then runRecovery w false (capture s1) else s1
     else let '(s2, thrown) := seek w (Fin (currentTime m + (if stallAttemptsAtAnchor s1 =? 2 then STALL_NUDGE_SECONDS else STALL_SKIP_SECONDS))) s1 in
          if thrown : bool then emit OThrow s2
          else if 3 <=? stallAttemptsAtAnchor (play_media s2) then emit OStallSkip (play_media s2) else play_media s2)).
  { destruct Hs as (Hl & l & Ht & Hn), H1 as [Hl1 Ht1]. exists l. split; [etransitivity; [exact Hl|exact Hl1]|]. split; [|done].
    etransitivity; [exact Ht|]. by rewrite Ht1, <- app_assoc. }
  destruct (_ =? 1).
  - destruct (stallFirstResponse_reload w); [|by apply steady_grows, grows_refl].
    eapply steady_trans; [|apply steady_recovery]. apply steady_grows, grows_refl; unfold capture; by destruct (snapshot s1).
  - apply steady_grows. pose proof (grows_seek w (Fin (currentTime m + (if stallAttemptsAtAnchor s1 =? 2 then STALL_NUDGE_SECONDS else STALL_SKIP_SECONDS))) s1) as Hg.
    destruct (seek w _ s1) as [s2 b]. cbn [fst] in Hg. destruct b; [eapply grows_trans; [exact Hg|by apply (grows_one _ _ OThrow)]|].
    pose proof (grows_trans _ _ _ Hg (grows_play_media s2)) as Hg2.
    destruct (3 <=? _); [|done]. eapply grows_trans; [exact Hg2|by apply (grows_one _ _ OStallSkip)].
Qed.

Lemma perform_climbs w c s : c <> CReset -> climbs s (perform w c s).
Proof.
  intros Hc. enough (Hs : c <> CStallTick -> steady s (perform w c s)).
  { destruct c; try (by left; apply Hs). clear Hs. cbn [perform]. unfold stall_tick, stall_check.
    destruct (stallWatch s) as [d|]; [|left; by apply steady_grows, grows_refl].
    destruct (d <=? now w); [|left; by apply steady_grows, grows_refl].
    change (media (s <| stallWatch := _ |>)) with (media s).
    destruct (media s) as [m|] eqn:Hm; [|left; by apply steady_grows, grows_refl].
    case_decide; [left; by apply steady_grows, grows_refl|].
    destruct (hidden w); [left; by apply steady_grows, grows_refl|].
    destruct (_ || _); [left; by apply steady_grows, grows_refl|].
    destruct (Qlt_bool _ _); [left; by apply steady_grows, grows_refl|].
    destruct (_ <? _); [left; by apply steady_grows, grows_refl|].
    set (s1 := s <| stallWatch := _ |>). assert (Hm1 : media s1 = Some m) by exact Hm. exact (climbs_stall w m s1 Hm1). }
  intros Ht. destruct c; try done; cbn [perform].
  - unfold retry. case_decide; [by apply steady_grows, grows_refl|]. cbv zeta. eapply steady_trans; [|apply steady_recovery].
    apply steady_grows. apply (grows_one _ _ ORecovering); unfold capture; by destruct (snapshot s) eqn:Hsn; cbn; rewrite ?Hsn.
  - apply steady_error.
  - apply steady_grows, grows_metadata.
  - apply steady_grows, grows_canPlay.
  - apply steady_grows, grows_play.
  - apply steady_grows. eapply grows_trans; [|apply grows_pause]. by apply grows_refl.
  - apply steady_grows, grows_setPosition.
  - apply steady_grows, grows_setPlaybackRate.
  - by apply steady_grows, grows_refl.
  - unfold timer_fires. destruct (timer s) as [[d|d]|]; [..|by apply steady_grows, grows_refl];
      (destruct (d <=? now w); [|by apply steady_grows, grows_refl]).
    + apply steady_recovery.
    + eapply steady_trans; [|apply steady_error]. by apply steady_grows, grows_refl.
  - unfold restart_settles. destruct (restarts s !! i); [|by apply steady_grows, grows_refl]. cbv zeta.
    set (s1 := s <| restarts ::= _ |>). assert (H1 : steady s s1) by by apply steady_grows, grows_refl.
    destruct (_ && _); [|done]. eapply steady_trans; [exact H1|apply steady_error].
  - by apply steady_grows, grows_refl.
Qed.

(** The ladder remembers the last stop, and takes its first rung once for each place. *)
Definition remembers (s : Rec) (l : list effect) : Prop :=
  stallAnchor s = last (stopped_at l) /\ (is_Some (stallAnchor s) -> 1 <= stallAttemptsAtAnchor s)
  /\ (count is_first_stall l <= places None (stopped_at l))%nat.

Lemma first_stalls_none l : stopped_at l = [] -> count is_first_stall l = 0%nat.
Proof.
  induction l as [|e l IH]; [done|]. change (e :: l) with ([e] ++ l). rewrite stopped_app, count_app.
  intros [He Hl]%app_nil. rewrite (IH Hl). by destruct e.
Qed.

Lemma remembers_climb s s' l : remembers s l -> climbs s s' -> exists l', trace s' = trace s ++ l' /\ remembers s' (l ++ l').
Proof.
  intros (Ha & Hn & Hc) [(Hl & l' & Ht & Hs)|(p & l' & Hl & Ht & Hs)]; unfold ladder in Hl; injection Hl as Ha' Hn'.
  - exists l'. split; [done|]. unfold remembers. rewrite stopped_app, count_app, Hs, app_nil_r, Ha', Hn', (first_stalls_none l' Hs).
    repeat split; [done..|lia].
  - exists (OStall p (next_rung s p) :: l'). split; [done|]. unfold remembers.
    change (OStall p (next_rung s p) :: l') with ([OStall p (next_rung s p)] ++ l').
    rewrite !stopped_app, !count_app, Hs, app_nil_r, (first_stalls_none l' Hs), Ha', Hn'. change (stopped_at [_]) with [p].
    rewrite last_snoc, places_snoc, <- Ha. unfold next_rung in *.
    replace (match stallAnchor s with Some q => Some q | None => None end) with (stallAnchor s) by by destruct (stallAnchor s).
    unfold count at 2. cbn [List.filter is_first_stall].
    destruct (stallAnchor s) as [a|].
    + specialize (Hn ltac:(by eexists)). destruct (same_place p a); [rewrite (proj2 (Z.eqb_neq _ _)) by lia|rewrite Z.eqb_refl];
        cbn [length]; repeat split; try lia; done.
    + rewrite Z.eqb_refl. cbn [length]. repeat split; try lia; done.
Qed.

Lemma onward_remembers t s n t' s' : remembers s [] -> onward t s n t' s' -> exists l, trace s' = trace s ++ l /\ remembers s' l.
Proof.
  intros H. induction 1 as [|n t' s' w c _ (l & Hl & IH) Ht Hc]; [exists []; by rewrite app_nil_r|].
  destruct (remembers_climb s' (perform w c s') l IH (perform_climbs w c s' Hc)) as (l' & Hl' & H').
  exists (l ++ l'). by rewrite Hl', Hl, app_assoc.
Qed.

Lemma reset_remembers w s : remembers (perform w CReset s) [].
Proof. split; [done|]. split; [by intros [? ?]|]. apply Nat.le_0_l. Qed.
Lemma reset_due w s :
  trace (perform w CReset s) = trace s /\ due_restarts (perform w CReset s) = (count is_auto (trace s) + 4)%nat
  /\ stalls (perform w CReset s) = stalls s.
Proof.
  split; [done|]. split; [|done]. unfold due_restarts. change (rem (perform w CReset s)) with 4%nat.
  change (trace (perform w CReset s)) with (trace s). case_decide; [done|apply Nat.add_0_r].
Qed.


(** ** The viewer comes back *)

(** Where and how fast the viewer is to go on: as at the error, or as told since. *)
Definition place_after (c : Call) (snap : PlaybackSnapshot) : PlaybackSnapshot :=
  match c with
  | CSetPosition (Fin q) => if Qlt_bool q 0 then snap else snap <| position := q |>
  | CSetRate r => snap <| rate := r |>
  | _ => snap
  end.
Definition last_place (l : list (World * Call)) (snap : PlaybackSnapshot) : PlaybackSnapshot :=
  fold_left (fun p x => place_after x.2 p) l snap.

Lemma last_place_same l : forall p p', (position p == position p')%Q -> rate p = rate p' ->
  (position (last_place l p) == position (last_place l p'))%Q /\ rate (last_place l p) = rate (last_place l p').
Proof.
  induction l as [|[w c] l IH]; intros p p' Hp Hr; [done|]. apply IH; destruct c; try done;
    (destruct p0 as [q| |]; [|done..]; cbn; by destruct (Qlt_bool q 0)).
Qed.

(** Calls from [t] on: no new source, and the element was not ready yet whenever it was asked. *)
Fixpoint unfinished (t : Z) (l : list (World * Call)) (s : Rec) : Prop :=
  match l with
  | [] => True
  | (w, c) :: l => t <= now w /\ c <> CReset /\ (c = CCanPlay -> (canPlay w s).2 = false) /\ unfinished (now w) l (perform w c s)
  end.

Lemma snapshot_errored w s s' snap : snapshot s = Some snap -> errored w s s' -> snapshot s' = Some snap.
Proof.
  intros Hs [_ _ _ [Ht|[_ Ht]]|e _ _ _ _ _ _ _ _ Ht|d _ _ _ _ _ _ _ _ _ _ Ht]; rewrite Ht, ?(capture_keeps s snap Hs); done.
Qed.
Lemma snapshot_erroring w s s' snap : erroring w s s' -> snapshot s = Some snap -> snapshot s' = Some snap.
Proof.
  induction 1 as [s s' _ _ Ht|s s1 s2 H _ IH]; intros Hs; [by rewrite Ht|]. apply IH. by eapply snapshot_errored.
Qed.
Lemma snapshot_recovery w manual s snap : snapshot s = Some snap -> snapshot (runRecovery w manual s) = Some snap.
Proof. intros Hs. by eapply snapshot_erroring; [apply runRecovery_spec|]. Qed.

Lemma snapshot_perform w c s snap : phase s <> Ready -> snapshot s = Some snap -> c <> CReset ->
  (c = CCanPlay -> (canPlay w s).2 = false) -> snapshot (perform w c s) = Some (place_after c snap).
Proof.
  intros Hn Hs Hc Hcan. destruct c; try done; cbn [perform place_after].
  - unfold retry. case_decide; [done|]. apply snapshot_recovery. cbn. by rewrite (capture_keeps _ snap).
  - eapply snapshot_errored; [done|apply handleError_spec].
  - by rewrite snapshot_metadata.
  - pose proof (canPlay_spec w s) as Hp. specialize (Hcan eq_refl). destruct (canPlay w s) as [s' b]. cbn in *. subst b. destruct Hp; congruence.
  - destruct (play_core userInitiated s); congruence.
  - unfold pause. by rewrite snapshot_pause.
  - unfold setPosition. destruct p as [q| |]; [|done..]. destruct (Qlt_bool q 0); [done|]. by rewrite Hs.
  - unfold setPlaybackRate. rewrite Hs. cbn. destruct (media s); [destruct (set_playbackRate _ _ _)|]; done.
  - unfold timer_fires. destruct (timer s) as [[d|d]|]; [..|done]; (destruct (d <=? now w); [|done]).
    + by apply snapshot_recovery.
    + eapply snapshot_errored; [|apply handleError_spec]. done.
  - destruct (stall_tick_spec w s) as [d _ _ Ht _|d l Hp _ _ _ _|s1 d Hp _ _ _ _]; [congruence|done..].
  - unfold restart_settles. destruct (restarts s !! i) as [g|]; [|done]. cbv zeta.
    destruct (_ && _); [|done]. eapply snapshot_errored; [|apply handleError_spec]. done.
Qed.

(** While the snapshot is there the player is not ready. *)
Lemma snapshot_run l : forall t s snap, well_formed t s -> snapshot s = Some snap -> unfinished t l s ->
  snapshot (run l s) = Some (last_place l snap).
Proof.
  induction l as [|[w c] l IH]; intros t s snap Hwf Hs Hu; [done|].
  destruct Hu as (Ht & Hc & Hcan & Hu).
  apply (IH (now w) (perform w c s) (place_after c snap)); [by eapply perform_well_formed| |done].
  apply snapshot_perform; try done. intros Hp. unfold well_formed in Hwf. rewrite Hp in Hwf. destruct Hwf; congruence.
Qed.

(** What the browser keeps when the rate is set. *)
Definition rate_law (w : World) : Prop :=
  forall m r m', set_playbackRate w m r = Some m' ->
    playbackRate m' = r /\ currentTime m' = currentTime m /\ m_error m' = m_error m.

Lemma restored_position_nonneg m snap : (0 <= position snap)%Q -> (0 <= restored_position m snap)%Q.
Proof.
  intros H. unfold restored_position. destruct (duration m) as [d| |]; [|done..]. destruct (Qlt_bool 0 d); [|done].
  unfold Qmin', Qmax'. repeat case_match; try done; try lra. by apply Qle_bool_iff.
Qed.

Lemma metadata_restores w s s1 snap m : rate_law w ->
  snapshot s = Some snap -> media s = Some m -> restoreMetadata w s = (s1, true) ->
  exists m1, media s1 = Some m1 /\ playbackRate m1 = rate snap
    /\ ((1 # 10 < position snap)%Q ->
        (Qabs' (currentTime m1 - restored_position m snap) <= 1 # 2)%Q \/ target s1 = Some (restored_position m snap))
    /\ ((position snap <= 1 # 10)%Q -> currentTime m1 = currentTime m).
Proof.
  intros Hlaw Hs Hm. unfold restoreMetadata. rewrite Hm. destruct (_ || _); [done|]. rewrite Hs. cbv zeta.
  set (place := restored_position m snap).
  assert (Hset : forall s0 m0, media s0 = Some m0 ->
    match media s0 with
    | Some m' => match set_playbackRate w m' (rate snap) with
                 | Some m'' => (s0 <| media := Some m'' |>, true)
                 | None => (s0, false)
                 end
    | None => (s0, false)
    end = (s1, true) ->
    target s1 = target s0 /\ exists m1, media s1 = Some m1 /\ playbackRate m1 = rate snap /\ currentTime m1 = currentTime m0).
  { intros s0 m0 ->. destruct (set_playbackRate w m0 (rate snap)) as [m1|] eqn:Hr; [|done]. intros [= <-].
    destruct (Hlaw _ _ _ Hr) as (? & ? & _). split; [done|]. by exists m1. }
  destruct (Qlt_bool (1 # 10) (position snap)) eqn:H1; cbn [andb].
  - apply Qlt_bool_iff in H1. destruct (Qlt_bool RESTORE_SEEK_TOLERANCE_SECONDS _) eqn:H2.
    + apply Qlt_bool_iff in H2. unfold seek. rewrite Hm.
      pose proof (restored_position_nonneg m snap ltac:(lra)) as Hpos. fold place in Hpos, H2.
      rewrite (proj2 (Qlt_bool_false place 0)) by done.
      assert (H3 : Qle_bool (Qabs' (currentTime m - place)) SEEK_TOLERANCE_SECONDS = false).
      { apply not_true_is_false. rewrite Qle_bool_iff. unfold RESTORE_SEEK_TOLERANCE_SECONDS, SEEK_TOLERANCE_SECONDS in *. lra. }
      rewrite H3. cbv zeta. destruct (set_currentTime w _ place) as [m0|]; [|done].
      intros He. apply (Hset _ m0) in He as (Ht & m1 & ? & ? & _); [|done].
      exists m1. split; [done|]. split; [done|]. split; [|intros; lra]. intros _. right. rewrite Ht. cbn. unfold pause_media. cbn. by rewrite Hm.
    + apply Qlt_bool_false in H2. intros He. apply (Hset _ m Hm) in He as (_ & m1 & ? & ? & Hc).
      exists m1. split; [done|]. split; [done|]. split; [|done]. intros _. left. rewrite Hc. fold place in H2. unfold RESTORE_SEEK_TOLERANCE_SECONDS in H2. lra.
  - apply Qlt_bool_false in H1. intros He. apply (Hset _ m Hm) in He as (_ & m1 & ? & ? & ?).
    exists m1. split; [done|]. split; [done|]. split; [intros; lra|done].
Qed.

Lemma ready_near s s' m : seek_ready s = (s', true) -> media s = Some m ->
  media s' = Some m /\ forall p, target s = Some p -> (Qabs' (currentTime m - p) <= 1 # 2)%Q.
Proof.
  unfold seek_ready. intros H Hm. rewrite Hm in H. destruct (_ || _); [done|].
  destruct (target s) as [p|]; [|by injection H as <-].
  destruct (Qlt_bool _ _) eqn:Hq; [done|]. injection H as <-. split; [done|]. intros ? [= <-]. by apply Qlt_bool_false.
Qed.

(** What a successful [canPlay] has done with the snapshot. *)
Lemma canPlay_restores w s s' snap m : rate_law w ->
  snapshot s = Some snap -> media s = Some m -> canPlay w s = (s', true) ->
  exists m', media s' = Some m' /\ playbackRate m' = rate snap /\ (desiredPlaying s' = false -> paused m' = true)
    /\ ((1 # 10 < position snap)%Q -> (Qabs' (currentTime m' - restored_position m snap) <= 1 # 2)%Q)
    /\ ((position snap <= 1 # 10)%Q -> currentTime m' = currentTime m).
Proof.
  intros Hlaw Hs Hm. unfold canPlay. cbv zeta. destruct (_ || _); [done|].
  destruct (restoreMetadata w s) as [s1 []] eqn:Hr; cbn [negb]; [|done].
  destruct (metadata_restores w s s1 snap m Hlaw Hs Hm Hr) as (m1 & Hm1 & Hrate & Hplace & Hstay).
  destruct (seek_ready s1) as [s2 []] eqn:Hk; cbn [negb]; [|done].
  destruct (ready_near s1 s2 m1 Hk Hm1) as [Hm2 Hnear].
  set (s3 := startStallWatch w _).
  assert (Hm3 : media s3 = Some m1) by (subst s3; unfold startStallWatch; cbn; destruct (stallWatch s2); cbn; rewrite ?Hm2; done).
  assert (Hd : (1 # 10 < position snap)%Q -> (Qabs' (currentTime m1 - restored_position m snap) <= 1 # 2)%Q).
  { intros Hp. destruct (Hplace Hp) as [?|Ht]; [done|by apply Hnear]. }
  destruct (desiredPlaying s3) eqn:Hdes; intros [= <-].
  - exists m1. rewrite Hdes. by repeat split.
  - exists (m1 <| paused := true |>). unfold pause_media. rewrite Hm3. by repeat split.
Qed.

(** Half a second around a place. *)
Definition near (q p : Q) : Prop := (p - (1 # 2) <= q /\ q <= p + (1 # 2))%Q.

Lemma near_abs q p : (Qabs' (q - p) <= 1 # 2)%Q -> near q p.
Proof.
  unfold Qabs', near. destruct (Qle_bool 0 (q - p)) eqn:H; [apply Qle_bool_iff in H; lra|].
  apply not_true_iff_false in H. rewrite Qle_bool_iff in H. lra.
Qed.
Lemma Qmax'_Qmax x y : (Qmax' x y == Qmax x y)%Q.
Proof.
  unfold Qmax'. destruct (Qle_bool x y) eqn:H; [apply Qle_bool_iff in H; by rewrite Q.max_r|].
  apply not_true_iff_false in H. rewrite Qle_bool_iff in H. rewrite Q.max_l; [done|lra].
Qed.
Lemma Qmin'_Qmin x y : (Qmin' x y == Qmin x y)%Q.
Proof.
  unfold Qmin'. destruct (Qle_bool x y) eqn:H; [apply Qle_bool_iff in H; by rewrite Q.min_l|].
  apply not_true_iff_false in H. rewrite Qle_bool_iff in H. rewrite Q.min_r; [done|lra].
Qed.

Lemma near_restored q m snap : (Qabs' (q - restored_position m snap) <= 1 # 2)%Q ->
  match duration m with
  | Fin d => ((0 < d)%Q -> near q (Qmin (position snap) (Qmax 0 (d - (1 # 10))))) /\ ((d <= 0)%Q -> near q (position snap))
  | _ => near q (position snap)
  end.
Proof.
  intros H%near_abs. revert H. unfold restored_position. destruct (duration m) as [d| |]; [|done..].
  destruct (Qlt_bool 0 d) eqn:Hd.
  - apply Qlt_bool_iff in Hd. unfold near. rewrite Qmin'_Qmin, Qmax'_Qmax. split; [done|intros; lra].
  - apply Qlt_bool_false in Hd. split; [intros; lra|done].
Qed.

(** C40: a viewer comes back where it was: when a player that works meets an error more than a
    tenth of a second into the video, whatever is called, reported and rejected after that, the
    next time the element can play it plays within half a second of where the viewer was at the
    error, or was sent since - or of a tenth of a second before the end, when the new source is
    shorter -, at the speed it had or was given since, and it stays paused when the viewer has
    paused meanwhile.  A viewer that was, or was sent, within the first tenth of a second is left
    where the new source stands. *)
Theorem viewer_comes_back (t : Z) (w w' : World) (e : MediaPlayerError) (l : list (World * Call)) (s s' : Rec) (m0 m : Media) :
  rate_law w' -> reachable t s -> phase s = Ready -> media s = Some m0 -> t <= now w ->
  unfinished (now w) l (handleError w e s) ->
  media (run l (handleError w e s)) = Some m ->
  canPlay w' (run l (handleError w e s)) = (s', true) ->
  let viewer := last_place l (MkSnapshot (Qmax 0 (currentTime m0)) (playbackRate m0)) in
  exists m', media s' = Some m' /\ playbackRate m' = rate viewer /\ (desiredPlaying s' = false -> paused m' = true)
    /\ ((1 # 10 < position viewer)%Q ->
        match duration m with
        | Fin d => ((0 < d)%Q -> near (currentTime m') (Qmin (position viewer) (Qmax 0 (d - (1 # 10)))))
                   /\ ((d <= 0)%Q -> near (currentTime m') (position viewer))
        | _ => near (currentTime m') (position viewer)
        end)
    /\ ((position viewer <= 1 # 10)%Q -> currentTime m' = currentTime m).
Proof.
  intros Hlaw Hr Hp Hm0 Ht Hu Hm Hcan viewer. apply reachable_well_formed in Hr.
  assert (Hs0 : snapshot s = None) by (unfold well_formed in Hr; rewrite Hp in Hr; by destruct Hr).
  set (snap0 := MkSnapshot (Qmax' 0 (currentTime m0)) (playbackRate m0)).
  assert (Hs1 : snapshot (handleError w e s) = Some snap0).
  { pose proof (handleError_spec w e s) as [_ _ [?|[?|?]] _|? _ _ _ _ _ _ _ _ Hs|? _ _ _ _ _ _ _ _ _ _ Hs]; try congruence.
    all: rewrite Hs; unfold capture; by rewrite Hs0, Hm0. }
  destruct (last_place_same l snap0 (MkSnapshot (Qmax 0 (currentTime m0)) (playbackRate m0)) (Qmax'_Qmax _ _) eq_refl) as [Hpos Hrate].
  fold viewer in Hpos, Hrate.
  destruct (canPlay_restores w' (run l (handleError w e s)) s' (last_place l snap0) m) as (m' & Hm' & Hr' & Hd & Hnear & Hstay); try done.
  { apply (snapshot_run l (now w)); [|done..]. change (handleError w e s) with (perform w (CError e) s). by eapply perform_well_formed. }
  exists m'. split; [done|]. split; [congruence|]. split; [done|]. split.
  - intros H. rewrite <- Hpos in H. specialize (Hnear H). apply near_restored in Hnear. unfold near in *.
    destruct (duration m); by rewrite <- !Hpos.
  - intros H. apply Hstay. by rewrite Hpos.
Qed.

(** A player that was disposed of stays quiet until it is given a new source. *)
Lemma disposed_is_quiet t w c s : t <= now w -> well_formed t s -> phase s = Disposed -> c <> CReset ->
  phase (perform w c s) = Disposed /\ timer (perform w c s) = None /\ stallWatch (perform w c s) = None
  /\ grows s (perform w c s).
Proof.
  intros Ht H Hp Hc.
  enough (phase (perform w c s) = Disposed /\ grows s (perform w c s)) as [Hd Hg].
  { pose proof (perform_well_formed t w c s Ht H) as Hwf. unfold well_formed in Hwf. rewrite Hd in Hwf. tauto. }
  unfold well_formed in H. rewrite Hp in H. destruct H as [Htm Hsw].
  assert (Hcore : forall s', core s' = core s -> phase s' = Disposed) by (unfold core; intros s' Heq; congruence).
  destruct c; try done; cbn [perform].
  - unfold retry. rewrite decide_True by done. split; [done|by apply grows_refl].
  - unfold handleError. rewrite decide_True by auto. split; [done|by apply grows_refl].
  - split; [apply Hcore, core_metadata|apply grows_metadata].
  - split; [|apply grows_canPlay]. pose proof (canPlay_spec w s) as Hs. destruct (canPlay w s) as [s' []]; cbn.
    + destruct Hs as ([?|[?|?]] & _); congruence.
    + apply Hcore, Hs.
  - split; [apply Hcore, play_core|apply grows_play].
  - split; [apply Hcore; unfold pause; by rewrite core_pause|].
    eapply grows_trans; [|apply grows_pause]. by apply grows_refl.
  - split; [apply Hcore, setPosition_core|apply grows_setPosition].
  - split; [apply Hcore, setPlaybackRate_core|apply grows_setPlaybackRate].
  - split; [done|by apply grows_refl].
  - unfold timer_fires. rewrite Htm. split; [done|by apply grows_refl].
  - unfold stall_tick. rewrite Hsw. split; [done|by apply grows_refl].
  - unfold restart_settles. destruct (restarts s !! i); [|split; [done|by apply grows_refl]]. cbv zeta.
    rewrite bool_decide_eq_true_2 by exact Hp. cbn [negb]. rewrite andb_false_r. split; [done|by apply grows_refl].
  - split; [done|by apply grows_refl].
Qed.

(** ** Samples *)

Fixpoint on_time (t : Z) (l : list (World * Call)) : Prop :=
  match l with [] => True | (w, _) :: l => t <= now w /\ on_time (now w) l end.
Definition end_time (t : Z) (l : list (World * Call)) : Z := fold_left (fun _ x => now x.1) l t.

Lemma drill_reachable l : forall t s, reachable t s -> on_time t l -> reachable (end_time t l) (run l s).
Proof.
  induction l as [|[w c] l IH]; intros t s Hr Ht; [done|]. destruct Ht as [Ht Hl]. apply IH; [|done]. by apply (reach_step t).
Qed.

(** A browser that does what it is told, and restarts that promise to settle. *)
Definition at_ (t : Z) : World :=
  MkWorld t false true None false (fun m p => Some (m <| currentTime := p |>)) (fun m r => Some (m <| playbackRate := r |>)).
Definition video : Media := MkMedia 50 1 (Fin 100) 4 false false false true.
Definition network : MediaPlayerError := MkError Network None.

(** A player that works, with the viewer at fifty seconds. *)
Definition warm_up : list (World * Call) :=
  [(at_ 0, CMedia (Some video)); (at_ 0, CSetPosition (Fin 50)); (at_ 0, CPlay true); (at_ 0, CCanPlay)].
Definition warm : Rec := run warm_up createMediaRecovery.

Lemma warm_reachable : reachable 0 warm.
Proof. apply (drill_reachable warm_up 0 createMediaRecovery); [constructor|]. vm_compute. repeat split; discriminate. Qed.

Lemma recovery_ends_witness :
  let s := perform (at_ 1000) (CError network) warm in
  let s' := perform (at_ 2000) CTimer s in
  busy s' /\ 2000 <= 1000 + 300000.
Proof.
  cbv zeta. split; [right; reflexivity|].
  refine (proj1 (recovery_ends 1000 2000 (perform (at_ 1000) (CError network) warm)
    (perform (at_ 2000) CTimer (perform (at_ 1000) (CError network) warm)) _ _ _)).
  - refine (reach_step 0 warm (at_ 1000) (CError network) warm_reachable _). discriminate.
  - left. reflexivity.
  - refine (unresolved_step 1000 _ 1000 _ (at_ 2000) CTimer (unresolved_here _ _) _ _ _ _); [discriminate| |discriminate|right; reflexivity].
    intros tm Htm. vm_compute in Htm. injection Htm as <-. discriminate.
Defined.


(** The request fails; while it is tried again the room seeks to seventy. *)
Definition interlude : list (World * Call) :=
  [(at_ 1500, CSetPosition (Fin 70)); (at_ 2000, CTimer); (at_ 2500, CMedia (Some (video <| currentTime := 0%Q |>)))].

Lemma viewer_comes_back_witness :
  let s := run interlude (handleError (at_ 1000) network warm) in
  let s' := (canPlay (at_ 3000) s).1 in
  exists m', media s' = Some m' /\ playbackRate m' = 1%Q /\ (desiredPlaying s' = false -> paused m' = true)
    /\ ((1 # 10 < 70)%Q ->
        ((0 < 100)%Q -> near (currentTime m') (Qmin 70 (Qmax 0 (100 - (1 # 10))))) /\ ((100 <= 0)%Q -> near (currentTime m') 70))
    /\ ((70 <= 1 # 10)%Q -> currentTime m' = 0%Q).
Proof.
  refine (viewer_comes_back 0 (at_ 1000) (at_ 3000) network interlude warm
    (canPlay (at_ 3000) (run interlude (handleError (at_ 1000) network warm))).1 video (video <| currentTime := 0%Q |>) _ warm_reachable _ _ _ _ _ _).
  - intros m r m' [= <-]. repeat split.
  - reflexivity.
  - reflexivity.
  - discriminate.
  - vm_compute. repeat split; discriminate.
  - vm_compute. reflexivity.
  - vm_compute. reflexivity.
Defined.

(** An attempt hangs and is given up after thirty seconds; the next one works and the viewer is
    watching again.  Then the promise of the first is rejected: playback is interrupted once
    more. *)
Example late_rejection_restarts_a_ready_player :
  let s := run [(at_ 1000, CError network); (at_ 2000, CTimer); (at_ 32000, CTimer); (at_ 35000, CTimer);
                (at_ 36000, CCanPlay)] warm in
  phase s = Ready /\ phase (perform (at_ 40000) (CSettles 0 true) s) = Scheduled.
Proof. split; vm_compute; reflexivity. Qed.

(** An engine that recovers in place leaves the element where it is; when the room seeks to the
    start meanwhile, the viewer is not taken there. *)
Example seek_to_start_is_lost :
  let s := run [(at_ 1000, CError network); (at_ 1500, CSetPosition (Fin 0)); (at_ 2000, CTimer); (at_ 3000, CCanPlay)] warm in
  phase s = Ready /\ getPosition (run [(at_ 1000, CError network); (at_ 1500, CSetPosition (Fin 0))] warm) = 0%Q /\ getPosition s = 50%Q.
Proof. repeat split; vm_compute; reflexivity. Qed.
